(* ===== verification/_CoqProject ===== *)
-Q . S2P
Prelude.v
GoStrings.v
Paths.v
Runes.v
Json.v
JsonText.v
JvmPool.v
LandQuality.v
LandCommand.v
Custody.v
RestartRecord.v
Restart.v
KanbanTree.v
KanbanExport.v
KanbanRender.v
KanbanCommand.v
Errfmt.v
Config.v
Stealth.v
Client.v
Relay.v
Dispatch.v
Control.v
Bin.v
Autostart.v
Identity.v
Supervisor.v
Supervision.v
SummaryCache.v
PoolRecord.v
PoolHost.v
PoolProbe.v
Pool.v
PoolCustody.v
PoolWrites.v
Forward.v
Membership.v
Status.v
StatusList.v
Output.v
Commands.v
Server.v
Startup.v
Launch.v
Replacement.v
Teardown.v
MillCommand.v
