(* ===== verification/Prelude.v ===== *)
(** * Millstrand: the strand and mill command lines, and their tools

    A verification library for the Go programs of this repository: the supervisor [mill]
    (src/cli/cmd/mill), the command [strand] (src/cli/cmd/strand) with the packages both are
    made of (src/cli/internal), and the tools land-quality and kanban-tree (src/tools).

    ** The program

    A workspace is a directory with a configuration. Its weaver is a JVM process that
    publishes metadata files in the workspace's state directory and answers on a socket.
    [mill] is the one supervisor of a user: it finds or starts weavers, alone or as members
    of a JVM pool (one host process for several workspaces), restarts them through a probe
    and a durable record, keeps custody of the processes that a weaver asks for, forwards
    invocations to the weaver's socket, and starts registered workspaces when it starts.
    [strand] dispatches a command line as one invocation through mill and relays the answer.

    An invocation passes Dispatch (flags, payloads, envelope), Client (mill's metadata, one
    call), Server (mill's request checks) or Forward (admission of the target, relay of the
    response), and Relay (frames to standard output). A start passes Server, Supervisor
    (claims, children, transitions) or Pool (hosts of pools), Launch (source and arguments)
    and Identity (published metadata). A restart passes Restart and Replacement, or Pool with
    PoolProbe, and leaves a RestartRecord or PoolRecord. Status, StatusList and Output say
    what is known of all that. Startup and Teardown are the two ends of mill.

    ** The files

    Shared ground: Prelude (results, the state-and-error monad [ST], tactics, lists, maps),
    GoStrings (Go's byte strings, [strings], [path/filepath], [strconv.Atoi]), Paths (clean
    absolute paths), Runes (UTF-8), Json (values of [any] and their encoder), JsonText (the
    decoder and encoder of texts, fields of structs and slices).

    Packages under src/cli/internal: JvmPool (jvmpool/registry.go), Custody
    (process/custody.go, process.go), Errfmt (errfmt), Config (config/config.go, runtime.go,
    bootstrap.go, release.go), Stealth (config/stealth.go), Client (client/client.go,
    mill.go), Relay (client/invoke.go), Dispatch (dispatch/dispatch.go).

    The supervisor under src/cli/cmd/mill: Identity (metadata and statuses of lifecycle.go,
    signals of restart_process.go), Supervisor and Supervision (starts, stops and exit
    observers of lifecycle.go, temporary.go, restart.go), Launch (resolveLaunchSource,
    weaverArgs, weaverStartupError of lifecycle.go; dependency_diagnostic.go), Replacement
    (launchReplacement and waitForReadyStatus of restart_process.go), Restart and
    RestartRecord (restart.go, restart_status.go, restart_record.go, restart_probe.go),
    SummaryCache (the cached readers), PoolHost, PoolProbe, PoolRecord (the files of those
    names), Pool, PoolCustody, PoolWrites (pool_lifecycle.go), Membership
    (pool_membership.go), Status and StatusList (pool_status.go, the status and list of
    lifecycle.go), Control (process_control.go), Autostart (autostart.go), Bin (bin.go),
    Forward (forward.go), Server and Startup (handle and start of main.go), Commands
    (subcommands.go), Output (output.go), MillCommand (changelog.go, usage.go), Teardown
    (stopAll of lifecycle.go).

    The tools: LandQuality and LandCommand (land-quality/main.go), KanbanTree and
    KanbanRender (tree.go, render.go, theme.go and the validation of export.go),
    KanbanExport (decoding and fetching of export.go), KanbanCommand (main.go).

    Every definition keeps the name of the function or type it translates where that is a
    Rocq identifier; a part of a longer function that is a definition of its own is named
    after what it does.

    ** How the code is modelled

    Fallible functions return [result], stateful ones are functions on an explicit state
    ([ST]), with the state of a failed call included. Concurrency is a step relation:
    Custody (its critical sections and goroutines), Supervisor (threads that hold their place
    in the code, the children and the mutex), Autostart (workers and shutdown). Mutable
    objects shared by pointer are in a heap: rows in Custody, children in Supervisor, hosts
    in Pool. Everything outside the process is an answer given in advance, one for each time
    the code asks: the outcome of system calls, what a file or the process table holds at
    each look, what a socket gives. A look that repeats (polls of an endpoint, ticks of a
    wait, turns of a forwarding) takes a list of answers; a theorem about its end says under
    which answers it ends. What Go iterates over a map in no order is a list whose order is
    free. Integers that can overflow are kept in 64 bits ([wrap64], explicit range checks).

    Interfaces: the operations that Server needs of the lifecycle are the class [Lifecycle]
    of Server; Supervision proves the supervisor against the answers of Supervisor; Control
    and Forward act on the records of Custody and Identity.

    ** What the theorems show

    - Durable state stays readable and means what was asked: JvmPool, RestartRecord,
      PoolRecord, PoolWrites, Membership.
    - Processes: Custody (signals only to groups that were not reaped, one launch for a
      reservation, one terminal outcome, no deadlock), Identity (signals and removals only on
      proof of identity), Supervisor and Supervision (one launcher at a time, a running
      weaver is registered, stops return), Replacement (no process out of account), Teardown
      (a shutdown reaches everything and touches nothing else).
    - Protocols as ordered effects: Restart, Pool, Forward (locks, at most one request),
      Server (nothing happens before a request is checked), Autostart.
    - Refinement and equivalence: JvmPool against a map, Relay of a forwarded connection
      against the weaver's own, the edit distance of Errfmt against its specification, the
      encoders against the decoders.
    - Tools: the scheduler and the exit code of land-quality; that kanban-tree draws each
      kept strand once, reads its flags anywhere, and always ends.

    ** Fuel and bounds

    [JsonText.parse_value] counts its calls: twice the length of the text and two are enough,
    since each call but every second reads a byte (proved with the decoder). [KanbanTree]
    walks (parents, reachability) and [KanbanRender] branches and sections take as much as
    there are strands or edges, [LandQuality.visit] one more than there are checks,
    [KanbanCommand.intersperse] one more than there are arguments; in each file a theorem
    says that this never runs out.

    ** Assumptions

    Parameters stand for what is not under src, and for library calls whose result is only
    passed on: the shortest and the fixed text of a float, [strings.ToLower] of a rune
    beyond ASCII, [time.ParseDuration], quoting with [%q], texts of library errors, SHA-256,
    local times, symbolic links, Git. Strings that come from JSON are valid UTF-8. In
    RestartRecord and PoolRecord a file holds the value its text decodes to, in JvmPool the
    document, elsewhere the JSON document of its text. Arrays of strings in a status are kept
    as such ([AStrings]); a status that crosses the socket is compared one level deep
    ([Output.received]). A lifecycle call of a pool is one sequence, with what other calls do
    between its parts given. Identity, Teardown and Replacement see the file system as a map
    from paths to documents.

    ** Not modelled

    The reap observers and peer credentials (system calls for which the model takes the
    outcome), cobra's command tree and the wiring of flags in newMillCommand, the accept loop
    and signal handling of mill, sockets and their deadlines, process environments and log
    files, help texts and the summary lines of land-quality, the copying of configurations
    into the private directories of a pooled probe, the one call of the strand entry point,
    and everything that is not Go: the weaver itself is Clojure and is known here only by its
    metadata, its endpoint and its frames. *)

From stdpp Require Export base decidable option list gmap strings sorting.
From Stdlib Require Export Lia ZArith Ascii.

(** ** Results: the value-or-error pairs every Go operation returns *)

(** [Ok a] is a Go return with a nil error; [Err e] is the zero value with a
    non-nil error. *)
Inductive result (E A : Type) : Type :=
| Ok (a : A)
| Err (e : E).

Arguments Ok {E A} a.
Arguments Err {E A} e.

#[global] Instance result_ret E : MRet (result E) := λ A a, Ok a.
#[global] Instance result_bind E : MBind (result E) :=
  λ A B f m, match m with Ok a => f a | Err e => Err e end.

(** [ensure b e] is the early return [if !b { return e }]. *)
Definition ensure {E} (b : bool) (e : E) : result E unit :=
  if b then Ok tt else Err e.

Definition is_ok {E A} (r : result E A) : bool :=
  match r with Ok _ => true | Err _ => false end.

(** A loop over [l] whose body may return early with an error; the body sees
    the index. *)
Fixpoint check_from {E A} (f : nat → A → result E unit) (i : nat) (l : list A)
    : result E unit :=
  match l with
  | [] => Ok tt
  | x :: l => f i x ;; check_from f (S i) l
  end.

Definition check_each {E A} (f : A → result E unit) (l : list A) : result E unit :=
  check_from (λ _, f) 0 l.

(** ** State with errors: methods that change an object and may fail *)

(** A method on a state [S]: the state after the call and its outcome. An
    error does not roll the state back. *)
Definition ST (S E A : Type) : Type := S → S * result E A.

#[global] Instance st_ret S E : MRet (ST S E) := λ A a s, (s, Ok a).
#[global] Instance st_bind S E : MBind (ST S E) :=
  λ A B f m s, match m s with
               | (s', Ok a) => f a s'
               | (s', Err e) => (s', Err e)
               end.

Definition st_get {S E} : ST S E S := λ s, (s, Ok s).
Definition st_put {S E} (s' : S) : ST S E unit := λ _, (s', Ok tt).
Definition st_modify {S E} (f : S → S) : ST S E unit := λ s, (f s, Ok tt).
Definition st_fail {S E A} (e : E) : ST S E A := λ s, (s, Err e).
Definition st_lift {S E A} (r : result E A) : ST S E A := λ s, (s, r).

(** ** Tactics *)

Create HintDb go discriminated.

(** [inv_ok] walks a successful chain of binds and guards backwards. *)
Lemma result_bind_ok {E A B} (m : result E A) (k : A → result E B) b :
  m ≫= k = Ok b ↔ ∃ a, m = Ok a ∧ k a = Ok b.
Proof. destruct m; simpl; naive_solver. Qed.

Lemma result_bind_err {E A B} (m : result E A) (k : A → result E B) e :
  m ≫= k = Err e ↔ m = Err e ∨ ∃ a, m = Ok a ∧ k a = Err e.
Proof. destruct m; simpl; naive_solver. Qed.

Lemma ensure_ok {E} b (e : E) u : ensure b e = Ok u ↔ b = true.
Proof. destruct b, u; simpl; naive_solver. Qed.

Lemma ensure_err {E} b (e e' : E) : ensure b e = Err e' ↔ b = false ∧ e = e'.
Proof. destruct b; simpl; naive_solver. Qed.

Ltac inv_ok :=
  repeat match goal with
  | H : mbind _ _ = Ok _ |- _ =>
      apply result_bind_ok in H; destruct H as (? & ? & ?)
  | H : ensure _ _ = Ok _ |- _ => apply ensure_ok in H
  | H : Ok _ = Ok _ |- _ => injection H as H; subst
  | H : Err _ = Ok _ |- _ => discriminate H
  | H : Ok _ = Err _ |- _ => discriminate H
  | x : unit |- _ => destruct x
  end.

(** [btauto_hyps] turns boolean hypotheses into propositions. *)
Ltac bools :=
  repeat match goal with
  | H : _ && _ = true |- _ => apply andb_true_iff in H; destruct H
  | H : _ || _ = false |- _ => apply orb_false_iff in H; destruct H
  | H : negb _ = true |- _ => apply negb_true_iff in H
  | H : negb _ = false |- _ => apply negb_false_iff in H
  | H : bool_decide _ = true |- _ => apply bool_decide_eq_true in H
  | H : bool_decide _ = false |- _ => apply bool_decide_eq_false in H
  end.

Lemma check_from_ok {E A} (f : nat → A → result E unit) i l u :
  check_from f i l = Ok u ↔
  ∀ k x, l !! k = Some x → f (i + k) x = Ok tt.
Proof.
  destruct u. revert i. induction l as [|y l IH]; intros i; simpl.
  - split; [intros _ k x Hx; by rewrite lookup_nil in Hx|done].
  - rewrite result_bind_ok. split.
    + intros ([] & Hy & Hl) [|k] x Hx; simplify_eq/=.
      * by rewrite Nat.add_0_r.
      * rewrite IH in Hl. rewrite <- Nat.add_succ_comm. eauto.
    + intros H. exists tt. split.
      * specialize (H 0 y eq_refl). by rewrite Nat.add_0_r in H.
      * apply IH. intros k x Hx. rewrite Nat.add_succ_comm. by apply (H (S k)).
Qed.

Lemma check_each_ok {E A} (f : A → result E unit) l u :
  check_each f l = Ok u ↔ Forall (λ x, f x = Ok tt) l.
Proof.
  unfold check_each. rewrite check_from_ok, Forall_lookup. naive_solver.
Qed.

(** ** Sets and lists *)

Lemma size_list_to_set_le `{Countable A} (l : list A) :
  size (list_to_set l : gset A) ≤ length l.
Proof.
  induction l as [|x l IH]; simpl; [done|].
  rewrite size_union_alt, size_singleton.
  assert (size ((list_to_set l : gset A) ∖ {[x]}) ≤ size (list_to_set l : gset A)).
  { apply subseteq_size. set_solver. }
  lia.
Qed.

Lemma sum_list_filter_le {A} (f : A → nat) (P : A → Prop) `{∀ x, Decision (P x)} (l : list A) :
  sum_list (f <$> filter P l) ≤ sum_list (f <$> l).
Proof.
  induction l as [|x l IH]; [done|]. rewrite filter_cons, fmap_cons.
  destruct (decide (P x)); rewrite ?fmap_cons; simpl; lia.
Qed.

Lemma length_filter_le {A} (P Q : A → Prop) `{∀ x, Decision (P x), ∀ x, Decision (Q x)}
    (l : list A) :
  (∀ x, x ∈ l → P x → Q x) → length (filter P l) ≤ length (filter Q l).
Proof.
  induction l as [|x l IH]; intros H'; [done|]. rewrite !filter_cons.
  assert (length (filter P l) ≤ length (filter Q l)).
  { apply IH. intros z Hz. apply H'. by right. }
  pose proof (H' x ltac:(by left)).
  destruct (decide (P x)), (decide (Q x)); simpl; try lia. tauto.
Qed.

Lemma length_filter_strict {A} (P Q : A → Prop) `{∀ x, Decision (P x), ∀ x, Decision (Q x)}
    (l : list A) y :
  (∀ x, x ∈ l → P x → Q x) → y ∈ l → Q y → ¬ P y → length (filter P l) < length (filter Q l).
Proof.
  intros HPQ Hy HQ HP. apply list_elem_of_split in Hy as (l1 & l2 & ->).
  rewrite !filter_app, !length_app, !filter_cons, decide_False, decide_True by done.
  assert (length (filter P l1) ≤ length (filter Q l1)).
  { apply length_filter_le. intros x Hx. apply HPQ, elem_of_app. by left. }
  assert (length (filter P l2) ≤ length (filter Q l2)).
  { apply length_filter_le. intros x Hx. apply HPQ, elem_of_app. right. by right. }
  simpl. lia.
Qed.

(** ** Invariants of step relations *)

Lemma rtc_invariant {S} (step : S → S → Prop) (I : S → Prop) s s' :
  (∀ x y, I x → step x y → I y) → I s → rtc step s s' → I s'.
Proof. intros Hstep Hs. induction 1; eauto. Qed.

(** ** Stable sorting: [sort.Slice] and [sort.SliceStable] *)

Section stable_sort.
Context {A : Type} (lt : A → A → bool).

Fixpoint insert_stable (x : A) (l : list A) : list A :=
  match l with
  | [] => [x]
  | y :: l' => if lt y x then y :: insert_stable x l' else x :: l
  end.

Definition sort_stable (l : list A) : list A := foldr insert_stable [] l.

Lemma insert_stable_perm x l : insert_stable x l ≡ₚ x :: l.
Proof.
  induction l as [|y l IH]; simpl; [done|].
  destruct (lt y x); [|done]. rewrite IH. apply Permutation_swap.
Qed.

Lemma sort_stable_perm l : sort_stable l ≡ₚ l.
Proof.
  induction l as [|x l IH]; simpl; [done|].
  rewrite insert_stable_perm. by constructor.
Qed.

Lemma elem_of_sort_stable x l : x ∈ sort_stable l ↔ x ∈ l.
Proof. by rewrite sort_stable_perm. Qed.

Lemma length_sort_stable l : length (sort_stable l) = length l.
Proof. by rewrite sort_stable_perm. Qed.

(** [le x y]: [y] does not go before [x]. *)
Definition sort_le (x y : A) : Prop := lt y x = false.

Lemma sort_stable_id l : Sorted sort_le l → sort_stable l = l.
Proof.
  induction 1 as [|x l Hs IH Hh]; [done|]. simpl. rewrite IH.
  destruct Hh as [|y l Hxy]; [done|]. simpl. unfold sort_le in Hxy.
  by rewrite Hxy.
Qed.

(** Elements none of which goes before another keep their order. *)
Lemma sort_stable_filter (P : A → Prop) `{∀ x, Decision (P x)} l :
  (∀ x y, P x → P y → lt x y = false) → filter P (sort_stable l) = filter P l.
Proof.
  intros HP. induction l as [|x l IH]; [done|]. cbn [sort_stable foldr].
  fold (sort_stable l).
  assert (∀ l, filter P (insert_stable x l) = filter P (x :: l)) as Hins.
  2: { by rewrite Hins, !filter_cons, IH. }
  clear l IH. induction l as [|y l IH]; [done|]. cbn [insert_stable].
  destruct (lt y x) eqn:E; [|done].
  rewrite (filter_cons _ y), IH, !filter_cons.
  destruct (decide (P x)) as [Hx|], (decide (P y)) as [Hy|]; try done.
  by rewrite (HP y x Hy Hx) in E.
Qed.

Hypothesis lt_asym : ∀ x y, lt x y = true → lt y x = false.

Lemma HdRel_insert_stable x y l :
  HdRel sort_le y l → sort_le y x → HdRel sort_le y (insert_stable x l).
Proof.
  intros Hl Hx. destruct l as [|z l]; simpl; [by constructor|].
  destruct (lt z x); [|by constructor]. inversion Hl; subst. by constructor.
Qed.

Lemma insert_stable_sorted x l :
  Sorted sort_le l → Sorted sort_le (insert_stable x l).
Proof.
  induction 1 as [|y l Hs IH Hh]; simpl; [by repeat constructor|].
  destruct (lt y x) eqn:E.
  - constructor; [done|]. apply HdRel_insert_stable; [done|].
    unfold sort_le. by apply lt_asym.
  - constructor; [by constructor|]. by constructor.
Qed.

Lemma sort_stable_sorted l : Sorted sort_le (sort_stable l).
Proof.
  induction l as [|x l IH]; simpl; [constructor|].
  by apply insert_stable_sorted.
Qed.
End stable_sort.

Lemma sort_stable_fmap {A B} (f : A → B) (lt : B → B → bool) (l : list A) :
  sort_stable lt (f <$> l) = f <$> sort_stable (λ x y, lt (f x) (f y)) l.
Proof.
  induction l as [|x l IH]; [done|]. cbn [fmap list_fmap sort_stable foldr].
  change (insert_stable lt (f x) (sort_stable lt (f <$> l))
    = f <$> insert_stable (λ x y, lt (f x) (f y)) x (sort_stable (λ x y, lt (f x) (f y)) l)).
  rewrite IH. generalize (sort_stable (λ x y, lt (f x) (f y)) l). clear.
  induction l as [|y l IH]; [done|]. cbn [fmap list_fmap insert_stable].
  destruct (lt (f y) (f x)); [|done]. cbn [fmap list_fmap]. f_equal. apply IH.
Qed.
