(* ===== verification/GoStrings.v ===== *)
(** Go byte strings: the parts of the packages [strings] and [path/filepath]
    (on Unix) that the program uses. A Go string is a sequence of bytes; it is
    modelled by [string], one character a byte. *)

From S2P Require Export Prelude.

(** ** Order of strings: Go's [<] compares bytes *)

Fixpoint str_ltb (a b : string) : bool :=
  match a, b with
  | _, EmptyString => false
  | EmptyString, String _ _ => true
  | String x a', String y b' =>
      if (Ascii.N_of_ascii x <? Ascii.N_of_ascii y)%N then true
      else if (Ascii.N_of_ascii y <? Ascii.N_of_ascii x)%N then false
      else str_ltb a' b'
  end.

Definition str_lt (a b : string) : Prop := str_ltb a b = true.

#[global] Instance str_lt_dec a b : Decision (str_lt a b) :=
  decide (str_ltb a b = true).

Lemma N_of_ascii_inj x y : Ascii.N_of_ascii x = Ascii.N_of_ascii y → x = y.
Proof.
  intros H. rewrite <-(Ascii.ascii_N_embedding x), <-(Ascii.ascii_N_embedding y).
  by rewrite H.
Qed.

Lemma str_ltb_irrefl a : str_ltb a a = false.
Proof. induction a as [|x a IH]; simpl; [done|]. by rewrite N.ltb_irrefl. Qed.

Lemma str_ltb_trans a b c :
  str_ltb a b = true → str_ltb b c = true → str_ltb a c = true.
Proof.
  revert b c. induction a as [|x a IH]; intros [|y b] [|z c]; simpl; try done.
  destruct (N.ltb_spec (Ascii.N_of_ascii x) (Ascii.N_of_ascii y)),
    (N.ltb_spec (Ascii.N_of_ascii y) (Ascii.N_of_ascii x)),
    (N.ltb_spec (Ascii.N_of_ascii y) (Ascii.N_of_ascii z)),
    (N.ltb_spec (Ascii.N_of_ascii z) (Ascii.N_of_ascii y)),
    (N.ltb_spec (Ascii.N_of_ascii x) (Ascii.N_of_ascii z)),
    (N.ltb_spec (Ascii.N_of_ascii z) (Ascii.N_of_ascii x));
    try done; try lia. eauto.
Qed.

Lemma str_ltb_asym a b : str_ltb a b = true → str_ltb b a = false.
Proof.
  intros H. destruct (str_ltb b a) eqn:E; [|done].
  by rewrite <-(str_ltb_irrefl a), (str_ltb_trans _ _ _ H E).
Qed.

Lemma str_ltb_total a b : str_ltb a b = false → str_ltb b a = false → a = b.
Proof.
  revert b. induction a as [|x a IH]; intros [|y b]; simpl; try done.
  destruct (N.ltb_spec (Ascii.N_of_ascii x) (Ascii.N_of_ascii y)),
    (N.ltb_spec (Ascii.N_of_ascii y) (Ascii.N_of_ascii x)); try done; try lia.
  intros. f_equal; [apply N_of_ascii_inj; lia|eauto].
Qed.

#[global] Instance str_lt_strict : StrictOrder str_lt.
Proof.
  split.
  - intros a H. unfold str_lt in H. by rewrite str_ltb_irrefl in H.
  - intros a b c. apply str_ltb_trans.
Qed.

#[global] Instance str_lt_trans : Transitive str_lt.
Proof. intros a b c. apply str_ltb_trans. Qed.

Lemma str_lt_neq a b : str_lt a b → a ≠ b.
Proof. intros H ->. by apply (irreflexivity str_lt b). Qed.

#[export] Hint Resolve str_ltb_asym str_ltb_irrefl str_lt_neq : go.

(** [sort.Strings]: for strings the sorted order is unique. *)
Definition sort_strings (l : list string) : list string := sort_stable str_ltb l.

Lemma sort_strings_perm l l' : l ≡ₚ l' → sort_strings l = sort_strings l'.
Proof.
  intros Hp. unfold sort_strings.
  assert (Transitive (sort_le str_ltb)) as Ht.
  { intros a b c. unfold sort_le. intros H1 H2. apply not_true_iff_false. intros H.
    destruct (str_ltb b a) eqn:E1; [done|]. destruct (str_ltb a b) eqn:E2.
    - rewrite (str_ltb_trans c a b) in H2; done.
    - rewrite (str_ltb_total a b) in H by done. by rewrite H in H2. }
  apply (Sorted_unique_strong (sort_le str_ltb)).
  - intros a b _ _ H1 H2. by apply str_ltb_total.
  - apply sort_stable_sorted, str_ltb_asym.
  - apply sort_stable_sorted, str_ltb_asym.
  - by rewrite !sort_stable_perm.
Qed.

(** ** [strings.TrimSpace] *)

(** [unicode.IsSpace] by the UTF-8 encoding of the character: one, two or three
    bytes. *)
Definition byte_in (l : list N) (c : ascii) : bool :=
  existsb (N.eqb (Ascii.N_of_ascii c)) l.

Definition ascii_space (c : ascii) : bool := byte_in [9; 10; 11; 12; 13; 32]%N c.

Definition space2 (c d : ascii) : bool :=
  byte_in [194]%N c && byte_in [133; 160]%N d.

Definition space3 (c d e : ascii) : bool :=
  let n := Ascii.N_of_ascii e in
  (byte_in [225]%N c && byte_in [154]%N d && byte_in [128]%N e) ||
  (byte_in [226]%N c && byte_in [128]%N d &&
     (((128 <=? n) && (n <=? 138))%N || byte_in [168; 169; 175]%N e)) ||
  (byte_in [226]%N c && byte_in [129]%N d && byte_in [159]%N e) ||
  (byte_in [227]%N c && byte_in [128]%N d && byte_in [128]%N e).

(** [strings.TrimLeftFunc(s, unicode.IsSpace)] on bytes. *)
Fixpoint trim_left (s : list ascii) : list ascii :=
  match s with
  | [] => []
  | c :: s1 =>
      if ascii_space c then trim_left s1 else
      match s1 with
      | [] => s
      | d :: s2 =>
          if space2 c d then trim_left s2 else
          match s2 with
          | [] => s
          | e :: s3 => if space3 c d e then trim_left s3 else s
          end
      end
  end.

(** The same from the end, on the reversed bytes. *)
Fixpoint trim_left_rev (s : list ascii) : list ascii :=
  match s with
  | [] => []
  | c :: s1 =>
      if ascii_space c then trim_left_rev s1 else
      match s1 with
      | [] => s
      | d :: s2 =>
          if space2 d c then trim_left_rev s2 else
          match s2 with
          | [] => s
          | e :: s3 => if space3 e d c then trim_left_rev s3 else s
          end
      end
  end.

Definition bytes_of (s : string) : list ascii := String.list_ascii_of_string s.
Definition of_bytes (l : list ascii) : string := String.string_of_list_ascii l.

Lemma of_bytes_of s : of_bytes (bytes_of s) = s.
Proof. apply String.string_of_list_ascii_of_string. Qed.

Lemma bytes_of_of l : bytes_of (of_bytes l) = l.
Proof. apply String.list_ascii_of_string_of_list_ascii. Qed.

Lemma str_app_assoc (a b c : string) : (a +:+ b) +:+ c = a +:+ (b +:+ c).
Proof.
  induction a as [|x a IH]; [done|].
  change (String x ((a +:+ b) +:+ c) = String x (a +:+ (b +:+ c))).
  by rewrite IH.
Qed.

Lemma str_app_nil_r (a : string) : a +:+ "" = a.
Proof. induction a as [|c a IH]; [done|]. change (String c (a +:+ "") = String c a). by rewrite IH. Qed.

Lemma bytes_of_app a b : bytes_of (a +:+ b) = bytes_of a ++ bytes_of b.
Proof.
  induction a as [|c a IH]; [done|].
  change (c :: bytes_of (a +:+ b) = c :: (bytes_of a ++ bytes_of b)).
  by rewrite IH.
Qed.

Definition TrimSpace (s : string) : string :=
  of_bytes (rev (trim_left_rev (rev (trim_left (bytes_of s))))).

(** [strings.TrimSpace(s) == ""] *)
Definition is_blank (s : string) : bool := bool_decide (TrimSpace s = "").

Lemma is_blank_empty : is_blank "" = true.
Proof. reflexivity. Qed.

Lemma not_blank_nonempty s : is_blank s = false → s ≠ "".
Proof. intros H ->. by rewrite is_blank_empty in H. Qed.

#[export] Hint Resolve not_blank_nonempty : go.

(** A byte of ASCII that is not a space is never part of one. *)
Definition solid (c : ascii) : bool :=
  (Ascii.N_of_ascii c <? 128)%N && negb (ascii_space c).

Lemma byte_in_large l c :
  forallb (λ n, 128 <=? n)%N l = true → (Ascii.N_of_ascii c < 128)%N → byte_in l c = false.
Proof.
  unfold byte_in. intros Hl Hc. induction l as [|n l IH]; [done|]. simpl in *.
  apply andb_true_iff in Hl as [Hn Hl]. apply N.leb_le in Hn. rewrite (IH Hl).
  destruct (N.eqb_spec (Ascii.N_of_ascii c) n); [lia|done].
Qed.

Lemma solid_spaces c d e :
  solid c = true →
  ascii_space c = false ∧ space2 c d = false ∧ space2 d c = false
  ∧ space3 c d e = false ∧ space3 d c e = false ∧ space3 d e c = false.
Proof.
  unfold solid. intros [Hc Hs]%andb_true_iff. apply N.ltb_lt in Hc. apply negb_true_iff in Hs.
  unfold space2, space3. rewrite !(byte_in_large _ c) by done. rewrite Hs.
  rewrite !andb_false_r. simpl. split_and!; try done.
  destruct (N.leb_spec 128 (Ascii.N_of_ascii c)); [lia|]. simpl. by rewrite !andb_false_r.
Qed.

Lemma trim_left_solid c l : solid c = true → trim_left (c :: l) = c :: l.
Proof.
  intros Hc. simpl. destruct l as [|d [|e l]];
    [destruct (solid_spaces c c c Hc) as (-> & _)
    |destruct (solid_spaces c d d Hc) as (-> & -> & _)
    |destruct (solid_spaces c d e Hc) as (-> & -> & _ & -> & _)]; done.
Qed.

Lemma trim_left_rev_solid c l : solid c = true → c ∈ l → c ∈ trim_left_rev l.
Proof.
  intros Hc. induction l as [l IH] using (induction_ltof1 _ length). unfold ltof in IH.
  intros Hin. destruct l as [|x l]; [done|]. simpl.
  destruct (ascii_space x) eqn:Hx.
  { apply IH; [simpl; lia|]. apply elem_of_cons in Hin as [->|?]; [|done].
    destruct (solid_spaces x x x Hc). congruence. }
  destruct l as [|d l]; [done|]. destruct (space2 d x) eqn:H2.
  { apply IH; [simpl; lia|]. apply elem_of_cons in Hin as [->|Hin].
    - destruct (solid_spaces x d d Hc) as (_ & _ & ? & _). congruence.
    - apply elem_of_cons in Hin as [->|?]; [|done].
      destruct (solid_spaces d x x Hc) as (_ & ? & _). congruence. }
  destruct l as [|e l]; [done|]. destruct (space3 e d x) eqn:H3; [|done].
  apply IH; [simpl; lia|]. apply elem_of_cons in Hin as [->|Hin].
  - destruct (solid_spaces x e d Hc) as (_ & _ & _ & _ & _ & ?). congruence.
  - apply elem_of_cons in Hin as [->|Hin].
    + destruct (solid_spaces d e x Hc) as (_ & _ & _ & _ & ? & _). congruence.
    + apply elem_of_cons in Hin as [->|?]; [|done].
      destruct (solid_spaces e d x Hc) as (_ & _ & _ & ? & _). congruence.
Qed.

(** A string that begins with such a byte is not blank, whatever follows. *)
Lemma nonblank_head c s : solid c = true → is_blank (String c s) = false.
Proof.
  intros Hc. apply bool_decide_eq_false. unfold TrimSpace. intros Ht.
  apply (f_equal bytes_of) in Ht. rewrite bytes_of_of in Ht. cbn [bytes_of String.list_ascii_of_string] in Ht.
  rewrite trim_left_solid in Ht by done.
  assert (Hin : c ∈ trim_left_rev (rev (c :: String.list_ascii_of_string s))).
  { apply trim_left_rev_solid; [done|]. apply list_elem_of_In, in_rev. rewrite rev_involutive. by left. }
  apply list_elem_of_In, in_rev in Hin. unfold bytes_of in Ht. rewrite Ht in Hin. done.
Qed.

(** ** Prefixes, search and splitting *)

Definition HasPrefix (s p : string) : bool := String.prefix p s.

Fixpoint list_prefix (p l : list ascii) : bool :=
  match p, l with
  | [], _ => true
  | x :: p', y :: l' => bool_decide (x = y) && list_prefix p' l'
  | _, _ => false
  end.

(** [strings.Index]: the first position where [p] starts. *)
Fixpoint index_of (p l : list ascii) : option nat :=
  if list_prefix p l then Some 0
  else match l with
       | [] => None
       | _ :: l' => S <$> index_of p l'
       end.

Definition Index (s p : string) : option nat := index_of (bytes_of p) (bytes_of s).
Definition Contains (s p : string) : bool :=
  match Index s p with Some _ => true | None => false end.

Lemma list_prefix_app p l : list_prefix p (p ++ l) = true.
Proof. induction p as [|c p IH]; [done|]. simpl. rewrite bool_decide_eq_true_2 by done. done. Qed.

Lemma list_prefix_take p l : list_prefix p l = true → l = p ++ drop (length p) l.
Proof.
  revert l. induction p as [|c p IH]; intros [|d l]; try done. cbn [list_prefix].
  intros [->%bool_decide_eq_true H]%andb_true_iff. simpl. f_equal. by apply IH.
Qed.

Lemma index_split p l i : index_of p l = Some i → ∃ a b, l = a ++ p ++ b ∧ length a = i.
Proof.
  revert i. induction l as [|c l IH]; intros i; cbn [index_of].
  - destruct (list_prefix p []) eqn:E; [|done]. intros [= <-]. exists [], [].
    apply list_prefix_take in E. destruct p; [done|]. done.
  - destruct (list_prefix p (c :: l)) eqn:E.
    + intros [= <-]. apply list_prefix_take in E. exists [], (drop (length p) (c :: l)). done.
    + destruct (index_of p l) as [j|]; [|done]. intros [= <-].
      destruct (IH j eq_refl) as (a & b & -> & <-). by exists (c :: a), b.
Qed.

Lemma Contains_spec s p : Contains s p = true ↔ ∃ a b, s = a +:+ p +:+ b.
Proof.
  unfold Contains, Index. split.
  - intros H. assert (∃ a b, bytes_of s = a ++ bytes_of p ++ b) as (a & b & E).
    { destruct (index_of _ _) eqn:E; [|done]. apply index_split in E as (a & b & E & _). by exists a, b. }
    exists (of_bytes a), (of_bytes b). rewrite <-(of_bytes_of s), E, <-(of_bytes_of (_ +:+ _)).
    by rewrite !bytes_of_app, !bytes_of_of.
  - intros (a & b & ->). rewrite !bytes_of_app. induction (bytes_of a) as [|c l IH]; cbn.
    + destruct (bytes_of p ++ bytes_of b) as [|c l] eqn:E; cbn.
      * destruct (bytes_of p); [done|discriminate].
      * by rewrite <-E, list_prefix_app.
    + destruct (list_prefix _ _); [done|]. by destruct (index_of _ _).
Qed.

Lemma Contains_in a p b : Contains (a +:+ p +:+ b) p = true.
Proof. apply Contains_spec. by exists a, b. Qed.

(** [strings.Count] of a non-empty pattern: non-overlapping occurrences, left
    to right; [skip] bytes of the current occurrence remain. *)
Fixpoint count_of (p l : list ascii) (skip : nat) : nat :=
  match l with
  | [] => 0
  | _ :: l' =>
      match skip with
      | S k => count_of p l' k
      | 0 => if list_prefix p l then S (count_of p l' (length p - 1))
             else count_of p l' 0
      end
  end.

Definition Count (s p : string) : nat := count_of (bytes_of p) (bytes_of s) 0.

(** [strings.Split(s, sep)] for a one-byte separator: never empty. *)
Fixpoint split_bytes (sep : ascii) (l : list ascii) : list (list ascii) :=
  match l with
  | [] => [[]]
  | c :: l' =>
      if bool_decide (c = sep) then [] :: split_bytes sep l'
      else match split_bytes sep l' with
           | [] => [[c]]
           | w :: ws => (c :: w) :: ws
           end
  end.

Fixpoint join_bytes (sep : list ascii) (ls : list (list ascii)) : list ascii :=
  match ls with
  | [] => []
  | [w] => w
  | w :: ws => w ++ sep ++ join_bytes sep ws
  end.

(** [strings.Join] *)
Definition Join (ls : list string) (sep : string) : string :=
  of_bytes (join_bytes (bytes_of sep) (bytes_of <$> ls)).

(** [strings.Cut] at a one-byte separator. *)
Fixpoint cut_bytes (sep : ascii) (l : list ascii)
    : option (list ascii * list ascii) :=
  match l with
  | [] => None
  | c :: l' => if bool_decide (c = sep) then Some ([], l')
               else prod_map (cons c) id <$> cut_bytes sep l'
  end.

Definition Cut (s : string) (sep : ascii) : option (string * string) :=
  prod_map of_bytes of_bytes <$> cut_bytes sep (bytes_of s).

(** [strings.Repeat(" ", n)] *)
Fixpoint spaces (n : nat) : string :=
  match n with 0 => "" | S n => String " " (spaces n) end.

(** ** [path/filepath] on Unix *)

Definition slash : ascii := "/"%char.
Definition dot : list ascii := ["."%char].
Definition dotdot : list ascii := ["."%char; "."%char].

Definition IsAbs (p : string) : bool :=
  match bytes_of p with c :: _ => bool_decide (c = slash) | [] => false end.

(** One path element of [filepath.Clean]: [stack] is the output built so far,
    last element first. *)
Definition clean_step (rooted : bool) (stack : list (list ascii)) (c : list ascii)
    : list (list ascii) :=
  if bool_decide (c = []) || bool_decide (c = dot) then stack
  else if bool_decide (c = dotdot) then
    match stack with
    | [] => if rooted then [] else [dotdot]
    | x :: st => if bool_decide (x = dotdot) then dotdot :: stack else st
    end
  else c :: stack.

Definition clean_parts (rooted : bool) (parts : list (list ascii)) : list (list ascii) :=
  reverse (foldl (clean_step rooted) [] parts).

Definition clean_bytes (p : list ascii) : list ascii :=
  match p with
  | [] => dot
  | c :: _ =>
      let rooted := bool_decide (c = slash) in
      let body := join_bytes [slash] (clean_parts rooted (split_bytes slash p)) in
      if rooted then slash :: body
      else match body with [] => dot | _ => body end
  end.

Definition Clean (p : string) : string := of_bytes (clean_bytes (bytes_of p)).

(** [filepath.Base]: the last element once trailing slashes are gone. *)
Definition Base (p : string) : string :=
  match bytes_of p with
  | [] => "."
  | l => match last (filter (λ w, w ≠ []) (split_bytes slash l)) with
         | Some w => of_bytes w
         | None => "/"
         end
  end.

(** [filepath.Dir]: everything up to and including the last slash, cleaned. *)
Definition Dir (p : string) : string :=
  let parts := split_bytes slash (bytes_of p) in
  of_bytes (clean_bytes
    (match removelast parts with
     | [] => []
     | ps => join_bytes [slash] ps ++ [slash]
     end)).

(** [filepath.Join]: the non-empty arguments, with slashes between, cleaned. *)
Definition PathJoin (ps : list string) : string :=
  match filter (λ p, p ≠ "") ps with
  | [] => ""
  | qs => Clean (Join qs "/")
  end.

Example clean_ex1 : Clean "/a/./b//../c/" = "/a/c". Proof. reflexivity. Qed.
Example clean_ex2 : Clean "../../a/.." = "../..". Proof. reflexivity. Qed.
Example clean_ex3 : Clean "/.." = "/". Proof. reflexivity. Qed.
Example clean_ex4 : Clean "a/.." = ".". Proof. reflexivity. Qed.
Example base_ex : Base "/a/b//" = "b". Proof. reflexivity. Qed.
Example dir_ex1 : Dir "/a/b" = "/a". Proof. reflexivity. Qed.
Example dir_ex2 : Dir "/a" = "/". Proof. reflexivity. Qed.
Example dir_ex3 : Dir "a" = ".". Proof. reflexivity. Qed.
Example join_ex : PathJoin ["/r"; ""; "x/../y"; "z"] = "/r/y/z". Proof. reflexivity. Qed.
Example cut_ex : Cut "a=b=c" "=" = Some ("a", "b=c"). Proof. reflexivity. Qed.
Example count_ex : Count "aaaa" "aa" = 2. Proof. reflexivity. Qed.
Example index_ex : Index "xabc" "bc" = Some 2. Proof. reflexivity. Qed.

(** ** [filepath.Clean] is idempotent on absolute paths *)

Definition no_slash (w : list ascii) : Prop := slash ∉ w.

Lemma split_bytes_no_slash l : Forall no_slash (split_bytes slash l).
Proof.
  induction l as [|c l IH]; simpl; [repeat constructor; apply not_elem_of_nil|].
  case_bool_decide as Hc; [constructor; [apply not_elem_of_nil|done]|].
  destruct (split_bytes slash l) as [|w ws].
  - repeat constructor. unfold no_slash. set_solver.
  - apply Forall_cons in IH as [Hw Hws]. constructor; [|done].
    unfold no_slash in *. set_solver.
Qed.

Lemma split_bytes_app w l :
  no_slash w →
  split_bytes slash (w ++ slash :: l) = w :: split_bytes slash l.
Proof.
  intros Hw. induction w as [|c w IH]; simpl; [done|].
  case_bool_decide as Hc; [unfold no_slash in Hw; set_solver|].
  rewrite IH; [done|]. unfold no_slash in *. set_solver.
Qed.

Lemma split_bytes_single w : no_slash w → split_bytes slash w = [w].
Proof.
  intros Hw. induction w as [|c w IH]; simpl; [done|].
  case_bool_decide as Hc; [unfold no_slash in Hw; set_solver|].
  rewrite IH; [done|]. unfold no_slash in *. set_solver.
Qed.

Lemma split_join ps :
  ps ≠ [] → Forall no_slash ps →
  split_bytes slash (join_bytes [slash] ps) = ps.
Proof.
  intros Hne Hps. induction Hps as [|w [|w' ps] Hw Hps IH]; [done| |].
  - by apply split_bytes_single.
  - change (join_bytes [slash] (w :: w' :: ps))
      with (w ++ slash :: join_bytes [slash] (w' :: ps)).
    rewrite split_bytes_app by done. by rewrite IH.
Qed.

(** A path element that [Clean] keeps as it is under the root. *)
Definition plain_part (w : list ascii) : Prop :=
  w ≠ [] ∧ w ≠ dot ∧ w ≠ dotdot ∧ no_slash w.

Lemma clean_step_plain w st :
  plain_part w → clean_step true st w = w :: st.
Proof.
  intros (H1 & H2 & H3 & _). unfold clean_step.
  by rewrite !bool_decide_false by done.
Qed.

Lemma clean_step_keeps st w :
  Forall plain_part st → no_slash w → Forall plain_part (clean_step true st w).
Proof.
  intros Hst Hw. unfold clean_step.
  repeat case_bool_decide; simpl; try done.
  - destruct st as [|x st]; [done|]. case_bool_decide as Hx.
    + subst. apply Forall_cons in Hst as [(_ & _ & [] & _) _]. done.
    + by apply Forall_cons in Hst as [_ ?].
  - constructor; [|done]. done.
Qed.

Lemma clean_fold_keeps st ps :
  Forall plain_part st → Forall no_slash ps →
  Forall plain_part (foldl (clean_step true) st ps).
Proof.
  intros Hst Hps. revert st Hst.
  induction Hps as [|w ps Hw _ IH]; intros st Hst; simpl; [done|].
  apply IH. by apply clean_step_keeps.
Qed.

Lemma clean_fold_plain st ps :
  Forall plain_part ps → foldl (clean_step true) st ps = reverse ps ++ st.
Proof.
  intros Hps. revert st. induction Hps as [|w ps Hw _ IH]; intros st; [done|].
  simpl. rewrite clean_step_plain, IH by done.
  by rewrite reverse_cons, <-app_assoc.
Qed.

Lemma clean_parts_plain l :
  Forall plain_part (clean_parts true (split_bytes slash l)).
Proof.
  apply Forall_reverse, clean_fold_keeps; [constructor|].
  apply split_bytes_no_slash.
Qed.

Lemma clean_rooted_idem ps :
  Forall plain_part ps →
  clean_bytes (slash :: join_bytes [slash] ps) = slash :: join_bytes [slash] ps.
Proof.
  intros Hps.
  change (clean_bytes (slash :: join_bytes [slash] ps))
    with (slash :: join_bytes [slash]
            (clean_parts true (split_bytes slash (slash :: join_bytes [slash] ps)))).
  do 2 f_equal. unfold clean_parts.
  change (split_bytes slash (slash :: ?l)) with ([] :: split_bytes slash l).
  destruct ps as [|w ps].
  - reflexivity.
  - rewrite split_join; [|done|].
    + change (foldl (clean_step true) [] ([] :: w :: ps))
        with (foldl (clean_step true) [] (w :: ps)).
      rewrite clean_fold_plain by done. by rewrite app_nil_r, reverse_involutive.
    + eapply Forall_impl; [exact Hps|]. by intros ? (_ & _ & _ & ?).
Qed.

Lemma clean_bytes_rooted l :
  clean_bytes (slash :: l)
  = slash :: join_bytes [slash] (clean_parts true (split_bytes slash (slash :: l))).
Proof. reflexivity. Qed.

Lemma IsAbs_bytes p : IsAbs p = true ↔ ∃ l, bytes_of p = slash :: l.
Proof.
  unfold IsAbs. destruct (bytes_of p) as [|c l]; [naive_solver|].
  rewrite bool_decide_eq_true. naive_solver.
Qed.

Lemma Clean_abs p : IsAbs p = true → IsAbs (Clean p) = true.
Proof.
  rewrite !IsAbs_bytes. intros [l Hl]. unfold Clean. rewrite bytes_of_of, Hl.
  rewrite clean_bytes_rooted. eauto.
Qed.

Lemma Clean_idem p : IsAbs p = true → Clean (Clean p) = Clean p.
Proof.
  rewrite IsAbs_bytes. intros [l Hl]. unfold Clean. rewrite bytes_of_of, Hl.
  rewrite clean_bytes_rooted, clean_rooted_idem; [done|].
  apply clean_parts_plain.
Qed.

#[export] Hint Resolve Clean_abs Clean_idem : go.

(** ** Field names of JSON

    [encoding/json] matches the names of a struct's fields without regard to
    case: the letters of ASCII, and the Kelvin sign and the long s. *)

Definition lower_byte (c : ascii) : ascii :=
  let n := Ascii.N_of_ascii c in
  if ((65 <=? n) && (n <=? 90))%N then Ascii.ascii_of_N (n + 32) else c.

Fixpoint fold_bytes (l : list ascii) : list ascii :=
  match l with
  | [] => []
  | c :: l' =>
      match l' with
      | d :: l'' =>
          if bool_decide (Ascii.N_of_ascii c = 197%N) && bool_decide (Ascii.N_of_ascii d = 191%N)
          then "s"%char :: fold_bytes l''
          else match l'' with
               | e :: l3 =>
                   if bool_decide (Ascii.N_of_ascii c = 226%N)
                      && bool_decide (Ascii.N_of_ascii d = 132%N)
                      && bool_decide (Ascii.N_of_ascii e = 170%N)
                   then "k"%char :: fold_bytes l3
                   else lower_byte c :: fold_bytes l'
               | [] => lower_byte c :: fold_bytes l'
               end
      | [] => [lower_byte c]
      end
  end.

Definition fold_name (s : string) : string := of_bytes (fold_bytes (bytes_of s)).

(** ** Machine integers and [strconv.Atoi] *)

(** The value a Go [int64] keeps of [z]. *)
Definition wrap64 (z : Z) : Z := ((z + 2 ^ 63) mod 2 ^ 64 - 2 ^ 63)%Z.

Lemma wrap64_id z : (- 2 ^ 63 <= z < 2 ^ 63)%Z → wrap64 z = z.
Proof. intros H. unfold wrap64. rewrite Z.mod_small; lia. Qed.

Definition digit_of (c : ascii) : option Z :=
  let n := Z.of_N (Ascii.N_of_ascii c) in
  if (48 <=? n)%Z && (n <=? 57)%Z then Some (n - 48)%Z else None.

Fixpoint digits_value (acc : Z) (l : list ascii) : option Z :=
  match l with
  | [] => Some acc
  | c :: l => d ← digit_of c; digits_value (10 * acc + d)%Z l
  end.

Definition Atoi (s : string) : option Z :=
  let signed (neg : bool) (ds : list ascii) :=
    match ds with
    | [] => None
    | _ => v ← digits_value 0 ds;
           let z := (if neg then - v else v)%Z in
           if (- 2 ^ 63 <=? z)%Z && (z <? 2 ^ 63)%Z then Some z else None
    end in
  match bytes_of s with
  | c :: l => if bool_decide (c = "-"%char) then signed true l
              else if bool_decide (c = "+"%char) then signed false l
              else signed false (c :: l)
  | [] => None
  end.

Example atoi_ex1 : Atoi "120" = Some 120%Z. Proof. reflexivity. Qed.
Example atoi_ex2 : Atoi "-7" = Some (-7)%Z. Proof. reflexivity. Qed.
Example atoi_ex3 : Atoi "9223372036854775808" = None. Proof. reflexivity. Qed.
Example atoi_ex4 : Atoi "1x" = None. Proof. reflexivity. Qed.
