(* ===== verification/Paths.v ===== *)
(** Absolute paths in their clean form, and what [filepath.Join], [Dir] and
    [Base] make of them. *)

From S2P Require Export GoStrings.

(** The clean absolute path of these elements. *)
Definition rooted (ps : list (list ascii)) : string := of_bytes (slash :: join_bytes [slash] ps).

Lemma bytes_of_rooted ps : bytes_of (rooted ps) = slash :: join_bytes [slash] ps.
Proof. apply bytes_of_of. Qed.

Lemma Clean_rooted p :
  IsAbs p = true → ∃ ps, Forall plain_part ps ∧ Clean p = rooted ps.
Proof.
  intros [l Hl]%IsAbs_bytes. unfold Clean. rewrite Hl, clean_bytes_rooted.
  eexists. split; [apply clean_parts_plain|done].
Qed.

Lemma IsAbs_rooted ps : IsAbs (rooted ps) = true.
Proof. apply IsAbs_bytes. rewrite bytes_of_rooted. eauto. Qed.

Lemma split_slash a b :
  split_bytes slash (a ++ slash :: b) = split_bytes slash a ++ split_bytes slash b.
Proof.
  induction a as [|c a IH]; [done|]. cbn [app split_bytes]. rewrite IH.
  case_bool_decide; [done|].
  assert (split_bytes slash a ≠ []) as Hn.
  { destruct a as [|d a]; [done|]. cbn [split_bytes]. case_bool_decide; [done|].
    by destruct (split_bytes slash a). }
  by destruct (split_bytes slash a).
Qed.

Lemma split_join_cons a ws :
  Forall no_slash ws → split_bytes slash (join_bytes [slash] (a :: ws)) = split_bytes slash a ++ ws.
Proof.
  intros Hws. destruct ws as [|w ws]; [by rewrite app_nil_r|].
  change (join_bytes [slash] (a :: w :: ws)) with (a ++ slash :: join_bytes [slash] (w :: ws)).
  rewrite split_slash. f_equal. by apply split_join.
Qed.

Lemma plain_no_slash ws : Forall plain_part ws → Forall no_slash ws.
Proof. intros H. eapply Forall_impl; [exact H|]. by intros w (_ & _ & _ & ?). Qed.

Lemma clean_fold_empty ps st :
  foldl (clean_step true) st ([] :: ps) = foldl (clean_step true) st ps.
Proof. done. Qed.

(** Cleaning elements that are plain or empty, from the root. *)
Lemma clean_parts_split ps :
  Forall plain_part ps →
  foldl (clean_step true) [] (split_bytes slash (slash :: join_bytes [slash] ps)) = reverse ps.
Proof.
  intros Hps. change (slash :: ?l) with ([] ++ slash :: l). rewrite split_slash.
  change (split_bytes slash []) with [@nil ascii]. cbn [app]. rewrite clean_fold_empty.
  destruct ps as [|p ps]; [done|]. rewrite split_join by (done || by apply plain_no_slash).
  rewrite clean_fold_plain by done. by rewrite app_nil_r.
Qed.

Lemma Join_bytes ls : bytes_of (Join ls "/") = join_bytes [slash] (bytes_of <$> ls).
Proof. unfold Join. by rewrite bytes_of_of. Qed.

(** Joining plain elements to a clean absolute path. *)
Lemma PathJoin_rooted ps ws :
  Forall plain_part ps → Forall (λ w, plain_part (bytes_of w)) ws →
  PathJoin (rooted ps :: ws) = rooted (ps ++ (bytes_of <$> ws)).
Proof.
  intros Hps Hws. unfold PathJoin.
  assert (filter (λ p, p ≠ "") (rooted ps :: ws) = rooted ps :: ws) as ->.
  { rewrite filter_cons_True by done. f_equal. induction Hws as [|w ws [Hw _] _ IH]; [done|].
    rewrite filter_cons_True; [by rewrite IH|]. by intros ->. }
  unfold Clean. rewrite Join_bytes, fmap_cons, bytes_of_rooted.
  set (bs := bytes_of <$> ws). assert (Forall plain_part bs) as Hbs by by apply Forall_fmap.
  unfold rooted. f_equal.
  destruct (join_bytes [slash] ((slash :: join_bytes [slash] ps) :: bs)) as [|c l] eqn:E.
  { by destruct bs. }
  assert (c = slash) as -> by (destruct bs; simpl in E; by injection E).
  rewrite clean_bytes_rooted, <-E. do 2 f_equal. unfold clean_parts.
  rewrite split_join_cons by by apply plain_no_slash.
  rewrite foldl_app, clean_parts_split by done. rewrite clean_fold_plain by done.
  by rewrite <-reverse_app, reverse_involutive.
Qed.

Lemma removelast_app_1 {A} (l : list A) x : removelast (l ++ [x]) = l.
Proof. apply removelast_last. Qed.

Lemma split_rooted ps w :
  Forall plain_part ps → plain_part w →
  split_bytes slash (slash :: join_bytes [slash] (ps ++ [w])) = [] :: ps ++ [w].
Proof.
  intros Hps Hw. change (slash :: ?l) with ([] ++ slash :: l). rewrite split_slash.
  rewrite split_join; [done|by destruct ps|]. apply plain_no_slash, Forall_app. auto.
Qed.

Lemma Dir_rooted ps w :
  Forall plain_part ps → plain_part w → Dir (rooted (ps ++ [w])) = rooted ps.
Proof.
  intros Hps Hw. unfold Dir. rewrite bytes_of_rooted, split_rooted by done.
  change ([] :: ps ++ [w]) with (([] :: ps) ++ [w]). rewrite removelast_app_1. unfold rooted. f_equal.
  assert (join_bytes [slash] ([] :: ps) ++ [slash] = slash :: tail (join_bytes [slash] ([] :: ps) ++ [slash])) as E.
  { by destruct ps. }
  rewrite E, clean_bytes_rooted, <-E. do 2 f_equal. unfold clean_parts.
  rewrite split_slash, foldl_app.
  assert (split_bytes slash (join_bytes [slash] ([] :: ps)) = [] :: ps) as ->.
  { apply split_join; [done|]. constructor; [apply not_elem_of_nil|by apply plain_no_slash]. }
  change (split_bytes slash []) with [@nil ascii]. rewrite !clean_fold_empty. cbn [foldl].
  rewrite clean_fold_plain by done. by rewrite app_nil_r, reverse_involutive.
Qed.

Lemma filter_all {A} (P : A → Prop) `{∀ x, Decision (P x)} l : Forall P l → filter P l = l.
Proof. induction 1 as [|x l Hx _ IH]; [done|]. rewrite filter_cons_True by done. by rewrite IH. Qed.

Lemma Base_rooted ps w :
  Forall plain_part ps → plain_part w → Base (rooted (ps ++ [w])) = of_bytes w.
Proof.
  intros Hps Hw. unfold Base. rewrite bytes_of_rooted, split_rooted by done.
  rewrite filter_cons_False by (intros H; by apply H).
  rewrite filter_all; [by rewrite last_snoc|].
  apply Forall_app. split; [|repeat constructor; by destruct Hw].
  eapply Forall_impl; [exact Hps|]. by intros v [? _].
Qed.

(** The clean form of an absolute path has a last element, unless it is the root. *)
Lemma rooted_cases (ps : list (list ascii)) : ps = [] ∨ ∃ qs w, ps = qs ++ [w].
Proof. destruct ps as [|w qs _] using rev_ind; eauto. Qed.

Lemma rooted_inj ps qs :
  Forall plain_part ps → Forall plain_part qs → rooted ps = rooted qs → ps = qs.
Proof.
  intros Hps Hqs H. apply (f_equal bytes_of) in H. rewrite !bytes_of_rooted in H.
  apply (f_equal (λ l, foldl (clean_step true) [] (split_bytes slash l))) in H.
  rewrite !clean_parts_split in H by done. by apply (inj reverse) in H.
Qed.

(** Lists of plain elements, by their elements. *)
Ltac plain_list :=
  repeat first [assumption | apply Forall_nil_2 | apply Forall_cons_2 | apply Forall_app_2].
