(* ===== verification/Runes.v ===== *)
(** Runes: how Go reads a byte string as UTF-8, in [range] loops and in the
    conversion to [[]rune]. A rune is kept as the bytes of its encoding; an
    invalid byte reads as U+FFFD. *)

From S2P Require Export GoStrings.

(** ** Decoding *)

Definition byte_within (lo hi : N) (c : ascii) : bool :=
  ((lo <=? Ascii.N_of_ascii c) && (Ascii.N_of_ascii c <=? hi))%N.

Definition continuation : ascii → bool := byte_within 128 191.

(** The length of the UTF-8 sequence at the head of [l]; 0 for an invalid one. *)
Definition rune_len (l : list ascii) : nat :=
  match l with
  | [] => 0
  | a :: l =>
      if byte_within 0 127 a then 1
      else match l with
      | [] => 0
      | b :: l =>
          if byte_within 194 223 a then if continuation b then 2 else 0
          else match l with
          | [] => 0
          | c :: l =>
              if byte_within 224 239 a then
                let second :=
                  if byte_within 224 224 a then byte_within 160 191 b
                  else if byte_within 237 237 a then byte_within 128 159 b
                  else continuation b in
                if second && continuation c then 3 else 0
              else match l with
              | [] => 0
              | d :: _ =>
                  if byte_within 240 244 a then
                    let second :=
                      if byte_within 240 240 a then byte_within 144 191 b
                      else if byte_within 244 244 a then byte_within 128 143 b
                      else continuation b in
                    if second && continuation c && continuation d then 4 else 0
                  else 0
              end
          end
      end
  end.

(** The encoding of U+FFFD, which an invalid byte is read as. *)
Definition rune_error : list ascii := bytes_of "�".

Fixpoint runes_from (skip : nat) (l : list ascii) : list (list ascii) :=
  match l with
  | [] => []
  | c :: l' =>
      match skip with
      | S skip => runes_from skip l'
      | 0%nat =>
          match rune_len l with
          | 0%nat => rune_error :: runes_from 0 l'
          | S n => take (S n) l :: runes_from n l'
          end
      end
  end.

(** The runes of a text, each by the bytes [WriteRune] writes for it. *)
Definition runes (text : string) : list (list ascii) := runes_from 0 (bytes_of text).

(** The text is valid UTF-8, [skip] bytes into a rune. *)
Fixpoint valid_from (skip : nat) (l : list ascii) : bool :=
  match l with
  | [] => bool_decide (skip = 0%nat)
  | _ :: l' =>
      match skip with
      | S skip => valid_from skip l'
      | 0%nat => match rune_len l with 0%nat => false | S n => valid_from n l' end
      end
  end.

(** ** Lemmas *)

Lemma rune_len_app l b n : rune_len l = S n → rune_len (l ++ b) = S n.
Proof.
  destruct l as [|c1 l]; [done|]. cbn [app rune_len].
  destruct (byte_within 0 127 c1); [done|].
  destruct l as [|c2 l]; [done|]. cbn [app].
  destruct (byte_within 194 223 c1); [done|].
  destruct l as [|c3 l]; [done|]. cbn [app].
  destruct (byte_within 224 239 c1); [done|].
  destruct l as [|c4 l]; [done|]. done.
Qed.

Lemma rune_len_le l n : rune_len l = n → (n ≤ length l)%nat.
Proof.
  intros <-. destruct l as [|c1 l]; [done|]. cbn [rune_len length].
  destruct (byte_within 0 127 c1); [lia|].
  destruct l as [|c2 l]; [lia|]. cbn [length].
  destruct (byte_within 194 223 c1); [destruct (continuation c2); lia|].
  destruct l as [|c3 l]; [lia|]. cbn [length].
  destruct (byte_within 224 239 c1); [destruct (_ && _); lia|].
  destruct l as [|c4 l]; [lia|]. cbn [length]. destruct (byte_within 240 244 c1); [|lia].
  destruct (_ && _); lia.
Qed.

Lemma runes_from_app k a b :
  valid_from k a = true → runes_from k (a ++ b) = runes_from k a ++ runes_from 0 b.
Proof.
  revert k. induction a as [|c a IH]; intros k; cbn [valid_from].
  { intros ->%bool_decide_eq_true. done. }
  destruct k as [|k]; [|apply IH]. destruct (rune_len (c :: a)) as [|n] eqn:E; [done|].
  intros Hv. cbn [app runes_from]. rewrite E.
  change (c :: a ++ b) with ((c :: a) ++ b). rewrite (rune_len_app _ b _ E).
  rewrite take_app_le by (by apply rune_len_le). rewrite IH by done. done.
Qed.

Lemma valid_from_app k a b :
  valid_from k a = true → valid_from k (a ++ b) = valid_from 0 b.
Proof.
  revert k. induction a as [|c a IH]; intros k; cbn [valid_from].
  { intros ->%bool_decide_eq_true. done. }
  destruct k as [|k]; [|apply IH]. destruct (rune_len (c :: a)) as [|n] eqn:E; [done|].
  intros Hv. cbn [app valid_from].
  change (c :: a ++ b) with ((c :: a) ++ b). rewrite (rune_len_app _ b _ E). by apply IH.
Qed.

(** *** Runes written one after the other *)

Definition rune_ok (ch : list ascii) : Prop := ch ≠ [] ∧ rune_len ch = length ch.

Lemma runes_from_skip a b : runes_from (length a) (a ++ b) = runes_from 0 b.
Proof. induction a; [done|]. done. Qed.

Lemma valid_from_skip a b : valid_from (length a) (a ++ b) = valid_from 0 b.
Proof. induction a; [done|]. done. Qed.

Lemma runes_from_rune ch b : rune_ok ch → runes_from 0 (ch ++ b) = ch :: runes_from 0 b.
Proof.
  intros [Hn Hl]. destruct ch as [|c ch]; [done|]. cbn [app runes_from].
  change (c :: ch ++ b) with ((c :: ch) ++ b). rewrite (rune_len_app _ b (length ch)) by done.
  rewrite take_app_length' by done. by rewrite runes_from_skip.
Qed.

Lemma valid_from_rune ch b : rune_ok ch → valid_from 0 (ch ++ b) = valid_from 0 b.
Proof.
  intros [Hn Hl]. destruct ch as [|c ch]; [done|]. cbn [app valid_from].
  change (c :: ch ++ b) with ((c :: ch) ++ b). rewrite (rune_len_app _ b (length ch)) by done.
  apply valid_from_skip.
Qed.

Lemma rune_len_take l n : rune_len l = S n → rune_len (take (S n) l) = S n.
Proof.
  destruct l as [|c1 l]; [done|]. cbn [rune_len].
  destruct (byte_within 0 127 c1) eqn:E1; [intros [= <-]; cbn; by rewrite E1|].
  destruct l as [|c2 l]; [done|].
  destruct (byte_within 194 223 c1) eqn:E2.
  { destruct (continuation c2) eqn:C2; intros [= <-]. cbn. by rewrite E1, E2, C2. }
  destruct l as [|c3 l]; [done|].
  destruct (byte_within 224 239 c1) eqn:E3.
  { destruct (_ && _) eqn:C3; intros [= <-]. cbn. rewrite E1, E2, E3. by rewrite C3. }
  destruct l as [|c4 l]; [done|].
  destruct (byte_within 240 244 c1) eqn:E4; [|done].
  destruct (_ && _) eqn:C4; intros [= <-]. cbn. rewrite E1, E2, E3, E4. by rewrite C4.
Qed.

Lemma runes_from_ok k l : Forall rune_ok (runes_from k l).
Proof.
  revert k. induction l as [|c l IH]; intros k; [constructor|]. cbn [runes_from].
  destruct k as [|k]; [|apply IH]. destruct (rune_len (c :: l)) as [|n] eqn:E.
  - constructor; [|apply IH]. by split.
  - constructor; [|apply IH]. split; [done|]. rewrite (rune_len_take _ _ E), length_take.
    pose proof (rune_len_le _ _ E). lia.
Qed.
