(* ===== verification/Json.v ===== *)
(** JSON values as [encoding/json] decodes them into [any], and the text its
    encoder writes for them with HTML escaping off. A number is kept as the text
    the encoder gives it. Values that come out of the decoder always encode. *)

From S2P Require Export Runes.

Inductive json :=
| JNull
| JBool (b : bool)
| JNumber (text : string)
| JString (s : string)
| JArray (l : list json)
| JObject (m : gmap string json).

Notation jobject := (gmap string json).

Definition as_jstring (v : option json) : option string :=
  match v with Some (JString s) => Some s | _ => None end.

(** ** The encoder *)

Definition quote_char : ascii := ascii_of_nat 34.
Definition backslash : ascii := ascii_of_nat 92.

Definition hex_digit (n : N) : ascii :=
  if (n <? 10)%N then Ascii.ascii_of_N (48 + n) else Ascii.ascii_of_N (87 + n).

(** One byte of ASCII in a string literal. *)
Definition escape_ascii (c : ascii) : list ascii :=
  let n := Ascii.N_of_ascii c in
  if bool_decide (c = quote_char) || bool_decide (c = backslash) then [backslash; c]
  else if (n =? 8)%N then bytes_of "\b"
  else if (n =? 9)%N then bytes_of "\t"
  else if (n =? 10)%N then bytes_of "\n"
  else if (n =? 12)%N then bytes_of "\f"
  else if (n =? 13)%N then bytes_of "\r"
  else if (n <? 32)%N then bytes_of "\u00" ++ [hex_digit (n / 16); hex_digit (n mod 16)]
  else [c].

(** The line and paragraph separators are escaped, for the sake of JavaScript. *)
Definition line_separator : list ascii := ascii_of_nat <$> [226; 128; 168].
Definition paragraph_separator : list ascii := ascii_of_nat <$> [226; 128; 169].

Definition escape_rune (ch : list ascii) : list ascii :=
  if bool_decide (ch = line_separator) then bytes_of "\u2028"
  else if bool_decide (ch = paragraph_separator) then bytes_of "\u2029"
  else ch.

Fixpoint escape_from (skip : nat) (l : list ascii) : list ascii :=
  match l with
  | [] => []
  | c :: l' =>
      match skip with
      | S skip => escape_from skip l'
      | 0 =>
          match rune_len l with
          | 0 => bytes_of "\ufffd" ++ escape_from 0 l'
          | 1 => escape_ascii c ++ escape_from 0 l'
          | S n => escape_rune (take (S n) l) ++ escape_from n l'
          end
      end
  end.

Definition quoted (s : string) : string :=
  of_bytes (quote_char :: escape_from 0 (bytes_of s) ++ [quote_char]).

(** The members of an object, by key. *)
Definition sort_members (l : list (string * string)) : list (string * string) :=
  sort_stable (λ a b, str_ltb a.1 b.1) l.

Definition member_text (kv : string * string) : string := quoted kv.1 +:+ ":" +:+ kv.2.

Fixpoint encode (v : json) : string :=
  match v with
  | JNull => "null"
  | JBool b => if b then "true" else "false"
  | JNumber text => text
  | JString s => quoted s
  | JArray l => "[" +:+ Join (encode <$> l) "," +:+ "]"
  | JObject m =>
      "{" +:+ Join (member_text <$>
        sort_members (map_fold (λ k v acc, (k, encode v) :: acc) [] m)) "," +:+ "}"
  end.

Definition encode_object (m : jobject) : string := encode (JObject m).

(** ** One line *)

Definition newline_byte : ascii := ascii_of_nat 10.

(** Closed decidable facts, by evaluation. *)
Ltac by_evaluation := match goal with |- ?P => apply (bool_decide_eq_true_1 P); vm_compute; reflexivity end.

(** Text without a newline. *)
Definition single_line (s : string) : Prop := newline_byte ∉ bytes_of s.

#[global] Instance single_line_dec s : Decision (single_line s) := decide (newline_byte ∉ bytes_of s).

Lemma single_line_app a b : single_line a → single_line b → single_line (a +:+ b).
Proof. unfold single_line. rewrite bytes_of_app, elem_of_app. tauto. Qed.

Lemma single_line_Join ls sep :
  single_line sep → Forall single_line ls → single_line (Join ls sep).
Proof.
  unfold single_line, Join. rewrite bytes_of_of. intros Hs Hl. induction Hl as [|w ls Hw _ IH].
  { apply not_elem_of_nil. }
  destruct ls as [|w' ls]; [done|]. cbn [fmap list_fmap join_bytes] in *.
  rewrite !elem_of_app. tauto.
Qed.

#[export] Hint Resolve single_line_app single_line_Join : go.

Lemma byte_within_newline lo hi : (10 < lo)%N → byte_within lo hi newline_byte = false.
Proof. intros H. apply andb_false_iff. left. apply N.leb_gt. exact H. Qed.

(** A rune of more than one byte has no newline. *)
Lemma rune_len_newline l n : rune_len l = S (S n) → newline_byte ∉ take (S (S n)) l.
Proof.
  destruct l as [|a [|b l]]; cbn [rune_len]; [done|by destruct (byte_within 0 127 a)|].
  destruct (byte_within 0 127 a) eqn:Ea; [done|].
  assert (newline_byte ≠ a) as Na by (intros <-; done).
  assert (∀ lo hi c, (10 < lo)%N → byte_within lo hi c = true → newline_byte ≠ c) as Nc.
  { intros lo hi c Hlo Hc <-. by rewrite byte_within_newline in Hc. }
  assert (∀ c, continuation c = true → newline_byte ≠ c) as Nk.
  { intros c. by apply Nc. }
  destruct (byte_within 194 223 a).
  { destruct (continuation b) eqn:Eb; intros [= <-]. cbn [take].
    rewrite !not_elem_of_cons. auto using not_elem_of_nil. }
  destruct l as [|c l]; [done|]. destruct (byte_within 224 239 a).
  { destruct (_ && _) eqn:E; intros [= <-]. apply andb_true_iff in E as [Eb Ec].
    assert (newline_byte ≠ b).
    { destruct (byte_within 224 224 a); [by apply (Nc 160%N 191%N)|].
      destruct (byte_within 237 237 a); [by apply (Nc 128%N 159%N)|by apply Nk]. }
    cbn [take]. rewrite !not_elem_of_cons. auto 6 using not_elem_of_nil. }
  destruct l as [|d l]; [done|]. destruct (byte_within 240 244 a); [|done].
  destruct (_ && _) eqn:E; intros [= <-]. apply andb_true_iff in E as [E Ed].
  apply andb_true_iff in E as [Eb Ec].
  assert (newline_byte ≠ b).
  { destruct (byte_within 240 240 a); [by apply (Nc 144%N 191%N)|].
    destruct (byte_within 244 244 a); [by apply (Nc 128%N 143%N)|by apply Nk]. }
  cbn [take]. rewrite !not_elem_of_cons. auto 7 using not_elem_of_nil.
Qed.

Lemma hex_digit_newline n : (n < 16)%N → newline_byte ≠ hex_digit n.
Proof.
  intros Hn E. unfold hex_digit in E.
  apply (f_equal Ascii.N_of_ascii) in E. change (Ascii.N_of_ascii newline_byte) with 10%N in E.
  destruct (N.ltb_spec n 10); rewrite Ascii.N_ascii_embedding in E; lia.
Qed.

Lemma escape_ascii_newline c : newline_byte ∉ escape_ascii c.
Proof.
  unfold escape_ascii. cbv zeta. case_bool_decide as Hq.
  { cbn [orb]. rewrite Hq. by_evaluation. }
  cbn [orb]. case_bool_decide as Hb.
  { rewrite Hb. by_evaluation. }
  destruct (Ascii.N_of_ascii c =? 8)%N; [by_evaluation|].
  destruct (Ascii.N_of_ascii c =? 9)%N; [by_evaluation|].
  destruct (N.eqb_spec (Ascii.N_of_ascii c) 10) as [E|E]; [by_evaluation|].
  destruct (Ascii.N_of_ascii c =? 12)%N; [by_evaluation|].
  destruct (Ascii.N_of_ascii c =? 13)%N; [by_evaluation|].
  destruct (N.ltb_spec (Ascii.N_of_ascii c) 32) as [L|L].
  - rewrite not_elem_of_app, !not_elem_of_cons. split; [by_evaluation|].
    split; [|split; [|apply not_elem_of_nil]]; apply hex_digit_newline.
    + apply N.Div0.div_lt_upper_bound. lia.
    + apply N.mod_lt. lia.
  - rewrite not_elem_of_cons. split; [|apply not_elem_of_nil]. intros <-. done.
Qed.

Lemma escape_from_newline k l : newline_byte ∉ escape_from k l.
Proof.
  revert k. induction l as [|c l IH]; intros k; cbn [escape_from]; [apply not_elem_of_nil|].
  destruct k as [|k]; [|apply IH].
  destruct (rune_len (c :: l)) as [|[|n]] eqn:E; rewrite elem_of_app; intros [H|H]; try by apply IH in H.
  - revert H. change (newline_byte ∉ bytes_of "\ufffd"). by_evaluation.
  - by apply escape_ascii_newline in H.
  - apply rune_len_newline in E. unfold escape_rune in H.
    destruct (bool_decide (take (S (S n)) (c :: l) = line_separator));
      [by revert H; by_evaluation|].
    destruct (bool_decide (take (S (S n)) (c :: l) = paragraph_separator));
      [by revert H; by_evaluation|]. done.
Qed.

Lemma quoted_single_line s : single_line (quoted s).
Proof.
  unfold single_line, quoted. rewrite bytes_of_of, elem_of_cons, elem_of_app.
  intros [H|[H|H%list_elem_of_singleton]]; [done| |done]. by apply escape_from_newline in H.
Qed.

#[export] Hint Resolve quoted_single_line : go.

(** A value as the decoder gives it: its numbers are single lines of text. *)
Inductive decoded : json → Prop :=
| decoded_null : decoded JNull
| decoded_bool b : decoded (JBool b)
| decoded_number text : single_line text → decoded (JNumber text)
| decoded_string s : decoded (JString s)
| decoded_array l : Forall decoded l → decoded (JArray l)
| decoded_object m : map_Forall (λ _, decoded) m → decoded (JObject m).

Fixpoint jsize (v : json) : nat :=
  match v with
  | JArray l => S (sum_list (jsize <$> l))
  | JObject m => S (map_fold (λ _ v n, jsize v + n) 0 m)
  | _ => 1
  end.

Lemma jsize_array v l : v ∈ l → jsize v < jsize (JArray l).
Proof.
  intros Hv. change (jsize (JArray l)) with (S (sum_list (jsize <$> l))). apply Nat.lt_succ_r.
  induction l as [|w l IH]; [by apply elem_of_nil in Hv|]. rewrite fmap_cons. simpl.
  apply elem_of_cons in Hv as [->|Hv]; [lia|]. specialize (IH Hv). lia.
Qed.

Lemma jsize_object k v m : m !! k = Some v → jsize v < jsize (JObject m).
Proof.
  intros Hv. cbn [jsize]. fold jsize. rewrite map_fold_foldr.
  apply elem_of_map_to_list in Hv. induction (map_to_list m) as [|[k' w] l IH].
  { by apply elem_of_nil in Hv. }
  cbn [foldr uncurry]. apply elem_of_cons in Hv as [[= <- <-]|Hv]; [lia|]. specialize (IH Hv). lia.
Qed.

Lemma encode_single_line v : decoded v → single_line (encode v).
Proof.
  remember (jsize v) as n eqn:En. revert v En. induction (lt_wf n) as [n _ IH].
  intros v -> Hd. destruct Hd as [|b|text Ht|s|l Hl|m Hm]; cbn [encode].
  - by_evaluation.
  - destruct b; by_evaluation.
  - done.
  - apply quoted_single_line.
  - apply single_line_app; [by_evaluation|]. apply single_line_app.
    + apply single_line_Join; [by_evaluation|]. rewrite Forall_fmap.
      rewrite Forall_forall in Hl |- *. intros v Hv. eapply IH; [|reflexivity|by apply Hl].
      by apply jsize_array.
    + by_evaluation.
  - apply single_line_app; [by_evaluation|]. apply single_line_app.
    + apply single_line_Join; [by_evaluation|].
      rewrite Forall_fmap, Forall_forall. intros [k t] Hkt. unfold sort_members in Hkt.
      rewrite elem_of_sort_stable, map_fold_foldr in Hkt.
      assert (∃ v, m !! k = Some v ∧ t = encode v) as (v & Hv & ->).
      { assert (∀ l, (k, t) ∈ foldr (uncurry (λ k v acc, (k, encode v) :: acc)) [] l →
          ∃ v, (k, v) ∈ l ∧ t = encode v) as Hl.
        { induction l as [|[k' w] l IHl]; simpl; [by intros ?%elem_of_nil|].
          intros [[= -> ->]|Hl]%elem_of_cons; [exists w; split; [by left|done]|].
          destruct (IHl Hl) as (v & ? & ?). exists v. split; [by right|done]. }
        destruct (Hl _ Hkt) as (v & Hin & ->). exists v. split; [|done].
        by apply elem_of_map_to_list. }
      unfold member_text. simpl. apply single_line_app; [apply quoted_single_line|].
      apply single_line_app; [by_evaluation|].
      eapply IH; [|reflexivity|by apply (Hm k)]. by eapply jsize_object.
    + by_evaluation.
Qed.
