(* ===== verification/JsonText.v ===== *)
(** JSON texts as [encoding/json] reads and writes them: the decoder, which keeps
    the members of an object in order and a number as its literal, and the
    encoder with HTML escaping off. What is decoded is a [doc]; [value] is what a
    target of type [any] holds of it. *)

From S2P Require Export Json.

Inductive doc :=
| DNull
| DBool (b : bool)
| DNumber (literal : string)
| DString (s : string)
| DArray (l : list doc)
| DObject (l : list (string * doc)).

(** ** The decoder *)

Definition json_space (c : ascii) : bool := byte_in [9; 10; 13; 32]%N c.

Fixpoint skip_space (l : list ascii) : list ascii :=
  match l with
  | c :: l' => if json_space c then skip_space l' else l
  | [] => []
  end.

(** The literal [w] at the head of [l]: what follows it. *)
Fixpoint after (w l : list ascii) : option (list ascii) :=
  match w, l with
  | [], _ => Some l
  | c :: w, d :: l => if bool_decide (c = d) then after w l else None
  | _, [] => None
  end.

Definition is_digit (c : ascii) : bool := byte_within 48 57 c.

Fixpoint span_digits (l : list ascii) : list ascii * list ascii :=
  match l with
  | c :: l' => if is_digit c then let '(ds, r) := span_digits l' in (c :: ds, r) else ([], l)
  | [] => ([], [])
  end.

Definition digits1 (l : list ascii) : option (list ascii * list ascii) :=
  match span_digits l with ([], _) => None | r => Some r end.

(** The integer part: a zero, or digits that do not start with one. *)
Definition integer_part (l : list ascii) : option (list ascii * list ascii) :=
  match l with
  | c :: l' => if bool_decide (c = "0"%char) then Some ([c], l') else digits1 l
  | [] => None
  end.

Definition fraction (l : list ascii) : option (list ascii * list ascii) :=
  match l with
  | c :: l' =>
      if bool_decide (c = "."%char) then '(ds, r) ← digits1 l'; Some (c :: ds, r)
      else Some ([], l)
  | [] => Some ([], [])
  end.

Definition exponent (l : list ascii) : option (list ascii * list ascii) :=
  match l with
  | c :: l' =>
      if bool_decide (c = "e"%char) || bool_decide (c = "E"%char) then
        match l' with
        | d :: l'' =>
            if bool_decide (d = "+"%char) || bool_decide (d = "-"%char)
            then '(ds, r) ← digits1 l''; Some (c :: d :: ds, r)
            else '(ds, r) ← digits1 l'; Some (c :: ds, r)
        | [] => None
        end
      else Some ([], l)
  | [] => Some ([], [])
  end.

Definition sign_part (l : list ascii) : list ascii * list ascii :=
  match l with
  | c :: l' => if bool_decide (c = "-"%char) then ([c], l') else ([], l)
  | [] => ([], [])
  end.

Definition parse_number (l : list ascii) : option (list ascii * list ascii) :=
  let '(sign, l) := sign_part l in
  '(int, l) ← integer_part l;
  '(frac, l) ← fraction l;
  '(exp, l) ← exponent l;
  Some (sign ++ int ++ frac ++ exp, l).

(** *** Strings *)

Definition hex_value (c : ascii) : option N :=
  let n := Ascii.N_of_ascii c in
  if ((48 <=? n) && (n <=? 57))%N then Some (n - 48)%N
  else if ((97 <=? n) && (n <=? 102))%N then Some (n - 87)%N
  else if ((65 <=? n) && (n <=? 70))%N then Some (n - 55)%N
  else None.

Definition hex4 (a b c d : ascii) : option N :=
  a ← hex_value a; b ← hex_value b; c ← hex_value c; d ← hex_value d;
  Some (((a * 16 + b) * 16 + c) * 16 + d)%N.

Definition byte (n : N) : ascii := Ascii.ascii_of_N n.

(** [utf8.AppendRune], for a code point. *)
Definition utf8 (r : N) : list ascii :=
  if (r <? 128)%N then [byte r]
  else if (r <? 2048)%N then [byte (192 + r / 64); byte (128 + r mod 64)]
  else if ((55296 <=? r) && (r <? 57344))%N then rune_error
  else if (r <? 65536)%N
  then [byte (224 + r / 4096); byte (128 + r / 64 mod 64); byte (128 + r mod 64)]
  else [byte (240 + r / 262144); byte (128 + r / 4096 mod 64);
        byte (128 + r / 64 mod 64); byte (128 + r mod 64)].

Definition high_surrogate (r : N) : bool := ((55296 <=? r) && (r <? 56320))%N.
Definition low_surrogate (r : N) : bool := ((56320 <=? r) && (r <? 57344))%N.

Definition simple_escape (c : ascii) : option ascii :=
  if bool_decide (c = quote_char) || bool_decide (c = backslash) || bool_decide (c = "/"%char)
  then Some c
  else if bool_decide (c = "b"%char) then Some (byte 8)
  else if bool_decide (c = "f"%char) then Some (byte 12)
  else if bool_decide (c = "n"%char) then Some (byte 10)
  else if bool_decide (c = "r"%char) then Some (byte 13)
  else if bool_decide (c = "t"%char) then Some (byte 9)
  else None.

Definition prepend (w : list ascii) (r : option (list ascii * list ascii)) :
    option (list ascii * list ascii) :=
  '(s, rest) ← r; Some (w ++ s, rest).

(** The bytes of a string after its opening quote, [skip] bytes into a rune: the
    decoded text and what follows the closing quote. *)
Fixpoint parse_chars (skip : nat) (l : list ascii) : option (list ascii * list ascii) :=
  match l with
  | [] => None
  | c :: l1 =>
      match skip with
      | S skip => prepend [c] (parse_chars skip l1)
      | 0 =>
          if bool_decide (c = quote_char) then Some ([], l1)
          else if bool_decide (c = backslash) then
            match l1 with
            | [] => None
            | e :: l2 =>
                if bool_decide (e = "u"%char) then
                  match l2 with
                  | a :: b :: g :: h :: l3 =>
                      r ← hex4 a b g h;
                      if high_surrogate r then
                        match l3 with
                        | x :: y :: a' :: b' :: g' :: h' :: l4 =>
                            match (if bool_decide (x = backslash) && bool_decide (y = "u"%char)
                                   then hex4 a' b' g' h' else None) with
                            | Some r' =>
                                if low_surrogate r'
                                then prepend (utf8 (65536 + (r - 55296) * 1024 + (r' - 56320)))
                                       (parse_chars 0 l4)
                                else prepend rune_error (parse_chars 0 l3)
                            | None => prepend rune_error (parse_chars 0 l3)
                            end
                        | _ => prepend rune_error (parse_chars 0 l3)
                        end
                      else prepend (utf8 r) (parse_chars 0 l3)
                  | _ => None
                  end
                else
                  w ← simple_escape e; prepend [w] (parse_chars 0 l2)
            end
          else if byte_within 0 31 c then None
          else
            match rune_len l with
            | 0 => prepend rune_error (parse_chars 0 l1)
            | S n => prepend [c] (parse_chars n l1)
            end
      end
  end.

(** *** Values *)

Definition maxNestingDepth : N := 10000.

Definition parse_literal (w : string) (d : doc) (l : list ascii) : option (doc * list ascii) :=
  r ← after (bytes_of w) l; Some (d, r).

(** One value, from its first byte. The arrays and objects around it are [depth]
    many. Elements and members are read with the value that follows them; [fuel]
    bounds the calls. *)
Fixpoint parse_value (fuel : nat) (depth : N) (l : list ascii) : option (doc * list ascii) :=
  match fuel with
  | 0 => None
  | S fuel =>
      match skip_space l with
      | [] => None
      | c :: l' =>
          if bool_decide (c = "{"%char) then
            if (maxNestingDepth <=? depth)%N then None
            else
              match skip_space l' with
              | x :: r =>
                  if bool_decide (x = "}"%char) then Some (DObject [], r)
                  else '(ms, r) ← parse_members fuel (depth + 1) l'; Some (DObject ms, r)
              | [] => None
              end
          else if bool_decide (c = "["%char) then
            if (maxNestingDepth <=? depth)%N then None
            else
              match skip_space l' with
              | x :: r =>
                  if bool_decide (x = "]"%char) then Some (DArray [], r)
                  else '(vs, r) ← parse_elements fuel (depth + 1) l'; Some (DArray vs, r)
              | [] => None
              end
          else if bool_decide (c = quote_char) then
            '(s, r) ← parse_chars 0 l'; Some (DString (of_bytes s), r)
          else if bool_decide (c = "t"%char) then parse_literal "true" (DBool true) (c :: l')
          else if bool_decide (c = "f"%char) then parse_literal "false" (DBool false) (c :: l')
          else if bool_decide (c = "n"%char) then parse_literal "null" DNull (c :: l')
          else '(n, r) ← parse_number (c :: l'); Some (DNumber (of_bytes n), r)
      end
  end
with parse_elements (fuel : nat) (depth : N) (l : list ascii) : option (list doc * list ascii) :=
  match fuel with
  | 0 => None
  | S fuel =>
      '(v, r) ← parse_value fuel depth l;
      match skip_space r with
      | c :: r =>
          if bool_decide (c = ","%char) then '(vs, r) ← parse_elements fuel depth r; Some (v :: vs, r)
          else if bool_decide (c = "]"%char) then Some ([v], r)
          else None
      | [] => None
      end
  end
with parse_members (fuel : nat) (depth : N) (l : list ascii) :
    option (list (string * doc) * list ascii) :=
  match fuel with
  | 0 => None
  | S fuel =>
      match skip_space l with
      | c :: r =>
          if bool_decide (c = quote_char) then
            '(k, r) ← parse_chars 0 r;
            match skip_space r with
            | c :: r =>
                if bool_decide (c = ":"%char) then
                  '(v, r) ← parse_value fuel depth r;
                  match skip_space r with
                  | c :: r =>
                      if bool_decide (c = ","%char) then
                        '(ms, r) ← parse_members fuel depth r; Some ((of_bytes k, v) :: ms, r)
                      else if bool_decide (c = "}"%char) then Some ([(of_bytes k, v)], r)
                      else None
                  | [] => None
                  end
                else None
            | [] => None
            end
          else None
      | [] => None
      end
  end.

(** [json.Unmarshal]'s reading of a text: one value, and nothing after it. *)
Definition parse_bytes (l : list ascii) : option doc :=
  '(d, r) ← parse_value (2 * length l + 2) 0 l;
  match skip_space r with [] => Some d | _ => None end.

Definition parse (text : string) : option doc := parse_bytes (bytes_of text).

(** ** The encoder *)

Fixpoint print (d : doc) : string :=
  match d with
  | DNull => "null"
  | DBool b => if b then "true" else "false"
  | DNumber n => n
  | DString s => quoted s
  | DArray l => "[" +:+ Join (print <$> l) "," +:+ "]"
  | DObject l => "{" +:+ Join ((λ kv, member_text (kv.1, print kv.2)) <$> l) "," +:+ "}"
  end.

(** ** What a decoder keeps *)

(** The members of an object, by key: the last of those with one key. *)
Definition last_wins {A} (l : list (string * A)) : gmap string A := list_to_map (reverse l).

Definition members (l : list (string * doc)) : gmap string doc := last_wins l.

(** A [map[string]json.RawMessage], into a nil one: null leaves it nil. *)
Definition as_frame (d : doc) : option (gmap string doc) :=
  match d with DObject l => Some (members l) | DNull => Some ∅ | _ => None end.

(** Decoding into a zero [string], [bool] and [int]: null leaves the target. *)
Definition into_string (d : doc) : option string :=
  match d with DString s => Some s | DNull => Some "" | _ => None end.

Definition into_bool (d : doc) : option bool :=
  match d with DBool b => Some b | DNull => Some false | _ => None end.

Definition into_int (d : doc) : option Z :=
  match d with DNumber n => Atoi n | DNull => Some 0%Z | _ => None end.

(** The members of a struct's field [name], in order. *)
Definition field_values (name : string) (l : list (string * doc)) : list doc :=
  omap (λ kv, if bool_decide (fold_name kv.1 = fold_name name) then Some kv.2 else None) l.

(** A string field of a struct holding [init], from the members that name it, in
    order; null leaves it. *)
Definition string_from (init : string) (l : list doc) : option string :=
  foldl (λ acc d, s ← acc; match d with DString t => Some t | DNull => Some s | _ => None end)
    (Some init) l.

Definition string_field : list doc → option string := string_from "".

Definition bool_field (l : list doc) : option bool :=
  foldl (λ acc d, b ← acc; match d with DBool c => Some c | DNull => Some b | _ => None end)
    (Some false) l.

(** An [int] field of a struct holding [init]. *)
Definition int_from (init : Z) (l : list doc) : option Z :=
  foldl (λ acc d, z ← acc; match d with DNumber n => Atoi n | DNull => Some z | _ => None end)
    (Some init) l.

Definition int_field : list doc → option Z := int_from 0%Z.

Section any.
(** The shortest text of the float64 that a literal denotes; [None] out of range. *)
Context (float_text : string → option string).

(** A target of type [any]. *)
Fixpoint value (d : doc) : option json :=
  match d with
  | DNull => Some JNull
  | DBool b => Some (JBool b)
  | DNumber n => JNumber <$> float_text n
  | DString s => Some (JString s)
  | DArray l => JArray <$> mapM value l
  | DObject l =>
      (λ l, JObject (last_wins l)) <$> mapM (λ kv, pair kv.1 <$> value kv.2) l
  end.
(** A field of type [map[string]any]: an object is added to the map it finds. *)
Definition map_from (init : option jobject) (l : list doc) : option (option jobject) :=
  foldl (λ acc d, m ← acc;
           match d with
           | DObject _ =>
               match value d with
               | Some (JObject m') => Some (Some (m' ∪ default ∅ m))
               | _ => None
               end
           | DNull => Some None
           | _ => None
           end)
    (Some init) l.

(** A field of type [any]: every member that names it is decoded, the last one stays. *)
Definition any_field (l : list doc) : option json := default JNull ∘ last <$> mapM value l.
End any.

(** A slice field: each array is decoded over the elements that are there, null
    makes the slice nil. *)
Section slices.
Context {A : Type} (zero : A) (decode : A → doc → option A).

Fixpoint decode_elements (olds : list A) (l : list doc) : option (list A) :=
  match l with
  | [] => Some []
  | d :: l =>
      x ← decode (default zero (head olds)) d;
      xs ← decode_elements (tail olds) l;
      Some (x :: xs)
  end.

Definition slice_field (l : list doc) : option (list A) :=
  foldl (λ acc d, xs ← acc;
           match d with DArray l => decode_elements xs l | DNull => Some [] | _ => None end) (Some []) l.
End slices.

(** ** Induction on documents *)

Section doc_ind'.
Context (P : doc → Prop).
Context (Hnull : P DNull) (Hbool : ∀ b, P (DBool b)) (Hnum : ∀ n, P (DNumber n))
  (Hstr : ∀ s, P (DString s)) (Harr : ∀ l, Forall P l → P (DArray l))
  (Hobj : ∀ l, Forall (λ kv, P kv.2) l → P (DObject l)).

Fixpoint doc_ind' (d : doc) : P d :=
  match d with
  | DNull => Hnull
  | DBool b => Hbool b
  | DNumber n => Hnum n
  | DString s => Hstr s
  | DArray l =>
      Harr l ((fix go l := match l return Forall P l with
                           | [] => Forall_nil_2 _
                           | d :: l => Forall_cons_2 _ _ _ (doc_ind' d) (go l)
                           end) l)
  | DObject l =>
      Hobj l ((fix go l := match l return Forall (λ kv, P kv.2) l with
                           | [] => Forall_nil_2 _
                           | kv :: l => Forall_cons_2 _ _ _ (doc_ind' kv.2) (go l)
                           end) l)
  end.
End doc_ind'.

(** ** The decoder's fuel suffices *)

Lemma skip_space_length l : length (skip_space l) ≤ length l.
Proof. induction l as [|c l IH]; [done|]. cbn [skip_space]. destruct (json_space c); simpl; lia. Qed.

Lemma after_length w l r : after w l = Some r → length l = length w + length r.
Proof.
  revert l. induction w as [|c w IH]; intros l; cbn [after]; [by intros [= ->]|].
  destruct l as [|d l]; [done|]. case_bool_decide; [|done]. intros Hl%IH. simpl. lia.
Qed.

Lemma span_digits_length l : length (span_digits l).1 + length (span_digits l).2 = length l.
Proof.
  induction l as [|c l IH]; [done|]. cbn [span_digits]. destruct (is_digit c); [|done].
  destruct (span_digits l). simpl in *. lia.
Qed.

Lemma digits1_length l ds r : digits1 l = Some (ds, r) → ds ≠ [] ∧ length ds + length r = length l.
Proof.
  unfold digits1. pose proof (span_digits_length l) as H.
  destruct (span_digits l) as [[|d ds'] r']; [done|]. by intros [= <- <-].
Qed.

Lemma parse_number_length l n r : parse_number l = Some (n, r) → length r < length l.
Proof.
  unfold parse_number. destruct (sign_part l) as [s l1] eqn:Es.
  assert (length l1 ≤ length l) as Hs.
  { destruct l as [|c l]; [by injection Es as _ <-|]. unfold sign_part in Es.
    case_bool_decide; injection Es as <- <-; simpl; lia. }
  destruct (integer_part l1) as [[i l2]|] eqn:Ei; [|done]. simpl.
  assert (length l2 < length l1) as Hi.
  { unfold integer_part in Ei. destruct l1 as [|c l1]; [done|].
    case_bool_decide; [injection Ei as <- <-; simpl; lia|].
    apply digits1_length in Ei as [Hn Hl]. destruct i; [done|]. simpl in *. lia. }
  destruct (fraction l2) as [[f l3]|] eqn:Ef; [|done]. simpl.
  assert (length l3 ≤ length l2) as Hf.
  { unfold fraction in Ef. destruct l2 as [|c l2]; [by injection Ef as <- <-|].
    case_bool_decide; [|by injection Ef as <- <-].
    destruct (digits1 l2) as [[ds r']|] eqn:E; simplify_eq/=. apply digits1_length in E. lia. }
  destruct (exponent l3) as [[e l4]|] eqn:Ee; [|done]. simpl. intros [= <- <-].
  assert (length l4 ≤ length l3); [|lia].
  unfold exponent in Ee. destruct l3 as [|c l3]; [by injection Ee as <- <-|].
  destruct (_ || _); [|by injection Ee as <- <-]. destruct l3 as [|d l3]; [done|].
  destruct (_ || _).
  - destruct (digits1 l3) as [[ds r']|] eqn:E; simplify_eq/=. apply digits1_length in E. lia.
  - destruct (digits1 (d :: l3)) as [[ds r']|] eqn:E; simplify_eq/=. apply digits1_length in E.
    simpl in *. lia.
Qed.

Lemma prepend_some w r s t : prepend w r = Some (s, t) → ∃ s', r = Some (s', t) ∧ s = w ++ s'.
Proof. destruct r as [[s' t']|]; [|done]. intros [= <- <-]. by exists s'. Qed.


Lemma parse_chars_length k l s r : parse_chars k l = Some (s, r) → length r < length l.
Proof.
  remember (length l) as n eqn:En. revert k l s En. induction (lt_wf n) as [n _ IH].
  intros k l s ->. destruct l as [|c l1]; [done|]. cbn [parse_chars].
  assert (∀ k l' w, length l' ≤ length l1 → prepend w (parse_chars k l') = Some (s, r) →
    length r < length (c :: l1)) as step.
  { intros k' l' w Hl (s' & Hs & _)%prepend_some.
    specialize (IH (length l') ltac:(simpl; lia) _ _ _ eq_refl Hs). simpl. lia. }
  destruct k as [|k]; [|by apply step]. case_bool_decide; [intros [= <- <-]; simpl; lia|].
  case_bool_decide.
  - destruct l1 as [|e l2]; [done|]. case_bool_decide.
    + destruct l2 as [|a [|b [|g [|h l3]]]]; try done.
      destruct (hex4 a b g h) as [v|]; [|done]. cbn [mbind option_bind].
      destruct (high_surrogate v); [|apply step; simpl; lia].
      destruct l3 as [|x [|y [|a' [|b' [|g' [|h' l4]]]]]]; try (apply step; simpl; lia).
      destruct (if _ && _ then _ else _) as [v'|]; [|apply step; simpl; lia].
      destruct (low_surrogate v'); apply step; simpl; lia.
    + destruct (simple_escape e); [|done]. apply step. simpl. lia.
  - destruct (byte_within 0 31 c); [done|]. destruct (rune_len (c :: l1)); by apply step.
Qed.

Lemma parse_literal_length w d l d' r :
  w ≠ "" → parse_literal w d l = Some (d', r) → length r < length l.
Proof.
  intros Hw. unfold parse_literal. destruct (after _ l) as [r'|] eqn:E; [|done]. intros [= <- <-].
  apply after_length in E. destruct w; [done|]. simpl in E. lia.
Qed.

(** The readers of the decoder leave less than they were given. *)
Lemma parse_length fuel :
  (∀ n l d r, parse_value fuel n l = Some (d, r) → length r < length l) ∧
  (∀ n l d r, parse_elements fuel n l = Some (d, r) → length r < length l) ∧
  (∀ n l d r, parse_members fuel n l = Some (d, r) → length r < length l).
Proof.
  induction fuel as [|fuel (IHv & IHe & IHm)]; [done|].
  split; [|split]; intros n l d r; cbn [parse_value parse_elements parse_members].
  - pose proof (skip_space_length l) as Hs. destruct (skip_space l) as [|c l']; [done|].
    assert (∀ w x, w ≠ "" → parse_literal w x (c :: l') = Some (d, r) → length r < length l) as lit.
    { intros w x Hw H%parse_literal_length; [|done]. lia. }
    pose proof (skip_space_length l') as Hs'.
    case_bool_decide; [|case_bool_decide]; [| |case_bool_decide].
    + destruct (_ <=? _)%N; [done|]. destruct (skip_space l') as [|x l2]; [done|].
      case_bool_decide; [intros [= <- <-]; simpl in *; lia|].
      destruct (parse_members fuel (n + 1) l') as [[ms r']|] eqn:E; [|done]. intros [= <- <-].
      apply IHm in E. simpl in *; lia.
    + destruct (_ <=? _)%N; [done|]. destruct (skip_space l') as [|x l2]; [done|].
      case_bool_decide; [intros [= <- <-]; simpl in *; lia|].
      destruct (parse_elements fuel (n + 1) l') as [[ms r']|] eqn:E; [|done]. intros [= <- <-].
      apply IHe in E. simpl in *; lia.
    + destruct (parse_chars 0 l') as [[s r']|] eqn:E; [|done]. intros [= <- <-].
      apply parse_chars_length in E. simpl in *; lia.
    + repeat (case_bool_decide; [by apply lit|]).
      destruct (parse_number _) as [[s r']|] eqn:E; [|done]. intros [= <- <-].
      apply parse_number_length in E. simpl in *; lia.
  - destruct (parse_value fuel n l) as [[v r1]|] eqn:E; [|done]. cbn [mbind option_bind].
    apply IHv in E. pose proof (skip_space_length r1). destruct (skip_space r1) as [|c r2]; [done|].
    simpl in *. case_bool_decide.
    + destruct (parse_elements fuel n r2) as [[vs r3]|] eqn:E2; [|done]. intros [= <- <-].
      apply IHe in E2. lia.
    + case_bool_decide; [|done]. intros [= <- <-]. lia.
  - pose proof (skip_space_length l). destruct (skip_space l) as [|c l1]; [done|].
    case_bool_decide; [|done].
    destruct (parse_chars 0 l1) as [[k r1]|] eqn:E; [|done]. cbn [mbind option_bind].
    apply parse_chars_length in E. pose proof (skip_space_length r1).
    destruct (skip_space r1) as [|c2 r2]; [done|]. case_bool_decide; [|done].
    destruct (parse_value fuel n r2) as [[v r3]|] eqn:Ev; [|done]. cbn [mbind option_bind].
    apply IHv in Ev. pose proof (skip_space_length r3).
    destruct (skip_space r3) as [|c3 r4]; [done|]. simpl in *. case_bool_decide.
    + destruct (parse_members fuel n r4) as [[ms r5]|] eqn:E2; [|done]. intros [= <- <-].
      apply IHm in E2. lia.
    + case_bool_decide; [|done]. intros [= <- <-]. lia.
Qed.

(** More fuel than twice the bytes changes nothing. *)
Lemma parse_fuel f : ∀ g, f ≤ g →
  (∀ n l, 2 * length l < f → parse_value f n l = parse_value g n l) ∧
  (∀ n l, 2 * length l + 1 < f → parse_elements f n l = parse_elements g n l) ∧
  (∀ n l, 2 * length l + 1 < f → parse_members f n l = parse_members g n l).
Proof.
  induction f as [|f IH]; intros g Hg; [by split_and!; intros; lia|].
  destruct g as [|g]; [lia|]. destruct (IH g ltac:(lia)) as (IHv & IHe & IHm).
  split_and!; intros n l Hf; cbn [parse_value parse_elements parse_members].
  - pose proof (skip_space_length l) as Hs. destruct (skip_space l) as [|c l']; [done|].
    simpl in Hs. by rewrite IHm, IHe by lia.
  - rewrite <-IHv by lia. destruct (parse_value f n l) as [[v r]|] eqn:E; [|done].
    apply parse_length in E. pose proof (skip_space_length r) as Hs. cbn [mbind option_bind].
    destruct (skip_space r) as [|c r']; [done|]. simpl in Hs. by rewrite IHe by lia.
  - pose proof (skip_space_length l) as Hs. destruct (skip_space l) as [|c l1]; [done|].
    simpl in Hs. case_bool_decide; [|done].
    destruct (parse_chars 0 l1) as [[k r1]|] eqn:E; [|done]. apply parse_chars_length in E.
    cbn [mbind option_bind]. pose proof (skip_space_length r1) as Hs1.
    destruct (skip_space r1) as [|c2 r2]; [done|]. simpl in Hs1. case_bool_decide; [|done].
    rewrite <-IHv by lia. destruct (parse_value f n r2) as [[v r3]|] eqn:Ev; [|done].
    apply parse_length in Ev. pose proof (skip_space_length r3) as Hs3. cbn [mbind option_bind].
    destruct (skip_space r3) as [|c3 r4]; [done|]. simpl in Hs3. by rewrite IHm by lia.
Qed.

Lemma parse_value_fuel f n l :
  2 * length l < f → parse_value f n l = parse_value (2 * length l + 2) n l.
Proof.
  intros Hf. destruct (decide (f ≤ 2 * length l + 2)) as [L|L].
  - by apply (parse_fuel f).
  - symmetry. apply (parse_fuel (2 * length l + 2)); lia.
Qed.

(** ** Texts that the encoder writes read back *)

Definition valid_text (s : string) : bool := valid_from 0 (bytes_of s).

(** A document as the decoder makes them: valid UTF-8, numbers by the grammar. *)
Fixpoint text_ok (d : doc) : bool :=
  match d with
  | DNumber n => bool_decide (parse_number (bytes_of n) = Some (bytes_of n, []))
  | DString s => valid_text s
  | DArray l => forallb text_ok l
  | DObject l => forallb (λ kv, valid_text kv.1 && text_ok kv.2) l
  | _ => true
  end.

(** How deep its arrays and objects nest. *)
Fixpoint nesting (d : doc) : N :=
  match d with
  | DArray l => (1 + foldr (λ d n, N.max (nesting d) n) 0 l)%N
  | DObject l => (1 + foldr (λ kv n, N.max (nesting kv.2) n) 0 l)%N
  | _ => 0%N
  end.

(** *** Strings *)

Lemma prepend_app a b r : prepend a (prepend b r) = prepend (a ++ b) r.
Proof. destruct r as [[s t]|]; [|done]. simpl. by rewrite app_assoc. Qed.

Lemma parse_chars_skip w t : parse_chars (length w) (w ++ t) = prepend w (parse_chars 0 t).
Proof.
  induction w as [|c w IH]; [by cbn [length app]; destruct (parse_chars 0 t) as [[? ?]|]|].
  cbn [length app parse_chars]. rewrite IH, prepend_app. done.
Qed.

Lemma escape_from_skip w s : escape_from (length w) (w ++ s) = escape_from 0 s.
Proof. induction w; [done|]. done. Qed.

Lemma parse_chars_ascii c t :
  byte_within 0 127 c = true → parse_chars 0 (escape_ascii c ++ t) = prepend [c] (parse_chars 0 t).
Proof. destruct c as [[] [] [] [] [] [] [] []]; intros H; try discriminate H; reflexivity. Qed.

Lemma not_ascii_plain c :
  byte_within 0 127 c = false →
  c ≠ quote_char ∧ c ≠ backslash ∧ byte_within 0 31 c = false.
Proof.
  intros H. split_and!; [by intros ->|by intros ->|]. unfold byte_within in *.
  apply andb_false_iff in H as [H|H]; [by destruct (Ascii.N_of_ascii c)|].
  apply andb_false_iff. right. apply N.leb_gt in H. apply N.leb_gt. lia.
Qed.

Lemma parse_chars_rune ch t :
  rune_ok ch → 1 < length ch → parse_chars 0 (ch ++ t) = prepend ch (parse_chars 0 t).
Proof.
  intros [Hn Hl] H1. destruct ch as [|c ch]; [done|].
  destruct (not_ascii_plain c) as (Nq & Nb & Nc).
  { destruct (byte_within 0 127 c) eqn:E; [|done]. cbn [rune_len] in Hl. rewrite E in Hl.
    simpl in *. lia. }
  cbn [app parse_chars]. rewrite (bool_decide_eq_false_2 _ Nq), (bool_decide_eq_false_2 _ Nb), Nc.
  change (c :: ch ++ t) with ((c :: ch) ++ t). rewrite (rune_len_app _ t (length ch)) by done.
  by rewrite parse_chars_skip, prepend_app.
Qed.

Lemma parse_chars_escape_rune ch t :
  rune_ok ch → 1 < length ch →
  parse_chars 0 (escape_rune ch ++ t) = prepend ch (parse_chars 0 t).
Proof.
  intros Hok Hl. unfold escape_rune. case_bool_decide as H1; [by rewrite H1|].
  case_bool_decide as H2; [by rewrite H2|]. by apply parse_chars_rune.
Qed.

(** What the encoder writes for a valid text reads back as the text. *)
Lemma parse_chars_escape l t :
  valid_from 0 l = true → parse_chars 0 (escape_from 0 l ++ quote_char :: t) = Some (l, t).
Proof.
  remember (length l) as n eqn:En. revert l En. induction (lt_wf n) as [n _ IH].
  intros l -> Hv. destruct l as [|c l]; [done|]. cbn [valid_from escape_from] in *.
  destruct (rune_len (c :: l)) as [|k] eqn:E; [done|].
  assert (length (take k l) = k) as Hk.
  { pose proof (rune_len_le _ _ E). simpl in *. rewrite length_take. lia. }
  assert (∀ w, parse_chars 0 (w ++ escape_from 0 (drop k l) ++ quote_char :: t) =
    prepend (c :: take k l) (parse_chars 0 (escape_from 0 (drop k l) ++ quote_char :: t)) →
    parse_chars 0 (w ++ escape_from k l ++ quote_char :: t) = Some (c :: l, t)) as step.
  { intros w Hw.
    assert (escape_from k l = escape_from 0 (drop k l)) as ->.
    { rewrite <-(take_drop k l) at 1. by rewrite <-(escape_from_skip (take k l)), Hk. }
    rewrite Hw, (IH (length (drop k l))).
    - simpl. by rewrite take_drop.
    - rewrite length_drop. simpl. lia.
    - done.
    - rewrite <-(take_drop k l) in Hv. rewrite <-Hk in Hv at 1. by rewrite valid_from_skip in Hv. }
  destruct k as [|k]; rewrite <-app_assoc; apply step.
  - apply parse_chars_ascii. cbn [rune_len] in E. destruct (byte_within 0 127 c); [done|].
    destruct l as [|b l]; [done|]. destruct (byte_within 194 223 c); [by destruct (continuation b)|].
    destruct l as [|b2 l]; [done|]. destruct (byte_within 224 239 c); [by destruct (_ && _)|].
    destruct l as [|b3 l]; [done|]. destruct (byte_within 240 244 c); [|done]. by destruct (_ && _).
  - apply (parse_chars_escape_rune (c :: take (S k) l)); [|simpl in *; lia]. split; [done|].
    change (c :: take (S k) l) with (take (S (S k)) (c :: l)).
    rewrite (rune_len_take _ _ E). simpl in *. lia.
Qed.

(** *** Numbers *)

(** What may follow a number. *)
Definition stops (l : list ascii) : bool :=
  match l with
  | c :: _ => negb (is_digit c || bool_decide (c = "."%char)
                    || bool_decide (c = "e"%char) || bool_decide (c = "E"%char))
  | [] => true
  end.

Lemma span_digits_app l r :
  stops r = true → span_digits (l ++ r) = ((span_digits l).1, (span_digits l).2 ++ r).
Proof.
  intros Hr. induction l as [|c l IH].
  - destruct r as [|c r]; [done|]. cbn [stops] in Hr. apply negb_true_iff in Hr.
    rewrite !orb_false_iff in Hr. destruct Hr as [[[Hr _] _] _]. simpl. by rewrite Hr.
  - cbn [app span_digits]. destruct (is_digit c); [|done]. rewrite IH. by destruct (span_digits l).
Qed.

Lemma digits1_app l r ds l' :
  stops r = true → digits1 l = Some (ds, l') → digits1 (l ++ r) = Some (ds, l' ++ r).
Proof.
  intros Hr. unfold digits1. rewrite (span_digits_app _ _ Hr).
  destruct (span_digits l) as [[|d ds'] l2]; [done|]. by intros [= <- <-].
Qed.

Lemma integer_part_app l r ds l' :
  stops r = true → integer_part l = Some (ds, l') → integer_part (l ++ r) = Some (ds, l' ++ r).
Proof.
  intros Hr. unfold integer_part. destruct l as [|c l]; [done|]. cbn [app].
  case_bool_decide; [by intros [= <- <-]|]. by apply (digits1_app (c :: l)).
Qed.

Lemma fraction_app l r ds l' :
  stops r = true → fraction l = Some (ds, l') → fraction (l ++ r) = Some (ds, l' ++ r).
Proof.
  intros Hr. destruct l as [|c l].
  - intros [= <- <-]. destruct r as [|c r]; [done|]. cbn [stops] in Hr.
    apply negb_true_iff in Hr. rewrite !orb_false_iff in Hr. destruct Hr as [[[_ Hr] _] _].
    cbn [app fraction]. by rewrite Hr.
  - cbn [app fraction]. case_bool_decide; [|by intros [= <- <-]].
    destruct (digits1 l) as [[ds' l2]|] eqn:E; [|done]. intros [= <- <-].
    by rewrite (digits1_app _ _ _ _ Hr E).
Qed.

Lemma exponent_app l r ds l' :
  stops r = true → exponent l = Some (ds, l') → exponent (l ++ r) = Some (ds, l' ++ r).
Proof.
  intros Hr. destruct l as [|c l].
  - intros [= <- <-]. destruct r as [|c r]; [done|]. cbn [stops] in Hr.
    apply negb_true_iff in Hr. rewrite !orb_false_iff in Hr. destruct Hr as [[_ H1] H2].
    cbn [app exponent]. by rewrite H1, H2.
  - cbn [app exponent]. destruct (_ || _); [|by intros [= <- <-]].
    destruct l as [|d l]; [done|]. cbn [app]. destruct (_ || _).
    + destruct (digits1 l) as [[ds' l2]|] eqn:E; [|done]. intros [= <- <-].
      by rewrite (digits1_app _ _ _ _ Hr E).
    + destruct (digits1 (d :: l)) as [[ds' l2]|] eqn:E; [|done]. intros [= <- <-].
      change (d :: l ++ r) with ((d :: l) ++ r). by rewrite (digits1_app _ _ _ _ Hr E).
Qed.

Lemma parse_number_app l r n l' :
  stops r = true → parse_number l = Some (n, l') → parse_number (l ++ r) = Some (n, l' ++ r).
Proof.
  intros Hr. unfold parse_number.
  assert (l ≠ [] → sign_part (l ++ r) = ((sign_part l).1, (sign_part l).2 ++ r)) as Hs.
  { destruct l as [|c l]; [done|]. intros _. cbn [app sign_part]. by case_bool_decide. }
  destruct (decide (l = [])) as [->|Hl]; [done|]. rewrite (Hs Hl).
  destruct (sign_part l) as [s l1]. cbn [fst snd].
  destruct (integer_part l1) as [[i l2]|] eqn:Ei; [|done]. cbn [mbind option_bind].
  rewrite (integer_part_app _ _ _ _ Hr Ei). cbn [mbind option_bind].
  destruct (fraction l2) as [[f l3]|] eqn:Ef; [|done]. cbn [mbind option_bind].
  rewrite (fraction_app _ _ _ _ Hr Ef). cbn [mbind option_bind].
  destruct (exponent l3) as [[e l4]|] eqn:Ee; [|done]. intros [= <- <-].
  by rewrite (exponent_app _ _ _ _ Hr Ee).
Qed.

(** How a number starts. *)
Definition number_start (c : ascii) : bool := is_digit c || bool_decide (c = "-"%char).

Lemma parse_number_start c l r : parse_number (c :: l) = Some r → number_start c = true.
Proof.
  unfold parse_number, number_start. cbn [sign_part]. case_bool_decide; [by rewrite orb_true_r|].
  cbn [integer_part]. case_bool_decide as H0; [by rewrite H0|]. unfold digits1. cbn [span_digits].
  by destruct (is_digit c).
Qed.

Lemma number_start_plain c :
  number_start c = true →
  json_space c = false ∧ c ≠ "{"%char ∧ c ≠ "["%char ∧ c ≠ "]"%char ∧ c ≠ quote_char ∧
  c ≠ "t"%char ∧ c ≠ "f"%char ∧ c ≠ "n"%char.
Proof. destruct c as [[] [] [] [] [] [] [] []]; intros H; try discriminate H; by split_and!. Qed.

(** *** Documents *)

Lemma bytes_of_Join ls sep : bytes_of (Join ls sep) = join_bytes (bytes_of sep) (bytes_of <$> ls).
Proof. unfold Join. by rewrite bytes_of_of. Qed.

Lemma bytes_of_quoted s : bytes_of (quoted s) = quote_char :: escape_from 0 (bytes_of s) ++ [quote_char].
Proof. unfold quoted. by rewrite bytes_of_of. Qed.

Lemma after_self w r : after w (w ++ r) = Some r.
Proof. induction w; [done|]. cbn [after app]. by rewrite bool_decide_eq_true_2. Qed.

(** A text starts with neither a space nor a closing bracket. *)
Lemma print_head d :
  text_ok d = true → ∃ c l, bytes_of (print d) = c :: l ∧ json_space c = false ∧ c ≠ "]"%char.
Proof.
  destruct d as [|b|n|s|l|l]; cbn [text_ok print]; intros Hok.
  - by exists "n"%char, (bytes_of "ull").
  - destruct b; [by exists "t"%char, (bytes_of "rue")|by exists "f"%char, (bytes_of "alse")].
  - apply bool_decide_eq_true in Hok. destruct (bytes_of n) as [|c l]; [done|].
    destruct (number_start_plain c) as (? & _ & _ & ? & _); [by eapply parse_number_start|]. eauto.
  - rewrite bytes_of_quoted. eauto.
  - rewrite bytes_of_app. cbn. eauto.
  - rewrite bytes_of_app. cbn. eauto.
Qed.

Definition reads (d : doc) : Prop := ∀ f n r,
  text_ok d = true → 2 * length (bytes_of (print d) ++ r) < f →
  (n + nesting d <= maxNestingDepth)%N → stops r = true →
  parse_value f n (bytes_of (print d) ++ r) = Some (d, r).

Lemma skip_space_solid c l : json_space c = false → skip_space (c :: l) = c :: l.
Proof. intros H. cbn [skip_space]. by rewrite H. Qed.

Lemma parse_elements_print l f n r :
  Forall reads l → forallb text_ok l = true → l ≠ [] →
  2 * length (join_bytes (bytes_of ",") (bytes_of ∘ print <$> l) ++ "]"%char :: r) + 1 < f →
  (n + foldr (λ d n, N.max (nesting d) n) 0 l <= maxNestingDepth)%N →
  parse_elements f n (join_bytes (bytes_of ",") (bytes_of ∘ print <$> l) ++ "]"%char :: r)
  = Some (l, r).
Proof.
  intros Hl. revert f. induction Hl as [|d l Hd Hl IH]; intros f Hok Hne Hf Hn; [done|].
  cbn [forallb foldr] in *. apply andb_true_iff in Hok as [Hdok Hlok].
  destruct f as [|f]; [lia|]. cbn [parse_elements].
  destruct l as [|d' l].
  - cbn [fmap list_fmap join_bytes] in *. unfold compose in *.
    rewrite Hd by (done || lia). done.
  - remember (d' :: l) as l1 eqn:El1.
    assert (join_bytes (bytes_of ",") (bytes_of ∘ print <$> d :: l1) =
      bytes_of (print d) ++ ","%char :: join_bytes (bytes_of ",") (bytes_of ∘ print <$> l1)) as E.
    { rewrite El1. done. }
    rewrite E in Hf |- *. rewrite <-app_assoc in Hf |- *. cbn [app] in *.
    rewrite Hd by (done || lia). cbn [mbind option_bind].
    rewrite skip_space_solid by done. rewrite bool_decide_eq_true_2 by done.
    rewrite length_app in Hf. cbn [length] in Hf.
    rewrite IH; [done|done|by rewrite El1|lia|lia].
Qed.

Definition member_bytes (kv : string * doc) : list ascii :=
  bytes_of (member_text (kv.1, print kv.2)).

Lemma member_bytes_eq k d :
  member_bytes (k, d)
  = quote_char :: escape_from 0 (bytes_of k) ++ quote_char :: ":"%char :: bytes_of (print d).
Proof.
  unfold member_bytes, member_text. cbn [fst snd]. rewrite !bytes_of_app, bytes_of_quoted.
  cbn [app]. by rewrite <-app_assoc.
Qed.

Lemma parse_members_print l f n r :
  Forall (λ kv, reads kv.2) l →
  forallb (λ kv, valid_text kv.1 && text_ok kv.2) l = true → l ≠ [] →
  2 * length (join_bytes (bytes_of ",") (member_bytes <$> l) ++ "}"%char :: r) + 1 < f →
  (n + foldr (λ kv n, N.max (nesting kv.2) n) 0 l <= maxNestingDepth)%N →
  parse_members f n (join_bytes (bytes_of ",") (member_bytes <$> l) ++ "}"%char :: r) = Some (l, r).
Proof.
  intros Hl. revert f. induction Hl as [|[k d] l Hd Hl IH]; intros f Hok Hne Hf Hn; [done|].
  cbn [forallb foldr fst snd] in *. apply andb_true_iff in Hok as [Hdok Hlok].
  apply andb_true_iff in Hdok as [Hk Hdok]. destruct f as [|f]; [lia|].
  assert (∃ t, join_bytes (bytes_of ",") (member_bytes <$> (k, d) :: l) ++ "}"%char :: r =
    quote_char :: escape_from 0 (bytes_of k) ++ quote_char :: ":"%char :: bytes_of (print d) ++ t ∧
    t = (if decide (l = []) then "}"%char :: r
         else ","%char :: join_bytes (bytes_of ",") (member_bytes <$> l) ++ "}"%char :: r))
    as (t & E & Et).
  { eexists. split; [|reflexivity]. destruct l as [|kv l]; cbn [fmap list_fmap join_bytes].
    - rewrite member_bytes_eq. cbn [app]. by rewrite <-app_assoc.
    - rewrite member_bytes_eq. cbn [app]. rewrite <-!app_assoc. cbn [app].
      by rewrite <-?app_assoc. }
  rewrite E in Hf |- *. cbn [parse_members]. rewrite skip_space_solid by done.
  rewrite bool_decide_eq_true_2 by done. rewrite parse_chars_escape by done.
  cbn [mbind option_bind]. rewrite skip_space_solid by done. rewrite bool_decide_eq_true_2 by done.
  cbn [length] in Hf. rewrite length_app in Hf. cbn [length] in Hf.
  rewrite Hd; [|done|lia|lia|rewrite Et; by case_decide].
  cbn [mbind option_bind]. rewrite Et in Hf |- *. rewrite length_app in Hf. case_decide as El.
  - rewrite skip_space_solid by done. simpl. by rewrite of_bytes_of, El.
  - rewrite skip_space_solid by done. rewrite bool_decide_eq_true_2 by done. cbn [length] in Hf.
    rewrite IH; [|done|done|lia|lia]. simpl. by rewrite of_bytes_of.
Qed.

Lemma parse_value_print d : reads d.
Proof.
  induction d as [|b|m|s|l IH|l IH] using doc_ind'; intros f n r Hok Hf Hn Hr;
    cbn [text_ok nesting print] in *; (destruct f as [|f]; [lia|]); cbn [parse_value].
  - done.
  - destruct b; done.
  - apply bool_decide_eq_true in Hok. destruct (bytes_of m) as [|c l] eqn:Em; [done|].
    destruct (number_start_plain c) as (? & ? & ? & ? & ? & ? & ? & ?);
      [by eapply parse_number_start|].
    cbn [app]. rewrite skip_space_solid by done. rewrite !bool_decide_eq_false_2 by done.
    change (c :: l ++ r) with ((c :: l) ++ r). rewrite (parse_number_app _ _ _ _ Hr Hok).
    cbn [mbind option_bind app]. by rewrite <-Em, of_bytes_of.
  - rewrite bytes_of_quoted. cbn [app]. rewrite skip_space_solid by done.
    rewrite <-app_assoc. cbn [app]. rewrite !(bool_decide_eq_false_2 (quote_char = _)) by done.
    rewrite bool_decide_eq_true_2 by done. rewrite parse_chars_escape by done.
    simpl. by rewrite of_bytes_of.
  - rewrite !bytes_of_app, bytes_of_Join, <-list_fmap_compose, <-!app_assoc in Hf |- *.
    cbn [bytes_of String.list_ascii_of_string app] in *. rewrite skip_space_solid by done.
    rewrite bool_decide_eq_false_2 by done. rewrite bool_decide_eq_true_2 by done.
    rewrite (proj2 (N.leb_gt _ _)) by lia. destruct l as [|d l]; [done|].
    assert (∃ c t, join_bytes [","%char] (bytes_of ∘ print <$> d :: l) ++ "]"%char :: r = c :: t ∧
      json_space c = false ∧ c ≠ "]"%char) as (c & t & E & Hc & Hnc).
    { destruct (print_head d) as (c & t & E & Hc & Hnc).
      { cbn [forallb] in Hok. by apply andb_true_iff in Hok as [? _]. }
      destruct l; cbn [fmap list_fmap join_bytes]; unfold compose; rewrite E; cbn [app]; eauto. }
    rewrite E, skip_space_solid by done. rewrite bool_decide_eq_false_2 by done. rewrite <-E.
    change [","%char] with (bytes_of ",") in *. rewrite parse_elements_print; [done|done|done|done| |].
    + cbn [length] in Hf. lia.
    + lia.
  - rewrite !bytes_of_app, bytes_of_Join, <-list_fmap_compose, <-!app_assoc in Hf |- *.
    change (bytes_of ∘ (λ kv, member_text (kv.1, print kv.2))) with member_bytes in *.
    cbn [bytes_of String.list_ascii_of_string app] in *. rewrite skip_space_solid by done.
    rewrite bool_decide_eq_true_2 by done.
    rewrite (proj2 (N.leb_gt _ _)) by lia. destruct l as [|[k d] l]; [done|].
    assert (∃ t, join_bytes [","%char] (member_bytes <$> (k, d) :: l) ++ "}"%char :: r
                 = quote_char :: t) as (t & E).
    { destruct l; cbn [fmap list_fmap join_bytes]; rewrite member_bytes_eq; cbn [app]; eauto. }
    rewrite E, skip_space_solid by done. rewrite bool_decide_eq_false_2 by done. rewrite <-E.
    change [","%char] with (bytes_of ",") in *. rewrite parse_members_print; [done|done|done|done| |].
    + cbn [length] in Hf. lia.
    + lia.
Qed.

(** What the encoder writes, the decoder reads. *)
Lemma parse_print d :
  text_ok d = true → (nesting d <= maxNestingDepth)%N → parse (print d) = Some d.
Proof.
  intros Hok Hn. unfold parse, parse_bytes.
  pose proof (parse_value_print d (2 * length (bytes_of (print d)) + 2) 0%N [] Hok) as H.
  rewrite app_nil_r in H. by rewrite H by (done || lia).
Qed.

(** The same with a newline after it, as an encoder of a stream leaves. *)
Lemma parse_print_line d :
  text_ok d = true → (nesting d <= maxNestingDepth)%N →
  parse (print d +:+ of_bytes [newline_byte]) = Some d.
Proof.
  intros Hok Hn. unfold parse, parse_bytes. rewrite bytes_of_app, bytes_of_of.
  rewrite parse_value_print by (done || lia). done.
Qed.

(** ** Texts that the decoder reads *)

Lemma N_of_byte n : (n < 256)%N → Ascii.N_of_ascii (byte n) = n.
Proof. apply Ascii.N_ascii_embedding. Qed.

Lemma byte_within_byte lo hi n :
  (n < 256)%N → byte_within lo hi (byte n) = ((lo <=? n) && (n <=? hi))%N.
Proof. intros H. unfold byte_within. by rewrite N_of_byte. Qed.

Ltac decide_bytes :=
  repeat match goal with
  | |- context [(?a <=? ?b)%N] => destruct (N.leb_spec a b); try lia
  end.

Lemma utf8_ok r : (r < 1114112)%N → rune_ok (utf8 r).
Proof.
  intros Hr. unfold utf8. pose proof (N.mod_lt r 64 ltac:(lia)) as M1.
  pose proof (N.mod_lt (r / 64) 64 ltac:(lia)) as M2.
  pose proof (N.mod_lt (r / 4096) 64 ltac:(lia)) as M3.
  pose proof (N.div_mod r 64 ltac:(lia)) as D1.
  pose proof (N.div_mod (r / 64) 64 ltac:(lia)) as D2.
  pose proof (N.div_mod (r / 4096) 64 ltac:(lia)) as D3.
  assert (r / 64 / 64 = r / 4096)%N as E2 by (by rewrite N.Div0.div_div).
  assert (r / 4096 / 64 = r / 262144)%N as E3 by (by rewrite N.Div0.div_div).
  rewrite E2 in D2. rewrite E3 in D3.
  set (a1 := (r / 64)%N) in *. set (a2 := (r / 4096)%N) in *. set (a3 := (r / 262144)%N) in *.
  set (m1 := (r mod 64)%N) in *. set (m2 := (a1 mod 64)%N) in *. set (m3 := (a2 mod 64)%N) in *.
  clearbody a1 a2 a3 m1 m2 m3.
  destruct (N.ltb_spec r 128).
  { split; [done|]. cbn [rune_len length]. rewrite byte_within_byte by lia. decide_bytes. done. }
  destruct (N.ltb_spec r 2048).
  { split; [done|]. cbn [rune_len length]. unfold continuation.
    rewrite !byte_within_byte by lia. decide_bytes. done. }
  destruct ((55296 <=? r) && (r <? 57344))%N eqn:Es; [done|].
  apply andb_false_iff in Es. rewrite N.leb_gt, N.ltb_ge in Es.
  destruct (N.ltb_spec r 65536).
  { split; [done|]. cbn [rune_len length]. unfold continuation.
    rewrite !byte_within_byte by lia. decide_bytes; try done; exfalso; lia. }
  split; [done|]. cbn [rune_len length]. unfold continuation.
  rewrite !byte_within_byte by lia. decide_bytes; try done; exfalso; lia.
Qed.

Lemma hex_value_bound c n : hex_value c = Some n → (n < 16)%N.
Proof.
  unfold hex_value. cbv zeta. generalize (Ascii.N_of_ascii c). intros m.
  repeat match goal with
  | |- context [(?a <=? ?b)%N] => destruct (N.leb_spec a b)
  end; cbn [andb]; intros Hn; simplify_eq; lia.
Qed.

Lemma hex4_bound a b c d n : hex4 a b c d = Some n → (n < 65536)%N.
Proof.
  unfold hex4. destruct (hex_value a) eqn:Ea, (hex_value b) eqn:Eb, (hex_value c) eqn:Ec,
    (hex_value d) eqn:Ed; try done. intros [= <-].
  apply hex_value_bound in Ea, Eb, Ec, Ed. lia.
Qed.

Lemma valid_from_prepend w s k : rune_ok w → valid_from k s = true → k = 0 → valid_from 0 (w ++ s) = true.
Proof. intros Hw Hs ->. by rewrite valid_from_rune. Qed.

Lemma simple_escape_ok e w : simple_escape e = Some w → rune_ok [w].
Proof.
  unfold simple_escape. intros H. split; [done|].
  assert (byte_within 0 127 w = true) as Hw; [|cbn [rune_len length]; by rewrite Hw].
  destruct e as [[] [] [] [] [] [] [] []]; try discriminate H; injection H as <-; done.
Qed.

Lemma rune_ok_1 l : rune_len l = 1 → rune_ok (take 1 l).
Proof. intros H. split; [by destruct l|]. rewrite (rune_len_take _ _ H). by destruct l. Qed.

Lemma rune_ok_take l n : rune_len l = S n → rune_ok (take (S n) l).
Proof.
  intros H. split; [by destruct l|]. rewrite (rune_len_take _ _ H), length_take.
  pose proof (rune_len_le _ _ H). lia.
Qed.

(** A decoded string is valid UTF-8, whatever the bytes of the text. *)
Lemma parse_chars_valid l s r : parse_chars 0 l = Some (s, r) → valid_from 0 s = true.
Proof.
  remember (length l) as n eqn:En. revert l s r En. induction (lt_wf n) as [n _ IH].
  intros l s r ->. destruct l as [|c l1]; [done|]. cbn [parse_chars].
  assert (∀ l' w, length l' ≤ length l1 → rune_ok w →
    prepend w (parse_chars 0 l') = Some (s, r) → valid_from 0 s = true) as step.
  { intros l' w Hl Hw (s' & Hs & ->)%prepend_some. rewrite valid_from_rune by done.
    eapply (IH (length l')); [simpl; lia|reflexivity|exact Hs]. }
  case_bool_decide; [by intros [= <- <-]|]. case_bool_decide.
  - destruct l1 as [|e l2]; [done|]. case_bool_decide.
    + destruct l2 as [|a [|b [|g [|h l3]]]]; try done.
      destruct (hex4 a b g h) as [v|] eqn:Ev; [|done]. apply hex4_bound in Ev.
      cbn [mbind option_bind].
      destruct (high_surrogate v) eqn:Eh; [|apply step; [simpl; lia|apply utf8_ok; lia]].
      destruct l3 as [|x [|y [|a' [|b' [|g' [|h' l4]]]]]];
        try (apply step; [simpl; lia|by split]).
      destruct (if _ && _ then _ else _) as [v'|] eqn:Ev';
        [|apply step; [simpl; lia|by split]].
      destruct (low_surrogate v') eqn:El; [|apply step; [simpl; lia|by split]].
      apply step; [simpl; lia|]. apply utf8_ok. unfold high_surrogate, low_surrogate in *.
      apply andb_true_iff in Eh as [_ Eh%N.ltb_lt]. apply andb_true_iff in El as [_ El%N.ltb_lt]. lia.
    + destruct (simple_escape e) as [w|] eqn:Ew; [|done].
      apply step; [simpl; lia|by eapply simple_escape_ok].
  - destruct (byte_within 0 31 c); [done|]. destruct (rune_len (c :: l1)) as [|k] eqn:E.
    { apply step; [done|by split]. }
    assert (length (take k l1) = k) as Hk.
    { pose proof (rune_len_le _ _ E). simpl in *. rewrite length_take. lia. }
    rewrite <-(take_drop k l1) at 1. rewrite <-Hk at 1. rewrite parse_chars_skip, prepend_app.
    apply step; [rewrite length_drop; lia|]. by apply (rune_ok_take (c :: l1)).
Qed.

Lemma span_digits_self l : span_digits (span_digits l).1 = ((span_digits l).1, []).
Proof.
  induction l as [|c l IH]; [done|]. cbn [span_digits]. destruct (is_digit c) eqn:E; [|done].
  destruct (span_digits l) as [ds r]. cbn [fst snd] in *. cbn [span_digits]. by rewrite E, IH.
Qed.

Lemma span_digits_split l : l = (span_digits l).1 ++ (span_digits l).2.
Proof.
  induction l as [|c l IH]; [done|]. cbn [span_digits]. destruct (is_digit c); [|done].
  destruct (span_digits l) as [ds r]. cbn in *. by rewrite <-IH.
Qed.

(** The digits that [span_digits] takes are digits. *)
Lemma span_digits_stop l ds t :
  (span_digits l).1 = ds → match t with c :: _ => is_digit c = false | [] => True end →
  span_digits (ds ++ t) = (ds, t).
Proof.
  intros <- Ht. induction l as [|c l IH].
  - simpl. destruct t as [|c t]; [done|]. cbn [span_digits]. by rewrite Ht.
  - cbn [span_digits]. destruct (is_digit c) eqn:E.
    + destruct (span_digits l) as [ds r]. cbn [fst app] in *. cbn [span_digits]. by rewrite E, IH.
    + simpl. destruct t as [|d t]; [done|]. cbn [span_digits]. by rewrite Ht.
Qed.

Definition no_digit (t : list ascii) : Prop :=
  match t with c :: _ => is_digit c = false | [] => True end.

Lemma digits1_stop l ds r t : digits1 l = Some (ds, r) → no_digit t → digits1 (ds ++ t) = Some (ds, t).
Proof.
  unfold digits1. destruct (span_digits l) as [ds' r'] eqn:E. destruct ds' as [|d ds']; [done|].
  intros [= <- <-] Ht. by rewrite (span_digits_stop l (d :: ds') t (f_equal fst E) Ht).
Qed.

Lemma digits1_head c l ds r : digits1 (c :: l) = Some (ds, r) → ∃ ds', ds = c :: ds'.
Proof.
  unfold digits1. pose proof (span_digits_split (c :: l)) as Hs.
  destruct (span_digits (c :: l)) as [[|x xs] ys]; [done|]. intros [= <- <-].
  injection Hs as <- _. eauto.
Qed.

Lemma exponent_self l3 e l4 :
  exponent l3 = Some (e, l4) →
  exponent e = Some (e, []) ∧ no_digit e ∧ (∀ c l, e = c :: l → c ≠ "."%char).
Proof.
  intros Ee.
  unfold exponent in Ee. destruct l3 as [|c l3]; [by injection Ee as <- <-|].
    destruct (_ || _) eqn:Ec; [|by injection Ee as <- <-].
    assert (is_digit c = false ∧ c ≠ "."%char) as [Hc1 Hc2].
    { apply orb_true_iff in Ec as [E|E]; apply bool_decide_eq_true in E; by rewrite E. }
    destruct l3 as [|d l3]; [done|]. destruct (bool_decide (d = "+"%char) || _) eqn:Ed.
    - destruct (digits1 l3) as [[ds r']|] eqn:E; [|done]. injection Ee as <- <-.
      split_and!; [|done|by intros ? ? [= <- <-]]. cbn [exponent]. rewrite Ec, Ed.
      pose proof (digits1_stop _ _ _ [] E I) as Hd. rewrite app_nil_r in Hd. by rewrite Hd.
    - destruct (digits1 (d :: l3)) as [[ds r']|] eqn:E; [|done]. injection Ee as <- <-.
      split_and!; [|done|by intros ? ? [= <- <-]]. cbn [exponent]. rewrite Ec.
      pose proof (digits1_stop _ _ _ [] E I) as Hd. rewrite app_nil_r in Hd.
      destruct (digits1_head _ _ _ _ E) as [ds' ->].
      rewrite Ed. by rewrite Hd.
Qed.

Lemma fraction_self l2 f l3 e :
  fraction l2 = Some (f, l3) → no_digit e → (∀ c l, e = c :: l → c ≠ "."%char) →
  fraction (f ++ e) = Some (f, e) ∧ no_digit (f ++ e).
Proof.
  intros Ef Hne Hde.
  unfold fraction in Ef. destruct l2 as [|c l2].
    - injection Ef as <- <-. cbn [app]. split; [|done]. destruct e as [|c e]; [done|].
      cbn [fraction]. rewrite bool_decide_eq_false_2; [done|]. by eapply Hde.
    - case_bool_decide as Hc.
      + destruct (digits1 l2) as [[ds r']|] eqn:E; [|done]. injection Ef as <- <-.
        cbn [app fraction]. split; [|by subst c]. rewrite (bool_decide_eq_true_2 _ Hc).
        by rewrite (digits1_stop _ _ _ _ E Hne).
      + injection Ef as <- <-. cbn [app]. split; [|done]. destruct e as [|d e]; [done|].
        cbn [fraction]. rewrite bool_decide_eq_false_2; [done|]. by eapply Hde.
Qed.

Lemma integer_part_self l1 i l2 t :
  integer_part l1 = Some (i, l2) → no_digit t → integer_part (i ++ t) = Some (i, t).
Proof.
  intros Ei Hnf.
  unfold integer_part in Ei. destruct l1 as [|c l1]; [done|]. case_bool_decide as Hc.
    - injection Ei as <- <-. cbn [app integer_part]. by rewrite (bool_decide_eq_true_2 _ Hc).
    - destruct (digits1_head _ _ _ _ Ei) as [i' ->].
      cbn [app integer_part]. rewrite (bool_decide_eq_false_2 _ Hc).
      by rewrite (digits1_stop _ _ _ _ Ei Hnf : digits1 (c :: i' ++ t) = _).
Qed.

(** A literal that the decoder takes is one by itself. *)
Lemma parse_number_self l n r : parse_number l = Some (n, r) → parse_number n = Some (n, []).
Proof.
  unfold parse_number. destruct (sign_part l) as [s l1] eqn:Es.
  destruct (integer_part l1) as [[i l2]|] eqn:Ei; [|done]. cbn [mbind option_bind].
  destruct (fraction l2) as [[f l3]|] eqn:Ef; [|done]. cbn [mbind option_bind].
  destruct (exponent l3) as [[e l4]|] eqn:Ee; [|done]. intros [= <- <-].
  destruct (exponent_self _ _ _ Ee) as (He & Hne & Hde).
  destruct (fraction_self _ _ _ _ Ef Hne Hde) as (Hf & Hnf).
  pose proof (integer_part_self _ _ _ _ Ei Hnf) as Hi.
  assert (sign_part (s ++ i ++ f ++ e) = (s, i ++ f ++ e)) as ->.
  { unfold sign_part in Es. destruct l as [|c l]; [by injection Es as <- <-; simpl in Ei|].
    case_bool_decide as Hc; injection Es as <- <-.
    - cbn [app sign_part]. by rewrite (bool_decide_eq_true_2 _ Hc).
    - cbn [app]. destruct (i ++ f ++ e) as [|d t] eqn:E; [done|]. cbn [sign_part].
      rewrite bool_decide_eq_false_2; [done|]. intros ->. cbn [integer_part] in Hi.
      rewrite bool_decide_eq_false_2 in Hi by done. done. }
  rewrite Hi. cbn [mbind option_bind]. rewrite Hf. cbn [mbind option_bind]. by rewrite He.
Qed.

(** What the decoder gives is well formed and not too deep. *)
Lemma parse_ok fuel :
  (∀ n l d r, (n <= maxNestingDepth)%N → parse_value fuel n l = Some (d, r) →
     text_ok d = true ∧ (n + nesting d <= maxNestingDepth)%N) ∧
  (∀ n l vs r, (n <= maxNestingDepth)%N → parse_elements fuel n l = Some (vs, r) →
     forallb text_ok vs = true ∧
     (n + foldr (λ d n, N.max (nesting d) n) 0 vs <= maxNestingDepth)%N) ∧
  (∀ n l ms r, (n <= maxNestingDepth)%N → parse_members fuel n l = Some (ms, r) →
     forallb (λ kv, valid_text kv.1 && text_ok kv.2) ms = true ∧
     (n + foldr (λ kv n, N.max (nesting kv.2) n) 0 ms <= maxNestingDepth)%N).
Proof.
  induction fuel as [|fuel (IHv & IHe & IHm)]; [done|].
  split_and!; intros n l d r Hn; cbn [parse_value parse_elements parse_members].
  - destruct (skip_space l) as [|c l']; [done|].
    assert (∀ w x, text_ok x = true → nesting x = 0%N → parse_literal w x (c :: l') = Some (d, r) →
      text_ok d = true ∧ (n + nesting d <= maxNestingDepth)%N) as lit.
    { intros w x Hx Hx0. unfold parse_literal. destruct (after _ _); [|done]. intros [= <- <-].
      rewrite Hx0. split; [done|lia]. }
    case_bool_decide; [|case_bool_decide]; [| |case_bool_decide].
    + destruct (N.leb_spec maxNestingDepth n); [done|]. destruct (skip_space l') as [|x l2]; [done|].
      case_bool_decide; [intros [= <- <-]; split; [done|cbn [nesting foldr]; lia]|].
      destruct (parse_members fuel (n + 1) l') as [[ms r']|] eqn:E; [|done]. intros [= <- <-].
      apply IHm in E as [Hok Hd]; [|lia]. cbn [text_ok nesting]. split; [done|lia].
    + destruct (N.leb_spec maxNestingDepth n); [done|]. destruct (skip_space l') as [|x l2]; [done|].
      case_bool_decide; [intros [= <- <-]; split; [done|cbn [nesting foldr]; lia]|].
      destruct (parse_elements fuel (n + 1) l') as [[ms r']|] eqn:E; [|done]. intros [= <- <-].
      apply IHe in E as [Hok Hd]; [|lia]. cbn [text_ok nesting]. split; [done|lia].
    + destruct (parse_chars 0 l') as [[s r']|] eqn:E; [|done]. intros [= <- <-].
      apply parse_chars_valid in E. cbn [text_ok nesting]. unfold valid_text.
      rewrite bytes_of_of. split; [done|lia].
    + repeat (case_bool_decide; [by apply lit|]).
      destruct (parse_number _) as [[s r']|] eqn:E; [|done]. intros [= <- <-].
      apply parse_number_self in E. cbn [text_ok nesting]. rewrite bytes_of_of.
      split; [by apply bool_decide_eq_true|lia].
  - destruct (parse_value fuel n l) as [[v r1]|] eqn:E; [|done]. cbn [mbind option_bind].
    apply IHv in E as [Hok Hd]; [|done]. destruct (skip_space r1) as [|c r2]; [done|].
    case_bool_decide.
    + destruct (parse_elements fuel n r2) as [[vs r3]|] eqn:E2; [|done]. intros [= <- <-].
      apply IHe in E2 as [Hok2 Hd2]; [|done]. cbn [forallb foldr]. rewrite Hok, Hok2.
      split; [done|lia].
    + case_bool_decide; [|done]. intros [= <- <-]. cbn [forallb foldr]. rewrite Hok.
      split; [done|lia].
  - destruct (skip_space l) as [|c l1]; [done|]. case_bool_decide; [|done].
    destruct (parse_chars 0 l1) as [[k r1]|] eqn:E; [|done]. cbn [mbind option_bind].
    apply parse_chars_valid in E. destruct (skip_space r1) as [|c2 r2]; [done|].
    case_bool_decide; [|done].
    destruct (parse_value fuel n r2) as [[v r3]|] eqn:Ev; [|done]. cbn [mbind option_bind].
    apply IHv in Ev as [Hok Hd]; [|done]. destruct (skip_space r3) as [|c3 r4]; [done|].
    assert (valid_text (of_bytes k) = true) as Hk by (unfold valid_text; by rewrite bytes_of_of).
    case_bool_decide.
    + destruct (parse_members fuel n r4) as [[ms r5]|] eqn:E2; [|done]. intros [= <- <-].
      apply IHm in E2 as [Hok2 Hd2]; [|done]. cbn [forallb foldr fst snd]. rewrite Hk, Hok, Hok2.
      split; [done|lia].
    + case_bool_decide; [|done]. intros [= <- <-]. cbn [forallb foldr fst snd]. rewrite Hk, Hok.
      split; [done|lia].
Qed.

Lemma parse_text_ok text d :
  parse text = Some d → text_ok d = true ∧ (nesting d <= maxNestingDepth)%N.
Proof.
  unfold parse, parse_bytes. destruct (parse_value _ 0 _) as [[v r]|] eqn:E; [|done].
  cbn [mbind option_bind]. destruct (skip_space r); [|done]. intros [= <-].
  by apply parse_ok in E.
Qed.

(** ** Values *)

(** The document the encoder writes for a value. *)
Fixpoint doc_of (v : json) : doc :=
  match v with
  | JNull => DNull
  | JBool b => DBool b
  | JNumber n => DNumber n
  | JString s => DString s
  | JArray l => DArray (doc_of <$> l)
  | JObject m =>
      DObject (sort_stable (λ a b, str_ltb a.1 b.1)
                 (map_fold (λ k v acc, (k, doc_of v) :: acc) [] m))
  end.

Section json_ind'.
Context (P : json → Prop).
Context (Hnull : P JNull) (Hbool : ∀ b, P (JBool b)) (Hnum : ∀ n, P (JNumber n))
  (Hstr : ∀ s, P (JString s)) (Harr : ∀ l, Forall P l → P (JArray l))
  (Hobj : ∀ m, map_Forall (λ _, P) m → P (JObject m)).

Lemma json_ind' v : P v.
Proof using All.
  remember (jsize v) as n eqn:En. revert v En. induction (lt_wf n) as [n _ IH]. intros v ->.
  destruct v as [|b|t|s|l|m]; auto.
  - apply Harr. rewrite Forall_forall. intros v Hv. eapply IH; [|reflexivity]. by apply jsize_array.
  - apply Hobj. intros k v Hv. eapply IH; [|reflexivity]. by eapply jsize_object.
Qed.
End json_ind'.

Lemma map_fold_pairs {A B} (f : A → B) (m : gmap string A) :
  map_fold (λ k v acc, (k, f v) :: acc) [] m = prod_map id f <$> map_to_list m.
Proof.
  rewrite map_fold_foldr. induction (map_to_list m) as [|[k v] l IH]; [done|].
  cbn [foldr uncurry]. by rewrite IH.
Qed.

(** The members of the document of an object, in order. *)
Lemma doc_of_members m :
  doc_of (JObject m)
  = DObject (prod_map id doc_of <$> sort_stable (λ a b, str_ltb a.1 b.1) (map_to_list m)).
Proof. cbn [doc_of]. by rewrite map_fold_pairs, sort_stable_fmap. Qed.

Lemma print_doc_of v : print (doc_of v) = encode v.
Proof.
  induction v as [| | | |l IH|m IH] using json_ind'; try done.
  - cbn [doc_of print encode]. rewrite <-list_fmap_compose.
    replace (print ∘ doc_of <$> l) with (encode <$> l); [done|]. apply list_fmap_ext.
    intros i v Hv. symmetry. rewrite Forall_forall in IH. by eapply IH, list_elem_of_lookup_2.
  - rewrite doc_of_members. cbn [print encode]. rewrite map_fold_pairs. unfold sort_members.
    rewrite sort_stable_fmap, <-!list_fmap_compose.
    match goal with |- _ = "{" +:+ Join ?b _ +:+ _ =>
      match goal with |- _ +:+ Join ?a _ +:+ _ = _ => replace a with b; [done|] end end.
    apply list_fmap_ext. intros i [k v] Hkv. unfold compose, member_text. cbn [fst snd prod_map id].
    f_equal. rewrite IH; [done|]. apply elem_of_map_to_list.
    rewrite <-(elem_of_sort_stable (λ a b, str_ltb a.1 b.1)). by eapply list_elem_of_lookup_2.
Qed.

Lemma last_wins_perm {A} (l : list (string * A)) m :
  l ≡ₚ map_to_list m → last_wins l = m.
Proof.
  intros H. unfold last_wins. rewrite <-(list_to_map_to_list m). apply list_to_map_proper.
  - rewrite reverse_Permutation, H. apply NoDup_fst_map_to_list.
  - by rewrite reverse_Permutation.
Qed.

Lemma last_wins_lookup {A} (l : list (string * A)) k v :
  last_wins l !! k = Some v → (k, v) ∈ l.
Proof. unfold last_wins. intros H%elem_of_list_to_map_2. by apply elem_of_reverse. Qed.

(** The laws of a float formatter: its texts are literals, and it gives a text of
    its own back unchanged. *)
Definition float_laws (float_text : string → option string) : Prop :=
  ∀ n t, parse_number (bytes_of n) = Some (bytes_of n, []) → float_text n = Some t →
    parse_number (bytes_of t) = Some (bytes_of t, []) ∧ float_text t = Some t.

Section values.
Context (float_text : string → option string) (Hfloat : float_laws float_text).

(** A value as [value] makes it: its document is well formed and has the value. *)
Definition settled (v : json) (n : N) : Prop :=
  text_ok (doc_of v) = true ∧ (nesting (doc_of v) <= n)%N ∧ value float_text (doc_of v) = Some v.

Lemma settled_array l n :
  Forall (λ v, settled v n) l → settled (JArray l) (1 + n).
Proof using.
  intros H. unfold settled. cbn [doc_of text_ok nesting value].
  assert (forallb text_ok (doc_of <$> l) = true ∧
    (foldr (λ d n, N.max (nesting d) n) 0 (doc_of <$> l) <= n)%N ∧
    mapM (value float_text) (doc_of <$> l) = Some l) as (-> & Hn & ->).
  { induction H as [|v l (Hv1 & Hv2 & Hv3) _ (IH1 & IH2 & IH3)]; [split_and!; [done|cbn; lia|done]|].
    rewrite !fmap_cons. cbn [forallb foldr]. rewrite Hv1, IH1. split_and!; [done|lia|].
    cbn [mapM]. rewrite Hv3. cbn [mbind option_bind]. by rewrite IH3. }
  split_and!; [done|lia|done].
Qed.

Lemma settled_object m n :
  map_Forall (λ k v, valid_text k = true ∧ settled v n) m → settled (JObject m) (1 + n).
Proof using.
  intros H. unfold settled. rewrite doc_of_members. cbn [text_ok nesting value].
  set (l := sort_stable _ (map_to_list m)).
  assert (Forall (λ kv, valid_text kv.1 = true ∧ settled kv.2 n) l) as Hl.
  { rewrite Forall_forall. intros [k v] Hkv. unfold l in Hkv.
    rewrite elem_of_sort_stable in Hkv. apply elem_of_map_to_list in Hkv. by apply H in Hkv. }
  assert (l ≡ₚ map_to_list m) as Hp by apply sort_stable_perm. clearbody l.
  assert (forallb (λ kv, valid_text kv.1 && text_ok kv.2) (prod_map id doc_of <$> l) = true ∧
    (foldr (λ kv n, N.max (nesting kv.2) n) 0 (prod_map id doc_of <$> l) <= n)%N ∧
    mapM (λ kv, pair kv.1 <$> value float_text kv.2) (prod_map id doc_of <$> l) = Some l)
    as (-> & Hn & ->).
  { clear Hp. induction Hl as [|[k v] l (Hk & Hv1 & Hv2 & Hv3) _ (IH1 & IH2 & IH3)]; [split_and!; [done|cbn; lia|done]|].
    rewrite !fmap_cons. cbn [forallb foldr prod_map fst snd id] in *. rewrite Hk, Hv1, IH1.
    split_and!; [done|lia|]. cbn [mapM fst snd]. rewrite Hv3. cbn [fmap option_fmap option_map mbind option_bind].
    by rewrite IH3. }
  split_and!; [done|lia|]. cbn [fmap option_fmap option_map]. by rewrite (last_wins_perm l m).
Qed.

Lemma settled_mono v n n' : (n <= n')%N → settled v n → settled v n'.
Proof using. intros Hn (? & ? & ?). split_and!; [done|lia|done]. Qed.

Lemma value_settled d v :
  text_ok d = true → value float_text d = Some v → settled v (nesting d).
Proof using Hfloat.
  revert v. induction d as [|b|t|s|l IH|l IH] using doc_ind'; intros v Hok Hv;
    cbn [text_ok value nesting] in *; simplify_eq.
  - done.
  - done.
  - destruct (float_text t) as [t'|] eqn:E; simplify_eq/=. apply bool_decide_eq_true in Hok.
    destruct (Hfloat t t' Hok E) as [H1 H2]. split_and!; [by apply bool_decide_eq_true|done|].
    cbn [doc_of value]. by rewrite H2.
  - done.
  - destruct (mapM (value float_text) l) as [vs|] eqn:E; simplify_eq/=. apply settled_array.
    apply mapM_Some in E. revert Hok IH. induction E as [|d v l vs Hd _ IHl]; intros Hok IH; [constructor|].
    cbn [forallb foldr] in *. apply andb_true_iff in Hok as [Hd1 Hl1].
    apply Forall_cons in IH as [IHd IH]. constructor.
    + eapply settled_mono; [|by apply IHd]. lia.
    + eapply Forall_impl; [by apply IHl|]. intros v' Hs. eapply settled_mono; [|exact Hs]. lia.
  - destruct (mapM _ l) as [kvs|] eqn:E; simplify_eq/=. apply settled_object.
    apply mapM_Some in E.
    assert (Forall (λ kv, valid_text kv.1 = true ∧
      settled kv.2 (foldr (λ kv n, N.max (nesting kv.2) n) 0%N l)) kvs) as Hall.
    { revert Hok IH. induction E as [|[k d] [k' v] l kvs Hd _ IHl]; intros Hok IH; [constructor|].
      cbn [forallb foldr fst snd] in *. apply andb_true_iff in Hok as [Hd1 Hl1].
      apply andb_true_iff in Hd1 as [Hk Hd1]. apply Forall_cons in IH as [IHd IH].
      destruct (value float_text d) as [v'|] eqn:Ev; simplify_eq/=. constructor.
      + split; [done|]. eapply settled_mono; [|by apply IHd]. cbn [snd]. lia.
      + eapply Forall_impl; [by apply IHl|]. intros kv [? Hs]. split; [done|].
        eapply settled_mono; [|exact Hs]. lia. }
    intros k v Hkv%last_wins_lookup. rewrite Forall_forall in Hall. by apply Hall in Hkv.
Qed.

(** A value that was read can be written and read again: the text of its
    encoding has the same value. *)
Lemma encode_reads_back text d v :
  parse text = Some d → value float_text d = Some v →
  parse (encode v) = Some (doc_of v) ∧ value float_text (doc_of v) = Some v.
Proof using Hfloat.
  intros [Hok Hn]%parse_text_ok Hv. apply value_settled in Hv as (H1 & H2 & H3); [|done].
  split; [|done]. rewrite <-print_doc_of. apply parse_print; [done|]. etrans; [exact H2|done].
Qed.
End values.

(** *** One line *)

Lemma digits_newline ds : Forall (λ c, is_digit c = true) ds → newline_byte ∉ ds.
Proof. intros H Hin. rewrite Forall_forall in H. by specialize (H _ Hin). Qed.

Lemma span_digits_digits l : Forall (λ c, is_digit c = true) (span_digits l).1.
Proof.
  induction l as [|c l IH]; [constructor|]. cbn [span_digits]. destruct (is_digit c) eqn:E; [|constructor].
  destruct (span_digits l). by constructor.
Qed.

Lemma digits1_newline l ds r : digits1 l = Some (ds, r) → newline_byte ∉ ds.
Proof.
  unfold digits1. pose proof (span_digits_digits l) as H. destruct (span_digits l) as [[|d ds'] r']; [done|].
  intros [= <- <-]. by apply digits_newline.
Qed.

Lemma parse_number_newline l n r : parse_number l = Some (n, r) → newline_byte ∉ n.
Proof.
  unfold parse_number. destruct (sign_part l) as [s l1] eqn:Es.
  assert (newline_byte ∉ s) as Hs.
  { destruct l as [|c l]; [injection Es as <- <-; apply not_elem_of_nil|]. unfold sign_part in Es.
    case_bool_decide as Hc; injection Es as <- <-; [|apply not_elem_of_nil]. subst c. by_evaluation. }
  destruct (integer_part l1) as [[i l2]|] eqn:Ei; [|done]. cbn [mbind option_bind].
  assert (newline_byte ∉ i) as Hi.
  { unfold integer_part in Ei. destruct l1 as [|c l1]; [done|].
    case_bool_decide as Hc; [injection Ei as <- <-; subst c; by_evaluation|by eapply digits1_newline]. }
  destruct (fraction l2) as [[f l3]|] eqn:Ef; [|done]. cbn [mbind option_bind].
  assert (newline_byte ∉ f) as Hf.
  { unfold fraction in Ef. destruct l2 as [|c l2]; [injection Ef as <- <-; apply not_elem_of_nil|].
    case_bool_decide as Hc; [|injection Ef as <- <-; apply not_elem_of_nil]. subst c.
    destruct (digits1 l2) as [[ds r']|] eqn:E; [|done]. injection Ef as <- <-.
    apply not_elem_of_cons. split; [done|by eapply digits1_newline]. }
  destruct (exponent l3) as [[e l4]|] eqn:Ee; [|done]. intros [= <- <-].
  rewrite !elem_of_app. intros [H|[H|[H|H]]]; [done..|]. revert H. change (newline_byte ∉ e).
  unfold exponent in Ee. destruct l3 as [|c l3]; [injection Ee as <- <-; apply not_elem_of_nil|].
  destruct (bool_decide (c = "e"%char) || _) eqn:Ec; [|injection Ee as <- <-; apply not_elem_of_nil].
  assert (newline_byte ≠ c) as Nc.
  { intros <-. done. }
  destruct l3 as [|d l3]; [done|]. destruct (bool_decide (d = "+"%char) || _) eqn:Ed.
  - assert (newline_byte ≠ d) as Nd by (intros <-; done).
    destruct (digits1 l3) as [[ds r']|] eqn:E; [|done]. injection Ee as <- <-.
    rewrite !not_elem_of_cons. split_and!; [done..|by eapply digits1_newline].
  - destruct (digits1 (d :: l3)) as [[ds r']|] eqn:E; [|done]. injection Ee as <- <-.
    apply not_elem_of_cons. split; [done|by eapply digits1_newline].
Qed.

(** The encoder writes one line. *)
Lemma print_single_line d : text_ok d = true → single_line (print d).
Proof.
  induction d as [|b|n|s|l IH|l IH] using doc_ind'; cbn [text_ok print]; intros Hok.
  - by_evaluation.
  - destruct b; by_evaluation.
  - apply bool_decide_eq_true, parse_number_newline in Hok. done.
  - apply quoted_single_line.
  - apply single_line_app; [by_evaluation|]. apply single_line_app; [|by_evaluation].
    apply single_line_Join; [by_evaluation|]. rewrite Forall_fmap. rewrite Forall_forall in IH |- *.
    rewrite forallb_forall in Hok. intros d Hd. apply IH; [done|]. by apply Hok, list_elem_of_In.
  - apply single_line_app; [by_evaluation|]. apply single_line_app; [|by_evaluation].
    apply single_line_Join; [by_evaluation|]. rewrite Forall_fmap. rewrite Forall_forall in IH |- *.
    rewrite forallb_forall in Hok. intros [k d] Hd. unfold compose, member_text. cbn [fst snd].
    apply single_line_app; [apply quoted_single_line|]. apply single_line_app; [by_evaluation|].
    apply (IH (k, d)); [done|]. apply list_elem_of_In, Hok, andb_true_iff in Hd as [_ ?]. done.
Qed.

(** A value of a well-formed document, written and read again. *)
Lemma encode_settled float_text d v :
  float_laws float_text → text_ok d = true → (nesting d <= maxNestingDepth)%N →
  value float_text d = Some v →
  single_line (encode v) ∧ parse (encode v) = Some (doc_of v) ∧
  parse (encode v +:+ of_bytes [newline_byte]) = Some (doc_of v) ∧
  value float_text (doc_of v) = Some v.
Proof.
  intros Hf Hok Hn Hv. destruct (value_settled _ Hf _ _ Hok Hv) as (H1 & H2 & H3).
  rewrite <-print_doc_of. split_and!; [by apply print_single_line| | |done].
  - apply parse_print; [done|by etrans].
  - apply parse_print_line; [done|by etrans].
Qed.
