(* ===== verification/JvmPool.v ===== *)
(** The durable membership record of named JVM pools
    (src/cli/internal/jvmpool/registry.go).

    One [disk] holds the membership file; [Read], [Snapshot], [ValidatePool],
    [Reconcile] and [Remove] are the methods of [Registry], each atomic under
    its mutex. The JSON text of the file is not modelled: the file holds the
    document it decodes to, or one of the reasons it does not decode. The
    outcome of every system call of a write is an argument. *)

From S2P Require Export GoStrings.

(** ** Data *)

Definition MembershipFormat : string := "millstrand.jvm-pool-membership/v1".

Record Member := mkMember {
  m_ConfigDir : string;
  m_SourceCWD : string;
  m_JVMPool : string;
}.

#[global] Instance Member_eq_dec : EqDecision Member.
Proof. solve_decision. Defined.

(** [d_Members = None] is Go's nil slice. *)
Record Document := mkDocument {
  d_Format : string;
  d_Revision : string;
  d_Members : option (list Member);
}.

Record PoolSnapshot := mkSnapshot {
  ps_Pool : string;
  ps_Revision : string;
  ps_Members : list Member;
}.

(** Empty strings and a nil pool are [""] and [None]. *)
Record EffectiveConfig := mkEffective {
  e_ConfigDir : string;
  e_SourceCWD : string;
  e_JVMPool : option string;
}.

Record LiveOwner := mkOwner { lo_Pool : string; lo_HostID : string }.

Record Mutation := mkMutation {
  mu_Changed : bool;
  mu_Revision : string;
  mu_Members : list Member;
}.

(** The failure points of [atomicWrite], in order. *)
Inductive write_step :=
| WMkdir | WEncode | WCreateTemp | WChmod | WWrite | WSync | WClose
| WRename | WOpenDir | WDirSync.

#[global] Instance write_step_eq_dec : EqDecision write_step.
Proof. solve_decision. Defined.

Inductive doc_error :=
| DBadFormat | DBadRevision | DNilMembers
| DMember (e : string) | DBlankPool | DDuplicate (dir : string) | DUnsorted.

(** One row of the joined error of [ValidatePool]. *)
Inductive member_failure :=
| FResolve (dir : string)
| FConfigDir (dir got : string)
| FSourceCWD (dir got : string)
| FPoolNull (dir : string)
| FPoolBlank (dir : string)
| FPoolMismatch (dir got want : string).

Inductive reg_error :=
| EInvalidArgument (e : doc_error)
| ERead | EMalformed | ETrailing
| EInvalid (e : doc_error)
| EResolverRequired
| EValidate (fs : list member_failure)
| EStopRequired (dir : string) (owner : LiveOwner)
| ERevision
| EWrite (w : write_step).

(** The membership file as [os.ReadFile] and the decoder see it. *)
Inductive stored :=
| SAbsent | SUnreadable | SMalformed | STrailing
| SDoc (d : Document).

(** [d_tmp] is the temporary file of a write in progress: created and empty,
    or holding a document. *)
Record disk := mkDisk {
  d_file : stored;
  d_tmp : option (option Document);
}.

(** ** Validation *)

Definition validateCanonicalPath (label path : string) : result doc_error unit :=
  ensure (negb (bool_decide (path = "")) && IsAbs path
          && bool_decide (Clean path = path)) (DMember label).

Definition validateCanonicalConfigDir (path : string) : result doc_error unit :=
  validateCanonicalPath "config_dir" path.

Definition validatePoolName (pool : string) : result doc_error unit :=
  ensure (negb (is_blank pool)) DBlankPool.

Definition validateMember (m : Member) : result doc_error unit :=
  validateCanonicalConfigDir (m_ConfigDir m) ;;
  validateCanonicalPath "source_cwd" (m_SourceCWD m) ;;
  validatePoolName (m_JVMPool m).

(** The first loop of [validateDocument], with its [seen] set. *)
Fixpoint validate_rows (seen : gset string) (ms : list Member)
    : result doc_error unit :=
  match ms with
  | [] => Ok tt
  | m :: ms =>
      validateMember m ;;
      ensure (negb (bool_decide (m_ConfigDir m ∈ seen))) (DDuplicate (m_ConfigDir m)) ;;
      validate_rows ({[m_ConfigDir m]} ∪ seen) ms
  end.

(** The second loop: neighbours are strictly increasing. *)
Fixpoint validate_order (ms : list Member) : result doc_error unit :=
  match ms with
  | a :: (b :: _) as tl =>
      ensure (str_ltb (m_ConfigDir a) (m_ConfigDir b)) DUnsorted ;;
      validate_order tl
  | _ => Ok tt
  end.

Definition validateDocument (doc : Document) (persisted : bool) : result doc_error unit :=
  ensure (bool_decide (d_Format doc = MembershipFormat)) DBadFormat ;;
  ensure (negb (persisted && (bool_decide (d_Revision doc = "")
                              || negb (HasPrefix (d_Revision doc) "membership-"))))
         DBadRevision ;;
  match d_Members doc with
  | None => Err DNilMembers
  | Some ms => validate_rows ∅ ms ;; validate_order ms
  end.

(** ** Reading *)

Definition map_err {E F A} (f : E → F) (r : result E A) : result F A :=
  match r with Ok a => Ok a | Err e => Err (f e) end.

Definition readLocked (f : stored) : result reg_error Document :=
  match f with
  | SAbsent => Ok (mkDocument MembershipFormat "" (Some []))
  | SUnreadable => Err ERead
  | SMalformed => Err EMalformed
  | STrailing => Err ETrailing
  | SDoc doc =>
      map_err EInvalid (validateDocument doc true) ;; Ok doc
  end.

Definition doc_members (doc : Document) : list Member := default [] (d_Members doc).

Definition Snapshot (f : stored) (pool : string) : result reg_error PoolSnapshot :=
  map_err EInvalidArgument (validatePoolName pool) ;;
  doc ← readLocked f;
  Ok (mkSnapshot pool (d_Revision doc)
        (filter (λ m, m_JVMPool m = pool) (doc_members doc))).

(** The body of the loop of [ValidatePool] for one selected row. *)
Definition member_failures {E} (resolve : string → result E EffectiveConfig)
    (m : Member) : list member_failure :=
  match resolve (m_ConfigDir m) with
  | Err _ => [FResolve (m_ConfigDir m)]
  | Ok eff =>
      (if negb (bool_decide (e_ConfigDir eff = ""))
          && negb (bool_decide (e_ConfigDir eff = m_ConfigDir m))
       then [FConfigDir (m_ConfigDir m) (e_ConfigDir eff)] else []) ++
      (if negb (bool_decide (e_SourceCWD eff = ""))
          && negb (bool_decide (e_SourceCWD eff = m_SourceCWD m))
       then [FSourceCWD (m_ConfigDir m) (e_SourceCWD eff)] else []) ++
      match e_JVMPool eff with
      | None => [FPoolNull (m_ConfigDir m)]
      | Some p =>
          if is_blank p then [FPoolBlank (m_ConfigDir m)]
          else if bool_decide (p = m_JVMPool m) then []
          else [FPoolMismatch (m_ConfigDir m) p (m_JVMPool m)]
      end
  end.

Definition ValidatePool {E} (f : stored) (pool : string)
    (resolve : option (string → result E EffectiveConfig))
    : result reg_error PoolSnapshot :=
  map_err EInvalidArgument (validatePoolName pool) ;;
  match resolve with
  | None => Err EResolverRequired
  | Some resolve =>
      doc ← readLocked f;
      let rows := filter (λ m, m_JVMPool m = pool) (doc_members doc) in
      match rows ≫= member_failures resolve with
      | [] => Ok (mkSnapshot pool (d_Revision doc) rows)
      | fs => Err (EValidate fs)
      end
  end.

(** ** Writing *)

(** [defer]: the cleanup runs whatever the body returned. *)
Definition deferred {S E A} (cleanup : S → S) (body : ST S E A) : ST S E A :=
  λ s, match body s with (s', r) => (cleanup s', r) end.

(** One system call: it fails when [fault] names it, otherwise it acts. *)
Definition sys (fault : option write_step) (w : write_step) (act : disk → disk)
    : ST disk reg_error unit :=
  λ s, if bool_decide (fault = Some w) then (s, Err (EWrite w)) else (act s, Ok tt).

Definition set_tmp (t : option (option Document)) (s : disk) : disk :=
  mkDisk (d_file s) t.

(** [os.Rename] moves the temporary file over the target. *)
Definition rename_tmp (s : disk) : disk :=
  match d_tmp s with
  | Some (Some doc) => mkDisk (SDoc doc) None
  | Some None => mkDisk SMalformed None
  | None => s
  end.

Definition atomicWrite (fault : option write_step) (doc : Document)
    : ST disk reg_error unit :=
  sys fault WMkdir id ;;
  sys fault WEncode id ;;
  sys fault WCreateTemp (set_tmp (Some None)) ;;
  deferred (set_tmp None)
    (sys fault WChmod id ;;
     sys fault WWrite (set_tmp (Some (Some doc))) ;;
     sys fault WSync id ;;
     sys fault WClose id ;;
     sys fault WRename rename_tmp ;;
     sys fault WOpenDir id ;;
     sys fault WDirSync id).

(** [hex.EncodeToString] of one byte. *)
Definition hex_digit (n : Z) : ascii :=
  Ascii.ascii_of_N (Z.to_N (if n <? 10 then 48 + n else 87 + n))%Z.

Definition hex_bytes (l : list Z) : string :=
  of_bytes (l ≫= λ b, [hex_digit (Z.shiftr b 4); hex_digit (Z.land b 15)]).

(** [raw[i] = f(raw[i])] on the sixteen random bytes. *)
Definition set_uuid_bits (raw : list Z) : list Z :=
  alter (λ b, Z.lor (Z.land b 63) 128) 8
    (alter (λ b, Z.lor (Z.land b 15) 64) 6 raw).

Definition slice {A} (i j : nat) (l : list A) : list A := take (j - i) (drop i l).

(** [rand.Read] fills sixteen bytes or fails. *)
Definition newRevision (rand : option (list Z)) : result reg_error string :=
  match rand with
  | None => Err ERevision
  | Some raw =>
      let raw := set_uuid_bits raw in
      Ok (String.append "membership-"
            (Join [hex_bytes (slice 0 4 raw); hex_bytes (slice 4 6 raw);
                   hex_bytes (slice 6 8 raw); hex_bytes (slice 8 10 raw);
                   hex_bytes (slice 10 16 raw)] "-"))
  end.

(** ** The artifacts of a pool *)

Section artifacts.
(** The 32 bytes of [sha256.Sum256]. *)
Context (sha256 : list ascii → list Z).

Definition ArtifactKey (pool : string) : string :=
  String.substring 0 32 (hex_bytes (sha256 (bytes_of "millstrand-jvm-pool" ++ ["000"%char] ++ bytes_of pool))).

Definition ValidateArtifactKey (pool key : string) : result doc_error unit :=
  validatePoolName pool ;;
  ensure (bool_decide (key = ArtifactKey pool)) (DMember "artifact key").

Definition PoolHostDir (stateRoot pool : string) : result doc_error string :=
  validateCanonicalPath "state root" stateRoot ;;
  validatePoolName pool ;;
  Ok (PathJoin [stateRoot; "jvm-pools"; "hosts"; ArtifactKey pool]).
End artifacts.

Definition member_ltb (a b : Member) : bool := str_ltb (m_ConfigDir a) (m_ConfigDir b).

Definition sortMembers (ms : list Member) : list Member := sort_stable member_ltb ms.

Definition mutationFrom (doc : Document) (changed : bool) : Mutation :=
  mkMutation changed (d_Revision doc) (doc_members doc).

(** What the operating system answers during one mutation. *)
Record io_env := mkEnv { io_rand : option (list Z); io_fault : option write_step }.

Definition replaceLocked (env : io_env) (doc : Document)
    : ST disk reg_error Mutation :=
  revision ← st_lift (newRevision (io_rand env));
  let doc := mkDocument MembershipFormat revision
               (Some (sortMembers (doc_members doc))) in
  atomicWrite (io_fault env) doc ;;
  mret (mutationFrom doc true).

Definition with_members (doc : Document) (ms : list Member) : Document :=
  mkDocument (d_Format doc) (d_Revision doc) (Some ms).

Definition Reconcile (env : io_env) (member : Member) (live : gmap string LiveOwner)
    : ST disk reg_error Mutation :=
  st_lift (map_err EInvalidArgument (validateMember member)) ;;
  s ← st_get;
  doc ← st_lift (readLocked (d_file s));
  let dir := m_ConfigDir member in
  match list_find (λ c, m_ConfigDir c = dir) (doc_members doc) with
  | Some (i, current) =>
      let proceed :=
        if bool_decide (current = member) then mret (mutationFrom doc false)
        else replaceLocked env
               (with_members doc (<[i := member]> (doc_members doc))) in
      match live !! dir with
      | Some owner =>
          if negb (bool_decide (lo_Pool owner = m_JVMPool member))
             || negb (bool_decide (m_JVMPool current = lo_Pool owner))
          then st_fail (EStopRequired dir owner)
          else proceed
      | None => proceed
      end
  | None =>
      let proceed :=
        replaceLocked env
          (with_members doc (sortMembers (doc_members doc ++ [member]))) in
      match live !! dir with
      | Some owner =>
          if negb (bool_decide (lo_Pool owner = m_JVMPool member))
          then st_fail (EStopRequired dir owner)
          else proceed
      | None => proceed
      end
  end.

Definition Remove (env : io_env) (configDir : string) (live : gmap string LiveOwner)
    : ST disk reg_error Mutation :=
  st_lift (map_err EInvalidArgument (validateCanonicalConfigDir configDir)) ;;
  s ← st_get;
  doc ← st_lift (readLocked (d_file s));
  match live !! configDir with
  | Some owner => st_fail (EStopRequired configDir owner)
  | None =>
      match list_find (λ m, m_ConfigDir m = configDir) (doc_members doc) with
      | Some (i, _) =>
          replaceLocked env
            (with_members doc (take i (doc_members doc) ++ drop (S i) (doc_members doc)))
      | None => mret (mutationFrom doc false)
      end
  end.

(** ** Lemmas: what a valid document is *)

Definition member_lt (a b : Member) : Prop := str_lt (m_ConfigDir a) (m_ConfigDir b).
Definition valid_member (m : Member) : Prop := validateMember m = Ok tt.
Definition revision_ok (r : string) : Prop :=
  r ≠ "" ∧ HasPrefix r "membership-" = true.
Definition valid_rows (ms : list Member) : Prop :=
  Forall valid_member ms ∧ StronglySorted member_lt ms.

#[global] Instance member_lt_trans : Transitive member_lt.
Proof. intros a b c. apply str_lt_trans. Qed.

Lemma sorted_strongly ms : Sorted member_lt ms → StronglySorted member_lt ms.
Proof. apply Sorted_StronglySorted. intros a b c. apply str_lt_trans. Qed.

Lemma validate_rows_ok seen ms u :
  validate_rows seen ms = Ok u ↔
  Forall valid_member ms ∧ NoDup (m_ConfigDir <$> ms)
  ∧ ∀ d, d ∈ m_ConfigDir <$> ms → d ∉ seen.
Proof.
  destruct u. revert seen. induction ms as [|m ms IH]; intros seen; simpl.
  { split; [|done]. intros _. split_and!; [done|constructor|]. set_solver. }
  rewrite Forall_cons, NoDup_cons. split.
  - intros H. inv_ok. bools.
    match goal with H : validate_rows _ _ = _ |- _ => apply IH in H end.
    destruct_and!. split_and!; try done; set_solver.
  - intros ((Hm & Hms) & (Hn & Hd) & Hs). unfold valid_member in Hm.
    rewrite Hm. simpl. rewrite bool_decide_false by set_solver. simpl.
    apply IH. split_and!; [done|done|]. set_solver.
Qed.

Lemma validate_order_ok ms u :
  validate_order ms = Ok u ↔ Sorted member_lt ms.
Proof.
  destruct u. induction ms as [|a [|b ms] IH].
  - split; [constructor|done].
  - split; [repeat constructor|done].
  - simpl. rewrite result_bind_ok. split.
    + intros ([] & Ha & Hb). apply ensure_ok in Ha.
      constructor; [by apply IH|by constructor].
    + intros H. inversion H as [|? ? Hs Hh]; subst.
      inversion Hh; subst. exists tt. split; [by apply ensure_ok|by apply IH].
Qed.

Lemma sorted_dirs_NoDup ms :
  StronglySorted member_lt ms → NoDup (m_ConfigDir <$> ms).
Proof.
  induction 1 as [|m ms _ IH Hm]; simpl; constructor; [|done].
  intros (m' & Heq & Hin)%list_elem_of_fmap.
  rewrite Forall_forall in Hm. apply Hm in Hin. by apply str_lt_neq in Hin.
Qed.

Lemma validateDocument_spec doc u :
  validateDocument doc true = Ok u ↔
  d_Format doc = MembershipFormat ∧ revision_ok (d_Revision doc)
  ∧ ∃ ms, d_Members doc = Some ms ∧ valid_rows ms.
Proof.
  destruct u. unfold validateDocument, revision_ok, valid_rows. split.
  - intros H. inv_ok. bools. simpl in *. bools.
    destruct (d_Members doc) as [ms|]; [|done]. inv_ok.
    match goal with H : validate_rows _ _ = _ |- _ => apply validate_rows_ok in H end.
    match goal with H : validate_order _ = _ |- _ => apply validate_order_ok in H end.
    destruct_and!. split_and!; try done. exists ms. split_and!; try done.
    by apply sorted_strongly.
  - intros (Hf & (Hr & Hp) & ms & -> & Hv & Hs).
    rewrite (bool_decide_eq_true_2 _ Hf). simpl.
    rewrite (bool_decide_eq_false_2 _ Hr), Hp. simpl.
    rewrite (proj2 (validate_rows_ok ∅ ms tt)); [simpl|].
    + apply validate_order_ok. by apply StronglySorted_Sorted.
    + split_and!; [done|by apply sorted_dirs_NoDup|set_solver].
Qed.

Lemma sortMembers_valid ms :
  Forall valid_member ms → NoDup (m_ConfigDir <$> ms) → valid_rows (sortMembers ms).
Proof.
  intros Hv Hd. split.
  - rewrite Forall_forall in *. intros m Hm.
    apply Hv. by apply elem_of_sort_stable in Hm.
  - apply sorted_strongly.
    assert (Hd' : NoDup (m_ConfigDir <$> sortMembers ms)).
    { unfold sortMembers. by rewrite sort_stable_perm. }
    pose proof (sort_stable_sorted member_ltb (λ x y, str_ltb_asym _ _) ms) as Hs.
    change (Sorted (sort_le member_ltb) (sortMembers ms)) in Hs.
    induction Hs as [|m l Hs IH Hh]; constructor.
    + apply IH. by apply NoDup_cons in Hd' as [_ ?].
    + destruct Hh as [|m' l Hle]; constructor.
      unfold sort_le, member_ltb in Hle. unfold member_lt, str_lt.
      destruct (str_ltb (m_ConfigDir m) (m_ConfigDir m')) eqn:E; [done|].
      exfalso. apply NoDup_cons in Hd' as [Hn _]. apply Hn.
      rewrite (str_ltb_total _ _ E Hle). by left.
Qed.

Lemma prefix_append p s : HasPrefix (String.append p s) p = true.
Proof.
  unfold HasPrefix. induction p as [|c p IH]; [by destruct s|].
  change (String.append (String c p) s) with (String c (String.append p s)).
  simpl. destruct (ascii_dec c c); [done|congruence].
Qed.

Lemma newRevision_ok rand r :
  newRevision rand = Ok r → revision_ok r.
Proof.
  destruct rand as [raw|]; [|done]. simpl. intros [= <-]. split.
  - intros H. discriminate H.
  - apply prefix_append.
Qed.

(** ** Lemmas: one mutation *)

(** A write that fails before the rename leaves the old file. *)
Definition before_rename (w : write_step) : bool :=
  match w with WOpenDir | WDirSync => false | _ => true end.

Lemma atomicWrite_run fault doc s :
  d_tmp s = None →
  atomicWrite fault doc s =
    match fault with
    | None => (mkDisk (SDoc doc) None, Ok tt)
    | Some w => (mkDisk (if before_rename w then d_file s else SDoc doc) None,
                 Err (EWrite w))
    end.
Proof. destruct s as [f t]; simpl; intros ->. by destruct fault as [[]|]. Qed.

Lemma replaceLocked_run env doc s :
  d_tmp s = None →
  replaceLocked env doc s =
    match newRevision (io_rand env) with
    | Err e => (s, Err e)
    | Ok r =>
        let doc' := mkDocument MembershipFormat r (Some (sortMembers (doc_members doc))) in
        match io_fault env with
        | None => (mkDisk (SDoc doc') None, Ok (mutationFrom doc' true))
        | Some w => (mkDisk (if before_rename w then d_file s else SDoc doc') None,
                     Err (EWrite w))
        end
    end.
Proof.
  intros Ht. unfold replaceLocked, mbind, st_bind, st_lift.
  destruct (newRevision (io_rand env)) as [r|e]; [|done].
  rewrite atomicWrite_run by done. by destruct (io_fault env).
Qed.

(** The file decodes to a valid document, or is not there yet. *)
Definition readable (s : disk) : Prop :=
  d_tmp s = None ∧ ∃ doc, readLocked (d_file s) = Ok doc.

(** The rows of the registry by configuration directory. *)
Definition rows_of (f : stored) : list Member :=
  match readLocked f with Ok doc => doc_members doc | Err _ => [] end.

Definition by_dir (ms : list Member) : gmap string Member :=
  list_to_map ((λ m, (m_ConfigDir m, m)) <$> ms).

Definition registry_map (f : stored) : gmap string Member := by_dir (rows_of f).

Lemma readLocked_valid f doc :
  readLocked f = Ok doc → valid_rows (doc_members doc).
Proof.
  destruct f as [| | | |d]; simpl; intros H; inv_ok; try done.
  - split; constructor.
  - destruct (validateDocument doc true) as [[]|] eqn:E; [|done].
    apply validateDocument_spec in E as (_ & _ & ms & Hm & Hv).
    unfold doc_members. by rewrite Hm.
Qed.

Lemma readLocked_written r ms :
  revision_ok r → valid_rows ms →
  readLocked (SDoc (mkDocument MembershipFormat r (Some ms)))
  = Ok (mkDocument MembershipFormat r (Some ms)).
Proof.
  intros Hr Hv. simpl.
  rewrite (proj2 (validateDocument_spec _ tt)); [done|]. simpl. naive_solver.
Qed.

(** What [replaceLocked] leaves, for rows that are valid and distinct. *)
Lemma replaceLocked_spec env doc s s' res :
  readable s →
  Forall valid_member (doc_members doc) →
  NoDup (m_ConfigDir <$> doc_members doc) →
  replaceLocked env doc s = (s', res) →
  readable s' ∧
  (rows_of (d_file s') = rows_of (d_file s)
   ∨ rows_of (d_file s') = sortMembers (doc_members doc)) ∧
  ∀ mu, res = Ok mu →
    rows_of (d_file s') = sortMembers (doc_members doc)
    ∧ mu_Members mu = sortMembers (doc_members doc) ∧ mu_Changed mu = true.
Proof.
  intros [Ht [old Hold]] Hv Hd. rewrite replaceLocked_run by done.
  destruct (newRevision (io_rand env)) as [r|e] eqn:Hr.
  2:{ intros [= <- <-]. split_and!; [by split; eauto|by left|done]. }
  apply newRevision_ok in Hr.
  pose proof (readLocked_written r _ Hr (sortMembers_valid _ Hv Hd)) as Hw.
  assert (Hrows : rows_of (SDoc (mkDocument MembershipFormat r
            (Some (sortMembers (doc_members doc))))) = sortMembers (doc_members doc)).
  { unfold rows_of. by rewrite Hw. }
  destruct (io_fault env) as [w|]; intros [= <- <-]; simpl.
  - destruct (before_rename w); split_and!; try done; auto; split; eauto.
  - split_and!; [by split; eauto|by right|]. intros mu [= <-]. done.
Qed.

Lemma by_dir_sorted ms :
  NoDup (m_ConfigDir <$> ms) → by_dir (sortMembers ms) = by_dir ms.
Proof.
  intros Hd. unfold by_dir, sortMembers.
  apply list_to_map_proper; [|by rewrite sort_stable_perm].
  rewrite <-list_fmap_compose. by rewrite sort_stable_perm.
Qed.

Lemma by_dir_lookup ms dir m :
  NoDup (m_ConfigDir <$> ms) →
  by_dir ms !! dir = Some m ↔ m ∈ ms ∧ m_ConfigDir m = dir.
Proof.
  intros Hd. unfold by_dir. rewrite <-elem_of_list_to_map.
  - rewrite list_elem_of_fmap. naive_solver.
  - by rewrite <-list_fmap_compose.
Qed.

(** ** Lemmas: the row lists a mutation builds *)

Lemma NoDup_dirs_insert ms i c m :
  NoDup (m_ConfigDir <$> ms) → ms !! i = Some c → m_ConfigDir c = m_ConfigDir m →
  m_ConfigDir <$> <[i:=m]> ms = m_ConfigDir <$> ms.
Proof.
  intros Hd Hi Hc. rewrite list_fmap_insert. apply list_insert_id.
  by rewrite list_lookup_fmap, Hi, <-Hc.
Qed.

Lemma by_dir_insert ms i c m :
  NoDup (m_ConfigDir <$> ms) → ms !! i = Some c → m_ConfigDir c = m_ConfigDir m →
  by_dir (<[i:=m]> ms) = <[m_ConfigDir m := m]> (by_dir ms).
Proof.
  intros Hd Hi Hc.
  assert (Hd' : NoDup (m_ConfigDir <$> <[i:=m]> ms))
    by by rewrite (NoDup_dirs_insert _ _ _ _ Hd Hi Hc).
  apply map_eq. intros dir. apply option_eq. intros x.
  rewrite by_dir_lookup, lookup_insert_Some, by_dir_lookup by done.
  assert (Hlt : i < length ms) by by eapply lookup_lt_Some.
  split.
  - intros [[j Hj]%list_elem_of_lookup <-].
    destruct (decide (i = j)) as [<-|Hne].
    + rewrite list_lookup_insert_eq in Hj by done. naive_solver.
    + right. rewrite list_lookup_insert_ne in Hj by done. split.
      * intros Heq. apply Hne. eapply (NoDup_lookup (m_ConfigDir <$> ms)); [done| |];
          rewrite list_lookup_fmap; [by rewrite Hi|by rewrite Hj; simpl; congruence].
      * split; [by eapply list_elem_of_lookup_2|done].
  - intros [[<- <-]|(Hne & [j Hj]%list_elem_of_lookup & <-)].
    + split; [|done]. apply (list_elem_of_lookup_2 _ i). by apply list_lookup_insert_eq.
    + split; [|done]. apply (list_elem_of_lookup_2 _ j).
      rewrite list_lookup_insert_ne; [done|]. intros ->. congruence.
Qed.

Lemma by_dir_snoc ms m :
  NoDup (m_ConfigDir <$> ms) → m_ConfigDir m ∉ m_ConfigDir <$> ms →
  NoDup (m_ConfigDir <$> ms ++ [m]) ∧
  by_dir (ms ++ [m]) = <[m_ConfigDir m := m]> (by_dir ms).
Proof.
  intros Hd Hn.
  assert (Hd' : NoDup (m_ConfigDir <$> ms ++ [m])).
  { rewrite fmap_app, NoDup_app. split_and!; [done| |by apply NoDup_singleton].
    intros d Hin. simpl. set_solver. }
  split; [done|]. apply map_eq. intros dir. apply option_eq. intros x.
  rewrite by_dir_lookup, lookup_insert_Some, by_dir_lookup by done.
  rewrite elem_of_app, list_elem_of_singleton. split.
  - intros [[Hx| ->] <-]; [|by left]. right. split; [|done]. intros Heq. apply Hn.
    rewrite Heq. by apply list_elem_of_fmap_2.
  - naive_solver.
Qed.

Lemma by_dir_delete ms i m :
  NoDup (m_ConfigDir <$> ms) → ms !! i = Some m →
  NoDup (m_ConfigDir <$> take i ms ++ drop (S i) ms) ∧
  by_dir (take i ms ++ drop (S i) ms) = delete (m_ConfigDir m) (by_dir ms).
Proof.
  intros Hd Hi. pose proof (take_drop_middle _ _ _ Hi) as Hms.
  assert (Hp : ms ≡ₚ m :: take i ms ++ drop (S i) ms).
  { rewrite <-Hms at 1. by rewrite Permutation_middle. }
  assert (Hd2 : NoDup (m_ConfigDir <$> m :: take i ms ++ drop (S i) ms)) by by rewrite <-Hp.
  simpl in Hd2. apply NoDup_cons in Hd2 as [Hn Hd'].
  split; [done|]. apply map_eq. intros dir. apply option_eq. intros x.
  rewrite by_dir_lookup, lookup_delete_Some, by_dir_lookup by done.
  assert (Hx : x ∈ ms ↔ x = m ∨ x ∈ take i ms ++ drop (S i) ms).
  { rewrite Hp at 1. apply elem_of_cons. }
  rewrite Hx. split; [|naive_solver].
  intros [Hin <-]. split_and!; [|by right|done]. intros Heq. apply Hn.
  rewrite Heq. by apply list_elem_of_fmap_2.
Qed.

(** ** The two mutations *)

(** Neither the live hosts nor the recorded row contradict [m]: a workspace
    with a live owner stays in the owner's pool. *)
Definition placement_free (live : gmap string LiveOwner) (old : option Member)
    (m : Member) : Prop :=
  ∀ owner, live !! m_ConfigDir m = Some owner →
    lo_Pool owner = m_JVMPool m ∧
    ∀ c, old = Some c → m_JVMPool c = lo_Pool owner.

Lemma rows_of_lookup f i c :
  readable (mkDisk f None) → rows_of f !! i = Some c →
  registry_map f !! m_ConfigDir c = Some c.
Proof.
  intros [_ [doc Hdoc]] Hi. unfold registry_map, rows_of in *. simpl in Hdoc.
  rewrite Hdoc in *. apply by_dir_lookup.
  - apply sorted_dirs_NoDup. by apply (readLocked_valid f).
  - split; [by eapply list_elem_of_lookup_2|done].
Qed.

Lemma readable_rows s :
  readable s → ∃ doc, readLocked (d_file s) = Ok doc
    ∧ rows_of (d_file s) = doc_members doc
    ∧ Forall valid_member (doc_members doc)
    ∧ NoDup (m_ConfigDir <$> doc_members doc).
Proof.
  intros [_ [doc Hdoc]]. exists doc. unfold rows_of. rewrite Hdoc.
  destruct (readLocked_valid _ _ Hdoc) as [? ?].
  split_and!; try done. by apply sorted_dirs_NoDup.
Qed.

(** Rows a mutation may write in place of [ms] so that the map becomes [want]. *)
Definition rows_for (want : gmap string Member) (ms : list Member) : Prop :=
  Forall valid_member ms ∧ NoDup (m_ConfigDir <$> ms) ∧ by_dir ms = want.

Lemma rows_for_update ms i c m :
  Forall valid_member ms → NoDup (m_ConfigDir <$> ms) → valid_member m →
  ms !! i = Some c → m_ConfigDir c = m_ConfigDir m →
  rows_for (<[m_ConfigDir m := m]> (by_dir ms)) (<[i:=m]> ms).
Proof.
  intros Hv Hd Hm Hi Hc. split_and!.
  - by apply Forall_insert.
  - by rewrite (NoDup_dirs_insert _ _ _ _ Hd Hi Hc).
  - by eapply by_dir_insert.
Qed.

Lemma rows_for_add ms m :
  Forall valid_member ms → NoDup (m_ConfigDir <$> ms) → valid_member m →
  m_ConfigDir m ∉ m_ConfigDir <$> ms →
  rows_for (<[m_ConfigDir m := m]> (by_dir ms)) (sortMembers (ms ++ [m])).
Proof.
  intros Hv Hd Hm Hn. destruct (by_dir_snoc _ _ Hd Hn) as [Hd' Hbd].
  split_and!.
  - unfold sortMembers. rewrite sort_stable_perm.
    apply Forall_app; split; [done|by constructor].
  - unfold sortMembers. by rewrite sort_stable_perm.
  - by rewrite by_dir_sorted.
Qed.

(** The three ways [Reconcile] ends once the arguments and the file are fine:
    a live owner forbids it, the row is already there, or it is written. *)
Definition reconcile_outcome env (m : Member) (live : gmap string LiveOwner)
    (s : disk) (doc : Document) : Prop :=
  let old := by_dir (doc_members doc) in
  (∃ owner, live !! m_ConfigDir m = Some owner
     ∧ ¬ placement_free live (old !! m_ConfigDir m) m
     ∧ Reconcile env m live s = (s, Err (EStopRequired (m_ConfigDir m) owner)))
  ∨ placement_free live (old !! m_ConfigDir m) m
    ∧ (old !! m_ConfigDir m = Some m
        ∧ Reconcile env m live s = (s, Ok (mutationFrom doc false))
      ∨ ∃ ms, Reconcile env m live s = replaceLocked env (with_members doc ms) s
        ∧ rows_for (<[m_ConfigDir m := m]> old) ms).

Lemma Reconcile_known env m live s doc i c :
  valid_member m → readLocked (d_file s) = Ok doc →
  Forall valid_member (doc_members doc) → NoDup (m_ConfigDir <$> doc_members doc) →
  list_find (λ c, m_ConfigDir c = m_ConfigDir m) (doc_members doc) = Some (i, c) →
  reconcile_outcome env m live s doc.
Proof.
  intros Hm Hdoc Hv Hd Hf. unfold reconcile_outcome, placement_free.
  unfold Reconcile, mbind, st_bind, st_lift, st_get. rewrite Hm, Hdoc. simpl. rewrite Hf.
  apply list_find_Some in Hf as (Hi & Hc & _).
  set (ms := doc_members doc) in *.
  assert (Hmap : by_dir ms !! m_ConfigDir m = Some c).
  { apply by_dir_lookup; [done|]. split; [by eapply list_elem_of_lookup_2|done]. }
  pose proof (rows_for_update _ _ _ _ Hv Hd Hm Hi Hc) as Hrows. rewrite Hmap.
  destruct (live !! m_ConfigDir m) as [owner|].
  - destruct (decide (lo_Pool owner = m_JVMPool m ∧ m_JVMPool c = lo_Pool owner))
      as [[Hp Hq]|Hn].
    + rewrite !(bool_decide_true (lo_Pool _ = _)), !(bool_decide_true (m_JVMPool _ = _))
        by done.
      right. split; [naive_solver|]. simpl. case_bool_decide; [left|right]; naive_solver.
    + left. exists owner. split_and!; [done|naive_solver|].
      by repeat case_bool_decide; simpl; try done; naive_solver.
  - right. split; [done|]. case_bool_decide; [left|right]; naive_solver.
Qed.

Lemma Reconcile_new env m live s doc :
  valid_member m → readLocked (d_file s) = Ok doc →
  Forall valid_member (doc_members doc) → NoDup (m_ConfigDir <$> doc_members doc) →
  list_find (λ c, m_ConfigDir c = m_ConfigDir m) (doc_members doc) = None →
  reconcile_outcome env m live s doc.
Proof.
  intros Hm Hdoc Hv Hd Hf. unfold reconcile_outcome, placement_free.
  unfold Reconcile, mbind, st_bind, st_lift, st_get. rewrite Hm, Hdoc. simpl. rewrite Hf.
  apply list_find_None in Hf. set (ms := doc_members doc) in *.
  assert (Hn : m_ConfigDir m ∉ m_ConfigDir <$> ms).
  { intros (c & Hc & Hin)%list_elem_of_fmap. rewrite Forall_forall in Hf.
    by apply (Hf c). }
  assert (Hmap : by_dir ms !! m_ConfigDir m = None).
  { apply eq_None_not_Some. intros [c [Hc Heq]%by_dir_lookup]; [|done].
    apply Hn. rewrite <-Heq. by apply list_elem_of_fmap_2. }
  pose proof (rows_for_add _ _ Hv Hd Hm Hn) as Hrows. rewrite Hmap.
  destruct (live !! m_ConfigDir m) as [owner|].
  - case_bool_decide as Hp; simpl; [right|left; naive_solver].
    split; [naive_solver|]. right. by eexists.
  - right. split; [done|]. right. by eexists.
Qed.

Lemma Reconcile_cases env m live s :
  readable s → valid_member m →
  ∃ doc, readLocked (d_file s) = Ok doc ∧ reconcile_outcome env m live s doc.
Proof.
  intros Hs Hm. destruct (readable_rows _ Hs) as (doc & Hdoc & _ & Hv & Hd).
  exists doc. split; [done|].
  destruct (list_find (λ c, m_ConfigDir c = m_ConfigDir m) (doc_members doc))
    as [[i c]|] eqn:Hf; [by eapply Reconcile_known|by apply Reconcile_new].
Qed.

Lemma Remove_cases env dir live s :
  readable s → validateCanonicalConfigDir dir = Ok tt →
  ∃ doc, readLocked (d_file s) = Ok doc ∧
  let old := by_dir (doc_members doc) in
  ((∃ owner, live !! dir = Some owner
      ∧ Remove env dir live s = (s, Err (EStopRequired dir owner)))
   ∨ live !! dir = None
     ∧ (old !! dir = None ∧ Remove env dir live s = (s, Ok (mutationFrom doc false))
       ∨ ∃ ms, Remove env dir live s = replaceLocked env (with_members doc ms) s
         ∧ rows_for (delete dir old) ms)).
Proof.
  intros Hs Hdir. destruct (readable_rows _ Hs) as (doc & Hdoc & _ & Hv & Hd).
  exists doc. split; [done|].
  unfold Remove, mbind, st_bind, st_lift, st_get. rewrite Hdir, Hdoc. simpl.
  destruct (live !! dir) as [owner|]; [left; by eexists|right; split; [done|]].
  set (ms := doc_members doc) in *.
  destruct (list_find _ ms) as [[i c]|] eqn:Hf.
  - apply list_find_Some in Hf as (Hi & <- & _). right. eexists. split; [done|].
    destruct (by_dir_delete _ _ _ Hd Hi) as [Hd' Hbd]. split_and!; [|done|done].
    apply Forall_app; split; [by apply Forall_take|by apply Forall_drop].
  - left. split; [|done]. apply list_find_None in Hf.
    apply eq_None_not_Some. intros [c [Hc Heq]%by_dir_lookup]; [|done].
    rewrite Forall_forall in Hf. by apply (Hf c).
Qed.

(** ** Properties *)

Definition empty_disk : disk := mkDisk SAbsent None.

(** One call of a mutating method, with any arguments, any live hosts and any
    answers of the operating system. *)
Inductive reg_step : disk → disk → Prop :=
| step_reconcile env m live s : reg_step s (Reconcile env m live s).1
| step_remove env dir live s : reg_step s (Remove env dir live s).1.

Lemma Reconcile_invalid env m live s :
  validateMember m ≠ Ok tt → (Reconcile env m live s).1 = s.
Proof.
  intros Hm. unfold Reconcile, mbind, st_bind, st_lift.
  by destruct (validateMember m) as [[]|].
Qed.

Lemma Remove_invalid env dir live s :
  validateCanonicalConfigDir dir ≠ Ok tt → (Remove env dir live s).1 = s.
Proof.
  intros Hm. unfold Remove, mbind, st_bind, st_lift.
  by destruct (validateCanonicalConfigDir dir) as [[]|].
Qed.

Lemma reg_step_readable s s' : readable s → reg_step s s' → readable s'.
Proof.
  intros Hs Hstep. revert Hs. destruct Hstep as [env m live s0|env dir live s0]; intros Hs.
  - destruct (validateMember m) as [[]|e] eqn:Hm.
    2:{ rewrite Reconcile_invalid; [done|congruence]. }
    destruct (Reconcile_cases env m live _ Hs Hm)
      as (doc & _ & [(? & _ & _ & ->)|(_ & [[_ ->]|(ms & -> & Hv & Hd & _)])]);
      [done|done|].
    destruct (replaceLocked env (with_members doc ms) s0) as [s' r] eqn:E.
    by apply replaceLocked_spec in E as (? & _).
  - destruct (validateCanonicalConfigDir dir) as [[]|e] eqn:Hm.
    2:{ rewrite Remove_invalid; [done|congruence]. }
    destruct (Remove_cases env dir live _ Hs Hm)
      as (doc & _ & [(? & ? & ->)|(? & [[_ ->]|(ms & -> & Hv & Hd & _)])]);
      [done|done|].
    destruct (replaceLocked env (with_members doc ms) s0) as [s' r] eqn:E.
    by apply replaceLocked_spec in E as (? & _).
Qed.

Lemma Reconcile_ok_inv env m live s s' mu :
  readable s → Reconcile env m live s = (s', Ok mu) →
  valid_member m.
Proof.
  intros _. unfold Reconcile, mbind, st_bind, st_lift, valid_member.
  by destruct (validateMember m) as [[]|].
Qed.

Lemma registry_map_read f doc :
  readLocked f = Ok doc → registry_map f = by_dir (doc_members doc).
Proof. unfold registry_map, rows_of. by intros ->. Qed.

Lemma registry_map_rows f ms want :
  rows_for want ms → rows_of f = sortMembers ms → registry_map f = want.
Proof.
  intros (_ & Hd & <-) Hf. unfold registry_map. rewrite Hf. by apply by_dir_sorted.
Qed.


Lemma Reconcile_ok env m live s s' mu :
  readable s → Reconcile env m live s = (s', Ok mu) →
  registry_map (d_file s') = <[m_ConfigDir m := m]> (registry_map (d_file s))
  ∧ mu_Members mu = rows_of (d_file s')
  ∧ (mu_Changed mu = false → s' = s)
  ∧ placement_free live (registry_map (d_file s) !! m_ConfigDir m) m.
Proof.
  intros Hs Hrun. pose proof (Reconcile_ok_inv _ _ _ _ _ _ Hs Hrun) as Hm.
  destruct (Reconcile_cases env m live _ Hs Hm) as (doc & Hdoc & Hout).
  rewrite (registry_map_read (d_file s) _ Hdoc).
  destruct Hout as [(? & _ & _ & H)|(Hfree & [[Hold H]|(ms & H & Hrows)])];
    rewrite H in Hrun; [done| |].
  - injection Hrun as <- <-. rewrite (registry_map_read _ _ Hdoc).
    unfold rows_of. rewrite Hdoc, insert_id by done. done.
  - pose proof Hrows as (Hv & Hd & _).
    apply replaceLocked_spec in Hrun as (_ & _ & Hok); [|done..].
    destruct (Hok mu eq_refl) as (Hf & Hmu & Hc).
    rewrite (registry_map_rows _ _ _ Hrows Hf), Hmu, Hf, Hc. done.
Qed.

Lemma Remove_ok env dir live s s' mu :
  readable s → Remove env dir live s = (s', Ok mu) →
  registry_map (d_file s') = delete dir (registry_map (d_file s))
  ∧ mu_Members mu = rows_of (d_file s')
  ∧ live !! dir = None.
Proof.
  intros Hs Hrun.
  destruct (validateCanonicalConfigDir dir) as [[]|e] eqn:Hm.
  2:{ unfold Remove, mbind, st_bind, st_lift in Hrun. by rewrite Hm in Hrun. }
  destruct (Remove_cases env dir live _ Hs Hm) as (doc & Hdoc & Hout).
  rewrite (registry_map_read (d_file s) _ Hdoc).
  destruct Hout as [(? & _ & H)|(Hlive & [[Hold H]|(ms & H & Hrows)])];
    rewrite H in Hrun; [done| |].
  - injection Hrun as <- <-. rewrite (registry_map_read _ _ Hdoc).
    unfold rows_of. by rewrite Hdoc, delete_id.
  - pose proof Hrows as (Hv & Hd & _).
    apply replaceLocked_spec in Hrun as (_ & _ & Hok); [|done..].
    destruct (Hok mu eq_refl) as (Hf & Hmu & _).
    by rewrite (registry_map_rows _ _ _ Hrows Hf), Hmu, Hf.
Qed.

(** C2: a successful [Reconcile] is the map update [dir := row]: the row of the
    workspace is the requested one, every other row is what it was, the
    returned rows are the stored ones; and it only succeeds when no live host
    of another pool owns the workspace. *)
Theorem Reconcile_refines env m live s s' mu :
  readable s → Reconcile env m live s = (s', Ok mu) →
  registry_map (d_file s') = <[m_ConfigDir m := m]> (registry_map (d_file s))
  ∧ mu_Members mu = rows_of (d_file s')
  ∧ (mu_Changed mu = false → s' = s)
  ∧ placement_free live (registry_map (d_file s) !! m_ConfigDir m) m.
Proof. apply Reconcile_ok. Qed.

(** a successful [Remove] is the map deletion, and it only succeeds when no
    live host owns the workspace. *)
Theorem Remove_refines env dir live s s' mu :
  readable s → Remove env dir live s = (s', Ok mu) →
  registry_map (d_file s') = delete dir (registry_map (d_file s))
  ∧ mu_Members mu = rows_of (d_file s')
  ∧ live !! dir = None.
Proof. apply Remove_ok. Qed.

(** a [Reconcile] that returns an error has either changed nothing at all,
    or replaced the file and then failed to make the replacement durable
    (opening or syncing the directory): there is no third state. *)
Theorem Reconcile_error env m live s s' e :
  readable s → Reconcile env m live s = (s', Err e) →
  s' = s
  ∨ (e = EWrite WOpenDir ∨ e = EWrite WDirSync)
    ∧ registry_map (d_file s') = <[m_ConfigDir m := m]> (registry_map (d_file s)).
Proof.
  intros Hs Hrun. destruct (validateMember m) as [[]|e'] eqn:Hm.
  2:{ left. pose proof (Reconcile_invalid env m live s) as H.
      rewrite Hrun in H. apply H. congruence. }
  destruct (Reconcile_cases env m live _ Hs Hm) as (doc & Hdoc & Hout).
  rewrite (registry_map_read (d_file s) _ Hdoc).
  destruct Hout as [(? & _ & _ & H)|(_ & [[_ H]|(ms & H & Hrows)])];
    rewrite H in Hrun; [by left; congruence|done|].
  rewrite replaceLocked_run in Hrun by apply Hs.
  destruct (newRevision (io_rand env)) as [r|] eqn:Hr; [|left; congruence].
  destruct (io_fault env) as [w|]; [|done]. injection Hrun as <- <-.
  destruct s as [f t]; destruct Hs as [Ht _]; simpl in Ht; subst t.
  destruct (before_rename w) eqn:Hw; [by left|right]. simpl.
  split; [destruct w; try done; auto|].
  apply (registry_map_rows _ _ _ Hrows). unfold rows_of.
  rewrite readLocked_written; [done|by eapply newRevision_ok|].
  by apply sortMembers_valid; apply Hrows.
Qed.

(** A reloaded configuration that agrees with its registered row. *)
Definition agrees (m : Member) (eff : EffectiveConfig) : Prop :=
  (e_ConfigDir eff = "" ∨ e_ConfigDir eff = m_ConfigDir m)
  ∧ (e_SourceCWD eff = "" ∨ e_SourceCWD eff = m_SourceCWD m)
  ∧ e_JVMPool eff = Some (m_JVMPool m).

Lemma member_failures_nil {E} (resolve : string → result E EffectiveConfig) m :
  is_blank (m_JVMPool m) = false →
  member_failures resolve m = [] ↔
  ∃ eff, resolve (m_ConfigDir m) = Ok eff ∧ agrees m eff.
Proof.
  intros Hb. unfold member_failures, agrees.
  destruct (resolve (m_ConfigDir m)) as [eff|]; [|naive_solver].
  rewrite !app_nil. destruct (e_JVMPool eff) as [p|] eqn:HP.
  - destruct (is_blank p) eqn:Hp.
    + split; [by intros (_ & _ & ?)|].
      intros (? & [= <-] & _ & _ & ?). congruence.
    + split.
      * intros (H1 & H2 & H3). exists eff. split; [done|].
        repeat case_bool_decide; simplify_eq/=; auto.
      * intros (? & [= <-] & H1 & H2 & H3). rewrite HP in H3. injection H3 as ->.
        repeat case_bool_decide; simplify_eq/=; naive_solver.
  - split; [by intros (_ & _ & ?)|]. intros (? & [= <-] & _ & _ & ?). congruence.
Qed.

(** [ValidatePool] returns a snapshot exactly when the pool is named, the
    file is readable and every registered member of the pool reloads to a
    configuration that agrees with its row; the snapshot then is all of those
    rows. There is no partial snapshot. *)
Theorem ValidatePool_exact {E} f pool (resolve : string → result E EffectiveConfig) snap :
  ValidatePool f pool (Some resolve) = Ok snap ↔
  is_blank pool = false ∧
  ∃ doc, readLocked f = Ok doc ∧
    snap = mkSnapshot pool (d_Revision doc)
             (filter (λ m, m_JVMPool m = pool) (doc_members doc)) ∧
    ∀ m, m ∈ doc_members doc → m_JVMPool m = pool →
      ∃ eff, resolve (m_ConfigDir m) = Ok eff ∧ agrees m eff.
Proof.
  unfold ValidatePool, validatePoolName.
  destruct (is_blank pool) eqn:Hb; simpl; [naive_solver|].
  destruct (readLocked f) as [doc|]; simpl; [|naive_solver].
  set (rows := filter _ _).
  assert (Hall : rows ≫= member_failures resolve = [] ↔
    ∀ m, m ∈ doc_members doc → m_JVMPool m = pool →
      ∃ eff, resolve (m_ConfigDir m) = Ok eff ∧ agrees m eff).
  { transitivity (∀ m, m ∈ rows → member_failures resolve m = []).
    - clearbody rows. induction rows as [|m l IH]; simpl.
      { split; [by intros _ m Hm%elem_of_nil|done]. }
      rewrite app_nil, IH. split.
      + intros [? ?] x [->|?]%elem_of_cons; eauto.
      + intros H. split; [apply H; left|intros; apply H; by right].
    - unfold rows. setoid_rewrite list_elem_of_filter. split; intros H m.
      + intros Hm <-. apply member_failures_nil; naive_solver.
      + intros [<- Hm]. apply member_failures_nil; naive_solver. }
  destruct (rows ≫= member_failures resolve) as [|x xs].
  - split; [intros [= <-]; split; [done|]; eexists; split_and!; try done; by apply Hall|].
    naive_solver.
  - split; [done|]. intros (_ & doc' & [= <-] & _ & H). by apply Hall in H.
Qed.

Lemma hex_version b : Z.shiftr (Z.lor (Z.land b 15) 64) 4 = 4%Z.
Proof.
  rewrite Z.shiftr_lor, Z.shiftr_land.
  change (Z.shiftr 15 4) with 0%Z. by rewrite Z.land_0_r.
Qed.

Lemma hex_variant b :
  Z.shiftr (Z.lor (Z.land b 63) 128) 4 ∈ [8; 9; 10; 11]%Z.
Proof.
  rewrite Z.shiftr_lor, Z.shiftr_land.
  change (Z.shiftr 63 4) with (Z.ones 2). change (Z.shiftr 128 4) with 8%Z.
  rewrite Z.land_ones by lia. change (2 ^ 2)%Z with 4%Z.
  pose proof (Z.mod_pos_bound (Z.shiftr b 4) 4).
  assert (Hc : (Z.shiftr b 4 mod 4 = 0 ∨ Z.shiftr b 4 mod 4 = 1
    ∨ Z.shiftr b 4 mod 4 = 2 ∨ Z.shiftr b 4 mod 4 = 3)%Z) by lia.
  destruct Hc as [->|[->|[->| ->]]]; vm_compute; set_solver.
Qed.

(** sixteen random bytes become the text [membership-] and the 36
    characters of a version 4 UUID: hyphens at 8, 13, 18 and 23, the version
    digit 4 at 14, a variant digit among 8, 9, a and b at 19. *)
Theorem newRevision_uuid raw :
  length raw = 16 →
  ∃ r, newRevision (Some raw) = Ok r ∧ String.length r = 47
    ∧ revision_ok r
    ∧ String.get 25 r = Some "4"%char
    ∧ (∃ c, String.get 30 r = Some c ∧ c ∈ ["8"; "9"; "a"; "b"]%char)
    ∧ Forall (λ i, String.get i r = Some "-"%char) [10; 19; 24; 29; 34].
Proof.
  intros Hlen. destruct (newRevision (Some raw)) as [r|] eqn:E; [|done].
  pose proof (newRevision_ok _ _ E) as Hok. exists r. split; [done|].
  do 17 (destruct raw as [|? raw]; try discriminate Hlen).
  injection E as <-. split; [reflexivity|]. split; [exact Hok|]. clear Hok.
  split_and!.
  - simpl. unfold hex_digit at 1. by rewrite hex_version.
  - eexists. split; [reflexivity|]. simpl.
    match goal with |- hex_digit (Z.shiftr (Z.lor (Z.land ?b 63) 128) 4) ∈ _ =>
      pose proof (hex_variant b) as Hv end.
    repeat (apply elem_of_cons in Hv as [->|Hv];
      [by apply (bool_decide_eq_true_1 _)|]).
    by apply elem_of_nil in Hv.
  - repeat constructor.
Qed.

(** ** Witnesses *)

Definition ex_raw : list Z := [1; 35; 69; 103; 137; 171; 205; 239; 18; 52; 86; 120; 154; 188; 222; 240]%Z.
Definition ex_env : io_env := mkEnv (Some ex_raw) None.
Definition ex_member : Member := mkMember "/w/.millstrand" "/w" "backend".
Definition ex_disk : disk := (Reconcile ex_env ex_member ∅ empty_disk).1.
Definition ex_owner : LiveOwner := mkOwner "backend" "host-1".

Example ex_registered :
  registry_map (d_file ex_disk) !! "/w/.millstrand" = Some ex_member.
Proof. reflexivity. Qed.

Example ex_move_refused :
  (Reconcile ex_env (mkMember "/w/.millstrand" "/w" "other")
     {["/w/.millstrand" := ex_owner]} ex_disk).2
  = Err (EStopRequired "/w/.millstrand" ex_owner).
Proof. reflexivity. Qed.

Lemma ex_disk_readable : readable ex_disk.
Proof. split; [reflexivity|]. eexists. vm_compute. reflexivity. Qed.


Lemma Reconcile_refines_witness :
  registry_map (d_file ex_disk) = <["/w/.millstrand" := ex_member]> ∅.
Proof.
  destruct (Reconcile_refines ex_env ex_member ∅ empty_disk ex_disk
    (mkMutation true "membership-01234567-89ab-4def-9234-56789abcdef0" [ex_member])) as (H & _).
  - split; [reflexivity|]. by eexists.
  - vm_compute. reflexivity.
  - exact H.
Defined.

Lemma Remove_refines_witness :
  registry_map (d_file (Remove ex_env "/w/.millstrand" ∅ ex_disk).1) = ∅.
Proof.
  destruct (Remove_refines ex_env "/w/.millstrand" ∅ ex_disk
    (Remove ex_env "/w/.millstrand" ∅ ex_disk).1
    (mkMutation true "membership-01234567-89ab-4def-9234-56789abcdef0" [])) as (H & _).
  - exact ex_disk_readable.
  - vm_compute. reflexivity.
  - rewrite H. vm_compute. reflexivity.
Defined.

Lemma Reconcile_error_witness :
  ∃ s', Reconcile (mkEnv (Some ex_raw) (Some WDirSync)) ex_member ∅ empty_disk
    = (s', Err (EWrite WDirSync)) ∧
  registry_map (d_file s') !! "/w/.millstrand" = Some ex_member.
Proof.
  eexists. split; [vm_compute; reflexivity|].
  match goal with |- registry_map (d_file ?s') !! _ = _ =>
    destruct (Reconcile_error (mkEnv (Some ex_raw) (Some WDirSync)) ex_member ∅
      empty_disk s' (EWrite WDirSync)) as [H|[_ H]] end.
  - split; [reflexivity|]. by eexists.
  - vm_compute. reflexivity.
  - discriminate H.
  - rewrite H. reflexivity.
Defined.

Lemma newRevision_uuid_witness :
  ∃ r, newRevision (Some ex_raw) = Ok r ∧ String.length r = 47.
Proof.
  destruct (newRevision_uuid ex_raw eq_refl) as (r & H & Hl & _). by exists r.
Defined.
