(* ===== verification/LandQuality.v ===== *)
(** The land-quality check runner (src/tools/land-quality/main.go): validation
    of the check table, the scheduler that runs checks under a limit of heavy
    ones, and the classification and tally of their results. Durations are
    [int64] nanoseconds. *)

From S2P Require Export GoStrings.

(** ** Data *)

Record check := mkCheck {
  c_name : string;
  c_argv : list string;
  c_heavy : bool;
  c_deps : list string;
  c_baseline : Z;
  c_timeout : Z;
}.

(** The strings of the [states] map; the terminal ones are the result statuses
    PASS, WARN, FAIL, TIMEOUT and BLOCKED in lower case. *)
Inductive phase := Pending | Running | Pass | Warn | Fail | Timeout | Blocked.

#[global] Instance phase_eq_dec : EqDecision phase.
Proof. solve_decision. Defined.

Inductive ctx_error := DeadlineExceeded | Canceled.

#[global] Instance ctx_error_eq_dec : EqDecision ctx_error.
Proof. solve_decision. Defined.

Inductive quality_error :=
| QInvalidCheck
| QBudget (name : string)
| QDuplicate (name : string)
| QUnknownDep (name dep : string)
| QCycle (name : string)
| QHeavyLimit (raw : string)
| QHeavyPositive
| QPrerequisite (dep : string) (p : phase)
| QContext (e : ctx_error)
| QTimeout (execution : option string)
| QExecution (e : string)
| QOutput.

Record outcome := mkOutcome {
  o_check : check;
  o_status : phase;
  o_elapsed : Z;
  o_logPath : string;
  o_err : option quality_error;
}.

(** ** Budgets and classification *)

Definition growthBudget (baseline : Z) : Z := wrap64 (baseline + Z.quot baseline 10).

Definition classifyResult (c : check) (elapsed : Z) (contextErr : option ctx_error)
    (executionErr : option string) : phase * option quality_error :=
  if bool_decide (contextErr = Some DeadlineExceeded)
  then (Timeout, Some (QTimeout executionErr))
  else match executionErr with
       | Some e => (Fail, Some (QExecution e))
       | None => if (growthBudget (c_baseline c) <? elapsed)%Z then (Warn, None)
                 else (Pass, None)
       end.

(** What one run of a check may answer: its duration, the state of its context
    and the error of its execution. *)
Definition runOne (logDir : string) (c : check) (elapsed : Z)
    (contextErr : option ctx_error) (executionErr : option string) : outcome :=
  let '(status, err) := classifyResult c elapsed contextErr executionErr in
  mkOutcome c status elapsed (PathJoin [logDir; String.append (c_name c) ".log"]) err.

Definition heavyLimitFromEnv (raw : string) : result quality_error Z :=
  if bool_decide (raw = "") then Ok 2%Z
  else match Atoi raw with
       | Some limit => if (limit <? 1)%Z then Err (QHeavyLimit raw) else Ok limit
       | None => Err (QHeavyLimit raw)
       end.

(** ** Validation of the table *)

Fixpoint validate_rows (known : gset string) (cs : list check)
    : result quality_error (gset string) :=
  match cs with
  | [] => Ok known
  | c :: cs =>
      ensure (negb (bool_decide (c_name c = "") || bool_decide (c_argv c = [])))
        QInvalidCheck ;;
      ensure (negb ((c_baseline c <=? 0)%Z
                    || (c_timeout c <=? growthBudget (c_baseline c))%Z))
        (QBudget (c_name c)) ;;
      ensure (negb (bool_decide (c_name c ∈ known))) (QDuplicate (c_name c)) ;;
      validate_rows ({[c_name c]} ∪ known) cs
  end.

Definition validate_deps (known : gset string) (cs : list check)
    : result quality_error unit :=
  check_each (λ c, check_each (λ dep,
    ensure (bool_decide (dep ∈ known)) (QUnknownDep (c_name c) dep)) (c_deps c)) cs.

(** [byName[name].deps]: nil for a name that is not there. *)
Definition deps_of (cs : list check) (name : string) : list string :=
  match list_find (λ c, c_name c = name) cs with
  | Some (_, c) => c_deps c
  | None => []
  end.

(** The [visiting] and [visited] maps of the depth-first search. *)
Record marks := mkMarks { visiting : gset string; visited : gset string }.

(** [None] is a search that ran out of fuel. *)
Fixpoint visit_all (f : string → marks → option (result quality_error marks))
    (names : list string) (m : marks) : option (result quality_error marks) :=
  match names with
  | [] => Some (Ok m)
  | n :: names =>
      match f n m with
      | Some (Ok m') => visit_all f names m'
      | r => r
      end
  end.

Fixpoint visit (cs : list check) (fuel : nat) (name : string) (m : marks)
    : option (result quality_error marks) :=
  match fuel with
  | 0 => None
  | S fuel =>
      if bool_decide (name ∈ visiting m) then Some (Err (QCycle name))
      else if bool_decide (name ∈ visited m) then Some (Ok m)
      else
        match visit_all (visit cs fuel) (deps_of cs name)
                (mkMarks ({[name]} ∪ visiting m) (visited m)) with
        | Some (Ok m') =>
            Some (Ok (mkMarks (visiting m' ∖ {[name]}) ({[name]} ∪ visited m')))
        | r => r
        end
  end.

(** Every name under visit is the name of a check, so this much fuel is never
    used up ([validateChecks_total]). *)
Definition visit_fuel (cs : list check) : nat := S (length cs).

Definition validateChecks (cs : list check) : option (result quality_error unit) :=
  match validate_rows ∅ cs with
  | Err e => Some (Err e)
  | Ok known =>
      match validate_deps known cs with
      | Err e => Some (Err e)
      | Ok _ =>
          match visit_all (visit cs (visit_fuel cs)) (c_name <$> cs) (mkMarks ∅ ∅) with
          | None => None
          | Some (Err e) => Some (Err e)
          | Some (Ok _) => Some (Ok tt)
          end
      end
  end.

(** The table the gate runs, durations in nanoseconds. *)
Definition qualityChecks : list check :=
  [mkCheck "clojure-test" ["clojure"; "-M:test"] true [] 129600000000 480000000000;
   mkCheck "go-test" ["make"; "test-go"] true [] 59300000000 300000000000;
   mkCheck "restart-acceptance" ["make"; "test-restart-acceptance"] true ["build"] 260000000000 420000000000;
   mkCheck "e2e" ["make"; "test-e2e"] true [] 92400000000 480000000000;
   mkCheck "format" ["make"; "fmt-check"] false [] 29600000000 180000000000;
   mkCheck "lint" ["make"; "lint"] true [] 24900000000 240000000000;
   mkCheck "reflection" ["make"; "reflect-check"] false [] 19300000000 120000000000;
   mkCheck "ci-config" ["make"; "ci-config-check"] false [] 100000000 30000000000;
   mkCheck "identity" ["make"; "identity-check"] false [] 11600000000 120000000000;
   mkCheck "build" ["make"; "build"] false [] 1000000000 120000000000;
   mkCheck "acceptance-kanban" ["test/shell/acceptance/millstrand-millhouse-kanban.sh"] false ["build"] 46500000000 240000000000;
   mkCheck "acceptance-docs" ["test/shell/acceptance/millstrand-docs.sh"] false ["build"] 27300000000 180000000000;
   mkCheck "acceptance-neovim" ["test/shell/acceptance/millstrand-neovim.sh"] false ["build"] 1300000000 30000000000;
   mkCheck "docs" ["make"; "docs-check"] false [] 28900000000 180000000000].

(** ** The scheduler *)

(** The local variables of [run]: [s_running] holds the checks whose goroutine
    has not delivered its outcome, so Go's [running] is its length. *)
Record sched := mkSched {
  s_states : gmap string phase;
  s_completed : gmap string outcome;
  s_running : list check;
  s_heavy : Z;
}.

Definition state_of (st : sched) (name : string) : option phase := s_states st !! name.

Definition passed (p : option phase) : bool :=
  bool_decide (p = Some Pass) || bool_decide (p = Some Warn).

Definition failed (p : option phase) : bool :=
  bool_decide (p = Some Fail) || bool_decide (p = Some Timeout)
  || bool_decide (p = Some Blocked).

Definition dependenciesPassed (c : check) (states : gmap string phase) : bool :=
  forallb (λ dep, passed (states !! dep)) (c_deps c).

Definition failedDependency (c : check) (states : gmap string phase)
    : option (string * phase) :=
  match list_find (λ dep, failed (states !! dep) = true) (c_deps c) with
  | Some (_, dep) => pair dep <$> states !! dep
  | None => None
  end.

Definition block (c : check) (e : quality_error) (st : sched) : sched :=
  mkSched (<[c_name c := Blocked]> (s_states st))
          (<[c_name c := mkOutcome c Blocked 0 "" (Some e)]> (s_completed st))
          (s_running st) (s_heavy st).

Definition start (c : check) (st : sched) : sched :=
  mkSched (<[c_name c := Running]> (s_states st)) (s_completed st)
          (s_running st ++ [c])
          (if c_heavy c then s_heavy st + 1 else s_heavy st)%Z.

(** The body of the inner loop for one check, its [progress] included. [ctx] is
    what [ctx.Err()] answers when the loop reaches the check. *)
Definition consider (limit : Z) (ctx : option ctx_error) (c : check)
    (st : sched) : sched * bool :=
  if negb (bool_decide (state_of st (c_name c) = Some Pending)) then (st, false)
  else match failedDependency c (s_states st) with
  | Some (dep, p) => (block c (QPrerequisite dep p) st, true)
  | None =>
      if negb (dependenciesPassed c (s_states st))
         || (c_heavy c && (limit <=? s_heavy st)%Z)
      then (st, false)
      else match ctx with
           | Some e => (block c (QContext e) st, true)
           | None => (start c st, true)
           end
  end.

(** One pass of the inner loop over the table. *)
Fixpoint pass (limit : Z) (ctx : string → option ctx_error) (cs : list check)
    (st : sched) : sched * bool :=
  match cs with
  | [] => (st, false)
  | c :: cs =>
      let '(st1, p1) := consider limit (ctx (c_name c)) c st in
      let '(st2, p2) := pass limit ctx cs st1 in
      (st2, p1 || p2)
  end.

(** The receive from [outcomes]. *)
Definition receive (o : outcome) (st : sched) : sched :=
  let name := c_name (o_check o) in
  mkSched (<[name := o_status o]> (s_states st))
          (<[name := o]> (s_completed st))
          (filter (λ c, c_name c ≠ name) (s_running st))
          (if c_heavy (o_check o) then s_heavy st - 1 else s_heavy st)%Z.

Definition init_sched (cs : list check) : sched :=
  mkSched (list_to_map ((λ c, (c_name c, Pending)) <$> cs)) ∅ [] 0%Z.

(** What [run] does before its loop. *)
Definition run_entry (cs : list check) (heavyLimit : Z) : option (result quality_error sched) :=
  match validateChecks cs with
  | None => None
  | Some (Err e) => Some (Err e)
  | Some (Ok _) =>
      if (heavyLimit <? 1)%Z then Some (Err QHeavyPositive) else Some (Ok (init_sched cs))
  end.

(** The condition of the outer loop is false. *)
Definition finished (cs : list check) (st : sched) : bool :=
  (length cs <=? size (s_completed st))%nat.

(** One iteration of the outer loop that goes on to the next. *)
Inductive iteration (cs : list check) (limit : Z) (logDir : string)
    : sched → sched → Prop :=
| iter_continue ctx st st' progress :
    finished cs st = false →
    pass limit ctx cs st = (st', progress) →
    s_running st' = [] →
    progress = true ∨ finished cs st' = true →
    iteration cs limit logDir st st'
| iter_receive ctx st st' progress c elapsed cerr eerr :
    finished cs st = false →
    pass limit ctx cs st = (st', progress) →
    c ∈ s_running st' →
    iteration cs limit logDir st (receive (runOne logDir c elapsed cerr eerr) st').

(** An iteration that ends the run with "scheduler made no progress". *)
Definition stuck (cs : list check) (limit : Z) (st : sched) : Prop :=
  ∃ ctx st', finished cs st = false ∧ pass limit ctx cs st = (st', false)
    ∧ s_running st' = [] ∧ finished cs st' = false.

Definition zero_check : check := mkCheck "" [] false [] 0 0.
Definition zero_outcome : outcome := mkOutcome zero_check Pending 0 "" None.

(** A check without a result yet has Go's zero value. *)
Definition orderedResults (cs : list check) (completed : gmap string outcome)
    : list outcome :=
  (λ c, default zero_outcome (completed !! c_name c)) <$> cs.

Record tally := mkTally {
  t_passed : nat; t_warned : nat; t_failed : nat; t_timedOut : nat; t_blocked : nat;
}.

Definition count_status (p : phase) (rs : list outcome) : nat :=
  length (filter (λ r, o_status r = p) rs).

(** The counters of [printSummary] and the number it returns. *)
Definition summary (rs : list outcome) : tally :=
  mkTally (count_status Pass rs) (count_status Warn rs) (count_status Fail rs)
          (count_status Timeout rs) (count_status Blocked rs).

Definition printSummary_count (rs : list outcome) : nat :=
  let t := summary rs in t_failed t + t_timedOut t + t_blocked t.

(** ** Lemmas: the depth-first search *)

(** [dep cs a b]: the check [a] waits for [b]. *)
Definition dep (cs : list check) (a b : string) : Prop := b ∈ deps_of cs a.

Definition acyclic (cs : list check) : Prop := ∀ n, ¬ tc (dep cs) n n.

(** From [n] every chain of dependencies ends. *)
Definition grounded (cs : list check) : string → Prop := Acc (λ b a, dep cs a b).

Lemma grounded_no_cycle cs n : grounded cs n → ¬ tc (dep cs) n n.
Proof.
  induction 1 as [n _ IH]. intros Hc.
  assert (∃ y, dep cs n y ∧ rtc (dep cs) y n) as (y & Hy & Hr).
  { inversion Hc; subst; [by exists n; split|].
    eexists. split; [done|]. by apply tc_rtc. }
  apply (IH y Hy). eapply tc_rtc_l; [done|]. by apply tc_once.
Qed.

Lemma visit_all_ok (P : marks → Prop) (Q : string → marks → Prop) f names m m' :
  (∀ n m1 m2, P m1 → f n m1 = Some (Ok m2) →
     P m2 ∧ Q n m2 ∧ visiting m2 = visiting m1 ∧ visited m1 ⊆ visited m2) →
  (∀ n m1 m2, Q n m1 → visited m1 ⊆ visited m2 → Q n m2) →
  P m → visit_all f names m = Some (Ok m') →
  P m' ∧ (∀ n, n ∈ names → Q n m') ∧ visiting m' = visiting m ∧ visited m ⊆ visited m'.
Proof.
  intros Hf HQ. revert m. induction names as [|n names IH]; intros m HP; simpl.
  - intros [= <-]. split_and!; set_solver.
  - destruct (f n m) as [[m1|]|] eqn:E; [|done..].
    destruct (Hf _ _ _ HP E) as (HP1 & HQ1 & Hv1 & Hs1).
    intros Hrun. destruct (IH _ HP1 Hrun) as (HP2 & HQ2 & Hv2 & Hs2).
    split_and!; [done| |congruence|set_solver].
    intros x [->|Hx]%elem_of_cons; eauto.
Qed.

(** A successful search restores [visiting] and only adds to [visited]. *)
Lemma visit_frame cs fuel name m m' :
  visit cs fuel name m = Some (Ok m') →
  name ∈ visited m' ∧ visiting m' = visiting m ∧ visited m ⊆ visited m'.
Proof.
  revert name m m'. induction fuel as [|fuel IH]; intros name m m'; [done|]. simpl.
  case_bool_decide as Hing; [done|]. case_bool_decide as Hed; [by intros [= <-]|].
  destruct (visit_all _ _ _) as [[m1|]|] eqn:E; [|done..]. intros [= <-]. simpl.
  apply (visit_all_ok (λ _, True) (λ n m, n ∈ visited m)) in E
    as (_ & _ & Hv & Hs); simpl in *; [| |by eauto|done].
  - rewrite Hv. split_and!; set_solver.
  - intros n m1' m2 _ Hr. split; [done|]. by apply IH.
Qed.

Definition visited_grounded (cs : list check) (m : marks) : Prop :=
  ∀ n, n ∈ visited m → grounded cs n.

Lemma visit_grounded cs fuel name m m' :
  visited_grounded cs m → visit cs fuel name m = Some (Ok m') →
  visited_grounded cs m'.
Proof.
  revert name m m'. induction fuel as [|fuel IH]; intros name m m' Hg; [done|]. simpl.
  case_bool_decide as Hing; [done|]. case_bool_decide as Hed; [by intros [= <-]|].
  destruct (visit_all _ _ _) as [[m1|]|] eqn:E; [|done..]. intros [= <-].
  apply (visit_all_ok (visited_grounded cs) (λ n m, n ∈ visited m)) in E
    as (Hg1 & Hq & _ & _); [| |by eauto|exact Hg].
  - intros n Hn. simpl in Hn. apply elem_of_union in Hn as [->%elem_of_singleton|Hn].
    + constructor. intros b Hb. by apply Hg1, Hq.
    + by apply Hg1.
  - intros n m1' m2 HP Hr. split; [by eapply IH|]. by apply (visit_frame cs fuel).
Qed.

Lemma visit_all_err cs fuel ds m e :
  visit_all (visit cs fuel) ds m = Some (Err e) →
  ∃ d m1, d ∈ ds ∧ visiting m1 = visiting m ∧ visit cs fuel d m1 = Some (Err e).
Proof.
  revert m. induction ds as [|d ds IH]; intros m; [done|]. simpl.
  destruct (visit cs fuel d m) as [[m2|e2]|] eqn:E2; [| |done].
  - intros (d' & m1 & Hd & Hm & Hr)%IH. exists d', m1.
    apply visit_frame in E2 as (_ & Hv & _). split_and!; [by right|congruence|done].
  - intros [= ->]. exists d, m. split_and!; [by left|done|done].
Qed.

(** A depth-first search that fails has found a cycle through the names being
    visited. *)
Lemma visit_err cs fuel name m e :
  (∀ v, v ∈ visiting m → tc (dep cs) v name) →
  visit cs fuel name m = Some (Err e) → ∃ n, tc (dep cs) n n.
Proof.
  revert name m e. induction fuel as [|fuel IH]; intros name m e Hv; [done|]. simpl.
  case_bool_decide as Hing; [by eauto|]. case_bool_decide as Hed; [done|].
  destruct (visit_all _ _ _) as [[m1|e1]|] eqn:E; [done| |done]. intros _.
  apply visit_all_err in E as (d & m1 & Hd & Hm & Hr). simpl in Hm.
  apply (IH d m1 e1); [|done]. rewrite Hm. intros v Hin.
  apply elem_of_union in Hin as [->%elem_of_singleton|Hin].
  - by apply tc_once.
  - eapply tc_r; [by apply Hv|done].
Qed.

(** Enough fuel: the names being visited are distinct names of the table. *)
Lemma visit_fuel_enough cs (U : gset string) fuel name m :
  (∀ n d, n ∈ U → d ∈ deps_of cs n → d ∈ U) →
  name ∈ U → size (U ∖ visiting m) < fuel → visit cs fuel name m ≠ None.
Proof.
  intros HU. revert name m. induction fuel as [|fuel IH]; intros name m Hn Hf; [lia|].
  simpl. case_bool_decide as Hing; [done|]. case_bool_decide as Hed; [done|].
  set (m0 := mkMarks _ _).
  assert (Hm0 : size (U ∖ visiting m0) < fuel).
  { assert (size (U ∖ visiting m0) < size (U ∖ visiting m)); [|lia].
    apply subset_size. simpl. set_solver. }
  assert (Hall : visit_all (visit cs fuel) (deps_of cs name) m0 ≠ None).
  2:{ by destruct (visit_all (visit cs fuel) (deps_of cs name) m0) as [[]|]. }
  assert (Hds : ∀ d, d ∈ deps_of cs name → d ∈ U) by eauto.
  clearbody m0. revert m0 Hm0 Hds. generalize (deps_of cs name) as ds.
  induction ds as [|d ds IHds]; intros m0 Hm0 Hds; [done|]. simpl.
  destruct (visit cs fuel d m0) as [[m2|e2]|] eqn:E2; [|done|].
  - apply IHds; [|set_solver]. apply visit_frame in E2 as (_ & -> & _). done.
  - exfalso. apply (IH d m0); [set_solver|done|done].
Qed.

(** ** Lemmas: the table *)

Definition names (cs : list check) : list string := c_name <$> cs.

Definition row_ok (c : check) : Prop :=
  c_name c ≠ "" ∧ c_argv c ≠ []
  ∧ (0 < c_baseline c)%Z ∧ (growthBudget (c_baseline c) < c_timeout c)%Z.

(** The tables that validation is meant to accept. *)
Record valid_table (cs : list check) : Prop := {
  vt_rows : Forall row_ok cs;
  vt_nodup : NoDup (names cs);
  vt_known : ∀ c d, c ∈ cs → d ∈ c_deps c → d ∈ names cs;
  vt_acyclic : acyclic cs;
}.

Lemma table_rows_ok known cs known' :
  validate_rows known cs = Ok known' ↔
  Forall row_ok cs ∧ NoDup (names cs) ∧ (∀ n, n ∈ names cs → n ∉ known)
  ∧ known' = known ∪ list_to_set (names cs).
Proof.
  revert known. induction cs as [|c cs IH]; intros known.
  { split; [intros [= <-]|intros (_ & _ & _ & ->)]; simpl.
    - split_and!; [constructor|constructor|set_solver|set_solver].
    - f_equal. set_solver. }
  cbn [validate_rows names fmap list_fmap list_to_set].
  rewrite Forall_cons, NoDup_cons. split.
  - intros H. inv_ok. bools.
    match goal with H : validate_rows _ _ = _ |- _ => apply IH in H end.
    destruct_and!. subst.
    match goal with H : ∀ n, n ∈ names cs → _ |- _ => rename H into Hk end.
    split_and!; [|done| |done| |].
    + unfold row_ok. split_and!; [done|done|lia|lia].
    + intros Hin. apply (Hk _ Hin). by apply elem_of_union_l, elem_of_singleton.
    + intros n [->|Hin]%elem_of_cons; [done|]. intros Hn.
      apply (Hk _ Hin). by apply elem_of_union_r.
    + unfold names. apply leibniz_equiv. set_solver.
  - intros ((Hr & Hrs) & (Hn & Hd) & Hk & ->). destruct Hr as (H1 & H2 & H3 & H4).
    rewrite (bool_decide_eq_false_2 _ H1), (bool_decide_eq_false_2 _ H2).
    replace (c_baseline c <=? 0)%Z with false by lia.
    replace (c_timeout c <=? growthBudget (c_baseline c))%Z with false by lia. simpl.
    rewrite bool_decide_eq_false_2 by set_solver. simpl.
    apply IH. split_and!; [done|done| |apply leibniz_equiv; unfold names; set_solver].
    intros n Hn'. apply not_elem_of_union. set_solver.
Qed.

Lemma validate_deps_ok known cs u :
  validate_deps known cs = Ok u ↔ ∀ c d, c ∈ cs → d ∈ c_deps c → d ∈ known.
Proof.
  unfold validate_deps. rewrite check_each_ok, Forall_forall.
  setoid_rewrite check_each_ok. setoid_rewrite Forall_forall.
  setoid_rewrite ensure_ok. setoid_rewrite bool_decide_eq_true. naive_solver.
Qed.

Lemma deps_of_elem cs c :
  NoDup (names cs) → c ∈ cs → deps_of cs (c_name c) = c_deps c.
Proof.
  intros Hd Hc. unfold deps_of.
  destruct (list_find _ cs) as [[i c']|] eqn:Hf.
  - apply list_find_Some in Hf as (Hi & Hn & _).
    apply list_elem_of_lookup in Hc as [j Hj].
    assert (i = j) as ->; [|congruence].
    eapply (NoDup_lookup (names cs)); [done| |]; unfold names;
      rewrite list_lookup_fmap; [by rewrite Hi|by rewrite Hj; simpl; congruence].
  - apply list_find_None in Hf. rewrite Forall_forall in Hf. by destruct (Hf c).
Qed.

Lemma deps_of_cases cs n d :
  d ∈ deps_of cs n → ∃ c, c ∈ cs ∧ c_name c = n ∧ d ∈ c_deps c.
Proof.
  unfold deps_of. destruct (list_find _ cs) as [[i c']|] eqn:Hf; [|set_solver].
  apply list_find_Some in Hf as (Hi & Hn & _). intros Hd.
  exists c'. split_and!; [by eapply list_elem_of_lookup_2|done|done].
Qed.

(** The search of [validateChecks] over the whole table. *)
Definition search (cs : list check) : option (result quality_error marks) :=
  visit_all (visit cs (visit_fuel cs)) (names cs) (mkMarks ∅ ∅).

Lemma search_total cs :
  (∀ c d, c ∈ cs → d ∈ c_deps c → d ∈ names cs) → search cs ≠ None.
Proof.
  intros Hk. unfold search, visit_fuel. set (U := list_to_set (names cs) : gset string).
  assert (HU : ∀ n d, n ∈ U → d ∈ deps_of cs n → d ∈ U).
  { intros n d _ (c & Hc & _ & Hd)%deps_of_cases.
    unfold U. apply elem_of_list_to_set. eauto. }
  assert (Hsize : size U < S (length cs)).
  { unfold U. rewrite <-(length_fmap c_name cs). unfold names.
    pose proof (size_list_to_set_le (names cs)). unfold names in *. lia. }
  assert (Hn : ∀ n, n ∈ names cs → n ∈ U) by (intros; by apply elem_of_list_to_set).
  revert Hn. generalize (names cs) at 1 2 as ns.
  assert (Hm : visiting (mkMarks ∅ ∅) = ∅) by done. revert Hm.
  generalize (mkMarks ∅ ∅) as m. intros m Hm ns.
  revert m Hm. induction ns as [|n ns IH]; intros m Hm Hn; cbn [visit_all]; [congruence|].
  destruct (visit cs (S (length cs)) n m) as [[m2|e2]|] eqn:E2; [|done|].
  - apply IH; [|set_solver]. apply visit_frame in E2 as (_ & -> & _). done.
  - exfalso. apply (visit_fuel_enough cs U (S (length cs)) n m); [done|set_solver| |done].
    rewrite Hm, difference_empty_L. done.
Qed.

Lemma search_grounded cs m n :
  search cs = Some (Ok m) → n ∈ names cs → grounded cs n.
Proof.
  intros Hs Hn. unfold search in Hs.
  apply (visit_all_ok (visited_grounded cs) (λ n m, n ∈ visited m)) in Hs
    as (Hg & Hq & _); [by apply Hg, Hq| |by eauto|].
  - intros n' m1 m2 HP Hr. split; [by eapply visit_grounded|by eapply visit_frame].
  - intros x Hx. simpl in Hx. set_solver.
Qed.

Lemma search_acyclic cs :
  (∃ m, search cs = Some (Ok m)) → acyclic cs.
Proof.
  intros [m Hs] n Hc. assert (Hn : n ∈ names cs).
  { assert (∃ y, dep cs n y) as [y Hy] by (inversion Hc; subst; eauto).
    apply deps_of_cases in Hy as (c & Hin & <- & _). by apply list_elem_of_fmap_2. }
  by eapply grounded_no_cycle; [eapply search_grounded|].
Qed.

Lemma search_err cs e : search cs = Some (Err e) → ∃ n, tc (dep cs) n n.
Proof.
  unfold search. intros (d & m1 & _ & Hm & Hr)%visit_all_err.
  apply (visit_err cs (visit_fuel cs) d m1 e); [|done]. rewrite Hm. set_solver.
Qed.

Lemma valid_grounded cs n : valid_table cs → n ∈ names cs → grounded cs n.
Proof.
  intros [_ Hnd Hkn Hac] Hn. pose proof (search_total cs Hkn) as Ht.
  destruct (search cs) as [[m|e]|] eqn:Hs; [| |done].
  - by eapply search_grounded.
  - apply search_err in Hs as [x Hx]. by destruct (Hac x).
Qed.

Lemma validateChecks_sound cs : validateChecks cs = Some (Ok tt) → valid_table cs.
Proof.
  unfold validateChecks. fold (names cs). fold (search cs).
  destruct (validate_rows ∅ cs) as [known|e] eqn:Hr; [|done].
  apply table_rows_ok in Hr as (Hrows & Hnd & _ & Hkn).
  destruct (validate_deps known cs) as [[]|e] eqn:Hd; [|done].
  rewrite validate_deps_ok in Hd.
  destruct (search cs) as [[m|e]|] eqn:Hs; [|done..]. intros _.
  split; [done|done|set_solver|]. apply search_acyclic. eauto.
Qed.

Lemma validateChecks_complete cs : valid_table cs → validateChecks cs = Some (Ok tt).
Proof.
  intros [H1 H2 H3 H4].
  assert (validate_rows ∅ cs = Ok (∅ ∪ list_to_set (names cs))) as Hr.
  { apply table_rows_ok. split_and!; [done|done|set_solver|done]. }
  assert (validate_deps (∅ ∪ list_to_set (names cs)) cs = Ok tt) as Hd.
  { apply validate_deps_ok. set_solver. }
  pose proof (search_total cs H3) as Ht.
  unfold validateChecks. fold (names cs). fold (search cs). rewrite Hr, Hd.
  destruct (search cs) as [[m|e]|] eqn:Hs; [done| |done].
  apply search_err in Hs as [n Hn]. by destruct (H4 n).
Qed.

Lemma validateChecks_total cs : validateChecks cs ≠ None.
Proof.
  unfold validateChecks. fold (names cs). fold (search cs).
  destruct (validate_rows ∅ cs) as [known|e] eqn:Hr; [|done].
  apply table_rows_ok in Hr as (_ & _ & _ & Hkn).
  destruct (validate_deps known cs) as [[]|e] eqn:Hd; [|done].
  rewrite validate_deps_ok in Hd.
  assert (Hk : ∀ c d, c ∈ cs → d ∈ c_deps c → d ∈ names cs) by set_solver.
  pose proof (search_total cs Hk). by destruct (search cs) as [[]|].
Qed.

(** table validation accepts a table exactly when every row is usable, the
    names are distinct, every dependency is a row and no dependency cycle
    exists; the search never runs out of the fuel it is given. *)
Theorem validateChecks_spec cs :
  validateChecks cs ≠ None ∧ (validateChecks cs = Some (Ok tt) ↔ valid_table cs).
Proof.
  split; [apply validateChecks_total|].
  split; [apply validateChecks_sound|apply validateChecks_complete].
Qed.

(** ** Lemmas: the scheduler *)

Section scheduler.
Context (cs : list check) (limit : Z) (logDir : string).
Hypothesis cs_nodup : NoDup (names cs).
Hypothesis cs_known : ∀ c d, c ∈ cs → d ∈ c_deps c → d ∈ names cs.
Hypothesis cs_acyclic : ∀ n, n ∈ names cs → grounded cs n.
Hypothesis limit_pos : (1 <= limit)%Z.

Definition heavy_count (l : list check) : Z := Z.of_nat (length (filter (λ c, c_heavy c = true) l)).

Definition terminal (p : phase) : Prop := p ≠ Pending ∧ p ≠ Running.

(** What holds of the scheduler between any two actions. *)
Record sched_inv (st : sched) : Prop := {
  inv_states : ∀ c, c ∈ cs → is_Some (s_states st !! c_name c);
  inv_running : ∀ c, c ∈ s_running st →
    c ∈ cs ∧ s_states st !! c_name c = Some Running;
  inv_running_all : ∀ c, c ∈ cs → s_states st !! c_name c = Some Running →
    c ∈ s_running st;
  inv_distinct : NoDup (names (s_running st));
  inv_completed : ∀ n o, s_completed st !! n = Some o →
    n = c_name (o_check o) ∧ o_check o ∈ cs ∧ s_states st !! n = Some (o_status o)
    ∧ terminal (o_status o);
  inv_completed_all : ∀ c p, c ∈ cs → s_states st !! c_name c = Some p → terminal p →
    is_Some (s_completed st !! c_name c);
  inv_heavy : s_heavy st = heavy_count (s_running st);
  inv_limit : (s_heavy st <= limit)%Z;
  inv_deps : ∀ c p, c ∈ cs → s_states st !! c_name c = Some p →
    p ≠ Pending → p ≠ Blocked → dependenciesPassed c (s_states st) = true;
}.

Lemma cs_name_inj c c' : c ∈ cs → c' ∈ cs → c_name c = c_name c' → c = c'.
Proof using cs_nodup.
  intros [i Hi]%list_elem_of_lookup [j Hj]%list_elem_of_lookup Hn.
  assert (i = j) as ->; [|congruence].
  eapply (NoDup_lookup (names cs)); [done| |]; unfold names; rewrite list_lookup_fmap;
    [by rewrite Hi|by rewrite Hj; simpl; congruence].
Qed.

Lemma dependenciesPassed_true c states :
  dependenciesPassed c states = true ↔ ∀ d, d ∈ c_deps c → passed (states !! d) = true.
Proof.
  unfold dependenciesPassed. rewrite forallb_forall.
  split; intros H d Hd; apply H; by apply list_elem_of_In.
Qed.

Lemma passed_true p : passed p = true ↔ p = Some Pass ∨ p = Some Warn.
Proof. unfold passed. by rewrite orb_true_iff, !bool_decide_eq_true. Qed.

Lemma failed_true p :
  failed p = true ↔ p = Some Fail ∨ p = Some Timeout ∨ p = Some Blocked.
Proof. unfold failed. rewrite !orb_true_iff, !bool_decide_eq_true. tauto. Qed.

(** Giving a new state to a check that had not finished keeps every dependency
    that had passed. *)
Lemma dependenciesPassed_insert c n p q states :
  states !! n = Some q → ¬ terminal q →
  dependenciesPassed c states = true → dependenciesPassed c (<[n:=p]> states) = true.
Proof.
  rewrite !dependenciesPassed_true. intros Hn Hq H d Hd.
  destruct (decide (n = d)) as [<-|Hne]; [|by rewrite lookup_insert_ne; auto].
  apply H, passed_true in Hd. rewrite Hn in Hd.
  exfalso. apply Hq. unfold terminal. destruct Hd; naive_solver.
Qed.

Lemma block_inv c e st :
  sched_inv st → c ∈ cs → s_states st !! c_name c = Some Pending →
  sched_inv (block c e st).
Proof.
  intros [H1 H2 H3 H4 H5 H6 H7 H8 H9] Hc Hp. split; simpl; try done.
  - intros c' Hc'. rewrite lookup_insert_is_Some'. auto.
  - intros c' Hr. destruct (H2 _ Hr) as [? Hs]. split; [done|].
    rewrite lookup_insert_ne; [done|]. intros Heq. congruence.
  - intros c' Hc'. rewrite lookup_insert_Some. intros [[_ ?]|[_ ?]]; [done|auto].
  - intros n o. rewrite lookup_insert_Some. intros [[<- <-]|[Hne Ho]]; simpl.
    + rewrite lookup_insert_eq. by split_and!; [| | |split].
    + rewrite lookup_insert_ne by done. auto.
  - intros c' p Hc'. rewrite lookup_insert_is_Some', lookup_insert_Some.
    intros [[? _]|[_ ?]] Ht; [by left|right; eauto].
  - intros c' p Hc'. rewrite lookup_insert_Some. intros [[_ <-]|[_ Hs]] Hn Hb; [done|].
    eapply dependenciesPassed_insert; [done|by intros [? _]|eauto].
Qed.

Lemma start_inv c st :
  sched_inv st → c ∈ cs → s_states st !! c_name c = Some Pending →
  dependenciesPassed c (s_states st) = true →
  (c_heavy c = true → (s_heavy st < limit)%Z) →
  sched_inv (start c st).
Proof.
  intros [H1 H2 H3 H4 H5 H6 H7 H8 H9] Hc Hp Hd Hh.
  assert (Hfresh : c_name c ∉ names (s_running st)).
  { intros (c' & Hn & Hr)%list_elem_of_fmap. destruct (H2 _ Hr) as [_ ?]. congruence. }
  split; simpl.
  - intros c' Hc'. rewrite lookup_insert_is_Some'. auto.
  - intros c' [Hr| ->%list_elem_of_singleton]%elem_of_app; [|by rewrite lookup_insert_eq].
    destruct (H2 _ Hr) as [? ?]. split; [done|]. rewrite lookup_insert_ne; [done|].
    intros Heq. congruence.
  - intros c' Hc'. rewrite lookup_insert_Some, elem_of_app, list_elem_of_singleton.
    intros [[Hn _]|[_ ?]]; [right; by apply cs_name_inj|left; auto].
  - unfold names. rewrite fmap_app, NoDup_app. split_and!; [done| |by apply NoDup_singleton].
    intros n Hn. simpl. by intros ->%list_elem_of_singleton.
  - intros n o Ho. destruct (H5 _ _ Ho) as (? & ? & Hs & Ht). split_and!; try done.
    rewrite lookup_insert_ne; [done|]. intros <-. rewrite Hp in Hs.
    injection Hs as Hs. rewrite <-Hs in Ht. by destruct Ht.
  - intros c' p Hc'. rewrite lookup_insert_Some. intros [[_ <-]|[_ ?]] Ht; [by destruct Ht|eauto].
  - unfold heavy_count in *. rewrite filter_app, length_app, H7. unfold filter. simpl.
    destruct (c_heavy c); simpl; lia.
  - destruct (c_heavy c); [specialize (Hh eq_refl)|]; lia.
  - intros c' p Hc'. rewrite lookup_insert_Some. intros [[Hn <-]|[_ Hs]] Hnp Hnb.
    + apply cs_name_inj in Hn as <-; [|done..].
      eapply dependenciesPassed_insert; [done|by intros [? _]|done].
    + eapply dependenciesPassed_insert; [done|by intros [? _]|eauto].
Qed.
Lemma heavy_count_cons c l :
  heavy_count (c :: l) = ((if c_heavy c then 1 else 0) + heavy_count l)%Z.
Proof.
  unfold heavy_count. rewrite filter_cons. destruct (c_heavy c);
    [rewrite decide_True by done; simpl; lia|rewrite decide_False by done; lia].
Qed.

Lemma filter_other_id c l :
  c_name c ∉ names l → filter (λ c', c_name c' ≠ c_name c) l = l.
Proof.
  induction l as [|c' l IH]; [done|]. unfold names in *. simpl. intros [Hne Hn]%not_elem_of_cons.
  rewrite filter_cons, decide_True by congruence. by rewrite IH.
Qed.

Lemma heavy_count_remove c l :
  NoDup (names l) → c ∈ l →
  heavy_count l
  = ((if c_heavy c then 1 else 0)
     + heavy_count (filter (λ c', c_name c' ≠ c_name c) l))%Z.
Proof.
  induction l as [|c' l IH]; [by intros _ ?%elem_of_nil|].
  unfold names in *. simpl. intros [Hn Hd]%NoDup_cons. rewrite elem_of_cons, filter_cons.
  intros [<-|Hc].
  - rewrite decide_False by (intros Hx; by apply Hx).
    by rewrite filter_other_id, heavy_count_cons by done.
  - rewrite decide_True.
    + rewrite !heavy_count_cons, IH by done. lia.
    + intros Heq. apply Hn. rewrite Heq. by apply list_elem_of_fmap_2.
Qed.

Lemma runOne_fields c elapsed cerr eerr :
  let o := runOne logDir c elapsed cerr eerr in
  o_check o = c ∧ terminal (o_status o) ∧ o_status o ≠ Blocked.
Proof.
  unfold runOne, classifyResult, terminal. case_bool_decide; [done|].
  destruct eerr; [done|]. by destruct (_ <? _)%Z.
Qed.

Lemma receive_inv c o st :
  sched_inv st → c ∈ s_running st →
  o_check o = c → terminal (o_status o) → o_status o ≠ Blocked →
  sched_inv (receive o st).
Proof.
  intros [H1 H2 H3 H4 H5 H6 H7 H8 H9] Hr Hoc Hot Hob.
  destruct (H2 _ Hr) as [Hc Hs]. unfold receive. rewrite Hoc.
  pose proof (heavy_count_remove _ _ H4 Hr) as Hcount.
  assert (Hnr : ∀ p q : phase, terminal p → ¬ terminal Running) by (intros; by intros [_ ?]).
  split; simpl.
  - intros c' Hc'. rewrite lookup_insert_is_Some'. auto.
  - intros c' [Hne Hr']%list_elem_of_filter. destruct (H2 _ Hr') as [? ?].
    split; [done|]. by rewrite lookup_insert_ne.
  - intros c' Hc'. rewrite lookup_insert_Some. intros [[_ Hx]|[Hne Hx]].
    + rewrite Hx in Hot. by destruct Hot.
    + apply list_elem_of_filter. auto.
  - unfold names. eapply sublist_NoDup; [exact H4|].
    apply fmap_sublist, sublist_filter.
  - intros n o'. rewrite lookup_insert_Some. intros [[<- <-]|[Hne Ho]]; simpl.
    + rewrite lookup_insert_eq, Hoc. done.
    + rewrite lookup_insert_ne by done. auto.
  - intros c' p Hc'. rewrite lookup_insert_is_Some', lookup_insert_Some.
    intros [[? _]|[_ ?]] Ht; [by left|right; eauto].
  - rewrite H7, Hcount. destruct (c_heavy c); lia.
  - destruct (c_heavy c); lia.
  - intros c' p Hc'. rewrite lookup_insert_Some. intros [[Hn <-]|[_ Hx]] Hnp Hnb;
      (eapply dependenciesPassed_insert; [done|by intros [_ ?]|]); [|by eauto].
    apply cs_name_inj in Hn as <-; [|done..]. by eapply H9.
Qed.

Lemma failedDependency_none c states :
  failedDependency c states = None → ∀ d, d ∈ c_deps c → failed (states !! d) = false.
Proof.
  unfold failedDependency. destruct (list_find _ _) as [[i d]|] eqn:Hf.
  - apply list_find_Some in Hf as (_ & Hd & _).
    by apply failed_true in Hd as [->|[->| ->]].
  - intros _ d Hd. apply list_find_None in Hf. rewrite Forall_forall in Hf.
    apply Hf in Hd. by destruct (failed _).
Qed.

(** What one visit of the inner loop does. *)
Lemma consider_cases ctx c st :
  (consider limit ctx c st = (st, false)
   ∧ (s_states st !! c_name c = Some Pending →
      failedDependency c (s_states st) = None
      ∧ (dependenciesPassed c (s_states st) = false
         ∨ c_heavy c = true ∧ (limit <= s_heavy st)%Z)))
  ∨ s_states st !! c_name c = Some Pending ∧
    ((∃ e, consider limit ctx c st = (block c e st, true))
     ∨ consider limit ctx c st = (start c st, true)
       ∧ dependenciesPassed c (s_states st) = true
       ∧ (c_heavy c = true → (s_heavy st < limit)%Z)).
Proof.
  unfold consider, state_of. case_bool_decide as Hp; simpl; [|by left].
  destruct (failedDependency c (s_states st)) as [[d q]|] eqn:Hf.
  { right. split; [done|]. left. by eexists. }
  destruct (dependenciesPassed c (s_states st)) eqn:Hd; simpl; [|left; by auto].
  destruct (c_heavy c) eqn:Hh; simpl.
  - destruct (Z.leb_spec limit (s_heavy st)); [left; by auto|].
    right. split; [done|]. destruct ctx; [left; by eexists|right; by auto].
  - right. split; [done|]. destruct ctx; [left; by eexists|right; by auto].
Qed.

Lemma consider_inv ctx c st :
  sched_inv st → c ∈ cs → sched_inv (consider limit ctx c st).1.
Proof.
  intros Hst Hc.
  destruct (consider_cases ctx c st) as [[-> _]|(Hp & [[e ->]|(-> & Hd & Hh)])];
    [done|by apply block_inv|by apply start_inv].
Qed.

Lemma pass_inv ctx l st :
  (∀ c, c ∈ l → c ∈ cs) → sched_inv st → sched_inv (pass limit ctx l st).1.
Proof.
  revert st. induction l as [|c l IH]; intros st Hl Hst; simpl; [done|].
  destruct (consider limit (ctx (c_name c)) c st) as [st1 p1] eqn:E1.
  destruct (pass limit ctx l st1) as [st2 p2] eqn:E2. simpl.
  replace st2 with (pass limit ctx l st1).1 by by rewrite E2.
  apply IH; [intros; apply Hl; by right|].
  replace st1 with (consider limit (ctx (c_name c)) c st).1 by by rewrite E1.
  apply consider_inv; [done|]. apply Hl. by left.
Qed.

Lemma iteration_inv st st' :
  sched_inv st → iteration cs limit logDir st st' → sched_inv st'.
Proof.
  intros Hst Hit. destruct Hit as [ctx st st' pr _ Hp _ _|ctx st st' pr c el ce ee _ Hp Hc];
    pose proof (pass_inv ctx cs st (λ _ H, H) Hst) as Hi; rewrite Hp in Hi; [done|].
  destruct (runOne_fields c el ce ee) as (H1 & H2 & H3). by eapply receive_inv.
Qed.

Lemma init_inv : sched_inv (init_sched cs).
Proof.
  assert (Hst : ∀ n p, s_states (init_sched cs) !! n = Some p → p = Pending).
  { intros n p Hn. simpl in Hn. apply elem_of_list_to_map_2 in Hn.
    apply list_elem_of_fmap in Hn as (c & [= _ ->] & _). done. }
  split; simpl; try done.
  - intros c Hc. apply elem_of_dom. rewrite dom_list_to_map_L, <-list_fmap_compose.
    apply elem_of_list_to_set. by apply (list_elem_of_fmap_2 c_name).
  - intros c Hc. by apply elem_of_nil in Hc.
  - intros c Hc Hr. by apply Hst in Hr.
  - constructor.
  - intros c p Hc Hp [Hn _]. by apply Hst in Hp.
  - lia.
  - intros c p Hc Hp Hn. by apply Hst in Hp.
Qed.

(** *** Progress *)

Lemma consider_false ctx c st st' :
  consider limit ctx c st = (st', false) → st' = st.
Proof.
  destruct (consider_cases ctx c st) as [[-> _]|(_ & [[e ->]|[-> _]])]; congruence.
Qed.

Lemma pass_false ctx l st st' :
  pass limit ctx l st = (st', false) →
  st' = st ∧ ∀ c, c ∈ l → consider limit (ctx (c_name c)) c st = (st, false).
Proof.
  revert st. induction l as [|c l IH]; intros st; simpl.
  - intros [= <-]. split; [done|]. by intros c ?%elem_of_nil.
  - destruct (consider _ _ _ _) as [st1 p1] eqn:E1.
    destruct (pass _ _ _ _) as [st2 p2] eqn:E2. intros [= <- Hp].
    apply orb_false_iff in Hp as [-> ->]. pose proof (consider_false _ _ _ _ E1) as ->.
    apply IH in E2 as [-> Hl]. split; [done|].
    intros c' [->|Hc]%elem_of_cons; [done|by apply Hl].
Qed.

Lemma inv_pending_or_terminal st c :
  sched_inv st → s_running st = [] → c ∈ cs →
  ∃ p, s_states st !! c_name c = Some p ∧ (p = Pending ∨ terminal p).
Proof.
  intros Hst Hr Hc. destruct (inv_states st Hst c Hc) as [p Hp]. exists p. split; [done|].
  destruct (decide (p = Pending)); [by left|]. right. split; [done|]. intros ->.
  apply (inv_running_all st Hst) in Hp; [|done]. rewrite Hr in Hp. by apply elem_of_nil in Hp.
Qed.

(** With nothing running and nothing to do, every check has finished. *)
Lemma quiet_terminal ctx st :
  sched_inv st → s_running st = [] → pass limit ctx cs st = (st, false) →
  ∀ n, n ∈ names cs → ∃ p, s_states st !! n = Some p ∧ terminal p.
Proof using cs_acyclic cs_known cs_nodup limit_pos.
  intros Hst Hr Hp n Hn. apply pass_false in Hp as [_ Hp].
  pose proof (cs_acyclic n Hn) as Hacc. induction Hacc as [n _ IH].
  apply list_elem_of_fmap in Hn as (c & -> & Hc).
  destruct (inv_pending_or_terminal st c Hst Hr Hc) as (p & Hs & [->|Ht]); [|by eauto].
  exfalso. destruct (consider_cases (ctx (c_name c)) c st) as [[_ Hno]|(_ & [[e He]|[He _]])];
    [|rewrite Hp in He; done..].
  destruct (Hno Hs) as [Hf [Hd|[_ Hh]]].
  2:{ rewrite (inv_heavy st Hst), Hr in Hh. change (heavy_count []) with 0%Z in Hh. lia. }
  assert (dependenciesPassed c (s_states st) = true) as Ht; [|congruence].
  apply dependenciesPassed_true. intros d Hdc.
  destruct (IH d) as (q & Hq & Hqt); [|by eapply cs_known|].
  - unfold dep. by rewrite (deps_of_elem cs c).
  - apply failedDependency_none with (d := d) in Hf; [|done]. rewrite Hq in Hf |- *.
    by destruct q, Hqt.
Qed.

Lemma completed_dom st : sched_inv st → dom (s_completed st) ⊆ list_to_set (names cs).
Proof.
  intros Hst n [o Ho]%elem_of_dom. apply elem_of_list_to_set.
  destruct (inv_completed st Hst _ _ Ho) as (-> & Hc & _). by apply list_elem_of_fmap_2.
Qed.

Lemma completed_bound st : sched_inv st → size (s_completed st) ≤ length cs.
Proof.
  intros Hst. rewrite <-size_dom.
  etrans; [apply subseteq_size, completed_dom; done|].
  rewrite <-(length_fmap c_name cs). apply size_list_to_set_le.
Qed.

Lemma all_completed st :
  (∀ n, n ∈ names cs → is_Some (s_completed st !! n)) → finished cs st = true.
Proof using cs_nodup.
  intros H. apply Nat.leb_le. rewrite <-(length_fmap c_name cs), <-size_dom.
  rewrite <-(size_list_to_set (C := gset string) (c_name <$> cs)) by done.
  apply subseteq_size. intros n Hn%elem_of_list_to_set. by apply elem_of_dom, H.
Qed.

Lemma finished_all st c :
  sched_inv st → finished cs st = true → c ∈ cs → is_Some (s_completed st !! c_name c).
Proof using cs_nodup.
  intros Hst Hf%Nat.leb_le Hc. apply elem_of_dom.
  assert (dom (s_completed st) = list_to_set (names cs)) as ->.
  { apply set_subseteq_size_eq; [by apply completed_dom|].
    rewrite size_dom, size_list_to_set by done. unfold names. by rewrite length_fmap. }
  apply elem_of_list_to_set. by apply list_elem_of_fmap_2.
Qed.

Lemma inv_not_stuck st : sched_inv st → ¬ stuck cs limit st.
Proof using cs_acyclic cs_known cs_nodup limit_pos.
  intros Hst (ctx & st' & _ & Hp & Hr & Hf).
  pose proof (pass_false _ _ _ _ Hp) as [-> _].
  rewrite all_completed in Hf; [done|]. intros n Hn.
  destruct (quiet_terminal ctx st Hst Hr Hp n Hn) as (p & Hs & Ht).
  apply list_elem_of_fmap in Hn as (c & -> & Hc). by eapply inv_completed_all.
Qed.

(** *** Termination *)

(** What one pass may do: finish checks, start checks. *)
Lemma pass_grows ctx l st :
  (∀ c, c ∈ l → c ∈ cs) → sched_inv st →
  let '(st', progress) := pass limit ctx l st in
  s_completed st ⊆ s_completed st' ∧
  length (s_running st) ≤ length (s_running st') ∧
  (progress = true →
   length (s_running st) < length (s_running st') ∨ s_completed st ⊂ s_completed st').
Proof using cs_nodup limit_pos.
  revert st. induction l as [|c l IH]; intros st Hl Hst; simpl; [by split_and!|].
  assert (Hc : c ∈ cs) by (apply Hl; by left).
  pose proof (consider_inv (ctx (c_name c)) c st Hst Hc) as Hst1.
  pose proof (consider_cases (ctx (c_name c)) c st) as Hcase.
  destruct (consider _ _ _ _) as [st1 p1] eqn:E1. simpl in Hst1.
  specialize (IH st1 (λ c' H, Hl c' (list_elem_of_further _ _ _ H)) Hst1).
  destruct (pass _ _ _ _) as [st2 p2]. destruct IH as (I1 & I2 & I3).
  destruct Hcase as [[[= -> ->] _]|(Hp & [[e [= -> ->]]|[[= -> ->] _]])]; simpl in *.
  - by split_and!.
  - assert (Hnone : s_completed st !! c_name c = None).
    { apply eq_None_not_Some. intros [o Ho].
      destruct (inv_completed st Hst _ _ Ho) as (_ & _ & Hs & [Hn _]). congruence. }
    pose proof (insert_subset (s_completed st) (c_name c)
      (mkOutcome c Blocked 0 "" (Some e)) Hnone) as Hsub.
    split_and!; [|done|].
    + etrans; [|exact I1]. by destruct Hsub.
    + intros _. right. by eapply strict_trans_l.
  - rewrite length_app in *. simpl in *. split_and!; [done|lia|]. intros _. left. lia.
Qed.

Lemma iteration_completes st st' :
  sched_inv st → iteration cs limit logDir st st' →
  size (s_completed st) < size (s_completed st').
Proof using cs_nodup limit_pos.
  intros Hst Hit.
  destruct Hit as [ctx st st' pr Hf Hp Hr Hpr|ctx st st' pr c el ce ee Hf Hp Hc];
    pose proof (pass_inv ctx cs st (λ _ H, H) Hst) as Hi;
    pose proof (pass_grows ctx cs st (λ _ H, H) Hst) as Hg;
    rewrite Hp in Hi, Hg; simpl in Hi; destruct Hg as (G1 & G2 & G3).
  - destruct pr.
    + destruct (G3 eq_refl) as [Hlt|Hlt]; [rewrite Hr in Hlt; simpl in Hlt; lia|].
      by apply map_subset_size.
    + destruct Hpr as [?|Hfin]; [done|].
      pose proof (pass_false _ _ _ _ Hp) as [-> _]. congruence.
  - destruct (inv_running st' Hi _ Hc) as [_ Hs].
    assert (Hnone : s_completed st' !! c_name c = None).
    { apply eq_None_not_Some. intros [o Ho].
      destruct (inv_completed st' Hi _ _ Ho) as (_ & _ & Hs' & [_ Hn]). congruence. }
    apply map_subseteq_size in G1. unfold receive.
    destruct (runOne_fields c el ce ee) as (-> & _). simpl.
    rewrite map_size_insert_None by done. lia.
Qed.

Lemma iterations_bounded k st st' :
  sched_inv st → nsteps (iteration cs limit logDir) k st st' →
  size (s_completed st) + k ≤ length cs.
Proof using cs_nodup limit_pos.
  intros Hst Hk. revert Hst.
  induction Hk as [st|k st st1 st' Hit Hk IH]; intros Hst.
  - pose proof (completed_bound st Hst). lia.
  - pose proof (iteration_completes _ _ Hst Hit).
    specialize (IH (iteration_inv _ _ Hst Hit)). lia.
Qed.

(** The loop goes on: an unfinished run has a next iteration for every answer
    of the context and every outcome of the goroutine that delivers first. *)
Lemma iteration_exists (ctx : string → option ctx_error) st :
  sched_inv st → finished cs st = false →
  ∃ st', iteration cs limit logDir st st'.
Proof using cs_acyclic cs_known cs_nodup limit_pos.
  intros Hst Hf. destruct (pass limit ctx cs st) as [st1 pr] eqn:Hp.
  destruct (s_running st1) as [|c r] eqn:Hr.
  - exists st1. eapply iter_continue; [done|done|done|].
    destruct pr; [by left|]. right. apply not_false_iff_true. intros Hf1.
    by apply (inv_not_stuck st Hst); exists ctx, st1.
  - exists (receive (runOne logDir c 0 None None) st1).
    eapply iter_receive; [done|done|]. rewrite Hr. by left.
Qed.
End scheduler.

Lemma heavyLimitFromEnv_ok raw limit :
  heavyLimitFromEnv raw = Ok limit →
  (1 <= limit)%Z ∧ (raw = "" ∧ limit = 2%Z ∨ Atoi raw = Some limit).
Proof.
  unfold heavyLimitFromEnv. case_bool_decide; [intros [= <-]; split; [lia|by left]|].
  destruct (Atoi raw) as [n|]; [|done]. destruct (Z.ltb_spec n 1); [done|].
  intros [= <-]. split; [lia|by right].
Qed.

Lemma run_entry_valid cs limit :
  validateChecks cs = Some (Ok tt) → (1 <= limit)%Z →
  run_entry cs limit = Some (Ok (init_sched cs)).
Proof.
  intros Hv Hl. unfold run_entry. rewrite Hv. by destruct (Z.ltb_spec limit 1); [lia|].
Qed.

(** the gate's own table is valid, so with any limit
    [heavyLimitFromEnv] accepts its run enters the scheduler's loop; what that
    function accepts is the default 2 for an unset variable or the positive
    number written. *)
Theorem qualityChecks_run raw limit :
  heavyLimitFromEnv raw = Ok limit →
  valid_table qualityChecks ∧
  run_entry qualityChecks limit = Some (Ok (init_sched qualityChecks)) ∧
  (1 <= limit)%Z ∧ (raw = "" ∧ limit = 2%Z ∨ Atoi raw = Some limit).
Proof.
  intros Hl. apply heavyLimitFromEnv_ok in Hl as [H1 H2].
  assert (Hv : validateChecks qualityChecks = Some (Ok tt)) by (vm_compute; reflexivity).
  split; [by apply validateChecks_sound|]. split; [by apply run_entry_valid|]. by split.
Qed.

(** ** What [run] promises *)

(** The states of [run] between two iterations. *)
Definition reachable (cs : list check) (limit : Z) (logDir : string) (st : sched) : Prop :=
  rtc (iteration cs limit logDir) (init_sched cs) st.

Lemma reachable_inv cs limit logDir st :
  valid_table cs → (1 <= limit)%Z → reachable cs limit logDir st → sched_inv cs limit st.
Proof.
  intros [_ Hnd Hkn _] Hl Hr.
  eapply (rtc_invariant (iteration cs limit logDir) (sched_inv cs limit)); [| |exact Hr].
  - intros x y. by apply iteration_inv.
  - by apply init_inv.
Qed.

(** C24: on a valid table, between any two iterations of the scheduler the heavy
    checks that run are within the limit, and every check that was started has
    all its prerequisites at PASS or WARN. *)
Theorem scheduler_safe cs limit logDir st :
  valid_table cs → (1 <= limit)%Z → reachable cs limit logDir st →
  (Z.of_nat (length (filter (λ c, c_heavy c = true) (s_running st))) <= limit)%Z ∧
  (∀ c, c ∈ s_running st →
     c ∈ cs ∧ ∀ d, d ∈ c_deps c →
       s_states st !! d = Some Pass ∨ s_states st !! d = Some Warn) ∧
  (∀ n o, s_completed st !! n = Some o → o_status o ≠ Blocked →
     n = c_name (o_check o) ∧ ∀ d, d ∈ c_deps (o_check o) →
       s_states st !! d = Some Pass ∨ s_states st !! d = Some Warn).
Proof.
  intros Hv Hl Hr. pose proof (reachable_inv _ _ _ _ Hv Hl Hr) as Hi. split_and!.
  - pose proof (inv_heavy _ _ _ Hi) as Hh. pose proof (inv_limit _ _ _ Hi).
    unfold heavy_count in Hh. lia.
  - intros c Hc. destruct (inv_running _ _ _ Hi c Hc) as [Hin Hs]. split; [done|].
    intros d Hd. apply passed_true. revert d Hd. apply dependenciesPassed_true.
    by eapply (inv_deps _ _ _ Hi).
  - intros n o Ho Hb. destruct (inv_completed _ _ _ Hi _ _ Ho) as (-> & Hin & Hs & Ht & _).
    split; [done|]. intros d Hd. apply passed_true. revert d Hd.
    apply dependenciesPassed_true. by eapply (inv_deps _ _ _ Hi).
Qed.

(** on a valid table the run never reports "scheduler made no progress",
    always has a next iteration until every check has a result, and takes at
    most one iteration per check. *)
Theorem scheduler_terminates cs limit logDir st :
  valid_table cs → (1 <= limit)%Z → reachable cs limit logDir st →
  ¬ stuck cs limit st ∧
  (finished cs st = false → ∃ st', iteration cs limit logDir st st') ∧
  (∀ k st', nsteps (iteration cs limit logDir) k st st' → k ≤ length cs).
Proof.
  intros Hv Hl Hr. pose proof (reachable_inv _ _ _ _ Hv Hl Hr) as Hi.
  pose proof (λ n, valid_grounded cs n Hv) as Hg. destruct Hv as [_ Hnd Hkn _].
  split_and!.
  - by apply inv_not_stuck.
  - intros Hf. by apply (iteration_exists cs limit logDir Hnd Hkn Hg Hl (λ _, None)).
  - intros k st' Hk. eapply iterations_bounded in Hk; [lia|done..].
Qed.

Lemma count_status_zero p rs : count_status p rs = 0 ↔ ∀ r, r ∈ rs → o_status r ≠ p.
Proof.
  unfold count_status. rewrite length_zero_iff_nil. split.
  - intros Hf r Hr Hp. assert (r ∈ filter (λ r, o_status r = p) rs) as Hx
      by (apply list_elem_of_filter; done). rewrite Hf in Hx. by apply elem_of_nil in Hx.
  - intros H. apply elem_of_nil_inv. intros r [Hp Hr]%list_elem_of_filter. by eapply H.
Qed.

(** when the run of a valid table has finished, the ordered results name
    the table's checks in order, each with a terminal status, and the number
    printSummary returns (the exit status of the gate) is zero exactly when
    every check is at PASS or WARN. *)
Theorem results_complete cs limit logDir st :
  valid_table cs → (1 <= limit)%Z → reachable cs limit logDir st →
  finished cs st = true →
  let rs := orderedResults cs (s_completed st) in
  o_check <$> rs = cs ∧
  (∀ r, r ∈ rs → terminal (o_status r)) ∧
  (printSummary_count rs = 0 ↔ ∀ r, r ∈ rs → o_status r = Pass ∨ o_status r = Warn).
Proof.
  intros Hv Hl Hr Hf. pose proof (reachable_inv _ _ _ _ Hv Hl Hr) as Hi. simpl.
  assert (Hc : ∀ c, c ∈ cs → ∃ o, s_completed st !! c_name c = Some o
                 ∧ o_check o = c ∧ terminal (o_status o)).
  { intros c Hin. destruct Hv as [_ Hnd _ _].
    destruct (finished_all cs limit Hnd st c Hi Hf Hin) as [o Ho]. exists o.
    destruct (inv_completed _ _ _ Hi _ _ Ho) as (Hn & Hoc & _ & Ht).
    split_and!; [done| |done]. symmetry. by apply (cs_name_inj cs). }
  assert (Ht : ∀ r, r ∈ orderedResults cs (s_completed st) → terminal (o_status r)).
  { intros r (c & -> & Hin)%list_elem_of_fmap. by destruct (Hc c Hin) as (o & -> & _ & ?). }
  split_and!; [|exact Ht|].
  - unfold orderedResults. rewrite <-list_fmap_compose. clear Ht.
    rewrite <-(list_fmap_id cs) at 2. apply list_fmap_ext. intros i c Hi'. simpl.
    destruct (Hc c (list_elem_of_lookup_2 _ _ _ Hi')) as (o & Ho & Hoc & _). by rewrite Ho.
  - unfold printSummary_count, summary. simpl.
    transitivity (∀ r, r ∈ orderedResults cs (s_completed st) →
      o_status r ≠ Fail ∧ o_status r ≠ Timeout ∧ o_status r ≠ Blocked).
    + rewrite !Nat.eq_add_0, !count_status_zero. split.
      * intros [[H1 H2] H3] r Hr'. split_and!; auto.
      * intros H. split_and!; intros r Hr'; by destruct (H r Hr') as (? & ? & ?).
    + split; intros H r Hr'; specialize (H r Hr'); specialize (Ht r Hr');
        unfold terminal in Ht; destruct (o_status r); naive_solver.
Qed.

Definition int64_max : Z := 9223372036854775807.

(** the budget of a baseline below ten elevenths of the largest duration is
    the baseline and a tenth of it, without wrapping; a check that ended in
    time without error is PASS exactly when it took no longer than that. *)
Theorem growthBudget_bounds c elapsed :
  (0 <= c_baseline c <= 10 * (int64_max / 11))%Z →
  growthBudget (c_baseline c) = (c_baseline c + c_baseline c / 10)%Z ∧
  (c_baseline c <= growthBudget (c_baseline c) <= int64_max)%Z ∧
  (classifyResult c elapsed None None = (Pass, None) ↔
     (10 * (elapsed - c_baseline c) <= c_baseline c)%Z).
Proof.
  intros Hb. assert (Hg : growthBudget (c_baseline c) = (c_baseline c + c_baseline c / 10)%Z).
  { unfold growthBudget. rewrite Z.quot_div_nonneg by lia. apply wrap64_id.
    unfold int64_max in Hb. change (9223372036854775807 / 11)%Z with 838488366986797800%Z in Hb.
    pose proof (Z.div_pos (c_baseline c) 10). pose proof (Z.mul_div_le (c_baseline c) 10). lia. }
  pose proof (Z.mul_div_le (c_baseline c) 10 ltac:(lia)).
  pose proof (Z.mul_succ_div_gt (c_baseline c) 10 ltac:(lia)).
  pose proof (Z.div_pos (c_baseline c) 10).
  split_and!; [done|lia| |].
  - unfold int64_max in *. change (9223372036854775807 / 11)%Z with 838488366986797800%Z in Hb. lia.
  - unfold classifyResult. rewrite bool_decide_eq_false_2, Hg by done.
    destruct (Z.ltb_spec (c_baseline c + c_baseline c / 10) elapsed); split; intros; try done; lia.
Qed.

(** ** A concrete table *)

Definition demo_table : list check :=
  [mkCheck "fmt" ["fmt"] false [] 10 100; mkCheck "test" ["test"] true ["fmt"] 100 1000;
   mkCheck "race" ["race"] true ["fmt"] 100 1000].

(** One iteration that starts what it can and receives the outcome of the first
    check running. *)
Definition demo_step (execution : option string) (st : sched) : sched :=
  let st' := (pass 1 (λ _, None) demo_table st).1 in
  match s_running st' with
  | [] => st'
  | c :: _ => receive (runOne "logs" c 5 None execution) st'
  end.

Definition demo_1 : sched := demo_step None (init_sched demo_table).
Definition demo_2 : sched := demo_step (Some "exit status 1") demo_1.
Definition demo_end : sched := demo_step None demo_2.

Lemma demo_step_iteration execution st c l :
  finished demo_table st = false →
  s_running (pass 1 (λ _, None) demo_table st).1 = c :: l →
  iteration demo_table 1 "logs" st (demo_step execution st).
Proof.
  intros Hf Hr. unfold demo_step. rewrite Hr.
  destruct (pass 1 _ demo_table st) as [st' pr] eqn:Hp. cbn [fst] in Hr |- *.
  eapply iter_receive; [exact Hf|exact Hp|]. rewrite Hr. by left.
Qed.

Lemma demo_iterations :
  iteration demo_table 1 "logs" (init_sched demo_table) demo_1
  ∧ iteration demo_table 1 "logs" demo_1 demo_2
  ∧ iteration demo_table 1 "logs" demo_2 demo_end.
Proof.
  split_and!; eapply demo_step_iteration; vm_compute; reflexivity.
Qed.

Lemma demo_reachable :
  reachable demo_table 1 "logs" demo_1 ∧ reachable demo_table 1 "logs" demo_end.
Proof.
  destruct demo_iterations as (H1 & H2 & H3). split; [by apply rtc_once|].
  eapply rtc_l; [exact H1|]. eapply rtc_l; [exact H2|]. by apply rtc_once.
Qed.

Lemma demo_valid : valid_table demo_table.
Proof. apply validateChecks_sound. vm_compute. reflexivity. Qed.

Example demo_status :
  o_status <$> orderedResults demo_table (s_completed demo_end) = [Pass; Fail; Pass].
Proof. vm_compute. reflexivity. Qed.

Lemma scheduler_safe_witness :
  length (s_running (pass 1 (λ _, None) demo_table demo_1).1) = 1
  ∧ (heavy_count (s_running demo_end) <= 1)%Z.
Proof.
  split; [vm_compute; reflexivity|].
  apply (scheduler_safe demo_table 1 "logs" demo_end demo_valid);
    [lia|apply demo_reachable].
Defined.

Lemma scheduler_terminates_witness :
  ∃ st', iteration demo_table 1 "logs" demo_1 st'.
Proof.
  apply (scheduler_terminates demo_table 1 "logs" demo_1
    demo_valid); [lia|apply demo_reachable|vm_compute; reflexivity].
Defined.

Lemma results_complete_witness :
  o_check <$> orderedResults demo_table (s_completed demo_end) = demo_table
  ∧ printSummary_count (orderedResults demo_table (s_completed demo_end)) = 1.
Proof.
  split; [|vm_compute; reflexivity].
  apply (results_complete demo_table 1 "logs" demo_end demo_valid);
    [lia|apply demo_reachable|vm_compute; reflexivity].
Defined.

Lemma growthBudget_bounds_witness :
  growthBudget 109 = 119%Z
  ∧ classifyResult (mkCheck "fmt" ["fmt"] false [] 109 200) 119 None None = (Pass, None).
Proof.
  split; [reflexivity|].
  apply (growthBudget_bounds (mkCheck "fmt" ["fmt"] false [] 109 200) 119);
    vm_compute; intuition discriminate.
Defined.

Lemma qualityChecks_run_witness :
  heavyLimitFromEnv "4" = Ok 4%Z
  ∧ run_entry qualityChecks 4 = Some (Ok (init_sched qualityChecks)).
Proof.
  split; [vm_compute; reflexivity|].
  apply (qualityChecks_run "4" 4). vm_compute. reflexivity.
Defined.
