(* ===== verification/LandCommand.v ===== *)
(** The land-quality command (src/tools/land-quality/main.go): the run of one check as a
    process group that is stopped when its time is over, and the exit code of the gate.
    What the system calls answer is given. *)

From S2P Require Import LandQuality.

(** ** One check *)

Inductive group_signal := TermSent (pid : Z) | KillSent (pid : Z).

(** What a run answers: whether its log can be made, its start with the pid, whether the
    context ends before the process does, and the process then within its grace, and the
    errors of the signals, the process and the log. *)
Record execution := mkExecution {
  ex_log : bool;
  ex_start : result string Z;
  ex_stopped : bool;
  ex_in_grace : bool;
  ex_term_error : option string;
  ex_kill_error : option string;
  ex_wait_error : option string;
  ex_close_error : option string;
}.

Inductive execution_error :=
| LogNotMade
| NotStarted (e : string)
| WaitFailed (argv : list string) (e : string)
| SignalFailed (e : string)
| CloseFailed (e : string).

Definition errors_of (f : string → execution_error) (e : option string) : list execution_error :=
  match e with Some e => [f e] | None => [] end.

(** The watcher: its signals and their errors. *)
Definition watch (x : execution) (pid : Z) : list group_signal * list execution_error :=
  if negb (ex_stopped x) then ([], [])
  else if ex_in_grace x then ([TermSent pid], errors_of SignalFailed (ex_term_error x))
  else ([TermSent pid; KillSent pid],
        errors_of SignalFailed (ex_term_error x) ++ errors_of SignalFailed (ex_kill_error x)).

(** The signals and the joined errors; none for success. *)
Definition executeCommand (c : check) (x : execution) : list group_signal * list execution_error :=
  if negb (ex_log x) then ([], [LogNotMade]) else
  match ex_start x with
  | Err e => ([], NotStarted e :: errors_of CloseFailed (ex_close_error x))
  | Ok pid =>
      let '(signals, errors) := watch x pid in
      (signals,
       errors_of (WaitFailed (c_argv c)) (ex_wait_error x) ++ errors ++ errors_of CloseFailed (ex_close_error x))
  end.

(** ** The gate *)

Inductive run_error := RunRefused (e : quality_error) | RunContext (e : ctx_error) | RunOutput.

(** What [run] returns, on a table that its context, its processes and its output drive. *)
Inductive run_returns (cs : list check) (limit : Z) (logDir : string) : list outcome → option run_error → Prop :=
| run_refused e :
    run_entry cs limit = Some (Err e) →
    run_returns cs limit logDir [] (Some (RunRefused e))
| run_finished st ctx :
    run_entry cs limit = Some (Ok (init_sched cs)) →
    reachable cs limit logDir st → finished cs st = true →
    run_returns cs limit logDir (orderedResults cs (s_completed st)) (RunContext <$> ctx)
| run_unwritten rs :
    run_entry cs limit = Some (Ok (init_sched cs)) →
    run_returns cs limit logDir rs (Some RunOutput).

Inductive interrupt := Interrupted | Terminated.

(** The exit code of [main]: the value of the environment, whether the log directory is
    made, what [run] returned, whether the summary is written, whether the logs are removed,
    and a signal that was received. *)
Definition gate_exit (raw : string) (made : bool) (rs : list outcome) (err : option run_error)
    (summary_written removed : bool) (received : option interrupt) : Z :=
  match heavyLimitFromEnv raw with
  | Err _ => 2
  | Ok _ =>
      if negb made then 2
      else if bool_decide (printSummary_count rs = 0) && bool_decide (err = None) && summary_written
      then if removed then 0 else 1
      else match received with Some Interrupted => 130 | Some Terminated => 143 | None => 1 end
  end.

(** ** Lemmas *)




(** A check that is run signals its own process group alone: the polite signal exactly if
    its context ends before it, the other one after that, exactly if it then stays beyond
    its grace; and it succeeds exactly if it was started, ended well and no call failed. *)
Theorem execution_signals c x :
  let '(signals, errors) := executeCommand c x in
  (signals = [] ∨ ∃ pid, ex_start x = Ok pid ∧ ex_stopped x = true ∧
     (signals = [TermSent pid] ∧ ex_in_grace x = true ∨
      signals = [TermSent pid; KillSent pid] ∧ ex_in_grace x = false)) ∧
  (errors = [] ↔
     ex_log x = true ∧ (∃ pid, ex_start x = Ok pid) ∧ ex_wait_error x = None ∧ ex_close_error x = None ∧
     (ex_stopped x = true → ex_term_error x = None ∧ (ex_in_grace x = false → ex_kill_error x = None))).
Proof.
  unfold executeCommand, watch. destruct x as [[] [pid|e] [] [] [] [] [] []]; cbn; split; naive_solver.
Qed.


