(* ===== verification/Custody.v ===== *)
(** Process custody (src/cli/internal/process/custody.go): launch
    specifications, the reservation table, and the critical sections of
    [Launch], [wait], [Cancel], [Acknowledge] and [Shutdown], interleaved with
    the goroutines that observe, signal and reap processes.

    Rows are shared by pointer between the table and the goroutines, so they
    live in a heap of locations. A [chan struct{}] that is only closed is a
    boolean; a nil one is [None]. *)

From S2P Require Export GoStrings.

(** ** Launch specifications *)

(** The dynamic values that reach [ParseLaunchSpec]. *)
Inductive value :=
| VNil
| VBool (b : bool)
| VNumber (raw : string)
| VString (s : string)
| VArray (l : list value)
| VStrings (l : list string)
| VObject (m : list (string * value))
| VStringMap (m : gmap string string).

Record LaunchSpec := mkSpec {
  Argv : list string;
  CWD : string;
  Env : gmap string string;
  Stdin : option string;
}.

#[global] Instance LaunchSpec_eq_dec : EqDecision LaunchSpec.
Proof. solve_decision. Defined.

(** Errors; the key an iteration over a Go map stops at is not part of the
    error, its order being unspecified. *)
Inductive custody_error :=
| SpecNotObject
| SpecUnknownField
| SpecArgvEmpty
| SpecArgv (i : nat)
| SpecCwd
| SpecEnvNotObject
| SpecEnvEntry
| SpecStdin
| SpecCwdNotDirectory
| SpecCwdUnavailable
| BlankIdentity
| Closed
| Acknowledged (key owner : string)
| Conflict (key owner : string)
| HandleAlloc
| OutputDirectory
| OutputFile
| UnknownHandle (handle : string)
| OtherOwner
| NotTerminal
| RemoveOutput
| NotReaped (handle : string)
| TreeFailed (handle : string) (e : string)
| TreeUnfinished (handle : string)
| BlankRoot.

Definition as_string (v : option value) : option string :=
  match v with Some (VString s) => Some s | _ => None end.

Definition known_fields : list string := ["argv"; "cwd"; "env"; "stdin"].

(** [argvValue]: nil when the field is not an array. *)
Definition argv_items (v : option value) : list value :=
  match v with
  | Some (VArray l) => l
  | Some (VStrings l) => VString <$> l
  | _ => []
  end.

Fixpoint parse_argv (i : nat) (l : list value) : result custody_error (list string) :=
  match l with
  | [] => Ok []
  | VString s :: l =>
      ensure (negb (is_blank s)) (SpecArgv i) ;;
      rest ← parse_argv (S i) l;
      Ok (s :: rest)
  | _ :: _ => Err (SpecArgv i)
  end.

(** [entries]: the later of two equal keys wins, as in the JSON decoder. *)
Definition env_entries (v : value) : option (gmap string value) :=
  match v with
  | VObject m => Some (list_to_map (reverse m))
  | VStringMap m => Some (VString <$> m)
  | _ => None
  end.

Definition env_entry_ok (kv : string * value) : bool :=
  negb (is_blank kv.1) && bool_decide (is_Some (as_string (Some kv.2))).

Definition parse_env (v : option value) : result custody_error (gmap string string) :=
  match v with
  | None => Ok ∅
  | Some raw =>
      match env_entries raw with
      | None => Err SpecEnvNotObject
      | Some entries =>
          ensure (forallb env_entry_ok (map_to_list entries)) SpecEnvEntry ;;
          Ok (omap (λ v, as_string (Some v)) entries)
      end
  end.

Definition parse_stdin (v : option value) : result custody_error (option string) :=
  match v with
  | None | Some VNil => Ok None
  | Some (VString s) => Ok (Some s)
  | Some _ => Err SpecStdin
  end.

(** The argument is nil or a map. *)
Definition ParseLaunchSpec (v : option (gmap string value))
    : result custody_error LaunchSpec :=
  match v with
  | None => Err SpecNotObject
  | Some m =>
      ensure (forallb (λ kv, bool_decide (kv.1 ∈ known_fields)) (map_to_list m))
        SpecUnknownField ;;
      ensure (negb (bool_decide (argv_items (m !! "argv") = []))) SpecArgvEmpty ;;
      argv ← parse_argv 0 (argv_items (m !! "argv"));
      match as_string (m !! "cwd") with
      | None => Err SpecCwd
      | Some cwd =>
          ensure (IsAbs cwd && negb (is_blank cwd)) SpecCwd ;;
          env ← parse_env (m !! "env");
          stdin ← parse_stdin (m !! "stdin");
          Ok (mkSpec argv cwd env stdin)
      end
  end.

(** [b.Env[key]] is the empty string for a key that is not there. *)
Definition sameSpec (a b : LaunchSpec) : bool :=
  bool_decide (CWD a = CWD b)
  && bool_decide (length (Argv a) = length (Argv b))
  && bool_decide (size (Env a) = size (Env b))
  && bool_decide (Argv a = Argv b)
  && forallb (λ kv, bool_decide (default "" (Env b !! kv.1) = kv.2)) (map_to_list (Env a))
  && bool_decide (Stdin a = Stdin b).

(** What [os.Stat] answers for the working directory. *)
Inductive stat_answer := StatDir | StatOther | StatError.

Definition validateLaunchSpec (stat : string → stat_answer) (spec : LaunchSpec)
    : result custody_error unit :=
  ensure (negb (bool_decide (Argv spec = []) || bool_decide (CWD spec = "")
                || negb (IsAbs (CWD spec)))) SpecCwd ;;
  check_from (λ i arg, ensure (negb (is_blank arg)) (SpecArgv i)) 0 (Argv spec) ;;
  match stat (CWD spec) with
  | StatDir => Ok tt
  | StatOther => Err SpecCwdNotDirectory
  | StatError => Err SpecCwdUnavailable
  end ;;
  ensure (forallb (λ kv, negb (is_blank kv.1)) (map_to_list (Env spec))) SpecEnvEntry.

(** [strings.SplitN(entry, "=", 2)] of the inherited environment; [None] is the
    index panic for an entry without a separator. *)
Definition environ_values (environ : list string) : option (gmap string string) :=
  foldl (λ acc entry,
    values ← acc;
    match Cut entry "="%char with
    | Some (k, v) => Some (<[k := v]> values)
    | None => None
    end) (Some ∅) environ.

Definition mergedEnv (environ : list string) (additions : gmap string string)
    : option (list string) :=
  values ← environ_values environ;
  let values := additions ∪ values in
  let keys := sort_strings (map_to_list values).*1 in
  Some ((λ key, key +:+ "=" +:+ default "" (values !! key)) <$> keys).

(** ** Records and the custody object *)

Inductive proc_phase := PStarting | PRunning | PTerminal.

#[global] Instance proc_phase_eq_dec : EqDecision proc_phase.
Proof. solve_decision. Defined.

Inductive stop_kind := StopGraceful | StopForced | StopUncertain.

#[global] Instance stop_kind_eq_dec : EqDecision stop_kind.
Proof. solve_decision. Defined.

Record ExitResult := mkExit { Code : Z; Signal : option string }.

Record CancellationResult := mkCancellation {
  Reason : string;
  Stop : stop_kind;
  ObservedExit : option ExitResult;
}.

(** The public projection. *)
Record Rec := mkRec {
  Handle : string;
  Owner : string;
  Key : string;
  Phase : proc_phase;
  StdoutRef : string;
  StderrRef : string;
  Exit : option ExitResult;
  Cancellation : option CancellationResult;
  LaunchFailure : option string;
}.

(** [r_pid] is [row.cmd.Process]; [r_cancelled] is [""] until a cancellation,
    and [r_stop] is [None] for [""]. *)
Record custodyRecord := mkRow {
  r_rec : Rec;
  r_spec : LaunchSpec;
  r_pid : option Z;
  r_cancelled : string;
  r_stop : option stop_kind;
  r_done : bool;
  r_cleanupErr : list string;
  r_treeDone : option bool;
  r_treeErr : option string;
  r_reapClaimed : bool;
}.

Record custody := mkCustody {
  root : string;
  rows : gmap nat custodyRecord;
  byHandle : gmap string nat;
  reservations : gmap string string;
  closed : bool;
}.

(** *** Field updates *)

Definition set_phase (p : proc_phase) (r : Rec) : Rec :=
  mkRec (Handle r) (Owner r) (Key r) p (StdoutRef r) (StderrRef r)
        (Exit r) (Cancellation r) (LaunchFailure r).

Definition set_outcome (p : proc_phase) (e : option ExitResult)
    (x : option CancellationResult) (l : option string) (r : Rec) : Rec :=
  mkRec (Handle r) (Owner r) (Key r) p (StdoutRef r) (StderrRef r) e x l.

Definition with_rec (f : Rec → Rec) (r : custodyRecord) : custodyRecord :=
  mkRow (f (r_rec r)) (r_spec r) (r_pid r) (r_cancelled r) (r_stop r) (r_done r)
        (r_cleanupErr r) (r_treeDone r) (r_treeErr r) (r_reapClaimed r).

Definition set_cancelled (reason : string) (tree : option bool) (r : custodyRecord)
    : custodyRecord :=
  mkRow (r_rec r) (r_spec r) (r_pid r) reason (r_stop r) (r_done r)
        (r_cleanupErr r) tree (r_treeErr r) (r_reapClaimed r).

Definition set_tree (stop : stop_kind) (err : option string) (r : custodyRecord)
    : custodyRecord :=
  mkRow (r_rec r) (r_spec r) (r_pid r) (r_cancelled r) (Some stop) (r_done r)
        (r_cleanupErr r) (Some true) err (r_reapClaimed r).

Definition set_reapClaimed (r : custodyRecord) : custodyRecord :=
  mkRow (r_rec r) (r_spec r) (r_pid r) (r_cancelled r) (r_stop r) (r_done r)
        (r_cleanupErr r) (r_treeDone r) (r_treeErr r) true.

Definition set_done (cleanup : list string) (r : custodyRecord) : custodyRecord :=
  mkRow (r_rec r) (r_spec r) (r_pid r) (r_cancelled r) (r_stop r) true
        cleanup (r_treeDone r) (r_treeErr r) (r_reapClaimed r).

Definition with_rows (f : gmap nat custodyRecord → gmap nat custodyRecord) (c : custody)
    : custody :=
  mkCustody (root c) (f (rows c)) (byHandle c) (reservations c) (closed c).

Definition NewCustody (rootDir : string) (mkdir_ok : bool) : result custody_error custody :=
  ensure (negb (is_blank rootDir)) BlankRoot ;;
  ensure mkdir_ok OutputDirectory ;;
  Ok (mkCustody rootDir ∅ ∅ ∅ false).

(** ** The operations: one critical section each *)

Definition nul : string := String Ascii.zero "".

Definition reservation (owner key : string) : string := owner +:+ nul +:+ key.

(** What one launch may be answered by the system: [os.Stat], the random
    handle, the directory, the two files, and [cmd.Start]. *)
Record launch_answers := mkAnswers {
  a_stat : string → stat_answer;
  a_handle : option string;
  a_mkdir : bool;
  a_stdout : bool;
  a_stderr : bool;
  a_start : result string Z;
}.

Definition new_row (c : custody) (a : launch_answers) (handle owner key : string)
    (spec : LaunchSpec) : custodyRecord :=
  let dir := PathJoin [root c; handle] in
  let rec := mkRec handle owner key PStarting (PathJoin [dir; "stdout.log"])
                   (PathJoin [dir; "stderr.log"]) None None None in
  match a_start a with
  | Ok pid => mkRow rec spec (Some pid) "" None false [] None None false
  | Err e => mkRow (set_outcome PTerminal None None (Some e) rec) spec None ""
                   None false [] None None false
  end.

Definition Launch (a : launch_answers) (owner key : string) (spec : LaunchSpec)
    : ST custody custody_error Rec := λ c,
  if is_blank owner || is_blank key then (c, Err BlankIdentity)
  else match validateLaunchSpec (a_stat a) spec with
  | Err e => (c, Err e)
  | Ok _ =>
      if closed c then (c, Err Closed)
      else match reservations c !! reservation owner key with
      | Some handle =>
          match byHandle c !! handle ≫= λ l, rows c !! l with
          | None => (c, Err (Acknowledged key owner))
          | Some row =>
              if negb (sameSpec (r_spec row) spec) then (c, Err (Conflict key owner))
              else (c, Ok (r_rec row))
          end
      | None =>
          match a_handle a with
          | None => (c, Err HandleAlloc)
          | Some handle =>
              if negb (a_mkdir a) then (c, Err OutputDirectory)
              else if negb (a_stdout a && a_stderr a) then (c, Err OutputFile)
              else
                let l := fresh (dom (rows c)) in
                let row := new_row c a handle owner key spec in
                (mkCustody (root c) (<[l := row]> (rows c))
                   (<[handle := l]> (byHandle c))
                   (<[reservation owner key := handle]> (reservations c)) (closed c),
                 Ok (r_rec row))
          end
      end
  end.

Definition lookup_row (c : custody) (handle : string) : option (nat * custodyRecord) :=
  l ← byHandle c !! handle; row ← rows c !! l; Some (l, row).

Definition Get (handle : string) (c : custody) : result custody_error Rec :=
  match lookup_row c handle with
  | None => Err (UnknownHandle handle)
  | Some (_, row) => Ok (r_rec row)
  end.

(** In the order of the map's iteration. *)
Definition ListOwned (owner : string) (c : custody) : list Rec :=
  filter (λ r, Owner r = owner)
    (omap (λ hl, r_rec <$> rows c !! hl.2) (map_to_list (byHandle c))).

(** What [Cancel] does after its first critical section. *)
Inductive cancel_plan :=
| CancelReturn (r : result custody_error Rec)
| CancelAwaitDone (l : nat) (r : Rec)
| CancelTerminate (l : nat) (pid : Z) (r : Rec)
| CancelAwaitTree (l : nat) (r : Rec).

Definition Cancel_begin (owner handle : string) (c : custody) : custody * cancel_plan :=
  match lookup_row c handle with
  | None => (c, CancelReturn (Err (UnknownHandle handle)))
  | Some (l, row) =>
      if negb (bool_decide (Owner (r_rec row) = owner)) then (c, CancelReturn (Err OtherOwner))
      else if bool_decide (Phase (r_rec row) = PTerminal)
              && bool_decide (r_treeDone row = None)
      then (c, CancelReturn (Ok (r_rec row)))
      else if r_reapClaimed row then (c, CancelAwaitDone l (r_rec row))
      else if bool_decide (r_cancelled row = "") then
        match r_pid row with
        | Some pid =>
            (with_rows <[l := set_cancelled "cancelled by owner" (Some false) row]> c,
             CancelTerminate l pid (r_rec row))
        | None =>
            (with_rows <[l := set_cancelled "cancelled by owner" (r_treeDone row) row]> c,
             CancelReturn (Ok (r_rec row)))
        end
      else match r_treeDone row with
           | Some _ => (c, CancelAwaitTree l (r_rec row))
           | None => (c, CancelReturn (Ok (r_rec row)))
           end
  end.

(** The rest of [Cancel]: its value, from the object it finds after its wait.
    [in_time] is what [waitDoneUntil] answers. *)
Definition Cancel_end (plan : cancel_plan) (handle : string) (in_time : bool)
    (stop_err : option string) (c : custody) : result custody_error Rec :=
  match plan with
  | CancelReturn r => r
  | CancelAwaitDone _ _ => if in_time then Get handle c else Err (NotReaped handle)
  | CancelTerminate _ _ r =>
      match stop_err with Some e => Err (TreeFailed handle e) | None => Ok r end
  | CancelAwaitTree l r =>
      if negb in_time then Err (TreeUnfinished handle)
      else match rows c !! l with
           | Some row =>
               match r_treeErr row with
               | Some e => Err (TreeFailed handle e)
               | None => Ok (r_rec row)
               end
           | None => Ok r
           end
  end.

Definition Acknowledge (remove_ok : bool) (owner handle : string)
    : ST custody custody_error unit := λ c,
  match lookup_row c handle with
  | None => (c, Err (UnknownHandle handle))
  | Some (_, row) =>
      if negb (bool_decide (Owner (r_rec row) = owner)) then (c, Err OtherOwner)
      else if negb (bool_decide (Phase (r_rec row) = PTerminal)) then (c, Err NotTerminal)
      else if negb remove_ok then (c, Err RemoveOutput)
      else (mkCustody (root c) (rows c) (delete handle (byHandle c)) (reservations c)
                      (closed c), Ok tt)
  end.

(** The body of the loop of [Shutdown]'s critical section: the row after it,
    and whether it becomes a target whose tree this call terminates. *)
Definition shutdown_row (row : custodyRecord) : custodyRecord * bool :=
  if bool_decide (Phase (r_rec row) = PTerminal) then (row, false)
  else if r_reapClaimed row then (row, false)
  else
    let reason := if bool_decide (r_cancelled row = "") then "Mill shutdown"
                  else r_cancelled row in
    match r_pid row with
    | None => (set_cancelled reason (r_treeDone row) row, false)
    | Some _ =>
        let begin := bool_decide (r_treeDone row = None) in
        (set_cancelled reason (if begin then Some false else r_treeDone row) row, begin)
    end.

(** The rows of the table: a location that [byHandle] has. *)
Definition held (c : custody) : gset nat := list_to_set (map_to_list (byHandle c)).*2.

Definition Shutdown_begin (c : custody) : custody :=
  mkCustody (root c)
    (map_imap (λ l row, Some (if bool_decide (l ∈ held c) then (shutdown_row row).1 else row))
              (rows c))
    (byHandle c) (reservations c) true.

Definition starts_tree (c : custody) (l : nat) : bool :=
  match rows c !! l with Some row => (shutdown_row row).2 | None => false end.

(** The targets with [start]. *)
Definition shutdown_starts (c : custody) : gset nat :=
  filter (λ l, starts_tree c l = true) (held c).

(** One row of the last loop of [Shutdown]: the failures it adds. [in_time] is
    what [waitDoneUntil] answers. *)
Inductive shutdown_failure :=
| TreeCleanup (handle : string) (e : string)
| NotTerminalized (handle : string)
| WrongPhase (handle : string)
| OutputCleanup (handle : string) (e : list string).

Definition shutdown_wait (in_time : bool) (row : custodyRecord) : list shutdown_failure :=
  let handle := Handle (r_rec row) in
  if negb in_time then [NotTerminalized handle]
  else (if bool_decide (Phase (r_rec row) = PTerminal) then [] else [WrongPhase handle])
       ++ (if bool_decide (r_cleanupErr row = []) then []
           else [OutputCleanup handle (r_cleanupErr row)]).

(** ** Stopping a process tree *)

Inductive signal := SIGTERM | SIGKILL.

(** What the two kinds of call answer: [None] is a nil error. *)
Inductive gone_answer := Gone | StillThere | GoneError (e : string).

(** [terminateProcessTreeWithSignal], from the answers of [signalGroup] and
    [waitProcessGroupGone]; [survived] is the error of the last case. *)
Definition survived : string := "process group survived SIGKILL".

Definition terminateProcessTreeWithSignal (signalGroup : signal → option string)
    (waitGone : signal → gone_answer) : stop_kind * option string :=
  match signalGroup SIGTERM with
  | Some e => (StopUncertain, Some e)
  | None =>
      match waitGone SIGTERM with
      | GoneError e => (StopUncertain, Some e)
      | Gone => (StopGraceful, None)
      | StillThere =>
          match signalGroup SIGKILL with
          | Some e => (StopUncertain, Some e)
          | None =>
              match waitGone SIGKILL with
              | GoneError e => (StopUncertain, Some e)
              | StillThere => (StopUncertain, Some survived)
              | Gone => (StopForced, None)
              end
          end
      end
  end.

(** Where the goroutine that stops a tree is: about to send a signal, waiting
    for the group to go after one, or about to publish its answer. *)
Inductive tree_pc :=
| TSend (s : signal)
| TWait (s : signal)
| TEnd (stop : stop_kind) (err : option string).

Definition tree_sent (s : signal) (answer : option string) : tree_pc :=
  match answer with Some e => TEnd StopUncertain (Some e) | None => TWait s end.

Definition tree_waited (s : signal) (answer : gone_answer) : tree_pc :=
  match answer with
  | GoneError e => TEnd StopUncertain (Some e)
  | Gone => TEnd (match s with SIGTERM => StopGraceful | SIGKILL => StopForced end) None
  | StillThere =>
      match s with
      | SIGTERM => TSend SIGKILL
      | SIGKILL => TEnd StopUncertain (Some survived)
      end
  end.

(** ** Waiting for a process *)

(** What [cmd.Wait] leaves: the process state if it was reaped, and its error. *)
Record wait_answer := mkWait {
  w_state : option (Z * option string);
  w_err : option string;
}.

Definition exitResult (w : wait_answer) : ExitResult :=
  match w_state w with
  | Some (code, signal) => mkExit code signal
  | None => mkExit (match w_err w with Some _ => -1 | None => 0 end)%Z None
  end.

(** The first critical section of [wait]. *)
Definition wait_begin (row : custodyRecord) : custodyRecord :=
  if bool_decide (r_cancelled row = "") then with_rec (set_phase PRunning) row else row.

(** The critical section after the observer: claim the reaping unless a
    cancellation is under way. *)
Definition wait_claim (row : custodyRecord) : custodyRecord :=
  if bool_decide (r_cancelled row = "") then set_reapClaimed row else row.

Definition finishWait (w : wait_answer) (observeErr : option string)
    (closeErrs : list string) (row : custodyRecord) : custodyRecord :=
  let row' :=
    if negb (bool_decide (r_cancelled row = "")) then
      with_rec (set_outcome PTerminal None
        (Some (mkCancellation (r_cancelled row) (default StopUncertain (r_stop row))
                              (Some (exitResult w))))
        (LaunchFailure (r_rec row))) row
    else
      with_rec (set_outcome PTerminal (Some (exitResult w)) None
        (LaunchFailure (r_rec row))) row in
  set_done (option_list observeErr ++ closeErrs) row'.

(** Where the goroutine [wait] is: before its first critical section, in the
    observer, waiting for a tree, in [cmd.Wait], about to run [finishWait], or
    returned. The error is the observer's. *)
Inductive wait_pc :=
| WBegin
| WObserve
| WTree (obs : option string)
| WReap (obs : option string)
| WFinish (obs : option string) (w : wait_answer)
| WEnd.

(** ** The system: the object and its goroutines *)

(** What goes on around one row: its wait goroutine, the goroutine stopping its
    tree, whether the process has exited and whether it has been reaped. *)
Record proc := mkProc {
  p_wait : wait_pc;
  p_tree : option tree_pc;
  p_exited : bool;
  p_reaped : bool;
}.

(** [sent]: each signal to a group, and whether the leader had already been
    reaped, so that the group number could be another's. *)
Record sys := mkSys {
  cust : custody;
  procs : gmap nat proc;
  sent : list (nat * signal * bool);
}.

Definition set_wait (w : wait_pc) (p : proc) : proc :=
  mkProc w (p_tree p) (p_exited p) (p_reaped p).
Definition set_ptree (t : option tree_pc) (p : proc) : proc :=
  mkProc (p_wait p) t (p_exited p) (p_reaped p).
Definition set_exited (p : proc) : proc := mkProc (p_wait p) (p_tree p) true (p_reaped p).
Definition set_reaped (p : proc) : proc := mkProc (p_wait p) (p_tree p) (p_exited p) true.

Definition new_proc : proc := mkProc WBegin None false false.

(** The location a launch gave a process, if it gave one. *)
Definition launched (c c' : custody) : option nat :=
  let l := fresh (dom (rows c)) in
  match rows c' !! l with
  | Some row => if r_pid row then Some l else None
  | None => None
  end.

(** A step that changes the row and the goroutines of one location. *)
Inductive local_step (faulty : Prop) : custodyRecord → proc → custodyRecord → proc → Prop :=
| step_exit r p : local_step faulty r p r (set_exited p)
| step_begin r p :
    p_wait p = WBegin →
    local_step faulty r p (wait_begin r) (set_wait WObserve p)
| step_observed r p :
    p_wait p = WObserve → p_exited p = true →
    local_step faulty r p (wait_claim r)
      (set_wait (if bool_decide (r_cancelled r = "") then WReap None
                 else match r_treeDone r with Some _ => WTree None | None => WReap None end) p)
| step_observe_error r p e :
    faulty → p_wait p = WObserve →
    local_step faulty r p r
      (set_wait (match r_treeDone r with Some _ => WTree (Some e) | None => WReap (Some e) end) p)
| step_tree_closed r p obs :
    p_wait p = WTree obs → r_treeDone r = Some true →
    local_step faulty r p r (set_wait (WReap obs) p)
| step_reap r p obs w :
    p_wait p = WReap obs → p_exited p = true →
    local_step faulty r p r (set_reaped (set_wait (WFinish obs w) p))
| step_finish r p obs w closeErrs :
    p_wait p = WFinish obs w →
    local_step faulty r p (finishWait w obs closeErrs r) (set_wait WEnd p)
| step_waited r p s answer :
    p_tree p = Some (TWait s) →
    local_step faulty r p r (set_ptree (Some (tree_waited s answer)) p)
| step_tree_end r p stop err :
    p_tree p = Some (TEnd stop err) →
    local_step faulty r p (set_tree stop err r) (set_ptree None p).

Inductive step (faulty : Prop) : sys → sys → Prop :=
| step_launch s a owner key spec c' r :
    (∀ h, a_handle a = Some h → ∀ l row, rows (cust s) !! l = Some row → Handle (r_rec row) ≠ h) →
    Launch a owner key spec (cust s) = (c', r) →
    step faulty s
      (mkSys c' (match launched (cust s) c' with
                 | Some l => <[l := new_proc]> (procs s)
                 | None => procs s
                 end) (sent s))
| step_cancel s owner handle c' plan :
    Cancel_begin owner handle (cust s) = (c', plan) →
    step faulty s
      (mkSys c' (match plan with
                 | CancelTerminate l _ _ => alter (set_ptree (Some (TSend SIGTERM))) l (procs s)
                 | _ => procs s
                 end) (sent s))
| step_acknowledge s remove_ok owner handle c' r :
    Acknowledge remove_ok owner handle (cust s) = (c', r) →
    step faulty s (mkSys c' (procs s) (sent s))
| step_shutdown s :
    step faulty s
      (mkSys (Shutdown_begin (cust s))
             (map_imap (λ l p, Some (if bool_decide (l ∈ shutdown_starts (cust s))
                                     then set_ptree (Some (TSend SIGTERM)) p else p)) (procs s))
             (sent s))
| step_local s l r p r' p' :
    rows (cust s) !! l = Some r → procs s !! l = Some p →
    local_step faulty r p r' p' →
    step faulty s (mkSys (with_rows <[l := r']> (cust s)) (<[l := p']> (procs s)) (sent s))
| step_send s l p sg answer :
    procs s !! l = Some p → p_tree p = Some (TSend sg) →
    step faulty s
      (mkSys (cust s) (<[l := set_ptree (Some (tree_sent sg answer)) p]> (procs s))
             (sent s ++ [(l, sg, p_reaped p)])).

Definition init_sys (rootDir : string) : sys :=
  mkSys (mkCustody rootDir ∅ ∅ ∅ false) ∅ [].

(** ** Invariants *)

Definition identity (r : custodyRecord) : string * string * string :=
  (Handle (r_rec r), Owner (r_rec r), Key (r_rec r)).

(** The signals sent to the tree at [l], in order. *)
Definition signals_of (l : nat) (log : list (nat * signal * bool)) : list signal :=
  (λ x, x.1.2) <$> filter (λ x, x.1.1 = l) log.

(** The signals that lead to each classification. *)
Definition stop_signals (k : stop_kind) (sigs : list signal) : Prop :=
  match k with
  | StopGraceful => sigs = [SIGTERM]
  | StopForced => sigs = [SIGTERM; SIGKILL]
  | StopUncertain => sigs = [SIGTERM] ∨ sigs = [SIGTERM; SIGKILL]
  end.

Definition tree_signals (t : option tree_pc) (stop : option stop_kind) (sigs : list signal)
    : Prop :=
  match t with
  | Some (TSend SIGTERM) => sigs = []
  | Some (TWait SIGTERM) | Some (TSend SIGKILL) => sigs = [SIGTERM]
  | Some (TWait SIGKILL) => sigs = [SIGTERM; SIGKILL]
  | Some (TEnd k _) => stop_signals k sigs
  | None => match stop with Some k => stop_signals k sigs | None => sigs = [] end
  end.

(** The waiter has passed the point where a cancellation may still begin. *)
Definition late (w : wait_pc) : bool :=
  match w with WReap _ | WFinish _ _ | WEnd => true | _ => false end.

Definition is_tree (w : wait_pc) : bool := match w with WTree _ => true | _ => false end.

Definition may_be_reaped (w : wait_pc) : bool :=
  match w with WFinish _ _ | WEnd => true | _ => false end.

(** The public facts of a terminal row that was started. *)
Inductive ended (faulty : Prop) (r : custodyRecord) : Prop :=
| ended_exit e :
    r_cancelled r = "" → Exit (r_rec r) = Some e → Cancellation (r_rec r) = None →
    ended faulty r
| ended_cancelled x e :
    r_cancelled r ≠ "" → Exit (r_rec r) = None → Cancellation (r_rec r) = Some x →
    Reason x = r_cancelled r → ObservedExit x = Some e →
    (¬ faulty → r_stop r = Some (Stop x)) → ended faulty r.

Record started_inv (faulty : Prop) (r : custodyRecord) (p : proc) (sigs : list signal)
    : Prop := {
  si_pid : is_Some (r_pid r);
  si_failure : LaunchFailure (r_rec r) = None;
  si_cancelled : r_cancelled r = "" ↔ r_treeDone r = None;
  si_flight : is_Some (p_tree p) ↔ r_treeDone r = Some false;
  si_stop : is_Some (r_stop r) ↔ r_treeDone r = Some true;
  si_claim : r_reapClaimed r = true → r_cancelled r = "" ∧ late (p_wait p) = true;
  si_anchor : ¬ faulty → late (p_wait p) = true →
    r_reapClaimed r = true ∨ r_treeDone r = Some true;
  si_reaped : p_reaped p = true → may_be_reaped (p_wait p) = true;
  si_phase : Phase (r_rec r) = PTerminal ↔ p_wait p = WEnd;
  si_done : r_done r = true ↔ p_wait p = WEnd;
  si_live : p_wait p ≠ WEnd → Exit (r_rec r) = None ∧ Cancellation (r_rec r) = None;
  si_ended : p_wait p = WEnd → ended faulty r;
  si_tree : is_tree (p_wait p) = true → r_treeDone r ≠ None;
  si_signals : tree_signals (p_tree p) (r_stop r) sigs;
}.

(** A row whose process could not be started. *)
Record failed_inv (r : custodyRecord) (sigs : list signal) : Prop := {
  fi_phase : Phase (r_rec r) = PTerminal;
  fi_failure : is_Some (LaunchFailure (r_rec r));
  fi_exit : Exit (r_rec r) = None ∧ Cancellation (r_rec r) = None;
  fi_tree : r_treeDone r = None;
  fi_signals : sigs = [];
}.

Definition loc_inv (faulty : Prop) (r : custodyRecord) (p : option proc)
    (sigs : list signal) : Prop :=
  match p with
  | Some p => started_inv faulty r p sigs
  | None => failed_inv r sigs
  end.

Record sys_inv (faulty : Prop) (s : sys) : Prop := {
  g_loc : ∀ l r, rows (cust s) !! l = Some r →
    loc_inv faulty r (procs s !! l) (signals_of l (sent s));
  g_procs : ∀ l, rows (cust s) !! l = None → procs s !! l = None ∧ signals_of l (sent s) = [];
  g_handle : ∀ h l, byHandle (cust s) !! h = Some l →
    ∃ r, rows (cust s) !! l = Some r ∧ Handle (r_rec r) = h;
  g_reserved : ∀ l r, rows (cust s) !! l = Some r →
    reservations (cust s) !! reservation (Owner (r_rec r)) (Key (r_rec r)) = Some (Handle (r_rec r));
  g_inj : ∀ l l' r r', rows (cust s) !! l = Some r → rows (cust s) !! l' = Some r' →
    Handle (r_rec r) = Handle (r_rec r') → l = l';
  g_sent : ¬ faulty → ∀ x, x ∈ sent s → x.2 = false;
}.

Lemma signals_of_snoc l l' sg b log :
  signals_of l (log ++ [(l', sg, b)])
  = signals_of l log ++ (if decide (l' = l) then [sg] else []).
Proof.
  unfold signals_of. rewrite filter_app, fmap_app. f_equal. unfold filter. simpl.
  by destruct (decide (l' = l)).
Qed.

Lemma lookup_row_Some c h l r :
  lookup_row c h = Some (l, r) ↔ byHandle c !! h = Some l ∧ rows c !! l = Some r.
Proof.
  unfold lookup_row. destruct (byHandle c !! h) as [l'|]; simpl; [|naive_solver].
  destruct (rows c !! l') as [r'|] eqn:E; simpl; naive_solver.
Qed.

(** Changing one row and its goroutines, identity aside. *)
Lemma sys_inv_update faulty s l r r' op ps' :
  sys_inv faulty s → rows (cust s) !! l = Some r → identity r' = identity r →
  ps' !! l = op → (∀ l', l' ≠ l → ps' !! l' = procs s !! l') →
  loc_inv faulty r' op (signals_of l (sent s)) →
  sys_inv faulty (mkSys (with_rows <[l := r']> (cust s)) ps' (sent s)).
Proof.
  intros [H1 H2 H3 H4 H5 H6] Hr Hid Hop Hps Hloc. unfold identity in Hid.
  injection Hid as Hh Ho Hk. split; simpl.
  - intros l1 r1. rewrite lookup_insert_Some. intros [[<- <-]|[Hne Hl]].
    + by rewrite Hop.
    + rewrite Hps by done. auto.
  - intros l1 [Hl Hne]%lookup_insert_None. rewrite Hps by done. auto.
  - intros h l1 Hl. destruct (H3 _ _ Hl) as (r1 & Hr1 & <-).
    destruct (decide (l1 = l)) as [->|Hne].
    + exists r'. rewrite lookup_insert_eq. split; [done|]. congruence.
    + exists r1. by rewrite lookup_insert_ne.
  - intros l1 r1. rewrite lookup_insert_Some. intros [[<- <-]|[Hne Hl]]; [|eauto].
    rewrite Ho, Hk, Hh. eauto.
  - intros l1 l2 r1 r2. rewrite !lookup_insert_Some.
    intros [[<- <-]|[Hn1 Hl1]] [[<- <-]|[Hn2 Hl2]] Heq; [done|..].
    + eapply (H5 l l2); [done|done|]. congruence.
    + eapply (H5 l1 l); [done|done|]. congruence.
    + by eapply (H5 l1 l2).
  - done.
Qed.

(** The steps change one row at a time, and mostly one field of it. *)
Ltac started_inv :=
  match goal with
  | H : started_inv _ _ _ _ |- started_inv _ _ _ _ =>
      destruct H as [Hpid Hfail Hcan Hfl Hstop Hclaim Hanch Hreap Hph Hdone Hlive Hend Htr Hsig];
      split; simpl in *
  end.

Lemma wait_begin_inv faulty r p sigs :
  started_inv faulty r p sigs → p_wait p = WBegin →
  started_inv faulty (wait_begin r) (set_wait WObserve p) sigs.
Proof.
  intros H Hw. unfold wait_begin.
  assert (Hnr : p_reaped p = false).
  { destruct (p_reaped p) eqn:E; [|done]. apply (si_reaped _ _ _ _ H) in E. by rewrite Hw in E. }
  assert (Hnc : r_reapClaimed r = false).
  { destruct (r_reapClaimed r) eqn:E; [|done]. apply (si_claim _ _ _ _ H) in E. rewrite Hw in E. by destruct E. }
  case_bool_decide; started_inv; try done; rewrite ?Hw, ?Hnr, ?Hnc in *; try naive_solver.
Qed.

Lemma not_late_unclaimed faulty r p sigs :
  started_inv faulty r p sigs → late (p_wait p) = false → r_reapClaimed r = false.
Proof.
  intros H Hl. destruct (r_reapClaimed r) eqn:E; [|done].
  apply (si_claim _ _ _ _ H) in E as [_ ?]. congruence.
Qed.

Lemma not_late_not_reaped faulty r p sigs :
  started_inv faulty r p sigs → late (p_wait p) = false → p_reaped p = false.
Proof.
  intros H Hl. destruct (p_reaped p) eqn:E; [|done].
  apply (si_reaped _ _ _ _ H) in E. by destruct (p_wait p).
Qed.

Lemma wait_claim_inv faulty r p sigs :
  started_inv faulty r p sigs → p_wait p = WObserve →
  started_inv faulty (wait_claim r)
    (set_wait (if bool_decide (r_cancelled r = "") then WReap None
               else match r_treeDone r with Some _ => WTree None | None => WReap None end) p) sigs.
Proof.
  intros H Hw. unfold wait_claim.
  assert (Hnr : p_reaped p = false) by (eapply not_late_not_reaped; [done|by rewrite Hw]).
  assert (Hnc : r_reapClaimed r = false) by (eapply not_late_unclaimed; [done|by rewrite Hw]).
  case_bool_decide as Hc.
  - started_inv; try done; rewrite ?Hw, ?Hnr, ?Hnc in *; try naive_solver.
  - pose proof (si_cancelled _ _ _ _ H) as Hcan'.
    destruct (r_treeDone r) as [b|] eqn:Ht; [|by destruct Hc; apply Hcan'].
    started_inv; try done; rewrite ?Hw, ?Hnr, ?Hnc, ?Ht in *; try naive_solver.
Qed.

Lemma observe_error_inv (faulty : Prop) r p sigs e :
  faulty → started_inv faulty r p sigs → p_wait p = WObserve →
  started_inv faulty r
    (set_wait (match r_treeDone r with Some _ => WTree (Some e) | None => WReap (Some e) end) p)
    sigs.
Proof.
  intros Hf H Hw.
  assert (Hnr : p_reaped p = false) by (eapply not_late_not_reaped; [done|by rewrite Hw]).
  assert (Hnc : r_reapClaimed r = false) by (eapply not_late_unclaimed; [done|by rewrite Hw]).
  destruct (r_treeDone r) as [b|] eqn:Ht;
    started_inv; try done; rewrite ?Hw, ?Hnr, ?Hnc, ?Ht in *; try naive_solver.
Qed.

Lemma tree_closed_inv faulty r p sigs obs :
  started_inv faulty r p sigs → p_wait p = WTree obs → r_treeDone r = Some true →
  started_inv faulty r (set_wait (WReap obs) p) sigs.
Proof.
  intros H Hw Ht.
  assert (Hnr : p_reaped p = false) by (eapply not_late_not_reaped; [done|by rewrite Hw]).
  assert (Hnc : r_reapClaimed r = false) by (eapply not_late_unclaimed; [done|by rewrite Hw]).
  started_inv; try done; rewrite ?Hw, ?Hnr, ?Hnc, ?Ht in *; try naive_solver.
Qed.

Lemma reap_inv faulty r p sigs obs w :
  started_inv faulty r p sigs → p_wait p = WReap obs →
  started_inv faulty r (set_reaped (set_wait (WFinish obs w) p)) sigs.
Proof.
  intros H Hw. started_inv; try done; rewrite ?Hw in *; try naive_solver.
Qed.

Lemma finish_inv faulty r p sigs obs w closeErrs :
  started_inv faulty r p sigs → p_wait p = WFinish obs w →
  started_inv faulty (finishWait w obs closeErrs r) (set_wait WEnd p) sigs.
Proof.
  intros H Hw. unfold finishWait.
  destruct (decide (r_cancelled r = "")) as [Hc|Hc];
    [rewrite (bool_decide_eq_true_2 _ Hc)|rewrite (bool_decide_eq_false_2 _ Hc)]; simpl;
    started_inv; try done; rewrite Hw in *; try tauto.
  - intros _. by eapply ended_exit.
  - intros _. eapply ended_cancelled; [done..|]. simpl. intros Hf.
    destruct (Hanch Hf eq_refl) as [Hcl|Ht]; [by apply Hclaim in Hcl as [? _]|].
    apply Hstop in Ht as [k ->]. done.
Qed.

Lemma tree_waited_inv faulty r p sigs s answer :
  started_inv faulty r p sigs → p_tree p = Some (TWait s) →
  started_inv faulty r (set_ptree (Some (tree_waited s answer)) p) sigs.
Proof.
  intros H Hp. started_inv; try done.
  - rewrite <-Hfl, Hp. split; intros _; by eexists.
  - rewrite Hp in Hsig. destruct s, answer; simpl in *; subst; auto.
Qed.

Lemma tree_end_inv faulty r p sigs stop err :
  started_inv faulty r p sigs → p_tree p = Some (TEnd stop err) →
  started_inv faulty (set_tree stop err r) (set_ptree None p) sigs.
Proof.
  intros H Hp.
  assert (Hfl' : r_treeDone r = Some false) by (apply (si_flight _ _ _ _ H); rewrite Hp; done).
  started_inv; try done.
  - rewrite Hcan, Hfl'. done.
  - intros Hf Hl. by right.
  - intros Hw. destruct (Hend Hw) as [e|x e ? ? ? ? ? Hx]; [by eapply ended_exit|].
    eapply ended_cancelled; [done..|]. simpl. intros Hf.
    destruct (Hanch Hf) as [Hcl|?]; [by rewrite Hw| |congruence].
    by apply Hclaim in Hcl as [? _].
  - by rewrite Hp in Hsig.
Qed.

(** Every step of the goroutines of one row keeps its invariant. *)
Lemma local_step_inv faulty r p r' p' sigs :
  started_inv faulty r p sigs → local_step faulty r p r' p' →
  identity r' = identity r ∧ started_inv faulty r' p' sigs.
Proof.
  intros H Hst. destruct Hst.
  - split; [done|]. started_inv; done.
  - split; [unfold wait_begin; by case_bool_decide|by apply wait_begin_inv].
  - split; [unfold wait_claim; by case_bool_decide|by apply wait_claim_inv].
  - split; [done|by apply observe_error_inv].
  - split; [done|by eapply tree_closed_inv].
  - split; [done|by eapply reap_inv].
  - split; [unfold finishWait; by case_bool_decide|by eapply finish_inv].
  - split; [done|by apply tree_waited_inv].
  - split; [done|by apply tree_end_inv].
Qed.

(** A cancellation that begins: nothing has been signalled, and the waiter has
    not claimed the process. *)
Lemma cancel_begin_inv faulty r p sigs reason :
  started_inv faulty r p sigs → reason ≠ "" →
  p_wait p ≠ WEnd → r_reapClaimed r = false → r_treeDone r = None →
  started_inv faulty (set_cancelled reason (Some false) r)
    (set_ptree (Some (TSend SIGTERM)) p) sigs.
Proof.
  intros H Hr Hw Hc Ht.
  assert (Hstop' : r_stop r = None).
  { apply eq_None_not_Some. intros Hx. apply (si_stop _ _ _ _ H) in Hx. congruence. }
  assert (Htree : p_tree p = None).
  { apply eq_None_not_Some. intros Hx. apply (si_flight _ _ _ _ H) in Hx. congruence. }
  started_inv; try done; rewrite ?Hstop', ?Htree, ?Ht, ?Hc in *; try done.
  - intros Hf Hl. destruct (Hanch Hf Hl); congruence.
Qed.

(** A cancellation that finds another under way adds nothing. *)
Lemma cancel_again_id r : set_cancelled (r_cancelled r) (r_treeDone r) r = r.
Proof. by destruct r. Qed.

Lemma tree_send_inv faulty r p sigs s answer :
  started_inv faulty r p sigs → p_tree p = Some (TSend s) →
  started_inv faulty r (set_ptree (Some (tree_sent s answer)) p) (sigs ++ [s]).
Proof.
  intros H Hp. started_inv; try done.
  - rewrite <-Hfl, Hp. split; intros _; by eexists.
  - rewrite Hp in Hsig. destruct s, answer; simpl in *; subst; auto.
Qed.

(** Without observer failures a tree is never signalled after its leader has
    been reaped. *)
Lemma tree_send_unreaped (faulty : Prop) r p sigs s :
  ¬ faulty → started_inv faulty r p sigs → p_tree p = Some (TSend s) → p_reaped p = false.
Proof.
  intros Hf H Hp. destruct (p_reaped p) eqn:E; [|done]. exfalso.
  apply (si_reaped _ _ _ _ H) in E.
  assert (Ht : r_treeDone r = Some false) by (apply (si_flight _ _ _ _ H); by rewrite Hp).
  destruct (si_anchor _ _ _ _ H Hf) as [Hc|?]; [by destruct (p_wait p)| |congruence].
  apply (si_claim _ _ _ _ H) in Hc as [Hc _]. apply (si_cancelled _ _ _ _ H) in Hc. congruence.
Qed.

(** ** The invariant of the system *)

Lemma launched_fresh c c' l : launched c c' = Some l → rows c !! l = None.
Proof.
  unfold launched. destruct (rows c' !! _) as [row|]; [|done].
  destruct (r_pid row); [|done]. intros [= <-]. apply not_elem_of_dom, is_fresh.
Qed.

(** What a launch does: nothing, or a new row under a fresh location. *)
Lemma Launch_cases a owner key spec c c' r :
  Launch a owner key spec c = (c', r) →
  c' = c ∨
  ∃ handle, a_handle a = Some handle ∧
    closed c = false ∧ reservations c !! reservation owner key = None ∧
    r = Ok (r_rec (new_row c a handle owner key spec)) ∧
    c' = mkCustody (root c)
           (<[fresh (dom (rows c)) := new_row c a handle owner key spec]> (rows c))
           (<[handle := fresh (dom (rows c))]> (byHandle c))
           (<[reservation owner key := handle]> (reservations c)) (closed c).
Proof.
  unfold Launch. destruct (is_blank owner || is_blank key); [intros [= <- <-]; by left|].
  destruct (validateLaunchSpec _ _); [|intros [= <- <-]; by left].
  destruct (closed c) eqn:Hcl; [intros [= <- <-]; by left|].
  destruct (reservations c !! reservation owner key) as [h|] eqn:Hres.
  { destruct (byHandle c !! h ≫= _) as [row|]; [|intros [= <- <-]; by left].
    destruct (negb (sameSpec _ _)); intros [= <- <-]; by left. }
  destruct (a_handle a) as [h|]; [|intros [= <- <-]; by left].
  destruct (negb (a_mkdir a)); [intros [= <- <-]; by left|].
  destruct (negb (_ && _)); [intros [= <- <-]; by left|].
  intros [= <- <-]. right. by exists h.
Qed.

Lemma new_row_inv faulty c a handle owner key spec :
  let r := new_row c a handle owner key spec in
  identity r = (handle, owner, key) ∧
  match r_pid r with
  | Some _ => started_inv faulty r new_proc []
  | None => failed_inv r []
  end.
Proof.
  unfold new_row. destruct (a_start a) as [pid|e]; simpl; (split; [done|]).
  - split; simpl; try done; by split; intros [].
  - split; simpl; done.
Qed.

Lemma launched_same c : launched c c = None.
Proof.
  unfold launched. by rewrite (proj1 (not_elem_of_dom _ _) (is_fresh (dom (rows c)))).
Qed.

Lemma step_launch_inv faulty s a owner key spec c' r :
  sys_inv faulty s →
  (∀ h, a_handle a = Some h → ∀ l row, rows (cust s) !! l = Some row → Handle (r_rec row) ≠ h) →
  Launch a owner key spec (cust s) = (c', r) →
  sys_inv faulty
    (mkSys c' (match launched (cust s) c' with
               | Some l => <[l := new_proc]> (procs s)
               | None => procs s
               end) (sent s)).
Proof.
  intros Hs Hfresh Hl. pose proof Hs as [H1 H2 H3 H4 H5 H6].
  apply Launch_cases in Hl as [->|(h & Hh & _ & Hres & _ & ->)].
  { rewrite launched_same. by destruct s. }
  specialize (Hfresh h Hh).
  set (l := fresh (dom (rows (cust s)))). set (row := new_row _ _ _ _ _ _).
  assert (Hl : rows (cust s) !! l = None) by apply not_elem_of_dom, is_fresh.
  destruct (H2 l Hl) as [Hp Hsig].
  destruct (new_row_inv faulty (cust s) a h owner key spec) as [Hid Hinv]. fold row in Hid, Hinv.
  unfold identity in Hid. injection Hid as Hih Hio Hik.
  set (ps := match launched _ _ with Some _ => _ | None => _ end).
  assert (Hps : ∀ l', l' ≠ l → ps !! l' = procs s !! l').
  { intros l' Hne. unfold ps, launched. fold l. simpl. rewrite lookup_insert_eq.
    destruct (r_pid row); [|done]. by rewrite lookup_insert_ne. }
  assert (Hloc : loc_inv faulty row (ps !! l) (signals_of l (sent s))).
  { rewrite Hsig. unfold ps, launched. fold l. simpl. rewrite lookup_insert_eq.
    destruct (r_pid row); [by rewrite lookup_insert_eq|by rewrite Hp]. }
  split; simpl.
  - intros l1 r1. rewrite lookup_insert_Some. intros [[<- <-]|[Hne Hr1]]; [done|].
    rewrite Hps by done. auto.
  - intros l1 [Hn Hne]%lookup_insert_None. rewrite Hps by done. auto.
  - intros h1 l1. rewrite lookup_insert_Some. intros [[<- <-]|[Hne Hl1]].
    + exists row. by rewrite lookup_insert_eq.
    + destruct (H3 _ _ Hl1) as (r1 & Hr1 & <-). exists r1.
      rewrite lookup_insert_ne; [done|]. intros <-. congruence.
  - intros l1 r1. rewrite lookup_insert_Some. intros [[<- <-]|[Hne Hr1]].
    + rewrite Hio, Hik, Hih. by rewrite lookup_insert_eq.
    + rewrite lookup_insert_ne; [eauto|]. intros Heq. apply H4 in Hr1. congruence.
  - intros l1 l2 r1 r2. rewrite !lookup_insert_Some.
    intros [[<- <-]|[Hn1 Hl1]] [[<- <-]|[Hn2 Hl2]] Heq; [done|..].
    + destruct (Hfresh _ _ Hl2). congruence.
    + destruct (Hfresh _ _ Hl1). congruence.
    + by eapply (H5 l1 l2).
  - done.
Qed.

Lemma loc_inv_tree faulty r op sigs :
  loc_inv faulty r op sigs → (Phase (r_rec r) ≠ PTerminal ∨ r_treeDone r ≠ None) →
  ∃ p, op = Some p ∧ started_inv faulty r p sigs.
Proof.
  intros H Hn. destruct op as [p|]; [by eauto|]. destruct H as [? _ _ ? _]. by destruct Hn.
Qed.

Lemma loc_inv_cancelled faulty r op sigs :
  loc_inv faulty r op sigs → Phase (r_rec r) ≠ PTerminal → r_cancelled r = "" →
  r_reapClaimed r = false →
  ∃ p pid, op = Some p ∧ r_pid r = Some pid ∧ r_treeDone r = None
    ∧ ∀ reason, reason ≠ "" →
      started_inv faulty (set_cancelled reason (Some false) r)
        (set_ptree (Some (TSend SIGTERM)) p) sigs.
Proof.
  intros H Hph Hc Hcl. apply loc_inv_tree in H as (p & -> & H); [|by left].
  destruct (si_pid _ _ _ _ H) as [pid Hpid].
  assert (r_treeDone r = None) by by apply (si_cancelled _ _ _ _ H).
  exists p, pid. split_and!; [done..|]. intros reason Hr.
  apply cancel_begin_inv; try done. by rewrite <-(si_phase _ _ _ _ H).
Qed.

(** What the critical section of [Cancel] does to a sound object. *)
Lemma Cancel_begin_cases faulty s owner handle :
  sys_inv faulty s →
  (Cancel_begin owner handle (cust s)).1 = cust s
    ∧ (∀ l pid r, (Cancel_begin owner handle (cust s)).2 ≠ CancelTerminate l pid r)
  ∨ ∃ l r p pid,
      rows (cust s) !! l = Some r ∧ procs s !! l = Some p ∧ Owner (r_rec r) = owner
      ∧ Cancel_begin owner handle (cust s)
        = (with_rows <[l := set_cancelled "cancelled by owner" (Some false) r]> (cust s),
           CancelTerminate l pid (r_rec r))
      ∧ started_inv faulty (set_cancelled "cancelled by owner" (Some false) r)
          (set_ptree (Some (TSend SIGTERM)) p) (signals_of l (sent s)).
Proof.
  intros Hs. unfold Cancel_begin. destruct (lookup_row _ _) as [[l r]|] eqn:Hl; [|by left].
  apply lookup_row_Some in Hl as [_ Hr]. pose proof (g_loc _ _ Hs l r Hr) as Hloc.
  case_bool_decide as Ho; simpl; [|by left].
  destruct (bool_decide (Phase (r_rec r) = PTerminal)
            && bool_decide (r_treeDone r = None)) eqn:Ht; [by left|].
  destruct (r_reapClaimed r) eqn:Hcl; [by left|].
  apply andb_false_iff in Ht. rewrite !bool_decide_eq_false in Ht.
  apply loc_inv_tree in Hloc as Hloc'; [|done]. destruct Hloc' as (p & Hp & Hst).
  case_bool_decide as Hc; [|left; by destruct (r_treeDone r)].
  apply (si_cancelled _ _ _ _ Hst) in Hc as Htd.
  destruct Ht as [Ht|Ht]; [|done].
  destruct (loc_inv_cancelled _ _ _ _ Hloc Ht Hc Hcl) as (p' & pid & Hp' & -> & _ & Hok).
  rewrite Hp in Hp'. injection Hp' as <-.
  right. exists l, r, p, pid. split_and!; [done..|by apply Hok].
Qed.

Lemma step_cancel_inv faulty s owner handle c' plan :
  sys_inv faulty s → Cancel_begin owner handle (cust s) = (c', plan) →
  sys_inv faulty
    (mkSys c' (match plan with
               | CancelTerminate l _ _ => alter (set_ptree (Some (TSend SIGTERM))) l (procs s)
               | _ => procs s
               end) (sent s)).
Proof.
  intros Hs Hc.
  destruct (Cancel_begin_cases faulty s owner handle Hs)
    as [[H1 H2]|(l & r & p & pid & Hr & Hp & _ & Heq & Hok)].
  - rewrite Hc in H1, H2. simpl in *. subst c'.
    destruct plan; [by destruct s..|by destruct (H2 l pid r)|by destruct s].
  - rewrite Heq in Hc. injection Hc as <- <-.
    eapply sys_inv_update; [done|done|done|by rewrite lookup_alter_eq, Hp| |exact Hok].
    intros l' Hne. by rewrite lookup_alter_ne.
Qed.

Lemma step_acknowledge_inv faulty s remove_ok owner handle c' r :
  sys_inv faulty s → Acknowledge remove_ok owner handle (cust s) = (c', r) →
  sys_inv faulty (mkSys c' (procs s) (sent s)).
Proof.
  intros Hs. unfold Acknowledge. destruct (lookup_row _ _) as [[l row]|];
    [|intros [= <- <-]; by destruct s].
  destruct (negb _); [intros [= <- <-]; by destruct s|].
  destruct (negb _); [intros [= <- <-]; by destruct s|].
  destruct (negb _); intros [= <- <-]; [by destruct s|].
  destruct Hs as [H1 H2 H3 H4 H5 H6]. split; simpl; [done| |..|done].
  - done.
  - intros h l' [_ Hl']%lookup_delete_Some. by apply H3.
  - done.
  - done.
Qed.

Lemma shutdown_row_inv faulty r op sigs :
  loc_inv faulty r op sigs →
  identity (shutdown_row r).1 = identity r ∧
  loc_inv faulty (shutdown_row r).1
    (if (shutdown_row r).2 then set_ptree (Some (TSend SIGTERM)) <$> op else op) sigs.
Proof.
  intros H. unfold shutdown_row. case_bool_decide as Hph; [done|].
  destruct (r_reapClaimed r) eqn:Hcl; [done|].
  destruct (loc_inv_tree _ _ _ _ H (or_introl Hph)) as (p & -> & Hst).
  destruct (si_pid _ _ _ _ Hst) as [pid Hpid]. rewrite Hpid. simpl.
  split; [done|]. case_bool_decide as Hc.
  - destruct (loc_inv_cancelled _ _ _ _ H Hph Hc Hcl) as (p' & _ & [= <-] & _ & Htd & Hok).
    rewrite Htd. simpl. by apply Hok.
  - case_bool_decide as Htd; [by destruct Hc; apply (si_cancelled _ _ _ _ Hst)|].
    simpl. by rewrite cancel_again_id.
Qed.

Lemma step_shutdown_inv faulty s :
  sys_inv faulty s →
  sys_inv faulty
    (mkSys (Shutdown_begin (cust s))
           (map_imap (λ l p, Some (if bool_decide (l ∈ shutdown_starts (cust s))
                                   then set_ptree (Some (TSend SIGTERM)) p else p)) (procs s))
           (sent s)).
Proof.
  intros [H1 H2 H3 H4 H5 H6].
  set (f := λ (l : nat) (row : custodyRecord),
    if bool_decide (l ∈ held (cust s)) then (shutdown_row row).1 else row).
  assert (Hrow : ∀ l r', rows (Shutdown_begin (cust s)) !! l = Some r' →
    ∃ r, rows (cust s) !! l = Some r ∧ r' = f l r ∧ identity r' = identity r).
  { intros l r'. simpl. rewrite map_lookup_imap.
    destruct (rows (cust s) !! l) as [r|] eqn:Hr; simpl; [|done]. intros [= <-].
    exists r. split_and!; [done..|]. unfold f. case_bool_decide; [|done].
    by destruct (shutdown_row_inv _ _ _ _ (H1 l r Hr)). }
  split; simpl.
  - intros l r' (r & Hr & -> & _)%Hrow. rewrite map_lookup_imap. unfold f.
    pose proof (shutdown_row_inv _ _ _ _ (H1 l r Hr)) as [_ Hok].
    unfold shutdown_starts. rewrite (bool_decide_ext (l ∈ filter _ _)
      (starts_tree (cust s) l = true ∧ l ∈ held (cust s))) by by rewrite elem_of_filter.
    unfold starts_tree. rewrite Hr.
    destruct (decide (l ∈ held (cust s))) as [Hin|Hin].
    + rewrite (bool_decide_eq_true_2 _ Hin). destruct ((shutdown_row r).2).
      * rewrite bool_decide_eq_true_2 by done. by destruct (procs s !! l).
      * rewrite bool_decide_eq_false_2 by naive_solver. by destruct (procs s !! l).
    + rewrite (bool_decide_eq_false_2 _ Hin), bool_decide_eq_false_2 by naive_solver.
      pose proof (H1 l r Hr). by destruct (procs s !! l).
  - intros l. rewrite !map_lookup_imap. destruct (rows (cust s) !! l) eqn:Hl; [done|].
    destruct (H2 l Hl) as [-> ->]. done.
  - intros h l Hh. destruct (H3 _ _ Hh) as (r & Hr & <-). exists (f l r).
    rewrite map_lookup_imap, Hr. split; [done|]. unfold f. case_bool_decide; [|done].
    destruct (shutdown_row_inv _ _ _ _ (H1 l r Hr)) as [Hid _]. unfold identity in Hid. congruence.
  - intros l r' (r & Hr & _ & Hid)%Hrow. unfold identity in Hid. injection Hid as -> -> ->.
    by apply (H4 l).
  - intros l1 l2 r1 r2 (r1' & Hr1 & _ & Hid1)%Hrow (r2' & Hr2 & _ & Hid2)%Hrow Heq.
    unfold identity in *. eapply (H5 l1 l2); [done..|]. congruence.
  - done.
Qed.

Lemma step_send_inv faulty s l p sg answer :
  sys_inv faulty s → procs s !! l = Some p → p_tree p = Some (TSend sg) →
  sys_inv faulty
    (mkSys (cust s) (<[l := set_ptree (Some (tree_sent sg answer)) p]> (procs s))
           (sent s ++ [(l, sg, p_reaped p)])).
Proof.
  intros [H1 H2 H3 H4 H5 H6] Hp Ht.
  assert (∃ r, rows (cust s) !! l = Some r) as [r Hr].
  { destruct (rows (cust s) !! l) eqn:E; [by eexists|]. destruct (H2 l E). congruence. }
  pose proof (H1 l r Hr) as Hst. rewrite Hp in Hst. simpl in Hst.
  split; simpl; [| |done..|].
  - intros l1 r1 Hr1. rewrite signals_of_snoc. destruct (decide (l = l1)) as [<-|Hne].
    + rewrite lookup_insert_eq. rewrite Hr in Hr1. injection Hr1 as <-. by apply tree_send_inv.
    + rewrite lookup_insert_ne, app_nil_r by done. auto.
  - intros l1 Hl1. assert (l ≠ l1) by congruence.
    rewrite lookup_insert_ne, signals_of_snoc, decide_False, app_nil_r by done. auto.
  - intros Hf x. rewrite elem_of_app, list_elem_of_singleton. intros [?| ->]; [auto|].
    simpl. by eapply tree_send_unreaped.
Qed.

Lemma step_inv faulty s s' : sys_inv faulty s → step faulty s s' → sys_inv faulty s'.
Proof.
  intros Hs Hst. destruct Hst.
  - by eapply step_launch_inv.
  - by eapply step_cancel_inv.
  - by eapply step_acknowledge_inv.
  - by apply step_shutdown_inv.
  - pose proof (g_loc _ _ Hs l r ltac:(done)) as Hloc. rewrite H0 in Hloc. simpl in Hloc.
    destruct (local_step_inv _ _ _ _ _ _ Hloc H1) as [Hid Hloc'].
    eapply sys_inv_update; [done|done|done|by rewrite lookup_insert_eq| |exact Hloc'].
    intros l' Hne. by rewrite lookup_insert_ne.
  - by apply step_send_inv.
Qed.

Lemma init_sys_inv faulty rootDir : sys_inv faulty (init_sys rootDir).
Proof. split; simpl; try done. intros _ x ?%elem_of_nil. done. Qed.

Lemma reachable_sys_inv faulty rootDir s :
  rtc (step faulty) (init_sys rootDir) s → sys_inv faulty s.
Proof.
  intros Hr. eapply (rtc_invariant (step faulty) (sys_inv faulty)); [|apply init_sys_inv|done].
  intros x y. apply step_inv.
Qed.

(** ** Progress *)

Definition wait_rank (w : wait_pc) : nat :=
  match w with
  | WBegin => 5 | WObserve => 4 | WTree _ => 3 | WReap _ => 2 | WFinish _ _ => 1 | WEnd => 0
  end.

Definition tree_rank (t : option tree_pc) : nat :=
  match t with
  | Some (TSend SIGTERM) => 5 | Some (TWait SIGTERM) => 4
  | Some (TSend SIGKILL) => 3 | Some (TWait SIGKILL) => 2
  | Some (TEnd _ _) => 1 | None => 0
  end.

(** What is left to do for a row. *)
Definition rank (p : proc) : nat := wait_rank (p_wait p) + tree_rank (p_tree p).

Definition at_row (s : sys) (l : nat) (r : custodyRecord) (p : proc) : Prop :=
  rows (cust s) !! l = Some r ∧ procs s !! l = Some p.

Lemma local_at faulty s l r p r' p' :
  at_row s l r p → local_step faulty r p r' p' →
  ∃ s', step faulty s s' ∧ at_row s' l r' p'.
Proof.
  intros [Hr Hp] Hst. eexists. split; [by eapply step_local|].
  split; simpl; by rewrite lookup_insert_eq.
Qed.

(** A row whose process has exited and that is not terminal has a step of its
    own goroutines, and that step leaves less to do. *)
Lemma row_progress faulty s l r p :
  sys_inv faulty s → at_row s l r p → p_exited p = true → p_wait p ≠ WEnd →
  ∃ s' r' p', step faulty s s' ∧ at_row s' l r' p' ∧ p_exited p' = true ∧ rank p' < rank p.
Proof.
  intros Hs Hat Hex Hw. pose proof Hat as [Hr Hp].
  pose proof (g_loc _ _ Hs l r Hr) as Hst. rewrite Hp in Hst. simpl in Hst.
  assert (Hlocal : ∀ r' p', local_step faulty r p r' p' → p_exited p' = true →
            rank p' < rank p →
            ∃ s' r' p', step faulty s s' ∧ at_row s' l r' p' ∧ p_exited p' = true
              ∧ rank p' < rank p).
  { intros r' p' Hl He Hrk. destruct (local_at _ _ _ _ _ _ _ Hat Hl) as (s' & ? & ?).
    by exists s', r', p'. }
  unfold rank in *. destruct (p_wait p) as [| |obs|obs|obs w|] eqn:Hwt; [| | | | |done].
  - eapply Hlocal; [by apply step_begin|done|simpl; lia].
  - eapply Hlocal; [by apply step_observed|done|simpl].
    case_bool_decide; [simpl; lia|]. destruct (r_treeDone r); simpl; lia.
  - destruct (r_treeDone r) as [[|]|] eqn:Htd.
    + eapply Hlocal; [by eapply step_tree_closed|done|simpl; lia].
    + apply (si_flight _ _ _ _ Hst) in Htd as [t Ht]. destruct t as [sg|sg|k e].
      * eexists _, r, _. split_and!; [by eapply (step_send faulty s l p sg None)| | |].
        -- split; simpl; [done|by rewrite lookup_insert_eq].
        -- done.
        -- simpl. rewrite Hwt, Ht. destruct sg; simpl; lia.
      * eapply Hlocal; [by apply (step_waited _ r p sg Gone)|done|].
        simpl. rewrite Hwt, Ht. destruct sg; simpl; lia.
      * eapply Hlocal; [by eapply step_tree_end|done|]. simpl. rewrite Hwt, Ht. simpl. lia.
    + destruct (si_tree _ _ _ _ Hst); [by rewrite Hwt|done].
  - eapply Hlocal; [by apply (step_reap _ r p obs (mkWait (Some (0%Z, None)) None))|done|simpl; lia].
  - eapply Hlocal; [by apply (step_finish _ r p obs w [])|done|simpl; lia].
Qed.

Lemma row_terminates faulty n s l r p :
  sys_inv faulty s → at_row s l r p → p_exited p = true → rank p ≤ n →
  ∃ s' r', rtc (step faulty) s s' ∧ rows (cust s') !! l = Some r' ∧ Phase (r_rec r') = PTerminal.
Proof.
  revert s r p. induction n as [n IH] using lt_wf_ind. intros s r p Hs Hat Hex Hn.
  pose proof Hat as [Hr Hp]. pose proof (g_loc _ _ Hs l r Hr) as Hst.
  rewrite Hp in Hst. simpl in Hst.
  destruct (decide (Phase (r_rec r) = PTerminal)) as [Ht|Ht]; [by exists s, r|].
  rewrite (si_phase _ _ _ _ Hst) in Ht.
  destruct (row_progress faulty s l r p Hs Hat Hex Ht) as (s1 & r1 & p1 & Hstep & Hat1 & Hex1 & Hlt).
  destruct (IH (rank p1) ltac:(lia) s1 r1 p1 (step_inv _ _ _ Hs Hstep) Hat1 Hex1 ltac:(lia))
    as (s' & r' & Hrun & Hr' & Ht').
  exists s', r'. split; [by eapply rtc_l|done].
Qed.

(** *** A terminal row is never changed again *)

Definition final (l : nat) (rc : Rec) (s : sys) : Prop :=
  ∃ r, rows (cust s) !! l = Some r ∧ r_rec r = rc ∧ Phase rc = PTerminal.

Lemma local_final faulty r p r' p' sigs :
  started_inv faulty r p sigs → local_step faulty r p r' p' →
  Phase (r_rec r) = PTerminal → r_rec r' = r_rec r.
Proof.
  intros H Hst Ht. apply (si_phase _ _ _ _ H) in Ht.
  destruct Hst; try done; congruence.
Qed.

Lemma shutdown_row_rec r : r_rec (shutdown_row r).1 = r_rec r.
Proof.
  unfold shutdown_row. case_bool_decide; [done|]. destruct (r_reapClaimed r); [done|].
  by destruct (r_pid r).
Qed.

Lemma final_step faulty s s' l rc :
  sys_inv faulty s → step faulty s s' → final l rc s → final l rc s'.
Proof.
  intros Hs Hst (r & Hr & Hrc & Ht). destruct Hst as
    [s a owner key spec c' res Hfresh HL|s owner handle c' plan HC|s ok owner handle c' res HA
    |s|s l1 r1 p1 r1' p1' Hr1 Hp1 Hl|s l1 p1 sg answer Hp1 Htr]; unfold final; simpl.
  - apply Launch_cases in HL as [->|(h & _ & _ & _ & _ & ->)]; [by exists r|].
    exists r. simpl. rewrite lookup_insert_ne; [done|]. intros Heq.
    assert (Hx : rows (cust s) !! l = None); [|congruence].
    rewrite <-Heq. apply not_elem_of_dom, is_fresh.
  - destruct (Cancel_begin_cases faulty s owner handle Hs)
      as [[H1 _]|(l2 & r2 & p2 & pid & Hr2 & _ & _ & Heq & _)].
    + rewrite HC in H1. simpl in H1. subst c'. by exists r.
    + rewrite Heq in HC. injection HC as <- _. simpl.
      destruct (decide (l2 = l)) as [->|Hne].
      * exists (set_cancelled "cancelled by owner" (Some false) r2).
        rewrite lookup_insert_eq. split; [done|]. simpl.
        rewrite Hr2 in Hr. injection Hr as ->. done.
      * exists r. by rewrite lookup_insert_ne.
  - unfold Acknowledge in HA. destruct (lookup_row _ _) as [[]|];
      [repeat case_match|]; injection HA as <- _; by exists r.
  - exists (if bool_decide (l ∈ held (cust s)) then (shutdown_row r).1 else r).
    rewrite map_lookup_imap, Hr. split; [done|].
    case_bool_decide; [by rewrite shutdown_row_rec|done].
  - destruct (decide (l1 = l)) as [->|Hne].
    + exists r1'. rewrite lookup_insert_eq. rewrite Hr in Hr1. injection Hr1 as <-.
      pose proof (g_loc _ _ Hs l r Hr) as Hloc. rewrite Hp1 in Hloc. simpl in Hloc.
      rewrite (local_final _ _ _ _ _ _ Hloc Hl); [done|congruence].
    + exists r. by rewrite lookup_insert_ne.
  - by exists r.
Qed.

(** ** What custody promises *)

(** C4: in every state the program can reach, an unfinished record carries no
    outcome and a terminal one carries exactly one of an exit, a cancellation
    and a launch failure; and whatever happens next (launches, cancellations,
    acknowledgement, shutdown, the goroutines), the record of a terminal row is
    never written again. *)
Theorem terminal_outcome rootDir s l r :
  rtc (step True) (init_sys rootDir) s → rows (cust s) !! l = Some r →
  (Phase (r_rec r) ≠ PTerminal →
     Exit (r_rec r) = None ∧ Cancellation (r_rec r) = None ∧ LaunchFailure (r_rec r) = None) ∧
  (Phase (r_rec r) = PTerminal →
     length (option_list (Exit (r_rec r))) + length (option_list (Cancellation (r_rec r)))
     + length (option_list (LaunchFailure (r_rec r))) = 1 ∧
     ∀ s', rtc (step True) s s' →
       ∃ r', rows (cust s') !! l = Some r' ∧ r_rec r' = r_rec r).
Proof.
  intros Hreach Hr. pose proof (reachable_sys_inv _ _ _ Hreach) as Hs.
  pose proof (g_loc _ _ Hs l r Hr) as Hloc. split.
  - intros Hph. destruct (loc_inv_tree _ _ _ _ Hloc (or_introl Hph)) as (p & _ & H).
    rewrite (si_phase _ _ _ _ H) in Hph. destruct (si_live _ _ _ _ H Hph).
    split_and!; [done..|]. by apply (si_failure _ _ _ _ H).
  - intros Hph. split.
    + destruct (procs s !! l) as [p|]; simpl in Hloc.
      * rewrite (si_failure _ _ _ _ Hloc).
        apply (si_phase _ _ _ _ Hloc), (si_ended _ _ _ _ Hloc) in Hph.
        destruct Hph as [e _ -> ->|x e _ -> -> _ _ _]; done.
      * destruct (fi_exit _ _ Hloc) as [-> ->]. by destruct (fi_failure _ _ Hloc) as [m ->].
    + intros s' Hrun. assert (Hf : final l (r_rec r) s) by by exists r.
      clear Hr Hloc Hreach. revert Hs Hf.
      induction Hrun as [s|s s1 s' Hstep _ IH]; intros Hs Hf.
      * destruct Hf as (r' & ? & ? & _). by exists r'.
      * apply IH; [by eapply step_inv|by eapply final_step].
Qed.


(** C3: as long as the exit observer does not fail, no signal is ever sent to a
    process group whose leader has been reaped, each tree is sent at most one
    SIGTERM and then one SIGKILL, and the outcome kept in a terminal record is
    the true account of them: an ordinary exit had no signal, a graceful stop
    SIGTERM only, a forced one both. *)
Theorem signals_safe rootDir s l r :
  rtc (step False) (init_sys rootDir) s → rows (cust s) !! l = Some r →
  (∀ x, x ∈ sent s → x.2 = false) ∧
  (signals_of l (sent s) = [] ∨ signals_of l (sent s) = [SIGTERM]
   ∨ signals_of l (sent s) = [SIGTERM; SIGKILL]) ∧
  (Phase (r_rec r) = PTerminal →
     match Cancellation (r_rec r) with
     | Some x => stop_signals (Stop x) (signals_of l (sent s))
     | None => signals_of l (sent s) = []
     end).
Proof.
  intros Hreach Hr. pose proof (reachable_sys_inv _ _ _ Hreach) as Hs.
  pose proof (g_loc _ _ Hs l r Hr) as Hloc. assert (Hf : ¬ False) by (by intros []). split_and!.
  - by apply (g_sent _ _ Hs).
  - destruct (procs s !! l) as [p|]; simpl in Hloc; [|left; by destruct Hloc].
    pose proof (si_signals _ _ _ _ Hloc) as Hsig. unfold tree_signals, stop_signals in Hsig.
    destruct (p_tree p) as [[[]|[]|[] ?]|], (r_stop r) as [[]|]; tauto.
  - intros Hph. destruct (procs s !! l) as [p|]; simpl in Hloc.
    2:{ destruct (fi_exit _ _ Hloc) as [_ ->]. by destruct Hloc. }
    apply (si_phase _ _ _ _ Hloc) in Hph as Hw.
    pose proof (si_ended _ _ _ _ Hloc Hw) as Hend.
    pose proof (si_signals _ _ _ _ Hloc) as Hsig.
    assert (Htree : p_tree p = None).
    { apply eq_None_not_Some. intros Hx. apply (si_flight _ _ _ _ Hloc) in Hx.
      destruct (si_anchor _ _ _ _ Hloc Hf) as [Hc|?]; [by rewrite Hw| |congruence].
      apply (si_claim _ _ _ _ Hloc) in Hc as [Hc _].
      apply (si_cancelled _ _ _ _ Hloc) in Hc. congruence. }
    rewrite Htree in Hsig. simpl in Hsig.
    destruct Hend as [e Hc _ ->|x e _ _ -> _ _ Hx].
    + assert (Hn : r_stop r = None); [|by rewrite Hn in Hsig].
      apply eq_None_not_Some. intros Hx. apply (si_stop _ _ _ _ Hloc) in Hx.
      apply (si_cancelled _ _ _ _ Hloc) in Hc. congruence.
    + by rewrite (Hx Hf) in Hsig.
Qed.


(** *** Stopping a tree *)

(** The steps of the goroutine, with the answers the system gives. *)
Fixpoint tree_run (fuel : nat) (signalGroup : signal → option string)
    (waitGone : signal → gone_answer) (t : tree_pc) : option (stop_kind * option string) :=
  match fuel with
  | 0 => None
  | S fuel =>
      match t with
      | TSend s => tree_run fuel signalGroup waitGone (tree_sent s (signalGroup s))
      | TWait s => tree_run fuel signalGroup waitGone (tree_waited s (waitGone s))
      | TEnd stop err => Some (stop, err)
      end
  end.

(** the steps the system takes to stop a tree, run from the first signal,
    end within five steps with exactly the pair that
    [terminateProcessTreeWithSignal] returns; and a nil error goes with a
    graceful or forced stop and only with one. *)
Theorem terminate_steps signalGroup waitGone :
  tree_run 5 signalGroup waitGone (TSend SIGTERM)
  = Some (terminateProcessTreeWithSignal signalGroup waitGone) ∧
  ((terminateProcessTreeWithSignal signalGroup waitGone).2 = None ↔
   (terminateProcessTreeWithSignal signalGroup waitGone).1 ≠ StopUncertain).
Proof.
  unfold terminateProcessTreeWithSignal. simpl.
  destruct (signalGroup SIGTERM); simpl; [by split|].
  destruct (waitGone SIGTERM); simpl; [by split| |by split].
  destruct (signalGroup SIGKILL); simpl; [by split|].
  destruct (waitGone SIGKILL); by split.
Qed.

(** *** Launch specifications *)

(** What both the parser and the launcher require. *)
Record wf_spec (spec : LaunchSpec) : Prop := {
  wf_argv : Argv spec ≠ [] ∧ ∀ s, s ∈ Argv spec → is_blank s = false;
  wf_cwd : IsAbs (CWD spec) = true ∧ is_blank (CWD spec) = false;
  wf_env : ∀ k, is_Some (Env spec !! k) → is_blank k = false;
}.

(** The object a client sends for a specification. *)
Definition encode_spec (spec : LaunchSpec) : gmap string value :=
  <["argv" := VStrings (Argv spec)]> (<["cwd" := VString (CWD spec)]>
    (<["env" := VStringMap (Env spec)]>
      (<["stdin" := match Stdin spec with Some s => VString s | None => VNil end]> ∅))).

Lemma parse_argv_ok i l argv :
  parse_argv i l = Ok argv ↔ l = VString <$> argv ∧ ∀ s, s ∈ argv → is_blank s = false.
Proof.
  revert i argv. induction l as [|v l IH]; intros i argv; simpl.
  - split; [intros [= <-]; split; [done|by intros s ?%elem_of_nil]|].
    by intros [H _]; destruct argv.
  - destruct v as [| | |s| | | |];
      try (split; [done|by intros [H _]; destruct argv]).
    split.
    + intros H. inv_ok. bools. destruct (parse_argv (S i) l) as [rest|] eqn:E; [|done].
      simpl in *. inv_ok. apply IH in E as [-> Hr]. split; [done|].
      intros s' [->|?]%elem_of_cons; auto.
    + intros [Heq Hall]. destruct argv as [|a argv]; simplify_eq/=.
      rewrite (Hall a) by by left. simpl.
      assert (parse_argv (S i) (VString <$> argv) = Ok argv) as ->; [|done].
      apply IH. split; [done|]. intros s Hs. apply Hall. by right.
Qed.

Lemma as_string_Some v s : as_string v = Some s ↔ v = Some (VString s).
Proof. destruct v as [[]|]; simpl; naive_solver. Qed.

Lemma parse_env_wf v env k :
  parse_env v = Ok env → is_Some (env !! k) → is_blank k = false.
Proof.
  destruct v as [raw|]; simpl.
  - destruct (env_entries raw) as [entries|]; [|done]. intros H [x Hx]. inv_ok.
    rewrite lookup_omap in Hx. destruct (entries !! k) as [e|] eqn:He; [|done].
    rewrite forallb_forall in H.
    assert (Hin : In (k, e) (map_to_list entries)) by by apply list_elem_of_In, elem_of_map_to_list.
    apply H in Hin. unfold env_entry_ok in Hin. bools. done.
  - intros [= <-] [x Hx]. by rewrite lookup_empty in Hx.
Qed.

Lemma omap_fmap_string (m : gmap string string) :
  omap (λ v, as_string (Some v)) (VString <$> m) = m.
Proof. apply map_eq. intros k. rewrite lookup_omap, lookup_fmap. by destruct (m !! k). Qed.

Lemma parse_env_encode m :
  (∀ k, is_Some (m !! k) → is_blank k = false) → parse_env (Some (VStringMap m)) = Ok m.
Proof.
  intros H. simpl.
  assert (forallb env_entry_ok (map_to_list (VString <$> m)) = true) as ->.
  { apply forallb_forall. intros [k v] Hin. apply list_elem_of_In, elem_of_map_to_list in Hin.
    rewrite lookup_fmap in Hin. destruct (m !! k) as [s|] eqn:E; simplify_eq/=.
    unfold env_entry_ok. simpl. rewrite H by by rewrite E. done. }
  simpl. by rewrite omap_fmap_string.
Qed.

Lemma encode_lookups spec :
  encode_spec spec !! "argv" = Some (VStrings (Argv spec)) ∧
  encode_spec spec !! "cwd" = Some (VString (CWD spec)) ∧
  encode_spec spec !! "env" = Some (VStringMap (Env spec)) ∧
  encode_spec spec !! "stdin"
  = Some (match Stdin spec with Some s => VString s | None => VNil end) ∧
  ∀ k v, encode_spec spec !! k = Some v → k ∈ known_fields.
Proof.
  unfold encode_spec. split_and!.
  - by rewrite lookup_insert_eq.
  - rewrite lookup_insert_ne by discriminate. by rewrite lookup_insert_eq.
  - rewrite !lookup_insert_ne by discriminate. by rewrite lookup_insert_eq.
  - rewrite !lookup_insert_ne by discriminate. by rewrite lookup_insert_eq.
  - intros k v. rewrite !lookup_insert_Some, lookup_empty. unfold known_fields.
    rewrite !elem_of_cons. naive_solver.
Qed.

Lemma parse_encode spec : wf_spec spec → ParseLaunchSpec (Some (encode_spec spec)) = Ok spec.
Proof.
  intros [[Ha1 Ha2] [Hc1 Hc2] He]. unfold ParseLaunchSpec.
  destruct (encode_lookups spec) as (-> & -> & -> & -> & Hk).
  assert (forallb (λ kv : string * value, bool_decide (kv.1 ∈ known_fields))
            (map_to_list (encode_spec spec)) = true) as ->.
  { apply forallb_forall. intros [k v] Hin. apply list_elem_of_In, elem_of_map_to_list in Hin.
    apply bool_decide_eq_true. by eapply Hk. }
  cbn [argv_items as_string ensure mbind result_bind].
  rewrite bool_decide_eq_false_2 by by destruct (Argv spec).
  assert (parse_argv 0 (VString <$> Argv spec) = Ok (Argv spec)) as -> by by apply parse_argv_ok.
  rewrite (parse_env_encode (Env spec) He). simpl. rewrite Hc1, Hc2. simpl.
  by destruct spec as [? ? ? [?|]].
Qed.

Lemma validateLaunchSpec_ok stat spec u :
  validateLaunchSpec stat spec = Ok u ↔
  Argv spec ≠ [] ∧ (∀ s, s ∈ Argv spec → is_blank s = false) ∧ IsAbs (CWD spec) = true
  ∧ stat (CWD spec) = StatDir ∧ ∀ k, is_Some (Env spec !! k) → is_blank k = false.
Proof.
  assert (Hargv : check_from (λ i arg, ensure (negb (is_blank arg)) (SpecArgv i)) 0 (Argv spec)
                  = Ok tt ↔ ∀ s, s ∈ Argv spec → is_blank s = false).
  { rewrite check_from_ok. setoid_rewrite ensure_ok. setoid_rewrite negb_true_iff. split.
    - intros H s [i Hi]%list_elem_of_lookup. by apply (H i).
    - intros H i s Hi. apply H. by eapply list_elem_of_lookup_2. }
  assert (Henv : forallb (λ kv : string * string, negb (is_blank kv.1)) (map_to_list (Env spec))
                 = true ↔ ∀ k, is_Some (Env spec !! k) → is_blank k = false).
  { rewrite forallb_forall. split.
    - intros H k [v Hv]. apply negb_true_iff, (H (k, v)).
      by apply list_elem_of_In, elem_of_map_to_list.
    - intros H [k v] Hin. apply list_elem_of_In, elem_of_map_to_list in Hin.
      apply negb_true_iff, H. by eexists. }
  destruct u. unfold validateLaunchSpec. split.
  - intros H. inv_ok. bools.
    pose proof (proj1 Hargv H0). pose proof (proj1 Henv H2).
    by destruct (stat (CWD spec)).
  - intros (H1 & H2 & H3 & H4 & H5). rewrite <-Hargv in H2. rewrite <-Henv in H5.
    rewrite bool_decide_eq_false_2, H3, H2, H4, H5 by done.
    rewrite bool_decide_eq_false_2; [done|]. intros Hx. by rewrite Hx in H3.
Qed.

(** whatever object [ParseLaunchSpec] accepts, the specification it gives is
    well formed, is accepted by the launcher's own validation when the working
    directory exists, and is the one the parser gives for its canonical
    encoding; and the canonical encoding of every well-formed specification
    parses to it. *)
Theorem ParseLaunchSpec_roundtrip v spec :
  (ParseLaunchSpec v = Ok spec →
     wf_spec spec ∧ ParseLaunchSpec (Some (encode_spec spec)) = Ok spec ∧
     ∀ stat, stat (CWD spec) = StatDir → validateLaunchSpec stat spec = Ok tt) ∧
  (wf_spec spec → ParseLaunchSpec (Some (encode_spec spec)) = Ok spec).
Proof.
  split; [|apply parse_encode]. intros H.
  assert (Hwf : wf_spec spec).
  { destruct v as [m|]; [|done]. unfold ParseLaunchSpec in H. inv_ok. bools.
    destruct (as_string (m !! "cwd")) as [cwd|]; [|done]. inv_ok. bools.
    match goal with H : parse_argv _ _ = Ok _ |- _ => apply parse_argv_ok in H as [Hl Ha] end.
    split; simpl.
    - split; [|done]. intros ->. by rewrite Hl in *.
    - done.
    - intros k. by eapply parse_env_wf. }
  split_and!; [done|by apply parse_encode|].
  intros stat Hs. apply validateLaunchSpec_ok. destruct Hwf as [[? ?] [? ?] ?]. done.
Qed.

(** two specifications that [sameSpec] takes for one are the same, provided
    the first sets no variable to the empty string; every specification is the
    same as itself. *)
Theorem sameSpec_spec a b :
  sameSpec a a = true ∧
  ((∀ k, Env a !! k ≠ Some "") → (sameSpec a b = true ↔ a = b)).
Proof.
  assert (Hrefl : ∀ a, sameSpec a a = true).
  { intros x. unfold sameSpec. rewrite !bool_decide_eq_true_2 by done. simpl.
    rewrite andb_true_r. apply forallb_forall. intros [k v] Hin.
    apply list_elem_of_In, elem_of_map_to_list in Hin. simpl. rewrite Hin.
    by apply bool_decide_eq_true. }
  split; [done|]. intros Hne. split; [|by intros ->].
  unfold sameSpec. intros H. bools. rewrite forallb_forall in *.
  assert (Hsub : Env a ⊆ Env b).
  { apply map_subseteq_spec. intros k v Hk.
    match goal with H : ∀ x, In x _ → _ |- _ => specialize (H (k, v)); rename H into Hf end.
    assert (Hd : default "" (Env b !! k) = v).
    { apply (bool_decide_eq_true (default "" (Env b !! k) = v)), Hf.
      by apply list_elem_of_In, elem_of_map_to_list. }
    destruct (Env b !! k); simpl in Hd; [by subst|]. destruct (Hne k). congruence. }
  assert (Env a = Env b).
  { apply map_subseteq_size_eq; [done|]. lia. }
  destruct a, b; simpl in *. congruence.
Qed.

(** ** Concrete runs *)

Definition local_run (f : custodyRecord → custodyRecord) (g : custodyRecord → proc → proc)
    (l : nat) (s : sys) : sys :=
  match rows (cust s) !! l, procs s !! l with
  | Some r, Some p =>
      mkSys (with_rows <[l := f r]> (cust s)) (<[l := g r p]> (procs s)) (sent s)
  | _, _ => s
  end.

Lemma local_run_step faulty f g l s r p :
  rows (cust s) !! l = Some r → procs s !! l = Some p →
  local_step faulty r p (f r) (g r p) → step faulty s (local_run f g l s).
Proof.
  intros Hr Hp. unfold local_run. rewrite Hr, Hp. by apply step_local.
Qed.

(** [run_local c]: the step of the row at location 0 that the constructor [c]
    describes. *)
Ltac run_local c :=
  eapply local_run_step; [vm_compute; reflexivity|vm_compute; reflexivity|];
  apply c; reflexivity.

Definition demo_spec : LaunchSpec := mkSpec ["sleep"; "60"] "/work" ∅ None.
Definition demo_answers : launch_answers :=
  mkAnswers (λ _, StatDir) (Some "process-00") true true true (Ok 4242%Z).

(** A launch whose goroutine reported the process running. *)
Definition demo_launched : sys :=
  let c' := (Launch demo_answers "mill" "job" demo_spec (cust (init_sys "/out"))).1 in
  mkSys c' {[0 := new_proc]} [].
Definition demo_running : sys :=
  local_run wait_begin (λ _, set_wait WObserve) 0 demo_launched.

Lemma demo_launched_step faulty : step faulty (init_sys "/out") demo_launched.
Proof.
  eapply (step_launch faulty (init_sys "/out") demo_answers "mill" "job" demo_spec);
    [by intros h _ l row|]. apply surjective_pairing.
Qed.

Lemma demo_running_reachable faulty : rtc (step faulty) (init_sys "/out") demo_running.
Proof.
  eapply rtc_l; [apply demo_launched_step|]. apply rtc_once. run_local step_begin.
Qed.

Definition demo_row (s : sys) : custodyRecord :=
  default (new_row (cust s) demo_answers "" "" "" demo_spec) (rows (cust s) !! 0).

(** The owner cancels while the process runs, and SIGTERM is enough. *)
Definition demo_cancelled : sys :=
  let s := demo_running in
  mkSys (Cancel_begin "mill" "process-00" (cust s)).1
        (alter (set_ptree (Some (TSend SIGTERM))) 0 (procs s)) (sent s).
Definition demo_signalled : sys :=
  let s := demo_cancelled in
  match procs s !! 0 with
  | Some p => mkSys (cust s) (<[0 := set_ptree (Some (tree_sent SIGTERM None)) p]> (procs s))
                    (sent s ++ [(0, SIGTERM, p_reaped p)])
  | None => s
  end.
Definition demo_gone : sys :=
  local_run (λ r, r) (λ _, set_ptree (Some (tree_waited SIGTERM Gone))) 0 demo_signalled.
Definition demo_stopped : sys :=
  local_run (set_tree StopGraceful None) (λ _, set_ptree None) 0 demo_gone.
Definition demo_exited : sys := local_run (λ r, r) (λ _, set_exited) 0 demo_stopped.
Definition demo_observed : sys :=
  local_run wait_claim
    (λ r, set_wait (if bool_decide (r_cancelled r = "") then WReap None
                    else match r_treeDone r with Some _ => WTree None | None => WReap None end))
    0 demo_exited.
Definition demo_tree_closed : sys :=
  local_run (λ r, r) (λ _, set_wait (WReap None)) 0 demo_observed.
Definition demo_wait : wait_answer := mkWait (Some (-1, Some "terminated")%Z) (Some "signal: terminated").
Definition demo_reaped : sys :=
  local_run (λ r, r) (λ _ p, set_reaped (set_wait (WFinish None demo_wait) p)) 0 demo_tree_closed.
Definition demo_terminal : sys :=
  local_run (finishWait demo_wait None []) (λ _, set_wait WEnd) 0 demo_reaped.

Lemma demo_exited_reachable faulty : rtc (step faulty) (init_sys "/out") demo_exited.
Proof.
  etrans; [apply demo_running_reachable|].
  eapply rtc_l with demo_cancelled.
  { by apply (step_cancel faulty demo_running "mill" "process-00" _
      (CancelTerminate 0 4242 (r_rec (demo_row demo_running)))). }
  eapply rtc_l with demo_signalled.
  { eapply (step_send faulty demo_cancelled 0 _ SIGTERM None); vm_compute; reflexivity. }
  eapply rtc_l with demo_gone.
  { run_local step_waited. }
  eapply rtc_l with demo_stopped.
  { run_local step_tree_end. }
  apply rtc_once. run_local step_exit.
Qed.

Lemma demo_terminal_reachable faulty : rtc (step faulty) (init_sys "/out") demo_terminal.
Proof.
  etrans; [apply demo_exited_reachable|].
  eapply rtc_l with demo_observed.
  { run_local step_observed. }
  eapply rtc_l with demo_tree_closed.
  { run_local step_tree_closed. }
  eapply rtc_l with demo_reaped.
  { run_local step_reap. }
  apply rtc_once. run_local step_finish.
Qed.

Lemma terminal_outcome_witness :
  Exit (r_rec (demo_row demo_terminal)) = None
  ∧ ∀ s', rtc (step True) demo_terminal s' →
      ∃ r', rows (cust s') !! 0 = Some r' ∧ r_rec r' = r_rec (demo_row demo_terminal).
Proof.
  split; [reflexivity|].
  apply (terminal_outcome "/out" demo_terminal 0 (demo_row demo_terminal));
    [apply demo_terminal_reachable|reflexivity|reflexivity].
Defined.


Lemma signals_safe_witness :
  stop_signals StopGraceful (signals_of 0 (sent demo_terminal)).
Proof.
  pose proof (signals_safe "/out" demo_terminal 0 (demo_row demo_terminal)
    (demo_terminal_reachable _) eq_refl) as (_ & _ & H).
  exact (H eq_refl).
Defined.


Lemma ParseLaunchSpec_roundtrip_witness :
  ParseLaunchSpec (Some (encode_spec demo_spec)) = Ok demo_spec
  ∧ validateLaunchSpec (λ _, StatDir) demo_spec = Ok tt.
Proof.
  destruct (ParseLaunchSpec_roundtrip (Some (encode_spec demo_spec)) demo_spec) as [H _].
  destruct H as (_ & H1 & H2); [vm_compute; reflexivity|]. split; [done|by apply H2].
Defined.

Lemma sameSpec_spec_witness :
  sameSpec demo_spec demo_spec = true
  ∧ sameSpec demo_spec (mkSpec ["sleep"; "61"] "/work" ∅ None) = false.
Proof.
  split; [|vm_compute; reflexivity].
  apply (sameSpec_spec demo_spec demo_spec); [|done].
  intros k. change (Env demo_spec) with (∅ : gmap string string). by rewrite lookup_empty.
Defined.

(** ** Where the code does less than it says *)

(** a variable set to the empty string and a different variable are taken
    for the same environment, so a repeated launch with another specification is
    answered with the existing record and not with a conflict. *)
Theorem sameSpec_conflates :
  ∃ a b, sameSpec a b = true ∧ a ≠ b ∧
    (Launch demo_answers "mill" "job" b
       (Launch demo_answers "mill" "job" a (cust (init_sys "/out"))).1).2
    = (Launch demo_answers "mill" "job" a (cust (init_sys "/out"))).2.
Proof.
  exists (mkSpec ["env"] "/work" {["A" := ""]} None),
         (mkSpec ["env"] "/work" {["B" := "x"]} None).
  split; [vm_compute; reflexivity|]. split; [|vm_compute; reflexivity].
  intros H. apply (f_equal (λ s, Env s !! "A")) in H. vm_compute in H. discriminate H.
Qed.

(** two pairs of an owner and a key that differ share one reservation when a
    NUL byte is in them, so one owner's launch is answered with the record of
    another's. *)
Theorem reservation_collision :
  ∃ owner key owner' key',
    owner ≠ owner' ∧ is_blank owner = false ∧ is_blank key = false
    ∧ is_blank owner' = false ∧ is_blank key' = false
    ∧ Owner <$> (match (Launch demo_answers owner' key' demo_spec
         (Launch demo_answers owner key demo_spec (cust (init_sys "/out"))).1).2 with
       | Ok r => Some r | Err _ => None end) = Some owner.
Proof.
  exists "a", ("b" +:+ nul +:+ "c"), ("a" +:+ nul +:+ "b"), "c".
  split_and!; vm_compute; try reflexivity. discriminate.
Qed.

(** when the exit observer fails, [wait] reaps the process without claiming
    it, and a cancellation that arrives before [finishWait] sends SIGTERM to a
    process group whose leader is gone. *)
Theorem observer_failure_signals_reaped :
  ∃ s l, rtc (step True) (init_sys "/out") s ∧ (l, SIGTERM, true) ∈ sent s.
Proof.
  set (s1 := local_run (λ r, r) (λ r, set_wait (match r_treeDone r with
    | Some _ => WTree (Some "wait4: EINVAL") | None => WReap (Some "wait4: EINVAL") end))
    0 demo_running).
  set (s2 := local_run (λ r, r) (λ _, set_exited) 0 s1).
  set (s3 := local_run (λ r, r)
    (λ _ p, set_reaped (set_wait (WFinish (Some "wait4: EINVAL") demo_wait) p)) 0 s2).
  set (s4 := mkSys (Cancel_begin "mill" "process-00" (cust s3)).1
        (alter (set_ptree (Some (TSend SIGTERM))) 0 (procs s3)) (sent s3)).
  set (p := set_ptree (Some (TSend SIGTERM))
    (mkProc (WFinish (Some "wait4: EINVAL") demo_wait) None true true)).
  exists (mkSys (cust s4) (<[0 := set_ptree (Some (tree_sent SIGTERM None)) p]> (procs s4))
                (sent s4 ++ [(0, SIGTERM, p_reaped p)])), 0.
  split; [|vm_compute; by left].
  etrans; [apply demo_running_reachable|].
  eapply rtc_l with s1.
  { eapply local_run_step; [vm_compute; reflexivity|vm_compute; reflexivity|].
    by apply (step_observe_error True (demo_row demo_running) (set_wait WObserve new_proc)
                "wait4: EINVAL"). }
  eapply rtc_l with s2; [run_local step_exit|].
  eapply rtc_l with s3; [run_local step_reap|].
  eapply rtc_l with s4.
  { by apply (step_cancel True s3 "mill" "process-00" _
      (CancelTerminate 0 4242 (r_rec (demo_row s3)))). }
  apply rtc_once. by apply (step_send True s4 0 p SIGTERM None).
Qed.
