(* ===== verification/RestartRecord.v ===== *)
(** Restart records, probe results and the projections of a restart
    (src/cli/cmd/mill/restart_record.go, restart_probe.go and the validators of
    restart.go). Go's dynamic values are [any]: JSON values, and the two structs
    that are stored in a status. *)

From S2P Require Export GoStrings.

(** ** Data *)

Record restartFailure := mkFailure {
  f_Stage : string;
  f_Message : string;
  f_LogPath : string;
  f_ExitEvidence : string;
}.

#[global] Instance restartFailure_eq_dec : EqDecision restartFailure.
Proof. solve_decision. Defined.

(** [restartProbeResult], over the type of its dynamic values. A nil slice is
    [None]: it encodes as null. *)
Record probeOf (A : Type) := mkProbe {
  p_Success : bool;
  p_Stage : string;
  p_ProbeWorkspace : string;
  p_SourceWorkspace : string;
  p_Completed : option (list string);
  p_Diagnostics : option (list (gmap string A));
  p_Log : string;
}.

Arguments mkProbe {A}.
Arguments p_Success {A}.
Arguments p_Stage {A}.
Arguments p_ProbeWorkspace {A}.
Arguments p_SourceWorkspace {A}.
Arguments p_Completed {A}.
Arguments p_Diagnostics {A}.
Arguments p_Log {A}.

(** [AMaps] is [[]map[string]any]; [AArray] is [[]any]; [ANumber] is a JSON number,
    [AInt] an [int] of the program. *)
Inductive any :=
| ANil
| ABool (b : bool)
| AInt (z : Z)
| ANumber (raw : string)
| AString (s : string)
| AArray (l : list any)
| AObject (m : gmap string any)
| AMaps (l : list (gmap string any))
| AFailure (f : restartFailure)
| AProbe (p : probeOf any).

Notation object := (gmap string any).
Notation restartProbeResult := (probeOf any).

Inductive restart_state := Probing | Restarting | RunningState | FailedState.

#[global] Instance restart_state_eq_dec : EqDecision restart_state.
Proof. solve_decision. Defined.

Definition state_name (s : restart_state) : string :=
  match s with
  | Probing => "probing" | Restarting => "restarting"
  | RunningState => "running" | FailedState => "failed"
  end.

(** The four constants; the zero value of the field is no state. *)
Definition parse_state (s : string) : option restart_state :=
  if bool_decide (s = "probing") then Some Probing
  else if bool_decide (s = "restarting") then Some Restarting
  else if bool_decide (s = "running") then Some RunningState
  else if bool_decide (s = "failed") then Some FailedState
  else None.

Record restartRecord := mkRecord {
  State : string;
  TransitionID : string;
  GenerationID : string;
  PreviousGeneration : string;
  PreviousWeaver : string;
  UpdatedAt : string;
  OldGenerationStopped : bool;
  Probe : option restartProbeResult;
  Failure : option restartFailure;
  generationIDPresent : bool;
  oldGenerationStoppedPresent : bool;
}.

Inductive restart_error :=
| NotObject
| UnknownField
| NullField
| MissingField (key : string)
| BadField (key : string)
| WorkspaceBlank
| UnknownState (s : string)
| Contradictory (s : string) (key : string)
| DiagnosticsEmpty
| Diagnostic (i : nat) (e : restart_error)
| DiagnosticUnknownField
| DiagnosticStage
| DiagnosticStatus
| DiagnosticAt
| DiagnosticData
| ProbeStage (s : string)
| ProbeCompleted (i : nat)
| WriterOwned
| RequiresUpdatedAt
| StoppedNeedsProbe
| StoppedNeedsGeneration
| ProbingContradictory
| FailedNeedsFailure
| FailureBlank
| RunningFailureNeedsProbe
| FailureContradictory (s : string)
| StoppedFailure (stage : string)
| ProbeInvalid (e : restart_error)
| NotJSON
| IOError (e : string)
| OperationField.

(** ** Reading dynamic values *)

Definition as_text (v : option any) : option string :=
  match v with Some (AString s) => Some s | _ => None end.

Definition present (key : string) (m : object) : bool := bool_decide (is_Some (m !! key)).

Definition only_keys (allowed : list string) (m : object) : bool :=
  forallb (λ kv, bool_decide (kv.1 ∈ allowed)) (map_to_list m).

(** A text field that must not be blank. *)
Definition text_ok (v : option any) : bool :=
  match as_text v with Some s => negb (is_blank s) | None => false end.

(** ** Probe results *)

Definition diagnostic_statuses : list string :=
  ["completed"; "failed"; "skipped"; "in-progress"].

Definition status_ok (v : option any) : bool :=
  match as_text v with Some s => bool_decide (s ∈ diagnostic_statuses) | None => false end.

Definition is_object (v : any) : bool := match v with AObject _ => true | _ => false end.

Definition data_ok (row : object) : bool :=
  match row !! "data" with Some v => is_object v | None => true end.

Definition validateProbeDiagnostic (row : object) : result restart_error unit :=
  ensure (only_keys ["stage"; "status"; "data"; "at"] row) DiagnosticUnknownField ;;
  ensure (text_ok (row !! "stage")) DiagnosticStage ;;
  ensure (status_ok (row !! "status")) DiagnosticStatus ;;
  ensure (negb (present "at" row) || text_ok (row !! "at")) DiagnosticAt ;;
  ensure (data_ok row) DiagnosticData.

(** The wrapping of an error of the row at index [i]. *)
Definition at_index (i : nat) (r : result restart_error unit) : result restart_error unit :=
  match r with Ok _ => Ok tt | Err e => Err (Diagnostic i e) end.

Definition validate (r : restartProbeResult) : result restart_error unit :=
  ensure (negb (is_blank (p_Stage r))) (MissingField "stage") ;;
  ensure (negb (is_blank (p_ProbeWorkspace r))) (MissingField "probe/workspace") ;;
  ensure (negb (is_blank (p_SourceWorkspace r))) (MissingField "source/workspace") ;;
  ensure (negb (is_blank (p_Log r))) (MissingField "log") ;;
  ensure (negb (p_Success r && negb (bool_decide (p_Stage r = "probe/complete"))))
    (ProbeStage (p_Stage r)) ;;
  ensure (negb (negb (p_Success r) && negb (bool_decide (p_Stage r = "probe/failure"))))
    (ProbeStage (p_Stage r)) ;;
  check_from (λ i s, ensure (negb (is_blank s)) (ProbeCompleted i)) 0
    (default [] (p_Completed r)) ;;
  check_from (λ i d, at_index i (validateProbeDiagnostic d)) 0 (default [] (p_Diagnostics r)).

(** ** The buffer of a probe's standard error *)

Record cappedBuffer := mkCapped { buf : list ascii; cap_limit : nat; truncated : bool }.

(** The bytes of one [Write]; the count it answers is always their number. *)
Definition Write (p : list ascii) (b : cappedBuffer) : cappedBuffer * nat :=
  if (length (buf b) <? cap_limit b)%nat then
    let remaining := cap_limit b - length (buf b) in
    if (remaining <? length p)%nat
    then (mkCapped (buf b ++ take remaining p) (cap_limit b) true, length p)
    else (mkCapped (buf b ++ p) (cap_limit b) (truncated b), length p)
  else (mkCapped (buf b) (cap_limit b) true, length p).

Definition String_ (b : cappedBuffer) : string :=
  let value := TrimSpace (of_bytes (buf b)) in
  if truncated b then
    if bool_decide (value = "") then "[probe stderr truncated]"
    else value +:+ " [probe stderr truncated]"
  else value.

(** ** JSON of records *)

Definition strings (v : any) : option (list string) :=
  match v with
  | AArray l => mapM (λ v, as_text (Some v)) l
  | _ => None
  end.

Definition objects (v : any) : option (list object) :=
  match v with
  | AArray l => mapM (λ v, match v with AObject m => Some m | _ => None end) l
  | _ => None
  end.

Definition probe_fields : list string :=
  ["success"; "stage"; "probe/workspace"; "source/workspace"; "completed"; "diagnostics"; "log"].

(** The object that [encoding/json] writes for a struct: its members in order,
    without those that [omitempty] drops. *)
Definition json_object (l : list (string * option any)) : object :=
  list_to_map (omap (λ kv, pair kv.1 <$> kv.2) l).

Definition json_strings (l : option (list string)) : any :=
  match l with Some l => AArray (AString <$> l) | None => ANil end.

Definition json_objects (l : option (list object)) : any :=
  match l with Some l => AArray (AObject <$> l) | None => ANil end.

(** Rows of diagnostics hold JSON values only. *)
Definition encode_probe (p : restartProbeResult) : object :=
  json_object
    [("success", Some (ABool (p_Success p)));
     ("stage", Some (AString (p_Stage p)));
     ("probe/workspace", Some (AString (p_ProbeWorkspace p)));
     ("source/workspace", Some (AString (p_SourceWorkspace p)));
     ("completed", Some (json_strings (p_Completed p)));
     ("diagnostics", Some (json_objects (p_Diagnostics p)));
     ("log", Some (AString (p_Log p)))].

(** The elements of a decoded [*[]string] or [*[]map[string]any]: a null string
    element decodes as [""], a null map element as a nil map, an error here. *)
Definition wire_string (v : any) : option string :=
  match v with AString s => Some s | ANil => Some "" | _ => None end.

Definition wire_strings (v : any) : option (list string) :=
  match v with AArray l => mapM wire_string l | _ => None end.

(** [decodeRestartProbe], from the JSON value of the frame; [None] is a frame
    that is not one JSON value. *)
Definition decodeRestartProbe (frame : option any) : result restart_error restartProbeResult :=
  match frame with
  | Some (AObject raw) =>
      ensure (forallb (λ kv, bool_decide (kv.1 ∈ probe_fields)
                             && match kv.2 with ANil => false | _ => true end)
                (map_to_list raw)) UnknownField ;;
      ensure (forallb (λ key, present key raw) probe_fields) (MissingField "") ;;
      match raw !! "success", as_text (raw !! "stage"), as_text (raw !! "probe/workspace"),
            as_text (raw !! "source/workspace"), raw !! "completed" ≫= wire_strings,
            raw !! "diagnostics" ≫= objects, as_text (raw !! "log") with
      | Some (ABool success), Some stage, Some probeWs, Some sourceWs, Some completed,
        Some diagnostics, Some log =>
          let r := mkProbe success stage probeWs sourceWs (Some completed) (Some diagnostics) log in
          validate r ;; Ok r
      | _, _, _, _, _, _, _ => Err (BadField "")
      end
  | Some ANil => Err NotObject
  | _ => Err NotJSON
  end.

(** The value the decoder leaves in the field [name]: of the members whose name
    folds to it, the last in the order [json.Marshal] writes a map, by name. *)
Definition field (name : string) (m : object) : option any :=
  last (omap (λ k, if bool_decide (fold_name k = name) then m !! k else None)
             (sort_strings (map_to_list m).*1)).

Definition fields_known (names : list string) (m : object) : bool :=
  forallb (λ kv, bool_decide (fold_name kv.1 ∈ names)) (map_to_list m).

(** Decoding one field: absent and null leave the zero value. *)
Definition dec_string (v : option any) : option string :=
  match v with
  | None | Some ANil => Some ""
  | Some (AString s) => Some s
  | _ => None
  end.

Definition dec_bool (v : option any) : option bool :=
  match v with
  | None | Some ANil => Some false
  | Some (ABool b) => Some b
  | _ => None
  end.

Definition dec_strings (v : option any) : option (option (list string)) :=
  match v with
  | None | Some ANil => Some None
  | Some v => Some <$> wire_strings v
  end.

Definition wire_object (v : any) : option object :=
  match v with AObject m => Some m | ANil => Some ∅ | _ => None end.

Definition dec_objects (v : option any) : option (option (list object)) :=
  match v with
  | None | Some ANil => Some None
  | Some (AArray l) => Some <$> mapM wire_object l
  | _ => None
  end.

(** The fields of a probe, from the members of an object. *)
Definition read_probe (m : object) : option restartProbeResult :=
  success ← dec_bool (field "success" m);
  stage ← dec_string (field "stage" m);
  probeWs ← dec_string (field "probe/workspace" m);
  sourceWs ← dec_string (field "source/workspace" m);
  completed ← dec_strings (field "completed" m);
  diagnostics ← dec_objects (field "diagnostics" m);
  log ← dec_string (field "log" m);
  Some (mkProbe success stage probeWs sourceWs completed diagnostics log).

Definition dec_probe (v : option any) : option (option restartProbeResult) :=
  match v with
  | None | Some ANil => Some None
  | Some (AObject m) => if fields_known probe_fields m then Some <$> read_probe m else None
  | _ => None
  end.

Definition failure_fields : list string := ["stage"; "message"; "log_path"; "exit_evidence"].

Definition read_failure (m : object) : option restartFailure :=
  stage ← dec_string (field "stage" m);
  message ← dec_string (field "message" m);
  logPath ← dec_string (field "log_path" m);
  evidence ← dec_string (field "exit_evidence" m);
  Some (mkFailure stage message logPath evidence).

Definition dec_failure (v : option any) : option (option restartFailure) :=
  match v with
  | None | Some ANil => Some None
  | Some (AObject m) => if fields_known failure_fields m then Some <$> read_failure m else None
  | _ => None
  end.

Definition record_fields : list string :=
  ["state"; "transition_id"; "generation_id"; "previous_generation_id"; "previous_weaver_id";
   "updated_at"; "old_generation_stopped"; "probe"; "failure"].

Definition dec_record (m : object) : option restartRecord :=
  if negb (fields_known record_fields m) then None else
  state ← dec_string (field "state" m);
  transition ← dec_string (field "transition_id" m);
  generation ← dec_string (field "generation_id" m);
  previous ← dec_string (field "previous_generation_id" m);
  weaver ← dec_string (field "previous_weaver_id" m);
  updated ← dec_string (field "updated_at" m);
  stopped ← dec_bool (field "old_generation_stopped" m);
  probe ← dec_probe (field "probe" m);
  failure ← dec_failure (field "failure" m);
  Some (mkRecord state transition generation previous weaver updated stopped probe failure
                 false false).

(** [omitempty] drops the zero value. *)
Definition omit_string (s : string) : option any :=
  if bool_decide (s = "") then None else Some (AString s).

Definition omit_bool (b : bool) : option any := if b then Some (ABool true) else None.

Definition encode_failure (f : restartFailure) : object :=
  json_object
    [("stage", Some (AString (f_Stage f))); ("message", Some (AString (f_Message f)));
     ("log_path", omit_string (f_LogPath f)); ("exit_evidence", omit_string (f_ExitEvidence f))].

Definition encode_record (r : restartRecord) : object :=
  json_object
    [("state", Some (AString (State r)));
     ("transition_id", Some (AString (TransitionID r)));
     ("generation_id", omit_string (GenerationID r));
     ("previous_generation_id", omit_string (PreviousGeneration r));
     ("previous_weaver_id", omit_string (PreviousWeaver r));
     ("updated_at", Some (AString (UpdatedAt r)));
     ("old_generation_stopped", omit_bool (OldGenerationStopped r));
     ("probe", AObject ∘ encode_probe <$> Probe r);
     ("failure", AObject ∘ encode_failure <$> Failure r)].

(** ** Validation of records *)

Inductive validation_mode := ForWrite | FromDisk.

Definition blank_but_set (s : string) : bool := negb (bool_decide (s = "")) && is_blank s.

Definition probe_succeeded (r : restartRecord) : bool :=
  match Probe r with Some p => p_Success p | None => false end.

Definition is_none {A} (o : option A) : bool := match o with None => true | Some _ => false end.

(** The block for a record that has a failure. *)
Definition validate_failure (r : restartRecord) (f : restartFailure) : result restart_error unit :=
  ensure (negb (is_blank (f_Stage f) || is_blank (f_Message f))) FailureBlank ;;
  if bool_decide (State r = "running") then
    ensure (negb (negb (bool_decide (f_Stage f = "probe")) || is_none (Probe r)
                  || probe_succeeded r)) RunningFailureNeedsProbe
  else ensure (bool_decide (State r = "failed")) (FailureContradictory (State r)).

Definition validateRestartRecord (r : restartRecord) (mode : validation_mode)
    : result restart_error unit :=
  ensure (negb (is_blank (TransitionID r))) (MissingField "transition_id") ;;
  match mode with
  | ForWrite => ensure (bool_decide (UpdatedAt r = "")) WriterOwned
  | FromDisk => ensure (negb (is_blank (UpdatedAt r))) RequiresUpdatedAt
  end ;;
  ensure (bool_decide (is_Some (parse_state (State r)))) (UnknownState (State r)) ;;
  ensure (negb (blank_but_set (GenerationID r))) (BadField "generation_id") ;;
  ensure (negb (blank_but_set (PreviousGeneration r))) (BadField "previous_generation_id") ;;
  ensure (negb (blank_but_set (PreviousWeaver r))) (BadField "previous_weaver_id") ;;
  ensure (negb (OldGenerationStopped r && negb (probe_succeeded r))) StoppedNeedsProbe ;;
  ensure (negb (OldGenerationStopped r && negb (bool_decide (State r = "failed"))
                && is_blank (GenerationID r))) StoppedNeedsGeneration ;;
  ensure (negb (bool_decide (State r = "probing")
                && (is_blank (GenerationID r) || negb (is_none (Probe r))
                    || negb (is_none (Failure r)) || OldGenerationStopped r)))
    ProbingContradictory ;;
  ensure (negb (bool_decide (State r = "running") && is_blank (GenerationID r)))
    (MissingField "generation_id") ;;
  ensure (negb (bool_decide (State r = "failed") && is_none (Failure r))) FailedNeedsFailure ;;
  match Failure r with Some f => validate_failure r f | None => Ok tt end ;;
  match Failure r with
  | Some f => ensure (negb (OldGenerationStopped r && negb (bool_decide (f_Stage f = "launch"))))
                (StoppedFailure (f_Stage f))
  | None => Ok tt
  end ;;
  match Probe r with
  | Some p => match validate p with Ok _ => Ok tt | Err e => Err (ProbeInvalid e) end
  | None => Ok tt
  end.

(** ** The file restart.json *)

(** What the path holds: nothing, one JSON value, or bytes that are not one. *)
Inductive disk := NoFile | JSONFile (v : any) | Garbage.

Definition with_updated (now : string) (r : restartRecord) : restartRecord :=
  mkRecord (State r) (TransitionID r) (GenerationID r) (PreviousGeneration r) (PreviousWeaver r)
           now (OldGenerationStopped r) (Probe r) (Failure r)
           (generationIDPresent r) (oldGenerationStoppedPresent r).

(** [io] is the first error of the directory, the temporary file or the rename;
    the file is replaced by the rename only. *)
Definition writeRestartRecord (now : string) (io : option string) (r : restartRecord)
    : ST disk restart_error unit := λ d,
  match validateRestartRecord r ForWrite with
  | Err e => (d, Err e)
  | Ok _ =>
      match io with
      | Some e => (d, Err (IOError e))
      | None => (JSONFile (AObject (encode_record (with_updated now r))), Ok tt)
      end
  end.

Definition with_presence (raw : object) (r : restartRecord) : restartRecord :=
  mkRecord (State r) (TransitionID r) (GenerationID r) (PreviousGeneration r) (PreviousWeaver r)
           (UpdatedAt r) (OldGenerationStopped r) (Probe r) (Failure r)
           (present "generation_id" raw) (present "old_generation_stopped" raw).

Definition no_nulls (raw : object) : bool :=
  forallb (λ kv, match kv.2 with ANil => false | _ => true end) (map_to_list raw).

(** [Ok None] is an absent file. [io] is a reading error other than absence. *)
Definition readRestartRecordDetailed (io : option string) (d : disk)
    : result restart_error (option restartRecord) :=
  match io, d with
  | Some e, _ => Err (IOError e)
  | None, NoFile => Ok None
  | None, JSONFile (AObject raw) =>
      match dec_record raw with
      | None => Err NotJSON
      | Some r =>
          ensure (no_nulls raw) NullField ;;
          validateRestartRecord r FromDisk ;;
          Ok (Some (with_presence raw r))
      end
  | None, JSONFile ANil => Err NotObject
  | None, _ => Err NotJSON
  end.

(** ** Lemmas: JSON objects *)

Lemma json_object_cons k v l :
  json_object ((k, v) :: l)
  = match v with Some v => <[k := v]> (json_object l) | None => json_object l end.
Proof. by destruct v. Qed.

Lemma json_object_keys l k : is_Some (json_object l !! k) → k ∈ l.*1.
Proof.
  intros [v Hv]. apply elem_of_list_to_map_2, list_elem_of_omap in Hv as ([k1 v1] & Hin & Heq).
  destruct v1; simplify_eq/=. by apply (list_elem_of_fmap_2 fst) in Hin.
Qed.

Lemma lookup_json_object l k v :
  NoDup l.*1 → (k, v) ∈ l → json_object l !! k = v.
Proof.
  induction l as [|[k' v'] l IH]; intros Hnd Hin; [by apply elem_of_nil in Hin|].
  simpl in Hnd. apply NoDup_cons in Hnd as [Hk Hnd]. rewrite json_object_cons.
  apply elem_of_cons in Hin as [[= <- <-]|Hin].
  - destruct v as [v|]; [by rewrite lookup_insert_eq|].
    apply eq_None_not_Some. intros Hx. by apply Hk, json_object_keys.
  - assert (k ≠ k') by (intros ->; apply Hk; by apply (list_elem_of_fmap_2 fst) in Hin).
    destruct v' as [v'|]; [rewrite lookup_insert_ne by done|]; by apply IH.
Qed.

(** In an object whose names are canonical the decoder finds a field by its
    name. *)
Lemma field_canonical name m :
  (∀ k, is_Some (m !! k) → fold_name k = k) → field name m = m !! name.
Proof.
  intros Hc. unfold field.
  set (f := λ k, if bool_decide (fold_name k = name) then m !! k else None).
  assert (Hf : ∀ k, f k = if bool_decide (k = name) then m !! name else None).
  { intros k. unfold f. destruct (m !! k) eqn:E.
    - rewrite Hc by done. case_bool_decide; [|done]. by subst.
    - destruct (decide (k = name)) as [<-|Hne]; [|rewrite (bool_decide_eq_false_2 _ Hne)];
        rewrite ?E; by repeat case_bool_decide. }
  assert (Hnd : NoDup (sort_strings (map_to_list m).*1)).
  { unfold sort_strings. rewrite sort_stable_perm. apply NoDup_fst_map_to_list. }
  assert (Hin : ∀ v, m !! name = Some v → name ∈ sort_strings (map_to_list m).*1).
  { intros v Hv. unfold sort_strings. rewrite elem_of_sort_stable.
    by apply elem_of_map_to_list, (list_elem_of_fmap_2 fst) in Hv. }
  revert Hnd Hin. generalize (sort_strings (map_to_list m).*1) as ks.
  assert (Hnone : ∀ ks, name ∉ ks → omap f ks = []).
  { induction ks as [|k ks IH]; [done|]. rewrite not_elem_of_cons. intros [Hne Hn]. simpl.
    rewrite Hf, bool_decide_eq_false_2 by done. by apply IH. }
  induction ks as [|k ks IH]; intros Hnd Hin; simpl.
  - destruct (m !! name) as [v|]; [|done]. by specialize (Hin v eq_refl) as ?%elem_of_nil.
  - apply NoDup_cons in Hnd as [Hk Hnd]. rewrite Hf. case_bool_decide as Heq.
    + subst k. rewrite Hnone by done. by destruct (m !! name).
    + apply IH; [done|]. intros v Hv. apply Hin in Hv. by apply elem_of_cons in Hv as [?|?].
Qed.

Lemma json_field l name v :
  NoDup l.*1 → Forall (λ k, fold_name k = k) l.*1 → (name, v) ∈ l →
  field name (json_object l) = v.
Proof.
  intros Hnd Hc Hin. rewrite field_canonical.
  - by apply lookup_json_object.
  - intros k Hk%json_object_keys. rewrite Forall_forall in Hc. auto.
Qed.

Lemma json_fields_known names l :
  Forall (λ k, fold_name k ∈ names) l.*1 → fields_known names (json_object l) = true.
Proof.
  intros Hl. apply forallb_forall. intros [k v] Hin. apply bool_decide_eq_true. simpl.
  apply list_elem_of_In, elem_of_map_to_list in Hin. rewrite Forall_forall in Hl.
  apply Hl, json_object_keys. by rewrite Hin.
Qed.

(** [json_read] reads the fields of an object written by an encoder. *)
Ltac names_ok := apply (bool_decide_unpack _); vm_compute; exact I.

Ltac json_member :=
  repeat first [apply list_elem_of_here | apply list_elem_of_further].

Ltac json_read :=
  repeat (erewrite json_field;
    [|cbn [fmap list_fmap fst]; names_ok|cbn [fmap list_fmap fst]; names_ok
     |json_member]).

Lemma dec_string_omit s : dec_string (omit_string s) = Some s.
Proof. unfold omit_string. by case_bool_decide; subst. Qed.

Lemma dec_bool_omit b : dec_bool (omit_bool b) = Some b.
Proof. by destruct b. Qed.

Lemma dec_strings_json l : dec_strings (Some (json_strings l)) = Some l.
Proof.
  destruct l as [l|]; [|done]. unfold dec_strings, json_strings, wire_strings.
  by rewrite (mapM_fmap_Some wire_string AString).
Qed.

Lemma dec_objects_json l : dec_objects (Some (json_objects l)) = Some l.
Proof.
  destruct l as [l|]; [|done]. unfold dec_objects, json_objects.
  by rewrite (mapM_fmap_Some wire_object AObject).
Qed.

Lemma read_encode_probe p : read_probe (encode_probe p) = Some p.
Proof.
  unfold read_probe, encode_probe. json_read. rewrite dec_strings_json, dec_objects_json. by destruct p.
Qed.

Lemma dec_encode_probe p : dec_probe (Some (AObject (encode_probe p))) = Some (Some p).
Proof. unfold dec_probe. rewrite read_encode_probe. unfold encode_probe. by rewrite json_fields_known by names_ok. Qed.

Lemma read_encode_failure f : read_failure (encode_failure f) = Some f.
Proof. unfold read_failure, encode_failure. json_read. rewrite !dec_string_omit. by destruct f. Qed.

Lemma dec_encode_failure f : dec_failure (Some (AObject (encode_failure f))) = Some (Some f).
Proof.
  unfold dec_failure. rewrite read_encode_failure. unfold encode_failure.
  by rewrite json_fields_known by names_ok.
Qed.

Lemma dec_encode_record r :
  dec_record (encode_record r)
  = Some (mkRecord (State r) (TransitionID r) (GenerationID r) (PreviousGeneration r)
            (PreviousWeaver r) (UpdatedAt r) (OldGenerationStopped r) (Probe r) (Failure r)
            false false).
Proof.
  unfold dec_record. unfold encode_record at 1. rewrite json_fields_known by names_ok.
  unfold encode_record. json_read. cbn [negb]. rewrite !dec_string_omit, dec_bool_omit. simpl.
  assert (dec_probe (AObject ∘ encode_probe <$> Probe r) = Some (Probe r)) as ->.
  { destruct (Probe r); [|done]. apply dec_encode_probe. }
  assert (dec_failure (AObject ∘ encode_failure <$> Failure r) = Some (Failure r)) as ->; [|done].
  destruct (Failure r); [|done]. apply dec_encode_failure.
Qed.

(** ** What a valid record is *)

Lemma parse_state_name s st : parse_state s = Some st ↔ s = state_name st.
Proof.
  unfold parse_state. split.
  - repeat case_bool_decide; intros [= <-]; done.
  - intros ->. by destruct st.
Qed.

Definition some_true (o : option bool) : Prop := o = Some true.

(** What each state of a restart promises about the other fields. *)
Definition state_shape (st : restart_state) (r : restartRecord) : Prop :=
  let stopped := OldGenerationStopped r = true in
  let probed := probe_succeeded r = true in
  match st with
  | Probing => is_blank (GenerationID r) = false ∧ Probe r = None ∧ Failure r = None ∧ ¬ stopped
  | Restarting => Failure r = None ∧ (stopped → probed ∧ is_blank (GenerationID r) = false)
  | RunningState =>
      is_blank (GenerationID r) = false ∧ (stopped → probed) ∧
      (Failure r = None ∨ ∃ f p, Failure r = Some f ∧ f_Stage f = "probe"
                           ∧ Probe r = Some p ∧ p_Success p = false)
  | FailedState =>
      ∃ f, Failure r = Some f ∧ (stopped → probed ∧ f_Stage f = "launch")
  end.

Record valid_record (mode : validation_mode) (r : restartRecord) : Prop := {
  vr_transition : is_blank (TransitionID r) = false;
  vr_updated : match mode with
               | ForWrite => UpdatedAt r = "" | FromDisk => is_blank (UpdatedAt r) = false end;
  vr_ids : blank_but_set (GenerationID r) = false ∧ blank_but_set (PreviousGeneration r) = false
           ∧ blank_but_set (PreviousWeaver r) = false;
  vr_failure : ∀ f, Failure r = Some f → is_blank (f_Stage f) = false ∧ is_blank (f_Message f) = false;
  vr_probe : ∀ p, Probe r = Some p → validate p = Ok tt;
  vr_state : ∃ st, State r = state_name st ∧ state_shape st r;
}.

(** Decides the comparisons of a state with the constants. *)
Ltac state_tests H :=
  rewrite ?H in *; cbn [state_name] in *;
  repeat match goal with
  | |- context [bool_decide (String ?a ?s = String ?b ?t)] =>
      first [rewrite (bool_decide_eq_true_2 (String a s = String b t)) by reflexivity
            |rewrite (bool_decide_eq_false_2 (String a s = String b t)) by discriminate]
  | G : context [bool_decide (String ?a ?s = String ?b ?t)] |- _ =>
      first [rewrite (bool_decide_eq_true_2 (String a s = String b t)) in G by reflexivity
            |rewrite (bool_decide_eq_false_2 (String a s = String b t)) in G by discriminate]
  end.

Lemma parse_state_self st : parse_state (state_name st) = Some st.
Proof. by destruct st. Qed.

Lemma validate_sound r mode : validateRestartRecord r mode = Ok tt → valid_record mode r.
Proof.
  intros H. unfold validateRestartRecord in H. inv_ok.
  match goal with H : bool_decide (is_Some (parse_state _)) = true |- _ =>
    apply bool_decide_eq_true in H as [st Hst%parse_state_name] end.
  bools. split; try done.
  - destruct mode; inv_ok; by bools.
  - intros f Hf. rewrite Hf in *. unfold validate_failure in *. inv_ok. by bools.
  - intros p Hp. rewrite Hp in *. by destruct (validate p) as [[]|].
  - exists st. split; [done|]. unfold state_shape, validate_failure, probe_succeeded in *.
    destruct (Failure r) as [f|] eqn:Hf, (Probe r) as [p|] eqn:Hp, st; state_tests Hst;
      inv_ok; bools; simpl in *; bools; try done.
    all: destruct (OldGenerationStopped r) eqn:Hold; simpl in *; bools; try done;
      split_and?; try done; try (intros _; by bools).
    all: try (by left). all: try (by exists f). all: try (right; exists f, p; by split_and!).
    all: try (by right; exists f).
Qed.

Lemma validate_complete r mode : valid_record mode r → validateRestartRecord r mode = Ok tt.
Proof.
  intros [H1 H2 (H3 & H4 & H5) H6 H7 (st & Hst & Hsh)].
  unfold validateRestartRecord, validate_failure, probe_succeeded.
  rewrite H1, H3, H4, H5. cbn [negb ensure mbind result_bind].
  assert (match mode with
    | ForWrite => ensure (bool_decide (UpdatedAt r = "")) WriterOwned
    | FromDisk => ensure (negb (is_blank (UpdatedAt r))) RequiresUpdatedAt
    end = Ok tt) as -> by (destruct mode; [by rewrite bool_decide_eq_true_2|by rewrite H2]).
  rewrite (bool_decide_eq_true_2 (is_Some (parse_state (State r))))
    by (rewrite Hst, parse_state_self; by eexists).
  cbn [ensure mbind result_bind].
  unfold state_shape, probe_succeeded in Hsh.
  destruct st.
  - destruct Hsh as (Hg & Hp & Hf & Hs). apply not_true_is_false in Hs.
    rewrite Hg, Hp, Hf, Hs. by state_tests Hst.
  - destruct Hsh as (Hf & Hs). rewrite Hf. state_tests Hst.
    destruct (OldGenerationStopped r); simpl.
    + destruct (Hs eq_refl) as [Hp Hg]. rewrite Hp, Hg. simpl.
      destruct (Probe r) as [p|]; [by rewrite (H7 p eq_refl)|done].
    + destruct (Probe r) as [p|]; [by rewrite (H7 p eq_refl)|done].
  - destruct Hsh as (Hg & Hs & Hf). rewrite Hg. state_tests Hst.
    destruct Hf as [Hf|(f & p & Hf & Hfs & Hp & Hps)]; rewrite Hf.
    + destruct (OldGenerationStopped r); simpl.
      * rewrite (Hs eq_refl). simpl.
        destruct (Probe r) as [p|]; [by rewrite (H7 p eq_refl)|done].
      * destruct (Probe r) as [p|]; [by rewrite (H7 p eq_refl)|done].
    + destruct (H6 f Hf) as [-> ->]. rewrite Hp in *. rewrite Hps in *.
      destruct (OldGenerationStopped r); [by specialize (Hs eq_refl)|]. simpl.
      rewrite (bool_decide_eq_true_2 _ Hfs), (H7 p eq_refl). done.
  - destruct Hsh as (f & Hf & Hs). destruct (H6 f Hf) as [H8 H9]. rewrite Hf, H8, H9.
    state_tests Hst. destruct (OldGenerationStopped r); simpl.
    + destruct (Hs eq_refl) as [Hp Hl]. rewrite Hp, (bool_decide_eq_true_2 _ Hl). simpl.
      destruct (Probe r) as [p|]; [by rewrite (H7 p eq_refl)|done].
    + destruct (Probe r) as [p|]; [by rewrite (H7 p eq_refl)|done].
Qed.

(** a restart record passes validation exactly when it has its identity,
    its writer-owned time, no blank identities, a complete failure and a valid
    probe, and the shape its state promises: a probing record has a generation
    and nothing else, a restarting one no failure, a running one only a refused
    probe as failure, and a record of a stopped generation a successful probe and
    no failure but a launch's. *)
Theorem validateRestartRecord_exact r mode :
  validateRestartRecord r mode = Ok tt ↔ valid_record mode r.
Proof. split; [apply validate_sound|apply validate_complete]. Qed.

Lemma valid_record_written now r :
  is_blank now = false → valid_record ForWrite r → valid_record FromDisk (with_updated now r).
Proof. intros Hn []. by split. Qed.

Lemma no_nulls_encode r : no_nulls (encode_record r) = true.
Proof.
  apply forallb_forall. intros [k v] Hin. simpl.
  apply list_elem_of_In, elem_of_map_to_list in Hin. destruct v; try done. exfalso.
  apply elem_of_list_to_map_2, list_elem_of_omap in Hin as ([k1 v1] & Hin & Heq).
  destruct v1 as [v1|]; simplify_eq/=.
  rewrite !elem_of_cons, elem_of_nil in Hin. unfold omit_string, omit_bool in Hin.
  destruct Hin as [H|[H|[H|[H|[H|[H|[H|[H|[H|[]]]]]]]]]]; injection H as -> H; revert H;
    try done; try (by case_bool_decide); try (by destruct (OldGenerationStopped r)).
  - destruct (Probe r); intros [=].
  - destruct (Failure r); intros [=].
Qed.

Lemma present_omit name s l :
  NoDup l.*1 → (name, omit_string s) ∈ l →
  present name (json_object l) = negb (bool_decide (s = "")).
Proof.
  intros Hnd Hin. unfold present. rewrite (lookup_json_object l name (omit_string s)) by done.
  unfold omit_string. destruct (decide (s = "")) as [->|Hne]; [done|].
  by rewrite !(bool_decide_eq_false_2 _ Hne).
Qed.

(** A record as a reader sees it. *)
Definition persisted (now : string) (r : restartRecord) : restartRecord :=
  mkRecord (State r) (TransitionID r) (GenerationID r) (PreviousGeneration r) (PreviousWeaver r)
           now (OldGenerationStopped r) (Probe r) (Failure r)
           (negb (bool_decide (GenerationID r = ""))) (OldGenerationStopped r).

Lemma read_encoded now r :
  is_blank now = false → valid_record ForWrite r →
  readRestartRecordDetailed None (JSONFile (AObject (encode_record (with_updated now r))))
  = Ok (Some (persisted now r)).
Proof.
  intros Hn Hv. unfold readRestartRecordDetailed.
  rewrite dec_encode_record, no_nulls_encode. cbn [ensure mbind result_bind].
  rewrite (validate_complete _ FromDisk)
    by (destruct (valid_record_written now r Hn Hv); by split).
  cbn [mbind result_bind]. unfold with_presence, persisted. do 2 f_equal. f_equal.
  - apply (present_omit _ (GenerationID r)); [names_ok|]. rewrite !elem_of_cons. tauto.
  - unfold present, encode_record.
    erewrite lookup_json_object; [|names_ok|rewrite !elem_of_cons; tauto].
    simpl. by destruct (OldGenerationStopped r).
Qed.


Lemma restart_record_read io d r :
  readRestartRecordDetailed io d = Ok (Some r) → valid_record FromDisk r.
Proof.
  unfold readRestartRecordDetailed. destruct io; [done|]. destruct d as [|v|]; [done| |done].
  destruct v; try done. destruct (dec_record m) as [r0|]; [|done]. intros H. inv_ok.
  match goal with H : validateRestartRecord _ _ = Ok _ |- _ => apply validate_sound in H as [] end.
  by split.
Qed.

(** every restart record that can be read is valid, and a reading never
    gives a record for a file that is absent or is not one JSON object without
    null members. *)
Theorem restart_record_read_valid io d r :
  readRestartRecordDetailed io d = Ok (Some r) →
  valid_record FromDisk r ∧ ∃ raw, d = JSONFile (AObject raw) ∧ no_nulls raw = true.
Proof.
  unfold readRestartRecordDetailed. destruct io; [done|]. destruct d as [|v|]; [done| |done].
  destruct v; try done. destruct (dec_record m) as [r0|]; [|done]. intros H. inv_ok.
  match goal with H : validateRestartRecord _ _ = Ok _ |- _ => apply validate_sound in H as [] end.
  split; [by split|by eexists].
Qed.

(** *** The probe's frame *)

Lemma probe_members_present p key : key ∈ probe_fields → present key (encode_probe p) = true.
Proof.
  intros Hk. unfold present, encode_probe. apply bool_decide_eq_true.
  assert (∃ v, (key, Some v) ∈ [("success", Some (ABool (p_Success p)));
     ("stage", Some (AString (p_Stage p)));
     ("probe/workspace", Some (AString (p_ProbeWorkspace p)));
     ("source/workspace", Some (AString (p_SourceWorkspace p)));
     ("completed", Some (json_strings (p_Completed p)));
     ("diagnostics", Some (json_objects (p_Diagnostics p)));
     ("log", Some (AString (p_Log p)))]) as [v Hv].
  { unfold probe_fields in Hk. rewrite !elem_of_cons, elem_of_nil in Hk.
    repeat (destruct Hk as [->|Hk]; [eexists; rewrite !elem_of_cons; tauto|]). done. }
  rewrite (lookup_json_object _ key (Some v)); [by eexists|names_ok|done].
Qed.

(** the parser of the probe's frame accepts only valid results, and gives
    back every valid result from its encoding. *)
Theorem decodeRestartProbe_roundtrip frame p :
  (decodeRestartProbe frame = Ok p → validate p = Ok tt ∧ is_Some (p_Completed p)
     ∧ is_Some (p_Diagnostics p)) ∧
  (validate p = Ok tt → is_Some (p_Completed p) → is_Some (p_Diagnostics p) →
   decodeRestartProbe (Some (AObject (encode_probe p))) = Ok p).
Proof.
  split.
  - unfold decodeRestartProbe. destruct frame as [[]|]; try done. intros H. inv_ok.
    repeat case_match; try done. inv_ok. split_and!; try done; by eexists.
  - intros Hv [completed Hc] [diagnostics Hd]. unfold decodeRestartProbe.
    assert (forallb (λ kv : string * any, bool_decide (kv.1 ∈ probe_fields)
              && match kv.2 with ANil => false | _ => true end)
              (map_to_list (encode_probe p)) = true) as ->.
    { apply forallb_forall. intros [k v] Hin. apply list_elem_of_In, elem_of_map_to_list in Hin.
      apply andb_true_iff. split.
      - apply bool_decide_eq_true.
        assert (Hk : is_Some (encode_probe p !! k)) by by eexists.
        apply json_object_keys in Hk. exact Hk.
      - apply elem_of_list_to_map_2, list_elem_of_omap in Hin as ([k1 v1] & Hin & Heq).
        destruct v1 as [v1|]; simplify_eq/=. rewrite Hc, Hd, !elem_of_cons, elem_of_nil in Hin.
        simpl. destruct v; try done. naive_solver. }
    assert (forallb (λ key, present key (encode_probe p)) probe_fields = true) as ->.
    { apply forallb_forall. intros key Hk. by apply probe_members_present, list_elem_of_In. }
    cbn [ensure mbind result_bind]. unfold encode_probe.
    repeat (erewrite lookup_json_object;
      [|cbn [fmap list_fmap fst]; names_ok|rewrite !elem_of_cons; tauto]).
    rewrite Hc, Hd. cbn [as_text json_strings json_objects mbind option_bind wire_strings objects].
    rewrite (mapM_fmap_Some wire_string AString) by done.
    rewrite (mapM_fmap_Some _ AObject) by done.
    assert (mkProbe (p_Success p) (p_Stage p) (p_ProbeWorkspace p) (p_SourceWorkspace p)
              (Some completed) (Some diagnostics) (p_Log p) = p) as ->
      by (destruct p; simpl in *; congruence).
    by rewrite Hv.
Qed.

(** *** The capped buffer *)

Definition write_all (ps : list (list ascii)) (b : cappedBuffer) : cappedBuffer :=
  foldl (λ b p, (Write p b).1) b ps.

Lemma Write_take p b :
  length (buf b) ≤ cap_limit b →
  buf (Write p b).1 = take (cap_limit b) (buf b ++ p) ∧ cap_limit (Write p b).1 = cap_limit b
  ∧ (p ≠ [] → truncated (Write p b).1
       = truncated b || (cap_limit b <? length (buf b) + length p)).
Proof.
  intros Hb. unfold Write. destruct (Nat.ltb_spec (length (buf b)) (cap_limit b)) as [Hl|Hl].
  - destruct (Nat.ltb_spec (cap_limit b - length (buf b)) (length p)); simpl; split_and!; try done.
    + by rewrite take_app, (take_ge (buf b)) by lia.
    + intros _. destruct (Nat.ltb_spec (cap_limit b) (length (buf b) + length p)); [|lia].
      by rewrite orb_true_r.
    + rewrite take_ge; [done|]. rewrite length_app. lia.
    + intros _. destruct (Nat.ltb_spec (cap_limit b) (length (buf b) + length p)); [lia|].
      by rewrite orb_false_r.
  - assert (Heq : length (buf b) = cap_limit b) by lia. simpl. split_and!; [|done|].
    + by rewrite take_app_le, <-Heq, take_ge by lia.
    + intros Hp. destruct p as [|x p]; [done|]. simpl.
      destruct (Nat.ltb_spec (cap_limit b) (length (buf b) + S (length p))); [|lia].
      by rewrite orb_true_r.
Qed.

(** after any writes the buffer holds the first bytes written, up to its
    limit, every write answers its whole length, and the buffer says truncated
    exactly when more was written than it holds (for writes that are not
    empty). *)
Theorem cappedBuffer_keeps_prefix ps n :
  Forall (λ p, p ≠ []) ps →
  let b := write_all ps (mkCapped [] n false) in
  buf b = take n (concat ps) ∧ length (buf b) ≤ n ∧
  (truncated b = true ↔ n < length (concat ps)) ∧
  ∀ p, (Write p b).2 = length p.
Proof.
  intros Hps. simpl. rewrite <-(reverse_involutive ps) in *. revert Hps.
  set (b := write_all _ _).
  assert (Hinv : Forall (λ p, p ≠ []) (reverse (reverse ps)) →
    buf b = take n (concat (reverse (reverse ps))) ∧ cap_limit b = n
    ∧ truncated b = (n <? length (concat (reverse (reverse ps))))).
  { subst b. generalize (reverse ps) as qs. clear ps.
    induction qs as [|p qs IH]; intros Hps.
    - simpl. split_and!; [by rewrite take_nil|done|]. simpl. by destruct (Nat.ltb_spec n 0); [lia|].
    - rewrite reverse_cons in *. apply Forall_app in Hps as [Hq [Hp _]%Forall_cons].
      destruct (IH Hq) as (I1 & I2 & I3). unfold write_all in *. rewrite foldl_app. simpl.
      set (b0 := foldl _ _ _) in *.
      destruct (Write_take p b0) as (W1 & W2 & W3).
      { rewrite I1, I2, length_take. lia. }
      rewrite concat_app. simpl. rewrite app_nil_r. split_and!.
      + rewrite W1, I1, I2. rewrite !take_app, length_take, take_take, Nat.min_id.
        f_equal. destruct (decide (n <= length (concat (reverse qs)))).
        * by rewrite Nat.min_l, !(proj2 (Nat.sub_0_le _ _)) by lia.
        * by rewrite Nat.min_r by lia.
      + by rewrite W2.
      + rewrite W3, I3, I1, I2, length_take, length_app by done.
        destruct (Nat.ltb_spec n (length (concat (reverse qs)))),
          (Nat.ltb_spec n (n `min` length (concat (reverse qs)) + length p)),
          (Nat.ltb_spec n (length (concat (reverse qs)) + length p)); try done; lia. }
  intros Hps. destruct (Hinv Hps) as (H1 & H2 & H3). split_and!; [done| | |].
  - rewrite H1, length_take. lia.
  - rewrite H3. by rewrite Nat.ltb_lt.
  - intros p. unfold Write. by repeat case_match.
Qed.

(** ** Concrete records *)

Definition demo_probe : restartProbeResult :=
  mkProbe true "probe/complete" "/probe" "/work" (Some ["load"]) (Some []) "/log".

Definition demo_record : restartRecord :=
  mkRecord "restarting" "transition-1" "generation-1" "generation-1" "weaver-1" "" true
           (Some demo_probe) None false false.

Definition demo_file : disk := (writeRestartRecord "2026-01-01T00:00:00Z" None demo_record NoFile).1.


Lemma restart_record_read_valid_witness :
  valid_record FromDisk (persisted "2026-01-01T00:00:00Z" demo_record).
Proof.
  eapply (restart_record_read_valid None demo_file). vm_compute. reflexivity.
Defined.

Lemma decodeRestartProbe_roundtrip_witness :
  decodeRestartProbe (Some (AObject (encode_probe demo_probe))) = Ok demo_probe.
Proof.
  apply (decodeRestartProbe_roundtrip None demo_probe); [vm_compute; reflexivity|by eexists..].
Defined.

Lemma cappedBuffer_keeps_prefix_witness :
  buf (write_all [bytes_of "ab"; bytes_of "cde"] (mkCapped [] 4 false)) = bytes_of "abcd".
Proof.
  destruct (cappedBuffer_keeps_prefix [bytes_of "ab"; bytes_of "cde"] 4) as [H _];
    [repeat (apply Forall_cons; split; [discriminate|]); by apply Forall_nil|].
  rewrite H. reflexivity.
Defined.
