(* ===== verification/Restart.v ===== *)
(** The restart of an isolated weaver (src/cli/cmd/mill/restart.go): the closed
    projections of its results, and the transition that probes, stops and
    replaces a generation, with its durable record. Every call out of the
    transition is an answer given in advance; the transition logs what it does. *)

From S2P Require Export RestartRecord.

(** ** Statuses *)

(** The selected world; [w_Name] is its friendly name. *)
Record world := mkWorld {
  ConfigDir : string; StateDir : string; DataDir : string; DBPath : string; w_Name : string;
}.

Definition weaverLogPath (stateDir : string) : string := PathJoin [stateDir; "weaver.log"].

Definition baseStatus (w : world) (state : string) : object :=
  json_object
    [("state", Some (AString state)); ("config_dir", Some (AString (ConfigDir w)));
     ("state_dir", Some (AString (StateDir w))); ("data_dir", Some (AString (DataDir w)));
     ("database_kind", Some (AString "sqlite-file"));
     ("database_label", Some (AString (DBPath w)));
     ("database_path", Some (AString (DBPath w))); ("name", Some (AString (w_Name w)));
     ("log_path", Some (AString (weaverLogPath (StateDir w))))].

Definition restartBoundaryStatus (w : world) (status : object) : object :=
  <["workspace" := AString (ConfigDir w)]> (<["operation" := AString "weaver-restart"]> status).

(** [status[key].(string)], the zero string otherwise. *)
Definition text (key : string) (m : object) : string := default "" (as_text (m !! key)).

Definition copy_keys (keys : list string) (src dst : object) : object :=
  foldl (λ m key, match src !! key with Some v => <[key := v]> m | None => m end) dst keys.

Definition projection_keys : list string := ["generation_id"; "transition_id"; "diagnostics"].

(** [status["workspace"]] is nil when it is not there. *)
Definition restartResultProjection (status : object) : object :=
  let state := if bool_decide (text "restart_state" status = "failed") then "failed"
               else text "state" status in
  copy_keys projection_keys status
    (<["state" := AString state]> (<["workspace" := default ANil (status !! "workspace")]>
      (<["operation" := AString "restart"]> ∅))).

Definition failure_row (stage : string) (data : object) : object :=
  <["data" := AObject data]> (<["status" := AString "failed"]>
    (<["stage" := AString stage]> ∅)).

Definition failure_data (message logPath : string) : object :=
  <["log_path" := AString logPath]> (<["message" := AString message]> ∅).

Definition is_state (s : string) : bool := bool_decide (is_Some (parse_state s)).

(** The [restartFailure] stored under a key. *)
Definition as_failure (v : option any) : option restartFailure :=
  match v with Some (AFailure f) => Some f | _ => None end.

Definition millStatusProjection (status : object) : option object :=
  let state := text "state" status in
  let restartState := text "restart_state" status in
  let state := if negb (bool_decide (restartState = "")) && is_state state
               then restartState else state in
  if negb (is_state state) then None
  else
    let projection := copy_keys projection_keys status
      (<["workspace" := default ANil (status !! "config_dir")]>
        (<["state" := AString state]> ∅)) in
    if bool_decide (state = "failed") && negb (present "diagnostics" projection) then
      match as_failure (status !! "restart_failure") with
      | Some f => Some (<["diagnostics" := AMaps [failure_row (f_Stage f)
                            (failure_data (f_Message f) (f_LogPath f))]]> projection)
      | None => Some projection
      end
    else Some projection.

(** ** Validation of projections *)

Definition restartDiagnosticRows (v : any) : option (list object) :=
  match v with
  | AMaps rows => Some rows
  | AArray l => mapM (λ v, match v with AObject m => Some m | _ => None end) l
  | _ => None
  end.

Definition validateRestartDiagnostic (row : object) : result restart_error unit :=
  ensure (only_keys ["stage"; "status"; "data"; "generation_id"; "transition_id"] row)
    DiagnosticUnknownField ;;
  ensure (text_ok (row !! "stage")) DiagnosticStage ;;
  ensure (status_ok (row !! "status")) DiagnosticStatus ;;
  ensure (data_ok row) DiagnosticData.

Definition validate_rows (v : option any) : result restart_error unit :=
  match v with
  | None => Ok tt
  | Some d =>
      match restartDiagnosticRows d with
      | None | Some [] => Err DiagnosticsEmpty
      | Some rows => check_from (λ i row, at_index i (validateRestartDiagnostic row)) 0 rows
      end
  end.

(** The last switch: what each state requires and excludes. *)
Definition validate_state (state : restart_state) (allowRunningDiagnostics : bool)
    (status : object) : result restart_error unit :=
  let has key := present key status in
  let requires key := ensure (has key) (Contradictory (state_name state) key) in
  let excludes key := ensure (negb (has key)) (Contradictory (state_name state) key) in
  match state with
  | Probing => requires "generation_id" ;; requires "transition_id" ;; excludes "diagnostics"
  | Restarting => requires "transition_id" ;; excludes "generation_id" ;; excludes "diagnostics"
  | RunningState =>
      requires "generation_id" ;;
      ensure (negb (has "diagnostics" && negb allowRunningDiagnostics))
        (Contradictory (state_name state) "diagnostics")
  | FailedState => requires "diagnostics"
  end.

Definition validateRestartProjection (status : option object)
    (withOperation allowRunningDiagnostics : bool) : result restart_error unit :=
  match status with
  | None => Err NotObject
  | Some status =>
      (if withOperation
       then ensure (bool_decide (as_text (status !! "operation") = Some "restart")) OperationField
       else ensure (negb (present "operation" status)) OperationField) ;;
      ensure (only_keys (["workspace"; "state"; "generation_id"; "transition_id"; "diagnostics"]
                         ++ if withOperation then ["operation"] else []) status) UnknownField ;;
      ensure (text_ok (status !! "workspace")) WorkspaceBlank ;;
      match as_text (status !! "state") ≫= parse_state with
      | None => Err (UnknownState (text "state" status))
      | Some state =>
          check_each (λ key, ensure (negb (present key status) || text_ok (status !! key))
                               (BadField key)) ["generation_id"; "transition_id"] ;;
          validate_rows (status !! "diagnostics") ;;
          validate_state state allowRunningDiagnostics status
      end
  end.

Definition validateRestartResult (status : option object) : result restart_error unit :=
  validateRestartProjection status true false.

Definition validateMillStatusProjection (status : option object) (details : bool)
    : result restart_error unit :=
  validateRestartProjection status false details.

(** [weaverRestartStatus] and the reader of its result. *)
Definition weaverRestartStatus (transition : option restart_state) : object :=
  <["state" := AString (match transition with Some s => state_name s | None => "idle" end)]> ∅.

Definition restartStatusState (v : any) : result restart_error string :=
  match v with
  | AObject fields =>
      ensure (bool_decide (size fields = 1)) NotObject ;;
      match as_text (fields !! "state") with
      | Some state =>
          ensure (bool_decide (state = "idle") || is_state state) (UnknownState state) ;;
          Ok state
      | None => Err (UnknownState "")
      end
  | _ => Err NotObject
  end.

(** The admission state of a workspace. *)
Definition validateAdmissionState (admission : object) : result restart_error unit :=
  ensure (only_keys ["state"; "generation_id"; "transition_id"] admission) UnknownField ;;
  let state := text "state" admission in
  ensure (bool_decide (as_text (admission !! "state") = Some "open")
          || bool_decide (as_text (admission !! "state") = Some "closed")) (UnknownState state) ;;
  if bool_decide (state = "open") then
    ensure (text_ok (admission !! "generation_id")) (MissingField "generation_id") ;;
    ensure (negb (present "transition_id" admission)) (Contradictory state "transition_id")
  else
    ensure (text_ok (admission !! "transition_id")) (MissingField "transition_id") ;;
    ensure (negb (present "generation_id" admission)) (Contradictory state "generation_id").

(** ** Statuses of records *)

Definition set_text (key value : string) (m : object) : object :=
  if bool_decide (value = "") then m else <[key := AString value]> m.

(** The members a record adds, shared by the detailed forms. *)
Definition put_generation (r : restartRecord) (m : object) : object :=
  if negb (bool_decide (GenerationID r = "")) || generationIDPresent r
  then <["generation_id" := AString (GenerationID r)]> m else m.

Definition put_stopped (r : restartRecord) (m : object) : object :=
  if OldGenerationStopped r || oldGenerationStoppedPresent r
  then <["old_generation_stopped" := ABool (OldGenerationStopped r)]> m else m.

Definition put_probe (r : restartRecord) (m : object) : object :=
  match Probe r with Some p => <["probe" := AProbe p]> m | None => m end.

Definition record_diagnostics (f : restartFailure) : any :=
  AMaps [failure_row (f_Stage f) (failure_data (f_Message f) (f_LogPath f))].

Definition status (w : world) (r : restartRecord) : object :=
  let m := <["operation" := AString "restart"]> (baseStatus w (State r)) in
  let m := <["workspace" := AString (ConfigDir w)]> m in
  let m := set_text "previous_generation_id" (PreviousGeneration r) (put_generation r m) in
  let m := put_probe r (put_stopped r (<["transition_id" := AString (TransitionID r)]> m)) in
  match Failure r with
  | Some f => <["diagnostics" := record_diagnostics f]> (<["failure" := AFailure f]> m)
  | None => m
  end.

Definition compactStatus (w : world) (r : restartRecord) : object :=
  let m := set_text "generation_id" (GenerationID r) (baseStatus w (State r)) in
  let m := set_text "previous_generation_id" (PreviousGeneration r) m in
  let m := put_stopped r (<["transition_id" := AString (TransitionID r)]> m) in
  match Failure r with Some f => <["restart_failure" := AFailure f]> m | None => m end.

Definition mergeRestartRecordStatus (m : object) (r : restartRecord) : object :=
  let m := set_text "previous_generation_id" (PreviousGeneration r) (put_generation r m) in
  let m := put_probe r (put_stopped r (set_text "transition_id" (TransitionID r) m)) in
  match Failure r with
  | Some f => <["diagnostics" := record_diagnostics f]> (<["restart_failure" := AFailure f]> m)
  | None => m
  end.

Definition mergeRestartRecordCompactStatus (m : object) (r : restartRecord) : object :=
  let m := set_text "generation_id" (GenerationID r) m in
  let m := set_text "transition_id" (TransitionID r) m in
  match Failure r with Some f => <["restart_failure" := AFailure f]> m | None => m end.

Definition compactRestartRecord (r : restartRecord) : restartRecord :=
  mkRecord (State r) (TransitionID r) (GenerationID r) (PreviousGeneration r) (PreviousWeaver r)
           (UpdatedAt r) (OldGenerationStopped r) None (Failure r)
           (generationIDPresent r) (oldGenerationStoppedPresent r).

(** ** The transition *)

(** The generation that was admitted when the restart began. *)
Record old_generation := mkOld { o_generationID : string; o_weaverID : string }.

Record weaverTransition := mkTransition {
  t_old : option old_generation;
  t_transitionID : string;
  t_state : restart_state;
  t_cutoverStarted : bool;
  t_generationID : string;
  t_probe : option restartProbeResult;
  t_retryStartup : bool;
  t_oldStopped : bool;
}.

Definition set_tstate (state : restart_state) (probe : option restartProbeResult)
    (t : weaverTransition) : weaverTransition :=
  mkTransition (t_old t) (t_transitionID t) state
    (match state with Restarting => true | _ => t_cutoverStarted t end) (t_generationID t)
    (match probe with Some _ => probe | None => t_probe t end) (t_retryStartup t) (t_oldStopped t).

Definition set_oldStopped (t : weaverTransition) : weaverTransition :=
  mkTransition (t_old t) (t_transitionID t) (t_state t) (t_cutoverStarted t) (t_generationID t)
    (t_probe t) (t_retryStartup t) true.

Definition set_generation (g : string) (t : weaverTransition) : weaverTransition :=
  mkTransition (t_old t) (t_transitionID t) (t_state t) (t_cutoverStarted t) g
    (t_probe t) (t_retryStartup t) (t_oldStopped t).

(** The copy of a probe that is kept has no nil slices. *)
Definition kept_probe (p : restartProbeResult) : restartProbeResult :=
  mkProbe (p_Success p) (p_Stage p) (p_ProbeWorkspace p) (p_SourceWorkspace p)
    (Some (default [] (p_Completed p))) (Some (default [] (p_Diagnostics p))) (p_Log p).

(** What the transition did, in order. *)
Inductive event :=
| EvWrite (r : restartRecord) (ok : bool)
| EvStop (ok : bool)
| EvRelease
| EvLaunch (ok : bool)
| EvComplete.

(** A transition as the server holds it: [rs_result] is the result and error of
    the completed transition, [rs_registered] whether [s.transitions] has it. *)
Record rstate := mkR {
  rs_t : weaverTransition;
  rs_disk : disk;
  rs_writes : nat;
  rs_result : option (option object * option string);
  rs_registered : bool;
  rs_trace : list event;
}.

(** The answers of everything the transition calls: [resolveLaunchSource],
    [probeRuntime], [stopRecordedGeneration], [launchReplacement] (its log path
    in an error), the system's error of each record write, the clock, the live
    metadata status, and the text of a validation error. *)
Record answers := mkRAnswers {
  a_source : result string unit;
  a_probe : result string restartProbeResult;
  a_stop : option string;
  a_launch : result (string * string) (object * string);
  a_write : nat → option string;
  a_now : string;
  a_live : option object;
  a_text : restart_error → string;
}.

Section transition.
Context (w : world) (a : answers).

Definition log (e : event) (s : rstate) : rstate :=
  mkR (rs_t s) (rs_disk s) (rs_writes s) (rs_result s) (rs_registered s) (rs_trace s ++ [e]).

Definition with_t (f : weaverTransition → weaverTransition) (s : rstate) : rstate :=
  mkR (f (rs_t s)) (rs_disk s) (rs_writes s) (rs_result s) (rs_registered s) (rs_trace s).

(** The record of a transition. *)
Definition transition_record (t : weaverTransition) (state : restart_state)
    (failure : option restartFailure) : restartRecord :=
  mkRecord (state_name state) (t_transitionID t) (t_generationID t)
    (match t_old t with Some o => o_generationID o | None => "" end)
    (match t_old t with Some o => o_weaverID o | None => "" end)
    "" (t_oldStopped t) (t_probe t) failure false false.

Definition setTransitionState (state : restart_state) (probe : option restartProbeResult)
    (failure : option restartFailure) (s : rstate) : rstate * result restart_error unit :=
  let t := set_tstate state (kept_probe <$> probe) (rs_t s) in
  let record := transition_record t state failure in
  match validateRestartRecord record ForWrite with
  | Err e => (with_t (λ _, t) s, Err e)
  | Ok _ =>
      let '(d, r) := writeRestartRecord (a_now a) (a_write a (rs_writes s)) record (rs_disk s) in
      (mkR t d (S (rs_writes s)) (rs_result s) (rs_registered s)
           (rs_trace s ++ [EvWrite record (is_ok r)]), r)
  end.

Definition completeTransition (res : option object) (err : option string) (retain : bool)
    (s : rstate) : rstate :=
  mkR (rs_t s) (rs_disk s) (rs_writes s) (Some (res, err)) (rs_registered s && retain)
      (rs_trace s ++ [EvComplete]).

Definition admittedGenerationStatus (t : weaverTransition) : object :=
  match t_old t, a_live a with
  | Some o, Some live =>
      restartBoundaryStatus w
        (<["restart_state" := AString "probing"]>
          (<["transition_id" := AString (t_transitionID t)]>
            (<["generation_id" := AString (o_generationID o)]> live)))
  | _, _ => restartBoundaryStatus w (baseStatus w "probing")
  end.

Definition err_text (r : result restart_error unit) : option string :=
  match r with Ok _ => None | Err e => Some (a_text a e) end.

Definition failRestart (stage err logPath : string) (s : rstate) : rstate :=
  let failure := mkFailure stage err logPath "" in
  let '(s1, stateErr) := setTransitionState FailedState None (Some failure) s in
  let failure := match err_text stateErr with
                 | Some e => mkFailure stage (err +:+ "; restart state write failed: " +:+ e)
                                       logPath ""
                 | None => failure
                 end in
  let m := <["transition_id" := AString (t_transitionID (rs_t s1))]>
             (baseStatus w (state_name FailedState)) in
  let m := <["failure" := AFailure failure]> m in
  let m := <["diagnostics" := AMaps [failure_row (f_Stage failure)
              (failure_data (f_Message failure) (f_LogPath failure))]]> m in
  completeTransition (Some (restartBoundaryStatus w m)) (err_text stateErr) true s1.

(** The probe result of a probe that gave none. *)
Definition transport_probe (err : string) : restartProbeResult :=
  mkProbe false "probe/failure" (StateDir w) (ConfigDir w) (Some [])
    (Some [failure_row "probe/transport" (<["message" := AString err]> ∅)])
    (weaverLogPath (StateDir w)).

Definition refused_row (err : string) (m : object) (t : weaverTransition) : object :=
  failure_row "probe"
    (<["transition_id" := AString (t_transitionID t)]>
      (<["generation_id" := default ANil (m !! "generation_id")]>
        (<["message" := AString err]> ∅))).

Definition failProbe (probe : option restartProbeResult) (err : string) (s : rstate) : rstate :=
  if is_none (t_old (rs_t s)) || t_retryStartup (rs_t s) then failRestart "probe" err "" s
  else
    let probe := default (transport_probe err) probe in
    let '(s1, stateErr) :=
      setTransitionState RunningState (Some probe) (Some (mkFailure "probe" err "" "")) s in
    let m := admittedGenerationStatus (rs_t s1) in
    match err_text stateErr with
    | Some e =>
        completeTransition
          (Some (<["state_write_error" := AString e]>
            (<["restart_state" := AString "running"]> m)))
          (Some ("record probe failure in restart state: " +:+ e)) false s1
    | None =>
        let m := <["diagnostics" := AMaps [refused_row err m (rs_t s1)]]>
                   (<["restart_state" := AString "failed"]>
                     (<["probe_error" := AString err]> m)) in
        completeTransition (Some (restartBoundaryStatus w m)) None false s1
    end.

(** From [launchReplacement] on. *)
Definition replace (probe : restartProbeResult) (s : rstate) : rstate :=
  match a_launch a with
  | Err (err, logPath) => failRestart "launch" err logPath (log (EvLaunch false) s)
  | Ok (launched, generation) =>
      let s := with_t (set_generation generation) (log (EvLaunch true) s) in
      let m := <["probe" := AProbe probe]>
                 (<["transition_id" := AString (t_transitionID (rs_t s))]>
                   (<["generation_id" := AString generation]> launched)) in
      match setTransitionState RunningState (Some probe) None s with
      | (s1, Err e) => failRestart "state" (a_text a e) (weaverLogPath (StateDir w)) s1
      | (s1, Ok _) => completeTransition (Some (restartBoundaryStatus w m)) None false s1
      end
  end.

(** The irreversible part, under the admission lock. *)
Definition cutover (probe : restartProbeResult) (s : rstate) : rstate :=
  match setTransitionState Restarting (Some probe) None s with
  | (s1, Err e) => failRestart "state" (a_text a e) (p_Log probe) s1
  | (s1, Ok _) =>
      match t_old (rs_t s1) with
      | None => replace probe s1
      | Some _ =>
          match a_stop a with
          | Some e => failRestart "stop" e (p_Log probe) (log (EvStop false) s1)
          | None =>
              match setTransitionState Restarting (Some probe) None
                      (with_t set_oldStopped (log (EvStop true) s1)) with
              | (s2, Err e) => failRestart "state" (a_text a e) "" s2
              | (s2, Ok _) => replace probe (log EvRelease s2)
              end
          end
      end
  end.

Definition runRestartTransition (s : rstate) : rstate :=
  match a_source a with
  | Err e => failProbe None e s
  | Ok _ =>
      if t_retryStartup (rs_t s) then
        match t_probe (rs_t s) with
        | Some p => if p_Success p then cutover p s
                    else failRestart "probe" "replacement retry has no successful probe" "" s
        | None => failRestart "probe" "replacement retry has no successful probe" "" s
        end
      else
        match a_probe a with
        | Err e => failProbe None e s
        | Ok p =>
            if p_Success p then cutover p s
            else failProbe (Some p) ("restart probe failed at " +:+ p_Stage p) s
        end
  end.

End transition.

(** ** Entering a restart *)

Inductive begin_error :=
| BeginRead (e : restart_error)
| NotRetryable
| RetryLiveGeneration
| MissingPid
| BadIdentity
| StaleMetadata
| NoRunningWeaver
| BeginWrite (e : restart_error).

(** What [readStatus] answers: no metadata, stale metadata, or a live weaver
    with its pid and its identity, if they are usable. *)
Inductive live_status :=
| LiveNone
| LiveStale
| LiveWeaver (pid : option Z) (identity : option string) (generation : string).

(** The retry condition of a durable record of a failed restart. *)
Definition retryable (r : restartRecord) : option restartProbeResult :=
  match Probe r, Failure r with
  | Some p, Some f =>
      if p_Success p && OldGenerationStopped r && bool_decide (f_Stage f = "launch")
      then Some p else None
  | _, _ => None
  end.

(** The probe and the record of a retry. *)
Definition find_retry (d : disk) (io : option string)
    : result begin_error (option (restartProbeResult * restartRecord)) :=
  match readRestartRecordDetailed io d with
  | Err e => Err (BeginRead e)
  | Ok (Some r) =>
      if bool_decide (State r = "failed") then
        match retryable r with
        | Some p => Ok (Some (p, r))
        | None => Err NotRetryable
        end
      else Ok None
  | Ok None => Ok None
  end.

(** The generation that the metadata names, when the server supervises none. *)
Definition find_old (retry : bool) (live : live_status)
    : result begin_error (option old_generation) :=
  match live with
  | LiveWeaver pid identity generation =>
      if retry then Err RetryLiveGeneration
      else match pid with
           | None => Err MissingPid
           | Some pid =>
               if (pid <=? 0)%Z then Err MissingPid
               else match identity with
                    | None => Err BadIdentity
                    | Some weaver => Ok (Some (mkOld generation weaver))
                    end
           end
  | LiveStale => Err StaleMetadata
  | LiveNone => if retry then Ok None else Err NoRunningWeaver
  end.

(** The transition that a restart registers. [old] is the supervised child
    whose process is alive; [minted] the generation minted for a child without
    one; [tid] the new transition's name. *)
Definition new_transition (old : option old_generation)
    (retry : option (restartProbeResult * restartRecord)) (minted tid : string)
    : weaverTransition :=
  let old := (λ o, if bool_decide (o_generationID o = "") then mkOld minted (o_weaverID o)
                   else o) <$> old in
  let state := match retry with Some _ => Restarting | None => Probing end in
  mkTransition old tid state false
    (match old with
     | Some o => o_generationID o
     | None => match retry with Some (_, r) => GenerationID r | None => "" end
     end)
    (fst <$> retry) (match retry with Some _ => true | None => false end)
    (match retry with Some (_, r) => OldGenerationStopped r | None => false end).

(** From the look for a live child to the registered transition. *)
Definition restart_begin (old : option old_generation) (io : option string) (live : live_status)
    (minted tid : string) (d : disk) : result begin_error rstate :=
  match old with
  | Some _ => Ok (mkR (new_transition old None minted tid) d 0 None true [])
  | None =>
      match find_retry d io with
      | Err e => Err e
      | Ok retry =>
          match find_old (match retry with Some _ => true | None => false end) live with
          | Err e => Err e
          | Ok old => Ok (mkR (new_transition old retry minted tid) d 0 None true [])
          end
      end
  end.

(** The first durable write, and what its failure does. *)
Definition first_write (w : world) (a : answers) (s : rstate) : rstate * result restart_error unit :=
  let t := rs_t s in
  match setTransitionState a (t_state t) (if t_retryStartup t then t_probe t else None) None s with
  | (s1, Ok _) => (s1, Ok tt)
  | (s1, Err e) =>
      if negb (is_none (t_old t)) && negb (t_retryStartup t) then
        let s2 := with_t (λ t, mkTransition (t_old t) (t_transitionID t) RunningState
                    (t_cutoverStarted t) (t_generationID t) None (t_retryStartup t)
                    (t_oldStopped t)) s1 in
        let m := <["probe_error" := AString (a_text a e)]>
                   (<["restart_state" := AString "running"]>
                     (admittedGenerationStatus w a (rs_t s2))) in
        (completeTransition (Some m) (Some (a_text a e)) false s2, Err e)
      else (completeTransition None (Some (a_text a e)) true s1, Err e)
  end.

(** A whole restart of a workspace: the state after it, or the refusal. *)
Definition restartWeaver (w : world) (a : answers) (old : option old_generation)
    (io : option string) (live : live_status) (minted tid : string) (d : disk)
    : result begin_error rstate :=
  match restart_begin old io live minted tid d with
  | Err e => Err e
  | Ok s =>
      match first_write w a s with
      | (s1, Ok _) => Ok (runRestartTransition w a s1)
      | (s1, Err _) => Ok s1
      end
  end.

(** What a second restart does with the transition it finds registered. *)
Inductive join := JoinNone | JoinReplace | JoinWait.

Definition join_existing (existing : option weaverTransition) : join :=
  match existing with
  | None => JoinNone
  | Some t => if bool_decide (t_state t = FailedState) then JoinReplace else JoinWait
  end.

(** The status of a transition that the server still holds. *)
Definition transitionResultStatusDetailed (w : world) (t : weaverTransition) (res : option object)
    : object :=
  match res with
  | Some m => restartBoundaryStatus w m
  | None => restartBoundaryStatus w
              (<["transition_id" := AString (t_transitionID t)]>
                (baseStatus w (state_name (t_state t))))
  end.

Definition transitionResultStatus (w : world) (t : weaverTransition) (res : option object)
    : object :=
  let m := transitionResultStatusDetailed w t res in
  let m := match m !! "failure" with
           | Some f => delete "failure" (<["restart_failure" := f]> m)
           | None => m
           end in
  delete "diagnostics" (delete "probe" m).

(** ** Lemmas: one durable write *)

(** The state after a write that replaced the file. *)
Definition written (a : answers) (t : weaverTransition) (record : restartRecord) (s : rstate)
    : rstate :=
  mkR t (JSONFile (AObject (encode_record (with_updated (a_now a) record)))) (S (rs_writes s))
      (rs_result s) (rs_registered s) (rs_trace s ++ [EvWrite record true]).

(** The state after a write that failed. *)
Definition unwritten (t : weaverTransition) (record : restartRecord) (s : rstate) : rstate :=
  mkR t (rs_disk s) (S (rs_writes s)) (rs_result s) (rs_registered s)
      (rs_trace s ++ [EvWrite record false]).

Lemma setTransitionState_cases a state probe failure s :
  let t := set_tstate state (kept_probe <$> probe) (rs_t s) in
  let record := transition_record t state failure in
  (∃ e, validateRestartRecord record ForWrite = Err e
     ∧ setTransitionState a state probe failure s = (with_t (λ _, t) s, Err e))
  ∨ (∃ e, setTransitionState a state probe failure s = (unwritten t record s, Err e))
  ∨ (valid_record ForWrite record ∧ a_write a (rs_writes s) = None
     ∧ setTransitionState a state probe failure s = (written a t record s, Ok tt)).
Proof.
  simpl. unfold setTransitionState, writeRestartRecord.
  destruct (validateRestartRecord _ ForWrite) as [[]|e] eqn:Hv; [|left; by exists e].
  right. destruct (a_write a (rs_writes s)) as [io|] eqn:Hio.
  - left. by eexists.
  - right. split_and!; [by apply validate_sound|done|done].
Qed.

Lemma setTransitionState_ok a state probe failure s :
  let t := set_tstate state (kept_probe <$> probe) (rs_t s) in
  let record := transition_record t state failure in
  valid_record ForWrite record → a_write a (rs_writes s) = None →
  setTransitionState a state probe failure s = (written a t record s, Ok tt).
Proof.
  simpl. intros Hv Hio. unfold setTransitionState, writeRestartRecord.
  by rewrite (validate_complete _ _ Hv), Hio.
Qed.

(** *** Order *)

(** Nothing irreversible happens before what must be durable first. *)
Definition ordered (old : option old_generation) (tr : list event) : Prop :=
  ∀ pre e post, tr = pre ++ e :: post →
    match e with
    | EvStop _ => ∃ r, EvWrite r true ∈ pre ∧ State r = "restarting" ∧ probe_succeeded r = true
    | EvLaunch _ =>
        ∃ r, EvWrite r true ∈ pre ∧ State r = "restarting" ∧ probe_succeeded r = true
          ∧ (old ≠ None → EvStop true ∈ pre ∧ OldGenerationStopped r = true)
    | EvComplete => post = []
    | _ => True
    end.

Lemma ordered_snoc old tr e :
  ordered old tr → EvComplete ∉ tr →
  match e with
  | EvStop _ => ∃ r, EvWrite r true ∈ tr ∧ State r = "restarting" ∧ probe_succeeded r = true
  | EvLaunch _ =>
      ∃ r, EvWrite r true ∈ tr ∧ State r = "restarting" ∧ probe_succeeded r = true
        ∧ (old ≠ None → EvStop true ∈ tr ∧ OldGenerationStopped r = true)
  | _ => True
  end → ordered old (tr ++ [e]).
Proof.
  intros Ho Hc He pre e' post Heq.
  destruct post as [|x post _] using rev_ind.
  - apply app_inj_tail in Heq as [<- <-]. destruct e; try done.
  - rewrite app_comm_cons, app_assoc in Heq. apply app_inj_tail in Heq as [Heq _].
    specialize (Ho _ _ _ Heq). destruct e'; try done. destruct Hc. rewrite Heq, elem_of_app.
    right. by left.
Qed.

(** A transition that has not completed and has done nothing out of order. *)
Definition going (old : option old_generation) (s : rstate) : Prop :=
  ordered old (rs_trace s) ∧ EvComplete ∉ rs_trace s ∧ t_old (rs_t s) = old.

(** A completed one: the completion is its last event, and its only one. *)
Definition completed (old : option old_generation) (s : rstate) : Prop :=
  ordered old (rs_trace s) ∧ is_Some (rs_result s)
  ∧ ∃ tr, rs_trace s = tr ++ [EvComplete] ∧ EvComplete ∉ tr.

Lemma going_snoc old s e t d n res reg :
  going old s → t_old t = old → e ≠ EvComplete →
  match e with
  | EvStop _ => ∃ r, EvWrite r true ∈ rs_trace s ∧ State r = "restarting" ∧ probe_succeeded r = true
  | EvLaunch _ =>
      ∃ r, EvWrite r true ∈ rs_trace s ∧ State r = "restarting" ∧ probe_succeeded r = true
        ∧ (old ≠ None → EvStop true ∈ rs_trace s ∧ OldGenerationStopped r = true)
  | _ => True
  end → going old (mkR t d n res reg (rs_trace s ++ [e])).
Proof.
  intros (Ho & Hc & Hold) Ht Hne He. split_and!; simpl; [by apply ordered_snoc| |done].
  rewrite elem_of_app, list_elem_of_singleton. naive_solver.
Qed.

Lemma set_going a old state probe failure s :
  going old s → going old (setTransitionState a state probe failure s).1.
Proof.
  intros Hg. pose proof Hg as (Ho & Hc & Hold).
  destruct (setTransitionState_cases a state probe failure s)
    as [(e & _ & ->)|[(e & ->)|(_ & _ & ->)]]; simpl.
  - done.
  - by apply going_snoc.
  - by apply going_snoc.
Qed.

Lemma complete_completed old res err retain s :
  going old s → completed old (completeTransition res err retain s).
Proof.
  intros (Ho & Hc & Hold). split_and!; simpl; [by apply ordered_snoc|by eexists|by eexists].
Qed.

Lemma failRestart_completed w a old stage err logPath s :
  going old s → completed old (failRestart w a stage err logPath s).
Proof.
  intros Hg. unfold failRestart.
  pose proof (set_going a old FailedState None (Some (mkFailure stage err logPath "")) s Hg) as H1.
  destruct (setTransitionState _ _ _ _ _) as [s1 r]. by apply complete_completed.
Qed.

Lemma failProbe_completed w a old probe err s :
  going old s → completed old (failProbe w a probe err s).
Proof.
  intros Hg. unfold failProbe. destruct (_ || _); [by apply failRestart_completed|].
  set (p := Some (default _ _)). set (f := Some (mkFailure _ _ _ _)).
  pose proof (set_going a old RunningState p f s Hg) as H1.
  destruct (setTransitionState a RunningState p f s) as [s1 r]. simpl in H1.
  destruct (err_text a r); by apply complete_completed.
Qed.

(** The durable record that must exist before a launch. *)
Definition ready_to_launch (old : option old_generation) (tr : list event) : Prop :=
  ∃ r, EvWrite r true ∈ tr ∧ State r = "restarting" ∧ probe_succeeded r = true
    ∧ (old ≠ None → EvStop true ∈ tr ∧ OldGenerationStopped r = true).

Lemma replace_completed w a old probe s :
  going old s → ready_to_launch old (rs_trace s) → completed old (replace w a probe s).
Proof.
  intros Hg Hr. unfold replace.
  assert (Hlog : ∀ b, going old (log (EvLaunch b) s)).
  { intros b. unfold log. apply going_snoc; [done|by destruct Hg as (_ & _ & ->)|done|exact Hr]. }
  destruct (a_launch a) as [[launched g]|[e lp]]; [|by apply failRestart_completed].
  set (s' := with_t _ _). assert (Hs' : going old s') by exact (Hlog true).
  pose proof (set_going a old RunningState (Some probe) None s' Hs') as H1.
  destruct (setTransitionState a RunningState (Some probe) None s') as [s1 [[]|e]];
    [by apply complete_completed|by apply failRestart_completed].
Qed.

Lemma cutover_completed w a old probe s :
  p_Success probe = true → going old s → completed old (cutover w a probe s).
Proof.
  intros Hp Hg. unfold cutover. pose proof Hg as (_ & _ & Hold).
  destruct (setTransitionState_cases a Restarting (Some probe) None s)
    as [(e & _ & Heq)|[(e & Heq)|(_ & _ & Heq)]];
    pose proof (set_going a old Restarting (Some probe) None s Hg) as H1;
    rewrite Heq in H1 |- *; [by apply failRestart_completed..|].
  simpl in H1. set (s1 := written _ _ _ _) in *.
  assert (Hrec : ∃ r, EvWrite r true ∈ rs_trace s1 ∧ State r = "restarting"
                      ∧ probe_succeeded r = true).
  { eexists. split; [simpl; rewrite elem_of_app, list_elem_of_singleton; by right|].
    done. }
  assert (Hold1 : t_old (rs_t s1) = old) by by destruct H1 as (_ & _ & ?).
  rewrite Hold1. destruct old as [o|].
  2:{ apply replace_completed; [done|]. destruct Hrec as (r & ? & ? & ?). by exists r. }
  assert (Hstop : ∀ b, going (Some o) (log (EvStop b) s1)) by (intros b; by apply going_snoc).
  destruct (a_stop a) as [e|]; [by apply failRestart_completed|].
  set (s2 := with_t set_oldStopped _).
  assert (Hs2 : going (Some o) s2) by exact (Hstop true).
  destruct (setTransitionState_cases a Restarting (Some probe) None s2)
    as [(e & _ & Heq2)|[(e & Heq2)|(_ & _ & Heq2)]];
    pose proof (set_going a (Some o) Restarting (Some probe) None s2 Hs2) as H2;
    rewrite Heq2 in H2 |- *; [by apply failRestart_completed..|].
  simpl in H2. apply replace_completed.
  - by apply going_snoc; [|destruct H2 as (_ & _ & ?)|..].
  - eexists. split; [simpl; rewrite !elem_of_app, !list_elem_of_singleton; left; by right|].
    split_and!; [done|done|]. intros _. split; [|done]. simpl.
    rewrite !elem_of_app, !list_elem_of_singleton. tauto.
Qed.

Lemma run_completed w a old s :
  going old s → completed old (runRestartTransition w a s).
Proof.
  intros Hg. unfold runRestartTransition.
  destruct (a_source a); [|by apply failProbe_completed].
  destruct (t_retryStartup (rs_t s)).
  - destruct (t_probe (rs_t s)) as [p|]; [|by apply failRestart_completed].
    destruct (p_Success p) eqn:Hp; [by apply cutover_completed|by apply failRestart_completed].
  - destruct (a_probe a) as [p|]; [|by apply failProbe_completed].
    destruct (p_Success p) eqn:Hp; [by apply cutover_completed|by apply failProbe_completed].
Qed.

(** ** Lemmas: validity of what a transition writes *)

(** A transition whose identities and probe can be written. *)
Record sound (t : weaverTransition) : Prop := {
  so_tid : is_blank (t_transitionID t) = false;
  so_gen : is_blank (t_generationID t) = false;
  so_old : ∀ o, t_old t = Some o →
    is_blank (o_generationID o) = false ∧ blank_but_set (o_weaverID o) = false;
  so_probe : ∀ p, t_probe t = Some p → validate p = Ok tt;
  so_stopped : t_oldStopped t = true → ∃ p, t_probe t = Some p ∧ p_Success p = true;
}.

Lemma validate_kept p : validate p = Ok tt → validate (kept_probe p) = Ok tt.
Proof. unfold validate. simpl. by destruct (p_Completed p), (p_Diagnostics p). Qed.

Lemma blank_but_set_nonblank s : is_blank s = false → blank_but_set s = false.
Proof. intros H. unfold blank_but_set. by rewrite H, andb_false_r. Qed.

Lemma sound_set state probe t :
  sound t → (∀ p, probe = Some p → validate p = Ok tt ∧ (t_oldStopped t = true → p_Success p = true)) →
  sound (set_tstate state (kept_probe <$> probe) t).
Proof.
  intros [H1 H2 H3 H4 H5] Hp. split; simpl; try done.
  - intros p. destruct probe as [q|]; simpl; [|by apply H4]. intros [= <-].
    apply validate_kept. by destruct (Hp q eq_refl).
  - intros Hs. destruct probe as [q|]; simpl; [|by apply H5].
    destruct (Hp q eq_refl) as [_ Hq]. exists (kept_probe q). split; [done|]. by apply Hq.
Qed.

Lemma sound_record t state failure :
  sound t → (∀ f, failure = Some f → is_blank (f_Stage f) = false ∧ is_blank (f_Message f) = false) →
  state_shape state (transition_record t state failure) →
  valid_record ForWrite (transition_record t state failure).
Proof.
  intros [H1 H2 H3 H4 H5] Hf Hsh. split; simpl; try done.
  - split_and!; [by apply blank_but_set_nonblank|..].
    + destruct (t_old t) as [o|] eqn:Ho; [|done]. apply blank_but_set_nonblank, (H3 o eq_refl).
    + destruct (t_old t) as [o|] eqn:Ho; [|done]. apply (H3 o eq_refl).
  - by exists state.
Qed.

Lemma sound_probed t : sound t → t_oldStopped t = true →
  probe_succeeded (transition_record t Restarting None) = true.
Proof. intros H Hs. destruct (so_stopped _ H Hs) as (p & Hp & Hq). simpl. unfold probe_succeeded. simpl. by rewrite Hp. Qed.

Lemma shape_restarting t : sound t → state_shape Restarting (transition_record t Restarting None).
Proof.
  intros H. split; [done|]. intros Hs. split; [by apply sound_probed|]. by apply (so_gen _ H).
Qed.

Lemma shape_running t :
  sound t → state_shape RunningState (transition_record t RunningState None).
Proof.
  intros H. split_and!; [by apply (so_gen _ H)| |by left].
  intros Hs. by apply sound_probed.
Qed.

Lemma shape_launch_failed t err lp :
  sound t → state_shape FailedState
    (transition_record t FailedState (Some (mkFailure "launch" err lp ""))).
Proof. intros H. eexists. split; [done|]. intros Hs. split; [by apply sound_probed|done]. Qed.

(** ** Lemmas: a transition without write errors *)

Section quiet.
Context (w : world) (a : answers).
Hypothesis writes_ok : ∀ n, a_write a n = None.
Hypothesis now_ok : is_blank (a_now a) = false.

Lemma set_restarting p s :
  sound (rs_t s) → validate p = Ok tt → p_Success p = true →
  let t := set_tstate Restarting (Some (kept_probe p)) (rs_t s) in
  setTransitionState a Restarting (Some p) None s
  = (written a t (transition_record t Restarting None) s, Ok tt) ∧ sound t.
Proof using writes_ok.
  intros Hs Hv Hp. assert (Ht : sound (set_tstate Restarting (kept_probe <$> Some p) (rs_t s))).
  { apply sound_set; [done|]. by intros q [= <-]. }
  split; [|exact Ht]. apply (setTransitionState_ok a Restarting (Some p) None s); [|done].
  apply sound_record; [exact Ht|done|]. by apply shape_restarting.
Qed.

(** What a launch does once its record is written. *)
Lemma replace_failed p err lp s :
  sound (rs_t s) → a_launch a = Err (err, lp) → is_blank err = false →
  let s' := replace w a p s in
  let r := transition_record (rs_t s) FailedState (Some (mkFailure "launch" err lp "")) in
  readRestartRecordDetailed None (rs_disk s') = Ok (Some (persisted (a_now a) r))
  ∧ rs_registered s' = rs_registered s ∧ t_state (rs_t s') = FailedState.
Proof using writes_ok now_ok.
  intros Hs Hl He. simpl. unfold replace. rewrite Hl. unfold failRestart.
  set (f := mkFailure "launch" err lp "").
  assert (Hs' : sound (set_tstate FailedState None (rs_t s))) by (by apply (sound_set FailedState None)).
  assert (Hv : valid_record ForWrite
    (transition_record (set_tstate FailedState None (rs_t s)) FailedState (Some f))).
  { apply sound_record; [done|by intros ? [= <-]|by apply shape_launch_failed]. }
  rewrite (setTransitionState_ok a FailedState None (Some f) (log (EvLaunch false) s) Hv) by done.
  simpl. split_and!; [by apply (read_encoded _ _ now_ok Hv)|by rewrite andb_true_r|done].
Qed.

Lemma replace_launched p launched g s :
  sound (rs_t s) → validate p = Ok tt → p_Success p = true →
  a_launch a = Ok (launched, g) → is_blank g = false →
  let s' := replace w a p s in
  let t := set_tstate RunningState (Some (kept_probe p)) (set_generation g (rs_t s)) in
  readRestartRecordDetailed None (rs_disk s')
  = Ok (Some (persisted (a_now a) (transition_record t RunningState None)))
  ∧ rs_registered s' = false
  ∧ rs_result s' = Some (Some (restartBoundaryStatus w
      (<["probe" := AProbe p]> (<["transition_id" := AString (t_transitionID (rs_t s))]>
        (<["generation_id" := AString g]> launched)))), None).
Proof using writes_ok now_ok.
  intros [H1 H2 H3 H4 H5] Hv Hp Hl Hg. simpl. unfold replace. rewrite Hl.
  set (s1 := with_t (set_generation g) (log (EvLaunch true) s)).
  assert (Hs1 : sound (rs_t s1)) by by split.
  set (t := set_tstate RunningState (kept_probe <$> Some p) (rs_t s1)).
  assert (Ht : sound t). { apply sound_set; [done|]. by intros q [= <-]. }
  assert (Hr : valid_record ForWrite (transition_record t RunningState None)).
  { apply sound_record; [done|done|by apply shape_running]. }
  rewrite (setTransitionState_ok a RunningState (Some p) None s1 Hr) by done. simpl.
  split_and!; [by apply (read_encoded _ _ now_ok Hr)|by rewrite andb_false_r|done].
Qed.

(** A cutover whose stop succeeds reaches the launch with a sound transition. *)
Lemma cutover_reaches p s :
  sound (rs_t s) → validate p = Ok tt → p_Success p = true → a_stop a = None →
  ∃ s1, cutover w a p s = replace w a p s1 ∧ sound (rs_t s1)
    ∧ t_transitionID (rs_t s1) = t_transitionID (rs_t s)
    ∧ t_generationID (rs_t s1) = t_generationID (rs_t s)
    ∧ t_probe (rs_t s1) = Some (kept_probe p)
    ∧ t_oldStopped (rs_t s1) = (negb (is_none (t_old (rs_t s))) || t_oldStopped (rs_t s))
    ∧ rs_registered s1 = rs_registered s.
Proof using writes_ok.
  intros Hs Hv Hp Hstop. unfold cutover.
  destruct (set_restarting p s Hs Hv Hp) as [-> Hs1]. set (s1 := written _ _ _ _).
  assert (Hold : t_old (rs_t s1) = t_old (rs_t s)) by done. rewrite Hold.
  destruct (t_old (rs_t s)) as [o|] eqn:Ho.
  2:{ exists s1. by split_and!. }
  rewrite Hstop. set (s2 := with_t set_oldStopped _).
  assert (Hs2 : sound (rs_t s2)).
  { destruct Hs1 as [K1 K2 K3 K4 K5]. split; simpl; try done. intros _. by exists (kept_probe p). }
  destruct (set_restarting p s2 Hs2 Hv Hp) as [-> Hs3].
  eexists. split; [reflexivity|]. by split_and!.
Qed.
End quiet.

(** ** What a restart promises *)

Lemma begin_going old io live minted tid d s :
  restart_begin old io live minted tid d = Ok s → going (t_old (rs_t s)) s ∧ rs_disk s = d.
Proof.
  assert (Hnew : ∀ t, going (t_old t) (mkR t d 0 None true [])).
  { intros t. split_and!; simpl; [|by intros ?%elem_of_nil|done].
    intros pre e post Heq. by destruct pre. }
  unfold restart_begin. destruct old as [o|]; [intros [= <-]; split; [apply Hnew|done]|].
  destruct (find_retry d io) as [retry|]; [|done].
  destruct (find_old _ live) as [old|]; [|done]. intros [= <-]. split; [apply Hnew|done].
Qed.

Lemma set_old a state probe failure s :
  t_old (rs_t (setTransitionState a state probe failure s).1) = t_old (rs_t s).
Proof.
  by destruct (setTransitionState_cases a state probe failure s)
    as [(e & _ & ->)|[(e & ->)|(_ & _ & ->)]].
Qed.

(** C26: whatever the probe, the signals, the launch and the disk answer, a
    restart that begins completes exactly once, as its last act; it stops the old
    generation only after a record of a successful probe is on disk, and launches
    the replacement only after that, and, when there was an old generation, only
    after it was stopped and a record that says so is on disk. *)
Theorem restart_ordered w a old io live minted tid d s0 s :
  restart_begin old io live minted tid d = Ok s0 →
  restartWeaver w a old io live minted tid d = Ok s →
  ordered (t_old (rs_t s0)) (rs_trace s) ∧ is_Some (rs_result s)
  ∧ ∃ tr, rs_trace s = tr ++ [EvComplete] ∧ EvComplete ∉ tr.
Proof.
  intros Hb. unfold restartWeaver. rewrite Hb. apply begin_going in Hb as [Hg _].
  unfold first_write. set (probe := if t_retryStartup (rs_t s0) then _ else _).
  pose proof (set_going a _ (t_state (rs_t s0)) probe None s0 Hg) as H1.
  destruct (setTransitionState a (t_state (rs_t s0)) probe None s0) as [s1 [[]|e]]; simpl in H1.
  - intros [= <-]. by apply run_completed.
  - destruct (_ && _); intros [= <-]; by apply complete_completed.
Qed.

(** A durable record that a restart may retry from. *)
Definition retry_ready (gen : string) (d : disk) : Prop :=
  ∃ r p, readRestartRecordDetailed None d = Ok (Some r) ∧ State r = "failed"
    ∧ retryable r = Some p ∧ GenerationID r = gen ∧ is_blank gen = false.

(** What a restart is entered with: a live supervised generation, or none and a
    record to retry from. *)
Inductive entry (a : answers) (d : disk) (gen : string) : option old_generation → Prop :=
| entry_live o p :
    gen = o_generationID o → is_blank gen = false → blank_but_set (o_weaverID o) = false →
    a_probe a = Ok p → validate p = Ok tt → p_Success p = true →
    entry a d gen (Some o)
| entry_retry : retry_ready gen d → entry a d gen None.

Lemma retryable_inv r p : retryable r = Some p →
  Probe r = Some p ∧ p_Success p = true ∧ OldGenerationStopped r = true.
Proof.
  unfold retryable. destruct (Probe r) as [q|], (Failure r) as [f|]; try done.
  destruct (_ && _) eqn:E; [|done]. intros [= <-]. by bools.
Qed.

(** From an entry, with a source, a stop and a working disk, the run comes to
    the launch with a sound transition. *)
Lemma entry_reaches w a old gen minted tid d :
  (∀ n, a_write a n = None) → a_source a = Ok tt → a_stop a = None →
  is_blank tid = false → entry a d gen old →
  ∃ p s, restartWeaver w a old None LiveNone minted tid d = Ok (replace w a p s)
    ∧ sound (rs_t s) ∧ validate p = Ok tt ∧ p_Success p = true
    ∧ t_transitionID (rs_t s) = tid ∧ t_generationID (rs_t s) = gen
    ∧ t_probe (rs_t s) = Some (kept_probe p) ∧ t_oldStopped (rs_t s) = true
    ∧ rs_registered s = true.
Proof.
  intros Hw Hsrc Hstop Htid [o p -> Hgen Hwv Hprobe Hv Hp|(r & p & Hread & Hst & Hretry & Hgen & Hgb)].
  - unfold restartWeaver, restart_begin, first_write. simpl.
    assert (Hb : bool_decide (o_generationID o = "") = false).
    { apply bool_decide_eq_false. intros Hx. rewrite Hx in Hgen. by rewrite is_blank_empty in Hgen. }
    set (s0 := mkR _ d 0 None true []).
    assert (Hs0 : sound (rs_t s0)).
    { subst s0. unfold new_transition. simpl. rewrite Hb. split; simpl; try done.
      by intros ? [= <-]. }
    assert (Hpr : valid_record ForWrite
      (transition_record (set_tstate Probing (kept_probe <$> None) (rs_t s0)) Probing None)).
    { apply sound_record; [by apply sound_set|done|].
      subst s0. unfold new_transition. simpl. rewrite Hb. by split_and!. }
    rewrite (setTransitionState_ok a Probing None None s0 Hpr) by done.
    set (s1 := written _ _ _ _). unfold runRestartTransition. rewrite Hsrc, Hprobe, Hp. simpl.
    assert (Hs1 : sound (rs_t s1)) by by apply (sound_set Probing None).
    destruct (cutover_reaches w a Hw p s1 Hs1 Hv Hp Hstop)
      as (s & -> & Hs & Ht & Hg & Hpb & Hos & Hreg).
    exists p, s. split_and!; try done.
    rewrite Hg. subst s1 s0. unfold new_transition. simpl. by rewrite Hb.
  - apply retryable_inv in Hretry as Hinv. destruct Hinv as (Hpb & Hp & Hos).
    assert (Hv : validate p = Ok tt).
    { apply restart_record_read in Hread as Hvr. by apply (vr_probe _ _ Hvr). }
    unfold restartWeaver, restart_begin, find_retry.
    rewrite Hread, Hst. rewrite bool_decide_eq_true_2 by done. rewrite Hretry. simpl.
    unfold first_write. simpl. set (s0 := mkR _ d 0 None true []).
    assert (Hs0 : sound (rs_t s0)).
    { subst s0. split; simpl; try done; [by rewrite Hgen|by intros ? [= <-]|].
      intros _. by exists p. }
    destruct (set_restarting a Hw p s0 Hs0 Hv Hp) as [-> Hs1].
    set (s1 := written _ _ _ _). unfold runRestartTransition. rewrite Hsrc. simpl. rewrite Hp.
    destruct (cutover_reaches w a Hw (kept_probe p) s1 Hs1 (validate_kept _ Hv) Hp Hstop)
      as (s & -> & Hs & Ht & Hg & Hpb' & Hos' & Hreg).
    exists (kept_probe p), s.
    split_and!; first [done|by apply validate_kept|by rewrite Hg|by rewrite Hos'].
Qed.

(** a replacement that cannot be launched leaves a record to retry from: after
    a restart of a live generation, or a retry, whose launch fails on a working
    disk, the file reads back as a failed record with the successful probe, the
    stopped generation and its identity, the transition is kept as failed, and a
    later restart with no live weaver enters as a retry. So any number of failed
    launches stays retryable. *)
Theorem launch_failure_retryable w a old gen minted tid d err lp :
  (∀ n, a_write a n = None) → is_blank (a_now a) = false →
  a_source a = Ok tt → a_stop a = None → is_blank tid = false → entry a d gen old →
  a_launch a = Err (err, lp) → is_blank err = false →
  ∃ s, restartWeaver w a old None LiveNone minted tid d = Ok s
    ∧ retry_ready gen (rs_disk s)
    ∧ join_existing (if rs_registered s then Some (rs_t s) else None) = JoinReplace
    ∧ entry a (rs_disk s) gen None.
Proof.
  intros Hw Hnow Hsrc Hstop Htid Hentry Hl He.
  destruct (entry_reaches w a old gen minted tid d Hw Hsrc Hstop Htid Hentry)
    as (p & s & -> & Hs & Hv & Hp & _ & Hg & Hpb & Hos & Hreg).
  destruct (replace_failed w a Hw Hnow p err lp s Hs Hl He) as (Hread & Hr & Hst).
  assert (Hready : retry_ready gen (rs_disk (replace w a p s))).
  { eexists _, (kept_probe p). split; [exact Hread|]. split; [done|].
    unfold retryable, persisted. simpl. rewrite Hpb, Hos. simpl. rewrite Hp.
    split_and!; [done|exact Hg|]. rewrite <-Hg. by apply so_gen. }
  eexists. split; [reflexivity|]. split_and!; [done| |by apply entry_retry].
  rewrite Hr, Hreg. unfold join_existing. by rewrite Hst.
Qed.

(** from the same entries, a replacement that becomes ready leaves a valid
    running record of the new generation, a completed result without error, and
    no transition registered. *)
Theorem restart_succeeds w a old gen minted tid d launched g :
  (∀ n, a_write a n = None) → is_blank (a_now a) = false →
  a_source a = Ok tt → a_stop a = None → is_blank tid = false → entry a d gen old →
  a_launch a = Ok (launched, g) → is_blank g = false →
  ∃ s r, restartWeaver w a old None LiveNone minted tid d = Ok s
    ∧ readRestartRecordDetailed None (rs_disk s) = Ok (Some r)
    ∧ State r = "running" ∧ GenerationID r = g ∧ TransitionID r = tid ∧ Failure r = None
    ∧ rs_registered s = false
    ∧ ∃ m, rs_result s = Some (Some m, None) ∧ m !! "generation_id" = Some (AString g)
        ∧ m !! "transition_id" = Some (AString tid).
Proof.
  intros Hw Hnow Hsrc Hstop Htid Hentry Hl Hg.
  destruct (entry_reaches w a old gen minted tid d Hw Hsrc Hstop Htid Hentry)
    as (p & s & -> & Hs & Hv & Hp & Ht & _ & _ & _ & _).
  destruct (replace_launched w a Hw Hnow p launched g s Hs Hv Hp Hl Hg) as (Hread & Hr & Hres).
  eexists _, _. split; [reflexivity|]. split; [exact Hread|].
  split_and!; try done. eexists. split; [exact Hres|].
  unfold restartBoundaryStatus.
  split; rewrite !lookup_insert_ne by discriminate; by rewrite lookup_insert_eq, ?Ht.
Qed.

(** a probe that fails, or that reports failure, keeps the admitted
    generation: nothing is stopped or launched, the transition is dropped, and on
    a working disk the record says running, with the refusal. *)
Theorem refused_probe_keeps_generation w a o minted tid d :
  (∀ e, a_probe a = Err e → is_blank e = false ∧ is_blank (StateDir w) = false
        ∧ is_blank (ConfigDir w) = false ∧ is_blank (weaverLogPath (StateDir w)) = false) →
  (∀ p, a_probe a = Ok p → validate p = Ok tt ∧ p_Success p = false) →
  (∀ n, a_write a n = None) → is_blank (a_now a) = false → a_source a = Ok tt →
  is_blank tid = false → is_blank (o_generationID o) = false →
  blank_but_set (o_weaverID o) = false →
  ∃ s r, restartWeaver w a (Some o) None LiveNone minted tid d = Ok s
    ∧ (∀ b, EvStop b ∉ rs_trace s ∧ EvLaunch b ∉ rs_trace s)
    ∧ rs_registered s = false
    ∧ readRestartRecordDetailed None (rs_disk s) = Ok (Some r)
    ∧ State r = "running" ∧ GenerationID r = o_generationID o ∧ is_Some (Failure r)
    ∧ ∃ m, rs_result s = Some (Some m, None) ∧ m !! "restart_state" = Some (AString "failed").
Proof.
  intros Herr Hres Hw Hnow Hsrc Htid Hgen Hwv.
  unfold restartWeaver, restart_begin, first_write. simpl.
  assert (Hb : bool_decide (o_generationID o = "") = false).
  { apply bool_decide_eq_false. intros Hx. rewrite Hx in Hgen. by rewrite is_blank_empty in Hgen. }
  set (s0 := mkR _ d 0 None true []).
  assert (Hs0 : sound (rs_t s0)).
  { subst s0. unfold new_transition. simpl. rewrite Hb. split; simpl; try done.
    by intros ? [= <-]. }
  assert (Ht0 : rs_t s0 = mkTransition (Some o) tid Probing false (o_generationID o) None false false).
  { subst s0. unfold new_transition. simpl. by rewrite Hb. }
  assert (Hpr : valid_record ForWrite
    (transition_record (set_tstate Probing (kept_probe <$> None) (rs_t s0)) Probing None)).
  { apply sound_record; [by apply sound_set|done|]. rewrite Ht0. by split_and!. }
  rewrite (setTransitionState_ok a Probing None None s0 Hpr) by done. rewrite Ht0.
  set (s1 := written _ _ _ _).
  assert (Hrefuse : ∃ probe err, runRestartTransition w a s1 = failProbe w a probe err s1
    ∧ is_blank err = false
    ∧ let p := default (transport_probe w err) probe in validate p = Ok tt ∧ p_Success p = false).
  { unfold runRestartTransition. rewrite Hsrc. simpl. destruct (a_probe a) as [p|e].
    - destruct (Hres p eq_refl) as [Hv Hp]. rewrite Hp. exists (Some p). eexists.
      split; [reflexivity|]. split; [by apply nonblank_head|done].
    - destruct (Herr e eq_refl) as (He & H1 & H2 & H3). exists None, e. split_and!; [done..| |done].
      unfold validate, transport_probe. simpl. by rewrite H1, H2, H3. }
  destruct Hrefuse as (probe & err & -> & He & Hp). simpl in Hp. destruct Hp as [Hv Hf].
  unfold failProbe. simpl. set (p := default _ probe) in *. set (f := mkFailure "probe" err "" "").
  assert (Hr : valid_record ForWrite
    (transition_record (set_tstate RunningState (kept_probe <$> Some p) (rs_t s1)) RunningState (Some f))).
  { apply sound_record.
    - apply sound_set; [rewrite Ht0 in Hs0; by apply (sound_set Probing None)|].
      by intros q [= <-].
    - by intros ? [= <-].
    - split_and!; [done|done|]. right. exists f, (kept_probe p). by split_and!. }
  rewrite (setTransitionState_ok a RunningState (Some p) (Some f) s1 Hr) by done. simpl.
  eexists _, _. split; [reflexivity|]. split_and!; simpl.
  - intros b. rewrite !not_elem_of_cons. by split_and!; try apply not_elem_of_nil.
  - done.
  - by apply (read_encoded _ _ Hnow Hr).
  - done.
  - done.
  - by eexists.
  - eexists. split; [reflexivity|]. unfold restartBoundaryStatus.
    rewrite !lookup_insert_ne by discriminate. by rewrite lookup_insert_eq.
Qed.

(** ** Lemmas: projections *)

Lemma lookup_copy_keys keys src dst k :
  copy_keys keys src dst !! k
  = if bool_decide (k ∈ keys) then (match src !! k with Some v => Some v | None => dst !! k end)
    else dst !! k.
Proof.
  unfold copy_keys. revert dst. induction keys as [|key keys IH]; intros dst; simpl; [done|].
  rewrite IH. destruct (decide (k = key)) as [->|Hne].
  - rewrite (bool_decide_eq_true_2 (key ∈ key :: keys)) by by left.
    case_bool_decide; destruct (src !! key) eqn:E; try done; by rewrite lookup_insert_eq.
  - assert (Hk : (match src !! key with Some v => <[key:=v]> dst | None => dst end) !! k = dst !! k).
    { destruct (src !! key); [by rewrite lookup_insert_ne|done]. }
    rewrite Hk. rewrite (bool_decide_ext (k ∈ key :: keys) (k ∈ keys)); [done|].
    rewrite elem_of_cons. naive_solver.
Qed.

Lemma result_projection_lookup m k :
  restartResultProjection m !! k
  = if bool_decide (k ∈ projection_keys) then m !! k
    else if bool_decide (k = "state") then
      Some (AString (if bool_decide (text "restart_state" m = "failed") then "failed"
                     else text "state" m))
    else if bool_decide (k = "workspace") then Some (default ANil (m !! "workspace"))
    else if bool_decide (k = "operation") then Some (AString "restart")
    else None.
Proof.
  unfold restartResultProjection. rewrite lookup_copy_keys. case_bool_decide as Hk.
  - destruct (m !! k); [done|].
    rewrite !lookup_insert_ne by (intros <-; revert Hk; apply (bool_decide_unpack _); done). done.
  - rewrite !lookup_insert. by repeat case_decide; repeat case_bool_decide; subst.
Qed.

Lemma as_text_text m key : is_Some (as_text (m !! key)) → as_text (m !! key) = Some (text key m).
Proof. unfold text. by intros [s ->]. Qed.

(** What the validator of projections needs to accept. *)
Lemma projection_accepted (q : object) (withOperation allow : bool) st :
  (if withOperation then as_text (q !! "operation") = Some "restart"
   else q !! "operation" = None) →
  (∀ k : string, is_Some (q !! k) →
     k ∈ ["workspace"; "state"; "generation_id"; "transition_id"; "diagnostics"]
         ++ (if withOperation then ["operation"] else [])) →
  text_ok (q !! "workspace") = true → q !! "state" = Some (AString (state_name st)) →
  (present "generation_id" q = true → text_ok (q !! "generation_id") = true) →
  (present "transition_id" q = true → text_ok (q !! "transition_id") = true) →
  validate_rows (q !! "diagnostics") = Ok tt → validate_state st allow q = Ok tt →
  validateRestartProjection (Some q) withOperation allow = Ok tt.
Proof.
  intros Hop Hk Hw Hs Hg Ht Hd Hst. unfold validateRestartProjection.
  assert (Hkeys : only_keys (["workspace"; "state"; "generation_id"; "transition_id"; "diagnostics"]
                             ++ if withOperation then ["operation"] else []) q = true).
  { apply forallb_forall. intros [k v] Hin. apply list_elem_of_In, elem_of_map_to_list in Hin.
    apply bool_decide_eq_true. cbn [fst]. by apply Hk. }
  assert (Hop' : (if withOperation
       then ensure (bool_decide (as_text (q !! "operation") = Some "restart")) OperationField
       else ensure (negb (present "operation" q)) OperationField) = Ok tt).
  { destruct withOperation; [by rewrite bool_decide_eq_true_2|]. unfold present. by rewrite Hop. }
  assert (Hck : check_each (λ key, ensure (negb (present key q) || text_ok (q !! key)) (BadField key))
                  ["generation_id"; "transition_id"] = Ok tt).
  { apply check_each_ok. repeat (apply Forall_cons; split); [..|by apply Forall_nil].
    - destruct (present "generation_id" q); [|done]. by rewrite Hg.
    - destruct (present "transition_id" q); [|done]. by rewrite Ht. }
  rewrite Hop', Hkeys, Hw, Hs. cbn [as_text mbind option_bind result_bind ensure].
  rewrite parse_state_self, Hck, Hd. exact Hst.
Qed.

Lemma in_projection_keys :
  "generation_id" ∈ projection_keys ∧ "transition_id" ∈ projection_keys
  ∧ "diagnostics" ∈ projection_keys.
Proof. unfold projection_keys. set_solver. Qed.

Lemma result_projection_valid m st :
  (if bool_decide (text "restart_state" m = "failed") then "failed" else text "state" m)
    = state_name st →
  text_ok (m !! "workspace") = true →
  (present "generation_id" m = true → text_ok (m !! "generation_id") = true) →
  (present "transition_id" m = true → text_ok (m !! "transition_id") = true) →
  validate_rows (m !! "diagnostics") = Ok tt →
  validate_state st false m = Ok tt →
  validateRestartResult (Some (restartResultProjection m)) = Ok tt.
Proof.
  intros Hst Hws Hgen Htid Hrows Hstate.
  pose proof (result_projection_lookup m) as Hl.
  set (q := restartResultProjection m) in *.
  assert (Hp : ∀ key, key ∈ projection_keys → q !! key = m !! key).
  { intros key Hk. by rewrite Hl, bool_decide_eq_true_2. }
  destruct in_projection_keys as (K1 & K2 & K3).
  apply (projection_accepted q true false st); unfold validate_state, present in *;
    rewrite ?(Hp _ K1), ?(Hp _ K2), ?(Hp _ K3); try done.
  - by rewrite Hl.
  - intros k Hk. rewrite Hl in Hk. unfold projection_keys in Hk.
    case_bool_decide as Hin; [rewrite elem_of_app, !elem_of_cons in *; tauto|].
    repeat (case_bool_decide; [subst; rewrite elem_of_app, !elem_of_cons; tauto|]).
    by destruct Hk.
  - rewrite Hl. simpl. unfold text_ok in Hws. by destruct (m !! "workspace").
  - rewrite Hl, <-Hst. done.
Qed.

(** The one-row diagnostics of a failure are valid. *)
Lemma failure_rows_ok stage data :
  is_blank stage = false → validate_rows (Some (AMaps [failure_row stage data])) = Ok tt.
Proof.
  intros Hs. unfold validate_rows. cbn [restartDiagnosticRows check_from].
  assert (validateRestartDiagnostic (failure_row stage data) = Ok tt) as ->; [|done].
  unfold validateRestartDiagnostic, failure_row.
  assert (only_keys ["stage"; "status"; "data"; "generation_id"; "transition_id"]
    (<["data":=AObject data]> (<["status":=AString "failed"]> (<["stage":=AString stage]> ∅))) = true) as ->.
  { apply forallb_forall. intros [k v] Hin. apply list_elem_of_In, elem_of_map_to_list in Hin.
    apply bool_decide_eq_true. simpl. rewrite !lookup_insert_Some, lookup_empty in Hin.
    rewrite !elem_of_cons. naive_solver. }
  rewrite !(lookup_insert_ne _ "data") by discriminate.
  rewrite lookup_insert_eq, (lookup_insert_ne _ "status" "stage"), lookup_insert_eq by discriminate.
  unfold data_ok. rewrite lookup_insert_eq. cbn. by rewrite Hs.
Qed.

(** *** Results *)

Section results.
Context (w : world) (a : answers) (tid : string).
Hypothesis ws_ok : is_blank (ConfigDir w) = false.
Hypothesis tid_ok : is_blank tid = false.
Hypothesis launch_ok : ∀ launched g, a_launch a = Ok (launched, g) →
  is_blank g = false ∧ text "state" launched = "running"
  ∧ text "restart_state" launched = "" ∧ launched !! "diagnostics" = None.

(** The transition has the name [tid], and its old generation an identity. *)
Definition named (s : rstate) : Prop :=
  t_transitionID (rs_t s) = tid ∧
  ∀ o, t_old (rs_t s) = Some o → is_blank (o_generationID o) = false.

Definition good (s : rstate) : Prop :=
  ∀ m, rs_result s = Some (Some m, None) →
    validateRestartResult (Some (restartResultProjection m)) = Ok tt.

Lemma set_named state probe failure s :
  named s → named (setTransitionState a state probe failure s).1.
Proof.
  intros [H1 H2]. destruct (setTransitionState_cases a state probe failure s)
    as [(e & _ & ->)|[(e & ->)|(_ & _ & ->)]]; by split.
Qed.

Lemma text_ok_AString s : is_blank s = false → text_ok (Some (AString s)) = true.
Proof. intros H. unfold text_ok. cbn [as_text]. by rewrite H. Qed.

Lemma text_insert key v m : text key (<[key := AString v]> m) = v.
Proof. unfold text. by rewrite lookup_insert_eq. Qed.

Lemma text_insert_ne key key' v m : key ≠ key' → text key (<[key' := v]> m) = text key m.
Proof. intros H. unfold text. by rewrite lookup_insert_ne. Qed.

Lemma present_insert key v m : present key (<[key := v]> m) = true.
Proof. unfold present. rewrite lookup_insert_eq. by apply bool_decide_eq_true_2. Qed.

Lemma present_insert_ne key key' v m :
  key ≠ key' → present key (<[key' := v]> m) = present key m.
Proof. intros H. unfold present. by rewrite lookup_insert_ne. Qed.

(** Evaluates reads of a status that was built by insertions. *)
Ltac reads :=
  unfold restartBoundaryStatus;
  repeat first
    [rewrite text_insert|rewrite text_insert_ne by discriminate
    |rewrite present_insert|rewrite present_insert_ne by discriminate
    |rewrite lookup_insert_eq|rewrite lookup_insert_ne by discriminate].

Lemma baseStatus_reads state :
  text "state" (baseStatus w state) = state ∧ text "restart_state" (baseStatus w state) = ""
  ∧ baseStatus w state !! "generation_id" = None ∧ baseStatus w state !! "transition_id" = None
  ∧ baseStatus w state !! "diagnostics" = None.
Proof.
  assert (Hnone : ∀ key, key ∈ ["restart_state"; "generation_id"; "transition_id"; "diagnostics"] →
            baseStatus w state !! key = None).
  { intros key Hk. apply eq_None_not_Some. intros Hx%json_object_keys.
    cbn [fmap list_fmap fst] in Hx. set_solver. }
  split_and!; [|unfold text; rewrite Hnone; [done|set_solver]|apply Hnone; set_solver..].
  unfold text, baseStatus.
  erewrite lookup_json_object; [|cbn [fmap list_fmap fst]; names_ok|rewrite !elem_of_cons; tauto].
  done.
Qed.

#[local] Opaque baseStatus.

Lemma failRestart_good stage err logPath s :
  is_blank stage = false → named s → good (failRestart w a stage err logPath s).
Proof using ws_ok tid_ok launch_ok.
  intros Hst Hn m. unfold failRestart.
  pose proof (set_named FailedState None (Some (mkFailure stage err logPath "")) s Hn) as [H1 _].
  destruct (setTransitionState _ _ _ _ _) as [s1 r]. simpl in H1 |- *. intros [= Hm Hr].
  rewrite Hr, H1 in Hm. destruct (baseStatus_reads "failed") as (B1 & B2 & B3 & B4 & B5).
  apply (result_projection_valid m FailedState); rewrite <-Hm; reads.
  - by rewrite B1, B2.
  - by apply text_ok_AString.
  - unfold present. by rewrite B3.
  - intros _. by apply text_ok_AString.
  - by apply failure_rows_ok.
  - unfold validate_state. by reads.
Qed.

Lemma admitted_reads t :
  (∀ o, t_old t = Some o → is_blank (o_generationID o) = false) → t_transitionID t = tid →
  let m := admittedGenerationStatus w a t in
  (present "generation_id" m = true → text_ok (m !! "generation_id") = true)
  ∧ (present "transition_id" m = true → text_ok (m !! "transition_id") = true).
Proof using ws_ok tid_ok launch_ok.
  intros Ho Ht. unfold admittedGenerationStatus.
  destruct (baseStatus_reads "probing") as (_ & _ & B3 & B4 & _).
  destruct (t_old t) as [o|] eqn:E, (a_live a); simpl; split; reads;
    unfold present; rewrite ?B3, ?B4; try done; intros _; apply text_ok_AString.
  - by apply Ho.
  - by rewrite Ht.
Qed.

Lemma failProbe_good probe err s : named s → good (failProbe w a probe err s).
Proof using ws_ok tid_ok launch_ok.
  intros Hn. unfold failProbe. destruct (_ || _); [by apply failRestart_good|].
  set (p := Some (default _ _)). set (f := Some (mkFailure _ _ _ _)).
  pose proof (set_named RunningState p f s Hn) as [H1 H2].
  destruct (setTransitionState a RunningState p f s) as [s1 r]. simpl in H1, H2.
  destruct (err_text a r); [by intros m|]. intros m. cbn [rs_result completeTransition].
  intros [= Hm]. destruct (admitted_reads (rs_t s1) H2 H1) as [A1 A2].
  set (m0 := admittedGenerationStatus w a (rs_t s1)) in *.
  apply (result_projection_valid m FailedState); rewrite <-Hm; reads; try done.
  - by apply text_ok_AString.
  - unfold validate_state. by reads.
Qed.

Lemma replace_good probe s : named s → good (replace w a probe s).
Proof using ws_ok tid_ok launch_ok.
  intros Hn. unfold replace.
  assert ((∃ launched g, a_launch a = Ok (launched, g)) ∨ ∃ e lp, a_launch a = Err (e, lp))
    as [(launched & g & Hl)|(e & lp & Hl)] by (clear; destruct (a_launch a) as [[]|[]]; eauto);
    rewrite Hl; [|by apply failRestart_good].
  destruct (launch_ok launched g Hl) as (Hg & L1 & L2 & L3).
  set (s' := with_t _ _). assert (Hn' : named s') by exact Hn.
  pose proof (set_named RunningState (Some probe) None s' Hn') as H1.
  destruct (setTransitionState a RunningState (Some probe) None s') as [s1 [[]|e]];
    [|by apply failRestart_good].
  intros m. cbn [rs_result completeTransition]. intros [= Hm].
  apply (result_projection_valid m RunningState); rewrite <-Hm; reads.
  - by rewrite L1, L2.
  - by apply text_ok_AString.
  - intros _. by apply text_ok_AString.
  - intros _. apply text_ok_AString. destruct Hn as [Ht _]. subst s'. simpl. by rewrite Ht.
  - by rewrite L3.
  - unfold validate_state. reads. simpl. unfold present. by rewrite L3.
Qed.

Lemma cutover_good probe s : named s → good (cutover w a probe s).
Proof using ws_ok tid_ok launch_ok.
  intros Hn. unfold cutover.
  pose proof (set_named Restarting (Some probe) None s Hn) as H1.
  destruct (setTransitionState a Restarting (Some probe) None s) as [s1 [[]|e]]; simpl in H1;
    [|by apply failRestart_good].
  destruct (t_old (rs_t s1)); [|by apply replace_good].
  destruct (a_stop a); [by apply failRestart_good|].
  set (s2 := with_t set_oldStopped _). assert (Hn2 : named s2) by exact H1.
  pose proof (set_named Restarting (Some probe) None s2 Hn2) as H2.
  destruct (setTransitionState a Restarting (Some probe) None s2) as [s3 [[]|e]]; simpl in H2;
    [by apply replace_good|by apply failRestart_good].
Qed.

Lemma run_good s : named s → good (runRestartTransition w a s).
Proof using ws_ok tid_ok launch_ok.
  intros Hn. unfold runRestartTransition.
  destruct (a_source a); [|by apply failProbe_good].
  destruct (t_retryStartup (rs_t s)).
  - destruct (t_probe (rs_t s)) as [p|]; [|by apply failRestart_good].
    destruct (p_Success p); [by apply cutover_good|by apply failRestart_good].
  - destruct (a_probe a) as [p|]; [|by apply failProbe_good].
    destruct (p_Success p); [by apply cutover_good|by apply failProbe_good].
Qed.
End results.

Lemma begin_tid old io live minted tid d s :
  restart_begin old io live minted tid d = Ok s → t_transitionID (rs_t s) = tid.
Proof.
  unfold restart_begin. destruct old as [o|]; [by intros [= <-]|].
  destruct (find_retry d io) as [retry|]; [|done].
  destruct (find_old _ live) as [old|]; [|done]. by intros [= <-].
Qed.

(** the result of every restart that completes without error is a valid
    result of the closed restart command after its projection: a failed one has
    its diagnostics, a running one its generation and none. *)
Theorem restart_result_valid w a old io live minted tid d s m :
  is_blank (ConfigDir w) = false → is_blank tid = false →
  (∀ s0, restart_begin old io live minted tid d = Ok s0 →
     ∀ o, t_old (rs_t s0) = Some o → is_blank (o_generationID o) = false) →
  (∀ launched g, a_launch a = Ok (launched, g) →
     is_blank g = false ∧ text "state" launched = "running"
     ∧ text "restart_state" launched = "" ∧ launched !! "diagnostics" = None) →
  restartWeaver w a old io live minted tid d = Ok s →
  rs_result s = Some (Some m, None) →
  validateRestartResult (Some (restartResultProjection m)) = Ok tt.
Proof.
  intros Hws Htid Hold Hlaunch. unfold restartWeaver.
  destruct (restart_begin old io live minted tid d) as [s0|] eqn:Hb; [|done].
  assert (Hn : named tid s0).
  { split; [by apply begin_tid in Hb|by apply Hold]. }
  unfold first_write. set (probe := if t_retryStartup _ then _ else _).
  pose proof (set_named a tid (t_state (rs_t s0)) probe None s0 Hn) as H1.
  destruct (setTransitionState a (t_state (rs_t s0)) probe None s0) as [s1 [[]|e]]; simpl in H1.
  - intros [= <-]. by apply (run_good w a tid Hws Htid Hlaunch).
  - destruct (_ && _); by intros [= <-].
Qed.

(** *** Statuses of records *)

Lemma mill_projection_lookup m q k :
  text "restart_state" m = "" → millStatusProjection m = Some q →
  q !! k
  = if bool_decide (k = "diagnostics") then
      match m !! "diagnostics" with
      | Some v => Some v
      | None =>
          if bool_decide (text "state" m = "failed") then
            (λ f, AMaps [failure_row (f_Stage f) (failure_data (f_Message f) (f_LogPath f))])
              <$> as_failure (m !! "restart_failure")
          else None
      end
    else if bool_decide (k ∈ projection_keys) then m !! k
    else if bool_decide (k = "workspace") then Some (default ANil (m !! "config_dir"))
    else if bool_decide (k = "state") then Some (AString (text "state" m))
    else None.
Proof.
  intros Hr. unfold millStatusProjection. rewrite Hr, (bool_decide_eq_true_2 ("" = "")) by done.
  cbn [negb andb]. destruct (is_state (text "state" m)) eqn:Hs; cbn [negb]; [|done].
  set (q0 := copy_keys _ _ _).
  assert (Hq0 : ∀ k, q0 !! k
    = if bool_decide (k ∈ projection_keys) then m !! k
      else if bool_decide (k = "workspace") then Some (default ANil (m !! "config_dir"))
      else if bool_decide (k = "state") then Some (AString (text "state" m)) else None).
  { intros k'. unfold q0. rewrite lookup_copy_keys. case_bool_decide as Hk.
    - destruct (m !! k'); [done|].
      rewrite !lookup_insert_ne by (intros <-; revert Hk; apply (bool_decide_unpack _); done). done.
    - rewrite !lookup_insert. by repeat case_decide; repeat case_bool_decide; subst. }
  assert (Hd : q0 !! "diagnostics" = m !! "diagnostics").
  { rewrite Hq0, bool_decide_eq_true_2; [done|]. by destruct in_projection_keys as (_ & _ & ?). }
  unfold present. rewrite Hd. destruct (m !! "diagnostics") as [v|] eqn:Em.
  - rewrite andb_false_r. intros [= <-]. rewrite Hq0.
    destruct (decide (k = "diagnostics")) as [->|Hne]; [done|].
    by rewrite (bool_decide_eq_false_2 (k = "diagnostics")).
  - rewrite andb_true_r. destruct (bool_decide (text "state" m = "failed")).
    + destruct (as_failure (m !! "restart_failure")) as [f|]; intros [= <-];
        (destruct (decide (k = "diagnostics")) as [->|Hne];
         [|rewrite ?lookup_insert_ne by done; rewrite Hq0;
           by rewrite (bool_decide_eq_false_2 (k = "diagnostics"))]); [|exact Hd].
      by rewrite lookup_insert_eq.
    + intros [= <-]. destruct (decide (k = "diagnostics")) as [->|Hne]; [exact Hd|].
      by rewrite Hq0, (bool_decide_eq_false_2 (k = "diagnostics")).
Qed.

Lemma lookup_set_text_ne k k' v m : k ≠ k' → set_text k' v m !! k = m !! k.
Proof. intros H. unfold set_text. case_bool_decide; [done|]. by rewrite lookup_insert_ne. Qed.

Lemma lookup_set_text k v m : m !! k = None → set_text k v m !! k = omit_string v.
Proof.
  intros H. unfold set_text, omit_string. case_bool_decide; [done|]. by rewrite lookup_insert_eq.
Qed.

Lemma lookup_put_stopped_ne r k m : k ≠ "old_generation_stopped" → put_stopped r m !! k = m !! k.
Proof. intros H. unfold put_stopped. destruct (_ || _); [by rewrite lookup_insert_ne|done]. Qed.

Lemma lookup_failure_ne r k (m : object) :
  k ≠ "restart_failure" →
  match Failure r with Some f => <["restart_failure" := AFailure f]> m | None => m end !! k = m !! k.
Proof. intros H. destruct (Failure r); [by rewrite lookup_insert_ne|done]. Qed.

Lemma baseStatus_more w state :
  baseStatus w state !! "state" = Some (AString state)
  ∧ baseStatus w state !! "config_dir" = Some (AString (ConfigDir w))
  ∧ ∀ key, key ∈ ["restart_state"; "generation_id"; "transition_id"; "diagnostics";
                  "restart_failure"] → baseStatus w state !! key = None.
Proof.
  split_and!.
  - unfold baseStatus. by erewrite lookup_json_object;
      [|cbn [fmap list_fmap fst]; names_ok|rewrite !elem_of_cons; tauto].
  - unfold baseStatus. by erewrite lookup_json_object;
      [|cbn [fmap list_fmap fst]; names_ok|rewrite !elem_of_cons; tauto].
  - intros key Hk. apply eq_None_not_Some. intros Hx%json_object_keys.
    cbn [fmap list_fmap fst] in Hx. set_solver.
Qed.

(** What a compact status of a record holds under the keys of a projection. *)
Lemma compactStatus_reads w r :
  compactStatus w r !! "state" = Some (AString (State r))
  ∧ compactStatus w r !! "restart_state" = None
  ∧ compactStatus w r !! "config_dir" = Some (AString (ConfigDir w))
  ∧ compactStatus w r !! "generation_id" = omit_string (GenerationID r)
  ∧ compactStatus w r !! "transition_id" = Some (AString (TransitionID r))
  ∧ compactStatus w r !! "diagnostics" = None
  ∧ compactStatus w r !! "restart_failure" = AFailure <$> Failure r.
Proof.
  destruct (baseStatus_more w (State r)) as (B1 & B2 & B3). unfold compactStatus.
  split_and!; rewrite ?lookup_failure_ne, ?lookup_put_stopped_ne, ?lookup_insert_ne,
    ?lookup_set_text_ne by discriminate; try done; try (apply B3; set_solver).
  - rewrite lookup_set_text; [done|]. apply B3. set_solver.
  - by rewrite lookup_insert_eq.
  - destruct (Failure r) as [f|]; [by rewrite lookup_insert_eq|].
    rewrite lookup_put_stopped_ne, lookup_insert_ne, !lookup_set_text_ne by discriminate.
    apply B3. set_solver.
Qed.

(** the status that Mill gives from the durable record of a probing or failed
    restart projects to a valid closed status. *)
Theorem record_status_valid w r details :
  is_blank (ConfigDir w) = false → valid_record FromDisk r →
  State r = "probing" ∨ State r = "failed" →
  ∃ q, millStatusProjection (compactStatus w r) = Some q
    ∧ validateMillStatusProjection (Some q) details = Ok tt.
Proof.
  intros Hws [Htid _ (Hgb & _) Hf _ (st & Hst & Hsh)] Hcase.
  destruct (compactStatus_reads w r) as (R1 & R2 & R3 & R4 & R5 & R6 & R7).
  set (m := compactStatus w r) in *.
  assert (Ht : text "state" m = state_name st) by (unfold text; by rewrite R1, Hst).
  assert (Hr : text "restart_state" m = "") by (unfold text; by rewrite R2).
  assert (Hsome : ∃ q, millStatusProjection m = Some q).
  { unfold millStatusProjection. rewrite Hr, Ht, (bool_decide_eq_true_2 ("" = "")) by done.
    cbn [negb andb]. unfold is_state. rewrite parse_state_self.
    rewrite bool_decide_eq_true_2 by by eexists. cbn [negb].
    destruct (_ && _); [destruct (as_failure _)|]; by eexists. }
  destruct Hsome as [q Hq]. exists q. split; [done|].
  pose proof (λ k, mill_projection_lookup m q k Hr Hq) as Hl.
  assert (Qg : q !! "generation_id" = omit_string (GenerationID r)) by by rewrite Hl.
  assert (Qt : q !! "transition_id" = Some (AString (TransitionID r))) by by rewrite Hl.
  assert (Hgen : omit_string (GenerationID r) = None
    ∨ omit_string (GenerationID r) = Some (AString (GenerationID r))
      ∧ is_blank (GenerationID r) = false).
  { unfold omit_string. unfold blank_but_set in Hgb.
    destruct (decide (GenerationID r = "")) as [->|Hne]; [by left|].
    rewrite (bool_decide_eq_false_2 _ Hne) in *. by right. }
  apply (projection_accepted q false details st).
  - by rewrite Hl.
  - intros k Hk. rewrite Hl in Hk. unfold projection_keys in Hk.
    destruct (decide (k = "diagnostics")) as [->|Hne]; [rewrite elem_of_app, !elem_of_cons; tauto|].
    rewrite (bool_decide_eq_false_2 _ Hne) in Hk.
    case_bool_decide as Hin; [rewrite elem_of_app, !elem_of_cons in *; tauto|].
    repeat (case_bool_decide; [subst; rewrite elem_of_app, !elem_of_cons; tauto|]).
    by destruct Hk.
  - rewrite Hl. rewrite R3. by apply text_ok_AString.
  - by rewrite Hl, Ht.
  - rewrite Qg. unfold present. rewrite Qg.
    destruct Hgen as [->|[-> Hb]]; [done|]. intros _. by apply text_ok_AString.
  - rewrite Qt. intros _. by apply text_ok_AString.
  - rewrite Hl, R6, Ht, R7. destruct st; cbn [state_name] in Hst; try (by destruct Hcase; congruence).
    + done.
    + destruct Hsh as (f & Hfr & _). rewrite Hfr. apply failure_rows_ok.
      by destruct (Hf f Hfr).
  - unfold validate_state, present. rewrite Qg, Qt. rewrite (Hl "diagnostics"), R6, Ht, R7.
    destruct st; cbn [state_name] in Hst; try (by destruct Hcase; congruence).
    + destruct Hsh as (Hg & _). destruct Hgen as [Hn|[-> _]]; [|done].
      unfold omit_string in Hn. case_bool_decide as Hx; [|done]. by rewrite Hx in Hg.
    + destruct Hsh as (f & -> & _). done.
Qed.

(** ** Where a restart does less than it says *)

(** the record of a restart that is being cut over carries its generation, and
    the status made from it is refused by the validator of the closed status: as
    long as that record is what the status is made from, a status request is
    answered with a protocol error. *)
Theorem restarting_status_rejected w r details :
  State r = "restarting" → GenerationID r ≠ "" →
  ∃ q, millStatusProjection (compactStatus w r) = Some q
    ∧ is_ok (validateMillStatusProjection (Some q) details) = false.
Proof.
  intros Hst Hg. destruct (compactStatus_reads w r) as (R1 & R2 & R3 & R4 & R5 & R6 & R7).
  set (m := compactStatus w r) in *.
  assert (Ht : text "state" m = "restarting") by (unfold text; by rewrite R1, Hst).
  assert (Hr : text "restart_state" m = "") by (unfold text; by rewrite R2).
  assert (Hsome : ∃ q, millStatusProjection m = Some q).
  { unfold millStatusProjection. rewrite Hr, Ht. by eexists. }
  destruct Hsome as [q Hq]. exists q. split; [done|].
  pose proof (λ k, mill_projection_lookup m q k Hr Hq) as Hl.
  assert (Qg : present "generation_id" q = true).
  { unfold present. rewrite Hl. simpl. rewrite R4. unfold omit_string.
    by rewrite (bool_decide_eq_false_2 _ Hg). }
  assert (Qs : as_text (q !! "state") = Some "restarting") by by rewrite Hl, Ht.
  unfold validateMillStatusProjection.
  destruct (validateRestartProjection (Some q) false details) as [u|e] eqn:Hv; [|done].
  unfold validateRestartProjection in Hv. rewrite Qs in Hv. simpl in Hv. inv_ok.
  unfold validate_state in *. rewrite Qg in *. inv_ok. done.
Qed.

(** when the first durable write of a retry fails, the transition stays
    registered in the state restarting with its error, so every later restart
    joins it and gets the same error; only a failed transition would be replaced. *)
Theorem retry_write_failure_sticks w a gen minted tid d e :
  retry_ready gen d → a_write a 0 = Some e →
  ∃ s err, restartWeaver w a None None LiveNone minted tid d = Ok s
    ∧ rs_registered s = true ∧ rs_result s = Some (None, Some err)
    ∧ join_existing (Some (rs_t s)) = JoinWait ∧ rs_disk s = d.
Proof.
  intros (r & p & Hread & Hst & Hretry & _) Hio.
  unfold restartWeaver, restart_begin, find_retry. rewrite Hread, Hst.
  rewrite bool_decide_eq_true_2, Hretry by done. simpl. unfold first_write. simpl.
  set (s0 := mkR _ d 0 None true []).
  destruct (setTransitionState_cases a Restarting (Some p) None s0)
    as [(e' & _ & ->)|[(e' & ->)|(_ & Hw & _)]].
  - eexists _, _. split; [reflexivity|]. by split_and!.
  - eexists _, _. split; [reflexivity|]. by split_and!.
  - simpl in Hw. congruence.
Qed.

(** ** Concrete restarts *)

Definition demo_world : world := mkWorld "/work" "/state" "/data" "/data/db" "work".

Definition demo_launch_failure : answers :=
  mkRAnswers (Ok tt) (Ok demo_probe) None (Err ("no java", "/state/weaver.log")) (λ _, None)
    "2026-01-01T00:00:00Z" None (λ _, "invalid record").

Definition demo_success : answers :=
  mkRAnswers (Ok tt) (Ok demo_probe) None
    (Ok (<["state" := AString "running"]> ∅, "generation-2")) (λ _, None)
    "2026-01-01T00:00:00Z" None (λ _, "invalid record").

(** The source checkout is gone when the retry begins. *)
Definition demo_no_source : answers :=
  mkRAnswers (Err "no source") (Ok demo_probe) None (Err ("", "")) (λ _, None)
    "2026-01-01T00:00:00Z" None (λ _, "invalid record").

Definition demo_old : old_generation := mkOld "generation-1" "weaver-1".

Definition disk_after (r : result begin_error rstate) : disk :=
  match r with Ok s => rs_disk s | Err _ => NoFile end.

(** The file after a launch failure. *)
Definition demo_failed_disk : disk :=
  disk_after (restartWeaver demo_world demo_launch_failure (Some demo_old) None LiveNone ""
                "transition-1" NoFile).

Lemma demo_entry a d : a_probe a = Ok demo_probe → entry a d "generation-1" (Some demo_old).
Proof. intros H. by apply (entry_live a d "generation-1" demo_old demo_probe). Qed.

(** a retry that fails before its launch, here for want of a source, leaves a
    restarting record, and a later restart refuses: the stopped generation can no
    longer be replaced by a restart. *)
Theorem retry_without_source_strands :
  retry_ready "generation-1" demo_failed_disk ∧
  ∃ s r, restartWeaver demo_world demo_no_source None None LiveNone "" "transition-2"
           demo_failed_disk = Ok s
    ∧ readRestartRecordDetailed None (rs_disk s) = Ok (Some r) ∧ State r = "restarting"
    ∧ restartWeaver demo_world demo_success None None LiveNone "" "transition-3" (rs_disk s)
      = Err NoRunningWeaver.
Proof.
  split.
  - eexists _, _. split; [vm_compute; reflexivity|]. split_and!; vm_compute; reflexivity.
  - eexists _, _. split; [vm_compute; reflexivity|]. split_and!; vm_compute; reflexivity.
Qed.

Lemma restart_ordered_witness :
  ∃ s, restartWeaver demo_world demo_success (Some demo_old) None LiveNone "" "transition-1" NoFile
       = Ok s ∧ is_Some (rs_result s) ∧ EvLaunch true ∈ rs_trace s.
Proof.
  eexists. split; [vm_compute; reflexivity|]. split.
  - eapply (restart_ordered demo_world demo_success (Some demo_old) None LiveNone "" "transition-1" NoFile);
      vm_compute; reflexivity.
  - vm_compute. set_solver.
Defined.

Lemma launch_failure_retryable_witness : retry_ready "generation-1" demo_failed_disk.
Proof.
  destruct (launch_failure_retryable demo_world demo_launch_failure (Some demo_old) "generation-1"
    "" "transition-1" NoFile "no java" "/state/weaver.log" (λ _, eq_refl) eq_refl eq_refl eq_refl
    eq_refl (demo_entry demo_launch_failure NoFile eq_refl) eq_refl eq_refl) as (s & Hs & Hr & _).
  unfold demo_failed_disk. rewrite Hs. exact Hr.
Defined.

Lemma restart_succeeds_witness :
  ∃ s r, restartWeaver demo_world demo_success (Some demo_old) None LiveNone "" "transition-1" NoFile
         = Ok s
    ∧ readRestartRecordDetailed None (rs_disk s) = Ok (Some r) ∧ GenerationID r = "generation-2".
Proof.
  destruct (restart_succeeds demo_world demo_success (Some demo_old) "generation-1"
    "" "transition-1" NoFile (<["state" := AString "running"]> ∅) "generation-2" (λ _, eq_refl)
    eq_refl eq_refl eq_refl eq_refl (demo_entry demo_success NoFile eq_refl) eq_refl eq_refl)
    as (s & r & H1 & H2 & _ & H3 & _).
  exists s, r. split; [exact H1|]. split; [exact H2|exact H3].
Defined.

Definition demo_refused : answers :=
  mkRAnswers (Ok tt) (Err "probe process failed") None (Err ("", "")) (λ _, None)
    "2026-01-01T00:00:00Z" None (λ _, "invalid record").

Lemma refused_probe_keeps_generation_witness :
  ∃ s r, restartWeaver demo_world demo_refused (Some demo_old) None LiveNone "" "transition-1" NoFile
         = Ok s
    ∧ readRestartRecordDetailed None (rs_disk s) = Ok (Some r) ∧ State r = "running".
Proof.
  destruct (refused_probe_keeps_generation demo_world demo_refused demo_old "" "transition-1" NoFile)
    as (s & r & H1 & _ & _ & H2 & H3 & _).
  - intros e [= <-]. by split_and!.
  - intros p [=].
  - done.
  - done.
  - done.
  - done.
  - done.
  - done.
  - exists s, r. split; [exact H1|]. split; [exact H2|exact H3].
Defined.

(** A restart that completed with a result and no error. *)
Definition clean (r : result begin_error rstate) : bool :=
  match r with
  | Ok s => match rs_result s with Some (Some _, None) => true | _ => false end
  | Err _ => false
  end.

Lemma restart_result_valid_witness :
  clean (restartWeaver demo_world demo_success (Some demo_old) None LiveNone "" "transition-1" NoFile)
  = true ∧
  ∀ s m, restartWeaver demo_world demo_success (Some demo_old) None LiveNone "" "transition-1" NoFile
         = Ok s → rs_result s = Some (Some m, None) →
    validateRestartResult (Some (restartResultProjection m)) = Ok tt.
Proof.
  split; [vm_compute; reflexivity|]. intros s m.
  apply (restart_result_valid demo_world demo_success (Some demo_old) None LiveNone ""
           "transition-1" NoFile s m); [reflexivity|reflexivity|..].
  - intros s0 [= <-] o [= <-]. reflexivity.
  - intros launched g [= <- <-]. split_and!; vm_compute; reflexivity.
Defined.

Lemma retry_write_failure_sticks_witness :
  ∃ s, restartWeaver demo_world
         (mkRAnswers (Ok tt) (Ok demo_probe) None (Err ("", "")) (λ _, Some "no space left")
            "2026-01-01T00:00:00Z" None (λ _, "no space left"))
         None None LiveNone "" "transition-2" demo_failed_disk = Ok s
    ∧ join_existing (Some (rs_t s)) = JoinWait.
Proof.
  set (a := mkRAnswers _ _ _ _ _ _ _ _).
  assert (Hr : retry_ready "generation-1" demo_failed_disk).
  { eexists _, _. split; [vm_compute; reflexivity|]. split_and!; vm_compute; reflexivity. }
  destruct (retry_write_failure_sticks demo_world a "generation-1" "" "transition-2"
    demo_failed_disk "no space left" Hr eq_refl) as (s & err & H1 & _ & _ & H2 & _).
  exists s. split; [exact H1|exact H2].
Defined.

Lemma record_status_valid_witness :
  ∃ q, millStatusProjection (compactStatus demo_world
         (mkRecord "probing" "transition-1" "generation-1" "generation-1" "" "now" false None None
            true false)) = Some q
    ∧ validateMillStatusProjection (Some q) false = Ok tt.
Proof.
  apply record_status_valid; [reflexivity| |by left].
  apply validate_sound. vm_compute. reflexivity.
Defined.

Lemma restarting_status_rejected_witness :
  valid_record FromDisk (persisted "2026-01-01T00:00:00Z" demo_record) ∧
  ∃ q, millStatusProjection (compactStatus demo_world (persisted "2026-01-01T00:00:00Z" demo_record))
       = Some q ∧ is_ok (validateMillStatusProjection (Some q) true) = false.
Proof.
  split; [apply validate_sound; vm_compute; reflexivity|].
  apply restarting_status_rejected; [reflexivity|discriminate].
Defined.
