(* ===== verification/KanbanTree.v ===== *)
(** The kanban tree viewer (src/tools/kanban-tree): validation of an export,
    its reduction to a tree with dependency layouts, and the traversal that draws
    it. Map iterations whose order Go leaves open are followed in the code by a
    sort with a total order, or only choose which error is reported. *)

From S2P Require Export GoStrings.

(** ** Data *)

(** A decoded attribute; a number is kept as the text [FormatFloat] gives. *)
Inductive attr_value :=
| AttrText (s : string)
| AttrBool (b : bool)
| AttrNumber (text : string)
| AttrOther.

Record strand := mkStrand {
  ID : string;
  Title : string;
  State : string;
  CreatedAt : string;
  Attributes : gmap string attr_value;
}.

Record edge := mkEdge { From : string; To : string }.

Record export := mkExport {
  RootID : string;
  Strands : list strand;
  ParentOf : list edge;
  DependsOn : list edge;
}.

Definition attrCard : string := "kanban/card".
Definition attrTask : string := "kanban/task".
Definition attrType : string := "kanban/type".
Definition attrLane : string := "kanban/lane".
Definition attrOutcome : string := "kanban/outcome".
Definition attrPriority : string := "kanban/priority".
Definition attrOwner : string := "owner".

Definition displayAttributes : list string :=
  [attrCard; attrTask; attrType; attrLane; attrOutcome; attrPriority; attrOwner].

(** The text of a value; [None] is the panic of [attr], the error of
    [validateAttributes]. *)
Definition attr_text (v : attr_value) : option string :=
  match v with
  | AttrText s => Some s
  | AttrBool b => Some (if b then "true" else "false")
  | AttrNumber t => Some t
  | AttrOther => None
  end.

(** On a validated strand; see [validated_attr]. *)
Definition attr (s : strand) (key : string) : string :=
  match Attributes s !! key with
  | None => ""
  | Some v => default "" (attr_text v)
  end.

Definition kanban (s : strand) : bool :=
  bool_decide (attr s attrCard = "true") || bool_decide (attr s attrTask = "true").

(** ** Validation *)

Inductive export_error :=
| NoRootID
| StrandNoID
| DuplicateStrand (id : string)
| NoTitle (id : string)
| NoCreatedAt (id : string)
| InvalidState (id state : string)
| OmitsRoot (id : string)
| BlankEndpoint (relation : string)
| SelfEdge (relation id : string)
| UnknownEndpoint (relation : string) (e : edge)
| DuplicateEdge (relation : string) (e : edge)
| MultipleParents (id : string)
| ParentCycle
| UnsupportedAttribute (id key : string)
| InvalidAttribute (id key value : string).

Definition validateAttributeValue (id key value : string) : result export_error unit :=
  let valid (values : list string) :=
    ensure (bool_decide (value ∈ values)) (InvalidAttribute id key value) in
  if bool_decide (key = attrLane) then valid ["refinement"; "pending"; "claimed"; "in_review"]
  else if bool_decide (key = attrOutcome) then valid ["done"; "abandoned"]
  else if bool_decide (key = attrPriority) then valid ["p1"; "p2"; "p3"; "p4"]
  else Ok tt.

Definition validateAttributes (strands : list strand) : result export_error unit :=
  check_each (λ s, check_each (λ key,
    match Attributes s !! key with
    | None => Ok tt
    | Some v =>
        match attr_text v with
        | None => Err (UnsupportedAttribute (ID s) key)
        | Some text => validateAttributeValue (ID s) key text
        end
    end) displayAttributes) strands.

Fixpoint validate_strands (ids : gset string) (l : list strand)
    : result export_error (gset string) :=
  match l with
  | [] => Ok ids
  | s :: l =>
      ensure (negb (bool_decide (ID s = ""))) StrandNoID ;;
      ensure (negb (bool_decide (ID s ∈ ids))) (DuplicateStrand (ID s)) ;;
      ensure (negb (bool_decide (Title s = ""))) (NoTitle (ID s)) ;;
      ensure (negb (bool_decide (CreatedAt s = ""))) (NoCreatedAt (ID s)) ;;
      ensure (bool_decide (State s ∈ ["active"; "closed"; "replaced"]))
        (InvalidState (ID s) (State s)) ;;
      validate_strands ({[ID s]} ∪ ids) l
  end.

(** The key of [seen] joins the endpoints with a NUL byte. *)
Definition edge_key (e : edge) : string := From e +:+ String Ascii.zero "" +:+ To e.

Fixpoint validateEdges (relation : string) (ids seen : gset string) (l : list edge)
    : result export_error unit :=
  match l with
  | [] => Ok tt
  | e :: l =>
      ensure (negb (bool_decide (From e = "") || bool_decide (To e = "")))
        (BlankEndpoint relation) ;;
      ensure (negb (bool_decide (From e = To e))) (SelfEdge relation (From e)) ;;
      ensure (bool_decide (From e ∈ ids) && bool_decide (To e ∈ ids))
        (UnknownEndpoint relation e) ;;
      ensure (negb (bool_decide (edge_key e ∈ seen))) (DuplicateEdge relation e) ;;
      validateEdges relation ids ({[edge_key e]} ∪ seen) l
  end.

(** The parents map; two parents of one strand are an error. *)
Fixpoint collect_parents (parents : gmap string string) (l : list edge)
    : result export_error (gmap string string) :=
  match l with
  | [] => Ok parents
  | e :: l =>
      match parents !! To e with
      | Some p => ensure (bool_decide (p = From e)) (MultipleParents (To e))
      | None => Ok tt
      end ;;
      collect_parents (<[To e := From e]> parents) l
  end.

(** The walk from one child: false when it comes back to a strand it has seen.
    A missing parent is the empty string. [None] is a walk out of fuel. *)
Fixpoint walk (parents : gmap string string) (fuel : nat) (seen : gset string) (current : string)
    : option bool :=
  match fuel with
  | 0 => None
  | S fuel =>
      if bool_decide (current = "") then Some true
      else if bool_decide (current ∈ seen) then Some false
      else walk parents fuel ({[current]} ∪ seen) (default "" (parents !! current))
  end.

Definition walk_fuel (parents : gmap string string) : nat := S (S (S (size parents))).

Definition acyclic_walks (parents : gmap string string) : bool :=
  forallb (λ cp, bool_decide (walk parents (walk_fuel parents) ∅ cp.1 = Some true))
          (map_to_list parents).

Definition validateParents (edges : list edge) : result export_error unit :=
  parents ← collect_parents ∅ edges;
  ensure (acyclic_walks parents) ParentCycle.

Definition validateExport (out : export) : result export_error unit :=
  ids ← validate_strands ∅ (Strands out);
  ensure (bool_decide (RootID out ∈ ids)) (OmitsRoot (RootID out)) ;;
  validateEdges "parent-of" ids ∅ (ParentOf out) ;;
  validateParents (ParentOf out) ;;
  validateEdges "depends-on" ids ∅ (DependsOn out) ;;
  validateAttributes (Strands out).

(** [decode], from the decoded JSON value. *)
Definition decode (out : export) : result export_error export :=
  ensure (negb (bool_decide (RootID out = ""))) NoRootID ;;
  validateExport out ;;
  Ok out.

(** ** The model *)

Record filters := mkFilters { f_all : bool; f_tasks : bool; f_open : bool }.

(** [scopes] is a cache of [layout], a function of the other fields. *)
Record model := mkModel {
  rootID : string;
  nodes : gmap string strand;
  kids : gmap string (list string);
  blockers : gmap string (list string);
  counts : gmap string (nat * nat);
}.

Definition list_at {A} (m : gmap string (list A)) (k : string) : list A := default [] (m !! k).

Definition append_at {A} (k : string) (x : A) (m : gmap string (list A)) : gmap string (list A) :=
  <[k := list_at m k ++ [x]]> m.

(** [m.nodes[id]]: the zero strand for an absent one. *)
Definition zero_strand : strand := mkStrand "" "" "" "" ∅.
Definition node_of (m : model) (id : string) : strand := default zero_strand (nodes m !! id).

(** The walk of [pruneClosed] from one active strand. *)
Fixpoint mark_live (parent : gmap string string) (hops : nat) (cur : string) (live : gset string)
    : gset string :=
  match hops with
  | 0 => live
  | S hops =>
      if bool_decide (cur = "") then live
      else mark_live parent hops (default "" (parent !! cur)) ({[cur]} ∪ live)
  end.

(** At most [len(keep) + 1] strands of each walk are marked. *)
Definition live_set (keep : gmap string strand) (parent : gmap string string) (root : string)
    : gset string :=
  foldr (λ kv live,
      if bool_decide (State kv.2 = "active")
      then mark_live parent (S (size keep)) kv.1 live else live)
    {[root]} (map_to_list keep).

Definition pruneClosed (keep : gmap string strand) (parent : gmap string string) (root : string)
    : gmap string strand :=
  filter (λ kv, kv.1 ∈ live_set keep parent root) keep.

Fixpoint nearest_from (parent : gmap string string) (keep : gmap string strand)
    (hops : nat) (cur : string) : option string :=
  match hops with
  | 0 => None
  | S hops =>
      if bool_decide (cur = "") then None
      else if bool_decide (is_Some (keep !! cur)) then Some cur
      else nearest_from parent keep hops (default "" (parent !! cur))
  end.

Definition nearestKept (id : string) (parent : gmap string string) (keep : gmap string strand)
    : option string :=
  nearest_from parent keep (S (size parent)) (default "" (parent !! id)).

(** The order of the board: oldest first, then by id. *)
Definition board_less (ns : gmap string strand) (i j : string) : bool :=
  let a := default zero_strand (ns !! i) in
  let b := default zero_strand (ns !! j) in
  if negb (bool_decide (CreatedAt a = CreatedAt b)) then str_ltb (CreatedAt a) (CreatedAt b)
  else str_ltb (ID a) (ID b).

Definition sortIDs (ns : gmap string strand) (ids : list string) : list string :=
  sort_stable (board_less ns) ids.

Definition countChildren (all : gmap string strand) (edges : list edge) : gmap string (nat * nat) :=
  foldl (λ counts e,
    match all !! To e with
    | Some child =>
        if kanban child then
          let '(done, total) := default (0, 0) (counts !! From e) in
          <[From e := (if bool_decide (State child = "active") then done else S done, S total)]>
            counts
        else counts
    | None => counts
    end) ∅ edges.

Definition all_strands (l : list strand) : gmap string strand :=
  foldl (λ m s, <[ID s := s]> m) ∅ l.

Definition parent_map (l : list edge) : gmap string string :=
  foldl (λ m e, if bool_decide (From e = To e) then m else <[To e := From e]> m) ∅ l.

(** The switch that decides what is kept. *)
Definition keeps (f : filters) (root : string) (id : string) (s : strand) : bool :=
  bool_decide (id = root) || f_all f || (f_tasks f && kanban s)
  || bool_decide (attr s attrCard = "true").

Definition kids_of (keep : gmap string strand) (parent : gmap string string) (root : string)
    : gmap string (list string) :=
  foldl (λ m id,
      if bool_decide (id = root) then m
      else match nearestKept id parent keep with
           | Some anc => append_at anc id m
           | None => m
           end) ∅ (map_to_list keep).*1.

Definition blockers_of (keep : gmap string strand) (l : list edge) : gmap string (list string) :=
  foldl (λ m e,
      if bool_decide (From e = To e) then m
      else if bool_decide (is_Some (keep !! From e)) && bool_decide (is_Some (keep !! To e))
      then append_at (From e) (To e) m else m) ∅ l.

Definition build (ex : export) (f : filters) : result export_error model :=
  let all := all_strands (Strands ex) in
  match all !! RootID ex with
  | None => Err (OmitsRoot (RootID ex))
  | Some root =>
      let parent := parent_map (ParentOf ex) in
      let keep := filter (λ kv, keeps f (ID root) kv.1 kv.2 = true) all in
      let keep := if f_open f then pruneClosed keep parent (ID root) else keep in
      Ok (mkModel (ID root) keep
            (sortIDs keep <$> kids_of keep parent (ID root))
            (sortIDs keep <$> blockers_of keep (DependsOn ex))
            (countChildren all (ParentOf ex)))
  end.

(** ** Layout of one container *)

Record sharedGroup := mkGroup { g_blockers : list string; g_id : string }.

Record scope := mkScope {
  tops : list string;
  deps : gmap string (list string);
  shared : list sharedGroup;
  sharedBy : gmap string (list nat);
}.

Definition empty_scope : scope := mkScope [] ∅ [] ∅.

(** The siblings among the blockers of a child. *)
Definition within (m : model) (children : list string) (id : string) : list string :=
  filter (λ b, b ∈ children) (list_at (blockers m) id).

Definition place (m : model) (children : list string) (sc : scope) (id : string) : scope :=
  match within m children id with
  | [] => mkScope (tops sc ++ [id]) (deps sc) (shared sc) (sharedBy sc)
  | [b] => mkScope (tops sc) (append_at b id (deps sc)) (shared sc) (sharedBy sc)
  | bs => mkScope (tops sc) (deps sc) (shared sc ++ [mkGroup bs id])
                  (foldl (λ m b, append_at b (length (shared sc)) m) (sharedBy sc) bs)
  end.

(** The strands that [id] unblocks in a scope. *)
Definition unblocks (sc : scope) (id : string) : list string :=
  list_at (deps sc) id ++ omap (λ idx, g_id <$> shared sc !! idx) (list_at (sharedBy sc) id).

Fixpoint reach (sc : scope) (fuel : nat) (seen : gset string) (queue : list string)
    : option (gset string) :=
  match fuel with
  | 0 => None
  | S fuel =>
      match queue with
      | [] => Some seen
      | id :: queue =>
          if bool_decide (id ∈ seen) then reach sc fuel seen queue
          else reach sc fuel ({[id]} ∪ seen) (queue ++ unblocks sc id)
      end
  end.

(** Every visit consumes an element that was queued once for each way to reach
    it. *)
Definition reach_fuel (sc : scope) (children : list string) : nat :=
  S (length (tops sc) + sum_list (length ∘ unblocks sc <$> children)).

(** [sc.reachable()]; the empty set stands for a walk out of fuel, which does
    not happen ([reachable_total]). *)
Definition reachable (sc : scope) (children : list string) : gset string :=
  default ∅ (reach sc (reach_fuel sc children) ∅ (tops sc)).

Definition promote (id : string) (sc : scope) : scope :=
  mkScope (tops sc ++ [id]) (deps sc) (shared sc) (sharedBy sc).

Fixpoint promote_loop (n : nat) (children : list string) (sc : scope) : scope :=
  match n with
  | 0 => sc
  | S n =>
      match list_find (λ id, id ∉ reachable sc children) children with
      | Some (_, id) => promote_loop n children (promote id sc)
      | None => sc
      end
  end.

Definition promoteUnreached (children : list string) (sc : scope) : scope :=
  promote_loop (length children) children sc.

Definition layout (m : model) (container : string) : scope :=
  let children := list_at (kids m) container in
  promoteUnreached children (foldl (place m children) empty_scope children).

Definition external (m : model) (container id : string) : list string :=
  filter (λ b, b ∉ list_at (kids m) container) (list_at (blockers m) id).

(** ** What a line says of a strand *)

Definition kind (m : model) (id : string) : string :=
  let s := node_of m id in
  if bool_decide (attr s attrType = "epic") then "epic"
  else if bool_decide (attr s attrCard = "true") then "feat"
  else if bool_decide (attr s attrTask = "true") then "task"
  else "work".

Definition is_active (m : model) (id : string) : bool :=
  bool_decide (State (node_of m id) = "active").

Definition status (m : model) (id : string) : string :=
  let s := node_of m id in
  if negb (bool_decide (State s = "active")) then
    let outcome := attr s attrOutcome in
    if bool_decide (outcome = "abandoned") then "dropped"
    else if bool_decide (outcome = "") then
      if bool_decide (State s = "closed") then "done" else State s
    else outcome
  else if bool_decide (attr s attrTask = "true") then
    if existsb (is_active m) (list_at (blockers m) id) then "blocked" else "ready"
  else
    let lane := attr s attrLane in
    if negb (bool_decide (lane = "")) then
      if bool_decide (lane = "in_review") then "review" else lane
    else "ready".

Definition progress (m : model) (id : string) : nat * nat := default (0, 0) (counts m !! id).

Definition groupKey (ids : list string) : string :=
  "(" +:+ Join ((λ id, "`" +:+ id +:+ "`") <$> ids) ", " +:+ ")".

(** ** Lemmas: lists under a key *)

Lemma list_at_append {A} (m : gmap string (list A)) k x j :
  list_at (append_at k x m) j = list_at m j ++ (if bool_decide (k = j) then [x] else []).
Proof.
  unfold list_at, append_at. destruct (decide (k = j)) as [->|Hne].
  - rewrite bool_decide_eq_true_2 by done. by rewrite lookup_insert_eq.
  - rewrite bool_decide_eq_false_2 by done.
    by rewrite lookup_insert_ne, app_nil_r by done.
Qed.

Lemma list_at_append_foldl {A} (bs : list string) (x : A) (m : gmap string (list A)) j :
  list_at (foldl (λ m b, append_at b x m) m bs) j
  = list_at m j ++ ((λ _, x) <$> filter (λ b, b = j) bs).
Proof.
  revert m. induction bs as [|b bs IH]; intros m; simpl; [by rewrite app_nil_r|].
  rewrite IH, list_at_append, <-app_assoc. rewrite filter_cons.
  destruct (decide (b = j)) as [->|Hne].
  - by rewrite bool_decide_eq_true_2.
  - by rewrite bool_decide_eq_false_2.
Qed.

(** ** Lemmas: the walk of a scope *)

(** The children a branch of the scope reaches. *)
Inductive reached (sc : scope) : string → Prop :=
| reached_top id : id ∈ tops sc → reached sc id
| reached_next id next : reached sc id → next ∈ unblocks sc id → reached sc next.

#[export] Hint Constructors reached : go.

Section reach.
Context (sc : scope) (children : list string).
Hypothesis tops_in : ∀ id, id ∈ tops sc → id ∈ children.
Hypothesis unblocks_in : ∀ id next, next ∈ unblocks sc id → next ∈ children.

Definition reach_measure (seen : gset string) (queue : list string) : nat :=
  length queue + sum_list (length ∘ unblocks sc <$> filter (λ id, id ∉ seen) children).

Lemma visit_measure (id : string) (seen : gset string) (l : list string) :
  id ∉ seen → id ∈ l →
  length (unblocks sc id)
  + sum_list (length ∘ unblocks sc <$> filter (λ x, x ∉ {[id]} ∪ seen) l)
  ≤ sum_list (length ∘ unblocks sc <$> filter (λ x, x ∉ seen) l).
Proof using.
  intros Hid. assert (∀ l, sum_list (length ∘ unblocks sc <$> filter (λ x, x ∉ {[id]} ∪ seen) l)
    ≤ sum_list (length ∘ unblocks sc <$> filter (λ x, x ∉ seen) l)) as Hle.
  { clear l. induction l as [|x l IH]; [done|]. rewrite !filter_cons.
    destruct (decide (x ∉ seen)) as [Hx|Hx]; destruct (decide (x ∉ {[id]} ∪ seen)) as [Hy|Hy];
      rewrite ?fmap_cons; simpl; try lia. exfalso; apply Hx; intros Hs; apply Hy, elem_of_union_r, Hs. }
  induction l as [|x l IH]; [by intros ?%elem_of_nil|].
  intros [->|Hin]%elem_of_cons; rewrite !filter_cons.
  - rewrite (decide_False (P := x ∉ {[x]} ∪ seen))
      by (intros H; apply H, elem_of_union_l; by apply elem_of_singleton).
    rewrite (decide_True (P := x ∉ seen)) by done. rewrite fmap_cons. simpl. specialize (Hle l). lia.
  - specialize (IH Hin).
    destruct (decide (x ∉ seen)) as [Hx|Hx]; destruct (decide (x ∉ {[id]} ∪ seen)) as [Hy|Hy];
      rewrite ?fmap_cons; simpl; try lia. exfalso; apply Hx; intros Hs; apply Hy, elem_of_union_r, Hs.
Qed.

Lemma reach_total_from fuel seen queue :
  reach_measure seen queue < fuel → (∀ id, id ∈ queue → id ∈ children) →
  ∃ seen', reach sc fuel seen queue = Some seen'.
Proof using unblocks_in.
  revert seen queue. induction fuel as [|fuel IH]; intros seen queue Hf Hq; [lia|]. simpl.
  destruct queue as [|id queue]; [eauto|]. unfold reach_measure in *. simpl in Hf.
  destruct (decide (id ∈ seen)) as [Hs|Hs].
  - rewrite bool_decide_eq_true_2 by done. apply IH; [lia|].
    intros x Hx. apply Hq. by right.
  - rewrite bool_decide_eq_false_2 by done. apply IH.
    + rewrite length_app. pose proof (visit_measure id seen children Hs) as Hv.
      specialize (Hv (Hq id ltac:(by left))). lia.
    + intros x [Hx|Hx]%elem_of_app; [apply Hq; by right|eauto].
Qed.

Lemma reach_sound fuel seen queue seen' :
  reach sc fuel seen queue = Some seen' →
  (∀ id, id ∈ seen → reached sc id) → (∀ id, id ∈ queue → reached sc id) →
  ∀ id, id ∈ seen' → reached sc id.
Proof using.
  revert seen queue. induction fuel as [|fuel IH]; intros seen queue; simpl; [done|].
  destruct queue as [|id queue]; [by intros [= <-]|].
  destruct (decide (id ∈ seen)) as [Hs|Hs].
  - rewrite bool_decide_eq_true_2 by done. intros Hr H1 H2.
    apply (IH _ _ Hr); [done|]. intros x Hx. apply H2. by right.
  - rewrite bool_decide_eq_false_2 by done. intros Hr H1 H2. apply (IH _ _ Hr).
    + intros x [->%elem_of_singleton|Hx]%elem_of_union; [apply H2; by left|by apply H1].
    + intros x [Hx|Hx]%elem_of_app; [apply H2; by right|].
      eapply reached_next; [apply H2; by left|done].
Qed.

Lemma reach_closed fuel seen queue seen' :
  reach sc fuel seen queue = Some seen' →
  (∀ id next, id ∈ seen → next ∈ unblocks sc id → next ∈ seen ∨ next ∈ queue) →
  seen ⊆ seen' ∧ (∀ id, id ∈ queue → id ∈ seen') ∧
  (∀ id next, id ∈ seen' → next ∈ unblocks sc id → next ∈ seen').
Proof using.
  revert seen queue. induction fuel as [|fuel IH]; intros seen queue; simpl; [done|].
  destruct queue as [|id queue].
  { intros [= <-] H. split; [done|]. split; [by intros ? ?%elem_of_nil|].
    intros x y Hx Hy. destruct (H x y Hx Hy) as [?|?%elem_of_nil]; done. }
  destruct (decide (id ∈ seen)) as [Hs|Hs].
  - rewrite bool_decide_eq_true_2 by done. intros Hr H.
    destruct (IH _ _ Hr) as (H1 & H2 & H3).
    { intros x y Hx Hy. destruct (H x y Hx Hy) as [?|[->|?]%elem_of_cons]; auto. }
    split; [done|]. split; [|done]. intros x [->|Hx]%elem_of_cons; auto.
  - rewrite bool_decide_eq_false_2 by done. intros Hr H.
    destruct (IH _ _ Hr) as (H1 & H2 & H3).
    { intros x y [->%elem_of_singleton|Hx]%elem_of_union Hy.
      - right. apply elem_of_app. by right.
      - destruct (H x y Hx Hy) as [?|[->|?]%elem_of_cons].
        + left. by apply elem_of_union_r.
        + left. apply elem_of_union_l. by apply elem_of_singleton.
        + right. apply elem_of_app. by left. }
    split; [|split; [|done]].
    + intros x Hx. apply H1. by apply elem_of_union_r.
    + intros x [->|Hx]%elem_of_cons.
      * apply H1, elem_of_union_l. by apply elem_of_singleton.
      * apply H2, elem_of_app. by left.
Qed.

(** The walk ends within its fuel and finds exactly what is reached. *)
Lemma reachable_total : reach sc (reach_fuel sc children) ∅ (tops sc) ≠ None.
Proof using tops_in unblocks_in.
  destruct (reach_total_from (reach_fuel sc children) ∅ (tops sc)) as [s ->]; [|done|done].
  unfold reach_measure, reach_fuel.
  apply Nat.lt_succ_r, Nat.add_le_mono_l, sum_list_filter_le.
Qed.

Lemma reachable_reached id : id ∈ reachable sc children ↔ reached sc id.
Proof using tops_in unblocks_in.
  unfold reachable. pose proof reachable_total as Ht.
  destruct (reach sc _ ∅ (tops sc)) as [s|] eqn:Hr; [|done]. simpl. split.
  - apply (reach_sound _ _ _ _ Hr); [by intros ? ?%elem_of_empty|by constructor].
  - destruct (reach_closed _ _ _ _ Hr) as (_ & H1 & H2); [by intros ? ? ?%elem_of_empty|].
    induction 1; eauto.
Qed.
End reach.

(** ** Lemmas: promotion *)

Lemma unblocks_promote id sc x : unblocks (promote id sc) x = unblocks sc x.
Proof. done. Qed.

Lemma reached_promote id sc x : reached sc x → reached (promote id sc) x.
Proof.
  induction 1 as [x Hx|x y _ IH Hy].
  - apply reached_top. simpl. apply elem_of_app. by left.
  - eapply reached_next; [exact IH|done].
Qed.

Lemma reached_promoted id sc : reached (promote id sc) id.
Proof. apply reached_top. simpl. apply elem_of_app. right. by apply list_elem_of_singleton. Qed.

(** What a scope names is among its children. *)
Definition scope_within (sc : scope) (children : list string) : Prop :=
  (∀ id, id ∈ tops sc → id ∈ children) ∧
  (∀ id next, next ∈ unblocks sc id → next ∈ children).

Lemma promote_within id sc children :
  scope_within sc children → id ∈ children → scope_within (promote id sc) children.
Proof.
  intros [H1 H2] Hid. split; [|exact H2].
  intros x [Hx|Hx]%elem_of_app; [by apply H1|].
  apply list_elem_of_singleton in Hx as ->. done.
Qed.

(** A scope before and after promotion: the same branches, more tops. *)
Record promotes (children : list string) (sc sc' : scope) : Prop := {
  promotes_tops : ∃ l, tops sc' = tops sc ++ l ∧ Forall (λ id, id ∈ children ∧ ¬ reached sc id) l;
  promotes_deps : deps sc' = deps sc;
  promotes_shared : shared sc' = shared sc;
  promotes_sharedBy : sharedBy sc' = sharedBy sc;
}.

Lemma promotes_refl children sc : promotes children sc sc.
Proof. split; try done. exists []. by rewrite app_nil_r. Qed.

Lemma promotes_step children id sc sc' :
  id ∈ children → ¬ reached sc id → promotes children (promote id sc) sc' →
  promotes children sc sc'.
Proof.
  intros Hin Hid [(l & Hl & Hf) H2 H3 H4]. split; [|done..].
  exists (id :: l). rewrite Hl. simpl. rewrite <-app_assoc. split; [done|].
  constructor; [done|]. eapply Forall_impl; [exact Hf|].
  intros x [? Hx]. split; [done|]. intros Hr. by apply Hx, reached_promote.
Qed.

Definition unreached (sc : scope) (children : list string) : list string :=
  filter (λ id, id ∉ reachable sc children) children.

Lemma unreached_promote sc children id :
  scope_within sc children → id ∈ children → id ∉ reachable sc children →
  length (unreached (promote id sc) children) < length (unreached sc children).
Proof.
  intros Hw Hin Hid. destruct Hw as [Hw1 Hw2].
  destruct (promote_within id sc children (conj Hw1 Hw2) Hin) as [Hp1 Hp2].
  unfold unreached. apply length_filter_strict with (y := id); [|done|done|].
  - intros x _ Hx Hr. apply Hx. apply reachable_reached; [done|done|].
    apply reached_promote. by apply (reachable_reached sc children).
  - intros Hn. apply Hn. apply reachable_reached; [done|done|]. apply reached_promoted.
Qed.

Lemma promote_loop_spec n children sc :
  scope_within sc children → length (unreached sc children) ≤ n →
  let sc' := promote_loop n children sc in
  promotes children sc sc' ∧ (∀ id, id ∈ children → reached sc' id).
Proof.
  revert sc. induction n as [|n IH]; intros sc Hw Hn; simpl.
  - split; [apply promotes_refl|]. intros id Hid.
    destruct (decide (id ∈ reachable sc children)) as [Hr|Hr].
    { destruct Hw as [H1 H2]. by apply (reachable_reached sc children H1 H2). }
    assert (id ∈ unreached sc children) as Hu by (by apply list_elem_of_filter).
    apply list_elem_of_split in Hu as (? & ? & Hu).
    rewrite Hu, length_app in Hn. simpl in Hn. lia.
  - destruct (list_find _ children) as [[i id]|] eqn:Hf.
    + apply list_find_Some in Hf as (Hi & Hnr & _).
      pose proof (list_elem_of_lookup_2 _ _ _ Hi) as Hin.
      pose proof (unreached_promote sc children id Hw Hin Hnr).
      destruct (IH (promote id sc)) as [Hp Hr]; [by apply promote_within|lia|].
      split; [|done]. apply (promotes_step _ id); [done| |done].
      destruct Hw as [H1 H2]. intros Hrd. apply Hnr. by apply reachable_reached.
    + split; [apply promotes_refl|]. intros id Hid.
      apply list_find_None in Hf. rewrite Forall_forall in Hf.
      specialize (Hf id Hid). simpl in Hf.
      destruct Hw as [H1 H2]. apply (reachable_reached sc children H1 H2).
      destruct (decide (id ∈ reachable sc children)); [done|]. by destruct Hf.
Qed.

(** If every child is reached, no child is promoted. *)
Lemma promote_loop_reached n children sc :
  scope_within sc children → (∀ id, id ∈ children → reached sc id) →
  promote_loop n children sc = sc.
Proof.
  intros [H1 H2] Hr. destruct n as [|n]; [done|]. simpl.
  destruct (list_find _ children) as [[i id]|] eqn:Hf; [|done].
  apply list_find_Some in Hf as (Hi & Hnr & _). destruct Hnr.
  apply reachable_reached; [done|done|]. apply Hr. by eapply list_elem_of_lookup_2.
Qed.

(** ** Lemmas: the shape of a layout *)

Section layout.
Context (m : model) (children : list string).

Local Notation sibs := (within m children).

Definition base (l : list string) : scope := foldl (place m children) empty_scope l.

Lemma base_snoc l id : base (l ++ [id]) = place m children (base l) id.
Proof using. unfold base. by rewrite foldl_app. Qed.

Lemma within_spec id b : b ∈ sibs id ↔ b ∈ list_at (blockers m) id ∧ b ∈ children.
Proof using. unfold within. rewrite list_elem_of_filter. tauto. Qed.

Lemma base_tops l : tops (base l) = filter (λ id, sibs id = []) l.
Proof using.
  induction l as [|id l IH] using rev_ind; [done|].
  rewrite base_snoc, filter_app, filter_cons, filter_nil, <-IH. unfold place.
  destruct (sibs id) as [|b [|c bs]]; simpl; by rewrite ?app_nil_r.
Qed.

Lemma base_deps l b : list_at (deps (base l)) b = filter (λ id, sibs id = [b]) l.
Proof using.
  induction l as [|id l IH] using rev_ind; [done|].
  rewrite base_snoc, filter_app, filter_cons, filter_nil, <-IH. unfold place.
  destruct (sibs id) as [|c [|d bs]]; cbn [deps];
    [by rewrite decide_False, app_nil_r by done| |by rewrite decide_False, app_nil_r by done].
  rewrite list_at_append. f_equal.
  destruct (decide (c = b)) as [->|Hn].
  - by rewrite bool_decide_eq_true_2, decide_True.
  - rewrite bool_decide_eq_false_2, decide_False by congruence. done.
Qed.

Lemma base_shared l :
  shared (base l) = (λ id, mkGroup (sibs id) id) <$> filter (λ id, 2 ≤ length (sibs id)) l.
Proof using.
  induction l as [|id l IH] using rev_ind; [done|].
  rewrite base_snoc, filter_app, filter_cons, filter_nil, fmap_app, <-IH. unfold place.
  destruct (sibs id) as [|b [|c bs]] eqn:E; cbn [shared];
    [by rewrite decide_False, app_nil_r by (simpl; lia)..|].
  rewrite decide_True by (simpl; lia). rewrite fmap_cons, E. done.
Qed.

Lemma base_sharedBy l b idx :
  idx ∈ list_at (sharedBy (base l)) b ↔
  ∃ g, shared (base l) !! idx = Some g ∧ b ∈ g_blockers g.
Proof using.
  revert idx. induction l as [|id l IH] using rev_ind; intros idx.
  { split; [by intros ?%elem_of_nil|]. intros (g & Hg & _). by destruct idx. }
  rewrite base_snoc. unfold place.
  destruct (sibs id) as [|c [|d bs]] eqn:E; [apply IH|apply IH|].
  cbn [sharedBy shared]. rewrite list_at_append_foldl, elem_of_app, IH. split.
  - intros [(g & Hg & Hb)|Hidx].
    + exists g. split; [|done]. by apply lookup_app_l_Some.
    + apply list_elem_of_fmap in Hidx as (y & -> & Hy%list_elem_of_filter).
      destruct Hy as [-> Hy]. exists (mkGroup (c :: d :: bs) id). split; [|done].
      by rewrite lookup_app_r, Nat.sub_diag by lia.
  - intros (g & Hg & Hb). apply lookup_app_Some in Hg as [Hg|[Hlen Hg]]; [left; eauto|].
    right. apply list_elem_of_fmap. exists b.
    apply list_lookup_singleton_Some in Hg as [Hidx <-].
    split; [lia|]. by apply list_elem_of_filter.
Qed.

Lemma elem_of_unblocks_base l id next :
  next ∈ unblocks (base l) id ↔
  next ∈ l ∧ (sibs next = [id] ∨ 2 ≤ length (sibs next) ∧ id ∈ sibs next).
Proof using.
  unfold unblocks. rewrite elem_of_app, base_deps, list_elem_of_filter, list_elem_of_omap. split.
  - intros [[H1 H2]|(idx & Hidx & Hg)]; [by eauto|].
    apply base_sharedBy in Hidx as (g & Hs & Hb). rewrite Hs in Hg. simplify_eq/=.
    rewrite base_shared in Hs. apply list_lookup_fmap_Some in Hs as (x & -> & Hx).
    apply list_elem_of_lookup_2, list_elem_of_filter in Hx as [Hx Hin]. simpl in *. eauto.
  - intros [Hin [Hs|[Hlen Hb]]]; [by left|]. right.
    assert (next ∈ filter (λ id, 2 ≤ length (sibs id)) l) as Hf by (by apply list_elem_of_filter).
    apply list_elem_of_lookup in Hf as [idx Hidx].
    assert (shared (base l) !! idx = Some (mkGroup (sibs next) next)) as Hg.
    { rewrite base_shared. by rewrite list_lookup_fmap, Hidx. }
    exists idx. rewrite base_sharedBy, Hg. split; [|done]. eexists. by split.
Qed.

Lemma base_within : scope_within (base children) children.
Proof using.
  split.
  - intros id. rewrite base_tops, list_elem_of_filter. tauto.
  - intros id next. rewrite elem_of_unblocks_base. tauto.
Qed.

(** Without a cycle among the siblings every child is reached before any is
    promoted. *)
Lemma base_acyclic (rank : string → nat) id :
  (∀ x b, x ∈ children → b ∈ sibs x → rank b < rank x) →
  id ∈ children → reached (base children) id.
Proof using.
  intros Hrank. remember (rank id) as n eqn:En. revert id En.
  induction (lt_wf n) as [n _ IH]. intros id -> Hin.
  destruct (sibs id) as [|b [|c bs]] eqn:E.
  - apply reached_top. by rewrite base_tops, list_elem_of_filter.
  - assert (b ∈ sibs id) as Hb by (rewrite E; by left).
    apply (reached_next _ b).
    + apply (IH (rank b)); [by apply Hrank|done|]. by apply within_spec in Hb as [_ Hb].
    + rewrite elem_of_unblocks_base. auto.
  - assert (b ∈ sibs id) as Hb by (rewrite E; by left).
    apply (reached_next _ b).
    + apply (IH (rank b)); [by apply Hrank|done|]. by apply within_spec in Hb as [_ Hb].
    + rewrite elem_of_unblocks_base. split; [done|]. right. split; [|done]. rewrite E. simpl. lia.
Qed.
End layout.

Lemma layout_promotes m c :
  let children := list_at (kids m) c in
  promotes children (base m children children) (layout m c) ∧
  (∀ id, id ∈ children → reached (layout m c) id).
Proof.
  intros children. apply promote_loop_spec; [apply base_within|].
  apply length_filter.
Qed.

Lemma layout_within m c : scope_within (layout m c) (list_at (kids m) c).
Proof.
  destruct (layout_promotes m c) as [[(l & Hl & Hf) Hd Hs Hb] _].
  destruct (base_within m (list_at (kids m) c)) as [H1 H2]. split.
  - intros id. rewrite Hl, elem_of_app. intros [?|Hid]; [by apply H1|].
    rewrite Forall_forall in Hf. by apply (Hf id Hid).
  - intros id next. unfold unblocks. rewrite Hd, Hs, Hb. apply H2.
Qed.

(** The layout of a container places every child where its blockers among
    its siblings put it and loses none. Children with no such blocker are the
    first tops; those with exactly one hang under that sibling; those with more
    form a shared group with exactly these blockers, indexed under each of
    them. Every child is reached from the tops, and children are promoted to the
    top only when the sibling dependencies have a cycle: if they can be ranked,
    none is. *)
Theorem layout_complete m c :
  let children := list_at (kids m) c in
  let sibs := within m children in
  let sc := layout m c in
  (∃ promoted, tops sc = filter (λ id, sibs id = []) children ++ promoted ∧
     (∀ id, id ∈ promoted → id ∈ children ∧ sibs id ≠ []) ∧
     ∀ rank : string → nat,
       (∀ x b, x ∈ children → b ∈ sibs x → rank b < rank x) → promoted = []) ∧
  (∀ b, list_at (deps sc) b = filter (λ id, sibs id = [b]) children) ∧
  shared sc = (λ id, mkGroup (sibs id) id) <$> filter (λ id, 2 ≤ length (sibs id)) children ∧
  (∀ b idx, idx ∈ list_at (sharedBy sc) b ↔
     ∃ g, shared sc !! idx = Some g ∧ b ∈ g_blockers g) ∧
  (∀ id, id ∈ children → reached sc id).
Proof.
  intros children sibs sc.
  destruct (layout_promotes m c) as [[(l & Hl & Hf) Hd Hs Hb] Hr].
  fold children in Hl, Hf, Hd, Hs, Hb, Hr. fold sc in Hl, Hd, Hs, Hb, Hr. split; [|split; [|split; [|split]]].
  - exists l. rewrite Hl, base_tops. split; [done|]. split.
    + intros id Hid. rewrite Forall_forall in Hf. destruct (Hf id Hid) as [Hin Hn].
      split; [done|]. intros E. apply Hn, reached_top. by rewrite base_tops, list_elem_of_filter.
    + intros rank Hrank. destruct l as [|id l]; [done|]. exfalso.
      apply Forall_cons in Hf as [[Hin Hn] _]. apply Hn. by apply (base_acyclic m children rank).
  - intros b. rewrite Hd. apply base_deps.
  - rewrite Hs. apply base_shared.
  - intros b idx. rewrite Hb, Hs. apply base_sharedBy.
  - exact Hr.
Qed.

(** ** Lemmas: the chain of parents *)

(** The strand [n] parents above; the empty string above the last. *)
Fixpoint up (parent : gmap string string) (n : nat) (id : string) : string :=
  match n with
  | 0 => id
  | S n => up parent n (default "" (parent !! id))
  end.

Section up.
Context (parent : gmap string string).
Hypothesis no_blank : parent !! "" = None.

Lemma up_add m n id : up parent (m + n) id = up parent n (up parent m id).
Proof using. revert id. induction m; intros id; simpl; auto. Qed.

Lemma up_S n id : up parent (S n) id = default "" (parent !! up parent n id).
Proof using. rewrite <-Nat.add_1_r, up_add. done. Qed.

Lemma up_blank n : up parent n "" = "".
Proof using no_blank. induction n; simpl; [done|]. by rewrite no_blank. Qed.

Lemma up_end n k id : up parent n id = "" → n ≤ k → up parent k id = "".
Proof using no_blank.
  intros Hn Hk. replace k with (n + (k - n)) by lia. by rewrite up_add, Hn, up_blank.
Qed.

Lemma up_repeat k id n : up parent k id = id → up parent (n * k) id = id.
Proof using. intros Hk. induction n; simpl; [done|]. by rewrite up_add, Hk. Qed.

(** A chain that ends comes back to none of its strands. *)
Lemma up_no_cycle n k id :
  up parent n id = "" → up parent (S k) id = id → id = "".
Proof using no_blank.
  intros Hn Hk. rewrite <-(up_repeat (S k) id n Hk). apply (up_end n); [done|lia].
Qed.

Lemma walk_total fuel seen cur :
  seen ⊆ dom parent → S (size (dom parent ∖ seen)) < fuel →
  walk parent fuel seen cur ≠ None.
Proof using no_blank.
  revert seen cur. induction fuel as [|fuel IH]; intros seen cur Hs Hf; [lia|]. simpl.
  case_bool_decide; [done|]. destruct (decide (cur ∈ seen)) as [Hc|Hc].
  { by rewrite bool_decide_eq_true_2. }
  rewrite bool_decide_eq_false_2 by done.
  destruct (parent !! cur) as [p|] eqn:Hp; simpl.
  - assert (cur ∈ dom parent) as Hd by (by apply elem_of_dom).
    apply IH; [set_solver|].
    assert (size (dom parent ∖ ({[cur]} ∪ seen)) < size (dom parent ∖ seen)); [|lia].
    apply subset_size. set_solver.
  - destruct fuel; [lia|]. simpl. done.
Qed.

Lemma walk_true fuel seen cur :
  seen ⊆ dom parent → walk parent fuel seen cur = Some true →
  ∃ n, up parent n cur = "" ∧ (∀ k, k < n → up parent k cur ≠ "") ∧
       n ≤ S (size (dom parent ∖ seen)).
Proof using no_blank.
  revert seen cur. induction fuel as [|fuel IH]; intros seen cur Hs; simpl; [done|].
  destruct (decide (cur = "")) as [->|Hc].
  { intros _. exists 0. split; [done|]. split; [lia|lia]. }
  rewrite bool_decide_eq_false_2 by done.
  destruct (decide (cur ∈ seen)) as [Hi|Hi]; [by rewrite bool_decide_eq_true_2|].
  rewrite bool_decide_eq_false_2 by done.
  destruct (parent !! cur) as [p|] eqn:Hp; simpl; intros Hw.
  - assert (cur ∈ dom parent) as Hd by (by apply elem_of_dom).
    destruct (IH ({[cur]} ∪ seen) p ltac:(set_solver) Hw) as (n & H1 & H2 & H3).
    exists (S n). split; [simpl; by rewrite Hp|]. split.
    + intros [|k] Hk; simpl; [done|]. rewrite Hp. apply H2. lia.
    + assert (size (dom parent ∖ ({[cur]} ∪ seen)) < size (dom parent ∖ seen)); [|lia].
      apply subset_size. set_solver.
  - exists 1. split; [simpl; by rewrite Hp|]. split; [|lia]. intros [|k] Hk; [done|lia].
Qed.

Lemma walk_false fuel seen cur n :
  (∀ x, x ∈ seen → ∃ k, up parent (S k) x = cur) →
  up parent n cur = "" → walk parent fuel seen cur ≠ Some false.
Proof using no_blank.
  revert seen cur n. induction fuel as [|fuel IH]; intros seen cur n Hs Hn; simpl; [done|].
  destruct (decide (cur = "")) as [->|Hc]; [done|].
  rewrite bool_decide_eq_false_2 by done.
  destruct (decide (cur ∈ seen)) as [Hi|Hi].
  { destruct (Hs cur Hi) as [k Hk]. destruct Hc. by apply (up_no_cycle n k). }
  rewrite bool_decide_eq_false_2 by done.
  apply (IH _ _ n).
  - intros x [->%elem_of_singleton|Hx]%elem_of_union; [by exists 0|].
    destruct (Hs x Hx) as [k Hk]. exists (S k). by rewrite up_S, Hk.
  - change (up parent (S n) cur = ""). apply (up_end n); [done|lia].
Qed.

Lemma walk_exact cur :
  walk parent (walk_fuel parent) ∅ cur = Some true ↔ ∃ n, up parent n cur = "".
Proof using no_blank.
  split.
  - intros H. destruct (walk_true _ _ _ (empty_subseteq _) H) as (n & Hn & _). by exists n.
  - intros [n Hn]. destruct (walk _ _ ∅ cur) as [[]|] eqn:E; [done| |].
    + exfalso. eapply (walk_false _ ∅ cur n); [|done|exact E]. by intros ? ?%elem_of_empty.
    + exfalso. eapply walk_total; [| |exact E]; [apply empty_subseteq|].
      unfold walk_fuel. rewrite difference_empty_L, size_dom. lia.
Qed.

(** An acyclic chain has at most one strand more than there are edges. *)
Lemma up_bound id :
  (∃ n, up parent n id = "") →
  ∃ n, up parent n id = "" ∧ (∀ k, k < n → up parent k id ≠ "") ∧ n ≤ S (size parent).
Proof using no_blank.
  intros H. apply walk_exact in H. apply walk_true in H; [|apply empty_subseteq].
  by rewrite difference_empty_L, size_dom in H.
Qed.
End up.

Lemma collect_parents_ok (acc : gmap string string) (l : list edge) p :
  Forall (λ e, From e ≠ To e) l →
  collect_parents acc l = Ok p ↔
  p = foldl (λ m e, if bool_decide (From e = To e) then m else <[To e := From e]> m) acc l ∧
  (∀ e q, e ∈ l → acc !! To e = Some q → q = From e) ∧
  (∀ e e', e ∈ l → e' ∈ l → To e = To e' → From e = From e').
Proof.
  revert acc. induction l as [|e l IH]; intros acc Hl; simpl.
  { split; [|by intros (-> & _)]. intros [= ->]. split; [done|].
    split; [by intros ? ? ?%elem_of_nil|by intros ? ? ?%elem_of_nil]. }
  apply Forall_cons in Hl as [He Hl].
  rewrite (bool_decide_eq_false_2 _ He), result_bind_ok.
  transitivity ((∀ q, acc !! To e = Some q → q = From e) ∧
                collect_parents (<[To e := From e]> acc) l = Ok p).
  { split.
    - intros ([] & H1 & H2). split; [|done]. intros q Hq. rewrite Hq in H1.
      by apply ensure_ok, bool_decide_eq_true in H1.
    - intros [H1 H2]. exists tt. split; [|done]. destruct (acc !! To e) as [q|]; [|done].
      apply ensure_ok, bool_decide_eq_true. by apply H1. }
  rewrite IH by done. split.
  - intros (H1 & H2 & H3 & H4). split; [done|]. split.
    + intros e' q [->|He']%elem_of_cons Hq; [by apply H1|].
      destruct (decide (To e = To e')) as [Heq|Hne].
      * rewrite <-Heq in Hq. rewrite (H1 q Hq). apply (H3 e'); [done|].
        by rewrite Heq, lookup_insert_eq.
      * apply (H3 e'); [done|]. by rewrite lookup_insert_ne.
    + intros e1 e2 [->|H1']%elem_of_cons [->|H2']%elem_of_cons Ht; [done| | |by apply H4].
      * apply (H3 e2); [done|]. by rewrite <-Ht, lookup_insert_eq.
      * symmetry. apply (H3 e1); [done|]. by rewrite Ht, lookup_insert_eq.
  - intros (-> & H2 & H3). split; [intros q; apply H2; by left|]. split; [done|]. split.
    + intros e' q He' Hq. destruct (decide (To e = To e')) as [Heq|Hne].
      * rewrite <-Heq, lookup_insert_eq in Hq. injection Hq as <-.
        apply H3; [by left|by right|done].
      * rewrite lookup_insert_ne in Hq by done. apply (H2 e'); [by right|done].
    + intros e1 e2 H1' H2'. apply H3; by right.
Qed.

Lemma parent_map_acc_lookup (acc : gmap string string) (l : list edge) c p :
  foldl (λ m e, if bool_decide (From e = To e) then m else <[To e := From e]> m) acc l !! c
    = Some p → acc !! c = Some p ∨ ∃ e, e ∈ l ∧ To e = c ∧ From e = p ∧ From e ≠ To e.
Proof.
  revert acc. induction l as [|e l IH]; intros acc; simpl; [by left|].
  intros H. destruct (IH _ H) as [H1|(e' & ? & ?)].
  - case_bool_decide; [by left|]. destruct (decide (To e = c)) as [<-|Hne].
    + rewrite lookup_insert_eq in H1. injection H1 as <-. right. exists e.
      split; [by left|done].
    + left. by rewrite lookup_insert_ne in H1.
  - right. exists e'. split; [by right|done].
Qed.

Lemma parent_map_lookup l c p :
  parent_map l !! c = Some p → ∃ e, e ∈ l ∧ To e = c ∧ From e = p ∧ From e ≠ To e.
Proof. intros [H|H]%parent_map_acc_lookup; [|done]. by rewrite lookup_empty in H. Qed.

Lemma parent_map_acc_is_Some (acc : gmap string string) (l : list edge) c :
  is_Some (acc !! c) ∨ (∃ e, e ∈ l ∧ To e = c ∧ From e ≠ To e) →
  is_Some (foldl (λ m e, if bool_decide (From e = To e) then m else <[To e := From e]> m) acc l !! c).
Proof.
  revert acc. induction l as [|e l IH]; intros acc; simpl.
  { intros [?|(e & ?%elem_of_nil & _)]; done. }
  intros H. apply IH. destruct H as [H|(e' & [->|He']%elem_of_cons & H)].
  - left. case_bool_decide; [done|]. by apply lookup_insert_is_Some'; right.
  - left. destruct H as [<- H]. rewrite bool_decide_eq_false_2 by done.
    by rewrite lookup_insert_eq.
  - right. eauto.
Qed.

Lemma parent_map_to l e : e ∈ l → From e ≠ To e → is_Some (parent_map l !! To e).
Proof. intros. apply parent_map_acc_is_Some. right. eauto. Qed.

Lemma parent_map_blank l : Forall (λ e, To e ≠ "") l → parent_map l !! "" = None.
Proof.
  intros Hl. destruct (parent_map l !! "") as [p|] eqn:E; [|done].
  apply parent_map_lookup in E as (e & He & Hto & _). rewrite Forall_forall in Hl.
  by destruct (Hl e He).
Qed.

Lemma validateParents_ok l :
  Forall (λ e, To e ≠ "" ∧ From e ≠ To e) l →
  validateParents l = Ok tt ↔
  (∀ e e', e ∈ l → e' ∈ l → To e = To e' → From e = From e') ∧
  (∀ e, e ∈ l → ∃ n, up (parent_map l) n (To e) = "").
Proof.
  intros Hl. assert (Forall (λ e, From e ≠ To e) l) as Hne.
  { eapply Forall_impl; [exact Hl|]. by intros e [_ ?]. }
  assert (parent_map l !! "" = None) as Hb.
  { apply parent_map_blank. eapply Forall_impl; [exact Hl|]. by intros e [? _]. }
  assert (acyclic_walks (parent_map l) = true ↔
          ∀ e, e ∈ l → ∃ n, up (parent_map l) n (To e) = "") as Hw.
  { unfold acyclic_walks. rewrite forallb_forall. split.
    - intros H e He. rewrite Forall_forall in Hne.
      destruct (parent_map_to l e He (Hne e He)) as [p Hp].
      assert ((To e, p) ∈ map_to_list (parent_map l)) as Hin by (by apply elem_of_map_to_list).
      apply list_elem_of_In in Hin. specialize (H _ Hin).
      apply bool_decide_eq_true in H. by apply walk_exact in H.
    - intros H [c p] Hin. apply list_elem_of_In, elem_of_map_to_list in Hin.
      apply parent_map_lookup in Hin as (e & He & <- & _).
      apply bool_decide_eq_true. apply walk_exact; [done|]. by apply H. }
  unfold validateParents. rewrite result_bind_ok. split.
  - intros (p & Hp & Ha). apply (collect_parents_ok ∅ l p Hne) in Hp as (-> & _ & H).
    split; [exact H|]. apply ensure_ok in Ha. by apply Hw.
  - intros [H1 H2]. exists (parent_map l). split.
    + apply collect_parents_ok; [done|]. split; [done|]. split; [|done].
      intros e q _ Hq. by rewrite lookup_empty in Hq.
    + apply ensure_ok. by apply Hw.
Qed.

(** ** Validation, exactly *)

Record strand_ok (s : strand) : Prop := {
  strand_id : ID s ≠ "";
  strand_title : Title s ≠ "";
  strand_created : CreatedAt s ≠ "";
  strand_state : State s ∈ ["active"; "closed"; "replaced"];
}.

Record edges_ok (ids : gset string) (l : list edge) : Prop := {
  edges_ends : Forall (λ e, (From e ≠ "" ∧ To e ≠ "") ∧ From e ≠ To e ∧
                            From e ∈ ids ∧ To e ∈ ids) l;
  edges_once : NoDup (edge_key <$> l);
}.

(** A displayed attribute is a scalar; lane, outcome and priority have one of
    their values. *)
Definition attribute_ok (key : string) (v : attr_value) : Prop :=
  ∃ text, attr_text v = Some text ∧
    (key = attrLane → text ∈ ["refinement"; "pending"; "claimed"; "in_review"]) ∧
    (key = attrOutcome → text ∈ ["done"; "abandoned"]) ∧
    (key = attrPriority → text ∈ ["p1"; "p2"; "p3"; "p4"]).

Definition ids_of (out : export) : gset string := list_to_set (ID <$> Strands out).

Record export_valid (out : export) : Prop := {
  valid_strands : Forall strand_ok (Strands out);
  valid_ids : NoDup (ID <$> Strands out);
  valid_root : RootID out ∈ ids_of out;
  valid_parent_of : edges_ok (ids_of out) (ParentOf out);
  valid_one_parent : ∀ e e', e ∈ ParentOf out → e' ∈ ParentOf out →
    To e = To e' → From e = From e';
  valid_acyclic : ∀ e, e ∈ ParentOf out → ∃ n, up (parent_map (ParentOf out)) n (To e) = "";
  valid_depends_on : edges_ok (ids_of out) (DependsOn out);
  valid_attributes : ∀ s key v, s ∈ Strands out → key ∈ displayAttributes →
    Attributes s !! key = Some v → attribute_ok key v;
}.

Lemma validate_strands_ok ids l ids' :
  validate_strands ids l = Ok ids' ↔
  ids' = ids ∪ list_to_set (ID <$> l) ∧ Forall strand_ok l ∧
  NoDup (ID <$> l) ∧ (∀ s, s ∈ l → ID s ∉ ids).
Proof.
  revert ids. induction l as [|s l IH]; intros ids; cbn [validate_strands].
  { split.
    - intros [= ->]. split; [set_solver|]. split; [constructor|]. split; [constructor|].
      by intros ? ?%elem_of_nil.
    - intros (-> & _). f_equal. set_solver. }
  rewrite !fmap_cons. cbn [list_to_set]. split.
  - intros H. inv_ok. bools.
    match goal with Hv : validate_strands _ _ = Ok _ |- _ =>
      apply IH in Hv as (-> & Hf & Hn & Hi) end.
    split; [set_solver|]. split; [constructor; [by constructor|done]|]. split.
    + constructor; [|done]. intros (s' & Heq & Hs')%list_elem_of_fmap.
      apply (Hi s' Hs'). rewrite Heq. apply elem_of_union_l. by apply elem_of_singleton.
    + intros s' [->|Hs']%elem_of_cons; [done|]. intros Hin. apply (Hi s' Hs').
      by apply elem_of_union_r.
  - intros (-> & [[H1 H2 H3 H4] Hf]%Forall_cons & [Hn1 Hn2]%NoDup_cons & Hi).
    rewrite (bool_decide_eq_false_2 _ H1), (bool_decide_eq_false_2 _ H2),
      (bool_decide_eq_false_2 _ H3), (bool_decide_eq_true_2 _ H4).
    rewrite bool_decide_eq_false_2 by (apply Hi; by left). simpl. apply IH.
    split; [set_solver|]. split; [done|]. split; [done|].
    intros s' Hs' [Heq%elem_of_singleton|Hin]%elem_of_union.
    + apply Hn1. rewrite <-Heq. by apply list_elem_of_fmap_2.
    + apply (Hi s'); [by right|done].
Qed.

Lemma validateEdges_ok relation ids seen l :
  validateEdges relation ids seen l = Ok tt ↔
  edges_ok ids l ∧ (∀ e, e ∈ l → edge_key e ∉ seen).
Proof.
  revert seen. induction l as [|e l IH]; intros seen; cbn [validateEdges].
  { split; [|done]. intros _. split; [by repeat constructor|]. by intros ? ?%elem_of_nil. }
  split.
  - intros H. inv_ok. bools.
    match goal with Hv : validateEdges _ _ _ _ = Ok _ |- _ =>
      apply IH in Hv as ([Hf Hn] & Hi) end.
    split; [split|].
    + by constructor.
    + rewrite fmap_cons. constructor; [|done]. intros (e' & Heq & He')%list_elem_of_fmap.
      apply (Hi e' He'). rewrite Heq. apply elem_of_union_l. by apply elem_of_singleton.
    + intros e' [->|He']%elem_of_cons; [done|]. intros Hin. apply (Hi e' He').
      by apply elem_of_union_r.
  - intros [[[([H1 H2] & H3 & H4 & H5) Hf]%Forall_cons Hn] Hi].
    rewrite fmap_cons in Hn. apply NoDup_cons in Hn as [Hn1 Hn2].
    rewrite !(bool_decide_eq_false_2 _ H1), (bool_decide_eq_false_2 _ H2),
      (bool_decide_eq_false_2 _ H3), (bool_decide_eq_true_2 _ H4), (bool_decide_eq_true_2 _ H5).
    rewrite bool_decide_eq_false_2 by (apply Hi; by left). simpl. apply IH.
    split; [done|]. intros e' He' [Heq%elem_of_singleton|Hin]%elem_of_union.
    + apply Hn1. rewrite <-Heq. by apply list_elem_of_fmap_2.
    + apply (Hi e'); [by right|done].
Qed.

Lemma edges_ok_ends ids l : edges_ok ids l → Forall (λ e, To e ≠ "" ∧ From e ≠ To e) l.
Proof. intros [Hf _]. eapply Forall_impl; [exact Hf|]. by intros e ([_ ?] & ? & _). Qed.

Lemma validateAttributeValue_ok id key text :
  validateAttributeValue id key text = Ok tt ↔
  (key = attrLane → text ∈ ["refinement"; "pending"; "claimed"; "in_review"]) ∧
  (key = attrOutcome → text ∈ ["done"; "abandoned"]) ∧
  (key = attrPriority → text ∈ ["p1"; "p2"; "p3"; "p4"]).
Proof.
  unfold validateAttributeValue.
  destruct (decide (key = attrLane)) as [->|H1].
  { rewrite bool_decide_eq_true_2 by done. rewrite ensure_ok, bool_decide_eq_true.
    split; [|by intros (H & _); apply H]. intros H. split; [done|]. split; by intros. }
  rewrite (bool_decide_eq_false_2 _ H1). destruct (decide (key = attrOutcome)) as [->|H2].
  { rewrite bool_decide_eq_true_2 by done. rewrite ensure_ok, bool_decide_eq_true.
    split; [|by intros (_ & H & _); apply H]. intros H. split; [done|]. split; by intros. }
  rewrite (bool_decide_eq_false_2 _ H2). destruct (decide (key = attrPriority)) as [->|H3].
  { rewrite bool_decide_eq_true_2 by done. rewrite ensure_ok, bool_decide_eq_true.
    split; [|by intros (_ & _ & H); apply H]. intros H. split; [done|]. split; by intros. }
  rewrite (bool_decide_eq_false_2 _ H3). tauto.
Qed.

Lemma validateAttributes_ok l :
  validateAttributes l = Ok tt ↔
  ∀ s key v, s ∈ l → key ∈ displayAttributes → Attributes s !! key = Some v → attribute_ok key v.
Proof.
  unfold validateAttributes. rewrite check_each_ok, Forall_forall. split.
  - intros H s key v Hs Hk Hv. specialize (H s Hs). rewrite check_each_ok, Forall_forall in H.
    specialize (H key Hk). cbv beta in H. rewrite Hv in H.
    destruct (attr_text v) as [text|] eqn:Ht; [|done]. exists text. split; [done|].
    by apply (validateAttributeValue_ok (ID s)).
  - intros H s Hs. rewrite check_each_ok, Forall_forall. intros key Hk.
    destruct (Attributes s !! key) as [v|] eqn:Hv; [|done].
    destruct (H s key v Hs Hk Hv) as (text & Ht & Hok). rewrite Ht.
    by apply validateAttributeValue_ok.
Qed.

(** After validation [attr] returns the attribute's text: no panic. *)
Lemma validated_attr out s key v :
  export_valid out → s ∈ Strands out → key ∈ displayAttributes →
  Attributes s !! key = Some v → attr_text v = Some (attr s key).
Proof.
  intros [_ _ _ _ _ _ _ Ha] Hs Hk Hv. destruct (Ha s key v Hs Hk Hv) as (text & Ht & _).
  unfold attr. by rewrite Hv, Ht.
Qed.

Lemma validateExport_ok out : validateExport out = Ok tt ↔ export_valid out.
Proof.
  unfold validateExport. rewrite result_bind_ok. split.
  - intros (ids & Hids & H). apply validate_strands_ok in Hids as (-> & Hs & Hn & _).
    rewrite union_empty_l_L in H. inv_ok. bools.
    repeat match goal with H : validateEdges _ _ _ _ = Ok _ |- _ =>
      apply validateEdges_ok in H as [H _] end.
    match goal with H : validateParents _ = Ok _ |- _ => rename H into Hp end.
    apply validateParents_ok in Hp as [Hone Hac]; [|by eapply edges_ok_ends].
    split; try done. by apply validateAttributes_ok.
  - intros [Hs Hn Hr Hp H1 H2 Hd Ha]. exists (ids_of out). split.
    { apply validate_strands_ok. split; [by rewrite union_empty_l_L|]. split; [done|].
      split; [done|]. intros. apply not_elem_of_empty. }
    rewrite (bool_decide_eq_true_2 _ Hr). simpl.
    rewrite !(proj2 (validateEdges_ok _ _ _ _)) by
      (split; [done|intros; apply not_elem_of_empty]). simpl.
    rewrite (proj2 (validateParents_ok _ (edges_ok_ends _ _ Hp)) (conj H1 H2)). simpl.
    by apply validateAttributes_ok.
Qed.

(** [validateExport] accepts exactly the well-formed exports: strands with
    an id of their own, title, date and a known state; the root among them;
    edges of both relations between two different strands of the export, each
    once; at most one parent for a strand and no cycle of parents, the walk of
    every chain ending; and displayed attributes that are scalars with a
    permitted value. *)
Theorem validateExport_exact out : validateExport out = Ok tt ↔ export_valid out.
Proof. apply validateExport_ok. Qed.

(** ** Lemmas: the pieces of a build *)

Lemma all_strands_acc (acc : gmap string strand) l id s :
  foldl (λ m s, <[ID s := s]> m) acc l !! id = Some s →
  acc !! id = Some s ∨ s ∈ l ∧ ID s = id.
Proof.
  revert acc. induction l as [|t l IH]; intros acc; simpl; [by left|].
  intros H. destruct (IH _ H) as [Ha|[??]]; [|right; split; [by right|done]].
  destruct (decide (ID t = id)) as [<-|Hne].
  - rewrite lookup_insert_eq in Ha. injection Ha as <-. right. split; [by left|done].
  - rewrite lookup_insert_ne in Ha by done. by left.
Qed.

Lemma all_strands_lookup l id s :
  all_strands l !! id = Some s → s ∈ l ∧ ID s = id.
Proof. intros [H|H]%all_strands_acc; [by rewrite lookup_empty in H|done]. Qed.

Lemma all_strands_acc_dom (acc : gmap string strand) l :
  dom (foldl (λ m s, <[ID s := s]> m) acc l) = dom acc ∪ list_to_set (ID <$> l).
Proof.
  revert acc. induction l as [|t l IH]; intros acc; simpl; [set_solver|].
  rewrite IH, dom_insert_L. set_solver.
Qed.

Lemma all_strands_dom l : dom (all_strands l) = list_to_set (ID <$> l).
Proof. unfold all_strands. rewrite all_strands_acc_dom, dom_empty_L. set_solver. Qed.

Lemma nearest_from_spec parent keep hops cur a :
  nearest_from parent keep hops cur = Some a ↔
  ∃ j, j < hops ∧ up parent j cur = a ∧ a ≠ "" ∧ is_Some (keep !! a) ∧
       ∀ k, k < j → up parent k cur ≠ "" ∧ keep !! up parent k cur = None.
Proof.
  revert cur. induction hops as [|hops IH]; intros cur; simpl.
  { split; [done|]. intros (j & ? & _). lia. }
  destruct (decide (cur = "")) as [->|Hc].
  { rewrite bool_decide_eq_true_2 by done. split; [done|].
    intros ([|j] & _ & Hj & Ha & _ & Hk); simpl in *; [congruence|].
    by destruct (Hk 0 ltac:(lia)). }
  rewrite (bool_decide_eq_false_2 _ Hc).
  destruct (decide (is_Some (keep !! cur))) as [Hs|Hs].
  { rewrite bool_decide_eq_true_2 by done. split.
    - intros [= <-]. exists 0. split; [lia|]. split; [done|]. split; [done|]. split; [done|lia].
    - intros ([|j] & _ & Hj & Ha & _ & Hk); [by f_equal|].
      destruct (Hk 0 ltac:(lia)) as [_ Hn]. simpl in Hn. rewrite Hn in Hs. by destruct Hs. }
  rewrite bool_decide_eq_false_2 by done. rewrite IH. apply eq_None_not_Some in Hs. split.
  - intros (j & Hj & H). exists (S j). split; [lia|]. simpl.
    destruct H as (H1 & H2 & H3 & H4). split; [done|]. split; [done|]. split; [done|].
    intros [|k] Hk; [done|]. apply H4. lia.
  - intros ([|j] & Hj & H1 & H2 & H3 & H4).
    { simpl in H1. subst a. rewrite Hs in H3. by destruct H3. }
    exists j. split; [lia|]. split; [done|]. split; [done|]. split; [done|].
    intros k Hk. apply (H4 (S k)). lia.
Qed.

Lemma kids_fold keep parent root ids (acc : gmap string (list string)) a :
  list_at (foldl (λ m id,
      if bool_decide (id = root) then m
      else match nearestKept id parent keep with
           | Some anc => append_at anc id m
           | None => m
           end) acc ids) a
  = list_at acc a ++ filter (λ id, id ≠ root ∧ nearestKept id parent keep = Some a) ids.
Proof.
  revert acc. induction ids as [|id ids IH]; intros acc; simpl; [by rewrite app_nil_r|].
  rewrite IH, filter_cons. destruct (decide (id = root)) as [->|Hr].
  { rewrite bool_decide_eq_true_2, decide_False by tauto. done. }
  rewrite (bool_decide_eq_false_2 _ Hr).
  destruct (nearestKept id parent keep) as [anc|]; [|by rewrite decide_False by (intros []; done)].
  rewrite list_at_append, <-app_assoc. f_equal. destruct (decide (anc = a)) as [->|Ha].
  - by rewrite bool_decide_eq_true_2, decide_True.
  - rewrite (bool_decide_eq_false_2 _ Ha), decide_False by (intros [_ [= ?]]; done). done.
Qed.

Lemma list_at_fmap {A B} (f : list A → list B) (m : gmap string (list A)) k :
  f [] = [] → list_at (f <$> m) k = f (list_at m k).
Proof. intros Hf. unfold list_at. rewrite lookup_fmap. by destruct (m !! k). Qed.

Lemma blockers_fold (keep : gmap string strand) (l : list edge) (acc : gmap string (list string)) a :
  list_at (foldl (λ m e,
      if bool_decide (From e = To e) then m
      else if bool_decide (is_Some (keep !! From e)) && bool_decide (is_Some (keep !! To e))
      then append_at (From e) (To e) m else m) acc l) a
  = list_at acc a ++
    (To <$> filter (λ e, From e = a ∧ From e ≠ To e ∧
                         is_Some (keep !! From e) ∧ is_Some (keep !! To e)) l).
Proof.
  revert acc. induction l as [|e l IH]; intros acc; simpl; [by rewrite app_nil_r|].
  rewrite IH, filter_cons. destruct (decide (From e = To e)) as [He|He].
  { rewrite bool_decide_eq_true_2, decide_False by tauto. done. }
  rewrite (bool_decide_eq_false_2 _ He).
  destruct (decide (is_Some (keep !! From e))) as [H1|H1].
  2: { rewrite (bool_decide_eq_false_2 _ H1), decide_False by tauto. done. }
  destruct (decide (is_Some (keep !! To e))) as [H2|H2].
  2: { rewrite (bool_decide_eq_false_2 _ H2), andb_false_r, decide_False by tauto. done. }
  rewrite (bool_decide_eq_true_2 _ H1), (bool_decide_eq_true_2 _ H2). simpl.
  rewrite list_at_append, <-app_assoc. f_equal. destruct (decide (From e = a)) as [Ha|Ha].
  - rewrite (bool_decide_eq_true_2 _ Ha), decide_True by done. done.
  - rewrite (bool_decide_eq_false_2 _ Ha), decide_False by tauto. done.
Qed.

(** *** The order of the board *)

Section board.
Context (ns : gmap string strand).

Local Notation date i := (CreatedAt (default zero_strand (ns !! i))).
Local Notation name i := (ID (default zero_strand (ns !! i))).

Lemma board_less_spec i j :
  board_less ns i j = true ↔ str_lt (date i) (date j) ∨ date i = date j ∧ str_lt (name i) (name j).
Proof using.
  unfold board_less, str_lt. destruct (decide (date i = date j)) as [E|E].
  - rewrite (bool_decide_eq_true_2 _ E). cbn [negb]. rewrite E, str_ltb_irrefl.
    split; [by right|]. by intros [?|[_ ?]].
  - rewrite (bool_decide_eq_false_2 _ E). cbn [negb]. split; [by left|]. by intros [?|[? _]].
Qed.

Lemma board_less_asym i j : board_less ns i j = true → board_less ns j i = false.
Proof using.
  rewrite board_less_spec. intros H. apply not_true_iff_false. rewrite board_less_spec.
  intros H'. destruct H as [H|[E H]], H' as [H'|[E' H']].
  - apply (irreflexivity str_lt (date i)). by etrans.
  - rewrite E' in H. by apply (irreflexivity str_lt (date i)).
  - rewrite E in H'. by apply (irreflexivity str_lt (date j)).
  - apply (irreflexivity str_lt (name i)). by etrans.
Qed.

Lemma board_le_spec i j :
  sort_le (board_less ns) i j ↔
  str_lt (date i) (date j) ∨ date i = date j ∧ (str_lt (name i) (name j) ∨ name i = name j).
Proof using.
  unfold sort_le. rewrite <-not_true_iff_false, board_less_spec. split.
  - intros H. destruct (str_ltb (date i) (date j)) eqn:E; [by left|].
    assert (date i = date j) as Ed.
    { apply str_ltb_total; [done|]. apply not_true_iff_false. intros ?. apply H. by left. }
    right. split; [done|]. destruct (str_ltb (name i) (name j)) eqn:En; [by left|].
    right. apply str_ltb_total; [done|]. apply not_true_iff_false. intros ?. apply H. by right.
  - intros H H'. destruct H as [H|[E H]], H' as [H'|[E' H']].
    + apply (irreflexivity str_lt (date i)). by etrans.
    + rewrite E' in H. by apply (irreflexivity str_lt (date i)).
    + rewrite E in H'. by apply (irreflexivity str_lt (date j)).
    + destruct H as [H|H]; [|rewrite H in H'; by apply (irreflexivity str_lt (name j))].
      apply (irreflexivity str_lt (name i)). by etrans.
Qed.

#[local] Instance board_le_trans : Transitive (sort_le (board_less ns)).
Proof using.
  intros i j k. rewrite !board_le_spec.
  intros [H1|[E1 H1]] [H2|[E2 H2]].
  - left. by etrans.
  - left. by rewrite <-E2.
  - left. by rewrite E1.
  - right. split; [congruence|]. destruct H1 as [H1|H1], H2 as [H2|H2].
    + left. by etrans.
    + left. by rewrite <-H2.
    + left. by rewrite H1.
    + right. by rewrite H1.
Qed.

(** Strands stored under their own id are ordered in one way only. *)
Lemma sortIDs_canonical l l' :
  (∀ id, id ∈ l → ∃ s, ns !! id = Some s ∧ ID s = id) → l ≡ₚ l' → sortIDs ns l = sortIDs ns l'.
Proof using.
  intros Hl Hp. unfold sortIDs. apply (Sorted_unique_strong (sort_le (board_less ns))).
  - intros i j Hi Hj H1 H2. rewrite elem_of_sort_stable in Hi, Hj. rewrite <-Hp in Hj.
    destruct (Hl i Hi) as (a & Ha & <-), (Hl j Hj) as (b & Hb & <-).
    rewrite board_le_spec, Ha, Hb in H1. rewrite board_le_spec, Ha, Hb in H2. simpl in *.
    destruct H1 as [H1|[E1 H1]], H2 as [H2|[E2 H2]].
    + exfalso. apply (irreflexivity str_lt (CreatedAt a)). by etrans.
    + exfalso. rewrite E2 in H1. by apply (irreflexivity str_lt (CreatedAt a)).
    + exfalso. rewrite E1 in H2. by apply (irreflexivity str_lt (CreatedAt b)).
    + destruct H1 as [H1|H1], H2 as [H2|H2]; try done.
      exfalso. apply (irreflexivity str_lt (ID a)). by etrans.
  - apply sort_stable_sorted, board_less_asym.
  - apply sort_stable_sorted, board_less_asym.
  - by rewrite !sort_stable_perm.
Qed.

Lemma elem_of_sortIDs id l : id ∈ sortIDs ns l ↔ id ∈ l.
Proof using. apply elem_of_sort_stable. Qed.
End board.

(** *** Pruning *)

Lemma elem_of_mark_live parent hops cur live x :
  x ∈ mark_live parent hops cur live ↔
  x ∈ live ∨ ∃ n, n < hops ∧ up parent n cur = x ∧ ∀ k, k ≤ n → up parent k cur ≠ "".
Proof.
  revert cur live. induction hops as [|hops IH]; intros cur live; simpl.
  { split; [by left|]. intros [?|(n & ? & _)]; [done|lia]. }
  destruct (decide (cur = "")) as [->|Hc].
  { rewrite bool_decide_eq_true_2 by done. split; [by left|].
    intros [?|(n & _ & _ & Hk)]; [done|]. by destruct (Hk 0 ltac:(lia)). }
  rewrite (bool_decide_eq_false_2 _ Hc), IH, elem_of_union, elem_of_singleton. split.
  - intros [[->|Hl]|(n & Hn & Hu & Hk)]; [right|by left|right].
    + exists 0. split; [lia|]. split; [done|]. intros k Hk. by replace k with 0 by lia.
    + exists (S n). split; [lia|]. split; [done|]. intros [|k] Hk'; [done|]. apply Hk. lia.
  - intros [Hl|([|n] & Hn & Hu & Hk)]; [by left; right|by left; left|].
    right. exists n. split; [lia|]. split; [done|]. intros k Hk'. apply (Hk (S k)). lia.
Qed.

Lemma elem_of_live_fold parent hops root (l : list (string * strand)) x :
  x ∈ foldr (λ kv live,
      if bool_decide (State kv.2 = "active")
      then mark_live parent hops kv.1 live else live) {[root]} l ↔
  x = root ∨ ∃ kv n, kv ∈ l ∧ State kv.2 = "active" ∧ n < hops ∧ up parent n kv.1 = x ∧
                     ∀ k, k ≤ n → up parent k kv.1 ≠ "".
Proof.
  induction l as [|[id s] l IH]; simpl.
  { rewrite elem_of_singleton. split; [by left|]. intros [?|(? & ? & ?%elem_of_nil & _)]; done. }
  destruct (decide (State s = "active")) as [Ha|Ha].
  - rewrite (bool_decide_eq_true_2 _ Ha), elem_of_mark_live, IH. split.
    + intros [[?|(kv & n & H & H')]|(n & H)]; [by left|right..].
      * exists kv, n. split; [by right|done].
      * exists (id, s), n. split; [by left|done].
    + intros [?|(kv & n & [->|H]%elem_of_cons & H')]; [by left; left|right|left; right].
      * exists n. by destruct H' as [_ H'].
      * by exists kv, n.
  - rewrite (bool_decide_eq_false_2 _ Ha), IH. split.
    + intros [?|(kv & n & H & H')]; [by left|right]. exists kv, n. split; [by right|done].
    + intros [?|(kv & n & [->|H]%elem_of_cons & H' & H'')]; [by left|done|right].
      by exists kv, n.
Qed.

(** [pruneClosed] keeps exactly the root and the kept strands that are an
    active kept strand or lie above one within as many hops as there are kept
    strands. *)
Theorem pruneClosed_spec keep parent root id s :
  pruneClosed keep parent root !! id = Some s ↔
  keep !! id = Some s ∧
  (id = root ∨ ∃ a t n, keep !! a = Some t ∧ State t = "active" ∧ n ≤ size keep ∧
     up parent n a = id ∧ ∀ k, k ≤ n → up parent k a ≠ "").
Proof.
  unfold pruneClosed. rewrite map_lookup_filter_Some. cbn [fst].
  unfold live_set. rewrite elem_of_live_fold.
  apply and_iff_compat_l, or_iff_compat_l. split.
  - intros ([a t] & n & Hin%elem_of_map_to_list & Ha & Hn & H). exists a, t, n.
    split; [done|]. split; [done|]. split; [lia|done].
  - intros (a & t & n & Hin & Ha & Hn & H). exists (a, t), n.
    split; [by apply elem_of_map_to_list|]. split; [done|]. split; [lia|done].
Qed.

Lemma pruneClosed_root keep parent root : pruneClosed keep parent root !! root = keep !! root.
Proof.
  unfold pruneClosed. destruct (keep !! root) as [s|] eqn:E.
  - apply map_lookup_filter_Some. split; [done|]. cbn [fst]. unfold live_set.
    apply elem_of_live_fold. by left.
  - apply map_lookup_filter_None. by left.
Qed.

(** ** The tree of a build *)

(** The strands below the root of the model. *)
Inductive below (m : model) : string → Prop :=
| below_root : below m (rootID m)
| below_kid a id : below m a → id ∈ list_at (kids m) a → below m id.

(** What the renderer relies on: the kids relation is a tree over the kept
    strands, rooted at the root. *)
Record model_tree (m : model) : Prop := {
  tree_root : is_Some (nodes m !! rootID m);
  tree_blank : nodes m !! "" = None;
  tree_parent : ∀ a id, id ∈ list_at (kids m) a → is_Some (nodes m !! a);
  tree_kid : ∀ a id, id ∈ list_at (kids m) a → is_Some (nodes m !! id);
  tree_not_root : ∀ a, rootID m ∉ list_at (kids m) a;
  tree_one_parent : ∀ a b id, id ∈ list_at (kids m) a → id ∈ list_at (kids m) b → a = b;
  tree_once : ∀ a, NoDup (list_at (kids m) a);
  tree_below : ∀ id, is_Some (nodes m !! id) → below m id;
}.

(** The kept strands of a build. *)
Definition kept (ex : export) (f : filters) : gmap string strand :=
  let parent := parent_map (ParentOf ex) in
  let keep := filter (λ kv, keeps f (RootID ex) kv.1 kv.2 = true) (all_strands (Strands ex)) in
  if f_open f then pruneClosed keep parent (RootID ex) else keep.

Lemma kept_lookup ex f id s :
  kept ex f !! id = Some s → s ∈ Strands ex ∧ ID s = id.
Proof.
  unfold kept. intros H. apply all_strands_lookup.
  destruct (f_open f); [apply pruneClosed_spec in H as [H _]|];
    by apply map_lookup_filter_Some in H as [H _].
Qed.

Lemma kept_root ex f s :
  all_strands (Strands ex) !! RootID ex = Some s → kept ex f !! RootID ex = Some s.
Proof.
  intros H. unfold kept.
  assert (filter (λ kv, keeps f (RootID ex) kv.1 kv.2 = true) (all_strands (Strands ex))
          !! RootID ex = Some s).
  { apply map_lookup_filter_Some. split; [done|]. unfold keeps. by rewrite bool_decide_eq_true_2. }
  destruct (f_open f); [by rewrite pruneClosed_root|done].
Qed.

Lemma build_ok ex f :
  export_valid ex →
  build ex f = Ok (mkModel (RootID ex) (kept ex f)
    (sortIDs (kept ex f) <$> kids_of (kept ex f) (parent_map (ParentOf ex)) (RootID ex))
    (sortIDs (kept ex f) <$> blockers_of (kept ex f) (DependsOn ex))
    (countChildren (all_strands (Strands ex)) (ParentOf ex))).
Proof.
  intros Hv. pose proof (valid_root _ Hv) as Hr. unfold ids_of in Hr.
  rewrite <-all_strands_dom in Hr. apply elem_of_dom in Hr as [root Hroot].
  unfold build. rewrite Hroot. apply all_strands_lookup in Hroot as [_ ->]. done.
Qed.

Definition kids_list (ex : export) (f : filters) (a : string) : list string :=
  filter (λ id, id ≠ RootID ex ∧
            nearestKept id (parent_map (ParentOf ex)) (kept ex f) = Some a)
         (map_to_list (kept ex f)).*1.

Lemma elem_of_kids_list ex f a id :
  id ∈ kids_list ex f a ↔
  is_Some (kept ex f !! id) ∧ id ≠ RootID ex ∧
  nearestKept id (parent_map (ParentOf ex)) (kept ex f) = Some a.
Proof.
  unfold kids_list. rewrite list_elem_of_filter, list_elem_of_fmap. split.
  - intros [[H1 H2] ([i s] & -> & Hs%elem_of_map_to_list)]. by split; [exists s|].
  - intros ([s Hs] & H1 & H2). split; [done|]. exists (id, s).
    split; [done|]. by apply elem_of_map_to_list.
Qed.

Lemma valid_chain ex id :
  export_valid ex → ∃ n, up (parent_map (ParentOf ex)) n id = "".
Proof.
  intros Hv. destruct (parent_map (ParentOf ex) !! id) as [p|] eqn:E.
  - apply parent_map_lookup in E as (e & He & <- & _). by apply (valid_acyclic _ Hv).
  - exists 1. simpl. by rewrite E.
Qed.

Lemma valid_no_blank ex : export_valid ex → parent_map (ParentOf ex) !! "" = None.
Proof.
  intros Hv. apply parent_map_blank. pose proof (edges_ok_ends _ _ (valid_parent_of _ Hv)) as Hf.
  eapply Forall_impl; [exact Hf|]. by intros e [? _].
Qed.

Lemma kept_blank ex f : export_valid ex → kept ex f !! "" = None.
Proof.
  intros Hv. destruct (kept ex f !! "") as [s|] eqn:E; [|done]. apply kept_lookup in E as [Hs Hid].
  pose proof (valid_strands _ Hv) as Hf. rewrite Forall_forall in Hf.
  by destruct (strand_id _ (Hf s Hs)).
Qed.

Lemma kept_has_root ex f : export_valid ex → is_Some (kept ex f !! RootID ex).
Proof.
  intros Hv. pose proof (valid_root _ Hv) as Hr. unfold ids_of in Hr.
  rewrite <-all_strands_dom in Hr. apply elem_of_dom in Hr as [s Hs]. exists s. by apply kept_root.
Qed.

(** The search of [nearestKept] is not cut short by its bound. *)
Lemma nearestKept_exact ex f id a :
  export_valid ex → 
  nearestKept id (parent_map (ParentOf ex)) (kept ex f) = Some a ↔
  ∃ j, up (parent_map (ParentOf ex)) (S j) id = a ∧ is_Some (kept ex f !! a) ∧
       ∀ k, k < j → kept ex f !! up (parent_map (ParentOf ex)) (S k) id = None.
Proof.
  intros Hv. unfold nearestKept. rewrite nearest_from_spec. split.
  - intros (j & _ & H1 & _ & H2 & H3). exists j. split; [done|]. split; [done|].
    intros k Hk. by apply H3.
  - intros (j & H1 & H2 & H3). exists j.
    assert (parent_map (ParentOf ex) !! "" = None) as Hb by (by apply valid_no_blank).
    destruct (up_bound _ Hb id (valid_chain ex id Hv)) as (e & He & Hlt & Hsz).
    assert (a ≠ "") as Ha.
    { intros ->. rewrite kept_blank in H2 by done. by destruct H2. }
    assert (S j < e).
    { destruct (decide (S j < e)); [done|]. destruct Ha. rewrite <-H1.
      apply (up_end _ Hb e); [done|lia]. }
    split; [lia|]. split; [done|]. split; [done|]. split; [done|].
    intros k Hk. split; [apply (Hlt (S k)); lia|by apply H3].
Qed.

(** The nearest kept strand above one that leads to the root is found. *)
Lemma nearest_found ex f id n :
  export_valid ex → id ≠ RootID ex → up (parent_map (ParentOf ex)) n id = RootID ex →
  ∃ a j, nearestKept id (parent_map (ParentOf ex)) (kept ex f) = Some a ∧ j < n ∧
         up (parent_map (ParentOf ex)) (S j) id = a ∧ is_Some (kept ex f !! a).
Proof.
  intros Hv Hne Hn. set (parent := parent_map (ParentOf ex)) in *.
  assert (parent !! "" = None) as Hb by (by apply valid_no_blank).
  pose proof (kept_has_root ex f Hv) as Hroot.
  pose proof (kept_blank ex f Hv) as Hblank.
  assert (∃ j, is_Some (kept ex f !! up parent (S j) id)) as Hex.
  { destruct n as [|n]; [by destruct Hne|]. exists n. by rewrite Hn. }
  assert (∃ j, is_Some (kept ex f !! up parent (S j) id) ∧ j < n ∧
               ∀ k, k < j → ¬ is_Some (kept ex f !! up parent (S k) id)) as (j & Hj & Hjn & Hmin).
  { destruct n as [|n]; [by destruct Hne|]. clear Hex.
    assert (∀ b, (∀ k, k < b → ¬ is_Some (kept ex f !! up parent (S k) id)) ∨
      ∃ j, j < b ∧ is_Some (kept ex f !! up parent (S j) id) ∧
           ∀ k, k < j → ¬ is_Some (kept ex f !! up parent (S k) id)) as Hsearch.
    { induction b as [|b [IH|(j & ? & ?)]]; [left; lia| |right; exists j; split; [lia|done]].
      destruct (decide (is_Some (kept ex f !! up parent (S b) id))).
      - right. exists b. by split; [lia|].
      - left. intros k Hk. destruct (decide (k = b)) as [->|]; [done|]. apply IH. lia. }
    destruct (Hsearch (S n)) as [Hno|(j & Hj & H1 & H2)]; [|exists j; by split].
    destruct (Hno n ltac:(lia)). by rewrite Hn. }
  exists (up parent (S j) id), j. split; [|by split].
  apply nearestKept_exact; [done|]. exists j. split; [done|]. split; [done|].
  intros k Hk. apply eq_None_not_Some. by apply Hmin.
Qed.

Lemma all_strands_In l s : NoDup (ID <$> l) → s ∈ l → all_strands l !! ID s = Some s.
Proof.
  intros Hn Hs. destruct (all_strands l !! ID s) as [t|] eqn:E.
  - apply all_strands_lookup in E as [Ht Hid]. f_equal.
    apply list_elem_of_lookup in Hs as [i Hi], Ht as [j Hj].
    assert (i = j) as ->; [|congruence].
    apply (NoDup_lookup (ID <$> l) i j (ID s) Hn); rewrite list_lookup_fmap; [by rewrite Hi|].
    by rewrite Hj, <-Hid.
  - assert (ID s ∉ dom (all_strands l)) as Hd by (by apply not_elem_of_dom).
    rewrite all_strands_dom in Hd. destruct Hd. apply elem_of_list_to_set.
    by apply list_elem_of_fmap_2.
Qed.

Section build.
Context (ex : export) (f : filters) (m : model).
Hypothesis Hv : export_valid ex.
Hypothesis Hm : build ex f = Ok m.
Hypothesis subtree : ∀ s, s ∈ Strands ex →
  ∃ n, up (parent_map (ParentOf ex)) n (ID s) = RootID ex.

Lemma build_kids a : list_at (kids m) a = sortIDs (kept ex f) (kids_list ex f a).
Proof using Hv Hm.
  rewrite build_ok in Hm by done. injection Hm as <-. cbn [kids].
  rewrite list_at_fmap by done. f_equal. unfold kids_of, kids_list.
  by rewrite kids_fold.
Qed.

Lemma build_nodes : nodes m = kept ex f ∧ rootID m = RootID ex.
Proof using Hv Hm. rewrite build_ok in Hm by done. by injection Hm as <-. Qed.

Lemma elem_of_build_kids a id :
  id ∈ list_at (kids m) a ↔
  is_Some (kept ex f !! id) ∧ id ≠ RootID ex ∧
  nearestKept id (parent_map (ParentOf ex)) (kept ex f) = Some a.
Proof using Hv Hm. by rewrite build_kids, elem_of_sortIDs, elem_of_kids_list. Qed.

Lemma kept_chain id s : kept ex f !! id = Some s →
  ∃ n, up (parent_map (ParentOf ex)) n id = RootID ex.
Proof using subtree. intros H. apply kept_lookup in H as [Hs <-]. by apply subtree. Qed.

Lemma build_below id : is_Some (kept ex f !! id) → below m id.
Proof using Hv Hm subtree.
  intros [s Hs]. destruct (kept_chain _ _ Hs) as [n Hn]. revert id s Hs Hn.
  induction (lt_wf n) as [n _ IH]. intros id s Hs Hn.
  destruct build_nodes as [_ Hroot].
  destruct (decide (id = RootID ex)) as [->|Hne]; [rewrite <-Hroot; constructor|].
  destruct (nearest_found ex f id n Hv Hne Hn) as (a & j & Hk & Hj & Ha & [t Ht]).
  apply (below_kid m a).
  - apply (IH (n - S j) ltac:(lia) a t Ht). rewrite <-Ha, <-up_add.
    by replace (S j + (n - S j)) with n by lia.
  - by apply elem_of_build_kids.
Qed.

Lemma build_model_tree : model_tree m.
Proof using Hv Hm subtree.
  destruct build_nodes as [Hn Hr]. split; rewrite ?Hn, ?Hr.
  - by apply kept_has_root.
  - by apply kept_blank.
  - intros a id (_ & _ & Hk)%elem_of_build_kids. unfold nearestKept in Hk.
    by apply nearest_from_spec in Hk as (_ & _ & _ & _ & Ha & _).
  - by intros a id (H & _)%elem_of_build_kids.
  - by intros a (_ & H & _)%elem_of_build_kids.
  - intros a b id (_ & _ & Ha)%elem_of_build_kids (_ & _ & Hb)%elem_of_build_kids.
    rewrite Ha in Hb. by injection Hb.
  - intros a. rewrite build_kids. unfold sortIDs. rewrite sort_stable_perm.
    unfold kids_list. apply NoDup_filter, NoDup_fst_map_to_list.
  - apply build_below.
Qed.
End build.

(** On a valid export whose strands all lie below its root, as the subtree
    of a card does, [build] succeeds under every choice of filters and its kids
    relation is a tree over the kept strands: each kept strand but the root
    hangs under exactly one kept strand, its nearest kept ancestor, and every one
    is below the root. The order of the children is the board's whatever
    order the map of kept strands is visited in, and unless closed work is hidden
    the kept strands are those the filters select. *)
Theorem build_tree ex f :
  validateExport ex = Ok tt →
  (∀ s, s ∈ Strands ex → ∃ n, up (parent_map (ParentOf ex)) n (ID s) = RootID ex) →
  ∃ m, build ex f = Ok m ∧ model_tree m ∧ rootID m = RootID ex ∧
    (∀ a id, id ∈ list_at (kids m) a ↔
       is_Some (nodes m !! id) ∧ id ≠ RootID ex ∧
       ∃ j, up (parent_map (ParentOf ex)) (S j) id = a ∧ is_Some (nodes m !! a) ∧
            ∀ k, k < j → nodes m !! up (parent_map (ParentOf ex)) (S k) id = None) ∧
    (∀ a l, l ≡ₚ list_at (kids m) a → sortIDs (nodes m) l = list_at (kids m) a) ∧
    (f_open f = false → ∀ id s, nodes m !! id = Some s ↔
       s ∈ Strands ex ∧ ID s = id ∧ keeps f (RootID ex) id s = true).
Proof.
  intros Hv Hsub. apply validateExport_ok in Hv. eexists. split; [by apply build_ok|].
  match goal with |- model_tree ?m ∧ _ => set (mo := m) end.
  assert (build ex f = Ok mo) as Hm by (by apply build_ok).
  assert (nodes mo = kept ex f) as Hn by done. split; [by eapply build_model_tree|].
  split; [done|]. split; [|split].
  - intros a id. rewrite (elem_of_build_kids ex f mo Hv Hm), Hn.
    apply and_iff_compat_l, and_iff_compat_l. by apply nearestKept_exact.
  - intros a l Hl. rewrite (build_kids ex f mo Hv Hm) in Hl |- *.
    rewrite (sortIDs_canonical (nodes mo) l (kids_list ex f a)).
    + by rewrite Hn.
    + intros id Hid. rewrite Hl, elem_of_sortIDs, elem_of_kids_list in Hid.
      destruct Hid as [[s Hs] _]. exists s. rewrite Hn. split; [done|]. by apply kept_lookup in Hs as [_ Hs].
    + rewrite Hl. unfold sortIDs. apply sort_stable_perm.
  - intros Ho id s. rewrite Hn. unfold kept. rewrite Ho, map_lookup_filter_Some. cbn [fst snd].
    split; [by intros [H%all_strands_lookup ?]; destruct H|]. intros (Hs & <- & Hk).
    split; [|done]. apply all_strands_In; [apply Hv|done].
Qed.

(** ** Examples *)

Definition sample_strand (id state : string) (attrs : list string) : strand :=
  mkStrand id ("title of " +:+ id) state "2025-01-01"
    (list_to_map ((λ a, (a, AttrBool true)) <$> attrs)).

(** An epic with a feature [F], a run [R] under it and a task [T] under the run. *)
Definition sample_export : export :=
  mkExport "E"
    [sample_strand "E" "active" [attrCard]; sample_strand "F" "closed" [attrCard];
     sample_strand "R" "closed" []; sample_strand "T" "active" [attrTask]]
    [mkEdge "E" "F"; mkEdge "F" "R"; mkEdge "R" "T"] [mkEdge "T" "R"].

Lemma sample_export_valid : validateExport sample_export = Ok tt.
Proof. vm_compute. reflexivity. Qed.

Lemma sample_export_subtree s :
  s ∈ Strands sample_export →
  ∃ n, up (parent_map (ParentOf sample_export)) n (ID s) = RootID sample_export.
Proof.
  intros H. repeat (apply elem_of_cons in H as [->|H]);
    [by exists 0|by exists 1|by exists 2|by exists 3|by apply elem_of_nil in H].
Qed.

Lemma build_tree_witness :
  ∃ m, build sample_export (mkFilters false true true) = Ok m ∧ model_tree m.
Proof.
  destruct (build_tree sample_export (mkFilters false true true)
    sample_export_valid sample_export_subtree) as (m & Hm & Ht & _).
  by exists m.
Defined.

(** A closed feature [F] with an active task below a chain of three runs. *)
Definition hidden_export : export :=
  mkExport "E"
    [sample_strand "E" "active" [attrCard]; sample_strand "F" "closed" [attrCard];
     sample_strand "R1" "closed" []; sample_strand "R2" "closed" [];
     sample_strand "R3" "closed" []; sample_strand "T" "active" [attrTask]]
    [mkEdge "E" "F"; mkEdge "F" "R1"; mkEdge "R1" "R2"; mkEdge "R2" "R3"; mkEdge "R3" "T"] [].

(** The bound of [pruneClosed] counts kept strands while its walk also passes
    strands the filters dropped: on a valid export the closed feature above an
    active task is hidden and the task hangs under the epic. *)
Lemma pruneClosed_hides_open_path :
  validateExport hidden_export = Ok tt ∧
  match build hidden_export (mkFilters false true true) with
  | Ok m => nodes m !! "F" = None ∧ is_Some (nodes m !! "T") ∧ list_at (kids m) "E" = ["T"]
  | Err _ => False
  end.
Proof.
  split; [vm_compute; reflexivity|]. vm_compute. split; [done|]. split; [by eexists|done].
Qed.
