(* ===== verification/KanbanExport.v ===== *)
(** The export that the kanban tree viewer reads (src/tools/kanban-tree/export.go and the
    choice of its source in main.go): its decoding from JSON text, and the call of the
    strand command that gives it. The texts of library errors, the fixed-point text of a
    float and the outcome of every system call are given. *)

From S2P Require Export JsonText KanbanTree.

(** ** Decoding *)

Section export.
(** [FormatFloat] of the float64 of a literal; [None] out of range. *)
Context (fixed_text : string → option string).

(** What [attr] makes of a raw attribute; an array or object of any content is refused
    like null. *)
Definition attr_of (d : doc) : attr_value :=
  match d with
  | DString s => AttrText s
  | DBool b => AttrBool b
  | DNumber n => match fixed_text n with Some t => AttrNumber t | None => AttrOther end
  | DNull | DArray _ | DObject _ => AttrOther
  end.

(** A map of raw attributes: an object is added to the map it finds. *)
Definition attributes_from (init : gmap string attr_value) (l : list doc) : option (gmap string attr_value) :=
  foldl (λ acc d, m ← acc;
           match d with
           | DObject ms => Some ((attr_of <$> members ms) ∪ m)
           | DNull => Some ∅
           | _ => None
           end) (Some init) l.

Definition decode_strand (old : strand) (d : doc) : option strand :=
  match d with
  | DNull => Some old
  | DObject l =>
      id ← string_from (ID old) (field_values "id" l);
      title ← string_from (Title old) (field_values "title" l);
      state ← string_from (State old) (field_values "state" l);
      created ← string_from (CreatedAt old) (field_values "created_at" l);
      attributes ← attributes_from (Attributes old) (field_values "attributes" l);
      Some (mkStrand id title state created attributes)
  | _ => None
  end.

Definition decode_edge (old : edge) (d : doc) : option edge :=
  match d with
  | DNull => Some old
  | DObject l =>
      from ← string_from (From old) (field_values "from_strand_id" l);
      to ← string_from (To old) (field_values "to_strand_id" l);
      Some (mkEdge from to)
  | _ => None
  end.

Definition decode_export (d : doc) : option export :=
  match d with
  | DNull => Some (mkExport "" [] [] [])
  | DObject l =>
      root ← string_field (field_values "root-id" l);
      strands ← slice_field zero_strand decode_strand (field_values "strands" l);
      parents ← slice_field (mkEdge "" "") decode_edge (field_values "parent-of-edges" l);
      depends ← slice_field (mkEdge "" "") decode_edge (field_values "depends-on-edges" l);
      Some (mkExport root strands parents depends)
  | _ => None
  end.

Inductive payload_error :=
| Unreadable
| TwoValues
| UnreadableTrailing
| BadPayload (e : export_error).

(** The rest of a payload after its first value. *)
Definition trailing (rest : list ascii) : result payload_error unit :=
  match skip_space rest with
  | [] => Ok tt
  | rest =>
      match parse_value (2 * length rest + 2) 0 rest with
      | Some (DObject _, _) | Some (DNull, _) => Err TwoValues
      | _ => Err UnreadableTrailing
      end
  end.

(** [decode], from what is read to the end; [None] when the reading fails. *)
Definition decode_payload (text : list ascii) : result payload_error export :=
  match '(d, rest) ← parse_value (2 * length text + 2) 0 text; ex ← decode_export d; Some (ex, rest) with
  | None => Err Unreadable
  | Some (ex, rest) =>
      trailing rest ;;
      match KanbanTree.decode ex with Ok ex => Ok ex | Err e => Err (BadPayload e) end
  end.

(** ** The strand command *)

(** How a command ended: what it wrote, and the text of its failure. *)
Record ran := mkRan { rn_stdout : list ascii; rn_stderr : string; rn_failure : option string }.

Inductive fetch_error :=
| FetchFailed (cardID message : string)
| FetchPayload (cardID : string) (e : payload_error).

Definition fetch_args (workspace cardID : string) : list string :=
  (if bool_decide (workspace = "") then [] else ["--workspace"; workspace]) ++ ["kanban-export"; cardID].

Definition fetch (run : string → list string → ran) (bin workspace cardID : string) : result fetch_error export :=
  let r := run bin (fetch_args workspace cardID) in
  match rn_failure r with
  | Some failure =>
      let msg := TrimSpace (rn_stderr r) in
      Err (FetchFailed cardID (if bool_decide (msg = "") then failure else msg))
  | None =>
      match decode_payload (rn_stdout r) with
      | Ok ex => Ok ex
      | Err e => Err (FetchPayload cardID e)
      end
  end.

End export.

(** ** Lemmas *)

Section lemmas.
Context (fixed_text : string → option string).

(** What is accepted is valid. *)
Lemma decode_payload_valid text ex :
  decode_payload fixed_text text = Ok ex → RootID ex ≠ "" ∧ validateExport ex = Ok tt.
Proof.
  unfold decode_payload. destruct (_ ≫= _) as [[ex0 rest]|]; [|done].
  destruct (trailing rest) as [[]|]; [|done]. cbn. unfold KanbanTree.decode.
  case_bool_decide as Hr; [done|]. cbn. destruct (validateExport ex0) as [[]|] eqn:Hv; [|done].
  cbn. by intros [= <-].
Qed.
End lemmas.

(** ** Examples *)

Definition sample_strand : doc :=
  DObject [("id", DString "a"); ("title", DString "A"); ("state", DString "active"); ("created_at", DString "t1");
           ("attributes", DObject [("kanban/type", DString "epic"); ("kanban/priority", DString "p1"); ("x", DNull)])].

Definition sample_payload : list ascii :=
  bytes_of (print (DObject [("root-id", DString "a"); ("strands", DArray [sample_strand])])).

Definition sample_export : export :=
  mkExport "a" [mkStrand "a" "A" "active" "t1"
    (<["kanban/type" := AttrText "epic"]> (<["kanban/priority" := AttrText "p1"]> {["x" := AttrOther]}))] [] [].

Example payload_read : decode_payload (λ _, None) (sample_payload ++ bytes_of " ") = Ok sample_export.
Proof. vm_compute. reflexivity. Qed.

Example payload_twice : decode_payload (λ _, None) (sample_payload ++ bytes_of "{}") = Err TwoValues.
Proof. vm_compute. reflexivity. Qed.

Example payload_tail : decode_payload (λ _, None) (sample_payload ++ bytes_of "[]") = Err UnreadableTrailing.
Proof. vm_compute. reflexivity. Qed.
