(* ===== verification/KanbanRender.v ===== *)
(** The kanban tree viewer (src/tools/kanban-tree), second part: the choice of
    filters and the drawing of a model as text. A line is written by [emit] with
    the strand whose line it is, so that the lines can be counted; the tag is
    not part of the text. *)

From stdpp Require Import pretty.
From S2P Require Import Runes KanbanTree.

Open Scope Z_scope.

(** ** Visible columns *)

Definition esc : list ascii := [ascii_of_nat 27].
Definition letter_m : list ascii := ["m"%char].

Fixpoint visible_runes (escape : bool) (l : list (list ascii)) : Z :=
  match l with
  | [] => 0
  | ch :: l =>
      if escape then visible_runes (negb (bool_decide (ch = letter_m))) l
      else if bool_decide (ch = esc) then visible_runes true l
      else 1 + visible_runes false l
  end.

Definition visibleLen (text : string) : Z := visible_runes false (runes text).

(** ** The alphabet *)

Definition ansi (code : string) : string := String (ascii_of_nat 27) ("[" +:+ code +:+ "m").
Definition ansiReset : string := ansi "0".
Definition ansiDim : string := ansi "2".
Definition ansiBold : string := ansi "1".
Definition ansiGreen : string := ansi "32".
Definition ansiYellow : string := ansi "33".
Definition ansiCyan : string := ansi "36".
Definition ansiRed : string := ansi "31".
Definition ansiMagenta : string := ansi "35".

Record theme := mkTheme {
  teeContain : string;
  endContain : string;
  teeDepends : string;
  endDepends : string;
  pipePrefix : string;
  blankPrefix : string;
  rule : string;
  t_stub : string;
  ellipsis : string;
  t_cycle : string;
  sep : string;
  glyphs : gmap string string;
  fallback : string;
}.

Definition unicodeTheme : theme := {|
  teeContain := "├── ";
  endContain := "└── ";
  teeDepends := "├─▶ ";
  endDepends := "└─▶ ";
  pipePrefix := "│   ";
  blankPrefix := "    ";
  rule := "─";
  t_stub := "…";
  ellipsis := "…";
  t_cycle := "↺ cycle";
  sep := " · ";
  fallback := "◇";
  glyphs := list_to_map
    [("done", "✓"); ("dropped", "✗"); ("pending", "○"); ("ready", "●");
     ("blocked", "⊘"); ("claimed", "◐"); ("review", "◈"); ("refinement", "◌")];
|}.

Definition asciiTheme : theme := {|
  teeContain := "|-- ";
  endContain := "`-- ";
  teeDepends := "|-> ";
  endDepends := "`-> ";
  pipePrefix := "|   ";
  blankPrefix := "    ";
  rule := "-";
  t_stub := "...";
  ellipsis := "...";
  t_cycle := "(cycle)";
  sep := " . ";
  fallback := "[?]";
  glyphs := list_to_map
    [("done", "[x]"); ("dropped", "[-]"); ("pending", "[ ]"); ("ready", "[>]");
     ("blocked", "[!]"); ("claimed", "[~]"); ("review", "[r]"); ("refinement", "[.]")];
|}.

Definition glyph (t : theme) (status : string) : string := default (fallback t) (glyphs t !! status).

(** ** Clipping *)

Definition minTitle : Z := 24.

Fixpoint clip_runes (visible limit : Z) (escape coloured : bool) (marker : string)
    (l : list (list ascii)) : list ascii :=
  match l with
  | [] => []
  | ch :: l =>
      if escape then
        ch ++ clip_runes visible limit (negb (bool_decide (ch = letter_m))) coloured marker l
      else if bool_decide (ch = esc) then ch ++ clip_runes visible limit true true marker l
      else if bool_decide (visible = limit) then
        bytes_of marker ++ (if coloured then bytes_of ansiReset else [])
      else ch ++ clip_runes (visible + 1) limit false coloured marker l
  end.

Definition clip (text : string) (n : Z) (marker : string) : string :=
  if (n <=? visibleLen marker) || (visibleLen text <=? n) then text
  else of_bytes (clip_runes 0 (n - visibleLen marker) false false marker (runes text)).

Fixpoint Repeat (s : string) (n : nat) : string :=
  match n with 0%nat => "" | S n => s +:+ Repeat s n end.

Definition newline : string := String (ascii_of_nat 10) "".

(** ** The renderer *)

Inductive itemKind := itemContain | itemDepends | itemStub.

#[global] Instance itemKind_eq_dec : EqDecision itemKind.
Proof. solve_decision. Defined.

Record item := mkItem { i_id : string; i_container : string; i_kind : itemKind; i_group : nat }.

Record section := mkSection { s_container : string; s_group : nat }.

(** One write to the output, with the strand it draws. *)
Record entry := mkEntry { e_node : option string; e_text : string }.

(** The keys of [queued] join container and group with a hash sign; the digits
    of the group hold none, so they are the pairs. *)
Record renderer := mkRenderer {
  out : list entry;
  drawn : gset string;
  queued : gset (string * nat);
  pending : list section;
  statuses : gmap string nat;
  usedDeps : bool;
  usedStub : bool;
}.

Definition newRenderer : renderer := mkRenderer [] ∅ ∅ [] ∅ false false.

Definition emit (tag : option string) (text : string) (r : renderer) : renderer :=
  mkRenderer (out r ++ [mkEntry tag text]) (drawn r) (queued r) (pending r) (statuses r)
    (usedDeps r) (usedStub r).

Definition mark_drawn (id : string) (r : renderer) : renderer :=
  mkRenderer (out r) ({[id]} ∪ drawn r) (queued r) (pending r) (statuses r)
    (usedDeps r) (usedStub r).

Definition count_status (status : string) (r : renderer) : renderer :=
  mkRenderer (out r) (drawn r) (queued r) (pending r)
    (<[status := S (default 0%nat (statuses r !! status))]> (statuses r))
    (usedDeps r) (usedStub r).

Definition set_usedDeps (r : renderer) : renderer :=
  mkRenderer (out r) (drawn r) (queued r) (pending r) (statuses r) true (usedStub r).

Definition set_usedStub (r : renderer) : renderer :=
  mkRenderer (out r) (drawn r) (queued r) (pending r) (statuses r) (usedDeps r) true.

Definition queue (container : string) (group : nat) (r : renderer) : renderer :=
  if bool_decide ((container, group) ∈ queued r) then r
  else mkRenderer (out r) (drawn r) ({[(container, group)]} ∪ queued r)
         (pending r ++ [mkSection container group]) (statuses r) (usedDeps r) (usedStub r).

Definition quote (id : string) : string := "`" +:+ id +:+ "`".

Section render.
Context (m : model) (t : theme) (colour : bool) (width : Z).

Definition wrap (code text : string) : string :=
  if colour then code +:+ text +:+ ansiReset else text.

Definition dim (text : string) : string := wrap ansiDim text.

Definition priority (p : string) : string :=
  if bool_decide (p = "p1") then wrap (ansiBold +:+ ansiRed) p else p.

Definition paint (status text : string) : string :=
  if bool_decide (status = "done") then wrap ansiGreen text
  else if bool_decide (status = "dropped") then wrap ansiDim text
  else if bool_decide (status ∈ ["ready"; "pending"]) then wrap ansiCyan text
  else if bool_decide (status = "blocked") then wrap ansiRed text
  else if bool_decide (status = "claimed") then wrap ansiYellow text
  else if bool_decide (status = "review") then wrap ansiMagenta text
  else text.

(** The text [line] writes. *)
Definition line (prefix left meta : string) : string :=
  if width <=? 0 then
    prefix +:+ (if bool_decide (meta = "") then left else left +:+ "  " +:+ meta) +:+ newline
  else
    let used := visibleLen prefix + visibleLen left in
    let budget := width - visibleLen prefix in
    if bool_decide (meta = "") then prefix +:+ clip left budget (ellipsis t) +:+ newline
    else
      let metaLen := visibleLen meta in
      let room := width - metaLen - 2 in
      if room - visibleLen prefix <? minTitle then
        prefix +:+ clip left budget (ellipsis t) +:+ newline
      else
        let left := if used >? room then clip left (room - visibleLen prefix) (ellipsis t)
                    else left in
        let used := visibleLen prefix + visibleLen left in
        prefix +:+ left +:+ Repeat " " (Z.to_nat (width - used - metaLen)) +:+ meta +:+ newline.

Definition meta (it : item) (status : string) : string :=
  let s := node_of m (i_id it) in
  let p := attr s attrPriority in
  let '(done, total) := progress m (i_id it) in
  let owner := attr s attrOwner in
  let shown := if negb (bool_decide (owner = "")) && bool_decide (State s = "active")
               then status +:+ " @" +:+ owner else status in
  let ext := external m (i_container it) (i_id it) in
  Join ([dim (kind m (i_id it))]
        ++ (if negb (bool_decide (p = "")) && negb (bool_decide (p = "p3"))
            then [priority p] else [])
        ++ (if (0 <? total)%nat then [dim (pretty done +:+ "/" +:+ pretty total)] else [])
        ++ [paint status shown]
        ++ (if negb (bool_decide (i_container it = "")) && (0 <? length ext)%nat
            then [dim ("needs " +:+ Join (quote <$> ext) " + ")] else []))
       (dim (sep t)).

Definition stub (id marker : string) : string :=
  let st := status m id in
  paint st (glyph t st) +:+ " " +:+ dim (quote id +:+ " " +:+ marker).

Definition node (prefix : string) (it : item) (r : renderer) : renderer :=
  let s := node_of m (i_id it) in
  let st := status m (i_id it) in
  let title := if bool_decide (i_id it = rootID m) then wrap ansiBold (Title s) else Title s in
  let left := paint st (glyph t st) +:+ " " +:+ dim (quote (i_id it)) +:+ " " +:+ title in
  emit (Some (i_id it)) (line prefix left (meta it st)) (count_status st r).

Definition sectionRule (blockers : list string) (r : renderer) : renderer :=
  let label := Repeat (rule t) 2 +:+ " blocked by " +:+ Join (quote <$> blockers) " + " in
  let fill := width - visibleLen label - 1 in
  let label := if fill >? 0 then label +:+ " " +:+ Repeat (rule t) (Z.to_nat fill) else label in
  emit None (line "" (dim label) "") r.

Definition childItems (container id : string) : list item :=
  let contained := (λ kid, mkItem kid id itemContain 0) <$> tops (layout m id) in
  if bool_decide (container = "") then contained
  else
    let sc := layout m container in
    contained
    ++ ((λ dep, mkItem dep container itemDepends 0) <$> list_at (deps sc) id)
    ++ ((λ idx, mkItem (default "" (g_id <$> shared sc !! idx)) container itemStub idx)
        <$> list_at (sharedBy sc) id).

(** The loop over the items of [children]; the last one is told so. *)
Fixpoint draw_items (branch : item → bool → renderer → option renderer)
    (items : list item) (r : renderer) : option renderer :=
  match items with
  | [] => Some r
  | it :: items =>
      branch it (bool_decide (items = [])) r ≫= draw_items branch items
  end.

Definition children (branch : item → string → bool → renderer → option renderer)
    (container id prefix : string) (r : renderer) : option renderer :=
  draw_items (λ it, branch it prefix) (childItems container id) r.

Definition connector (k : itemKind) (last : bool) : string :=
  match k with
  | itemContain => if last then endContain t else teeContain t
  | _ => if last then endDepends t else teeDepends t
  end.

(** [None] is a drawing out of fuel; each level draws a strand, so the fuel of
    [render] is enough. *)
Fixpoint branch (fuel : nat) (it : item) (prefix : string) (last : bool) (r : renderer)
    : option renderer :=
  match fuel with
  | 0%nat => None
  | S fuel =>
      let r := if bool_decide (i_kind it = itemContain) then r else set_usedDeps r in
      let here := prefix +:+ connector (i_kind it) last in
      let childPrefix := prefix +:+ (if last then blankPrefix t else pipePrefix t) in
      if bool_decide (i_kind it = itemStub) then
        Some (emit None (line here (stub (i_id it) (t_stub t)) "")
                (queue (i_container it) (i_group it) (set_usedStub r)))
      else if bool_decide (i_id it ∈ drawn r) then
        Some (emit None (line here (stub (i_id it) (t_cycle t)) "") r)
      else
        children (branch fuel) (i_container it) (i_id it) childPrefix
          (node here it (mark_drawn (i_id it) r))
  end.

(** The loop over [pending], which grows while it runs. [None] is also the panic
    of an index out of range. *)
Fixpoint sections (fuel : nat) (i : nat) (r : renderer) : option renderer :=
  match fuel with
  | 0%nat => None
  | S fuel =>
      match pending r !! i with
      | None => Some r
      | Some sec =>
          group ← shared (layout m (s_container sec)) !! s_group sec;
          let r := sectionRule (g_blockers group) (emit None newline r) in
          r ← branch (S (size (nodes m)))
                (mkItem (g_id group) (s_container sec) itemDepends 0) "" true r;
          sections fuel (S i) r
      end
  end.

(** The order of the tally: most frequent first, then by name. *)
Definition tally_less (counts : gmap string nat) (a b : string) : bool :=
  let x := default 0%nat (counts !! a) in
  let y := default 0%nat (counts !! b) in
  if negb (bool_decide (x = y)) then (y <? x)%nat else str_ltb a b.

Definition footer (r : renderer) : renderer :=
  if bool_decide (statuses r = ∅) then r
  else
    let total := sum_list (map_to_list (statuses r)).*2 in
    let kinds := sort_stable (tally_less (statuses r)) (map_to_list (statuses r)).*1 in
    let count := dim (if bool_decide (total = 1%nat) then "1 item"
                      else pretty total +:+ " items") in
    let tally := (λ st, paint st (glyph t st +:+ " "
                    +:+ pretty (default 0%nat (statuses r !! st)) +:+ " " +:+ st)) <$> kinds in
    let key := [endContain t +:+ "contains"]
               ++ (if usedDeps r then [endDepends t +:+ "blocked by the line above"] else [])
               ++ (if usedStub r then [t_stub t +:+ " expanded below"] else []) in
    emit None (line "" (dim (Join key "   ")) "")
      (emit None (line "" (Join (count :: tally) (dim (sep t))) "")
        (emit None newline r)).

Definition render_state : option renderer :=
  let root := mkItem (rootID m) "" itemContain 0 in
  let r := mark_drawn (rootID m) (node "" root newRenderer) in
  r ← children (branch (S (size (nodes m)))) "" (rootID m) "" r;
  r ← sections (S (size (nodes m))) 0 r;
  Some (footer r).

Definition render : option string :=
  (λ r, foldr String.append "" (e_text <$> out r)) <$> render_state.
End render.

(** ** The choice of filters *)

Record options := mkOptions { o_all : bool; o_tasks : bool; o_open : bool }.

Inductive usage_error := TasksNotEpic (id : string) | OmitsItsRoot (id : string).

Definition resolveFilters (ex : export) (opts : options) : result usage_error filters :=
  let f := mkFilters (o_all opts) (o_tasks opts || o_all opts) (o_open opts) in
  match list_find (λ s, ID s = RootID ex) (Strands ex) with
  | None => Err (OmitsItsRoot (RootID ex))
  | Some (_, s) =>
      if bool_decide (attr s attrType = "epic") then Ok f
      else if o_tasks opts then Err (TasksNotEpic (RootID ex))
      else Ok (mkFilters (f_all f) true (f_open f))
  end.

(** ** Lemmas: the traversal *)

Close Scope Z_scope.

Definition drawn_log (r : renderer) : list string := omap e_node (out r).

Definition sec_key (s : section) : string * nat := (s_container s, s_group s).

Section traversal.
Context (m : model) (t : theme) (colour : bool) (width : Z).

(** An item [childItems] can produce. *)
Record item_ok (it : item) : Prop := {
  item_container : i_container it ≠ "";
  item_kid : i_id it ∈ list_at (kids m) (i_container it);
  item_group : i_kind it = itemStub →
    g_id <$> shared (layout m (i_container it)) !! i_group it = Some (i_id it);
}.

(** What drawing an item achieves at once: a stub's section is queued, any other
    item is drawn. *)
Definition handled (r : renderer) (it : item) : Prop :=
  match i_kind it with
  | itemStub => (i_container it, i_group it) ∈ queued r
  | _ => i_id it ∈ drawn r
  end.

Definition expanded (r : renderer) (container id : string) : Prop :=
  ∀ it, it ∈ childItems m container id → handled r it.

Record render_inv (r : renderer) : Prop := {
  inv_nodes : ∀ id, id ∈ drawn r → is_Some (nodes m !! id);
  inv_log : drawn_log r ≡ₚ elements (drawn r);
  inv_pending : sec_key <$> pending r ≡ₚ elements (queued r);
  inv_groups : ∀ s, s ∈ pending r →
    ∃ g, shared (layout m (s_container s)) !! s_group s = Some g;
  inv_tally : sum_list (map_to_list (statuses r)).*2 = size (drawn r);
}.

(** The drawing only grows, and what it adds has its items handled. *)
Record extends (r r' : renderer) : Prop := {
  ext_drawn : drawn r ⊆ drawn r';
  ext_queued : queued r ⊆ queued r';
  ext_pending : pending r `prefix_of` pending r';
  ext_new : ∀ id, id ∈ drawn r' → id ∉ drawn r →
    ∃ c, id ∈ list_at (kids m) c ∧ c ≠ "" ∧ expanded r' c id;
}.

Lemma handled_extends r r' it : extends r r' → handled r it → handled r' it.
Proof using. intros [H1 H2 _ _]. unfold handled. destruct (i_kind it); auto. Qed.

Lemma expanded_extends r r' c id : extends r r' → expanded r c id → expanded r' c id.
Proof using. intros He Hx it Hit. by eapply handled_extends, Hx. Qed.

Lemma extends_refl r : extends r r.
Proof using. split; [done|done|done|]. by intros id ? []. Qed.

Lemma extends_trans r1 r2 r3 : extends r1 r2 → extends r2 r3 → extends r1 r3.
Proof using.
  intros H12 H23. pose proof H12 as [D12 Q12 P12 N12]. pose proof H23 as [D23 Q23 P23 N23].
  split; [by etrans|by etrans|by etrans|]. intros id H3 H1.
  destruct (decide (id ∈ drawn r2)) as [H2|H2]; [|by apply N23].
  destruct (N12 id H2 H1) as (c & ? & ? & ?). exists c. split; [done|]. split; [done|].
  by eapply expanded_extends.
Qed.

(** Changes of the text and the flags alone. *)
Lemma same_extends r r' :
  drawn r' = drawn r → queued r' = queued r → pending r' = pending r → extends r r'.
Proof using. intros H1 H2 H3. split; rewrite ?H1, ?H2, ?H3; done. Qed.

Lemma same_inv r r' :
  drawn r' = drawn r → queued r' = queued r → pending r' = pending r →
  drawn_log r' = drawn_log r → statuses r' = statuses r → render_inv r → render_inv r'.
Proof using. intros H1 H2 H3 H4 H5 [? ? ? ? ?]. split; by rewrite ?H1, ?H2, ?H3, ?H4, ?H5. Qed.

Lemma drawn_log_emit tag text r :
  drawn_log (emit tag text r) = drawn_log r ++ option_list tag.
Proof using. unfold drawn_log. simpl. rewrite omap_app. by destruct tag. Qed.

Lemma emit_inv text r : render_inv r → render_inv (emit None text r).
Proof using.
  apply same_inv; try done. by rewrite drawn_log_emit, app_nil_r.
Qed.

(** *** Items *)

Lemma layout_sharedBy c b idx :
  idx ∈ list_at (sharedBy (layout m c)) b → ∃ g, shared (layout m c) !! idx = Some g.
Proof using.
  destruct (layout_promotes m c) as [[_ _ Hs Hb] _]. rewrite Hs, Hb.
  intros (g & Hg & _)%base_sharedBy. by exists g.
Qed.

Lemma childItems_ok c id it :
  id ≠ "" → it ∈ childItems m c id → item_ok it.
Proof using.
  intros Hid. unfold childItems.
  assert (it ∈ (λ kid, mkItem kid id itemContain 0) <$> tops (layout m id) → item_ok it) as Hc.
  { intros (kid & -> & Hk)%list_elem_of_fmap. split; [done| |done]. simpl.
    by apply (layout_within m id). }
  case_bool_decide as Hc0; [done|]. rewrite !elem_of_app.
  destruct (layout_within m c) as [_ Hw]. intros [?|[H|H]]; [by apply Hc|..].
  - apply list_elem_of_fmap in H as (dep & -> & Hd). split; [done| |done]. simpl.
    apply (Hw id). unfold unblocks. apply elem_of_app. by left.
  - apply list_elem_of_fmap in H as (idx & -> & Hi).
    destruct (layout_sharedBy c id idx Hi) as [g Hg].
    split; [done| |intros _]; simpl; rewrite Hg; simpl; [|done].
    apply (Hw id). unfold unblocks. apply elem_of_app. right.
    apply list_elem_of_omap. exists idx. by rewrite Hg.
Qed.

(** *** The tally *)

Lemma sum_list_perm (l l' : list nat) : l ≡ₚ l' → sum_list l = sum_list l'.
Proof using. induction 1; simpl; lia. Qed.

Lemma sum_values_bump (k : string) (c : gmap string nat) :
  sum_list (map_to_list (<[k := S (default 0 (c !! k))]> c)).*2 = S (sum_list (map_to_list c).*2).
Proof using.
  destruct (c !! k) as [v|] eqn:E; simpl.
  - rewrite <-(insert_id c k v E) at 2.
    rewrite <-insert_delete_eq, <-(insert_delete_eq c k v).
    rewrite !(sum_list_perm _ _ (fmap_Permutation snd _ _
      (map_to_list_insert _ _ _ (lookup_delete_eq c k)))).
    simpl. lia.
  - rewrite (sum_list_perm _ _ (fmap_Permutation snd _ _ (map_to_list_insert _ _ _ E))).
    simpl. done.
Qed.

(** *** Drawing one strand and queueing one section *)

Lemma node_inv prefix it r :
  is_Some (nodes m !! i_id it) → i_id it ∉ drawn r → render_inv r →
  render_inv (node m t colour width prefix it (mark_drawn (i_id it) r)).
Proof using.
  intros Hn Hd [H1 H2 H3 H4 H5]. unfold node. cbv zeta. split.
  - simpl. intros id [->%elem_of_singleton|?]%elem_of_union; [done|by apply H1].
  - rewrite drawn_log_emit. simpl. rewrite elements_union_singleton by done.
    change (drawn_log _) with (drawn_log r). rewrite H2. by rewrite Permutation_app_comm.
  - done.
  - done.
  - simpl. rewrite sum_values_bump, H5. rewrite size_union by set_solver.
    by rewrite size_singleton.
Qed.

Lemma node_extends prefix it r :
  let r' := node m t colour width prefix it (mark_drawn (i_id it) r) in
  drawn r' = {[i_id it]} ∪ drawn r ∧ queued r' = queued r ∧ pending r' = pending r.
Proof using. done. Qed.

Lemma queue_inv c g r :
  is_Some (shared (layout m c) !! g) → render_inv r → render_inv (queue c g r).
Proof using.
  intros [grp Hg] Hi. unfold queue. case_bool_decide as Hq; [done|].
  destruct Hi as [H1 H2 H3 H4 H5]. split; simpl; [done|done| | |done].
  - rewrite fmap_app, H3. simpl. rewrite elements_union_singleton by done.
    by rewrite Permutation_app_comm.
  - intros s [Hs|Hs]%elem_of_app; [by apply H4|]. apply list_elem_of_singleton in Hs as ->. eauto.
Qed.

Lemma queue_extends c g r : extends r (queue c g r) ∧ (c, g) ∈ queued (queue c g r).
Proof using.
  unfold queue. case_bool_decide as Hq; [split; [apply extends_refl|done]|].
  split; [|simpl; set_solver]. split; simpl; [done|set_solver| |by intros id ? []].
  by apply prefix_app_r.
Qed.

(** *** Branches *)

Lemma drawn_bound r : render_inv r → size (drawn r) ≤ size (nodes m).
Proof using.
  intros [H _ _ _ _]. rewrite <-size_dom. apply subseteq_size. intros id Hid.
  apply elem_of_dom. by apply H.
Qed.

Lemma draw_items_spec (f : nat) (draw : item → bool → renderer → option renderer) items r :
  (∀ it last r, item_ok it → render_inv r → size (nodes m) < f + size (drawn r) →
     ∃ r', draw it last r = Some r' ∧ render_inv r' ∧ extends r r' ∧ handled r' it) →
  (∀ it, it ∈ items → item_ok it) → render_inv r → size (nodes m) < f + size (drawn r) →
  ∃ r', draw_items draw items r = Some r' ∧ render_inv r' ∧ extends r r' ∧
        ∀ it, it ∈ items → handled r' it.
Proof using.
  intros Hdraw. revert r. induction items as [|it items IH]; intros r Hok Hi Hf; cbn [draw_items].
  { exists r. split; [done|]. split; [done|]. split; [apply extends_refl|].
    by intros ? ?%elem_of_nil. }
  destruct (Hdraw it (bool_decide (items = [])) r) as (r1 & -> & Hi1 & He1 & Hh1); [|done|done|].
  { apply Hok. by left. }
  destruct (IH r1) as (r2 & Hr2 & Hi2 & He2 & Hh2); [|done| |].
  { intros it' Hit'. apply Hok. by right. }
  { pose proof (subseteq_size _ _ (ext_drawn _ _ He1)). lia. }
  exists r2. split; [exact Hr2|]. split; [done|]. split; [by eapply extends_trans|].
  intros it' [->|Hit']%elem_of_cons; [by eapply handled_extends|by apply Hh2].
Qed.

Hypothesis tree : model_tree m.

Lemma branch_spec fuel it prefix last r :
  item_ok it → render_inv r → size (nodes m) < fuel + size (drawn r) →
  ∃ r', branch m t colour width fuel it prefix last r = Some r' ∧ render_inv r' ∧
        extends r r' ∧ handled r' it.
Proof using tree.
  revert it prefix last r. induction fuel as [|fuel IH]; intros it prefix last r Hok Hi Hf.
  { pose proof (drawn_bound r Hi). lia. }
  cbn [branch]. cbv zeta. set (r0 := if bool_decide (i_kind it = itemContain) then r else _).
  assert (extends r r0 ∧ render_inv r0 ∧ drawn r0 = drawn r) as (He0 & Hi0 & Hd0).
  { unfold r0. case_bool_decide; [by split; [apply extends_refl|]|].
    split; [by apply same_extends|]. split; [by apply (same_inv r)|done]. }
  destruct Hok as [Hc Hk Hg]. case_bool_decide as Hkind.
  - (* a stub *)
    eexists. split; [reflexivity|]. split; [|split].
    + apply emit_inv, queue_inv; [|by apply (same_inv r0)].
      specialize (Hg Hkind). by destruct (shared _ !! _) as [g|]; [eauto|].
    + apply (extends_trans _ r0); [exact He0|].
      apply (extends_trans _ (set_usedStub r0)); [by apply same_extends|].
      eapply extends_trans; [apply queue_extends|]. by apply same_extends.
    + unfold handled. rewrite Hkind. simpl. apply queue_extends.
  - assert (∀ r', handled r' it ↔ i_id it ∈ drawn r') as Hh.
    { intros r'. unfold handled. by destruct (i_kind it). }
    case_bool_decide as Hdr.
    + (* drawn before *)
      eexists. split; [reflexivity|]. split; [by apply emit_inv|]. split; [|by apply Hh].
      eapply extends_trans; [exact He0|]. by apply same_extends.
    + set (r1 := node m t colour width _ it _).
      assert (i_id it ≠ "") as Hne.
      { intros Heq. rewrite Heq in Hk. apply (tree_kid _ tree) in Hk.
        rewrite (tree_blank _ tree) in Hk. by destruct Hk. }
      destruct (draw_items_spec fuel
        (λ it', branch m t colour width fuel it' (prefix +:+ (if last then blankPrefix t else pipePrefix t)))
        (childItems m (i_container it) (i_id it)) r1) as (r2 & Hr2 & Hi2 & He2 & Hh2).
      * intros it' last' r'. apply IH.
      * intros it'. by apply childItems_ok.
      * apply node_inv; [by apply (tree_kid _ tree) in Hk|done|done].
      * unfold r1. rewrite (proj1 (node_extends _ _ _)), Hd0, size_union, size_singleton by
          (rewrite <-Hd0; set_solver). lia.
      * exists r2. split; [exact Hr2|]. split; [done|].
        assert (i_id it ∈ drawn r2) as Hin.
        { apply (ext_drawn _ _ He2). unfold r1. rewrite (proj1 (node_extends _ _ _)).
          apply elem_of_union_l. by apply elem_of_singleton. }
        split; [|by apply Hh]. destruct He2 as [D2 Q2 P2 N2]. split.
        -- rewrite <-Hd0. etrans; [|exact D2]. apply union_subseteq_r.
        -- etrans; [apply (ext_queued _ _ He0)|exact Q2].
        -- etrans; [apply (ext_pending _ _ He0)|exact P2].
        -- intros id Hid Hnid. destruct (decide (id = i_id it)) as [->|Hne'].
           { exists (i_container it). by split. }
           apply N2; [done|]. unfold r1. rewrite (proj1 (node_extends _ _ _)), Hd0.
           intros [?%elem_of_singleton|?]%elem_of_union; done.
Qed.
(** *** Sections *)

Lemma NoDup_shared_ids c : NoDup (g_id <$> shared (layout m c)).
Proof using tree.
  destruct (layout_promotes m c) as [[_ _ Hs _] _]. rewrite Hs, base_shared, <-list_fmap_compose.
  unfold compose. simpl. rewrite list_fmap_id. apply NoDup_filter, (tree_once _ tree).
Qed.

Definition section_id (s : section) : option string :=
  g_id <$> shared (layout m (s_container s)) !! s_group s.

Lemma section_id_kid s id : section_id s = Some id → id ∈ list_at (kids m) (s_container s).
Proof using.
  unfold section_id. destruct (shared _ !! _) as [g|] eqn:E; [|done]. intros [= <-].
  destruct (layout_promotes m (s_container s)) as [[_ _ Hs _] _].
  rewrite Hs, base_shared in E. apply list_lookup_fmap_Some in E as (x & -> & Hx).
  apply list_elem_of_lookup_2, list_elem_of_filter in Hx as [_ Hx]. done.
Qed.

Lemma section_id_inj s s' id :
  section_id s = Some id → section_id s' = Some id → sec_key s = sec_key s'.
Proof using tree.
  intros H H'. pose proof (section_id_kid _ _ H) as Hk. pose proof (section_id_kid _ _ H') as Hk'.
  pose proof (tree_one_parent _ tree _ _ _ Hk Hk') as Hc.
  unfold sec_key. f_equal; [done|]. unfold section_id in *. rewrite <-Hc in H'.
  apply (NoDup_lookup _ _ _ id (NoDup_shared_ids (s_container s))); by rewrite list_lookup_fmap.
Qed.

Lemma NoDup_pending r : render_inv r → NoDup (sec_key <$> pending r).
Proof using. intros [_ _ H _ _]. rewrite H. apply NoDup_elements. Qed.

Lemma NoDup_omap_section (l : list section) :
  NoDup (sec_key <$> l) → NoDup (omap section_id l).
Proof using tree.
  induction l as [|s l IH]; simpl; [constructor|]. intros [Hs Hl]%NoDup_cons.
  destruct (section_id s) as [id|] eqn:E; [|by apply IH]. constructor; [|by apply IH].
  intros (s' & Hs' & E')%list_elem_of_omap. apply Hs.
  rewrite (section_id_inj s s' id E E'). by apply list_elem_of_fmap_2.
Qed.

Lemma pending_bound r : render_inv r → length (pending r) ≤ size (nodes m).
Proof using tree.
  intros Hi. assert (length (pending r) = length (omap section_id (pending r))) as ->.
  { pose proof (inv_groups _ Hi) as Hg. induction (pending r) as [|s l IH]; [done|]. simpl.
    destruct (Hg s ltac:(by left)) as [g E]. unfold section_id at 1. rewrite E. simpl. f_equal.
    apply IH. intros s' Hs'. apply Hg. by right. }
  rewrite <-size_dom, <-(size_list_to_set (C := gset string)) by
    (by apply NoDup_omap_section, NoDup_pending).
  apply subseteq_size. intros id (s & _ & Hs)%elem_of_list_to_set%list_elem_of_omap.
  apply elem_of_dom. eapply (tree_kid _ tree), section_id_kid, Hs.
Qed.

(** The first [i] sections are drawn. *)
Definition sections_drawn (i : nat) (r : renderer) : Prop :=
  ∀ j s id, j < i → pending r !! j = Some s → section_id s = Some id → id ∈ drawn r.

Lemma sections_drawn_extends i r r' :
  extends r r' → i ≤ length (pending r) → sections_drawn i r → sections_drawn i r'.
Proof using.
  intros [D _ [k P] _] Hi H j s id Hj Hs Hid. apply D. apply (H j s id Hj); [|done].
  rewrite P in Hs. by rewrite lookup_app_l in Hs by lia.
Qed.

Lemma sections_spec fuel i r :
  render_inv r → i ≤ length (pending r) → sections_drawn i r → size (nodes m) < fuel + i →
  ∃ r', sections m t colour width fuel i r = Some r' ∧ render_inv r' ∧ extends r r' ∧
        sections_drawn (length (pending r')) r'.
Proof using tree.
  revert i r. induction fuel as [|fuel IH]; intros i r Hi Hlen Hd Hf.
  { pose proof (pending_bound r Hi). lia. }
  cbn [sections]. destruct (pending r !! i) as [sec|] eqn:Hsec.
  2: { exists r. split; [done|]. split; [done|]. split; [apply extends_refl|].
       apply lookup_ge_None in Hsec. by replace (length (pending r)) with i by lia. }
  destruct (inv_groups _ Hi sec) as [g Hg]; [by eapply list_elem_of_lookup_2|].
  rewrite Hg. cbn [mbind option_bind]. cbv zeta.
  assert (section_id sec = Some (g_id g)) as Hid by (unfold section_id; by rewrite Hg).
  set (r0 := sectionRule t colour width (g_blockers g) (emit None newline r)).
  assert (extends r r0) as He0 by (by apply same_extends).
  assert (render_inv r0) as Hi0 by (unfold r0, sectionRule; by apply emit_inv, emit_inv).
  pose proof (section_id_kid _ _ Hid) as Hkid.
  destruct (branch_spec (S (size (nodes m)))
    (mkItem (g_id g) (s_container sec) itemDepends 0) "" true r0) as (r1 & -> & Hi1 & He1 & Hh1).
  { split; [|done|done]. simpl. intros Hc. rewrite Hc in Hkid.
    apply (tree_parent _ tree) in Hkid. rewrite (tree_blank _ tree) in Hkid. by destruct Hkid. }
  { done. }
  { lia. }
  cbn [mbind option_bind]. pose proof (extends_trans _ _ _ He0 He1) as He.
  assert (S i ≤ length (pending r1)) as Hlen1.
  { apply lookup_lt_Some in Hsec. destruct (ext_pending _ _ He) as [k P].
    rewrite P, length_app. lia. }
  destruct (IH (S i) r1) as (r2 & Hr2 & Hi2 & He2 & Hd2); [done|done| |lia|].
  - intros j s id Hj Hs Hsid. destruct (decide (j = i)) as [->|Hne].
    + destruct (ext_pending _ _ He) as [k P]. rewrite P in Hs.
      rewrite (lookup_app_l_Some _ _ _ _ Hsec) in Hs. injection Hs as <-.
      rewrite Hid in Hsid. injection Hsid as <-. exact Hh1.
    + apply (sections_drawn_extends i r r1 He Hlen Hd j s id); [lia|done|done].
  - exists r2. split; [exact Hr2|]. split; [done|]. split; [by eapply extends_trans|done].
Qed.

(** *** The whole drawing *)

(** A closed drawing: every drawn strand has its items handled and every
    section is drawn. *)
Lemma closed_draws_all r :
  render_inv r → sections_drawn (length (pending r)) r →
  rootID m ∈ drawn r → expanded r "" (rootID m) →
  (∀ id, id ∈ drawn r → id ≠ rootID m →
     ∃ c, id ∈ list_at (kids m) c ∧ c ≠ "" ∧ expanded r c id) →
  ∀ id, is_Some (nodes m !! id) → id ∈ drawn r.
Proof using tree.
  intros Hi Hs Hroot Hexp Hnew id Hid. apply (tree_below _ tree) in Hid.
  induction Hid as [|a id _ IH Hk]; [done|].
  assert (∃ c, expanded r c a) as [c Hc].
  { destruct (decide (a = rootID m)) as [->|Hne]; [by exists ""|].
    destruct (Hnew a IH Hne) as (c & _ & _ & Hc). by exists c. }
  destruct (layout_promotes m a) as [_ Hr]. specialize (Hr id Hk).
  induction Hr as [x Hx|x y Hx IHx Hy].
  - apply (Hc (mkItem x a itemContain 0)). unfold childItems.
    assert (mkItem x a itemContain 0 ∈ (λ kid, mkItem kid a itemContain 0) <$> tops (layout m a))
      by (by apply (list_elem_of_fmap_2 (λ kid, mkItem kid a itemContain 0))).
    case_bool_decide; [done|]. apply elem_of_app. by left.
  - assert (x ∈ list_at (kids m) a) as Hxk.
    { destruct Hx as [x Hx|z x Hz Hx]; [by apply (layout_within m a)|].
      by apply (proj2 (layout_within m a) z). }
    specialize (IHx Hxk).
    destruct (Hnew x IHx) as (c' & Hc' & Hne & Hxe).
    { intros ->. by apply (tree_not_root _ tree) in Hxk. }
    pose proof (tree_one_parent _ tree _ _ _ Hc' Hxk) as ->.
    unfold unblocks in Hy. apply elem_of_app in Hy as [Hy|Hy].
    + apply (Hxe (mkItem y a itemDepends 0)). unfold childItems.
      rewrite bool_decide_eq_false_2 by done. rewrite !elem_of_app. right. left.
      by apply (list_elem_of_fmap_2 (λ dep, mkItem dep a itemDepends 0)).
    + apply list_elem_of_omap in Hy as (idx & Hidx & Hy).
      assert ((a, idx) ∈ queued r) as Hq.
      { apply (Hxe (mkItem (default "" (g_id <$> shared (layout m a) !! idx)) a itemStub idx)).
        unfold childItems. rewrite bool_decide_eq_false_2 by done. rewrite !elem_of_app. right. right.
        by apply (list_elem_of_fmap_2 (λ idx, mkItem (default "" (g_id <$> shared (layout m a) !! idx)) a itemStub idx)). }
      apply elem_of_elements in Hq. rewrite <-(inv_pending _ Hi) in Hq.
      apply list_elem_of_fmap in Hq as (s & Hkey & Hin).
      apply list_elem_of_lookup in Hin as [j Hj].
      apply (Hs j s y); [by eapply lookup_lt_Some|done|].
      unfold sec_key in Hkey. injection Hkey as -> ->. exact Hy.
Qed.

Lemma render_state_spec :
  ∃ r, render_state m t colour width = Some r ∧ drawn_log r ≡ₚ (map_to_list (nodes m)).*1 ∧
       sum_list (map_to_list (statuses r)).*2 = size (nodes m).
Proof using tree.
  unfold render_state. cbv zeta.
  set (r0 := mark_drawn (rootID m) (node m t colour width "" (mkItem (rootID m) "" itemContain 0) newRenderer)).
  assert (render_inv r0) as Hi0.
  { change r0 with (node m t colour width "" (mkItem (rootID m) "" itemContain 0)
      (mark_drawn (i_id (mkItem (rootID m) "" itemContain 0)) newRenderer)).
    apply node_inv; [apply tree|apply not_elem_of_empty|]. split; simpl; try done.
    by intros ? ?%elem_of_nil. }
  assert (rootID m ≠ "") as Hne.
  { intros Heq. pose proof (tree_root _ tree) as H. rewrite Heq, (tree_blank _ tree) in H. by destruct H. }
  destruct (draw_items_spec (S (size (nodes m)))
    (λ it, branch m t colour width (S (size (nodes m))) it "") (childItems m "" (rootID m)) r0)
    as (r1 & Hr1 & Hi1 & He1 & Hh1); [| |done|lia|].
  { intros it last r. apply branch_spec. }
  { intros it. by apply childItems_ok. }
  unfold children. rewrite Hr1. cbn [mbind option_bind].
  destruct (sections_spec (S (size (nodes m))) 0 r1) as (r2 & -> & Hi2 & He2 & Hs2);
    [done|lia|intros j s id Hj; lia|lia|].
  cbn [mbind option_bind]. exists (footer t colour width r2).
  pose proof (extends_trans _ _ _ He1 He2) as He.
  assert (∀ id, is_Some (nodes m !! id) → id ∈ drawn r2) as Hall.
  { apply closed_draws_all; [done|done| | |].
    - apply (ext_drawn _ _ He). apply elem_of_union_l. by apply elem_of_singleton.
    - intros it Hit. eapply handled_extends; [exact He2|]. by apply Hh1.
    - intros id Hid Hnr. apply (ext_new _ _ He); [done|].
      intros [?%elem_of_singleton|?%elem_of_empty]%elem_of_union; done. }
  assert (drawn r2 = dom (nodes m)) as Hdom.
  { apply set_eq. intros id. rewrite elem_of_dom. split; [apply Hi2|apply Hall]. }
  assert (drawn_log (footer t colour width r2) = drawn_log r2 ∧
          statuses (footer t colour width r2) = statuses r2) as [-> ->].
  { unfold footer. case_bool_decide; [done|]. cbv zeta. split; [|done].
    by rewrite !drawn_log_emit, !app_nil_r. }
  split; [done|]. split.
  - rewrite (inv_log _ Hi2), Hdom. apply NoDup_Permutation.
    + apply NoDup_elements.
    + apply NoDup_fst_map_to_list.
    + intros id. rewrite elem_of_elements, elem_of_dom, list_elem_of_fmap. split.
      * intros [s Hs]. exists (id, s). split; [done|]. by apply elem_of_map_to_list.
      * intros ([i s] & -> & Hs%elem_of_map_to_list). by exists s.
  - by rewrite (inv_tally _ Hi2), Hdom, size_dom.
Qed.
End traversal.

(** Drawing a tree always ends, needs no more than its fuel and never indexes
    out of range; it writes exactly one line for each kept strand, whatever the
    dependencies between siblings are, cycles and shared blockers included, and
    the number of items the footer reports is the number of kept strands. *)
Theorem render_draws_once m t colour width :
  model_tree m →
  ∃ r, render_state m t colour width = Some r ∧
       render m t colour width = Some (foldr String.append "" (e_text <$> out r)) ∧
       drawn_log r ≡ₚ (map_to_list (nodes m)).*1 ∧
       sum_list (map_to_list (statuses r)).*2 = size (nodes m).
Proof.
  intros Ht. destruct (render_state_spec m t colour width Ht) as (r & Hr & H).
  exists r. split; [done|]. split; [|done]. unfold render. by rewrite Hr.
Qed.

(** ** Lemmas: columns *)

Open Scope Z_scope.

Fixpoint end_escape (escape : bool) (l : list (list ascii)) : bool :=
  match l with
  | [] => escape
  | ch :: l =>
      if escape then end_escape (negb (bool_decide (ch = letter_m))) l
      else end_escape (bool_decide (ch = esc)) l
  end.

(** Valid UTF-8 that ends outside an escape sequence. *)
Definition text_ok (s : string) : Prop :=
  valid_from 0 (bytes_of s) = true ∧ end_escape false (runes s) = false.

Lemma visible_runes_app e a b :
  visible_runes e (a ++ b) = visible_runes e a + visible_runes (end_escape e a) b.
Proof.
  revert e. induction a as [|ch a IH]; intros e; cbn [app visible_runes end_escape]; [lia|].
  destruct e; [apply IH|]. destruct (bool_decide (ch = esc)); [apply IH|]. rewrite IH. lia.
Qed.

Lemma end_escape_app e a b : end_escape e (a ++ b) = end_escape (end_escape e a) b.
Proof.
  revert e. induction a as [|ch a IH]; intros e; [done|]. cbn [app end_escape].
  by destruct e; rewrite IH.
Qed.

Lemma runes_app a b : text_ok a → runes (a +:+ b) = runes a ++ runes b.
Proof. intros [H _]. unfold runes. by rewrite bytes_of_app, runes_from_app. Qed.

Lemma visibleLen_app a b : text_ok a → visibleLen (a +:+ b) = visibleLen a + visibleLen b.
Proof.
  intros H. unfold visibleLen. rewrite runes_app, visible_runes_app by done.
  by rewrite (proj2 H).
Qed.

Lemma text_ok_app a b : text_ok a → text_ok b → text_ok (a +:+ b).
Proof.
  intros Ha Hb. split.
  - rewrite bytes_of_app, valid_from_app by apply Ha. apply Hb.
  - rewrite runes_app, end_escape_app by done. rewrite (proj2 Ha). apply Hb.
Qed.

Lemma visible_runes_nonneg e l : 0 <= visible_runes e l.
Proof.
  revert e. induction l as [|ch l IH]; intros e; cbn [visible_runes]; [lia|].
  destruct e; [apply IH|]. destruct (bool_decide _); [apply IH|]. specialize (IH false). lia.
Qed.

Lemma visibleLen_nonneg s : 0 <= visibleLen s.
Proof. apply visible_runes_nonneg. Qed.

(** *** What clipping leaves *)

Section clip.
Context (marker : string) (limit : Z).
Hypothesis marker_ok : text_ok marker.

Lemma reset_ok : text_ok ansiReset ∧ visibleLen ansiReset = 0.
Proof using. split; [split|]; vm_compute; reflexivity. Qed.

Lemma marker_text (coloured : bool) :
  text_ok (if coloured then marker +:+ ansiReset else marker) ∧
  visibleLen (if coloured then marker +:+ ansiReset else marker) = visibleLen marker ∧
  bytes_of marker ++ (if coloured then bytes_of ansiReset else [])
  = bytes_of (if coloured then marker +:+ ansiReset else marker).
Proof using marker_ok.
  destruct coloured; [|by rewrite app_nil_r]. destruct reset_ok as [Ho Hl].
  split; [by apply text_ok_app|]. split; [|by rewrite bytes_of_app].
  rewrite visibleLen_app by done. lia.
Qed.

Lemma clip_runes_spec visible escape coloured l :
  Forall rune_ok l → visible <= limit → limit < visible + visible_runes escape l →
  let b := clip_runes visible limit escape coloured marker l in
  valid_from 0 b = true ∧ end_escape escape (runes_from 0 b) = false ∧
  visible_runes escape (runes_from 0 b) = limit - visible + visibleLen marker.
Proof using marker_ok.
  revert visible escape coloured. induction l as [|ch l IH];
    intros visible escape coloured Hl Hle Hlt; cbn [visible_runes clip_runes] in *; [lia|].
  apply Forall_cons in Hl as [Hch Hl]. destruct escape.
  - cbv zeta. rewrite valid_from_rune, runes_from_rune by done.
    cbn [end_escape visible_runes]. by apply IH.
  - destruct (bool_decide (ch = esc)) eqn:Ee.
    + cbv zeta. rewrite valid_from_rune, runes_from_rune by done.
      cbn [end_escape visible_runes]. rewrite Ee. by apply IH.
    + destruct (decide (visible = limit)) as [Hv|Hv].
      * rewrite (bool_decide_eq_true_2 _ Hv). destruct (marker_text coloured) as (Hok & Hlen & ->). cbv zeta.
        split; [apply Hok|]. split; [apply Hok|]. unfold visibleLen, runes in Hlen. rewrite Hlen.
        unfold visibleLen, runes. lia.
      * rewrite (bool_decide_eq_false_2 _ Hv).
        cbv zeta. rewrite valid_from_rune, runes_from_rune by done.
        cbn [end_escape visible_runes]. rewrite Ee.
        destruct (IH (visible + 1) false coloured) as (H1 & H2 & H3); [done|lia|lia|].
        split; [done|]. split; [done|]. rewrite H3. lia.
Qed.
End clip.

Lemma clip_ok text n marker : text_ok text → text_ok marker → text_ok (clip text n marker).
Proof.
  intros Ht Hm. unfold clip. destruct (_ || _) eqn:E; [done|].
  apply orb_false_iff in E as [E1%Z.leb_gt E2%Z.leb_gt].
  pose proof (visibleLen_nonneg marker).
  destruct (clip_runes_spec marker (n - visibleLen marker) Hm 0 false false (runes text))
    as (H1 & H2 & _); [apply runes_from_ok|lia|unfold visibleLen in *; lia|].
  unfold text_ok, runes. by rewrite bytes_of_of.
Qed.

Lemma clip_fits text n marker :
  text_ok marker → visibleLen marker < n → visibleLen (clip text n marker) = Z.min n (visibleLen text).
Proof.
  intros Hm Hn. unfold clip. rewrite (proj2 (Z.leb_gt _ _) Hn). simpl.
  destruct (Z.leb_spec (visibleLen text) n) as [Hle|Hgt]; [lia|].
  pose proof (visibleLen_nonneg marker).
  destruct (clip_runes_spec marker (n - visibleLen marker) Hm 0 false false (runes text))
    as (_ & _ & H3); [apply runes_from_ok|lia|unfold visibleLen in *; lia|].
  assert (∀ l, visibleLen (of_bytes l) = visible_runes false (runes_from 0 l)) as ->.
  { intros l. unfold visibleLen, runes. by rewrite bytes_of_of. }
  rewrite H3. lia.
Qed.

Lemma spaces_ok n : text_ok (Repeat " " n) ∧ visibleLen (Repeat " " n) = Z.of_nat n.
Proof.
  induction n as [|n [IH1 IH2]]; [by repeat split|]. cbn [Repeat].
  assert (text_ok " " ∧ visibleLen " " = 1) as [Hs Hl] by (split; [split|]; vm_compute; reflexivity).
  split; [by apply text_ok_app|]. rewrite visibleLen_app by done. lia.
Qed.

(** Within a width budget a line never runs over it, provided its prefix leaves
    room for more than the ellipsis. When there is room for an honest title next
    to the detail column, the line is exactly as wide as the budget and ends with
    the detail in full, so the padding is never negative. *)
Theorem line_fits t width prefix left meta :
  text_ok prefix → text_ok left → text_ok meta → text_ok (ellipsis t) →
  visibleLen (ellipsis t) < minTitle → visibleLen (ellipsis t) < width - visibleLen prefix →
  ∃ body, line t width prefix left meta = body +:+ newline ∧ visibleLen body <= width ∧
    (meta ≠ "" → minTitle <= width - visibleLen meta - 2 - visibleLen prefix →
     visibleLen body = width ∧ ∃ shown, body = shown +:+ meta).
Proof.
  intros Hp Hl Hm He Hmin Hroom. unfold line.
  pose proof (visibleLen_nonneg prefix). pose proof (visibleLen_nonneg (ellipsis t)).
  destruct (Z.leb_spec width 0) as [Hw|Hw]; [lia|]. cbv zeta.
  assert (∃ body, prefix +:+ clip left (width - visibleLen prefix) (ellipsis t) +:+ newline
            = body +:+ newline ∧ visibleLen body <= width) as (body & Hbody & Hfit).
  { exists (prefix +:+ clip left (width - visibleLen prefix) (ellipsis t)).
    split; [by rewrite str_app_assoc|]. rewrite visibleLen_app, clip_fits by done. lia. }
  case_bool_decide as Hmeta; [by exists body|].
  destruct (Z.ltb_spec (width - visibleLen meta - 2 - visibleLen prefix) minTitle) as [Hs|Hs].
  { exists body. split; [done|]. split; [done|]. lia. }
  set (l' := if visibleLen prefix + visibleLen left >? _ then _ else left).
  assert (text_ok l' ∧ visibleLen l' <= width - visibleLen meta - 2 - visibleLen prefix) as [Hlo Hll].
  { unfold l'. destruct (visibleLen prefix + visibleLen left >? _) eqn:E.
    - split; [by apply clip_ok|]. rewrite clip_fits by (done || lia). lia.
    - split; [done|]. rewrite Z.gtb_ltb in E. apply Z.ltb_ge in E. lia. }
  destruct (spaces_ok (Z.to_nat (width - (visibleLen prefix + visibleLen l') - visibleLen meta)))
    as [Hso Hsl].
  set (pad := Repeat " " _) in *.
  exists ((prefix +:+ l' +:+ pad) +:+ meta). split; [by rewrite !str_app_assoc|].
  assert (visibleLen ((prefix +:+ l' +:+ pad) +:+ meta) = width) as Hv.
  { rewrite visibleLen_app by (repeat apply text_ok_app; done).
    rewrite !visibleLen_app by (done || by apply text_ok_app). lia. }
  split; [lia|]. intros _ _. split; [done|]. by eexists.
Qed.

Lemma line_fits_witness :
  ∃ body, line asciiTheme 40 "|-- " "[>] `F` a rather long feature title" "feat" = body +:+ newline
    ∧ visibleLen body <= 40.
Proof.
  destruct (line_fits asciiTheme 40 "|-- " "[>] `F` a rather long feature title" "feat")
    as (body & H1 & H2 & _); try (split; vm_compute; reflexivity); try (vm_compute; reflexivity).
  by exists body.
Defined.

Close Scope Z_scope.

Lemma render_draws_once_witness :
  ∃ m, build sample_export (mkFilters false true true) = Ok m ∧ model_tree m ∧
       ∃ text, render m asciiTheme false 80 = Some text.
Proof.
  assert (export_valid sample_export) as Hv by apply validateExport_ok, sample_export_valid.
  pose proof (build_ok sample_export (mkFilters false true true) Hv) as Hb.
  eexists. split; [exact Hb|].
  pose proof (build_model_tree _ _ _ Hv Hb sample_export_subtree) as Ht. split; [exact Ht|].
  destruct (render_draws_once _ asciiTheme false 80 Ht) as (r & _ & Hr & _). by eexists.
Defined.
