(* ===== verification/KanbanCommand.v ===== *)
(** The kanban tree command (src/tools/kanban-tree/main.go): its flags, as the package
    [flag] parses them before, between and after the card id, the width and the characters
    it draws with, and what it prints or fails with. The environment, the terminal, the
    files and the commands it runs are given. *)

From S2P Require Import Runes KanbanTree KanbanExport KanbanRender.

(** ** Integers and booleans of a flag *)

Open Scope Z_scope.

Definition lower_digit (c : ascii) : ascii := lower_byte c.

(** A digit in a base of at most 36. *)
Definition digit_in (base : Z) (c : ascii) : option Z :=
  let n := Z.of_N (Ascii.N_of_ascii (lower_digit c)) in
  let d := match digit_of c with
           | Some d => Some d
           | None => if (97 <=? n) && (n <=? 122) then Some (n - 87) else None
           end in
  d ← d; if d <? base then Some d else None.

Definition is_underscore (c : ascii) : bool := bool_decide (c = "_"%char).

Fixpoint digits_in (base acc : Z) (l : list ascii) : option Z :=
  match l with
  | [] => Some acc
  | c :: l =>
      if is_underscore c then digits_in base acc l
      else d ← digit_in base c; digits_in base (base * acc + d) l
  end.

(** The base that a prefix announces, with the digits after it. *)
Definition base_of (l : list ascii) : Z * list ascii :=
  match l with
  | "0"%char :: c :: d :: rest =>
      let p := lower_digit c in
      if bool_decide (p = "b"%char) then (2, d :: rest)
      else if bool_decide (p = "o"%char) then (8, d :: rest)
      else if bool_decide (p = "x"%char) then (16, d :: rest)
      else (8, c :: d :: rest)
  | "0"%char :: rest => (8, rest)
  | _ => (10, l)
  end.

(** What [underscoreOK] saw last. *)
Inductive seen_last := AtStart | AfterDigit | AfterUnderscore | AfterOther.

Fixpoint underscore_from (hex : bool) (i : seen_last) (l : list ascii) : bool :=
  match l with
  | [] => match i with AfterUnderscore => false | _ => true end
  | c :: l =>
      let n := Z.of_N (Ascii.N_of_ascii (lower_digit c)) in
      if bool_decide (is_Some (digit_of c)) || hex && (97 <=? n) && (n <=? 102)
      then underscore_from hex AfterDigit l
      else if is_underscore c
      then match i with AfterDigit => underscore_from hex AfterUnderscore l | _ => false end
      else match i with AfterUnderscore => false | _ => underscore_from hex AfterOther l end
  end.

Definition underscoreOK (l : list ascii) : bool :=
  match l with
  | "0"%char :: c :: rest =>
      let p := lower_digit c in
      if bool_decide (p = "b"%char ∨ p = "o"%char ∨ p = "x"%char)
      then underscore_from (bool_decide (p = "x"%char)) AfterDigit rest
      else underscore_from false AtStart l
  | _ => underscore_from false AtStart l
  end.

(** [strconv.ParseInt] with base 0 and 64 bits; [None] for a syntax or a range error. *)
Definition ParseInt (s : string) : option Z :=
  let unsigned (neg : bool) (l : list ascii) :=
    match l with
    | [] => None
    | _ =>
        let '(base, ds) := base_of l in
        v ← digits_in base 0 ds;
        if existsb is_underscore ds && negb (underscoreOK l) then None
        else let z := if neg then - v else v in
             if (- 2 ^ 63 <=? z) && (z <? 2 ^ 63) then Some z else None
    end in
  match bytes_of s with
  | [] => None
  | c :: l => if bool_decide (c = "-"%char) then unsigned true l
              else if bool_decide (c = "+"%char) then unsigned false l
              else unsigned false (c :: l)
  end.

Definition ParseBool (s : string) : option bool :=
  if bool_decide (s ∈ ["1"; "t"; "T"; "true"; "TRUE"; "True"]) then Some true
  else if bool_decide (s ∈ ["0"; "f"; "F"; "false"; "FALSE"; "False"]) then Some false
  else None.

Example parse_int_ex : ParseInt <$> ["80"; "-1"; "0x_ff"; "0b10"; "017"; "1_000"; "0"; "08"; "1__0"; ""; "0x"]
  = [Some 80; Some (-1); Some 255; Some 2; Some 15; Some 1000; Some 0; None; None; None; None].
Proof. vm_compute. reflexivity. Qed.

(** ** The flags *)

Record settings := mkSettings {
  st_workspace : string;
  st_strandBin : string;
  st_from : string;
  st_tasks : bool;
  st_all : bool;
  st_open : bool;
  st_noColour : bool;
  st_ascii : bool;
  st_width : Z;
}.

Definition initial (MILLSTRAND_WORKSPACE : string) : settings :=
  mkSettings MILLSTRAND_WORKSPACE "" "" false false false false false (-1).

Inductive flag_stop :=
| HelpAsked
| BadFlagSyntax (arg : string)
| UnknownFlag (name : string)
| BadBool (name value : string)
| BadInt (name value : string)
| NeedsArgument (name : string).

(** The flags that need no argument. *)
Definition set_bool (name : string) (b : bool) (o : settings) : option settings :=
  let '(mkSettings w s f t a p n c i) := o in
  if bool_decide (name = "tasks") then Some (mkSettings w s f b a p n c i)
  else if bool_decide (name = "all") then Some (mkSettings w s f t b p n c i)
  else if bool_decide (name = "open") then Some (mkSettings w s f t a b n c i)
  else if bool_decide (name = "no-color") then Some (mkSettings w s f t a p b c i)
  else if bool_decide (name = "ascii") then Some (mkSettings w s f t a p n b i)
  else None.

Definition set_string (name v : string) (o : settings) : option settings :=
  let '(mkSettings w s f t a p n c i) := o in
  if bool_decide (name = "workspace") then Some (mkSettings v s f t a p n c i)
  else if bool_decide (name = "strand") then Some (mkSettings w v f t a p n c i)
  else if bool_decide (name = "json") then Some (mkSettings w s v t a p n c i)
  else None.

Definition set_width (z : Z) (o : settings) : settings :=
  let '(mkSettings w s f t a p n c i) := o in mkSettings w s f t a p n c z.

Inductive flag_kind := BoolFlag | ValueFlag.

Definition formal (name : string) : option flag_kind :=
  if bool_decide (name ∈ ["tasks"; "all"; "open"; "no-color"; "ascii"]) then Some BoolFlag
  else if bool_decide (name ∈ ["workspace"; "strand"; "json"; "width"]) then Some ValueFlag
  else None.

Definition set_value (name v : string) (o : settings) : result flag_stop settings :=
  if bool_decide (name = "width") then
    match ParseInt v with Some z => Ok (set_width z o) | None => Err (BadInt name v) end
  else match set_string name v o with Some o => Ok o | None => Err (UnknownFlag name) end.

(** What an argument is to the parser. *)
Inductive token :=
| Plain
| Terminator
| Malformed
| Flag (name : string) (value : option string).

Definition minus : ascii := "-"%char.
Definition equals : ascii := "="%char.

Definition flag_name (name : list ascii) : token :=
  match name with
  | [] => Malformed
  | c :: rest =>
      if bool_decide (c = minus ∨ c = equals) then Malformed
      else match cut_bytes equals rest with
           | Some (n, v) => Flag (of_bytes (c :: n)) (Some (of_bytes v))
           | None => Flag (of_bytes name) None
           end
  end.

Definition read_token (arg : string) : token :=
  match bytes_of arg with
  | c :: d :: rest =>
      if negb (bool_decide (c = minus)) then Plain
      else if bool_decide (d = minus) then match rest with [] => Terminator | _ => flag_name rest end
      else flag_name (d :: rest)
  | _ => Plain
  end.

(** [FlagSet.Parse]: up to the first argument that is no flag. *)
Fixpoint Parse (o : settings) (args : list string) : result flag_stop (settings * list string) :=
  match args with
  | [] => Ok (o, [])
  | arg :: rest =>
      match read_token arg with
      | Plain => Ok (o, arg :: rest)
      | Terminator => Ok (o, rest)
      | Malformed => Err (BadFlagSyntax arg)
      | Flag name value =>
          match formal name with
          | None => Err (if bool_decide (name = "help" ∨ name = "h") then HelpAsked else UnknownFlag name)
          | Some BoolFlag =>
              match (match value with Some v => ParseBool v | None => Some true end) with
              | None => Err (BadBool name (default "" value))
              | Some b => match set_bool name b o with Some o => Parse o rest | None => Err (UnknownFlag name) end
              end
          | Some ValueFlag =>
              match value with
              | Some v => match set_value name v o with Ok o => Parse o rest | Err e => Err e end
              | None =>
                  match rest with
                  | [] => Err (NeedsArgument name)
                  | v :: rest => match set_value name v o with Ok o => Parse o rest | Err e => Err e end
                  end
              end
          end
      end
  end.

(** The loop of [parseInterspersed]; [None] when it is not over within [fuel] rounds. *)
Fixpoint intersperse (fuel : nat) (o : settings) (positionals args : list string)
    : option (result flag_stop (settings * list string)) :=
  match fuel with
  | 0%nat => None
  | S fuel =>
      match Parse o args with
      | Err e => Some (Err e)
      | Ok (o, []) => Some (Ok (o, positionals))
      | Ok (o, arg :: rest) => intersperse fuel o (positionals ++ [arg]) rest
      end
  end.

Definition parseInterspersed (o : settings) (args : list string) : option (result flag_stop (settings * list string)) :=
  intersperse (S (length args)) o [] args.

Example interspersed_ex :
  parseInterspersed (initial "") ["c1"; "--tasks"; "-width=0x50"; "--json"; "-"] = Some (Ok
    (mkSettings "" "" "-" true false false false false 80, ["c1"])).
Proof. vm_compute. reflexivity. Qed.

(** A terminator holds for one positional only: the arguments after that are read as flags
    again. *)
Example terminator_once :
  (λ r, match r with Some (Ok (o, ps)) => Some (st_all o, ps) | _ => None end)
    (parseInterspersed (initial "") ["--"; "-x"; "--all"]) = Some (true, ["-x"]).
Proof. vm_compute. reflexivity. Qed.

(** ** The environment of a run *)

Record surroundings := mkSurroundings {
  su_env : string → option string;
  su_stdout_tty : bool;
  su_tput : option string;
  su_lower : string → string;
  su_fixed : string → option string;
  su_open : string → option (list ascii);
  su_stdin : list ascii;
  su_self : option string;
  su_is_file : string → bool;
  su_look : option string;
  su_exec : string → list string → ran;
}.

Inductive command_error :=
| BadArguments (e : flag_stop)
| NoCard
| ManyCards (n : nat)
| BadColumns (value : string)
| TputFailed
| BadTput (value : string)
| NoStrand
| OpenFailed (path : string)
| LoadPayload (e : payload_error)
| LoadFetch (e : fetch_error)
| BadFilters (e : usage_error)
| BuildFailed (e : export_error).

Section run.
Context (su : surroundings).

Definition Getenv (key : string) : string := default "" (su_env su key).

(** A positive number of columns. *)
Definition columns (value : string) : option Z := z ← Atoi value; if 0 <? z then Some z else None.

Definition resolveWidth (flagged : Z) : result command_error Z :=
  if 0 <=? flagged then Ok flagged else
  match su_env su "COLUMNS" with
  | Some value => match columns value with Some z => Ok z | None => Err (BadColumns value) end
  | None =>
      if negb (su_stdout_tty su) then Ok 0 else
      match su_tput su with
      | None => Err TputFailed
      | Some printed =>
          let value := TrimSpace printed in
          match columns value with Some z => Ok z | None => Err (BadTput value) end
      end
  end.

Definition utf8Locale : bool :=
  match list_find (λ key, Getenv key ≠ "") ["LC_ALL"; "LC_CTYPE"; "LANG"] with
  | Some (_, key) =>
      let lower := su_lower su (Getenv key) in Contains lower "utf-8" || Contains lower "utf8"
  | None => false
  end.

Definition resolveStrand (override : string) : result command_error string :=
  if negb (bool_decide (override = "")) then Ok override else
  let sibling :=
    self ← su_self su;
    let s := PathJoin [Dir self; "strand"] in if su_is_file su s then Some s else None in
  match sibling with
  | Some s => Ok s
  | None => match su_look su with Some found => Ok found | None => Err NoStrand end
  end.

Definition payload (r : result payload_error export) : result command_error export :=
  match r with Ok ex => Ok ex | Err e => Err (LoadPayload e) end.

Definition load (o : settings) (cardID : string) : result command_error export :=
  if bool_decide (st_from o = "") then
    bin ← resolveStrand (st_strandBin o);
    match fetch (su_fixed su) (su_exec su) bin (st_workspace o) cardID with
    | Ok ex => Ok ex
    | Err e => Err (LoadFetch e)
    end
  else if bool_decide (st_from o = "-") then payload (decode_payload (su_fixed su) (su_stdin su))
  else
    match su_open su (st_from o) with
    | None => Err (OpenFailed (st_from o))
    | Some text => payload (decode_payload (su_fixed su) text)
    end.

(** How a run ends: [Stuck] is a panic or a loop that does not end. *)
Inductive ending :=
| Printed (text : string)
| HelpShown
| Failed (code : Z) (e : command_error)
| Stuck.

Definition exitError : Z := 1.
Definition exitUsage : Z := 2.

Definition the_card (o : settings) (args : list string) : result command_error string :=
  match args with
  | [] => if bool_decide (st_from o = "") then Err NoCard else Ok ""
  | [card] => Ok card
  | _ => Err (ManyCards (length args))
  end.

(** The characters and the colours of the drawing. *)
Definition drawing (o : settings) : theme * bool :=
  (if st_ascii o || negb utf8Locale then asciiTheme else unicodeTheme,
   negb (st_noColour o) && bool_decide (Getenv "NO_COLOR" = "") && su_stdout_tty su).

(** The tree of an export. *)
Definition draw (o : settings) (width : Z) (ex : export) : ending :=
  match resolveFilters ex (mkOptions (st_all o) (st_tasks o) (st_open o)) with
  | Err e => Failed exitUsage (BadFilters e)
  | Ok f =>
      match build ex f with
      | Err e => Failed exitError (BuildFailed e)
      | Ok m =>
          let '(t, colour) := drawing o in
          match render m t colour width with Some text => Printed text | None => Stuck end
      end
  end.

Definition run (args : list string) : ending :=
  match parseInterspersed (initial (Getenv "MILLSTRAND_WORKSPACE")) args with
  | None => Stuck
  | Some (Err HelpAsked) => HelpShown
  | Some (Err e) => Failed exitUsage (BadArguments e)
  | Some (Ok (o, args)) =>
      match the_card o args with
      | Err e => Failed exitUsage e
      | Ok card =>
          match resolveWidth (st_width o) with
          | Err e => Failed exitError e
          | Ok width =>
              match load o card with
              | Err e => Failed exitError e
              | Ok ex => draw o width ex
              end
          end
      end
  end.
End run.

Close Scope Z_scope.

(** ** Lemmas: the flags *)

(** Parsing leaves an end of the arguments. *)
Lemma Parse_length args : ∀ o o' rest, Parse o args = Ok (o', rest) → length rest ≤ length args.
Proof.
  induction args as [args IH] using (induction_ltof1 _ (@length string)); intros o o' rest. unfold ltof in IH.
  destruct args as [|arg args]; cbn [Parse]; [by intros [= _ <-]|].
  assert (Hlt : ∀ o1, Parse o1 args = Ok (o', rest) → length rest ≤ S (length args)).
  { intros o1 H. transitivity (length args); [|lia]. eapply IH; [simpl; lia|exact H]. }
  destruct (read_token arg) as [| | |name v]; [by intros [= _ <-]|intros [= _ <-]; simpl; lia|done|].
  destruct (formal name) as [[]|]; [| |done].
  - destruct (match v with Some v => ParseBool v | None => Some true end); [|done].
    destruct (set_bool name _ o); [apply Hlt|done].
  - destruct v as [v|].
    + destruct (set_value name v o); [apply Hlt|done].
    + destruct args as [|v args]; [done|]. destruct (set_value name v o) as [o1|]; [|done]. intros H.
      transitivity (length args); [|simpl; lia]. eapply IH; [simpl; lia|exact H].
Qed.

Lemma intersperse_total fuel : ∀ o ps args, length args < fuel → is_Some (intersperse fuel o ps args).
Proof.
  induction fuel as [|fuel IH]; intros o ps args Hf; [lia|]. cbn.
  destruct (Parse o args) as [[o' [|arg rest]]|e] eqn:Hp; [by eexists| |by eexists].
  apply IH. apply Parse_length in Hp. simpl in Hp. lia.
Qed.

(** More rounds change nothing. *)
Lemma intersperse_fuel fuel fuel' : ∀ o ps args, length args < fuel → length args < fuel' →
  intersperse fuel o ps args = intersperse fuel' o ps args.
Proof.
  revert fuel'. induction fuel as [|fuel IH]; intros [|fuel'] o ps args Hf Hf'; [lia..|]. cbn.
  destruct (Parse o args) as [[o' [|arg rest]]|e] eqn:Hp; [done| |done].
  apply IH; apply Parse_length in Hp; simpl in Hp; lia.
Qed.

(** A part of a command line: a positional, or the arguments of one flag. *)
Inductive part := Positional (arg : string) | FlagPart (args : list string).

Definition part_args (p : part) : list string := match p with Positional a => [a] | FlagPart l => l end.

(** The arguments of one flag, whatever comes after them. *)
Definition one_flag (l : list string) : Prop :=
  match l with
  | [arg] =>
      ∃ name value, read_token arg = Flag name value ∧
        (formal name = Some BoolFlag ∨ formal name = Some ValueFlag ∧ is_Some value)
  | [arg; _] => ∃ name, read_token arg = Flag name None ∧ formal name = Some ValueFlag
  | _ => False
  end.

Definition part_ok (p : part) : Prop :=
  match p with Positional a => read_token a = Plain | FlagPart l => one_flag l end.

(** The settings after one flag. *)
Definition apply_flag (o : settings) (l : list string) : result flag_stop settings :=
  match Parse o l with Ok (o, _) => Ok o | Err e => Err e end.

Fixpoint apply_parts (o : settings) (ps : list part) : result flag_stop settings :=
  match ps with
  | [] => Ok o
  | Positional _ :: ps => apply_parts o ps
  | FlagPart l :: ps => match apply_flag o l with Ok o => apply_parts o ps | Err e => Err e end
  end.

Definition positionals (ps : list part) : list string :=
  omap (λ p, match p with Positional a => Some a | FlagPart _ => None end) ps.

Lemma Parse_flag o l rest :
  one_flag l → Parse o (l ++ rest) = match apply_flag o l with Ok o => Parse o rest | Err e => Err e end.
Proof.
  unfold apply_flag. destruct l as [|arg [|v [|]]]; [done| | |done]; cbn [one_flag app].
  - intros (name & value & Ht & H). cbn [Parse]. rewrite Ht. destruct H as [->|[-> [v ->]]].
    + destruct (match value with Some v => ParseBool v | None => Some true end); [|done].
      by destruct (set_bool name _ o).
    + by destruct (set_value name v o).
  - intros (name & Ht & Hf). cbn [Parse]. rewrite Ht, Hf. by destruct (set_value name v o).
Qed.

Lemma intersperse_parts fuel ps : ∀ o acc,
  Forall part_ok ps → length (concat (part_args <$> ps)) < fuel →
  intersperse fuel o acc (concat (part_args <$> ps)) =
    Some (match apply_parts o ps with Ok o => Ok (o, acc ++ positionals ps) | Err e => Err e end).
Proof.
  revert fuel. induction ps as [|p ps IH]; intros [|fuel] o acc Hok Hf; [simpl in Hf; lia| |simpl in Hf; lia|].
  { cbn. by rewrite app_nil_r. }
  apply Forall_cons in Hok as [Hp Hok]. destruct p as [a|l]; cbn [fmap list_fmap concat part_args app] in *.
  - cbn [intersperse Parse]. rewrite Hp. rewrite IH by (done || simpl in Hf; lia).
    cbn. by rewrite <-app_assoc.
  - cbn [intersperse]. rewrite Parse_flag by done. cbn [apply_parts].
    destruct (apply_flag o l) as [o1|e] eqn:He; [|done].
    transitivity (intersperse (S fuel) o1 acc (concat (part_args <$> ps))); [done|].
    rewrite IH; [|done|rewrite length_app in Hf; lia]. unfold positionals. by cbn.
Qed.

(** The flags of a command line may stand anywhere: whichever positionals come before,
    between and after them, the settings are those of the flags in their order, the first
    bad flag is the error, and the positionals are kept in their order. *)
Theorem flags_anywhere o ps :
  Forall part_ok ps →
  parseInterspersed o (concat (part_args <$> ps)) =
    Some (match apply_parts o ps with Ok o => Ok (o, positionals ps) | Err e => Err e end).
Proof. intros Hok. unfold parseInterspersed. by rewrite intersperse_parts by (done || lia). Qed.

Lemma flags_anywhere_witness :
  parseInterspersed (initial "w") ["--tasks"; "c1"; "--width"; "80"; "-ascii=false"; "--json=x"] =
    Some (Ok (mkSettings "w" "" "x" true false false false false 80, ["c1"])).
Proof.
  assert (Forall part_ok [FlagPart ["--tasks"]; Positional "c1"; FlagPart ["--width"; "80"];
    FlagPart ["-ascii=false"]; FlagPart ["--json=x"]]) as H.
  { repeat constructor; [exists "tasks", None|exists "width"|exists "ascii", (Some "false")|exists "json", (Some "x")];
      (split; [by vm_compute|]); vm_compute; eauto. }
  exact (flags_anywhere (initial "w") _ H).
Defined.

(** ** Lemmas: a run *)

(** The contract of the strand command: an export is the subtree of its root. *)
Definition subtree (ex : export) : Prop :=
  ∀ s, s ∈ Strands ex → ∃ n, up (parent_map (ParentOf ex)) n (ID s) = RootID ex.

Section outcome.
Context (su : surroundings).

Lemma load_valid o card ex : load su o card = Ok ex → validateExport ex = Ok tt.
Proof.
  assert (Hp : ∀ text, payload (decode_payload (su_fixed su) text) = Ok ex → validateExport ex = Ok tt).
  { intros text. unfold payload. destruct (decode_payload _ text) as [ex'|] eqn:E; [|done]. intros [= ->].
    by apply decode_payload_valid in E as [_ ?]. }
  unfold load. case_bool_decide.
  - cbn. destruct (resolveStrand su _) as [bin|]; [|done]. cbn. unfold fetch.
    destruct (rn_failure _); [done|]. intros Hf. apply (Hp (rn_stdout (su_exec su bin (fetch_args (st_workspace o) card)))).
    revert Hf. unfold payload. by destruct (decode_payload _ _).
  - case_bool_decide; [apply Hp|]. destruct (su_open su _); [apply Hp|done].
Qed.

Lemma resolveWidth_nonneg flagged width : resolveWidth su flagged = Ok width → (0 <= width)%Z.
Proof.
  assert (Hc : ∀ value z, columns value = Some z → (0 <= z)%Z).
  { intros value z. unfold columns. destruct (Atoi value) as [n|]; [|done]. cbn.
    destruct (Z.ltb_spec 0 n); [intros [= <-]; lia|done]. }
  unfold resolveWidth. destruct (Z.leb_spec 0 flagged); [by intros [= <-]|].
  destruct (su_env su _) as [v|].
  - destruct (columns v) eqn:E; [intros [= <-]; by eapply Hc|done].
  - destruct (negb _); [by intros [= <-]|]. destruct (su_tput su) as [p|]; [|done].
    destruct (columns (TrimSpace p)) eqn:E; [intros [= <-]; by eapply Hc|done].
Qed.

(** What is drawn for a valid export. *)
Definition drawn_tree (o : settings) (width : Z) (ex : export) (text : string) : Prop :=
  ∃ f m r, resolveFilters ex (mkOptions (st_all o) (st_tasks o) (st_open o)) = Ok f ∧
    build ex f = Ok m ∧ rootID m = RootID ex ∧
    render_state m (drawing su o).1 (drawing su o).2 width = Some r ∧
    text = foldr String.append "" (e_text <$> out r) ∧ drawn_log r ≡ₚ (map_to_list (nodes m)).*1.

Lemma draw_ends o width ex :
  validateExport ex = Ok tt → subtree ex →
  match draw su o width ex with
  | Printed text => drawn_tree o width ex text
  | Failed code e => code = exitUsage ∧ ∃ u, e = BadFilters u
  | HelpShown | Stuck => False
  end.
Proof.
  intros Hv Hs. unfold draw, drawn_tree. destruct (resolveFilters ex _) as [f|u]; [|by eauto].
  destruct (build_tree ex f Hv Hs) as (m & Hb & Hm & Hr & _). rewrite Hb.
  destruct (drawing su o) as [t colour]. cbn [fst snd].
  destruct (render_state_spec m t colour width Hm) as (r & Hst & Hd & _).
  unfold render. rewrite Hst. cbn. exists f, m, r. done.
Qed.

End outcome.

(** ** Examples *)

Definition sample_surroundings : surroundings :=
  mkSurroundings (λ key, if bool_decide (key = "LANG") then Some "C" else None) false None id (λ _, None) (λ _, None)
    sample_payload None (λ _, false) (Some "/bin/strand") (λ _ _, mkRan [] "no mill" (Some "exit status 1")).

Example run_fetch_fails : run sample_surroundings ["c1"] = Failed 1 (LoadFetch (FetchFailed "c1" "no mill")).
Proof. vm_compute. reflexivity. Qed.

Example run_help : run sample_surroundings ["c1"; "-h"; "--bad"] = HelpShown.
Proof. vm_compute. reflexivity. Qed.

Example run_two : run sample_surroundings ["a"; "b"] = Failed 2 (ManyCards 2).
Proof. vm_compute. reflexivity. Qed.

Lemma sample_subtree o card ex : load sample_surroundings o card = Ok ex → subtree ex.
Proof.
  assert (He : decode_payload (λ _, None) sample_payload = Ok sample_export) by (vm_compute; reflexivity).
  assert (Hs : subtree sample_export).
  { intros s Hs. apply list_elem_of_singleton in Hs as ->. exists 0. reflexivity. }
  unfold load. case_bool_decide; [|case_bool_decide].
  - cbn [sample_surroundings]. unfold resolveStrand. by destruct (negb (bool_decide (st_strandBin o = ""))).
  - cbn [sample_surroundings su_fixed su_stdin payload]. rewrite He. cbn [payload]. intros E. by injection E as <-.
  - done.
Qed.

