(* ===== verification/Errfmt.v ===== *)
(** The rendering of errors (src/cli/internal/errfmt): the plain line, the JSON
    line and the expanded layout of a terminal, with its suggestions. The case
    folding of [strings.ToLower] is a parameter; the environment and what is known
    of the error writer are arguments. *)

From stdpp Require Import pretty.
From S2P Require Export Json.

(** ** Modes and codes *)

Inductive Mode := Plain | Pretty | JSON.

#[global] Instance Mode_eq_dec : EqDecision Mode.
Proof. solve_decision. Defined.

Definition TypeLocal : string := "cli".
Definition TypeTransport : string := "transport".

Definition CodeInvalidInvocation : string := "cli/invalid-invocation".
Definition CodeInvalidErrorFormat : string := "cli/invalid-error-format".
Definition CodePayloadUnreadable : string := "cli/payload-unreadable".
Definition CodeContextUnresolved : string := "cli/context-unresolved".
Definition CodeOutputUnwritable : string := "cli/output-unwritable".
Definition CodeMillUnreachable : string := "cli/mill-unreachable".
Definition CodeMillTransportFailed : string := "cli/mill-transport-failed".
Definition CodeWeaverResponseMalformed : string := "cli/weaver-response-malformed".
Definition databaseNotInitialized : string := "database/not-initialized".
Definition fallbackCode : string := "domain/error".

(** [Details] is the empty map when the error carries none. *)
Record Error := mkError {
  Type_ : string;
  Code : string;
  Message : string;
  Details : jobject;
  Command : list string;
  Local_ : bool;
}.

Definition LocalError (errType code message : string) (command : list string) : Error :=
  mkError errType code message ∅ command true.

Definition FromError (message : string) (command : list string) : Error :=
  LocalError TypeLocal CodeInvalidInvocation message command.

(** ** The environment *)

(** The variables the package reads; an unset one is empty. *)
Record env := mkEnv { e_format : string; e_columns : string; e_no_color : string }.

(** The error writer: a buffer, a file that cannot be examined, or a file that is
    or is not a character device. *)
Inductive writer := WBuffer | WNoStat | WFile (chardev : bool).

Definition mode_name (m : Mode) : string :=
  match m with Plain => "plain" | Pretty => "pretty" | JSON => "json" end.

Definition acceptedFormats : list Mode := [JSON; Plain; Pretty].

Inductive format_error := InvalidFormat (value : string).

Definition ValidateFormat (e : env) : result format_error unit :=
  if bool_decide (e_format e = "") then Ok tt
  else ensure (existsb (λ m, bool_decide (e_format e = mode_name m)) acceptedFormats)
         (InvalidFormat (e_format e)).

Definition detect (w : writer) : Mode :=
  match w with WFile true => Pretty | _ => Plain end.

(** [Mode(override)]: the mode of that name. *)
Definition parse_mode (s : string) : option Mode :=
  snd <$> list_find (λ m, mode_name m = s) acceptedFormats.

Definition Resolve (e : env) (w : writer) : Mode * result format_error unit :=
  match ValidateFormat e with
  | Err err => (detect w, Err err)
  | Ok _ =>
      if negb (bool_decide (e_format e = ""))
      then (default Plain (parse_mode (e_format e)), Ok tt)
      else (detect w, Ok tt)
  end.

Definition ModeFor (e : env) (w : writer) : Mode := fst (Resolve e w).

(** ** Details *)

Definition QuotedDetails (message : string) (details : jobject) : gmap string string :=
  if bool_decide (message = "") then ∅
  else omap (λ v, match v with
                  | JString text =>
                      if negb (bool_decide (text = "")) && Contains message text
                      then Some text else None
                  | _ => None
                  end) details.

Definition stringList (v : option json) : list string :=
  match v with
  | Some (JArray items) => omap (λ item, as_jstring (Some item)) items
  | _ => []
  end.

Definition details_text (v : option json) : string := default "" (as_jstring v).

(** ** The plain line *)

Definition PlainMessage (e : Error) : string :=
  if Local_ e || bool_decide (Type_ e = TypeLocal) then Message e
  else
    let message := Message e in
    let query := details_text (Details e !! "canonical-query") in
    let message := if bool_decide (query = "") then message else message +:+ ": " +:+ query in
    let names := stringList (Details e !! "available") in
    let message := if bool_decide (names = []) then message
                   else message +:+ " (available: " +:+ Join names ", " +:+ ")" in
    if bool_decide (Code e = databaseNotInitialized) then message
    else
      let message := if bool_decide (Details e = ∅) then message
                     else message +:+ " details=" +:+ encode_object (Details e) in
      if bool_decide (Code e = "") then "weaver " +:+ Type_ e +:+ " error: " +:+ message
      else "weaver " +:+ Type_ e +:+ " error (" +:+ Code e +:+ "): " +:+ message.

(** ** The JSON line: the four fields in their order. The salvage for details that
    do not encode is not reached, since decoded values do. *)

Definition json_line (e : Error) : string :=
  "{" +:+ Join (member_text <$>
    [("type", quoted (Type_ e)); ("code", quoted (Code e)); ("message", quoted (Message e));
     ("details", encode_object (Details e))]) "," +:+ "}".

(** ** Suggestions *)

Section distance.
Context {A : Type} `{EqDecision A}.

(** The cells of one row after the first: [prev] is the row above from the
    column to the left on, [cell] the cell to the left. *)
Fixpoint row_cells (x : A) (ys : list A) (prev : list nat) (cell : nat) : list nat :=
  match ys, prev with
  | y :: ys, above_left :: ((above :: _) as prev) =>
      let substitution := if decide (x = y) then above_left else S above_left in
      let c := min (above + 1) (min (cell + 1) substitution) in
      c :: row_cells x ys prev c
  | _, _ => []
  end.

Fixpoint rows (i : nat) (xs ys : list A) (previous : list nat) : list nat :=
  match xs with
  | [] => previous
  | x :: xs => rows (S i) xs ys (i :: row_cells x ys previous i)
  end.

Definition distance (xs ys : list A) : nat :=
  default 0 (rows 1 xs ys (seq 0 (S (length ys))) !! length ys).
End distance.

Definition levenshtein (a b : string) : nat := distance (runes a) (runes b).

Definition maxSuggestDistance : nat := 2.
Definition maxSuggestions : nat := 3.

Section errfmt.
(** [strings.ToLower]. *)
Context (lower : string → string).

(** The loop over the names; [None] when the token is on the list. *)
Fixpoint rank_matches (folded : string) (names : list string) : option (list (string * nat)) :=
  match names with
  | [] => Some []
  | name :: names =>
      let d := levenshtein folded (lower name) in
      if bool_decide (d = 0) then None
      else
        rest ← rank_matches folded names;
        Some (if bool_decide (d ≤ maxSuggestDistance) then (name, d) :: rest else rest)
  end.

Definition rank (token : string) (names : list string) : list string :=
  if bool_decide (token = "") then []
  else match rank_matches (lower token) names with
       | None => []
       | Some matches => (take maxSuggestions (sort_stable (λ a b, a.2 <? b.2) matches)).*1
       end.

Definition sortedValues (byKey : gmap string string) : list string :=
  omap (λ key, byKey !! key) (sort_strings (map_to_list byKey).*1).

Fixpoint distinct (seen : gset string) (l : list string) : list string :=
  match l with
  | [] => []
  | v :: l => if bool_decide (v ∈ seen) then distinct seen l
              else v :: distinct ({[v]} ∪ seen) l
  end.

Definition remainingValues (details : jobject) (quoted : gmap string string) : list string :=
  distinct ∅ (sortedValues
    (map_imap (λ key v, if bool_decide (is_Some (quoted !! key)) then None
                        else as_jstring (Some v)) details)).

Definition sameNames (a b : list string) : bool := bool_decide (a = b).

Fixpoint agreed (chosen : list string) (candidates names : list string) : list string :=
  match candidates with
  | [] => chosen
  | token :: candidates =>
      match rank token names with
      | [] => agreed chosen candidates names
      | ranked =>
          if negb (bool_decide (chosen = [])) && negb (sameNames chosen ranked) then []
          else agreed ranked candidates names
      end
  end.

(** The first token whose ranking is not empty. *)
Fixpoint first_ranked (tokens names : list string) : list string :=
  match tokens with
  | [] => []
  | token :: tokens =>
      match rank token names with [] => first_ranked tokens names | ranked => ranked end
  end.

Definition suggest (e : Error) (names : list string) : list string :=
  let quoted := QuotedDetails (Message e) (Details e) in
  match first_ranked (sortedValues quoted ++ option_list (last (Command e))) names with
  | [] => agreed [] (remainingValues (Details e) quoted) names
  | ranked => ranked
  end.

(** ** The expanded layout *)

Definition headlineIndent : string := "  ".
Definition labelIndent : string := "    ".
Definition entryIndent : string := "      ".
Definition defaultWidth : Z := 80.
Definition minimumWidth : Z := 40.

Definition availableKey : string := "available".
Definition tryKey : string := "try".

Definition newline : string := String (ascii_of_nat 10) "".
Definition ansi (code : string) : string := String (ascii_of_nat 27) ("[" +:+ code +:+ "m").
Definition ansiReset : string := ansi "0".
Definition ansiRed : string := ansi "31".
Definition ansiBold : string := ansi "1".
Definition ansiDim : string := ansi "2".
Definition ansiCyan : string := ansi "36".

Definition terminalWidth (en : env) : Z :=
  match Atoi (e_columns en) with
  | Some v => if (minimumWidth <=? v)%Z then v else defaultWidth
  | None => defaultWidth
  end.

Record palette := mkPalette { colour : bool }.

Definition newPalette (en : env) : palette := mkPalette (bool_decide (e_no_color en = "")).

Definition wrap (p : palette) (code text : string) : string :=
  if colour p then code +:+ text +:+ ansiReset else text.

Definition red (p : palette) : string → string := wrap p ansiRed.
Definition bold (p : palette) : string → string := wrap p ansiBold.
Definition dim (p : palette) : string → string := wrap p ansiDim.
Definition cyan (p : palette) : string → string := wrap p ansiCyan.

Definition section (label : string) (entries : list string) : string :=
  Join ((labelIndent +:+ label) :: ((λ e, entryIndent +:+ e) <$> entries)) newline.

Definition remedyLine (remedy : string) (p : palette) : string :=
  labelIndent +:+ cyan p ("try: " +:+ remedy).

(** The loop over the command from its end; the first token stays. *)
Fixpoint drop_spoken (message : string) (reversed : list string) : list string :=
  match reversed with
  | last :: ((_ :: _) as rest) =>
      if negb (bool_decide (message = "")) && Contains message last
      then drop_spoken message rest else reversed
  | _ => reversed
  end.

Definition spokenCommand (e : Error) : list string :=
  rev (drop_spoken (Message e) (rev (Command e))).

Definition headline (e : Error) (p : palette) : string :=
  let message := if bool_decide (Message e = "") then "unknown error" else Message e in
  let command := Join (spokenCommand e) " " in
  headlineIndent +:+ red p "x" +:+ " "
  +:+ (if bool_decide (command = "") then "" else command +:+ ": ")
  +:+ bold p message
  +:+ (if negb (bool_decide (Code e = "")) && negb (bool_decide (Code e = fallbackCode))
          && negb (Local_ e)
       then " " +:+ dim p ("(" +:+ Code e +:+ ")") else "").

(** Decoded values always encode: the fallback of [detailValue] is not reached. *)
Definition detailValue (v : json) : string :=
  match v with JString text => text | _ => encode v end.

Fixpoint indent_bytes (pad l : list ascii) : list ascii :=
  match l with
  | [] => []
  | c :: l => (if bool_decide (c = ascii_of_nat 10) then c :: pad else [c]) ++ indent_bytes pad l
  end.

Definition indentContinuation (value : string) (width : nat) : string :=
  of_bytes (indent_bytes (bytes_of (entryIndent +:+ spaces width)) (bytes_of value)).

(** The keys of the rows: no section of their own, not quoted by the message. *)
Definition row_keys (e : Error) (sectioned : string → bool) : list string :=
  let quoted := QuotedDetails (Message e) (Details e) in
  sort_strings (filter (λ key, sectioned key = false ∧ quoted !! key = None)
                  (map_to_list (Details e)).*1).

Definition detailRows (e : Error) (sectioned : string → bool) : list string :=
  let keys := row_keys e sectioned in
  let width := max_list (String.length <$> keys) in
  (λ key, key +:+ spaces (width - String.length key + 2)
          +:+ indentContinuation (detailValue (default JNull (Details e !! key))) (width + 2))
  <$> keys.

(** [strings.TrimRight(row, " ")] *)
Definition trim_right (s : string) : string :=
  of_bytes (rev ((fix go l := match l with
                              | c :: l' => if bool_decide (c = " "%char) then go l' else l
                              | [] => []
                              end) (rev (bytes_of s)))).

Fixpoint grid (fuel : nat) (perRow : nat) (cell : nat) (names : list string) : list string :=
  match fuel with
  | 0 => []
  | S fuel =>
      match names with
      | [] => []
      | _ =>
          trim_right (foldr (λ name row, name +:+ spaces (cell - String.length name) +:+ row) ""
                        (take perRow names))
          :: grid fuel perRow cell (drop perRow names)
      end
  end.

Definition cell_width (names : list string) : nat := max_list (String.length <$> names) + 2.

Definition per_row (names : list string) (width : Z) : nat :=
  Z.to_nat (Z.max 1 (Z.quot (width - Z.of_nat (String.length entryIndent))
                            (Z.of_nat (cell_width names)))).

(** A row takes at least one name: as many rows as names are enough. *)
Definition columns (names : list string) (width : Z) : list string :=
  grid (length names) (per_row names width) (cell_width names) names.

Definition renderPretty (en : env) (e : Error) : string :=
  let p := newPalette en in
  let names := stringList (Details e !! availableKey) in
  let remedy := details_text (Details e !! tryKey) in
  let hasRemedy := negb (bool_decide (remedy = "")) in
  let width := terminalWidth en in
  let suggestions := suggest e names in
  let sectioned (key : string) :=
    (bool_decide (key = availableKey) && negb (bool_decide (names = [])))
    || (bool_decide (key = tryKey) && hasRemedy) in
  let rows := detailRows e sectioned in
  Join ([headline e p]
        ++ (if bool_decide (names = []) then []
            else (if bool_decide (suggestions = []) then []
                  else [section (dim p "did you mean:") (columns suggestions width)])
                 ++ [section (dim p (availableKey +:+ ":")) (columns names width)])
        ++ (if bool_decide (rows = []) then [] else [section (dim p "details:") rows])
        ++ (if hasRemedy then [remedyLine remedy p] else []))
       (newline +:+ newline)
  +:+ newline.

Definition Render (en : env) (e : Error) (mode : Mode) : string :=
  match mode with
  | Pretty => renderPretty en e
  | JSON => json_line e +:+ newline
  | Plain => "error: " +:+ PlainMessage e +:+ newline
  end.

Definition RenderRemedy (en : env) (remedy : string) (mode : Mode) : string :=
  if bool_decide (remedy = "") || bool_decide (mode = JSON) then ""
  else if bool_decide (mode = Pretty)
  then newline +:+ remedyLine remedy (newPalette en) +:+ newline
  else "try: " +:+ remedy +:+ newline.
End errfmt.

(** ** The edit distance *)

(** One insertion, deletion or substitution of one element. *)
Inductive edit1 {A} : list A → list A → Prop :=
| edit_insert l1 l2 x : edit1 (l1 ++ l2) (l1 ++ x :: l2)
| edit_delete l1 l2 x : edit1 (l1 ++ x :: l2) (l1 ++ l2)
| edit_substitute l1 l2 x y : edit1 (l1 ++ x :: l2) (l1 ++ y :: l2).

(** An alignment of two lists and its cost. *)
Inductive aligned {A} : nat → list A → list A → Prop :=
| aligned_nil : aligned 0 [] []
| aligned_keep n x l r : aligned n l r → aligned n (x :: l) (x :: r)
| aligned_sub n x y l r : aligned n l r → aligned (S n) (x :: l) (y :: r)
| aligned_del n x l r : aligned n l r → aligned (S n) (x :: l) r
| aligned_ins n y l r : aligned n l r → aligned (S n) l (y :: r).

#[export] Hint Constructors aligned : go.

Section alignment.
Context {A : Type}.
Implicit Types l r : list A.

Lemma aligned_refl l : aligned 0 l l.
Proof using. induction l; auto with go. Qed.

Lemma aligned_app n m l r l' r' :
  aligned n l r → aligned m l' r' → aligned (n + m) (l ++ l') (r ++ r').
Proof using. intros H Hm. induction H; simpl; auto with go. Qed.

Lemma aligned_rev n l r : aligned n l r → aligned n (rev l) (rev r).
Proof using.
  induction 1 as [|n x l r _ IH|n x y l r _ IH|n x l r _ IH|n y l r _ IH]; simpl; [constructor|..].
  - rewrite <-(Nat.add_0_r n). apply aligned_app; auto with go.
  - rewrite <-Nat.add_1_r. apply aligned_app; auto with go.
  - rewrite <-Nat.add_1_r, <-(app_nil_r (rev r)). apply aligned_app; auto with go.
  - rewrite <-Nat.add_1_r, <-(app_nil_r (rev l)). apply aligned_app; auto with go.
Qed.

Lemma aligned_trans n m (a b c : list A) :
  aligned n a b → aligned m b c → ∃ k, k ≤ n + m ∧ aligned k a c.
Proof using.
  intros H. revert m c.
  induction H as [|n x l r H IH|n x y l r H IH|n x l r H IH|n y l r H IH]; intros m c Hc.
  - exists m. split; [lia|done].
  - remember (x :: r) as xr eqn:E. induction Hc; simplify_eq.
    + destruct (IH _ _ Hc) as (k & ? & ?). exists k. split; [lia|auto with go].
    + destruct (IH _ _ Hc) as (k & ? & ?). exists (S k). split; [lia|auto with go].
    + destruct (IH _ _ Hc) as (k & ? & ?). exists (S k). split; [lia|auto with go].
    + destruct (IHHc eq_refl) as (k & ? & ?). exists (S k). split; [lia|auto with go].
  - remember (y :: r) as yr eqn:E. induction Hc; simplify_eq.
    + destruct (IH _ _ Hc) as (k & ? & ?). exists (S k). split; [lia|auto with go].
    + destruct (IH _ _ Hc) as (k & ? & ?). exists (S k). split; [lia|auto with go].
    + destruct (IH _ _ Hc) as (k & ? & ?). exists (S k). split; [lia|auto with go].
    + destruct (IHHc eq_refl) as (k & ? & ?). exists (S k). split; [lia|auto with go].
  - destruct (IH _ _ Hc) as (k & ? & ?). exists (S k). split; [lia|auto with go].
  - remember (y :: r) as yr eqn:E. induction Hc; simplify_eq.
    + destruct (IH _ _ Hc) as (k & ? & ?). exists (S k). split; [lia|auto with go].
    + destruct (IH _ _ Hc) as (k & ? & ?). exists (S k). split; [lia|auto with go].
    + destruct (IH _ _ Hc) as (k & ? & ?). exists k. split; [lia|auto with go].
    + destruct (IHHc eq_refl) as (k & ? & ?). exists (S k). split; [lia|auto with go].
Qed.

Lemma edit1_aligned l r : edit1 l r → aligned 1 l r.
Proof using.
  intros [l1 l2 x|l1 l2 x|l1 l2 x y]; apply (aligned_app 0 1);
    auto using aligned_refl with go.
Qed.

Lemma edit1_cons x l r : edit1 l r → edit1 (x :: l) (x :: r).
Proof using.
  intros [l1 l2 y|l1 l2 y|l1 l2 y z].
  - apply (edit_insert (x :: l1)).
  - apply (edit_delete (x :: l1)).
  - apply (edit_substitute (x :: l1)).
Qed.

Lemma nsteps_cons n x l r : nsteps edit1 n l r → nsteps edit1 n (x :: l) (x :: r).
Proof using.
  induction 1 as [|n a b c Hab _ IH]; [constructor|]. econstructor; [by apply edit1_cons|done].
Qed.

Lemma aligned_nsteps n l r : aligned n l r → nsteps edit1 n l r.
Proof using.
  induction 1 as [|n x l r _ IH|n x y l r _ IH|n x l r _ IH|n y l r _ IH].
  - constructor.
  - by apply nsteps_cons.
  - econstructor; [apply (edit_substitute [] l x y)|]. by apply nsteps_cons.
  - econstructor; [apply (edit_delete [] l x)|done].
  - econstructor; [apply (edit_insert [] l y)|]. by apply nsteps_cons.
Qed.

Lemma nsteps_aligned n l r : nsteps edit1 n l r → ∃ k, k ≤ n ∧ aligned k l r.
Proof using.
  induction 1 as [l|n a b c Hab _ (k & Hk & IH)].
  - exists 0. split; [done|]. apply aligned_refl.
  - destruct (aligned_trans 1 k a b c (edit1_aligned _ _ Hab) IH) as (k' & ? & ?).
    exists k'. split; [lia|done].
Qed.

Context `{EqDecision A}.

(** The recurrence the rows compute, on the reversed prefixes. *)
Fixpoint ed (l : list A) : list A → nat :=
  match l with
  | [] => λ r, length r
  | x :: l => fix go r :=
      match r with
      | [] => S (length l)
      | y :: r' =>
          min (ed l r + 1) (min (go r' + 1) (if decide (x = y) then ed l r' else S (ed l r')))
      end
  end.

Lemma ed_nil_r l : ed l [] = length l.
Proof using. by destruct l. Qed.

Lemma ed_cons x l y r :
  ed (x :: l) (y :: r) =
  min (ed l (y :: r) + 1) (min (ed (x :: l) r + 1) (if decide (x = y) then ed l r else S (ed l r))).
Proof using. done. Qed.

Lemma aligned_ed l r : aligned (ed l r) l r.
Proof using.
  revert r. induction l as [|x l IHl]; intros r.
  - simpl. induction r; simpl; auto with go.
  - induction r as [|y r IHr].
    + rewrite ed_nil_r. specialize (IHl []). rewrite ed_nil_r in IHl. by constructor.
    + rewrite ed_cons.
      destruct (Nat.min_dec (ed l (y :: r) + 1)
        (min (ed (x :: l) r + 1) (if decide (x = y) then ed l r else S (ed l r)))) as [->| ->].
      { rewrite Nat.add_1_r. apply aligned_del, IHl. }
      destruct (Nat.min_dec (ed (x :: l) r + 1)
        (if decide (x = y) then ed l r else S (ed l r))) as [->| ->].
      { rewrite Nat.add_1_r. apply aligned_ins, IHr. }
      destruct (decide (x = y)) as [->|]; [apply aligned_keep, IHl|apply aligned_sub, IHl].
Qed.

Lemma ed_step_l x l r : ed (x :: l) r ≤ S (ed l r).
Proof using. destruct r as [|y r]; [by rewrite !ed_nil_r|]. rewrite ed_cons. lia. Qed.

Lemma ed_step_r y l r : ed l (y :: r) ≤ S (ed l r).
Proof using. destruct l as [|x l]; [simpl; lia|]. rewrite ed_cons. lia. Qed.

Lemma ed_min n l r : aligned n l r → ed l r ≤ n.
Proof using.
  induction 1 as [|n x l r _ IH|n x y l r _ IH|n x l r _ IH|n y l r _ IH].
  - done.
  - rewrite ed_cons, decide_True by done. lia.
  - rewrite ed_cons. destruct (decide (x = y)); lia.
  - pose proof (ed_step_l x l r). lia.
  - pose proof (ed_step_r y l r). lia.
Qed.
End alignment.

Section rows.
Context {A : Type} `{EqDecision A}.
Implicit Types xs ys pre : list A.

(** The cells of a row past the prefix [rdone] of the right list, reversed. *)
Fixpoint row_tail pre (rdone ys : list A) : list nat :=
  match ys with
  | [] => []
  | y :: ys => ed pre (y :: rdone) :: row_tail pre (y :: rdone) ys
  end.

Lemma row_cells_spec x pre rdone ys :
  row_cells x ys (ed pre rdone :: row_tail pre rdone ys) (ed (x :: pre) rdone)
  = row_tail (x :: pre) rdone ys.
Proof using.
  revert rdone. induction ys as [|y ys IH]; intros rdone; [done|].
  cbn [row_tail row_cells]. cbv zeta. rewrite <-ed_cons. f_equal. apply IH.
Qed.

Lemma row_tail_nil rdone ys : row_tail [] rdone ys = seq (S (length rdone)) (length ys).
Proof using.
  revert rdone. induction ys as [|y ys IH]; intros rdone; [done|].
  cbn [row_tail length seq]. by rewrite IH.
Qed.

Lemma rows_spec xs ys pre i :
  i = S (length pre) →
  rows i xs ys (ed pre [] :: row_tail pre [] ys)
  = ed (rev xs ++ pre) [] :: row_tail (rev xs ++ pre) [] ys.
Proof using.
  revert pre i. induction xs as [|x xs IH]; intros pre i ->; [done|]. cbn [rows].
  assert (S (length pre) = ed (x :: pre) []) as -> by done.
  rewrite row_cells_spec, IH by done. simpl. by rewrite <-app_assoc.
Qed.

Lemma row_tail_last pre rdone ys :
  (ed pre rdone :: row_tail pre rdone ys) !! length ys = Some (ed pre (rev ys ++ rdone)).
Proof using.
  revert rdone. induction ys as [|y ys IH]; intros rdone; [done|].
  cbn [length row_tail]. simpl. rewrite <-app_assoc. apply (IH (y :: rdone)).
Qed.

Lemma distance_ed xs ys : distance xs ys = ed (rev xs) (rev ys).
Proof using.
  unfold distance. change (seq 0 (S (length ys))) with (0 :: seq 1 (length ys)).
  assert (seq 1 (length ys) = row_tail [] [] ys) as -> by (by rewrite row_tail_nil).
  assert (rows 1 xs ys (0 :: row_tail [] [] ys)
    = ed (rev xs ++ []) [] :: row_tail (rev xs ++ []) [] ys) as -> by (by apply (rows_spec xs ys [])).
  by rewrite row_tail_last, !app_nil_r.
Qed.

Lemma distance_edits xs ys :
  nsteps edit1 (distance xs ys) xs ys ∧ ∀ n, nsteps edit1 n xs ys → distance xs ys ≤ n.
Proof using.
  rewrite distance_ed. split.
  - rewrite <-(rev_involutive xs) at 2. rewrite <-(rev_involutive ys) at 2.
    apply aligned_nsteps, aligned_rev, aligned_ed.
  - intros n Hn. destruct (nsteps_aligned _ _ _ Hn) as (k & Hk & Ha).
    etrans; [|exact Hk]. by apply ed_min, aligned_rev.
Qed.

Lemma distance_zero xs ys : distance xs ys = 0 ↔ xs = ys.
Proof using.
  split.
  - intros H. destruct (distance_edits xs ys) as [Hs _]. rewrite H in Hs. by inversion Hs.
  - intros ->. destruct (distance_edits ys ys) as [_ Hm].
    specialize (Hm 0 (nsteps_O _ _)). lia.
Qed.
End rows.

(** C37: The two-row distance is the least number of insertions, deletions and
    substitutions of one rune that turns the first text into the second: that many
    suffice and no fewer do. *)
Theorem levenshtein_optimal a b :
  nsteps edit1 (levenshtein a b) (runes a) (runes b) ∧
  ∀ n, nsteps edit1 n (runes a) (runes b) → levenshtein a b ≤ n.
Proof. apply distance_edits. Qed.

(** ** Suggestions *)

Section suggestions.
Context (lower : string → string).

(** The distance between a token and a name, case folded. *)
Definition away (token name : string) : nat := levenshtein (lower token) (lower name).

Lemma rank_matches_spec token names :
  rank_matches lower (lower token) names =
  if existsb (λ n, bool_decide (away token n = 0)) names then None
  else Some ((λ n, (n, away token n)) <$> filter (λ n, away token n ≤ maxSuggestDistance) names).
Proof using.
  induction names as [|n names IH]; [done|]. cbn [rank_matches existsb]. cbv zeta.
  rewrite filter_cons. fold (away token n).
  destruct (decide (away token n = 0)) as [E|E].
  { by rewrite (bool_decide_eq_true_2 _ E). }
  rewrite (bool_decide_eq_false_2 _ E), IH. simpl.
  destruct (existsb _ names); [done|]. cbn [mbind option_bind].
  destruct (decide (away token n ≤ maxSuggestDistance)) as [L|L].
  - by rewrite (bool_decide_eq_true_2 _ L).
  - by rewrite (bool_decide_eq_false_2 _ L).
Qed.

Definition nearer (token a b : string) : bool := away token a <? away token b.

Lemma rank_eq token names :
  rank lower token names =
  if bool_decide (token = "") || existsb (λ n, bool_decide (away token n = 0)) names then []
  else take maxSuggestions (sort_stable (nearer token)
         (filter (λ n, away token n ≤ maxSuggestDistance) names)).
Proof using.
  unfold rank. destruct (bool_decide (token = "")); [done|]. rewrite rank_matches_spec. simpl.
  destruct (existsb _ names); [done|].
  rewrite sort_stable_fmap, <-fmap_take, <-list_fmap_compose. simpl.
  by rewrite list_fmap_id.
Qed.

Lemma elem_of_rank x token names :
  x ∈ rank lower token names → x ∈ names ∧ 1 ≤ away token x ≤ maxSuggestDistance.
Proof using.
  rewrite rank_eq. destruct (bool_decide (token = "")); [by intros ?%elem_of_nil|]. simpl.
  destruct (existsb _ names) eqn:E; [by intros ?%elem_of_nil|].
  intros (i & Hx%list_elem_of_lookup_2 & _)%elem_of_take. rewrite elem_of_sort_stable in Hx. apply list_elem_of_filter in Hx as [Hd Hx].
  split; [done|]. split; [|done].
  destruct (decide (away token x = 0)) as [Hz|]; [|lia]. exfalso.
  apply not_true_iff_false in E. apply E, existsb_exists. exists x.
  split; [by apply list_elem_of_In|by apply bool_decide_eq_true].
Qed.

Lemma first_ranked_spec tokens names :
  first_ranked lower tokens names = [] ∧ (∀ t, t ∈ tokens → rank lower t names = []) ∨
  ∃ t, t ∈ tokens ∧ first_ranked lower tokens names = rank lower t names ∧
       rank lower t names ≠ [].
Proof using.
  induction tokens as [|t tokens IH]; cbn [first_ranked].
  { left. split; [done|]. by intros ? ?%elem_of_nil. }
  destruct (rank lower t names) as [|r rs] eqn:E.
  - destruct IH as [[H1 H2]|(t' & H1 & H2 & H3)]; [left|right].
    + split; [done|]. intros t' [->|?]%elem_of_cons; [done|by apply H2].
    + exists t'. split; [by right|done].
  - right. exists t. split; [by left|]. by rewrite E.
Qed.

Lemma agreed_spec chosen candidates names :
  agreed lower chosen candidates names ≠ [] →
  (chosen ≠ [] → agreed lower chosen candidates names = chosen) ∧
  (∀ t, t ∈ candidates → rank lower t names ≠ [] →
     rank lower t names = agreed lower chosen candidates names) ∧
  (chosen ≠ [] ∨ ∃ t, t ∈ candidates ∧ agreed lower chosen candidates names = rank lower t names).
Proof using.
  revert chosen. induction candidates as [|t candidates IH]; intros chosen; cbn [agreed].
  { intros H. split; [done|]. split; [by intros ? ?%elem_of_nil|by left]. }
  destruct (rank lower t names) as [|r rs] eqn:E.
  - intros H. destruct (IH chosen H) as (H1 & H2 & H3). split; [done|]. split.
    + intros t' [->|?]%elem_of_cons Ht; [done|by apply H2].
    + destruct H3 as [?|(t' & ? & ?)]; [by left|right]. exists t'. split; [by right|done].
  - unfold sameNames. destruct (decide (chosen = [])) as [->|Hc].
    + rewrite bool_decide_eq_true_2 by done. cbn [negb andb]. intros H.
      destruct (IH _ H) as (H1 & H2 & H3). specialize (H1 ltac:(done)).
      split; [done|]. split.
      * intros t' [->|?]%elem_of_cons Ht; [by rewrite E|by apply H2].
      * right. exists t. split; [by left|]. by rewrite E.
    + rewrite (bool_decide_eq_false_2 _ Hc). cbn [negb andb].
      destruct (decide (chosen = r :: rs)) as [->|Hne].
      * rewrite bool_decide_eq_true_2 by done. cbn [negb]. intros H.
        destruct (IH _ H) as (H1 & H2 & H3). specialize (H1 ltac:(done)).
        split; [done|]. split; [|by left].
        intros t' [->|?]%elem_of_cons Ht; [by rewrite E|by apply H2].
      * rewrite (bool_decide_eq_false_2 _ Hne). done.
Qed.
End suggestions.

Lemma elem_of_distinct seen l x : x ∈ distinct seen l → x ∈ l.
Proof.
  revert seen. induction l as [|v l IH]; intros seen; cbn [distinct]; [done|].
  case_bool_decide; [intros Hx%IH; by right|].
  intros [->|Hx%IH]%elem_of_cons; [by left|by right].
Qed.

Lemma distinct_complete l x : x ∈ l → x ∈ distinct ∅ l.
Proof.
  assert (∀ seen, x ∈ l → x ∉ seen → x ∈ distinct seen l) as H.
  { induction l as [|v l IH]; intros seen Hx Hs; [by apply elem_of_nil in Hx|].
    cbn [distinct]. apply elem_of_cons in Hx. destruct (decide (v ∈ seen)) as [Hv|Hv].
    - rewrite (bool_decide_eq_true_2 _ Hv). destruct Hx as [->|Hx]; [done|by apply IH].
    - rewrite (bool_decide_eq_false_2 _ Hv). destruct (decide (x = v)) as [->|Hne]; [by left|].
      right. destruct Hx as [?|Hx]; [done|]. apply IH; [done|].
      by intros [?%elem_of_singleton|?]%elem_of_union. }
  intros Hx. apply H; [done|]. apply not_elem_of_empty.
Qed.

Lemma elem_of_sortedValues (m : gmap string string) x :
  x ∈ sortedValues m ↔ ∃ key, m !! key = Some x.
Proof.
  unfold sortedValues. rewrite list_elem_of_omap. split.
  - intros (key & _ & H). by exists key.
  - intros [key H]. exists key. split; [|done]. unfold sort_strings. rewrite elem_of_sort_stable.
    apply list_elem_of_fmap. exists (key, x). split; [done|]. by apply elem_of_map_to_list.
Qed.

Lemma QuotedDetails_lookup message details key text :
  QuotedDetails message details !! key = Some text ↔
  message ≠ "" ∧ details !! key = Some (JString text) ∧ text ≠ "" ∧ Contains message text = true.
Proof.
  unfold QuotedDetails. destruct (decide (message = "")) as [Hm|Hm].
  { rewrite (bool_decide_eq_true_2 _ Hm), lookup_empty. split; [done|]. by intros (? & _). }
  rewrite (bool_decide_eq_false_2 _ Hm), lookup_omap_Some. split.
  - intros (v & Hv & Hk). destruct v; try done.
    destruct (decide (s = "")) as [Hs|Hs]; [by rewrite (bool_decide_eq_true_2 _ Hs) in Hv|].
    rewrite (bool_decide_eq_false_2 _ Hs) in Hv. simpl in Hv.
    destruct (Contains message s) eqn:E; [|done]. by injection Hv as <-.
  - intros (_ & Hk & Ht & Hc). exists (JString text). split; [|done].
    by rewrite (bool_decide_eq_false_2 _ Ht), Hc.
Qed.

(** [rank] answers nothing for a blank token and for one that is already on the
    list. Otherwise it answers the first three of the names within two edits of
    the token, case folded, the nearest first and names at one distance in the
    order of the list. *)
Theorem rank_spec lower token names :
  let near := filter (λ n, away lower token n ≤ 2) names in
  (token = "" ∨ (∃ n, n ∈ names ∧ away lower token n = 0) → rank lower token names = []) ∧
  (token ≠ "" → (∀ n, n ∈ names → away lower token n ≠ 0) →
   ∃ l, rank lower token names = take 3 l ∧ l ≡ₚ near ∧
        Sorted (λ a b, away lower token a ≤ away lower token b) l ∧
        ∀ k, filter (λ n, away lower token n = k) l = filter (λ n, away lower token n = k) near).
Proof.
  intros near. rewrite rank_eq. split.
  - intros [Ht|(n & Hn & Hd)]; [by rewrite (bool_decide_eq_true_2 _ Ht)|].
    rewrite (proj2 (existsb_exists _ _)); [by rewrite orb_true_r|].
    exists n. split; [by apply list_elem_of_In|by apply bool_decide_eq_true].
  - intros Ht Hd. rewrite (bool_decide_eq_false_2 _ Ht).
    assert (existsb (λ n, bool_decide (away lower token n = 0)) names = false) as ->.
    { apply not_true_iff_false. intros (n & Hn & Hz)%existsb_exists.
      apply bool_decide_eq_true in Hz. apply (Hd n); [by apply list_elem_of_In|done]. }
    eexists. split; [reflexivity|]. split; [apply sort_stable_perm|]. split.
    + eapply Sorted_ind with (P := Sorted _); [constructor| |apply sort_stable_sorted].
      * intros a l _ IH Hh. constructor; [done|]. destruct Hh; constructor.
        unfold sort_le, nearer in H. apply Nat.ltb_ge in H. done.
      * intros x y. unfold nearer. rewrite Nat.ltb_lt, Nat.ltb_ge. lia.
    + intros k. apply sort_stable_filter. intros x y Hx Hy. unfold nearer.
      apply Nat.ltb_ge. lia.
Qed.

(** A suggestion is never invented: all of an offer is the ranking of one word
    of the error, its last command word or a text among its details, so that
    each name offered is on the list and one or two edits from that word. When no
    detail the message quotes and not the last command word come near a name, an
    offer is made only if every other detail that comes near one gives the same. *)
Theorem suggest_sound lower e names :
  let offer := suggest lower e names in
  let quoted := QuotedDetails (Message e) (Details e) in
  offer ≠ [] →
  (∃ word, (last (Command e) = Some word ∨ ∃ key, Details e !! key = Some (JString word)) ∧
     offer = rank lower word names ∧
     ∀ n, n ∈ offer → n ∈ names ∧ 1 ≤ away lower word n ≤ 2) ∧
  ((∀ key text, quoted !! key = Some text → rank lower text names = []) →
   (∀ word, last (Command e) = Some word → rank lower word names = []) →
   ∀ key text, Details e !! key = Some (JString text) → quoted !! key = None →
     rank lower text names = [] ∨ rank lower text names = offer).
Proof.
  intros offer quoted Ho. unfold offer, suggest in Ho |- *. fold quoted in Ho |- *. clear offer.
  assert (∀ t, t ∈ remainingValues (Details e) quoted →
    ∃ key, Details e !! key = Some (JString t)) as Hrem.
  { intros t Ht. apply elem_of_distinct, elem_of_sortedValues in Ht as [key Hk].
    rewrite map_lookup_imap in Hk. destruct (Details e !! key) as [v|] eqn:E; [|done].
    simpl in Hk. case_bool_decide; [done|]. destruct v; simplify_eq/=. by exists key. }
  destruct (first_ranked_spec lower (sortedValues quoted ++ option_list (last (Command e))) names)
    as [[Hf Hnone]|(t & Ht & Hr & Hne)].
  - rewrite Hf in Ho |- *. split.
    + destruct (agreed_spec lower [] _ names Ho) as (_ & _ & [?|(t & Ht & Hr)]); [done|].
      exists t. split; [right; by apply Hrem|]. split; [done|].
      intros n Hn. rewrite Hr in Hn. by apply elem_of_rank.
    + intros _ _ key text Hk Hq. destruct (agreed_spec lower [] _ names Ho) as (_ & Hag & _).
      destruct (decide (rank lower text names = [])) as [|Hn]; [by left|right].
      apply Hag; [|done]. unfold remainingValues.
      assert (text ∈ sortedValues (map_imap (λ key v,
        if bool_decide (is_Some (quoted !! key)) then None else as_jstring (Some v)) (Details e))).
      { apply elem_of_sortedValues. exists key. rewrite map_lookup_imap, Hk. simpl.
        rewrite bool_decide_eq_false_2; [done|]. rewrite Hq. by intros [? ?]. }
      by apply distinct_complete.
  - rewrite Hr in Ho |- *. destruct (rank lower t names) as [|x xs] eqn:E; [done|]. split.
    + exists t. split.
      * apply elem_of_app in Ht as [Ht|Ht].
        -- apply elem_of_sortedValues in Ht as [key Hk]. right. exists key.
           by apply QuotedDetails_lookup in Hk as (_ & Hk & _).
        -- left. destruct (last (Command e)); simpl in Ht; [|by apply elem_of_nil in Ht].
           by apply list_elem_of_singleton in Ht as ->.
      * split; [by rewrite E|]. intros n Hn. apply elem_of_rank. by rewrite E.
    + intros H1 H2. exfalso. apply elem_of_app in Ht as [Ht|Ht].
      * apply elem_of_sortedValues in Ht as [key Hk]. by rewrite (H1 key t Hk) in E.
      * destruct (last (Command e)) as [w|]; simpl in Ht; [|by apply elem_of_nil in Ht].
        apply list_elem_of_singleton in Ht as ->. by rewrite (H2 w) in E.
Qed.

(** ** The machine-facing renderings *)

(** In the two machine-facing modes an error takes exactly one line: whatever
    its details are, with any text in their strings and keys, JSON mode writes
    one line, and plain mode does too when the message, the type and code of the
    envelope and the texts it folds into the prose hold no newline. *)
Theorem machine_modes_one_line lower en e :
  map_Forall (λ _, decoded) (Details e) →
  (∃ text, Render lower en e JSON = text +:+ newline ∧ single_line text) ∧
  (single_line (Message e) → single_line (Type_ e) → single_line (Code e) →
   single_line (details_text (Details e !! "canonical-query")) →
   Forall single_line (stringList (Details e !! "available")) →
   ∃ text, Render lower en e Plain = text +:+ newline ∧ single_line text).
Proof.
  intros Hd. assert (single_line (encode_object (Details e))) as Henc.
  { apply encode_single_line. by constructor. }
  split.
  - exists (json_line e). split; [done|]. unfold json_line.
    apply single_line_app; [by_evaluation|]. apply single_line_app; [|by_evaluation].
    apply single_line_Join; [by_evaluation|].
    assert (∀ k v, single_line v → single_line (member_text (k, v))) as Hm.
    { intros k v Hv. unfold member_text. simpl. apply single_line_app; [auto with go|].
      apply single_line_app; [by_evaluation|done]. }
    repeat constructor; apply Hm; auto with go.
  - intros Hmsg Ht Hc Hq Ha. exists ("error: " +:+ PlainMessage e).
    split; [by rewrite str_app_assoc|]. apply single_line_app; [by_evaluation|].
    unfold PlainMessage. destruct (Local_ e || _); [done|]. cbv zeta.
    set (m1 := if bool_decide (details_text _ = "") then _ else _).
    assert (single_line m1) as H1.
    { unfold m1. case_bool_decide; [done|]. apply single_line_app; [done|].
      apply single_line_app; [by_evaluation|done]. }
    set (m2 := if bool_decide (stringList _ = []) then m1 else _).
    assert (single_line m2) as H2.
    { unfold m2. case_bool_decide; [done|]. apply single_line_app; [done|].
      apply single_line_app; [by_evaluation|]. apply single_line_app; [|by_evaluation].
      by apply single_line_Join; [by_evaluation|]. }
    case_bool_decide; [done|].
    set (m3 := if bool_decide (Details e = ∅) then m2 else _).
    assert (single_line m3) as H3.
    { unfold m3. case_bool_decide; [done|]. apply single_line_app; [done|].
      apply single_line_app; [by_evaluation|done]. }
    case_bool_decide; repeat (apply single_line_app; [by_evaluation || done|]); done.
Qed.

(** ** The grid of names *)

Lemma grid_chunks fuel perRow cell names :
  1 ≤ perRow → length names ≤ fuel →
  ∃ chunks, concat chunks = names ∧ Forall (λ c, c ≠ [] ∧ length c ≤ perRow) chunks ∧
    grid fuel perRow cell names =
      (λ c, trim_right (foldr (λ name row, name +:+ spaces (cell - String.length name) +:+ row) "" c))
      <$> chunks.
Proof.
  intros Hp. revert names. induction fuel as [|fuel IH]; intros names Hf.
  { destruct names; [|simpl in Hf; lia]. by exists []. }
  destruct names as [|n names]; [by exists []|].
  destruct (IH (drop perRow (n :: names))) as (chunks & Hc & Hl & Hg).
  { rewrite length_drop. simpl in *. lia. }
  exists (take perRow (n :: names) :: chunks). split; [|split].
  - cbn [concat]. by rewrite Hc, take_drop.
  - constructor; [|done]. split; [destruct perRow; [lia|done]|]. rewrite length_take. lia.
  - cbn [grid]. rewrite Hg. done.
Qed.

Lemma length_bytes_of s : length (bytes_of s) = String.length s.
Proof. induction s as [|c s IH]; [done|]. simpl. by rewrite <-IH. Qed.

Lemma length_str_app a b : String.length (a +:+ b) = String.length a + String.length b.
Proof. by rewrite <-!length_bytes_of, bytes_of_app, length_app. Qed.

Lemma length_spaces n : String.length (spaces n) = n.
Proof. induction n; [done|]. cbn [spaces String.length]. by f_equal. Qed.

Lemma trim_right_length s : String.length (trim_right s) ≤ String.length s.
Proof.
  unfold trim_right. rewrite <-!length_bytes_of, bytes_of_of, length_rev.
  rewrite <-(length_rev (bytes_of s)). induction (rev (bytes_of s)) as [|c l IH]; [done|].
  case_bool_decide; simpl; [lia|done].
Qed.

Lemma cells_length cell chunk :
  Forall (λ n, String.length n ≤ cell) chunk →
  String.length (foldr (λ name row, name +:+ spaces (cell - String.length name) +:+ row) "" chunk)
  = cell * length chunk.
Proof.
  induction 1 as [|n chunk Hn _ IH]; [simpl; lia|]. cbn [foldr length].
  rewrite !length_str_app, length_spaces, IH. lia.
Qed.

(** The grid shows every name once, in the order of the list, at least one a
    row; when a cell fits the terminal, no row runs over it. *)
Theorem columns_fit names width :
  ∃ chunks, concat chunks = names ∧ Forall (λ c, c ≠ []) chunks ∧
    columns names width =
      (λ c, trim_right (foldr (λ name row,
              name +:+ spaces (cell_width names - String.length name) +:+ row) "" c)) <$> chunks ∧
    ((Z.of_nat (cell_width names) + 6 <= width)%Z →
     Forall (λ row, (Z.of_nat (String.length (entryIndent +:+ row)) <= width)%Z)
            (columns names width)).
Proof.
  assert (1 ≤ per_row names width) as Hp by (unfold per_row; lia).
  destruct (grid_chunks (length names) (per_row names width) (cell_width names) names Hp)
    as (chunks & Hc & Hl & Hg); [done|].
  exists chunks. split; [done|]. split.
  { eapply Forall_impl; [exact Hl|]. by intros c [? _]. }
  split; [exact Hg|]. intros Hfit. unfold columns. rewrite Hg, Forall_fmap.
  rewrite Forall_forall in Hl |- *. intros c Hin. destruct (Hl c Hin) as [_ Hlen]. unfold compose.
  rewrite length_str_app.
  assert (String.length entryIndent = 6) as -> by done.
  assert (Forall (λ n, String.length n ≤ cell_width names) c) as Hcells.
  { rewrite Forall_forall. intros n Hn. unfold cell_width.
    assert (String.length n ≤ max_list (String.length <$> names)); [|lia].
    apply max_list_elem_of_le, list_elem_of_fmap_2. rewrite <-Hc.
    apply list_elem_of_In, in_concat. exists c. split; by apply list_elem_of_In. }
  pose proof (trim_right_length (foldr (λ name row,
    name +:+ spaces (cell_width names - String.length name) +:+ row) "" c)) as Ht.
  rewrite (cells_length _ _ Hcells) in Ht.
  assert (Z.of_nat (cell_width names * per_row names width) <= width - 6)%Z.
  2: { pose proof (Nat.mul_le_mono_l _ _ (cell_width names) Hlen). lia. }
  unfold per_row. change (Z.of_nat (String.length entryIndent)) with 6%Z.
  set (cw := Z.of_nat (cell_width names)) in *.
  assert (0 < cw)%Z by (unfold cw, cell_width; lia).
  rewrite Z.quot_div_nonneg by lia. pose proof (Z.mul_div_le (width - 6) cw ltac:(lia)).
  pose proof (Z.div_le_lower_bound (width - 6) cw 1 ltac:(lia) ltac:(lia)).
  rewrite Nat2Z.inj_mul, Z2Nat.id by lia. fold cw. rewrite Z.max_r by done. done.
Qed.

(** ** Examples *)

Definition sample_error : Error :=
  mkError "domain" "op/not-found" "Operation not found: lst"
    (<["available" := JArray [JString "list"; JString "add"]]> (<["token" := JString "lst"]> ∅))
    ["lst"] false.

Lemma suggest_sound_witness : ∃ word, suggest id sample_error ["list"; "add"] = rank id word ["list"; "add"].
Proof.
  destruct (suggest_sound id sample_error ["list"; "add"]) as [(word & _ & H & _) _];
    [vm_compute; discriminate|].
  by exists word.
Defined.

Lemma machine_modes_one_line_witness :
  ∃ text, Render id (mkEnv "" "" "") sample_error JSON = text +:+ newline ∧ single_line text.
Proof.
  refine (proj1 (machine_modes_one_line id (mkEnv "" "" "") sample_error _)).
  apply map_Forall_insert_2; [|apply map_Forall_insert_2; [|apply map_Forall_empty]].
  - constructor. repeat constructor.
  - constructor.
Defined.
