(* ===== verification/Config.v ===== *)
(** Workspaces and their configuration (src/cli/internal/config): the world of a
    workspace, the two layers of its client config, the commands that rewrite
    them, workspace markers and product versions. What a file holds is kept as
    the JSON document its text decodes to; the working directory, the
    environment, symbolic links and Git are parameters. *)

From S2P Require Export JsonText Paths.

(** ** Data *)

Definition ConfigFileName : string := "config.json".
Definition LocalConfigFileName : string := "config.local.json".
Definition DefaultDBFileName : string := "millstrand.sqlite".
Definition DefaultWorkspace : string := ".millstrand".
Definition WorkspaceAlias : string := ".ms".
Definition LegacyWorkspace : string := ".skein".
Definition MillMetadataFileName : string := "mill.json".
Definition MillSocketFileName : string := "mill.sock".
Definition temporaryRuntimeDirPrefix : string := "temp-".

Record World := mkWorld {
  w_ConfigDir : string;
  w_StateDir : string;
  w_DataDir : string;
  w_ConfigFile : string;
  w_DBPath : string;
}.

#[global] Instance World_eq_dec : EqDecision World.
Proof. solve_decision. Defined.

Record UnknownKeyWarning := mkWarning { uw_File : string; uw_Keys : list string }.

#[global] Instance UnknownKeyWarning_eq_dec : EqDecision UnknownKeyWarning.
Proof. solve_decision. Defined.

Record Config := mkConfig {
  ConfigFormat : string;
  Name : string;
  AutoStart : bool;
  JVMPool : option string;
  Warnings : list UnknownKeyWarning;
}.

#[global] Instance Config_eq_dec : EqDecision Config.
Proof. solve_decision. Defined.

(** A file that is there: one that cannot be read, or its document, [None] when its
    text is not one JSON value. *)
Inductive held := Unreadable | Holds (d : option doc).

Notation files := (gmap string held).

(** What [os.Lstat] says of a path. *)
Inductive marker := MAbsent | MDirectory | MOther | MError.

#[global] Instance marker_eq_dec : EqDecision marker.
Proof. solve_decision. Defined.

Inductive workspace_error :=
| LegacyMarker (path : string)
| NotADirectory (path : string)
| ConflictingMarkers (first second : string)
| LstatFailed (path : string)
| GitFailed (reason : string).

Inductive config_error :=
| MissingConfig (path : string)
| ReadFailed (path : string)
| MalformedConfig (path : string)
| NotAnObject (path : string)
| BadSetting (label : string)
| FormatRequired
| UnsupportedFormat (format : string)
| LocalFormat
| WorldError (reason : string)
| SelectionError (e : workspace_error)
| WriteFailed (path : string)
(** An assignment to a nil map, for which Go panics. *)
| Panic.

(** ** Settings *)

Definition parseConfigName (label : string) (raw : doc) : result config_error string :=
  match into_string raw with
  | Some name => if is_blank name then Err (BadSetting label) else Ok name
  | None => Err (BadSetting label)
  end.

Definition parseAutoStart (label : string) (raw : doc) : result config_error bool :=
  match raw with
  | DNull => Err (BadSetting label)
  | _ => match into_bool raw with Some b => Ok b | None => Err (BadSetting label) end
  end.

Definition parseJVMPool (label : string) (raw : doc) : result config_error (option string) :=
  match raw with
  | DNull => Ok None
  | _ => match into_string raw with
         | Some pool => if is_blank pool then Err (BadSetting label) else Ok (Some pool)
         | None => Err (BadSetting label)
         end
  end.

Definition unknownKeyWarnings (file : string) (raw : gmap string doc) (known : list string) :
    list UnknownKeyWarning :=
  match sort_strings (filter (λ key, key ∉ known) (map_to_list raw).*1) with
  | [] => []
  | unknown => [mkWarning file unknown]
  end.

(** [if v, ok := raw[key]; ok { parse and assign }] *)
Definition setting {A} (raw : gmap string doc) (key : string)
    (parse : doc → result config_error A) (assign : A → Config → Config) (c : Config) :
    result config_error Config :=
  match raw !! key with
  | Some v => x ← parse v; Ok (assign x c)
  | None => Ok c
  end.

Definition set_Name (name : string) (c : Config) : Config :=
  mkConfig (ConfigFormat c) name (AutoStart c) (JVMPool c) (Warnings c).
Definition set_AutoStart (b : bool) (c : Config) : Config :=
  mkConfig (ConfigFormat c) (Name c) b (JVMPool c) (Warnings c).
Definition set_JVMPool (pool : option string) (c : Config) : Config :=
  mkConfig (ConfigFormat c) (Name c) (AutoStart c) pool (Warnings c).
Definition add_warnings (ws : list UnknownKeyWarning) (c : Config) : Config :=
  mkConfig (ConfigFormat c) (Name c) (AutoStart c) (JVMPool c) (Warnings c ++ ws).

(** The three settings that both layers have, in the order they are read. *)
Definition settings (prefix : string) (raw : gmap string doc) (c : Config) :
    result config_error Config :=
  c ← setting raw "name" (parseConfigName (prefix +:+ "client config name")) set_Name c;
  c ← setting raw "autoStart" (parseAutoStart (prefix +:+ "client config autoStart")) set_AutoStart c;
  setting raw "JVMPool" (parseJVMPool (prefix +:+ "client config JVMPool")) set_JVMPool c.

Definition applyLocalOverlay (fs : files) (c : Config) (path : string) : result config_error Config :=
  match fs !! path with
  | None => Ok c
  | Some Unreadable => Err (ReadFailed path)
  | Some (Holds d) =>
      match d with
      | Some DNull => Err (NotAnObject path)
      | Some (DObject l) =>
          let raw := members l in
          ensure (negb (bool_decide (is_Some (raw !! "configFormat")))) LocalFormat ;;
          settings "local " raw
            (add_warnings (unknownKeyWarnings path raw ["name"; "autoStart"; "JVMPool"]) c)
      | _ => Err (MalformedConfig path)
      end
  end.

Definition loadBase (fs : files) (path : string) : result config_error Config :=
  match fs !! path with
  | None => Err (MissingConfig path)
  | Some Unreadable => Err (ReadFailed path)
  | Some (Holds d) =>
      match d ≫= as_frame with
      | None => Err (MalformedConfig path)
      | Some raw =>
          match raw !! "configFormat" with
          | None => Err FormatRequired
          | Some v =>
              match into_string v with
              | None => Err (BadSetting "client config configFormat")
              | Some format =>
                  ensure (bool_decide (format = "alpha")) (UnsupportedFormat format) ;;
                  settings "" raw
                    (mkConfig format "" false None
                       (unknownKeyWarnings path raw ["configFormat"; "name"; "autoStart"; "JVMPool"]))
              end
          end
      end
  end.

(** ** Rewriting a config file *)

(** A step of the replacement that fails, or none. *)
Inductive write_step := CreateTemp | Chmod | WriteTemp | Sync | Close | Rename.

Definition replace (fs : files) (path : string) (d : doc) (failing : option write_step) :
    files * result config_error unit :=
  match failing with
  | Some _ => (fs, Err (WriteFailed path))
  | None => (<[path := Holds (Some d)]> fs, Ok tt)
  end.

(** The document of a map, as [MarshalIndent] writes it: its members by key. *)
Definition marshal_members (raw : gmap string doc) : doc :=
  DObject (sort_stable (λ a b, str_ltb a.1 b.1) (map_to_list raw)).

(** A string as [json.Marshal] writes it: an invalid byte becomes U+FFFD. *)
Definition marshal_string (s : string) : doc := DString (of_bytes (concat (runes s))).

Definition SetLocalJVMPool (fs : files) (configDir pool : string) (failing : option write_step) :
    files * result config_error unit :=
  let path := PathJoin [configDir; LocalConfigFileName] in
  if is_blank pool then (fs, Err (BadSetting "local client config JVMPool"))
  else
    let raw :=
      match fs !! path with
      | None => Ok ∅
      | Some Unreadable => Err (ReadFailed path)
      | Some (Holds (Some (DObject l))) => Ok (members l)
      | Some (Holds (Some DNull)) => Err (NotAnObject path)
      | Some (Holds _) => Err (MalformedConfig path)
      end in
    match raw with
    | Err e => (fs, Err e)
    | Ok raw =>
        replace fs path (marshal_members (<["JVMPool" := marshal_string pool]> raw)) failing
    end.

Definition SetAutoStart (fs : files) (configDir : string) (enabled : bool)
    (failing : option write_step) : files * result config_error unit :=
  let path := PathJoin [configDir; ConfigFileName] in
  match fs !! path with
  | None | Some Unreadable => (fs, Err (ReadFailed path))
  | Some (Holds (Some (DObject l))) =>
      replace fs path (marshal_members (<["autoStart" := DBool enabled]> (members l))) failing
  | Some (Holds (Some DNull)) => (fs, Err Panic)
  | Some (Holds _) => (fs, Err (MalformedConfig path))
  end.

(** ** Worlds *)

Section worlds.
(** [os.Getwd], the variables [XDG_STATE_HOME] and [HOME], and
    [filepath.EvalSymlinks]. *)
Context (getwd : option string) (xdg_state_home : string) (home : option string).
Context (eval_symlinks : string → option string).
(** The first 32 hex digits of the SHA-256 of a text. *)
Context (WorldHash : string → string).

Definition StateRoot : result config_error string :=
  base ← (if bool_decide (xdg_state_home = "")
          then match home with
               | Some home => Ok (PathJoin [home; ".local"; "state"])
               | None => Err (WorldError "home")
               end
          else Ok xdg_state_home);
  ensure (IsAbs base) (WorldError "XDG_STATE_HOME must be an absolute path") ;;
  Ok (PathJoin [Clean base; "millstrand"]).

(** [filepath.Abs]. *)
Definition Abs (p : string) : option string :=
  if IsAbs p then Some (Clean p) else wd ← getwd; Some (PathJoin [wd; p]).

Definition CanonicalConfigIdentity (configDir : string) : result config_error string :=
  ensure (negb (bool_decide (configDir = ""))) (WorldError "config dir is required") ;;
  match Abs configDir with
  | None => Err (WorldError "getwd")
  | Some abs => Ok (Clean (default abs (eval_symlinks abs)))
  end.

Definition markerNeutralIdentity (identity : string) : string :=
  let base := Base identity in
  if bool_decide (base = WorkspaceAlias) || bool_decide (base = DefaultWorkspace)
  then PathJoin [Dir identity; DefaultWorkspace]
  else identity.

Definition CanonicalWorldIdentity (configDir : string) : result config_error string :=
  identity ← CanonicalConfigIdentity configDir; Ok (markerNeutralIdentity identity).

Definition world (configDir stateDir dataDir : string) : World :=
  mkWorld configDir stateDir dataDir (PathJoin [configDir; ConfigFileName])
    (PathJoin [dataDir; DefaultDBFileName]).

Definition RuntimeWorld (configDir : string) : result config_error World :=
  canonicalConfigDir ← CanonicalConfigIdentity configDir;
  let identity := markerNeutralIdentity canonicalConfigDir in
  root ← StateRoot;
  let runtimeDir := PathJoin [root; "weavers"; WorldHash identity] in
  Ok (world canonicalConfigDir runtimeDir (PathJoin [runtimeDir; "data"])).

(** [minted] is the suffix [os.MkdirTemp] adds; [None] when a directory cannot be made. *)
Definition TemporaryRuntimeWorld (configDir : string) (minted : option string) :
    result config_error World :=
  canonicalConfigDir ← CanonicalConfigIdentity configDir;
  root ← StateRoot;
  match minted with
  | None => Err (WorldError "mkdir")
  | Some suffix =>
      let runtimeDir := PathJoin [root; "weavers"; temporaryRuntimeDirPrefix +:+ suffix] in
      Ok (world canonicalConfigDir runtimeDir (PathJoin [runtimeDir; "data"]))
  end.

Definition IsTemporaryRuntimeDir (stateDir : string) : bool :=
  match StateRoot with
  | Err _ => false
  | Ok root =>
      bool_decide (Dir (Clean stateDir) = PathJoin [root; "weavers"])
      && HasPrefix (Base stateDir) temporaryRuntimeDirPrefix
  end.

Definition MillMetadataPath : result config_error string :=
  root ← StateRoot; Ok (PathJoin [root; MillMetadataFileName]).


(** *** Workspace markers and selection *)

(** What [git] prints for a query from a directory. *)
Inductive git_query := CommonDir | TopLevel.

Section selection.
Context (lstat : string → marker) (git : git_query → string → option string).

(** The loop over the three names; the paths found so far come first. *)
Fixpoint find_markers (root : string) (names found : list string) :
    result workspace_error (list string) :=
  match names with
  | [] => Ok found
  | name :: names =>
      let path := PathJoin [root; name] in
      match lstat path with
      | MAbsent => find_markers root names found
      | MError => Err (LstatFailed path)
      | k =>
          if bool_decide (name = LegacyWorkspace) then Err (LegacyMarker path)
          else if bool_decide (k = MDirectory) then find_markers root names (found ++ [path])
          else Err (NotADirectory path)
      end
  end.

Definition repoWorkspace (root : string) : result workspace_error string :=
  found ← find_markers root [DefaultWorkspace; WorkspaceAlias; LegacyWorkspace] [];
  match found with
  | first :: second :: _ => Err (ConflictingMarkers first second)
  | [path] => Ok path
  | [] => Ok (PathJoin [root; DefaultWorkspace])
  end.

Definition or_getwd (cwd : string) : result workspace_error string :=
  if bool_decide (cwd = "")
  then match getwd with Some wd => Ok wd | None => Err (GitFailed "getwd") end
  else Ok cwd.

Definition GitRoot (cwd : string) : result workspace_error string :=
  cwd ← or_getwd cwd;
  match git CommonDir cwd with
  | None => Err (GitFailed "default Millstrand workspace requires a Git worktree")
  | Some out =>
      let commonDir := Clean (TrimSpace out) in
      ensure (IsAbs commonDir) (GitFailed "non-absolute common dir") ;;
      ensure (bool_decide (Base commonDir = ".git")) (GitFailed "unsupported Git layout") ;;
      Ok (Dir commonDir)
  end.

Definition DeriveGitContext (cwd : string) : result workspace_error (string * string) :=
  cwd ← or_getwd cwd;
  match git TopLevel cwd, git CommonDir cwd with
  | Some top, Some common =>
      let worktreeRoot := Clean (TrimSpace top) in
      let gitCommonDir := Clean (TrimSpace common) in
      ensure (IsAbs worktreeRoot && IsAbs gitCommonDir) (GitFailed "non-absolute paths") ;;
      Ok (worktreeRoot, gitCommonDir)
  | _, _ => Err (GitFailed "git context derivation")
  end.

Definition in_world {A} (r : result workspace_error A) : result config_error A :=
  match r with Ok a => Ok a | Err e => Err (SelectionError e) end.

Definition SelectedWorld (configDir : string) : result config_error World :=
  if bool_decide (configDir = "") then
    root ← in_world (GitRoot "");
    configDir ← in_world (repoWorkspace root);
    RuntimeWorld configDir
  else RuntimeWorld configDir.

Definition Load (fs : files) (configDir : string) : result config_error (Config * World) :=
  w ← SelectedWorld configDir;
  c ← loadBase fs (w_ConfigFile w);
  c ← applyLocalOverlay fs c (PathJoin [w_ConfigDir w; LocalConfigFileName]);
  Ok (c, w).

(** *** Bootstrapping a workspace *)

Definition BootstrapTargetWorld (cwd configDir : string) : result config_error World :=
  if bool_decide (configDir = "") then
    root ← in_world (GitRoot cwd);
    configDir ← in_world (repoWorkspace root);
    RuntimeWorld configDir
  else
    configDir ← (if IsAbs configDir then Ok configDir
                 else
                   cwd ← in_world (or_getwd cwd);
                   Ok (PathJoin [default cwd (eval_symlinks cwd); configDir]));
    ensure (negb (bool_decide (Base (Clean configDir) = LegacyWorkspace)))
      (SelectionError (LegacyMarker configDir)) ;;
    RuntimeWorld configDir.

(** Whether a directory can be made, a path examined, a new file written. *)
Context (can_mkdir can_stat can_write : string → bool).

(** A file of the bootstrap, unless the path is taken. *)
Definition write_missing (path : string) (content : option doc) : ST files config_error unit := λ fs,
  match fs !! path with
  | Some _ => (fs, ensure (can_stat path) (ReadFailed path))
  | None =>
      if can_stat path then
        if can_write path then (<[path := Holds content]> fs, Ok tt)
        else (fs, Err (WriteFailed path))
      else (fs, Err (ReadFailed path))
  end.

(** The config that a new workspace starts with. *)
Definition initial_config : doc := DObject [("configFormat", DString "alpha")].

(** The templates, which are no JSON. *)
Definition templates (configDir : string) : list string :=
  [PathJoin [configDir; "deps.edn"]; PathJoin [configDir; "init.clj"];
   PathJoin [configDir; "me"; "help.clj"]; PathJoin [configDir; ".gitignore"]].

Fixpoint write_templates (paths : list string) : ST files config_error unit :=
  match paths with
  | [] => mret tt
  | path :: paths => write_missing path None ;; write_templates paths
  end.

Definition BootstrapWorld (cwd configDir : string) : ST files config_error World :=
  world ← st_lift (BootstrapTargetWorld cwd configDir);
  st_lift (ensure (can_mkdir (PathJoin [w_ConfigDir world; "me"])) (WriteFailed "me")) ;;
  write_missing (w_ConfigFile world) (Some initial_config) ;;
  write_templates (templates (w_ConfigDir world)) ;;
  fs ← st_get;
  st_lift (Load fs (w_ConfigDir world)) ;;
  mret world.
End selection.
End worlds.

(** ** Sources and product versions *)

(** What [os.Stat] says of a path: whether it is a directory or a regular file. *)
Inductive stat_info := StatDir | StatRegular | StatOther.

#[global] Instance stat_info_eq_dec : EqDecision stat_info.
Proof. solve_decision. Defined.

Inductive source_error :=
| SourceRequired
| NoHome
| NotAbsolute (label path : string)
| NoDirectory (label path : string)
| NoDeps (label path : string)
| NoVersionFile (path : string)
| VersionNotRegular (path : string)
| VersionUnreadable (path : string)
| VersionMalformed (path : string)
| VersionInvalid (expected : string).

Section sources.
Context (home : option string) (stat : string → option stat_info) (read : string → option string).

Definition ValidateSource (label source : string) : result source_error string :=
  resolved ← (if bool_decide (source = "~") || HasPrefix source "~/"
              then match home with
                   | None => Err NoHome
                   | Some home =>
                       Ok (if bool_decide (source = "~") then home
                           else PathJoin [home; of_bytes (drop 2 (bytes_of source))])
                   end
              else Ok source);
  ensure (IsAbs resolved) (NotAbsolute label resolved) ;;
  ensure (bool_decide (stat resolved = Some StatDir)) (NoDirectory label resolved) ;;
  ensure (match stat (PathJoin [resolved; "deps.edn"]) with
          | Some k => negb (bool_decide (k = StatDir))
          | None => false
          end) (NoDeps label resolved) ;;
  Ok resolved.

Definition ResolveSource (source : string) : result source_error string :=
  ensure (negb (bool_decide (source = ""))) SourceRequired ;;
  ValidateSource "client config source" source.

(** A numeral of [releaseVersionPattern]: zero, or digits that do not start with one. *)
Definition canonical_numeral (w : list ascii) : bool :=
  match w with
  | [] => false
  | [c] => is_digit c
  | c :: _ => forallb is_digit w && negb (bool_decide (c = "0"%char))
  end.

Definition ValidVersion (value : string) : bool :=
  match split_bytes "."%char (bytes_of value) with
  | [a; b; c] => canonical_numeral a && canonical_numeral b && canonical_numeral c
  | _ => false
  end.

Definition SourceVersion (source : string) : result source_error string :=
  let path := PathJoin [source; "VERSION"] in
  match stat path with
  | None => Err (NoVersionFile path)
  | Some k =>
      ensure (bool_decide (k = StatRegular)) (VersionNotRegular path) ;;
      match read path with
      | None => Err (VersionUnreadable path)
      | Some content =>
          match reverse (bytes_of content) with
          | c :: version =>
              ensure (bool_decide (c = newline_byte) && ValidVersion (of_bytes (reverse version)))
                (VersionMalformed path) ;;
              Ok (of_bytes (reverse version))
          | [] => Err (VersionMalformed path)
          end
      end
  end.

Definition ValidateSourceVersion (source expected : string) : result source_error string :=
  version ← SourceVersion source;
  if bool_decide (expected = "dev") then Ok version
  else ensure (ValidVersion expected) (VersionInvalid expected) ;; Ok version.
End sources.

(** ** The two layers of a client config *)

(** What one layer sets; [None] leaves a setting to the layer below. *)
Record layer := mkLayer {
  l_name : option string;
  l_auto : option bool;
  l_pool : option (option string);
}.

Definition no_layer : layer := mkLayer None None None.

(** The members of a layer set these, and are well formed. *)
Definition declares (raw : gmap string doc) (l : layer) : Prop :=
  raw !! "name" = DString <$> l_name l ∧ (∀ s, l_name l = Some s → is_blank s = false) ∧
  raw !! "autoStart" = DBool <$> l_auto l ∧
  raw !! "JVMPool" = (λ pool, match pool with Some s => DString s | None => DNull end) <$> l_pool l ∧
  (∀ s, l_pool l = Some (Some s) → is_blank s = false).

Definition over (l : layer) (c : Config) : Config :=
  mkConfig (ConfigFormat c) (default (Name c) (l_name l)) (default (AutoStart c) (l_auto l))
    (default (JVMPool c) (l_pool l)) (Warnings c).

Lemma parseConfigName_ok label raw s :
  parseConfigName label raw = Ok s ↔ raw = DString s ∧ is_blank s = false.
Proof.
  unfold parseConfigName. destruct raw; simpl; try (split; [done|by intros [? _]]).
  destruct (is_blank s0) eqn:E; naive_solver congruence.
Qed.

Lemma parseAutoStart_ok label raw b : parseAutoStart label raw = Ok b ↔ raw = DBool b.
Proof. destruct raw; simpl; naive_solver. Qed.

Lemma parseJVMPool_ok label raw pool :
  parseJVMPool label raw = Ok pool ↔
  raw = match pool with Some s => DString s | None => DNull end ∧
  (∀ s, pool = Some s → is_blank s = false).
Proof.
  destruct raw; simpl; try (split; [done|by intros [? _]; destruct pool]).
  - split; [by intros [= <-]|]. intros [H _]. by destruct pool.
  - destruct (is_blank s) eqn:E.
    + split; [done|]. intros [H Hp]. destruct pool; simplify_eq.
      rewrite (Hp _ eq_refl) in E. done.
    + split; [intros [= <-]; split; [done|congruence]|]. intros [H _]. by destruct pool; simplify_eq.
Qed.

Lemma setting_ok {A} raw key (parse : doc → result config_error A) assign c c' :
  setting raw key parse assign c = Ok c' ↔
  (raw !! key = None ∧ c' = c) ∨
  ∃ v x, raw !! key = Some v ∧ parse v = Ok x ∧ c' = assign x c.
Proof.
  unfold setting. destruct (raw !! key) as [v|].
  - rewrite result_bind_ok. split.
    + intros (x & Hx & [= <-]). right. eauto.
    + intros [[? _]|(v' & x & [= <-] & Hx & ->)]; [done|]. eauto.
  - split; [intros [= <-]; by left|]. by intros [[_ ->]|(v & x & ? & _)].
Qed.

(** Reading the settings of a layer puts what it declares over the config. *)
Lemma settings_ok prefix raw c c' :
  settings prefix raw c = Ok c' ↔ ∃ l, declares raw l ∧ c' = over l c.
Proof.
  unfold settings. rewrite result_bind_ok. setoid_rewrite result_bind_ok.
  setoid_rewrite setting_ok. setoid_rewrite parseConfigName_ok. setoid_rewrite parseAutoStart_ok.
  setoid_rewrite parseJVMPool_ok. split.
  - intros (c1 & H1 & c2 & H2 & H3).
    assert (∃ n, raw !! "name" = DString <$> n ∧ (∀ s, n = Some s → is_blank s = false) ∧
      c1 = match n with Some n => set_Name n c | None => c end) as (n & Hn & Hnb & ->).
    { destruct H1 as [[H ->]|(v & x & H & [-> Hb] & ->)]; [by exists None|].
      exists (Some x). split_and!; [done|by intros s [= <-]|done]. }
    assert (∃ b, raw !! "autoStart" = DBool <$> b ∧
      c2 = match b with Some b => set_AutoStart b (match n with Some n => set_Name n c | None => c end)
           | None => match n with Some n => set_Name n c | None => c end end) as (b & Hb & ->).
    { destruct H2 as [[H ->]|(v & x & H & -> & ->)]; [by exists None|]. by exists (Some x). }
    assert (∃ p, raw !! "JVMPool" =
        (λ pool, match pool with Some s => DString s | None => DNull end) <$> p ∧
      (∀ s, p = Some (Some s) → is_blank s = false) ∧ c' = over (mkLayer n b p) c) as (p & Hp & Hpb & ->).
    { destruct H3 as [[H ->]|(v & x & H & [-> Hpb] & ->)].
      - exists None. split_and!; [done|done|]. by destruct c, n, b.
      - exists (Some x). split_and!; [done|by intros s [= ->]; auto|]. by destruct c, n, b. }
    exists (mkLayer n b p). done.
  - intros ([n b p] & (Hn & Hnb & Hb & Hp & Hpb) & ->). simpl in *.
    exists (match n with Some n => set_Name n c | None => c end). split.
    { destruct n as [n|]; [right|by left]. exists (DString n), n. auto. }
    exists (mkConfig (ConfigFormat c) (default (Name c) n) (default (AutoStart c) b) (JVMPool c) (Warnings c)).
    split.
    { destruct b as [b|]; [right; exists (DBool b), b|left]; (split_and!; [done..|by destruct c, n] || (split; [done|by destruct c, n])). }
    destruct p as [p|]; [right|left; split; [done|by destruct c]].
    exists (match p with Some s => DString s | None => DNull end), p.
    split_and!; [done|done| |done]. intros s ->. auto.
Qed.

(** The local layer: nothing when the file is missing. *)
Definition local_layer (fs : files) (path : string) (l : layer) (ws : list UnknownKeyWarning) : Prop :=
  (fs !! path = None ∧ l = no_layer ∧ ws = []) ∨
  ∃ ms, fs !! path = Some (Holds (Some (DObject ms))) ∧ members ms !! "configFormat" = None ∧
    declares (members ms) l ∧
    ws = unknownKeyWarnings path (members ms) ["name"; "autoStart"; "JVMPool"].

Lemma applyLocalOverlay_ok fs c path c' :
  applyLocalOverlay fs c path = Ok c' ↔
  ∃ l ws, local_layer fs path l ws ∧ c' = over l (add_warnings ws c).
Proof.
  unfold applyLocalOverlay, local_layer. destruct (fs !! path) as [[|d]|].
  - split; [done|]. by intros (? & ? & [(? & _)|(? & ? & _)] & _).
  - destruct d as [d|]; [|split; [done|]; by intros (? & ? & [(? & _)|(? & ? & _)] & _)].
    destruct d as [| | | | |ms]; try (split; [done|]; by intros (? & ? & [(? & _)|(? & ? & _)] & _)).
    cbv zeta. rewrite result_bind_ok. setoid_rewrite settings_ok. split.
    + intros ([] & He%ensure_ok & l & Hl & ->). bools. exists l. eexists. split; [|done].
      right. exists ms. split_and!; try done. by apply eq_None_not_Some.
    + intros (l & ws & [(? & _)|(ms' & [= <-] & Hf & Hl & ->)] & ->); [done|].
      exists tt. split; [|by exists l]. apply ensure_ok. rewrite Hf. done.
  - split.
    + intros [= <-]. exists no_layer, []. split; [by left|]. destruct c. unfold over, add_warnings. simpl.
      by rewrite app_nil_r.
    + intros (l & ws & [(_ & -> & ->)|(ms & ? & _)] & ->); [|done]. f_equal. destruct c.
      unfold over, add_warnings. simpl. by rewrite app_nil_r.
Qed.

(** The base layer: an object of the supported format. *)
Definition base_layer (fs : files) (path : string) (l : layer) (ws : list UnknownKeyWarning) : Prop :=
  ∃ ms, fs !! path = Some (Holds (Some (DObject ms))) ∧
    members ms !! "configFormat" = Some (DString "alpha") ∧ declares (members ms) l ∧
    ws = unknownKeyWarnings path (members ms) ["configFormat"; "name"; "autoStart"; "JVMPool"].

Lemma loadBase_ok fs path c :
  loadBase fs path = Ok c ↔
  ∃ l ws, base_layer fs path l ws ∧ c = over l (mkConfig "alpha" "" false None ws).
Proof.
  unfold loadBase, base_layer. destruct (fs !! path) as [[|d]|];
    try (split; [done|]; by intros (? & ? & (? & ? & _) & _)).
  destruct d as [d|]; [|split; [done|]; by intros (? & ? & (? & ? & _) & _)].
  destruct d as [| | | | |ms]; try (split; [done|]; by intros (? & ? & (? & ? & _) & _)).
  cbn [mbind option_bind as_frame].
  destruct (members ms !! "configFormat") as [v|] eqn:Ev.
  2: { split; [done|]. intros (l & ws & (ms' & [= <-] & Hf & _) & _). congruence. }
  destruct (into_string v) as [format|] eqn:Ei.
  2: { split; [done|]. intros (l & ws & (ms' & [= <-] & Hf & _) & _). rewrite Ev in Hf. by simplify_eq. }
  rewrite result_bind_ok. setoid_rewrite settings_ok. split.
  - intros ([] & He%ensure_ok & l & Hl & ->). bools. subst. exists l. eexists. split; [|done].
    exists ms. split_and!; try done. rewrite Ev. by destruct v; simplify_eq/=.
  - intros (l & ws & (ms' & [= <-] & Hf & Hl & ->) & ->). rewrite Ev in Hf. simplify_eq/=.
    exists tt. split; [done|]. by exists l.
Qed.

(** *** Known members do not change the warnings *)

Lemma unknown_insert file raw known k v :
  k ∈ known → unknownKeyWarnings file (<[k := v]> raw) known = unknownKeyWarnings file raw known.
Proof.
  intros Hk. unfold unknownKeyWarnings.
  replace (sort_strings (filter (λ key, key ∉ known) (map_to_list (<[k:=v]> raw)).*1))
    with (sort_strings (filter (λ key, key ∉ known) (map_to_list raw).*1)); [done|].
  apply sort_strings_perm. apply NoDup_Permutation.
  - apply NoDup_filter, NoDup_fst_map_to_list.
  - apply NoDup_filter, NoDup_fst_map_to_list.
  - intros key. rewrite !list_elem_of_filter.
    assert (∀ m : gmap string doc, key ∈ (map_to_list m).*1 ↔ is_Some (m !! key)) as Hin.
    { intros m. rewrite list_elem_of_fmap. split.
      - intros ([k' d] & -> & H%elem_of_map_to_list). by exists d.
      - intros [d Hd]. exists (key, d). split; [done|]. by apply elem_of_map_to_list. }
    rewrite !Hin. split; intros [Hn Hs]; (split; [done|]).
    + by rewrite lookup_insert_ne by (by intros ->).
    + by rewrite lookup_insert_ne in Hs by (by intros ->).
Qed.

Lemma members_marshal raw : ∃ ms, marshal_members raw = DObject ms ∧ members ms = raw.
Proof. eexists. split; [done|]. apply last_wins_perm, sort_stable_perm. Qed.

(** Writing one valid setting changes what a layer declares in that setting only. *)
Lemma declares_pool raw l pool :
  declares raw l → is_blank pool = false →
  declares (<["JVMPool" := DString pool]> raw) (mkLayer (l_name l) (l_auto l) (Some (Some pool))).
Proof.
  intros (H1 & H2 & H3 & H4 & H5) Hp. unfold declares. simpl.
  rewrite lookup_insert_eq, !lookup_insert_ne by done. split_and!; try done. by intros s [= <-].
Qed.

Lemma declares_auto raw l b :
  declares raw l → declares (<["autoStart" := DBool b]> raw) (mkLayer (l_name l) (Some b) (l_pool l)).
Proof.
  intros (H1 & H2 & H3 & H4 & H5). unfold declares. simpl.
  rewrite lookup_insert_eq, !lookup_insert_ne by done. done.
Qed.

Lemma declares_empty pool :
  is_blank pool = false →
  declares {["JVMPool" := DString pool]} (mkLayer None None (Some (Some pool))).
Proof.
  intros Hp. split_and!; [done..|]. simpl. by intros s [= <-].
Qed.

Lemma runes_concat k l :
  valid_from k l = true → concat (runes_from k l) = drop k l.
Proof.
  revert k. induction l as [|c l IH]; intros k; cbn [valid_from runes_from]; [by rewrite drop_nil|].
  destruct k as [|k]; [|apply IH]. destruct (rune_len (c :: l)) as [|n] eqn:E; [done|].
  intros Hv. cbn [concat]. rewrite IH by done. cbn [take drop app]. by rewrite take_drop.
Qed.

(** A valid text is written as it is. *)
Lemma marshal_string_valid s : valid_text s = true → marshal_string s = DString s.
Proof.
  intros Hv. unfold marshal_string, runes. rewrite runes_concat by done.
  by rewrite drop_0, of_bytes_of.
Qed.

(** A literal path element is plain. *)
Ltac plain_element := unfold plain_part, no_slash; split_and!; by_evaluation.

Section loads.
Context (getwd : option string) (xdg_state_home : string) (home : option string).
Context (eval_symlinks : string → option string) (WorldHash : string → string).
Context (lstat : string → marker) (git : git_query → string → option string).

Notation SelectedWorld' := (SelectedWorld getwd xdg_state_home home eval_symlinks WorldHash lstat git).
Notation Load' := (Load getwd xdg_state_home home eval_symlinks WorldHash lstat git).
Notation RuntimeWorld' := (RuntimeWorld getwd xdg_state_home home eval_symlinks WorldHash).

Definition local_path (w : World) : string := PathJoin [w_ConfigDir w; LocalConfigFileName].

Lemma Load_ok fs dir c w :
  Load' fs dir = Ok (c, w) ↔
  SelectedWorld' dir = Ok w ∧
  ∃ b bw l lw,
    base_layer fs (w_ConfigFile w) b bw ∧ local_layer fs (local_path w) l lw ∧
    c = over l (over b (mkConfig "alpha" "" false None (bw ++ lw))).
Proof using.
  unfold Load. rewrite result_bind_ok. setoid_rewrite result_bind_ok.
  setoid_rewrite result_bind_ok. setoid_rewrite loadBase_ok. setoid_rewrite applyLocalOverlay_ok.
  split.
  - intros (w' & Hw & c1 & (b & bw & Hb & ->) & c2 & (l & lw & Hl & ->) & [= <- <-]).
    split; [done|]. exists b, bw, l, lw. done.
  - intros (Hw & b & bw & l & lw & Hb & Hl & ->). exists w. split; [done|]. eexists. split; [eauto|].
    eexists. split; [|reflexivity]. exists l, lw. done.
Qed.

(** What links and the working directory give are absolute paths. *)
Context (Hwd : ∀ wd, getwd = Some wd → IsAbs wd = true).
Context (Heval : ∀ p p', eval_symlinks p = Some p' → IsAbs p' = true).

Lemma CanonicalConfigIdentity_rooted dir d :
  CanonicalConfigIdentity getwd eval_symlinks dir = Ok d →
  ∃ ps, Forall plain_part ps ∧ d = rooted ps.
Proof using Hwd Heval.
  unfold CanonicalConfigIdentity. rewrite result_bind_ok. intros ([] & _ & H).
  destruct (Abs getwd dir) as [abs|] eqn:Ea; [|done]. injection H as <-. apply Clean_rooted.
  destruct (eval_symlinks abs) as [p|] eqn:Ep; [by eapply Heval|]. simpl.
  unfold Abs in Ea. destruct (IsAbs dir) eqn:Ed.
  { injection Ea as <-. by apply Clean_abs. }
  destruct getwd as [wd|]; [|done]. injection Ea as <-. unfold PathJoin.
  assert (IsAbs wd = true) as Hw by by apply Hwd.
  rewrite filter_cons_True by (by intros ->). apply Clean_abs, IsAbs_bytes.
  apply IsAbs_bytes in Hw as [l Hl]. rewrite Join_bytes, fmap_cons, Hl.
  destruct (bytes_of <$> _); simpl; eauto.
Qed.

Lemma RuntimeWorld_shape dir w :
  RuntimeWorld' dir = Ok w →
  ∃ ps root, Forall plain_part ps ∧ StateRoot xdg_state_home home = Ok root ∧
    w = world (rooted ps) (PathJoin [root; "weavers"; WorldHash (markerNeutralIdentity (rooted ps))])
          (PathJoin [PathJoin [root; "weavers"; WorldHash (markerNeutralIdentity (rooted ps))]; "data"]).
Proof using Hwd Heval.
  unfold RuntimeWorld.
  intros (d & (ps & Hps & ->)%CanonicalConfigIdentity_rooted & H)%result_bind_ok.
  apply result_bind_ok in H as (root & Hr & [= <-]).
  by exists ps, root.
Qed.

Lemma SelectedWorld_shape dir w :
  SelectedWorld' dir = Ok w → ∃ dir', RuntimeWorld' dir' = Ok w.
Proof using.
  unfold SelectedWorld. case_bool_decide; [|eauto].
  intros (root & _ & Hr)%result_bind_ok. apply result_bind_ok in Hr as (d & _ & Hd). eauto.
Qed.

(** The two layers of a world are different files. *)
Lemma layers_differ dir w :
  RuntimeWorld' dir = Ok w → w_ConfigFile w ≠ local_path w.
Proof using Hwd Heval.
  intros (ps & root & Hps & _ & ->)%RuntimeWorld_shape. unfold local_path. cbn [w_ConfigFile w_ConfigDir world].
  rewrite !PathJoin_rooted by (plain_list; plain_element).
  intros H%rooted_inj; [|plain_list; plain_element..].
  by apply app_inj_2 in H as [_ [=]].
Qed.

(** [SetLocalJVMPool] rewrites the machine-local layer: on a workspace that loads,
    it succeeds unless a step of the replacement fails, and then the workspace loads
    with that pool and is otherwise unchanged; no other file changes. A failed step
    leaves every file as it was. *)
Theorem SetLocalJVMPool_Load fs dir c w pool failing :
  Load' fs dir = Ok (c, w) → is_blank pool = false → valid_text pool = true →
  let '(fs', r) := SetLocalJVMPool fs (w_ConfigDir w) pool failing in
  (failing = None → r = Ok tt ∧ Load' fs' dir = Ok (set_JVMPool (Some pool) c, w) ∧
     ∀ p, p ≠ local_path w → fs' !! p = fs !! p) ∧
  (failing ≠ None → fs' = fs ∧ is_ok r = false).
Proof using Hwd Heval.
  intros (Hw & b & bw & l & lw & Hb & Hl & ->)%Load_ok Hblank Hvalid.
  destruct (SelectedWorld_shape _ _ Hw) as [dir' Hdir]. pose proof (layers_differ _ _ Hdir) as Hne.
  unfold SetLocalJVMPool. rewrite Hblank. fold (local_path w). cbv zeta.
  rewrite marshal_string_valid by done.
  assert (∃ raw, match fs !! local_path w with
     | None => Ok ∅ | Some Unreadable => Err (ReadFailed (local_path w))
     | Some (Holds (Some (DObject l))) => Ok (members l)
     | Some (Holds (Some DNull)) => Err (NotAnObject (local_path w))
     | Some (Holds _) => Err (MalformedConfig (local_path w)) end = Ok raw ∧
     declares raw l ∧ raw !! "configFormat" = None ∧
     lw = unknownKeyWarnings (local_path w) raw ["name"; "autoStart"; "JVMPool"])
    as (raw & -> & Hraw & Hf & ->).
  { destruct Hl as [(-> & -> & ->)|(ms & -> & ? & ? & ->)]; [|by eauto 6].
    exists ∅. done. }
  destruct failing as [step|]; cbn [replace]; [by split|]. split; [|done]. intros _. split; [done|].
  split; [|intros p Hp; by rewrite lookup_insert_ne].
  apply Load_ok. split; [done|].
  destruct (members_marshal (<["JVMPool" := DString pool]> raw)) as (ms & Hms & Hmem).
  exists b, bw, (mkLayer (l_name l) (l_auto l) (Some (Some pool))).
  exists (unknownKeyWarnings (local_path w) raw ["name"; "autoStart"; "JVMPool"]).
  split_and!; [|right; exists ms|done].
  - destruct Hb as (bs & Hbs & H). exists bs. by rewrite lookup_insert_ne.
  - rewrite lookup_insert_eq, Hms, Hmem. split_and!; [done| | |].
    + by rewrite lookup_insert_ne.
    + by apply declares_pool.
    + symmetry. apply unknown_insert. rewrite !elem_of_cons. auto.
Qed.
End loads.

(** *** Loading *)

(** A workspace loads exactly when its config is an object of the supported
    format with well-formed settings and its local layer is missing or likewise
    well formed and without a format. Each setting is then the local layer's, or
    else the base layer's, or else unset, a null pool of the local layer undoing
    one of the base; the warnings name the other members of both files. *)
Theorem Load_layers getwd xdg_state_home home eval_symlinks WorldHash lstat git fs dir c w :
  Load getwd xdg_state_home home eval_symlinks WorldHash lstat git fs dir = Ok (c, w) ↔
  SelectedWorld getwd xdg_state_home home eval_symlinks WorldHash lstat git dir = Ok w ∧
  ∃ b bw l lw,
    base_layer fs (w_ConfigFile w) b bw ∧ local_layer fs (local_path w) l lw ∧
    ConfigFormat c = "alpha" ∧
    Name c = default (default "" (l_name b)) (l_name l) ∧
    AutoStart c = default (default false (l_auto b)) (l_auto l) ∧
    JVMPool c = default (default None (l_pool b)) (l_pool l) ∧
    Warnings c = bw ++ lw.
Proof.
  rewrite Load_ok. split; intros (Hw & b & bw & l & lw & Hb & Hl & Hc); (split; [done|]);
    exists b, bw, l, lw; split_and!; try done; try (by rewrite Hc).
  destruct Hc as (? & ? & ? & ? & ?), c. simpl in *. by subst.
Qed.

(** ** Runtime directories *)

Lemma last_filter_split (l : list (list ascii)) w :
  last (filter (λ w, w ≠ []) l) = Some w → ∃ pre n, l = pre ++ w :: replicate n [] ∧ w ≠ [].
Proof.
  induction l as [|x l IH] using rev_ind; [done|]. rewrite filter_app.
  destruct (decide (x = [])) as [->|Hx].
  - rewrite filter_cons_False by (intros H; by apply H). rewrite filter_nil, app_nil_r.
    intros (pre & n & -> & Hw)%IH. exists pre, (S n). split; [|done].
    rewrite <-app_assoc. cbn [app]. by rewrite <-replicate_cons_app.
  - rewrite filter_cons_True by done. rewrite filter_nil, last_snoc. intros [= <-].
    exists l, 0. done.
Qed.

Lemma clean_fold_empties n st : foldl (clean_step true) st (replicate n []) = st.
Proof. induction n; [done|]. done. Qed.

(** A last element that names a file is the last element of the clean path. *)
Lemma Base_Clean p w :
  IsAbs p = true → Base p = w → plain_part (bytes_of w) →
  ∃ ps, Forall plain_part ps ∧ Clean p = rooted (ps ++ [bytes_of w]).
Proof.
  intros Habs Hb Hw. apply IsAbs_bytes in Habs as [l Hl]. unfold Base in Hb. rewrite Hl in Hb.
  destruct (last (filter _ (split_bytes slash (slash :: l)))) as [b|] eqn:E.
  2: { subst w. destruct Hw as (_ & _ & _ & Hs). exfalso. apply Hs. by left. }
  apply last_filter_split in E as (pre & n & Es & Hn). subst w. rewrite bytes_of_of in Hw |- *.
  assert (Forall no_slash pre) as Hpre.
  { pose proof (split_bytes_no_slash (slash :: l)) as H. rewrite Es in H.
    by apply Forall_app in H as [? _]. }
  exists (reverse (foldl (clean_step true) [] pre)). split.
  { apply Forall_reverse, clean_fold_keeps; [constructor|done]. }
  unfold Clean. rewrite Hl, clean_bytes_rooted. unfold rooted, clean_parts. rewrite Es.
  rewrite foldl_app. cbn [foldl]. rewrite clean_fold_empties, clean_step_plain by done.
  by rewrite reverse_cons.
Qed.

Section runtime.
Context (getwd : option string) (xdg_state_home : string) (home : option string).
Context (eval_symlinks : string → option string) (WorldHash : string → string).
Context (Hwd : ∀ wd, getwd = Some wd → IsAbs wd = true).
Context (Heval : ∀ p p', eval_symlinks p = Some p' → IsAbs p' = true).

(** A hash is hexadecimal text. *)
Definition hexadecimal (s : string) : Prop :=
  s ≠ "" ∧ Forall (λ c, is_Some (hex_value c)) (bytes_of s).
Context (Hhash : ∀ s, hexadecimal (WorldHash s)).

Lemma hexadecimal_plain s : hexadecimal s → plain_part (bytes_of s).
Proof using.
  intros [Hne Hs].
  assert (∀ c, c ∈ bytes_of s → c ≠ "."%char ∧ c ≠ slash) as Hc.
  { intros c Hin. rewrite Forall_forall in Hs. destruct (Hs c Hin) as [v Hv].
    split; intros ->; discriminate Hv. }
  split_and!.
  - intros H. apply Hne. by rewrite <-(of_bytes_of s), H.
  - intros H. rewrite H in Hc. by destruct (Hc "."%char ltac:(by left)).
  - intros H. rewrite H in Hc. by destruct (Hc "."%char ltac:(by left)).
  - intros H. by destruct (Hc _ H).
Qed.

Lemma StateRoot_rooted root :
  StateRoot xdg_state_home home = Ok root → ∃ rs, Forall plain_part rs ∧ root = rooted rs.
Proof using.
  unfold StateRoot. intros (base & _ & H)%result_bind_ok.
  apply result_bind_ok in H as ([] & Ha%ensure_ok & [= <-]).
  destruct (Clean_rooted base Ha) as (ps & Hps & ->).
  exists (ps ++ [bytes_of "millstrand"]).
  assert (plain_part (bytes_of "millstrand")) as Hm by plain_element.
  rewrite PathJoin_rooted by plain_list. split; [plain_list|done].
Qed.

(** The directories below which the runtimes live. *)
Lemma runtime_dir rs name :
  Forall plain_part rs → plain_part (bytes_of name) →
  PathJoin [rooted rs; "weavers"; name] = rooted ((rs ++ [bytes_of "weavers"]) ++ [bytes_of name]) ∧
  PathJoin [rooted rs; "weavers"] = rooted (rs ++ [bytes_of "weavers"]) ∧
  Forall plain_part (rs ++ [bytes_of "weavers"]).
Proof using.
  intros Hrs Hn. assert (plain_part (bytes_of "weavers")) as Hw by plain_element.
  rewrite !PathJoin_rooted by plain_list. split_and!; [|done|plain_list].
  by rewrite <-app_assoc.
Qed.

Lemma IsTemporary_rooted rs name :
  StateRoot xdg_state_home home = Ok (rooted rs) → Forall plain_part rs → plain_part (bytes_of name) →
  IsTemporaryRuntimeDir xdg_state_home home (PathJoin [rooted rs; "weavers"; name])
  = HasPrefix name temporaryRuntimeDirPrefix.
Proof using.
  intros Hr Hrs Hn. unfold IsTemporaryRuntimeDir. rewrite Hr.
  destruct (runtime_dir rs name Hrs Hn) as (-> & -> & Hws).
  unfold Clean. rewrite bytes_of_rooted, clean_rooted_idem by plain_list.
  fold (rooted ((rs ++ [bytes_of "weavers"]) ++ [bytes_of name])).
  rewrite Dir_rooted, Base_rooted by done. rewrite of_bytes_of, bool_decide_eq_true_2; done.
Qed.

(** [IsTemporaryRuntimeDir], which guards the removal of a runtime directory,
    tells the runtimes apart: the directory of a workspace's runtime is never
    temporary, a minted one always is, and only directories directly below the
    runtimes' own, with the minted prefix, are. *)
Theorem temporary_dirs :
  (∀ dir w, RuntimeWorld getwd xdg_state_home home eval_symlinks WorldHash dir = Ok w →
     IsTemporaryRuntimeDir xdg_state_home home (w_StateDir w) = false) ∧
  (∀ dir suffix w, slash ∉ bytes_of suffix →
     TemporaryRuntimeWorld getwd xdg_state_home home eval_symlinks dir (Some suffix) = Ok w →
     IsTemporaryRuntimeDir xdg_state_home home (w_StateDir w) = true) ∧
  (∀ p, IsAbs p = true → IsTemporaryRuntimeDir xdg_state_home home p = true →
     ∃ root rs name, StateRoot xdg_state_home home = Ok root ∧ root = rooted rs ∧
       Clean p = rooted (rs ++ [bytes_of "weavers"; bytes_of name]) ∧
       HasPrefix name temporaryRuntimeDirPrefix = true).
Proof using Hwd Heval Hhash.
  split_and!.
  - intros dir w H. apply RuntimeWorld_shape in H as (ps & root & Hps & Hr & ->); [|done..].
    destruct (StateRoot_rooted _ Hr) as (rs & Hrs & ->). cbn [w_StateDir world].
    pose proof (Hhash (markerNeutralIdentity (rooted ps))) as Hh.
    rewrite IsTemporary_rooted by (done || by apply hexadecimal_plain).
    destruct Hh as [Hne Hs]. destruct (WorldHash _) as [|c s]; [done|].
    apply Forall_cons in Hs as [[v Hv] _]. unfold HasPrefix, temporaryRuntimeDirPrefix.
    cbn [String.prefix]. destruct (ascii_dec _ _) as [<-|]; [discriminate Hv|done].
  - intros dir suffix w Hs. unfold TemporaryRuntimeWorld.
    intros (d & _ & H)%result_bind_ok. apply result_bind_ok in H as (root & Hr & [= <-]).
    destruct (StateRoot_rooted _ Hr) as (rs & Hrs & ->). cbn [w_StateDir world].
    rewrite IsTemporary_rooted; [|done|done|].
    + unfold HasPrefix, temporaryRuntimeDirPrefix. cbn. by destruct suffix.
    + unfold temporaryRuntimeDirPrefix. rewrite bytes_of_app. split_and!; [done..|].
      unfold no_slash. rewrite elem_of_app. intros [H|H]; [|done]. revert H.
      change (slash ∉ bytes_of "temp-"). by_evaluation.
  - intros p Habs H. unfold IsTemporaryRuntimeDir in H.
    destruct (StateRoot xdg_state_home home) as [root|] eqn:Hr; [|done]. bools.
    destruct (StateRoot_rooted _ Hr) as (rs & Hrs & ->).
    exists (rooted rs), rs, (Base p). split_and!; [done|done| |done].
    assert (plain_part (bytes_of (Base p))) as Hb.
    { match goal with H : HasPrefix _ _ = true |- _ => rename H into Hp end.
      unfold HasPrefix, temporaryRuntimeDirPrefix in Hp. split_and!.
      - by destruct (Base p).
      - intros E. by rewrite <-(of_bytes_of (Base p)), E in Hp.
      - intros E. by rewrite <-(of_bytes_of (Base p)), E in Hp.
      - unfold Base in *. destruct (bytes_of p) as [|c l]; [done|].
        destruct (last _) as [w|] eqn:E; [|done]. rewrite bytes_of_of.
        apply last_filter_split in E as (pre & n & Es & _).
        pose proof (split_bytes_no_slash (c :: l)) as Hns. rewrite Es in Hns.
        apply Forall_app in Hns as [_ Hns]. by apply Forall_cons in Hns as [? _]. }
    destruct (Base_Clean p (Base p) Habs eq_refl Hb) as (ps & Hps & Hc).
    match goal with H : Dir _ = _ |- _ => rename H into Hd end. rewrite Hc in Hd |- *.
    rewrite Dir_rooted in Hd by done.
    destruct (runtime_dir rs (Base p) Hrs Hb) as (_ & Hj & Hws). rewrite Hj in Hd.
    apply rooted_inj in Hd; [|done..]. by rewrite Hd, <-app_assoc.
Qed.
End runtime.

(** ** Workspace markers *)

Definition markers : list string := [WorkspaceAlias; DefaultWorkspace].

Lemma markers_plain m : m ∈ markers → plain_part (bytes_of m).
Proof.
  intros [->|[->|[]%elem_of_nil]%elem_of_cons]%elem_of_cons; plain_element.
Qed.

Lemma markerNeutralIdentity_rooted ps w :
  Forall plain_part ps → plain_part w →
  markerNeutralIdentity (rooted (ps ++ [w]))
  = rooted (ps ++ [if bool_decide (of_bytes w ∈ markers) then bytes_of DefaultWorkspace else w]).
Proof.
  intros Hps Hw. unfold markerNeutralIdentity. rewrite Base_rooted, Dir_rooted by done. cbv zeta.
  assert (plain_part (bytes_of DefaultWorkspace)) as Hd by plain_element.
  destruct (decide (of_bytes w ∈ markers)) as [H|H].
  - rewrite (bool_decide_eq_true_2 _ H).
    assert (bool_decide (of_bytes w = WorkspaceAlias) || bool_decide (of_bytes w = DefaultWorkspace) = true) as ->.
    { apply orb_true_iff. rewrite !bool_decide_eq_true.
      apply elem_of_cons in H as [?|[?|[]%elem_of_nil]%elem_of_cons]; auto. }
    rewrite PathJoin_rooted by plain_list. done.
  - rewrite (bool_decide_eq_false_2 _ H). rewrite !bool_decide_eq_false_2; [done| |];
      intros E; apply H; rewrite E; [by right; left|by left].
Qed.

(** The identity of a workspace's runtime neglects which of the two markers names
    the directory and nothing else: two canonical paths have the same identity
    exactly when they are equal or name the two markers of one parent. *)
Theorem marker_identity ps qs :
  Forall plain_part ps → Forall plain_part qs →
  markerNeutralIdentity (rooted ps) = markerNeutralIdentity (rooted qs) ↔
  ps = qs ∨ ∃ parent m m', ps = parent ++ [bytes_of m] ∧ qs = parent ++ [bytes_of m'] ∧
              m ∈ markers ∧ m' ∈ markers.
Proof.
  assert (markerNeutralIdentity (rooted []) = rooted []) as Hroot by reflexivity.
  assert (plain_part (bytes_of DefaultWorkspace)) as Hd by plain_element.
  assert (∀ xs x, Forall plain_part xs → plain_part x → markerNeutralIdentity (rooted (xs ++ [x])) ≠ rooted []) as Hne.
  { intros xs x Hxs Hx H. rewrite markerNeutralIdentity_rooted in H by done.
    apply rooted_inj in H; [by destruct xs| |constructor]. destruct (bool_decide _); plain_list. }
  intros Hps Hqs.
  destruct (rooted_cases ps) as [->|(ps' & w & ->)], (rooted_cases qs) as [->|(qs' & v & ->)].
  - split; [by left|done].
  - apply Forall_app in Hqs as [Hqs Hv]. apply Forall_cons in Hv as [Hv _]. rewrite Hroot.
    split; [intros H; by apply eq_sym, Hne in H|].
    intros [H|(p & m & m' & H & _)]; [by destruct qs'|by destruct p].
  - apply Forall_app in Hps as [Hps Hw]. apply Forall_cons in Hw as [Hw _]. rewrite Hroot.
    split; [intros H; by apply Hne in H|].
    intros [H|(p & m & m' & _ & H & _)]; [by destruct ps'|by destruct p].
  - apply Forall_app in Hps as [Hps Hw]. apply Forall_cons in Hw as [Hw _].
    apply Forall_app in Hqs as [Hqs Hv]. apply Forall_cons in Hv as [Hv _].
    rewrite !markerNeutralIdentity_rooted by done. split.
    + intros H. apply rooted_inj in H;
        [|destruct (bool_decide (of_bytes w ∈ _)); plain_list|destruct (bool_decide (of_bytes v ∈ _)); plain_list].
      apply app_inj_2 in H as [-> H]; [|done]. do 2 case_bool_decide; simplify_eq.
      * right. exists qs', (of_bytes w), (of_bytes v). by rewrite !bytes_of_of.
      * exfalso. match goal with H : of_bytes (bytes_of _) ∉ _ |- _ => apply H end.
        rewrite of_bytes_of. by right; left.
      * exfalso. match goal with H : of_bytes (bytes_of _) ∉ _ |- _ => apply H end.
        rewrite of_bytes_of. by right; left.
      * by left.
    + intros [H|(p & m & m' & H1 & H2 & Hm & Hm')].
      * apply app_inj_2 in H as [-> [= ->]]; done.
      * apply app_inj_2 in H1 as [-> [= ->]]; [|done]. apply app_inj_2 in H2 as [-> [= ->]]; [|done].
        rewrite !of_bytes_of, !bool_decide_eq_true_2 by done. done.
Qed.

(** A repository's workspace is chosen without guessing: with no legacy marker,
    the one marker directory there is, or the default one when there is none. Two
    markers, a marker that is not a directory, a legacy marker and a failed
    examination are all refused. *)
Theorem repoWorkspace_spec lstat root d :
  let millstrand := PathJoin [root; DefaultWorkspace] in
  let alias := PathJoin [root; WorkspaceAlias] in
  repoWorkspace lstat root = Ok d ↔
  lstat (PathJoin [root; LegacyWorkspace]) = MAbsent ∧
  ((lstat millstrand = MDirectory ∧ lstat alias = MAbsent ∧ d = millstrand) ∨
   (lstat millstrand = MAbsent ∧ lstat alias = MDirectory ∧ d = alias) ∨
   (lstat millstrand = MAbsent ∧ lstat alias = MAbsent ∧ d = millstrand)).
Proof.
  intros millstrand alias. unfold repoWorkspace. cbn [find_markers].
  change (PathJoin [root; DefaultWorkspace]) with millstrand.
  change (PathJoin [root; WorkspaceAlias]) with alias.
  assert (bool_decide (DefaultWorkspace = LegacyWorkspace) = false) as -> by done.
  assert (bool_decide (WorkspaceAlias = LegacyWorkspace) = false) as -> by done.
  assert (bool_decide (LegacyWorkspace = LegacyWorkspace) = true) as -> by done.
  destruct (lstat millstrand), (lstat alias), (lstat (PathJoin [root; LegacyWorkspace])); simpl;
    naive_solver.
Qed.

(** ** Bootstrapping *)

Section bootstrap.
Context (getwd : option string) (xdg_state_home : string) (home : option string).
Context (eval_symlinks : string → option string) (WorldHash : string → string).
Context (lstat : string → marker) (git : git_query → string → option string).
Context (can_mkdir can_stat can_write : string → bool).

Notation Bootstrap := (BootstrapWorld getwd xdg_state_home home eval_symlinks WorldHash lstat git
                         can_mkdir can_stat can_write).
Notation Load' := (Load getwd xdg_state_home home eval_symlinks WorldHash lstat git).

Lemma write_missing_keeps path content fs fs' r p h :
  write_missing can_stat can_write path content fs = (fs', r) → fs !! p = Some h → fs' !! p = Some h.
Proof using.
  unfold write_missing. intros H Hp. destruct (fs !! path) eqn:E; [by simplify_eq|].
  destruct (can_stat path); [|by simplify_eq]. destruct (can_write path); simplify_eq; [|done].
  by rewrite lookup_insert_ne by congruence.
Qed.

(** After a successful write the path is taken, and writing again does nothing. *)
Lemma write_missing_again path content fs fs' :
  write_missing can_stat can_write path content fs = (fs', Ok tt) →
  can_stat path = true ∧ is_Some (fs' !! path).
Proof using.
  unfold write_missing. destruct (fs !! path) eqn:E.
  - intros [= -> H%ensure_ok]. by rewrite E.
  - destruct (can_stat path) eqn:Es; [|done]. destruct (can_write path); [|done].
    intros [= <-]. by rewrite lookup_insert_eq.
Qed.

Lemma write_missing_taken path content fs :
  can_stat path = true → is_Some (fs !! path) →
  write_missing can_stat can_write path content fs = (fs, Ok tt).
Proof using. unfold write_missing. intros -> [h ->]. done. Qed.

Lemma write_templates_keeps paths fs fs' r p h :
  write_templates can_stat can_write paths fs = (fs', r) → fs !! p = Some h → fs' !! p = Some h.
Proof using.
  revert fs. induction paths as [|path paths IH]; intros fs; [by intros [= <- _]|].
  cbn [write_templates]. unfold mbind, st_bind.
  destruct (write_missing _ _ path None fs) as [fs1 [u|e]] eqn:E; intros H Hp.
  - eapply IH; [exact H|]. by eapply write_missing_keeps.
  - simplify_eq. by eapply write_missing_keeps.
Qed.

Lemma write_templates_again paths fs fs' :
  write_templates can_stat can_write paths fs = (fs', Ok tt) →
  Forall (λ path, can_stat path = true ∧ is_Some (fs' !! path)) paths.
Proof using.
  revert fs. induction paths as [|path paths IH]; intros fs; [constructor|].
  cbn [write_templates]. unfold mbind, st_bind.
  destruct (write_missing _ _ path None fs) as [fs1 [[]|e]] eqn:E; [|done]. intros H.
  constructor; [|by eapply IH]. apply write_missing_again in E as [Hs [h Hh]]. split; [done|].
  exists h. by eapply write_templates_keeps.
Qed.

Lemma write_templates_taken paths fs :
  Forall (λ path, can_stat path = true ∧ is_Some (fs !! path)) paths →
  write_templates can_stat can_write paths fs = (fs, Ok tt).
Proof using.
  induction 1 as [|path paths [Hs Hp] _ IH]; [done|]. cbn [write_templates].
  unfold mbind, st_bind. by rewrite write_missing_taken.
Qed.

(** Bootstrapping never changes a file that is there, whether it succeeds or not.
    When it succeeds the workspace loads, and bootstrapping it again succeeds
    with the same world and changes nothing. *)
Theorem BootstrapWorld_safe cwd dir fs fs' r :
  BootstrapWorld getwd xdg_state_home home eval_symlinks WorldHash lstat git
    can_mkdir can_stat can_write cwd dir fs = (fs', r) →
  (∀ p h, fs !! p = Some h → fs' !! p = Some h) ∧
  (∀ w, r = Ok w → (∃ c w', Load' fs' (w_ConfigDir w) = Ok (c, w')) ∧
                   Bootstrap cwd dir fs' = (fs', Ok w)).
Proof using.
  unfold BootstrapWorld, mbind, st_bind, st_lift, st_get, mret, st_ret. intros H.
  destruct (BootstrapTargetWorld _ _ _ _ _ _ _ cwd dir) as [w|e] eqn:Ew; [|by simplify_eq].
  destruct (ensure (can_mkdir _) _) as [[]|e] eqn:Em; [|by simplify_eq].
  destruct (write_missing _ _ (w_ConfigFile w) _ fs) as [fs1 [[]|e]] eqn:E1.
  2: { simplify_eq. split; [|done]. intros p h. by eapply write_missing_keeps. }
  destruct (write_templates _ _ (templates (w_ConfigDir w)) fs1) as [fs2 [[]|e]] eqn:E2.
  2: { simplify_eq. split; [|done]. intros p h Hp. eapply write_templates_keeps; [done|].
       by eapply write_missing_keeps. }
  assert (fs2 = fs') as -> by (destruct (Load _ _ _ _ _ _ _ fs2 _); by simplify_eq).
  split.
  { intros p h Hp. eapply write_templates_keeps; [done|]. by eapply write_missing_keeps. }
  intros w' ->. destruct (Load _ _ _ _ _ _ _ fs' (w_ConfigDir w)) as [[c w'']|e] eqn:El; [|by simplify_eq].
  simplify_eq. split; [eauto|].
  apply write_missing_again in E1 as [Hs [h Hh]].
  rewrite write_missing_taken; [|done|exists h; by eapply write_templates_keeps].
  rewrite write_templates_taken by (by eapply write_templates_again). by rewrite El.
Qed.
End bootstrap.

(** ** Examples *)

(** A repository at /r whose workspace has a shared config. *)
Definition sample_wd : option string := Some "/r".
Definition sample_home : option string := Some "/home/u".
Definition sample_hash (s : string) : string := "0f".
Definition sample_lstat (p : string) : marker :=
  if bool_decide (p = "/r/.ms") then MDirectory else MAbsent.
Definition sample_git (query : git_query) (cwd : string) : option string :=
  Some match query with CommonDir => "/r/.git" | TopLevel => "/r" end.

Definition sample_files : files :=
  {["/r/.ms/config.json" := Holds (Some (DObject
      [("configFormat", DString "alpha"); ("name", DString "shared"); ("colour", DNull)]))]}.

Definition sample_world : World :=
  mkWorld "/r/.ms" "/home/u/.local/state/millstrand/weavers/0f"
    "/home/u/.local/state/millstrand/weavers/0f/data" "/r/.ms/config.json"
    "/home/u/.local/state/millstrand/weavers/0f/data/millstrand.sqlite".

Definition sample_config : Config :=
  mkConfig "alpha" "shared" false None [mkWarning "/r/.ms/config.json" ["colour"]].

Lemma sample_loads :
  Load sample_wd "" sample_home (λ _, None) sample_hash sample_lstat sample_git sample_files ""
  = Ok (sample_config, sample_world).
Proof. vm_compute. reflexivity. Qed.

Lemma sample_wd_abs wd : sample_wd = Some wd → IsAbs wd = true.
Proof. by intros [= <-]. Qed.

Lemma no_links (p p' : string) : (λ _ : string, @None string) p = Some p' → IsAbs p' = true.
Proof. done. Qed.

Lemma sample_hash_hex s : hexadecimal (sample_hash s).
Proof. split; [done|]. repeat constructor; eexists; reflexivity. Qed.

Lemma SetLocalJVMPool_Load_witness :
  let fs' := fst (SetLocalJVMPool sample_files "/r/.ms" "team" None) in
  Load sample_wd "" sample_home (λ _, None) sample_hash sample_lstat sample_git fs' ""
  = Ok (set_JVMPool (Some "team") sample_config, sample_world).
Proof.
  pose proof (SetLocalJVMPool_Load sample_wd "" sample_home (λ _, None) sample_hash sample_lstat
    sample_git sample_wd_abs no_links sample_files "" sample_config sample_world "team" None
    sample_loads eq_refl eq_refl) as H.
  cbv zeta. change (w_ConfigDir sample_world) with "/r/.ms" in H.
  destruct (SetLocalJVMPool sample_files "/r/.ms" "team" None) as [fs' r]. cbn [fst].
  destruct H as [H _]. destruct (H eq_refl) as (_ & Hl & _). exact Hl.
Defined.

Lemma temporary_dirs_witness :
  IsTemporaryRuntimeDir "" sample_home "/home/u/.local/state/millstrand/weavers/0f" = false.
Proof.
  destruct (temporary_dirs sample_wd "" sample_home (λ _, None) sample_hash sample_wd_abs no_links
    sample_hash_hex) as (H & _ & _).
  apply (H "/r/.ms" sample_world). vm_compute. reflexivity.
Defined.

Lemma marker_identity_witness :
  markerNeutralIdentity (rooted [bytes_of "r"; bytes_of ".ms"])
  = markerNeutralIdentity (rooted [bytes_of "r"; bytes_of ".millstrand"]).
Proof.
  apply (marker_identity [bytes_of "r"; bytes_of ".ms"] [bytes_of "r"; bytes_of ".millstrand"]).
  - plain_list; plain_element.
  - plain_list; plain_element.
  - right. exists [bytes_of "r"], ".ms", ".millstrand". split_and!; [done|done|by left|by right; left].
Defined.

Lemma BootstrapWorld_safe_witness :
  let boot := BootstrapWorld sample_wd "" sample_home (λ _, None) sample_hash sample_lstat sample_git
                (λ _, true) (λ _, true) (λ _, true) in
  let '(fs', r) := boot "/r" "" sample_files in
  r = Ok sample_world ∧ boot "/r" "" fs' = (fs', Ok sample_world).
Proof.
  cbv zeta.
  destruct (BootstrapWorld sample_wd "" sample_home (λ _, None) sample_hash sample_lstat sample_git
              (λ _, true) (λ _, true) (λ _, true) "/r" "" sample_files) as [fs' r] eqn:E.
  assert (r = Ok sample_world) as Hr.
  { change r with (snd (fs', r)). rewrite <-E. vm_compute. reflexivity. }
  split; [exact Hr|].
  exact (proj2 (proj2 (BootstrapWorld_safe _ _ _ _ _ _ _ _ _ _ _ _ _ _ _ E) _ Hr)).
Defined.
