(* ===== verification/Stealth.v ===== *)
(** The stealth init (src/cli/internal/config/stealth.go): the block that hides a
    workspace in the private exclude file of a repository. Git and the file are
    parameters; a plan is computed first and applied after the bootstrap. *)

From S2P Require Export Config.

(** ** Data *)

Definition stealthExcludeStart : string := "# mill:millstrand-stealth".
Definition stealthExcludeEnd : string := "# /mill:millstrand-stealth".
Definition nl : string := of_bytes [newline_byte].
Definition stealthExcludeBlock : string :=
  stealthExcludeStart +:+ nl +:+ "/.millstrand" +:+ nl +:+ "/.ms" +:+ nl +:+ stealthExcludeEnd +:+ nl.

Inductive stealth_status := Created | Updated | Unchanged.

#[global] Instance stealth_status_eq_dec : EqDecision stealth_status.
Proof. solve_decision. Defined.

Inductive stealth_target := TrackedMillstrand | GitExclude.

Inductive marker_state :=
| Tracked | StartOnly | EndOnly | DuplicateStart | DuplicateEnd | Reversed | Edited.

Inductive stealth_error :=
| Refusal (path : string) (target : stealth_target) (state : marker_state)
| ExcludeUnreadable (path : string)
| ExcludeUnwritable (path : string)
| GitInspection (operation : string)
| BootstrapFailed (e : config_error)
| InvalidReport.

Record markerSpec := mkSpec { ms_start : string; ms_end : string; ms_block : string }.

Record markedFilePlan := mkPlan { mp_path : string; mp_status : stealth_status; mp_content : string }.

Definition stealthSpec : markerSpec := mkSpec stealthExcludeStart stealthExcludeEnd stealthExcludeBlock.

(** The exclude file: missing, unreadable, or its text. *)
Inductive text_file := TMissing | TUnreadable | TText (s : string).

(** ** The plan *)

(** [text[start:end]] *)
Definition slice (text : string) (i j : nat) : string := of_bytes (take (j - i) (drop i (bytes_of text))).

(** [markerState]; [None] is "exact". *)
Definition markerState (text : string) (spec : markerSpec) (starts ends : nat) : option marker_state :=
  if 1 <? starts then Some DuplicateStart
  else if 1 <? ends then Some DuplicateEnd
  else if (starts =? 1) && (ends =? 0) then Some StartOnly
  else if (starts =? 0) && (ends =? 1) then Some EndOnly
  else
    match Index text (ms_start spec), Index text (ms_end spec) with
    | Some i, Some j =>
        if j <? i then Some Reversed
        else
          let j := j + String.length (ms_end spec) in
          match bytes_of text !! j with
          | Some c =>
              if bool_decide (c = newline_byte)
              then if bool_decide (slice text i (S j) = ms_block spec) then None else Some Edited
              else Some Edited
          | None => Some Edited
          end
    | _, _ => Some Edited
    end.

(** What is appended to a file without markers: a line end if the last line lacks
    one, an empty line, and the block. *)
Definition appended (text block : string) : string :=
  text +:+ (if bool_decide (text = "") then ""
            else if bool_decide (last (bytes_of text) = Some newline_byte) then nl else nl +:+ nl)
  +:+ block.

Definition preflightMarkedFile (path : string) (file : text_file) (spec : markerSpec) :
    result stealth_error markedFilePlan :=
  match file with
  | TMissing => Ok (mkPlan path Created (ms_block spec))
  | TUnreadable => Err (ExcludeUnreadable path)
  | TText text =>
      let starts := Count text (ms_start spec) in
      let ends := Count text (ms_end spec) in
      if (starts =? 0) && (ends =? 0) then Ok (mkPlan path Updated (appended text (ms_block spec)))
      else
        match markerState text spec starts ends with
        | Some state => Err (Refusal path GitExclude state)
        | None => Ok (mkPlan path Unchanged "")
        end
  end.

(** The file after the plan; [None] when it cannot be written. *)
Definition applyMarkedFilePlan (plan : markedFilePlan) (writable : bool) (file : text_file) :
    option text_file :=
  match mp_status plan with
  | Unchanged => Some file
  | _ => if writable then Some (TText (mp_content plan)) else None
  end.

(** ** The init *)

Section stealth.
(** What the index tracks below a path of the repository, and where Git keeps the
    exclude file; [None] is a failed command. *)
Context (tracked : string → option bool) (exclude_path : option string).

Fixpoint trackedWorkspacePath (repoRoot : string) (names : list string) :
    result stealth_error (option string) :=
  match names with
  | [] => Ok None
  | name :: names =>
      match tracked name with
      | None => Err (GitInspection ("inspect index for " +:+ name))
      | Some true => Ok (Some (PathJoin [repoRoot; name]))
      | Some false => trackedWorkspacePath repoRoot names
      end
  end.

Definition gitPrivateExcludePath : result stealth_error string :=
  match exclude_path with
  | None => Err (GitInspection "resolve private exclude path")
  | Some out =>
      let path := Clean (TrimSpace out) in
      ensure (IsAbs path) (GitInspection "non-absolute private exclude path") ;; Ok path
  end.

Definition preflightStealth (exclude : text_file) (repoRoot : string) :
    result stealth_error markedFilePlan :=
  trackedPath ← trackedWorkspacePath repoRoot [DefaultWorkspace; WorkspaceAlias];
  match trackedPath with
  | Some path => Err (Refusal path TrackedMillstrand Tracked)
  | None =>
      path ← gitPrivateExcludePath;
      preflightMarkedFile path exclude stealthSpec
  end.

Definition Validate (report : string * stealth_status) : result stealth_error unit :=
  ensure (negb (is_blank report.1)) InvalidReport.

(** The files of the workspace and the exclude file. *)
Record stealth_disk := mkDisk { d_files : files; d_exclude : text_file }.

(** [BootstrapWorld(cwd, )] and whether the exclude file can be written. *)
Context (bootstrap : ST files config_error World) (writable : bool).

Definition BootstrapStealthWorld (repoRoot : result stealth_error string) (d : stealth_disk) :
    stealth_disk * result stealth_error (World * (string * stealth_status)) :=
  match repoRoot ≫= preflightStealth (d_exclude d) with
  | Err e => (d, Err e)
  | Ok plan =>
      let '(fs, r) := bootstrap (d_files d) in
      match r with
      | Err e => (mkDisk fs (d_exclude d), Err (BootstrapFailed e))
      | Ok world =>
          match applyMarkedFilePlan plan writable (d_exclude d) with
          | None => (mkDisk fs (d_exclude d), Err (ExcludeUnwritable (mp_path plan)))
          | Some file =>
              let report := (mp_path plan, mp_status plan) in
              (mkDisk fs file, Validate report ;; Ok (world, report))
          end
      end
  end.
End stealth.

(** ** Occurrences of a pattern *)

(** A pattern without a newline does not run over one. *)
Lemma list_prefix_newline p a b :
  newline_byte ∉ p → list_prefix p (a ++ newline_byte :: b) = list_prefix p a.
Proof.
  revert a. induction p as [|c p IH]; intros a Hp; [by destruct a|].
  apply not_elem_of_cons in Hp as [Hc Hp]. destruct a as [|d a]; cbn [app list_prefix].
  - by rewrite bool_decide_eq_false_2 by done.
  - by rewrite IH.
Qed.

Lemma list_prefix_length p l : list_prefix p l = true → length p ≤ length l.
Proof. intros H%list_prefix_take. rewrite H, length_app. lia. Qed.

Lemma count_of_newline p a b k :
  p ≠ [] → newline_byte ∉ p → k ≤ length a →
  count_of p (a ++ newline_byte :: b) k = count_of p a k + count_of p b 0.
Proof.
  intros Hne Hp. revert k. induction a as [|c a IH]; intros k Hk.
  - assert (k = 0) as -> by (simpl in Hk; lia). cbn [app count_of].
    change (newline_byte :: b) with ([] ++ newline_byte :: b). rewrite list_prefix_newline by done.
    by destruct p.
  - cbn [app count_of]. destruct k as [|k]; [|apply IH; simpl in Hk; lia].
    change (c :: a ++ newline_byte :: b) with ((c :: a) ++ newline_byte :: b).
    rewrite list_prefix_newline by done.
    destruct (list_prefix p (c :: a)) eqn:E; [|apply IH; lia].
    apply list_prefix_length in E. rewrite IH; [done|]. simpl in E. lia.
Qed.

Lemma index_of_newline p a b :
  p ≠ [] → newline_byte ∉ p → count_of p a 0 = 0 →
  index_of p (a ++ newline_byte :: b) = (λ i, S (length a) + i) <$> index_of p b.
Proof.
  intros Hne Hp. induction a as [|c a IH]; intros Hc.
  - cbn [app index_of]. change (newline_byte :: b) with ([] ++ newline_byte :: b).
    rewrite list_prefix_newline by done. destruct p; [done|]. simpl. done.
  - cbn [count_of] in Hc. destruct (list_prefix p (c :: a)) eqn:E; [done|].
    cbn [app index_of]. change (c :: a ++ newline_byte :: b) with ((c :: a) ++ newline_byte :: b).
    rewrite list_prefix_newline, E, IH by done. by destruct (index_of p b).
Qed.

Lemma count_none_index p l : p ≠ [] → count_of p l 0 = 0 → index_of p l = None.
Proof.
  intros Hne. induction l as [|c l IH]; cbn [count_of index_of].
  - by destruct p.
  - destruct (list_prefix p (c :: l)); [done|]. intros H. by rewrite IH.
Qed.

(** ** The plan *)

Definition marker_text (m : string) : Prop := bytes_of m ≠ [] ∧ newline_byte ∉ bytes_of m.

Lemma drop_past (a rest : list ascii) i :
  drop (S (length a) + i) (a ++ newline_byte :: rest) = drop i rest.
Proof.
  rewrite drop_app_ge by lia. replace (S (length a) + i - length a) with (S i) by lia. done.
Qed.

(** Lines without markers before the text do not change the state of the rest. *)
Lemma markerState_shift spec t rest :
  marker_text (ms_start spec) → marker_text (ms_end spec) →
  Count t (ms_start spec) = 0 → Count t (ms_end spec) = 0 →
  let text := of_bytes (bytes_of t ++ newline_byte :: bytes_of rest) in
  Count text (ms_start spec) = Count rest (ms_start spec) ∧
  Count text (ms_end spec) = Count rest (ms_end spec) ∧
  ∀ n m, markerState text spec n m = markerState rest spec n m.
Proof.
  intros [Hs1 Hs2] [He1 He2] Hcs Hce text. unfold Count in *. unfold text. rewrite !bytes_of_of.
  rewrite !count_of_newline by (done || lia). rewrite Hcs, Hce. split_and!; [done..|].
  intros n m. unfold markerState, Index, slice. rewrite !bytes_of_of, !index_of_newline by done.
  destruct (index_of (bytes_of (ms_start spec)) (bytes_of rest)) as [i|]; [|done].
  destruct (index_of (bytes_of (ms_end spec)) (bytes_of rest)) as [j|]; [|done].
  cbn [fmap option_fmap option_map].
  replace (S (length (bytes_of t)) + j <? S (length (bytes_of t)) + i) with (j <? i).
  2: { apply eq_bool_prop_intro. rewrite !Is_true_true, !Nat.ltb_lt. lia. }
  rewrite lookup_app_r by lia.
  replace (S (length (bytes_of t)) + j + String.length (ms_end spec) - length (bytes_of t))
    with (S (j + String.length (ms_end spec))) by lia.
  cbn [lookup list_lookup]. rewrite drop_past.
  replace (S (S (length (bytes_of t)) + j + String.length (ms_end spec)) - (S (length (bytes_of t)) + i))
    with (S (j + String.length (ms_end spec)) - i) by lia.
  done.
Qed.

Lemma stealth_markers : marker_text stealthExcludeStart ∧ marker_text stealthExcludeEnd.
Proof. unfold marker_text. split_and!; by_evaluation. Qed.

(** The appended text is the block after at most one empty line. *)
Lemma appended_bytes t block :
  t ≠ "" → ∃ pad, (pad = "" ∨ pad = nl) ∧
    bytes_of (appended t block) = bytes_of t ++ newline_byte :: bytes_of (pad +:+ block).
Proof.
  intros Ht. unfold appended. rewrite bool_decide_eq_false_2 by done.
  destruct (bool_decide (last _ = _)); [exists ""|exists nl]; (split; [auto|]);
    rewrite !bytes_of_app; done.
Qed.

Lemma exact_block text spec n m :
  markerState text spec n m = None →
  ∃ a b, text = a +:+ ms_block spec +:+ b.
Proof.
  unfold markerState. destruct (1 <? n); [done|]. destruct (1 <? m); [done|].
  destruct ((n =? 1) && (m =? 0)); [done|]. destruct ((n =? 0) && (m =? 1)); [done|].
  destruct (Index text (ms_start spec)) as [i|]; [|done].
  destruct (Index text (ms_end spec)) as [j|]; [|done].
  destruct (j <? i); [done|]. destruct (bytes_of text !! _) as [c|]; [|done].
  case_bool_decide; [|done]. case_bool_decide as Hb; [|done]. intros _.
  exists (of_bytes (take i (bytes_of text))).
  exists (of_bytes (drop (S (j + String.length (ms_end spec)) - i) (drop i (bytes_of text)))).
  rewrite <-(of_bytes_of text) at 1. rewrite <-Hb. unfold slice.
  rewrite <-(of_bytes_of (of_bytes (take i _) +:+ _)), !bytes_of_app, !bytes_of_of.
  by rewrite !take_drop.
Qed.

(** The stealth block is written once and for all. Whatever plan is made for a
    missing file or for any text, applying it keeps the text that was there, as a
    prefix, and leaves the block in the file; a plan for the new text is to
    leave it unchanged. *)
Theorem stealth_idempotent path file plan file' :
  preflightMarkedFile path file stealthSpec = Ok plan →
  applyMarkedFilePlan plan true file = Some file' →
  preflightMarkedFile path file' stealthSpec = Ok (mkPlan path Unchanged "") ∧
  (∃ a b, file' = TText (a +:+ stealthExcludeBlock +:+ b)) ∧
  (∀ t, file = TText t → ∃ rest, file' = TText (t +:+ rest)).
Proof.
  destruct file as [| |t]; cbn [preflightMarkedFile]; [|done|].
  - intros [= <-] [= <-]. split_and!; [by vm_compute| |done]. by exists "", "".
  - destruct ((Count t _ =? 0) && _) eqn:Hc.
    + intros [= <-] [= <-]. apply andb_true_iff in Hc as [Hcs Hce]. apply Nat.eqb_eq in Hcs, Hce.
      split_and!; [| |intros ? [= <-]; unfold appended; by eexists].
      2: { unfold appended. eexists (t +:+ _), "". by rewrite str_app_assoc, str_app_nil_r. }
      destruct (decide (t = "")) as [->|Ht]; [by vm_compute|].
      destruct (appended_bytes t stealthExcludeBlock Ht) as (pad & Hpad & Hb).
      destruct stealth_markers as [Hs He].
      destruct (markerState_shift stealthSpec t (pad +:+ stealthExcludeBlock) Hs He Hcs Hce)
        as (H1 & H2 & H3).
      rewrite <-Hb, of_bytes_of in H1, H2, H3. cbn [preflightMarkedFile ms_block stealthSpec] in *.
      rewrite H1, H2, H3. by destruct Hpad as [->| ->]; vm_compute.
    + destruct (markerState _ _ _ _) eqn:Hm; [done|]. intros [= <-] [= <-].
      split_and!.
      * cbn [preflightMarkedFile]. by rewrite Hc, Hm.
      * apply exact_block in Hm as (a & b & ->). by exists a, b.
      * intros t' [= <-]. exists "". by rewrite str_app_nil_r.
Qed.

Lemma stealth_idempotent_witness :
  let file' := TText (appended "*.log" stealthExcludeBlock) in
  preflightMarkedFile "/r/.git/info/exclude" file' stealthSpec
  = Ok (mkPlan "/r/.git/info/exclude" Unchanged "").
Proof.
  refine (proj1 (stealth_idempotent "/r/.git/info/exclude" (TText "*.log")
    (mkPlan "/r/.git/info/exclude" Updated (appended "*.log" stealthExcludeBlock))
    (TText (appended "*.log" stealthExcludeBlock)) _ _)); reflexivity.
Defined.
