(* ===== verification/Client.v ===== *)
(** The client of the mill (src/cli/internal/client: client.go and mill.go): the
    errors of a call, the checks of the published metadata of the mill and of a
    weaver's storage identity, and a single call. The socket, the clock and the
    process table are parameters, like the texts of library errors. *)

From S2P Require Export Errfmt Config.

(** ** Errors of a call *)

(** [Details] is [None] when the envelope had none, or null. *)
Record ResponseError := mkResponseError {
  re_Type : string;
  re_Code : string;
  re_Message : string;
  re_Details : option jobject;
}.

(** What a call to the mill fails with. *)
Inductive call_error :=
| Response (e : ResponseError)
| TransportError (message code : string)
| Bare (message : string).

Definition MillProtocolVersion : Z := 3.

Definition forRendering (e : ResponseError) (command : list string) : Error :=
  mkError (re_Type e) (re_Code e) (re_Message e) (default ∅ (re_Details e)) command false.

Definition asTransport (err : option call_error) : option call_error :=
  match err with
  | Some (Bare message) => Some (TransportError message CodeMillTransportFailed)
  | _ => err
  end.

Definition ForRendering (err : call_error) (command : list string) : Error :=
  match err with
  | Response e => forRendering e command
  | TransportError message code => LocalError TypeTransport code message command
  | Bare message => FromError message command
  end.

Definition validResponseError (e : ResponseError) : bool :=
  negb (bool_decide (re_Code e = "")) && negb (bool_decide (re_Message e = ""))
  && bool_decide (is_Some (re_Details e))
  && (bool_decide (re_Type e = "domain") || bool_decide (re_Type e = "protocol")
      || bool_decide (re_Type e = "transport")).

Section response_errors.
Context (float_text : string → option string).

(** Decoding into a struct that holds [e]. *)
Definition decodeInto (e : ResponseError) (raw : doc) : option ResponseError :=
  match raw with
  | DObject l =>
      t ← string_from (re_Type e) (field_values "type" l);
      c ← string_from (re_Code e) (field_values "code" l);
      m ← string_from (re_Message e) (field_values "message" l);
      d ← map_from float_text (re_Details e) (field_values "details" l);
      Some (mkResponseError t c m d)
  | DNull => Some e
  | _ => None
  end.

Definition zeroResponseError : ResponseError := mkResponseError "" "" "" None.

Definition decodeResponseError : doc → option ResponseError := decodeInto zeroResponseError.
End response_errors.

(** ** Faults *)

Inductive read_error := EOF | ReadFailed.

Inductive meta_error :=
| NoRunningMill
| MetaUnreadable
| MetaMalformed
| MetaRoot (e : config_error)
| MissingFields (fields : list string)
| RootMismatch (root : string)
| SocketMismatch (socket : string)
| StaleMill (pid : Z)
| ProtocolMismatch (version : Z).

(** The faults whose text an error carries: those of the libraries, and those of
    the metadata. *)
Inductive fault :=
| FaultRead (e : read_error)
| FaultWrite
| FaultJSON (text : list ascii)
| FaultResult
| FaultEnvelope (raw : doc)
| FaultDial
| FaultSend
| FaultMeta (e : meta_error).

(** ** Storage identity *)

(** What a weaver publishes of itself in [weaver.json]. *)
Record Metadata := mkMetadata {
  md_ProtocolVersion : Z;
  md_Version : string;
  md_PID : Z;
  md_DatabaseKind : string;
  md_DatabaseLabel : string;
  md_DatabasePath : option string;
  md_DaemonID : string;
  md_GenerationID : string;
  md_BasisFingerprint : string;
  md_JVMPool : string;
  md_HostID : string;
  md_HostGenerationID : string;
  md_MemberBasisFingerprint : string;
  md_PoolRestartPath : string;
  md_ConfigDir : string;
  md_StateDir : string;
  md_DataDir : string;
  md_Name : string;
  md_SocketPath : string;
  md_StartedAt : string;
  md_Host : string;
  md_Port : Z;
}.

(** A [*string] field: null is the nil pointer. *)
Definition pointer_field (l : list doc) : option (option string) :=
  foldl (λ acc d, p ← acc; match d with DString t => Some (Some t) | DNull => Some None | _ => None end)
    (Some None) l.

(** The [nrepl] field: an object is decoded into what the struct holds. *)
Definition nrepl_field (l : list doc) : option (string * Z) :=
  foldl (λ acc d, hp ← acc;
           match d with
           | DObject m =>
               h ← string_from hp.1 (field_values "host" m);
               p ← int_from hp.2 (field_values "port" m);
               Some (h, p)
           | DNull => Some hp
           | _ => None
           end) (Some ("", 0%Z)) l.

Definition decodeMetadata (d : doc) : option Metadata :=
  match d with
  | DObject l =>
      let str name := string_field (field_values name l) in
      let int name := int_field (field_values name l) in
      v ← int "protocol_version"; version ← str "version"; pid ← int "pid";
      kind ← str "database_kind"; label ← str "database_label";
      path ← pointer_field (field_values "database_path" l);
      weaver ← str "weaver_id"; generation ← str "generation_id"; basis ← str "basis_fingerprint";
      pool ← str "jvm_pool"; host ← str "host_id"; hostgen ← str "host_generation_id";
      member ← str "member_basis_fingerprint"; restart ← str "pool_restart_path";
      config ← str "config_dir"; state ← str "state_dir"; data ← str "data_dir";
      name ← str "name"; socket ← str "socket_path"; started ← str "started_at";
      nrepl ← nrepl_field (field_values "nrepl" l);
      Some (mkMetadata v version pid kind label path weaver generation basis pool host hostgen member
              restart config state data name socket started nrepl.1 nrepl.2)
  | DNull => Some (mkMetadata 0 "" 0 "" "" None "" "" "" "" "" "" "" "" "" "" "" "" "" "" "" 0)
  | _ => None
  end.

Definition DatabasePathString (m : Metadata) : string := default "" (md_DatabasePath m).

Inductive storage_error := BlankLabel | InconsistentFile | InconsistentMemory | UnknownKind (kind : string).

Definition ValidateStorageIdentity (m : Metadata) : result storage_error unit :=
  if is_blank (md_DatabaseLabel m) then Err BlankLabel
  else if bool_decide (md_DatabaseKind m = "sqlite-file") then
    match md_DatabasePath m with
    | None => Err InconsistentFile
    | Some path => ensure (negb (is_blank path) && bool_decide (md_DatabaseLabel m = path)) InconsistentFile
    end
  else if bool_decide (md_DatabaseKind m = "sqlite-memory") then
    ensure (bool_decide (md_DatabasePath m = None)) InconsistentMemory
  else Err (UnknownKind (md_DatabaseKind m)).

(** ** The metadata of the mill *)

Record MillMetadata := mkMillMetadata {
  mm_ProtocolVersion : Z;
  mm_MillVersion : string;
  mm_PID : Z;
  mm_MillID : string;
  mm_StateRoot : string;
  mm_SocketPath : string;
  mm_StartedAt : string;
  mm_MillBuild : string;
}.

(** [missingMetadataFields] *)
Definition missingMetadataFields (m : MillMetadata) : list string :=
  (if bool_decide (mm_ProtocolVersion m = 0%Z) then ["protocol_version"] else [])
  ++ (if bool_decide (mm_PID m = 0%Z) then ["pid"] else [])
  ++ (if bool_decide (mm_MillID m = "") then ["mill_id"] else [])
  ++ (if bool_decide (mm_StateRoot m = "") then ["state_root"] else [])
  ++ (if bool_decide (mm_SocketPath m = "") then ["socket_path"] else [])
  ++ (if bool_decide (mm_StartedAt m = "") then ["started_at"] else []).

Definition decodeMillMetadata (d : doc) : option MillMetadata :=
  match d with
  | DObject l =>
      v ← int_field (field_values "protocol_version" l);
      mv ← string_field (field_values "mill_version" l);
      pid ← int_field (field_values "pid" l);
      id ← string_field (field_values "mill_id" l);
      root ← string_field (field_values "state_root" l);
      sock ← string_field (field_values "socket_path" l);
      start ← string_field (field_values "started_at" l);
      build ← string_field (field_values "mill_build" l);
      Some (mkMillMetadata v mv pid id root sock start build)
  | DNull => Some (mkMillMetadata 0 "" 0 "" "" "" "" "")
  | _ => None
  end.

Section metadata.
Context (eval_symlinks : string → option string) (alive : Z → bool).

Definition samePath (a b : string) : bool :=
  bool_decide (default (Clean a) (eval_symlinks (Clean a)) = default (Clean b) (eval_symlinks (Clean b))).

(** [readMillMetadata], of the state root and the file below it. *)
Definition readMillMetadata (root : result config_error string) (file : option held) :
    result meta_error MillMetadata :=
  match root with
  | Err e => Err (MetaRoot e)
  | Ok root =>
      match file with
      | None => Err NoRunningMill
      | Some Unreadable => Err MetaUnreadable
      | Some (Holds d) =>
          match d ≫= decodeMillMetadata with
          | None => Err MetaMalformed
          | Some m =>
              ensure (bool_decide (missingMetadataFields m = [])) (MissingFields (missingMetadataFields m)) ;;
              ensure (samePath (mm_StateRoot m) root) (RootMismatch (mm_StateRoot m)) ;;
              ensure (samePath (mm_SocketPath m) (PathJoin [root; MillSocketFileName]))
                (SocketMismatch (mm_SocketPath m)) ;;
              ensure (alive (mm_PID m)) (StaleMill (mm_PID m)) ;;
              ensure (bool_decide (mm_ProtocolVersion m = MillProtocolVersion))
                (ProtocolMismatch (mm_ProtocolVersion m)) ;;
              Ok m
          end
      end
  end.
End metadata.

Section calls.
Context (float_text : string → option string) (fault_text : fault → string).

Definition ReadMillMetadata (r : result meta_error MillMetadata) : result call_error MillMetadata :=
  match r with
  | Ok m => Ok m
  | Err (ProtocolMismatch v) =>
      Err (TransportError (fault_text (FaultMeta (ProtocolMismatch v))) CodeMillUnreachable)
  | Err e =>
      Err (TransportError (fault_text (FaultMeta e) +:+ "; start one with: mill start") CodeMillUnreachable)
  end.

(** A dial that fails. *)
Definition unreachable : call_error :=
  TransportError ("mill socket unreachable; start one with: mill start: " +:+ fault_text FaultDial)
    CodeMillUnreachable.

(** ** One call *)

Definition second : Z := 1000000000.
Definition millisecond : Z := 1000000.
Definition defaultWeaverReadyTimeout : Z := 300 * second.

Definition ready_operations : list string := ["weaver-start"; "weaver-start-temp"; "weaver-restart"].

(** The time a call has on the socket, in nanoseconds, as an int64. *)
Definition deadline (operation : string) (autoStart : bool) (readyTimeoutMs : Z) : Z :=
  let ready := if (0 <? readyTimeoutMs)%Z
               then wrap64 (wrap64 (readyTimeoutMs * millisecond) + 5 * second)
               else wrap64 (defaultWeaverReadyTimeout + 5 * second) in
  if bool_decide (operation = "init") then if autoStart then ready else 5 * second
  else if bool_decide (operation ∈ ready_operations) then ready
  else if bool_decide (operation = "weaver-stop") then 15 * second
  else 5 * second.

Definition is_null (v : json) : bool := match v with JNull => true | _ => false end.

Record MillResponse := mkMillResponse {
  mr_ProtocolVersion : Z;
  mr_RequestID : string;
  mr_OK : bool;
  mr_Result : json;
  mr_Error : option ResponseError;
}.

(** The pointer field [Error]: null clears it, an object is decoded into what it
    points to. *)
Definition error_field (l : list doc) : option (option ResponseError) :=
  foldl (λ acc d, e ← acc;
           match d with
           | DNull => Some None
           | _ => Some <$> decodeInto float_text (default zeroResponseError e) d
           end) (Some None) l.

Definition decodeMillResponse (d : doc) : option MillResponse :=
  match d with
  | DObject l =>
      v ← int_field (field_values "protocol_version" l);
      id ← string_field (field_values "request_id" l);
      ok ← bool_field (field_values "ok" l);
      res ← any_field float_text (field_values "result" l);
      err ← error_field (field_values "error" l);
      Some (mkMillResponse v id ok res err)
  | DNull => Some (mkMillResponse 0 "" false JNull None)
  | _ => None
  end.
(** [Decode] reads the first value of the reply. *)
Definition millCallPayload (metadata : result meta_error MillMetadata) (dials takes : bool)
    (reply : list ascii) (requestID : string) : result call_error json :=
  ReadMillMetadata metadata ;;
  ensure dials unreachable ;;
  ensure takes (Bare ("mill socket write failed: " +:+ fault_text FaultSend)) ;;
  match '(d, _) ← parse_value (2 * length reply + 2) 0 reply; decodeMillResponse d with
  | None => Err (Bare ("malformed mill response: " +:+ fault_text (FaultJSON reply)))
  | Some resp =>
      ensure (bool_decide (mr_ProtocolVersion resp = MillProtocolVersion)
              && bool_decide (mr_RequestID resp = requestID))
        (Bare "malformed mill response: protocol version or request id mismatch") ;;
      if mr_OK resp then
        ensure (negb (bool_decide (is_Some (mr_Error resp))))
          (Bare "malformed mill response: success envelope includes error") ;;
        Ok (mr_Result resp)
      else
        match mr_Error resp with
        | Some e =>
            ensure (validResponseError e && is_null (mr_Result resp))
              (Bare "malformed mill response: error envelope does not match protocol") ;;
            Err (Response e)
        | None => Err (Bare "malformed mill response: error envelope does not match protocol")
        end
  end.

Definition MillCallPayload (metadata : result meta_error MillMetadata) (dials takes : bool)
    (reply : list ascii) (requestID : string) : result call_error json :=
  match millCallPayload metadata dials takes reply requestID with
  | Ok v => Ok v
  | Err e => Err (default e (asTransport (Some e)))
  end.
End calls.

(** ** Calls *)

(** The deadline of an operation that waits for a weaver covers the whole of its
    ready timeout and five seconds more, without overflow up to the longest
    timeout there is a duration for; every deadline is positive. *)
Theorem deadline_covers operation autoStart readyTimeoutMs :
  (readyTimeoutMs <= 9223372031854)%Z →
  (0 < deadline operation autoStart readyTimeoutMs < 2 ^ 63)%Z ∧
  (operation ∈ ready_operations ∨ (operation = "init" ∧ autoStart = true) →
   deadline operation autoStart readyTimeoutMs
   = ((if 0 <? readyTimeoutMs then readyTimeoutMs * millisecond else defaultWeaverReadyTimeout)
      + 5 * second)%Z).
Proof.
  intros Hms. unfold deadline. cbv zeta.
  set (ready := if (0 <? readyTimeoutMs)%Z then _ else _).
  assert (ready = ((if 0 <? readyTimeoutMs then readyTimeoutMs * millisecond
                    else defaultWeaverReadyTimeout) + 5 * second)%Z ∧ (0 < ready < 2 ^ 63)%Z) as [Hr Hb].
  { unfold ready, defaultWeaverReadyTimeout, second, millisecond. destruct (Z.ltb_spec 0 readyTimeoutMs).
    - rewrite !wrap64_id by (rewrite ?wrap64_id; lia). lia.
    - rewrite wrap64_id by lia. lia. }
  assert (∀ k, (0 < k <= 15)%Z → (0 < k * second < 2 ^ 63)%Z) as Hs by (unfold second; lia).
  assert ("init" ∉ ready_operations) as Hinit by by_evaluation.
  assert ("weaver-stop" ∉ ready_operations) as Hstop by by_evaluation.
  clearbody ready. repeat case_bool_decide; subst.
  - destruct autoStart; [done|]. split; [by apply Hs|]. intros [H|[_ H]]; [|done].
    by apply Hinit in H.
  - done.
  - split; [by apply Hs|]. intros [Hr'|[Hr' _]]; [|done]. by apply Hstop in Hr'.
  - split; [by apply Hs|]. intros [Hr'|[Hr' _]]; done.
Qed.

(** C36: What a call believes. A result comes only from a response of this protocol to
    this request that is a success and carries no error, and a declared error only
    from a failure with a valid envelope and no result. Every other failure names
    its transport code, so that no caller has to classify it. *)
Theorem MillCallPayload_sound float_text fault_text metadata dials takes reply requestID :
  (∀ v, MillCallPayload float_text fault_text metadata dials takes reply requestID = Ok v →
     ∃ d rest resp, parse_value (2 * length reply + 2) 0 reply = Some (d, rest) ∧
       decodeMillResponse float_text d = Some resp ∧ mr_ProtocolVersion resp = MillProtocolVersion ∧
       mr_RequestID resp = requestID ∧ mr_OK resp = true ∧ mr_Error resp = None ∧ mr_Result resp = v) ∧
  (∀ err, MillCallPayload float_text fault_text metadata dials takes reply requestID = Err err →
     match err with
     | Response e =>
         ∃ d rest resp, parse_value (2 * length reply + 2) 0 reply = Some (d, rest) ∧
           decodeMillResponse float_text d = Some resp ∧ mr_ProtocolVersion resp = MillProtocolVersion ∧
           mr_RequestID resp = requestID ∧ mr_OK resp = false ∧ mr_Error resp = Some e ∧
           validResponseError e = true ∧ mr_Result resp = JNull
     | TransportError _ code => code = CodeMillUnreachable ∨ code = CodeMillTransportFailed
     | Bare _ => False
     end).
Proof.
  unfold MillCallPayload, millCallPayload.
  destruct (ReadMillMetadata fault_text metadata) as [m|e] eqn:Em; cbn [mbind result_bind].
  2: { split; [done|]. intros err [= <-]. unfold ReadMillMetadata in Em.
       destruct metadata as [|[]]; simplify_eq/=; auto. }
  destruct dials; [|split; [done|]; intros err [= <-]; simpl; auto]. cbn [ensure mbind result_bind].
  destruct takes; [|split; [done|]; intros err [= <-]; simpl; auto]. cbn [ensure mbind result_bind].
  destruct (parse_value _ 0 reply) as [[d rest]|]; [|split; [done|]; intros err [= <-]; simpl; auto].
  cbn [mbind option_bind].
  destruct (decodeMillResponse float_text d) as [resp|] eqn:Ed;
    [|split; [done|]; intros err [= <-]; simpl; auto].
  destruct (bool_decide (mr_ProtocolVersion resp = _) && _) eqn:Ev;
    [|split; [done|]; intros err [= <-]; simpl; auto]. cbn [ensure mbind result_bind].
  bools. destruct (mr_OK resp) eqn:Eok.
  - destruct (mr_Error resp) as [e|] eqn:Ee; [split; [done|]; intros err [= <-]; simpl; auto|].
    split; [|done]. intros v [= <-]. exists d, rest, resp. done.
  - destruct (mr_Error resp) as [e|] eqn:Ee; [|split; [done|]; intros err [= <-]; simpl; auto].
    destruct (validResponseError e && is_null (mr_Result resp)) eqn:Ex; cbn [ensure mbind result_bind].
    + split; [done|]. intros err [= <-]. bools. simpl. exists d, rest, resp.
      split_and!; try done. by destruct (mr_Result resp).
    + split; [done|]. intros err [= <-]; simpl; auto.
Qed.

Lemma deadline_covers_witness :
  deadline "weaver-restart" false 120000 = (120000 * millisecond + 5 * second)%Z.
Proof.
  assert ((120000 <= 9223372031854)%Z) as H by lia.
  apply (proj2 (deadline_covers "weaver-restart" false 120000 H)). left. vm_compute. right; right; left.
Defined.
