(* ===== verification/Relay.v ===== *)
(** The relay of a weaver's response (src/cli/internal/client/invoke.go): newline-delimited JSON frames
    come in, the result or the stream goes to standard output, and an error
    envelope is rendered on standard error. The bytes of the connection up to its
    end and the outcome of every write to standard output are arguments; the texts
    of the errors of the libraries and the float formatter are parameters. *)

From S2P Require Export Client.

(** ** Input and output *)

(** The lines that [ReadBytes] takes from a connection, each with its newline; the
    last may have none. *)
Fixpoint frames (l : list ascii) : list (list ascii) :=
  match l with
  | [] => []
  | c :: l =>
      if bool_decide (c = newline_byte) then [c] :: frames l
      else match frames l with [] => [[c]] | w :: ws => (c :: w) :: ws end
  end.

(** What was written to standard output, and in how many calls. *)
Record sink := mkSink { s_text : string; s_calls : nat }.

Record io := mkIO { stdout : sink; stderr : string }.

Definition outcome : Type := Z * option call_error.

(** A frame: the members of one line. *)
Notation frame := (gmap string doc).

Definition q : string := of_bytes [quote_char].

(** ** Reading frames *)

Definition decodeFrame (line : list ascii) : option frame := parse_bytes line ≫= as_frame.

Inductive bool_error := Missing (key : string) | NotBoolean (key : string).

Definition bool_error_text (e : bool_error) : string :=
  match e with
  | Missing key => "missing " +:+ q +:+ key +:+ q
  | NotBoolean key => q +:+ key +:+ q +:+ " is not a boolean"
  end.

Definition frameBool (f : frame) (key : string) : result bool_error bool :=
  match f !! key with
  | None => Err (Missing key)
  | Some raw => match into_bool raw with Some b => Ok b | None => Err (NotBoolean key) end
  end.

Definition streamIdentity (f : frame) : result string (Z * string) :=
  match f !! "protocol_version" ≫= into_int with
  | Some v =>
      if bool_decide (v = MillProtocolVersion) then
        match f !! "request_id" ≫= into_string with
        | Some id => if bool_decide (id = "") then Err "request_id is missing or blank" else Ok (v, id)
        | None => Err "request_id is missing or blank"
        end
      else Err "protocol_version does not match the stream protocol"
  | None => Err "protocol_version does not match the stream protocol"
  end.

Definition isStreamHeader (f : frame) : bool :=
  match frameBool f "stream" with
  | Ok true => is_ok (streamIdentity f) && bool_decide (size f = 3)
  | _ => false
  end.

Definition terminator_keys : list string :=
  ["protocol_version"; "request_id"; "done"; "success"; "result"; "error"].

Definition isClosedStreamTerminator (f : frame) (protocolVersion : Z) (requestID : string) : bool :=
  match frameBool f "done", frameBool f "success" with
  | Ok true, Ok success =>
      bool_decide (size f = 5)
      && forallb (λ kv, bool_decide (kv.1 ∈ terminator_keys)) (map_to_list f)
      && (if success
          then bool_decide (is_Some (f !! "result")) && negb (bool_decide (is_Some (f !! "error")))
          else bool_decide (is_Some (f !! "error")) && negb (bool_decide (is_Some (f !! "result"))))
      && match streamIdentity f with
         | Ok (v, id) => bool_decide (v = protocolVersion) && bool_decide (id = requestID)
         | Err _ => false
         end
  | _, _ => false
  end.

(** [commandFromEnvelope], of the envelope as JSON. *)
Definition commandFromEnvelope (envelope : jobject) : list string :=
  match envelope !! "name" with
  | Some (JString name) => if bool_decide (name = "") then [] else [name]
  | _ => []
  end ++ stringList (envelope !! "argv").

Section relay.
Context (lower : string → string).
Context (float_text : string → option string).
Context (fault_text : fault → string).
(** The text a member had in its frame. *)
Context (raw_text : doc → string).
(** The environment and the kind of standard error. *)
Context (en : env) (kind : writer).
(** The outcome of the n-th write to standard output: [Some k] fails after [k] bytes. *)
Context (failing : nat → option nat).

Definition Write (text : string) (w : sink) : sink * bool :=
  match failing (s_calls w) with
  | None => (mkSink (s_text w +:+ text) (S (s_calls w)), true)
  | Some k => (mkSink (s_text w +:+ String.substring 0 k text) (S (s_calls w)), false)
  end.

(** A write to standard output, then [k]; a failed one ends the relay. *)
Definition write_or (what : string) (text : string) (k : io → io * outcome) (s : io) : io * outcome :=
  let '(w, ok) := Write text (stdout s) in
  let s := mkIO w (stderr s) in
  if ok then k s else (s, (1%Z, Some (Bare (what +:+ fault_text FaultWrite)))).

Definition render (s : io) (e : Error) : io :=
  mkIO (stdout s) (stderr s +:+ Render lower en e (ModeFor en kind)).

(** *** Error envelopes *)

Definition malformedWeaverError (raw : option doc) (reason : string) : call_error :=
  match raw with
  | None => TransportError ("malformed weaver error: " +:+ reason) CodeWeaverResponseMalformed
  | Some d =>
      TransportError ("malformed weaver error " +:+ raw_text d +:+ ": " +:+ reason)
        CodeWeaverResponseMalformed
  end.

Definition surfaceError (raw : option doc) (command : list string) (s : io) : io * outcome :=
  match raw with
  | None => (s, (1%Z, Some (malformedWeaverError raw "failure frame carries no error value")))
  | Some d =>
      match decodeResponseError float_text d with
      | None => (s, (1%Z, Some (malformedWeaverError raw (fault_text (FaultEnvelope d)))))
      | Some re =>
          if validResponseError re
          then (render s (forRendering re command), (1%Z, Some (Response re)))
          else (s, (1%Z, Some (malformedWeaverError raw "error envelope does not match protocol")))
      end
  end.

(** *** Single responses *)

Definition ends_with_newline (l : list ascii) : bool := bool_decide (last l = Some newline_byte).

Definition relayVerbatim (raw : option doc) (s : io) : io * outcome :=
  match raw ≫= into_string with
  | None => (s, (1%Z, Some (Bare ("malformed weaver verbatim result: " +:+ fault_text FaultResult))))
  | Some text =>
      write_or "writing weaver response: " text (λ s,
        if ends_with_newline (bytes_of text) then (s, (0%Z, None))
        else write_or "writing weaver response: " newline (λ s, (s, (0%Z, None))) s) s
  end.

(** The field [Result] of the struct the line is decoded into: the members that
    name it are all decoded, and the last one stays. *)
Definition result_field (d : doc) : option json :=
  match d with
  | DObject l => any_field float_text (field_values "result" l)
  | DNull => Some JNull
  | _ => None
  end.

Definition relaySingle (f : frame) (line : list ascii) (command : list string) (s : io) : io * outcome :=
  match frameBool f "ok" with
  | Err e => (s, (1%Z, Some (Bare ("malformed weaver response: " +:+ bool_error_text e))))
  | Ok true =>
      match frameBool f "verbatim" with
      | Ok true => relayVerbatim (f !! "result") s
      | _ =>
          match parse_bytes line ≫= result_field with
          | None => (s, (1%Z, Some (Bare ("malformed weaver response: " +:+ fault_text (FaultJSON line)))))
          | Some v =>
              write_or "writing weaver response: " (Json.encode v +:+ newline) (λ s, (s, (0%Z, None))) s
          end
      end
  | Ok false => surfaceError (f !! "error") command s
  end.

(** *** Streams *)

(** The loop over the lines that follow the header. *)
Fixpoint relay_lines (version : Z) (id : string) (command : list string) (ending : read_error)
    (lines : list (list ascii)) (s : io) : io * outcome :=
  match lines with
  | [] =>
      (s, (1%Z, Some (Bare ("weaver stream ended without terminator: " +:+ fault_text (FaultRead ending)))))
  | line :: lines =>
      match decodeFrame line with
      | None =>
          (s, (1%Z, Some (Bare ("malformed weaver response frame: " +:+ fault_text (FaultJSON line)))))
      | Some f =>
          if isClosedStreamTerminator f version id then
            match frameBool f "success" with
            | Err e => (s, (1%Z, Some (Bare ("malformed weaver stream terminator: " +:+ bool_error_text e))))
            | Ok true => (s, (0%Z, None))
            | Ok false => surfaceError (f !! "error") command s
            end
          else
            write_or "writing weaver stream frame: " (of_bytes line) (λ s,
              if ends_with_newline line then relay_lines version id command ending lines s
              else write_or "writing weaver stream frame: " newline
                     (relay_lines version id command ending lines) s) s
      end
  end.

Definition relayStream (lines : list (list ascii)) (ending : read_error) (command : list string)
    (header : frame) (s : io) : io * outcome :=
  match streamIdentity header with
  | Err e => (s, (1%Z, Some (Bare ("malformed weaver stream header: " +:+ e))))
  | Ok (version, id) => relay_lines version id command ending lines s
  end.

(** The response is all the bytes the connection gives, and how it ends. *)
Definition RelayResponse (bytes : list ascii) (ending : read_error) (command : list string)
    (s : io) : io * outcome :=
  match frames bytes with
  | [] => (s, (1%Z, Some (Bare (fault_text (FaultRead ending)))))
  | line :: lines =>
      match decodeFrame line with
      | None =>
          (s, (1%Z, Some (Bare ("malformed weaver response frame: " +:+ fault_text (FaultJSON line)))))
      | Some f =>
          if isStreamHeader f then relayStream lines ending command f s
          else relaySingle f line command s
      end
  end.

(** *** The call *)

(** The mill as one call finds it: its metadata, whether its socket takes the
    connection and the request, and what it answers until the connection ends;
    and when a SIGINT arrives, in milliseconds of the context of the dial. *)
Record mill := mkMill {
  m_metadata : result meta_error MillMetadata;
  m_dials : bool;
  m_takes : bool;
  m_bytes : list ascii;
  m_ending : read_error;
  m_sigint : option Z;
}.

(** The timeout of the context, which the dial shares with the watcher of signals. *)
Definition dial_timeout : Z := 1000.

(** The watcher waits for a signal or the end of the context, whichever is first;
    a signal after that stays in its channel. *)
Definition m_interrupted (m : mill) : bool :=
  match m_sigint m with Some t => (t <? dial_timeout)%Z | None => false end.

Definition invokeThroughMill (m : mill) (envelope : jobject) (s : io) : io * outcome :=
  match ReadMillMetadata fault_text (m_metadata m) with
  | Err e => (s, (1%Z, Some e))
  | Ok _ =>
      if negb (m_dials m) then (s, (1%Z, Some (unreachable fault_text)))
      else if negb (m_takes m) then
        (s, (1%Z, Some (Bare ("mill socket write failed: " +:+ fault_text FaultSend))))
      else
        let '(s, (code, err)) :=
          RelayResponse (m_bytes m) (m_ending m) (commandFromEnvelope envelope) s in
        if m_interrupted m then (s, (130%Z, None)) else (s, (code, err))
  end.

Definition InvokeThroughMill (m : mill) (envelope : jobject) (s : io) : io * outcome :=
  let '(s, (code, err)) := invokeThroughMill m envelope s in (s, (code, asTransport err)).
End relay.

(** ** Frames *)

Lemma frames_concat l : concat (frames l) = l.
Proof.
  induction l as [|c l IH]; [done|]. cbn [frames]. case_bool_decide.
  - simpl. by rewrite IH.
  - destruct (frames l) as [|w ws]; simpl in *; by rewrite <-IH.
Qed.

(** Every line but the last ends with its only newline. *)
Lemma frames_lines l : Forall (λ w, w ≠ []) (frames l).
Proof.
  induction l as [|c l IH]; [constructor|]. cbn [frames]. case_bool_decide; [by constructor|].
  destruct (frames l) as [|w ws]; [by repeat constructor|]. apply Forall_cons in IH as [_ IH].
  by constructor.
Qed.

(** ** The closing frame *)

Definition closing_keys (success : bool) : gset string :=
  {["protocol_version"; "request_id"; "done"; "success"; if success then "result" else "error"]}.

Lemma streamIdentity_keys f v id :
  streamIdentity f = Ok (v, id) →
  v = MillProtocolVersion ∧ is_Some (f !! "protocol_version") ∧ is_Some (f !! "request_id").
Proof.
  unfold streamIdentity. destruct (f !! "protocol_version") as [a|]; [|done]. simpl.
  destruct (into_int a) as [n|]; [|done]. case_bool_decide; [|done].
  destruct (f !! "request_id") as [b|]; [|done]. simpl. destruct (into_string b); [|done].
  case_bool_decide; [done|]. intros [= <- <-]. eauto.
Qed.

Lemma frameBool_key f k b : frameBool f k = Ok b → is_Some (f !! k).
Proof. unfold frameBool. by destruct (f !! k). Qed.

Lemma closing_keys_size success : size (closing_keys success) = 5.
Proof. destruct success; reflexivity. Qed.

(** A frame closes a stream exactly when it has the five members of its kind and
    no other, says [done], says whether it is a success in agreement with them,
    and is of the stream's protocol and request. *)
Theorem terminator_exact f v id :
  isClosedStreamTerminator f v id = true ↔
  ∃ success, frameBool f "done" = Ok true ∧ frameBool f "success" = Ok success ∧
    streamIdentity f = Ok (v, id) ∧ dom f = closing_keys success.
Proof.
  unfold isClosedStreamTerminator. split.
  - destruct (frameBool f "done") as [[|]|] eqn:Ed; [|done|done].
    destruct (frameBool f "success") as [success|] eqn:Es; [|done].
    rewrite !andb_true_iff, bool_decide_eq_true. intros [[[Hsize _] Hx] Hi].
    destruct (streamIdentity f) as [[v' id']|] eqn:Ei; [|done]. bools. subst v' id'.
    exists success. split_and!; [done..|]. symmetry.
    apply set_subseteq_size_eq; [|rewrite size_dom, Hsize; by rewrite closing_keys_size].
    destruct (streamIdentity_keys _ _ _ Ei) as (_ & Hp & Hr). apply frameBool_key in Ed, Es.
    assert (is_Some (f !! (if success then "result" else "error"))) as Hre.
    { destruct success; bools; done. }
    unfold closing_keys. intros k. rewrite !elem_of_union, !elem_of_singleton, elem_of_dom.
    intros [[[[->| ->]| ->]| ->]| ->]; done.
  - intros (success & -> & -> & -> & Hdom).
    assert (size f = 5) as Hsize by (rewrite <-size_dom, Hdom; apply closing_keys_size).
    assert (∀ k, is_Some (f !! k) ↔ k ∈ closing_keys success) as Hk.
    { intros k. by rewrite <-Hdom, elem_of_dom. }
    rewrite (bool_decide_eq_true_2 _ Hsize), (bool_decide_eq_true_2 (v = v)), (bool_decide_eq_true_2 (id = id)) by done.
    rewrite !andb_true_r. cbn [andb].
    apply andb_true_iff. split.
    + apply forallb_forall. intros [k d] Hin%list_elem_of_In%elem_of_map_to_list.
      apply bool_decide_eq_true. assert (k ∈ closing_keys success) as Hin' by (apply Hk; eauto).
      revert Hin'. unfold closing_keys. rewrite !elem_of_union, !elem_of_singleton. unfold terminator_keys.
      rewrite !elem_of_cons. destruct success; naive_solver.
    + destruct success; rewrite bool_decide_eq_true_2 by (apply Hk; set_solver);
        rewrite bool_decide_eq_false_2; try done; rewrite Hk; unfold closing_keys; set_solver.
Qed.

(** ** Streams *)

Section streams.
Context (version : Z) (id : string).

(** The lines a relay passes on: those before the first that closes the stream or
    is no frame. *)
Fixpoint emitted (lines : list (list ascii)) : list (list ascii) :=
  match lines with
  | [] => []
  | line :: lines =>
      match decodeFrame line with
      | Some f => if isClosedStreamTerminator f version id then [] else line :: emitted lines
      | None => []
      end
  end.

(** The frame that closes the stream, when it is reached. *)
Fixpoint closing (lines : list (list ascii)) : option frame :=
  match lines with
  | [] => None
  | line :: lines =>
      f ← decodeFrame line;
      if isClosedStreamTerminator f version id then Some f else closing lines
  end.
End streams.

(** The stream ends as a success. *)
Definition closes_well (version : Z) (id : string) (lines : list (list ascii)) : Prop :=
  ∃ f, closing version id lines = Some f ∧ frameBool f "success" = Ok true.

(** A line as it is passed on: with its newline, or one of its own. *)
Definition line_text (line : list ascii) : string :=
  of_bytes line +:+ (if ends_with_newline line then "" else newline).

Definition lines_text (lines : list (list ascii)) : string := foldr (λ l t, line_text l +:+ t) "" lines.

(** [a] is the beginning of [b]. *)
Definition starts (a b : string) : Prop := ∃ r, b = a +:+ r.

Lemma substring_starts k s : starts (String.substring 0 k s) s.
Proof.
  revert k. induction s as [|c s IH]; intros k.
  - exists "". by destruct k.
  - destruct k as [|k]; [by exists (String c s)|]. destruct (IH k) as [r Hr]. exists r.
    cbn [String.substring]. by rewrite Hr at 1.
Qed.

Section relaying.
Context (lower : string → string) (float_text : string → option string).
Context (fault_text : fault → string) (raw_text : doc → string).
Context (en : env) (kind : writer) (failing : nat → option nat).

Notation surface := (surfaceError lower float_text fault_text raw_text en kind).
Notation write_or' := (write_or fault_text failing).
Notation stream := (relay_lines lower float_text fault_text raw_text en kind failing).

(** What an error envelope leaves: the rendering of the error it carries, if it
    carries one, and an error in any case. *)
Lemma surfaceError_spec raw command s :
  ∃ err, stdout (surface raw command s).1 = stdout s ∧ (surface raw command s).2 = (1%Z, Some err) ∧
    match err with
    | Response e =>
        validResponseError e = true ∧
        stderr (surface raw command s).1
        = stderr s +:+ Render lower en (forRendering e command) (ModeFor en kind)
    | _ => (surface raw command s).1 = s
    end.
Proof using.
  unfold surfaceError. destruct raw as [d|]; [|by eexists].
  destruct (decodeResponseError float_text d) as [e|]; [|by eexists].
  destruct (validResponseError e) eqn:E; by eexists.
Qed.

(** A write passes on all of the text or stops the relay with part of it. *)
Lemma write_or_spec what text k s :
  (∃ w, write_or' what text k s = k (mkIO w (stderr s)) ∧
     s_text w = s_text (stdout s) +:+ text ∧ failing (s_calls (stdout s)) = None) ∨
  (∃ w p e, write_or' what text k s = (mkIO w (stderr s), (1%Z, Some (Bare e))) ∧
     s_text w = s_text (stdout s) +:+ p ∧ starts p text ∧ ∃ n, failing n ≠ None).
Proof using.
  unfold write_or, Write. destruct (failing (s_calls (stdout s))) as [n|] eqn:E.
  - right. eexists _, _, _. split; [done|]. split; [done|]. split; [apply substring_starts|].
    exists (s_calls (stdout s)). by rewrite E.
  - left. eexists. split; [done|]. done.
Qed.

Lemma starts_app a b c : starts b c → starts (a +:+ b) (a +:+ c).
Proof using. intros [r ->]. exists r. by rewrite str_app_assoc. Qed.

Lemma starts_weaken a b c : starts a b → starts a (b +:+ c).
Proof using. intros [r ->]. exists (r +:+ c). by rewrite str_app_assoc. Qed.

Lemma starts_refl a : starts a a.
Proof using. exists "". by rewrite str_app_nil_r. Qed.

Lemma starts_empty a : starts "" a.
Proof using. by exists a. Qed.

(** One emitted line, then the rest of the stream. *)
Lemma emit_line what line k s :
  (∃ w, (write_or' what (of_bytes line) (λ s,
      if ends_with_newline line then k s else write_or' what newline k s) s) = k (mkIO w (stderr s)) ∧
     s_text w = s_text (stdout s) +:+ line_text line) ∨
  (∃ w p e, (write_or' what (of_bytes line) (λ s,
      if ends_with_newline line then k s else write_or' what newline k s) s)
     = (mkIO w (stderr s), (1%Z, Some (Bare e))) ∧
     s_text w = s_text (stdout s) +:+ p ∧ starts p (line_text line) ∧ ∃ n, failing n ≠ None).
Proof using.
  unfold line_text.
  destruct (write_or_spec what (of_bytes line) (λ s,
      if ends_with_newline line then k s else write_or' what newline k s) s)
    as [(w & -> & Hw & _)|(w & p & e & -> & Hw & Hp & Hf)].
  - destruct (ends_with_newline line).
    + left. exists w. rewrite str_app_nil_r. done.
    + destruct (write_or_spec what newline k (mkIO w (stderr s)))
        as [(w' & -> & Hw' & _)|(w' & p & e & -> & Hw' & Hp & Hf)]; cbn [stdout stderr] in *.
      * left. exists w'. split; [done|]. by rewrite Hw', Hw, str_app_assoc.
      * right. exists w', (of_bytes line +:+ p), e. split_and!; [done| |by apply starts_app|done].
        by rewrite Hw', Hw, str_app_assoc.
  - right. exists w, p, e. split_and!; [done|done|by apply starts_weaken|done].
Qed.

(** C29: The relay of a stream. Standard output gets the emitted lines in their order,
    each complete and on a line of its own, or a beginning of that when a write
    fails. The exit code is 0 only after all of them and a closing frame of
    success, and then standard error is as it was; every other end is an error
    with exit code 1. When no write fails, all emitted lines are written, and the
    exit code is 0 exactly if the stream closes as a success. *)
Theorem stream_relay version id command ending lines s :
  let '(s', (code, err)) := stream version id command ending lines s in
  let text := lines_text (emitted version id lines) in
  ∃ p, s_text (stdout s') = s_text (stdout s) +:+ p ∧ starts p text ∧
    ((code = 0%Z ∧ err = None ∧ p = text ∧ stderr s' = stderr s ∧ closes_well version id lines) ∨
     (code = 1%Z ∧ err ≠ None)) ∧
    ((∀ n, failing n = None) → p = text ∧ (code = 0%Z ↔ closes_well version id lines)).
Proof using.
  revert s. induction lines as [|line lines IH]; intros s; cbn [relay_lines emitted lines_text foldr].
  { exists "". rewrite str_app_nil_r. split_and!; [done|apply starts_empty|by right|].
    intros _. split; [done|]. split; [done|]. by intros (f & Hf & _). }
  unfold closes_well in *. cbn [closing].
  destruct (decodeFrame line) as [f|] eqn:Ef; cbn [mbind option_bind].
  2: { exists "". rewrite str_app_nil_r. split_and!; [done|apply starts_empty|by right|].
       intros _. split; [done|]. split; [done|]. by intros (f & Hf & _). }
  destruct (isClosedStreamTerminator f version id) eqn:Et.
  - destruct (frameBool f "success") as [[|]|] eqn:Es.
    + exists "". rewrite str_app_nil_r. split_and!; [done|apply starts_empty| |].
      * left. split_and!; try done. eauto.
      * intros _. split; [done|]. split; [|done]. eauto.
    + destruct (surfaceError_spec (f !! "error") command s) as (err & Ho & Hr & _).
      destruct (surface (f !! "error") command s) as [s' [code err']]. cbn [fst snd] in *.
      simplify_eq. exists "". rewrite Ho, str_app_nil_r.
      split_and!; [done|apply starts_empty|by right|]. intros _. split; [done|].
      split; [done|]. intros (f' & [= <-] & Hf'). congruence.
    + exists "". rewrite str_app_nil_r. split_and!; [done|apply starts_empty|by right|].
      intros _. split; [done|]. split; [done|]. intros (f' & [= <-] & Hf'). congruence.
  - destruct (emit_line "writing weaver stream frame: " line
      (stream version id command ending lines) s) as [(w & -> & Hw)|(w & p & e & -> & Hw & Hp & n & Hn)].
    + specialize (IH (mkIO w (stderr s))).
      destruct (stream version id command ending lines _) as [s' [code err]].
      destruct IH as (p & Hp & Hs & Hc & Hn). cbn [stdout stderr] in *.
      exists (line_text line +:+ p). split_and!.
      * by rewrite Hp, Hw, str_app_assoc.
      * by apply starts_app.
      * destruct Hc as [(-> & -> & -> & He & Hcl)|Hc]; [by left|by right].
      * intros Hall. destruct (Hn Hall) as [-> Hiff]. done.
    + exists p. split_and!; [done|by apply starts_weaken|by right|].
      intros Hall. by rewrite Hall in Hn.
Qed.

(** *** Single responses *)

Lemma elem_of_field_values name (l : list (string * doc)) d :
  d ∈ field_values name l → ∃ k, (k, d) ∈ l.
Proof using.
  unfold field_values. rewrite list_elem_of_omap. intros ([k d'] & Hin & H). cbn [fst snd] in H.
  case_bool_decide; [|done]. simplify_eq. eauto.
Qed.

Lemma any_field_settled l v :
  float_laws float_text → text_ok (DObject l) = true → (nesting (DObject l) <= maxNestingDepth)%N →
  any_field float_text (field_values "result" l) = Some v →
  single_line (Json.encode v) ∧ parse (Json.encode v +:+ newline) = Some (doc_of v) ∧
  value float_text (doc_of v) = Some v.
Proof using.
  intros Hf Hok Hn Hv. unfold any_field in Hv.
  destruct (mapM (value float_text) (field_values "result" l)) as [vs|] eqn:Em; simplify_eq/=.
  destruct (last vs) as [v|] eqn:El; [|split_and!; [by_evaluation|done|done]].
  apply last_Some_elem_of, list_elem_of_lookup in El as [i Hi].
  apply mapM_Some, Forall2_flip in Em.
  destruct (Forall2_lookup_l _ _ _ _ _ Em Hi) as (d & Hd & Hval).
  apply list_elem_of_lookup_2, elem_of_field_values in Hd as [k Hd].
  cbn [text_ok nesting] in Hok, Hn. rewrite forallb_forall in Hok.
  pose proof (Hok (k, d) (proj1 (list_elem_of_In _ _) Hd)) as Hokd.
  apply andb_true_iff in Hokd as [_ Hokd].
  assert (nesting d <= foldr (λ kv n, N.max (nesting kv.2) n) 0 l)%N as Hnd.
  { clear -Hd. induction l as [|kv l IH]; [by apply elem_of_nil in Hd|]. cbn [foldr].
    apply elem_of_cons in Hd as [<-|Hd]; [cbn [snd]; lia|]. specialize (IH Hd). lia. }
  destruct (encode_settled float_text d v Hf Hokd ltac:(lia) Hval) as (? & _ & ? & ?). done.
Qed.

(** The relay of a single response that is a success. A JSON result is written as
    one line, from which a reader gets the value of the result back; a verbatim
    result is written as the text it is, its last line closed. *)
Theorem single_result bytes ending command s line rest l :
  float_laws float_text → (∀ n, failing n = None) →
  frames bytes = line :: rest → parse_bytes line = Some (DObject l) →
  isStreamHeader (members l) = false → frameBool (members l) "ok" = Ok true →
  let '(s', r) := RelayResponse lower float_text fault_text raw_text en kind failing bytes ending command s in
  (frameBool (members l) "verbatim" ≠ Ok true → ∀ v, any_field float_text (field_values "result" l) = Some v →
     r = (0%Z, None) ∧ stderr s' = stderr s ∧
     ∃ text, s_text (stdout s') = s_text (stdout s) +:+ text +:+ newline ∧ single_line text ∧
       parse (text +:+ newline) = Some (doc_of v) ∧ value float_text (doc_of v) = Some v) ∧
  (frameBool (members l) "verbatim" = Ok true → ∀ t, members l !! "result" = Some (DString t) →
     r = (0%Z, None) ∧ stderr s' = stderr s ∧
     s_text (stdout s') = s_text (stdout s) +:+ t +:+
       (if ends_with_newline (bytes_of t) then "" else newline)).
Proof using.
  intros Hf Hall Hfr Hl Hh Hok. unfold RelayResponse. rewrite Hfr.
  assert (decodeFrame line = Some (members l)) as -> by (unfold decodeFrame; by rewrite Hl).
  rewrite Hh. unfold relaySingle. rewrite Hok, Hl. cbn [mbind option_bind result_field].
  assert (∃ d, parse (of_bytes line) = Some d ∧ d = DObject l) as (d & Hd & ->).
  { exists (DObject l). unfold parse. by rewrite bytes_of_of. }
  apply parse_text_ok in Hd as [Hokl Hnl].
  destruct (frameBool (members l) "verbatim") as [[|]|] eqn:Ev.
  1: { unfold relayVerbatim, write_or, Write. rewrite !Hall. 
       destruct (members l !! "result") as [raw|] eqn:Er.
       - cbn [mbind option_bind]. destruct (into_string raw) as [t|] eqn:Ei.
         + rewrite !Hall. destruct (ends_with_newline (bytes_of t)) eqn:Ee; cbn [stdout stderr s_text];
             (split; [done|]); intros _ t' [= ->]; cbn [into_string] in Ei; simplify_eq;
             rewrite Ee; (split_and!; [done|done|]).
           * by rewrite str_app_nil_r.
           * by rewrite str_app_assoc.
         + split; [done|]. intros _ t [= ->]. done.
       - split; [done|]. done. }
  all: destruct (any_field float_text (field_values "result" l)) as [v|] eqn:Ea; [|by split].
  all: unfold write_or, Write; rewrite Hall; cbn [stdout stderr s_text]; split; [|done].
  all: intros _ v' [= <-]; split_and!; [done|done|].
  all: exists (Json.encode v); destruct (any_field_settled _ _ Hf Hokl Hnl Ea) as (? & ? & ?); done.
Qed.

(** *** What reaches standard error *)

(** Standard error is as it was, or has one rendering more, of the valid error
    envelope that is returned. *)
Definition rendered_once (command : list string) (s : io) (r : io * outcome) : Prop :=
  match r.2.2 with
  | Some (Response e) =>
      validResponseError e = true ∧
      stderr r.1 = stderr s +:+ Render lower en (forRendering e command) (ModeFor en kind)
  | _ => stderr r.1 = stderr s
  end.

(** The exit code says whether there is an error. *)
Definition code_agrees (r : io * outcome) : Prop :=
  (r.2.1 = 0%Z ∧ r.2.2 = None) ∨ (r.2.1 = 1%Z ∧ r.2.2 ≠ None).

Lemma surfaceError_rendered raw command s :
  rendered_once command s (surface raw command s) ∧ code_agrees (surface raw command s).
Proof using.
  destruct (surfaceError_spec raw command s) as (err & _ & Hr & He). unfold rendered_once, code_agrees.
  rewrite Hr. cbn [fst snd]. split; [|by right]. destruct err; [done|by rewrite He..].
Qed.

Lemma write_or_rendered what text k s command :
  (∀ w, rendered_once command s (k (mkIO w (stderr s))) ∧ code_agrees (k (mkIO w (stderr s)))) →
  rendered_once command s (write_or' what text k s) ∧ code_agrees (write_or' what text k s).
Proof using.
  intros Hk. destruct (write_or_spec what text k s) as [(w & -> & _)|(w & p & e & -> & _)]; [done|].
  split; [done|by right].
Qed.

Lemma relay_lines_rendered version id command ending lines s :
  rendered_once command s (stream version id command ending lines s) ∧
  code_agrees (stream version id command ending lines s).
Proof using.
  assert (∀ lines s s0, stderr s = stderr s0 →
    rendered_once command s0 (stream version id command ending lines s) ∧
    code_agrees (stream version id command ending lines s)) as H; [|by apply H].
  clear lines s. intros lines. induction lines as [|line lines IH]; intros s s0 Hs.
  { split; [done|by right]. }
  cbn [relay_lines]. destruct (decodeFrame line) as [f|]; [|by split; [done|right]].
  destruct (isClosedStreamTerminator f version id).
  - destruct (frameBool f "success") as [[|]|]; [by split; [done|left]| |by split; [done|right]].
    destruct (surfaceError_rendered (f !! "error") command s) as [H1 H2]. split; [|done].
    unfold rendered_once in *. by rewrite <-Hs.
  - destruct (emit_line "writing weaver stream frame: " line (stream version id command ending lines) s)
      as [(w & -> & _)|(w & p & e & -> & _)]; [by apply IH|]. by split; [|right].
Qed.

Lemma RelayResponse_rendered bytes ending command s :
  let r := RelayResponse lower float_text fault_text raw_text en kind failing bytes ending command s in
  rendered_once command s r ∧ code_agrees r.
Proof using.
  cbv zeta. unfold RelayResponse. destruct (frames bytes) as [|line lines]; [by split; [|right]|].
  destruct (decodeFrame line) as [f|]; [|by split; [|right]].
  destruct (isStreamHeader f).
  { unfold relayStream. destruct (streamIdentity f) as [[v id]|]; [|by split; [|right]].
    apply relay_lines_rendered. }
  unfold relaySingle. destruct (frameBool f "ok") as [[|]|]; [|apply surfaceError_rendered|by split; [|right]].
  assert (∀ s0, stderr s0 = stderr s → rendered_once command s (s0, (0%Z, None)) ∧
    code_agrees (s0, (0%Z, None))) as done0 by (split; [done|by left]).
  assert (rendered_once command s (match parse_bytes line ≫= result_field float_text with
    | Some v => write_or' "writing weaver response: " (Json.encode v +:+ newline) (λ s, (s, (0%Z, None))) s
    | None => (s, (1%Z, Some (Bare ("malformed weaver response: " +:+ fault_text (FaultJSON line)))))
    end) ∧ code_agrees (match parse_bytes line ≫= result_field float_text with
    | Some v => write_or' "writing weaver response: " (Json.encode v +:+ newline) (λ s, (s, (0%Z, None))) s
    | None => (s, (1%Z, Some (Bare ("malformed weaver response: " +:+ fault_text (FaultJSON line)))))
    end)) as Hj.
  { destruct (parse_bytes line ≫= result_field float_text); [|by split; [|right]].
    apply write_or_rendered. intros w. by apply done0. }
  destruct (frameBool f "verbatim") as [[|]|]; [|done..]. unfold relayVerbatim.
  destruct (_ ≫= into_string) as [t|]; [|by split; [|right]].
  apply write_or_rendered. intros w. destruct (ends_with_newline _); [by apply done0|].
  unfold write_or. destruct (Write failing newline _) as [w' [|]]; [by apply done0|by split; [|right]].
Qed.

(** A call renders the error it returns exactly if a weaver declared it, once; its
    exit code is 0 without an error, 1 with one, and 130 on an interrupt. No error
    is returned without its transport code. *)
Lemma InvokeThroughMill_rendered m envelope s :
  let '(s', (code, err)) :=
    InvokeThroughMill lower float_text fault_text raw_text en kind failing m envelope s in
  ((code = 0%Z ∧ err = None) ∨ (code = 1%Z ∧ err ≠ None) ∨ (code = 130%Z ∧ err = None ∧ m_interrupted m = true)) ∧
  (m_interrupted m = false →
   match err with
   | Some (Response e) =>
       validResponseError e = true ∧
       stderr s' = stderr s +:+ Render lower en (forRendering e (commandFromEnvelope envelope)) (ModeFor en kind)
   | _ => stderr s' = stderr s
   end) ∧
  (∀ message, err ≠ Some (Bare message)).
Proof using.
  unfold InvokeThroughMill, invokeThroughMill.
  assert (∀ e : call_error, asTransport (Some e) ≠ None ∧ (∀ message, asTransport (Some e) ≠ Some (Bare message))) as Ht.
  { intros []; by split. }
  destruct (ReadMillMetadata fault_text (m_metadata m)) as [meta|e] eqn:Em.
  2: { split_and!; [right; left; split; [done|apply Ht]| |apply Ht]. intros _.
       unfold ReadMillMetadata in Em. destruct (m_metadata m) as [|[]]; by simplify_eq/=. }
  destruct (m_dials m); [|by split_and!; [right; left| |]]. cbn [negb].
  destruct (m_takes m); [|by split_and!; [right; left| |]]. cbn [negb].
  destruct (RelayResponse_rendered (m_bytes m) (m_ending m) (commandFromEnvelope envelope) s) as [H1 H2].
  destruct (RelayResponse _ _ _ _ _ _ _ _ _ _ s) as [s' [code err]].
  destruct (m_interrupted m) eqn:Ei; [by split_and!; [right; right| |]|].
  unfold rendered_once, code_agrees in *. cbn [fst snd] in *. split_and!.
  - destruct H2 as [[-> ->]|[-> He]]; [by left|]. right; left. split; [done|].
    destruct err as [e|]; [apply Ht|done].
  - intros _. by destruct err as [[]|].
  - destruct err as [e|]; [apply Ht|done].
Qed.
End relaying.

(** A SIGINT after the first second of a call is not seen: the call ends as it
    would without one. *)
Lemma late_interrupt_ignored lower float_text fault_text raw_text en kind failing m envelope s t :
  (dial_timeout <= t)%Z → m_sigint m = Some t →
  InvokeThroughMill lower float_text fault_text raw_text en kind failing m envelope s
  = InvokeThroughMill lower float_text fault_text raw_text en kind failing
      (mkMill (m_metadata m) (m_dials m) (m_takes m) (m_bytes m) (m_ending m) None) envelope s.
Proof.
  intros Ht Hm. unfold InvokeThroughMill, invokeThroughMill. cbn [m_metadata m_dials m_takes m_bytes m_ending].
  assert (m_interrupted m = false) as ->; [|done].
  unfold m_interrupted. rewrite Hm. by apply Z.ltb_ge.
Qed.

(** ** Examples *)

(** JSON with apostrophes for its quotes. *)
Definition json_text (s : string) : string :=
  of_bytes ((λ c, if bool_decide (c = ascii_of_nat 39) then quote_char else c) <$> bytes_of s).

Definition sample_close : list ascii :=
  bytes_of (json_text "{'protocol_version':3,'request_id':'r1','done':true,'success':true,'result':null}").

Definition sample_close_frame : frame :=
  members [("protocol_version", DNumber "3"); ("request_id", DString "r1"); ("done", DBool true);
           ("success", DBool true); ("result", DNull)].

Definition empty_io : io := mkIO (mkSink "" 0) "".

Definition no_faults (n : nat) : option nat := None.

Definition sample_text : fault → string := λ _, "fault".

(** Two emitted lines and the closing frame. *)
Lemma stream_relay_witness :
  let lines := [bytes_of (json_text "{'n':1}" +:+ newline); bytes_of (json_text "{'n':2}" +:+ newline);
                sample_close] in
  closes_well 3 "r1" lines ∧
  fst (snd (relay_lines id Some sample_text (λ _, "") (mkEnv "" "" "") WBuffer no_faults 3 "r1" [] EOF
              lines empty_io)) = 0%Z.
Proof.
  intros lines.
  assert (closes_well 3 "r1" lines) as Hc.
  { exists sample_close_frame. split; vm_compute; reflexivity. }
  split; [exact Hc|].
  pose proof (stream_relay id Some sample_text (λ _, "") (mkEnv "" "" "") WBuffer no_faults 3 "r1" []
                EOF lines empty_io) as H.
  destruct (relay_lines _ _ _ _ _ _ _ _ _ _ _ _ _) as [s' [code err]].
  destruct H as (p & _ & _ & _ & Hn). exact (proj2 (proj2 (Hn (λ _, eq_refl))) Hc).
Defined.

Lemma Some_float_laws : float_laws Some.
Proof. intros n t Hn [= <-]. done. Qed.

Definition sample_single : string := json_text "{'ok':true,'result':{'b':[1,2],'a':'x'}}".

Definition sample_members : list (string * doc) :=
  [("ok", DBool true);
   ("result", DObject [("b", DArray [DNumber "1"; DNumber "2"]); ("a", DString "x")])].

Definition sample_value : json :=
  JObject (<["a" := JString "x"]> {["b" := JArray [JNumber "1"; JNumber "2"]]}).

Lemma single_result_witness :
  ∃ text,
    s_text (stdout (fst (RelayResponse id Some sample_text (λ _, "") (mkEnv "" "" "") WBuffer no_faults
                           (bytes_of sample_single) EOF [] empty_io)))
    = "" +:+ text +:+ newline ∧ single_line text.
Proof.
  assert (frames (bytes_of sample_single) = [bytes_of sample_single]) as Hf by (vm_compute; reflexivity).
  assert (parse_bytes (bytes_of sample_single) = Some (DObject sample_members)) as Hl
    by (vm_compute; reflexivity).
  assert (isStreamHeader (members sample_members) = false) as Hh by (vm_compute; reflexivity).
  assert (frameBool (members sample_members) "ok" = Ok true) as Hok by (vm_compute; reflexivity).
  assert (frameBool (members sample_members) "verbatim" ≠ Ok true) as Hv by (vm_compute; discriminate).
  assert (any_field Some (field_values "result" sample_members) = Some sample_value) as Hr
    by (vm_compute; reflexivity).
  pose proof (single_result id Some sample_text (λ _, "") (mkEnv "" "" "") WBuffer no_faults
    (bytes_of sample_single) EOF [] empty_io (bytes_of sample_single) [] sample_members Some_float_laws
    (λ _, eq_refl) Hf Hl Hh Hok) as H.
  destruct (RelayResponse _ _ _ _ _ _ _ _ _ _ _) as [s' r].
  destruct H as [H _]. destruct (H Hv sample_value Hr) as (_ & _ & text & Ht & Hs & _).
  exists text. split; [exact Ht|exact Hs].
Defined.
