(* ===== verification/Dispatch.v ===== *)
(** The strand dispatcher (src/cli/internal/dispatch): flags up to the op name,
    payloads, the context of the call and its envelope, and the one call through
    the mill, with every error rendered once. The file system, Git, the terminal,
    [time.ParseDuration] and the texts of library errors are parameters. *)

From stdpp Require Import pretty.
From S2P Require Export Relay.

(** ** Flags *)

Record parsed := mkParsed {
  p_workspace : string;
  p_cwd : string;
  p_worktreeRoot : string;
  p_gitCommonDir : string;
  p_stdin : bool;
  p_payloads : list string;
  p_timeout : option string;
  p_dryRun : bool;
  p_version : bool;
  p_help : bool;
  p_op : option (string * list string);
}.

#[global] Instance parsed_eq_dec : EqDecision parsed.
Proof. solve_decision. Defined.

Definition no_flags : parsed := mkParsed "" "" "" "" false [] None false false false None.

Inductive parse_error := NeedsArgument (name : string) | UnknownFlag (arg : string).

Definition parse_error_text (e : parse_error) : string :=
  match e with
  | NeedsArgument name => "flag needs an argument: " +:+ name
  | UnknownFlag arg => "unknown flag: " +:+ arg
  end.

Definition set_workspace (v : string) (p : parsed) : parsed :=
  mkParsed v (p_cwd p) (p_worktreeRoot p) (p_gitCommonDir p) (p_stdin p) (p_payloads p) (p_timeout p)
    (p_dryRun p) (p_version p) (p_help p) (p_op p).
Definition set_cwd (v : string) (p : parsed) : parsed :=
  mkParsed (p_workspace p) v (p_worktreeRoot p) (p_gitCommonDir p) (p_stdin p) (p_payloads p) (p_timeout p)
    (p_dryRun p) (p_version p) (p_help p) (p_op p).
Definition set_worktreeRoot (v : string) (p : parsed) : parsed :=
  mkParsed (p_workspace p) (p_cwd p) v (p_gitCommonDir p) (p_stdin p) (p_payloads p) (p_timeout p)
    (p_dryRun p) (p_version p) (p_help p) (p_op p).
Definition set_gitCommonDir (v : string) (p : parsed) : parsed :=
  mkParsed (p_workspace p) (p_cwd p) (p_worktreeRoot p) v (p_stdin p) (p_payloads p) (p_timeout p)
    (p_dryRun p) (p_version p) (p_help p) (p_op p).
Definition set_timeout (v : string) (p : parsed) : parsed :=
  mkParsed (p_workspace p) (p_cwd p) (p_worktreeRoot p) (p_gitCommonDir p) (p_stdin p) (p_payloads p)
    (Some v) (p_dryRun p) (p_version p) (p_help p) (p_op p).
Definition add_payload (v : string) (p : parsed) : parsed :=
  mkParsed (p_workspace p) (p_cwd p) (p_worktreeRoot p) (p_gitCommonDir p) (p_stdin p)
    (p_payloads p ++ [v]) (p_timeout p) (p_dryRun p) (p_version p) (p_help p) (p_op p).
Definition set_help (p : parsed) : parsed :=
  mkParsed (p_workspace p) (p_cwd p) (p_worktreeRoot p) (p_gitCommonDir p) (p_stdin p) (p_payloads p)
    (p_timeout p) (p_dryRun p) (p_version p) true (p_op p).
Definition set_version (p : parsed) : parsed :=
  mkParsed (p_workspace p) (p_cwd p) (p_worktreeRoot p) (p_gitCommonDir p) (p_stdin p) (p_payloads p)
    (p_timeout p) (p_dryRun p) true (p_help p) (p_op p).
Definition set_dryRun (p : parsed) : parsed :=
  mkParsed (p_workspace p) (p_cwd p) (p_worktreeRoot p) (p_gitCommonDir p) (p_stdin p) (p_payloads p)
    (p_timeout p) true (p_version p) (p_help p) (p_op p).
Definition set_stdin (p : parsed) : parsed :=
  mkParsed (p_workspace p) (p_cwd p) (p_worktreeRoot p) (p_gitCommonDir p) true (p_payloads p)
    (p_timeout p) (p_dryRun p) (p_version p) (p_help p) (p_op p).
Definition set_op (op : string) (argv : list string) (p : parsed) : parsed :=
  mkParsed (p_workspace p) (p_cwd p) (p_worktreeRoot p) (p_gitCommonDir p) (p_stdin p) (p_payloads p)
    (p_timeout p) (p_dryRun p) (p_version p) (p_help p) (Some (op, argv)).

Definition flagMatches (arg name : string) : bool :=
  bool_decide (arg = name) || HasPrefix arg (name +:+ "=").

(** The flags without a value and those with one, in the order of the switch. *)
Definition switch_flags : list (string * (parsed → parsed)) :=
  [("--help", set_help); ("-h", set_help); ("--version", set_version); ("--dry-run", set_dryRun);
   ("--stdin", set_stdin)].

Definition value_flags : list (string * (string → parsed → parsed)) :=
  [("--workspace", set_workspace); ("--cwd", set_cwd); ("--worktree-root", set_worktreeRoot);
   ("--git-common-dir", set_gitCommonDir); ("--timeout", set_timeout); ("--payload", add_payload)].

Definition find_switch (a : string) : option (parsed → parsed) :=
  snd ∘ snd <$> list_find (λ f, a = f.1) switch_flags.

Definition find_value (a : string) : option (string * (string → parsed → parsed)) :=
  snd <$> list_find (λ f, flagMatches a f.1 = true) value_flags.

(** [flagValue], of the token itself; [None] takes the next one. *)
Definition inline_value (a name : string) : option string :=
  if HasPrefix a (name +:+ "=") then Some (of_bytes (drop (S (String.length name)) (bytes_of a))) else None.

Fixpoint parse_args (p : parsed) (args : list string) : result parse_error parsed :=
  match args with
  | [] => Ok p
  | a :: args =>
      match find_switch a with
      | Some set => parse_args (set p) args
      | None =>
          match find_value a with
          | Some (name, set) =>
              match inline_value a name with
              | Some v => parse_args (set v p) args
              | None =>
                  match args with
                  | v :: args => parse_args (set v p) args
                  | [] => Err (NeedsArgument name)
                  end
              end
          | None =>
              if HasPrefix a "-" then Err (UnknownFlag a) else Ok (set_op a args p)
          end
      end
  end.

Definition parse : list string → result parse_error parsed := parse_args no_flags.

(** ** Payloads *)

Inductive payload_error :=
| StdinUnreadable
| MalformedPayload (spec : string)
| DuplicateSlot (name : string)
| PayloadUnreadable (name : string).

Section payloads.
(** What standard input and the files hold; [None] when they cannot be read. *)
Context (stdin : option string) (read_file : string → option string).

Definition split_payload (spec : string) : option (string * string) :=
  match Cut spec "="%char with
  | Some (name, path) =>
      if bool_decide (name = "") || bool_decide (path = "") then None else Some (name, path)
  | None => None
  end.

Fixpoint add_payloads (specs : list string) (payloads : gmap string string) :
    result payload_error (gmap string string) :=
  match specs with
  | [] => Ok payloads
  | spec :: specs =>
      match split_payload spec with
      | None => Err (MalformedPayload spec)
      | Some (name, path) =>
          ensure (bool_decide (payloads !! name = None)) (DuplicateSlot name) ;;
          match read_file path with
          | None => Err (PayloadUnreadable name)
          | Some text => add_payloads specs (<[name := text]> payloads)
          end
      end
  end.

Definition buildPayloads (p : parsed) : result payload_error (gmap string string) :=
  payloads ← (if p_stdin p
              then match stdin with
                   | Some text => Ok {["stdin" := text]}
                   | None => Err StdinUnreadable
                   end
              else Ok ∅);
  add_payloads (p_payloads p) payloads.
End payloads.

(** ** Context *)

Section context.
Context (getwd : result string string) (deriveGitContext : string → result string (string * string)).

Definition resolveContext (p : parsed) : result string (string * string * string) :=
  effectiveCwd ← (if bool_decide (p_cwd p = "") then getwd else Ok (p_cwd p));
  let worktreeRoot := p_worktreeRoot p in
  let gitCommonDir := p_gitCommonDir p in
  if bool_decide (worktreeRoot = "") || bool_decide (gitCommonDir = "") then
    match deriveGitContext effectiveCwd with
    | Err e =>
        let workspacePinned := negb (bool_decide (p_workspace p = "")) in
        let gitPinned := negb (bool_decide (worktreeRoot = "")) && negb (bool_decide (gitCommonDir = "")) in
        if negb workspacePinned && negb gitPinned then Err e
        else Ok (effectiveCwd, worktreeRoot, gitCommonDir)
    | Ok (root, common) =>
        Ok (effectiveCwd,
            if bool_decide (worktreeRoot = "") then root else worktreeRoot,
            if bool_decide (gitCommonDir = "") then common else gitCommonDir)
    end
  else Ok (effectiveCwd, worktreeRoot, gitCommonDir).
End context.

(** ** Output of the dispatcher itself *)

(** [json.Marshal] of a value: angle brackets and ampersands are escaped. *)
Definition html_escape (c : ascii) : list ascii :=
  if bool_decide (c = "<"%char) then bytes_of "\u003c"
  else if bool_decide (c = ">"%char) then bytes_of "\u003e"
  else if bool_decide (c = "&"%char) then bytes_of "\u0026"
  else [c].

Definition marshal (v : json) : string := of_bytes (bytes_of (Json.encode v) ≫= html_escape).

Definition of_tilde (s : string) : string :=
  of_bytes ((λ c, if bool_decide (c = "~"%char) then quote_char else c) <$> bytes_of s).

Definition helpText : string := of_tilde (Join
  [
   "Usage:";
   "  strand [flags] <op> [args...]";
   "";
   "Flags:";
   "  --workspace <dir|name>   workspace directory or published Weaver name";
   "  --cwd <dir>              working directory (default: process cwd)";
   "  --stdin                  read stdin into the stdin payload";
   "  --payload name=path      read a file into a named payload (repeatable)";
   "  --timeout <dur>          request deadline (e.g. 30s)";
   "  --version                print bin and protocol version";
   "  -h, --help               print this help";
   "";
   "Operations:";
   "  Commands are registered by the workspace. `add` below is only an example.";
   "";
   "  Load help, then prime, then about:";
   "    help     what you can type";
   "    prime    runbook for that command";
   "    about    detailed explanation";
   "";
   "  strand help                      list commands";
   "  strand help add                  flags and args";
   "  strand prime add                 runbook";
   "  strand about add                 detailed explanation";
   "  strand help --json add           same as help, as JSON";
   "  strand add --help                same as strand help add";
   "";
   "Examples:";
   "  printf 'notes' | strand --stdin add ~Title~ --attr body=:stdin";
   "  strand --payload body=notes.md add ~Title~ --attr body=:payload/body";
   "  strand --stdin add ~Title~ --attributes :stdin <<'EOF'";
   "{~priority~:3}";
   "EOF";
   ""] newline).

(** ** The dispatch *)

Record terminalCapabilities := mkTerminal { tc_isTTY : bool; tc_ttyCol : option Z }.

(** What is known of standard output: the width of a terminal, which may fail. *)
Definition detectTerminalCapabilities (terminal : option (option Z)) : terminalCapabilities :=
  match terminal with
  | None => mkTerminal false None
  | Some width =>
      mkTerminal true (Some (match width with
                             | Some w => if (w <=? 0)%Z then 80%Z else w
                             | None => 80%Z
                             end))
  end.

Definition number (z : Z) : json := JNumber (pretty z).
Definition strings (l : list string) : json := JArray (JString <$> l).

(** A member that is left out when the text is empty. *)
Definition with_text (key text : string) (m : jobject) : jobject :=
  if bool_decide (text = "") then m else <[key := JString text]> m.

Inductive timeout_error := BadDuration (text : string) | NotPositive (text : string).

Section dispatch.
Context (Version BuildID : string) (pid : Z).
(** [time.ParseDuration], in nanoseconds. *)
Context (ParseDuration : string → option Z).

Definition assembleEnvelope (p : parsed) (payloads : gmap string string)
    (effectiveCwd worktreeRoot gitCommonDir : string) (terminal : terminalCapabilities) :
    result timeout_error jobject :=
  let '(op, argv) := default ("", []) (p_op p) in
  let envelope : jobject :=
    <["name" := JString op]> (<["argv" := strings argv]>
    (<["payloads" := JObject (JString <$> payloads)]> (<["cwd" := JString effectiveCwd]>
    (<["is_tty" := JBool (tc_isTTY terminal)]>
    (<["tty_col" := match tc_ttyCol terminal with Some w => number w | None => JNull end]>
    (<["client" := JObject (<["pid" := number pid]> (<["version" := JString Version]>
                     {["build_id" := JString BuildID]}))]> ∅)))))) in
  let envelope := with_text "worktree_root" worktreeRoot envelope in
  let envelope := with_text "git_common_dir" gitCommonDir envelope in
  let envelope := with_text "workspace" (p_workspace p) envelope in
  match p_timeout p with
  | None => Ok envelope
  | Some text =>
      match ParseDuration text with
      | None => Err (BadDuration text)
      | Some d =>
          let ms := Z.quot d millisecond in
          ensure (0 <? ms)%Z (NotPositive text) ;;
          Ok (<["timeout" := number ms]> envelope)
      end
  end.

(** The rest of the world as one run finds it. *)
Context (lower : string → string) (float_text : string → option string).
Context (fault_text : fault → string) (raw_text : doc → string).
Context (en : env) (kind : writer) (failing : nat → option nat).
Context (payload_text : payload_error → string) (timeout_text : timeout_error → string)
  (format_text : format_error → string) (write_text : string).
Context (stdin : option string) (read_file : string → option string).
Context (getwd : result string string) (deriveGitContext : string → result string (string * string)).
Context (terminal : option (option Z)) (m : mill).

Definition fail (code message : string) (s : io) : io * Z :=
  (render lower en kind s (LocalError TypeLocal code message []), 1%Z).

Definition print_or (text : string) (s : io) : io * Z :=
  let '(w, ok) := Write failing text (stdout s) in
  let s := mkIO w (stderr s) in
  if ok then (s, 0%Z) else fail CodeOutputUnwritable write_text s.

Definition printJSON (v : json) (s : io) : io * Z := print_or (marshal v +:+ newline) s.

Definition version_report : json :=
  JObject (<["version" := JString Version]> (<["build_id" := JString BuildID]>
             {["protocol_version" := number MillProtocolVersion]})).

Definition dry_run_report (envelope : jobject) : json :=
  JObject (<["protocol_version" := number MillProtocolVersion]> (<["request_id" := JString "<dry-run>"]>
          (<["weaver_id" := JString "<dry-run>"]> (<["operation" := JString "invoke"]>
          (<["arguments" := JObject envelope]> {["options" := JObject ∅]}))))).

(** The call, and the rendering of an error that the relay did not render. *)
Definition invoke (p : parsed) (envelope : jobject) (s : io) : io * Z :=
  let '(s, (code, err)) :=
    InvokeThroughMill lower float_text fault_text raw_text en kind failing m envelope s in
  match err with
  | None => (s, code)
  | Some e =>
      let command := match p_op p with Some (op, argv) => op :: argv | None => [""] end in
      let s := match e with
               | Response _ => s
               | _ => render lower en kind s (ForRendering e command)
               end in
      (s, if bool_decide (code = 0%Z) then 1%Z else code)
  end.

Definition Run (args : list string) (s : io) : io * Z :=
  match parse args with
  | Err e => fail CodeInvalidInvocation (parse_error_text e) s
  | Ok p =>
      if p_version p then printJSON version_report s
      else
        match p_help p, p_op p with
        | true, Some (op, _) =>
            fail CodeInvalidInvocation
              ("--help must follow the op: run `strand help " +:+ op +:+ "` or `strand " +:+ op +:+ " --help`") s
        | true, None | false, None => print_or helpText s
        | false, Some _ =>
            match ValidateFormat en with
            | Err e => fail CodeInvalidErrorFormat (format_text e) s
            | Ok _ =>
                match buildPayloads stdin read_file p with
                | Err e => fail CodePayloadUnreadable (payload_text e) s
                | Ok payloads =>
                    match resolveContext getwd deriveGitContext p with
                    | Err e => fail CodeContextUnresolved e s
                    | Ok (effectiveCwd, worktreeRoot, gitCommonDir) =>
                        match assembleEnvelope p payloads effectiveCwd worktreeRoot gitCommonDir
                                (detectTerminalCapabilities terminal) with
                        | Err e => fail CodeInvalidInvocation (timeout_text e) s
                        | Ok envelope =>
                            if p_dryRun p then printJSON (dry_run_report envelope) s
                            else invoke p envelope s
                        end
                    end
                end
            end
        end
  end.
End dispatch.

(** ** Flags *)

Lemma find_switch_dash a set : find_switch a = Some set → HasPrefix a "-" = true ∧ ∀ p, p_op (set p) = p_op p.
Proof.
  unfold find_switch. intros H.
  destruct (list_find (λ f, a = f.1) switch_flags) as [[i [n f]]|] eqn:E; [|done]. injection H as <-.
  apply list_find_Some in E as (Hl & -> & _). cbn [fst].
  do 5 (destruct i as [|i]; [injection Hl as <- <-; done|]). done.
Qed.

Lemma HasPrefix_trans_dash a name : HasPrefix a (String "-" name) = true → HasPrefix a "-" = true.
Proof.
  unfold HasPrefix. destruct a as [|c a]; [done|]. cbn [String.prefix].
  destruct (ascii_dec "-" c); [by destruct a|done].
Qed.

Lemma find_value_dash a name set :
  find_value a = Some (name, set) → HasPrefix a "-" = true ∧ ∀ v p, p_op (set v p) = p_op p.
Proof.
  unfold find_value. intros H.
  destruct (list_find (λ f, flagMatches a f.1 = true) value_flags) as [[i [n f]]|] eqn:E; [|done].
  injection H as <- <-. apply list_find_Some in E as (Hl & Hm & _). cbn [fst] in Hm.
  assert (∃ n', n = String "-" n') as [n' ->].
  { do 6 (destruct i as [|i]; [injection Hl as <- <-; by eexists|]). done. }
  split.
  - apply orb_true_iff in Hm as [H|H]; [apply bool_decide_eq_true in H as ->|].
    + unfold HasPrefix. cbn. by destruct n'.
    + by eapply HasPrefix_trans_dash.
  - do 6 (destruct i as [|i]; [injection Hl as <- <-; done|]). done.
Qed.

(** Flags that are complete by themselves are read before what follows them. *)
Lemma parse_args_app p pre rest q :
  parse_args p pre = Ok q → p_op p = None → p_op q = None →
  parse_args p (pre ++ rest) = parse_args q rest.
Proof.
  remember (length pre) as n eqn:En. revert p pre En. induction (lt_wf n) as [n _ IH].
  intros p pre -> H Hp Hq. destruct pre as [|a pre]; [by injection H as ->|].
  cbn [app parse_args] in *. destruct (find_switch a) as [set|] eqn:Es.
  { apply find_switch_dash in Es as [_ Es]. eapply IH; [|reflexivity|done|by rewrite Es|done]. simpl; lia. }
  destruct (find_value a) as [[name set]|] eqn:Ev.
  2: { destruct (HasPrefix a "-"); [done|]. by injection H as <-. }
  apply find_value_dash in Ev as [_ Ev]. destruct (inline_value a name) as [v|].
  { eapply IH; [|reflexivity|done|by rewrite Ev|done]. simpl; lia. }
  destruct pre as [|v pre]; [done|]. cbn [app].
  eapply IH; [|reflexivity|done|by rewrite Ev|done]. simpl; lia.
Qed.

Lemma parse_args_op p args p' op argv :
  parse_args p args = Ok p' → p_op p = None → p_op p' = Some (op, argv) →
  ∃ pre q, args = pre ++ op :: argv ∧ parse_args p pre = Ok q ∧ p_op q = None ∧
    HasPrefix op "-" = false ∧ p' = set_op op argv q.
Proof.
  remember (length args) as n eqn:En. revert p args En. induction (lt_wf n) as [n _ IH].
  intros p args -> H Hp Hp'. destruct args as [|a args]; [by simplify_eq/=; congruence|].
  cbn [parse_args] in H.
  assert (∀ p1 args' skipped, length args' < length (a :: args) → parse_args p1 args' = Ok p' → p_op p1 = None →
    a :: args = skipped ++ args' → (∀ t, parse_args p (skipped ++ t) = parse_args p1 t) →
    ∃ pre q, a :: args = pre ++ op :: argv ∧ parse_args p pre = Ok q ∧ p_op q = None ∧
      HasPrefix op "-" = false ∧ p' = set_op op argv q) as step.
  { intros p1 args' skipped Hlen Hpa Hp1 Heq Hskip.
    destruct (IH _ Hlen p1 args' eq_refl Hpa Hp1 Hp') as (pre & q & -> & Hpre & Hrest).
    exists (skipped ++ pre), q. rewrite Hskip, <-app_assoc. done. }
  destruct (find_switch a) as [set|] eqn:Es.
  { pose proof (find_switch_dash _ _ Es) as [_ Hs].
    apply (step (set p) args [a]); [simpl; lia|done|by rewrite Hs|done|].
    intros t. cbn [app parse_args]. by rewrite Es. }
  destruct (find_value a) as [[name set]|] eqn:Ev.
  2: { destruct (HasPrefix a "-") eqn:Ed; [done|]. injection H as <-. cbn [p_op set_op] in Hp'.
       injection Hp' as <- <-. by exists [], p. }
  pose proof (find_value_dash _ _ _ Ev) as [_ Hs]. destruct (inline_value a name) as [v|] eqn:Ei.
  { apply (step (set v p) args [a]); [simpl; lia|done|by rewrite Hs|done|].
    intros t. cbn [app parse_args]. by rewrite Es, Ev, Ei. }
  destruct args as [|v args]; [done|].
  apply (step (set v p) args [a; v]); [simpl; lia|done|by rewrite Hs|done|].
  intros t. cbn [app parse_args]. by rewrite Es, Ev, Ei.
Qed.

(** The op is the first token that is neither a flag nor the value of one, and
    everything after it is its argument list, as it was typed: a command line is
    parsed with an op exactly when it is some flags that parse by themselves, the
    op, which does not start with a dash, and the arguments. *)
Theorem argv_verbatim args p op argv :
  parse args = Ok p ∧ p_op p = Some (op, argv) ↔
  ∃ pre q, args = pre ++ op :: argv ∧ parse pre = Ok q ∧ p_op q = None ∧
    HasPrefix op "-" = false ∧ p = set_op op argv q.
Proof.
  split.
  - intros [H Hop]. by eapply parse_args_op.
  - intros (pre & q & -> & H & Hq & Hd & ->). split; [|done]. unfold parse in *.
    rewrite (parse_args_app _ _ _ _ H) by done. cbn [parse_args].
    destruct (find_switch op) as [set|] eqn:Es.
    { apply find_switch_dash in Es as [Es _]. congruence. }
    destruct (find_value op) as [[name set]|] eqn:Ev.
    { apply find_value_dash in Ev as [Ev _]. congruence. }
    by rewrite Hd.
Qed.

(** ** Payloads *)

Section payload_spec.
Context (stdin : option string) (read_file : string → option string).

(** A slot of the command line: its name and the text of its file. *)
Definition slot (spec : string) : option (string * string) :=
  '(name, path) ← split_payload spec; pair name <$> read_file path.

Lemma add_payloads_ok specs payloads payloads' :
  add_payloads read_file specs payloads = Ok payloads' ↔
  ∃ slots, Forall2 (λ spec s, slot spec = Some s) specs slots ∧ NoDup slots.*1 ∧
    (∀ name, name ∈ slots.*1 → payloads !! name = None) ∧
    payloads' = list_to_map slots ∪ payloads.
Proof using.
  revert payloads. induction specs as [|spec specs IH]; intros payloads; cbn [add_payloads].
  { split.
    - intros [= <-]. exists []. split_and!; [constructor|constructor|by intros ? ?%elem_of_nil|].
      simpl. by rewrite (left_id_L ∅ (∪)).
    - intros (slots & Hs & _ & _ & ->). inversion Hs; subst. simpl. by rewrite (left_id_L ∅ (∪)). }
  destruct (split_payload spec) as [[name path]|] eqn:Ep.
  2: { split; [done|]. intros (slots & Hs & _). inversion Hs as [|? ? ? ? Hslot]; subst.
       unfold slot in Hslot. by rewrite Ep in Hslot. }
  rewrite result_bind_ok. split.
  - intros ([] & Hn%ensure_ok & H). bools. destruct (read_file path) as [text|] eqn:Er; [|done].
    apply IH in H as (slots & Hs & Hnd & Hfresh & ->). exists ((name, text) :: slots).
    assert (name ∉ slots.*1) as Hnin.
    { intros Hin. specialize (Hfresh _ Hin). by rewrite lookup_insert_eq in Hfresh. }
    split_and!.
    + constructor; [|done]. unfold slot. rewrite Ep. simpl. by rewrite Er.
    + by constructor.
    + cbn [fmap list_fmap fst]. intros n [->|Hin]%elem_of_cons; [done|].
      specialize (Hfresh n Hin). rewrite lookup_insert_ne in Hfresh; [done|]. by intros ->.
    + rewrite list_to_map_cons, <-insert_union_r; [by rewrite insert_union_l|].
      by apply not_elem_of_list_to_map_1.
  - intros (slots & Hs & Hnd & Hfresh & ->). inversion Hs as [|? [n text] ? slots' Hslot Hs']; subst.
    unfold slot in Hslot. rewrite Ep in Hslot. simpl in Hslot.
    destruct (read_file path) as [text'|]; simplify_eq/=. apply NoDup_cons in Hnd as [Hnin Hnd].
    exists tt. rewrite (Hfresh n) by by left. split; [done|]. apply IH. exists slots'. split_and!; [done|done| |].
    + intros n' Hin. rewrite lookup_insert_ne; [by apply Hfresh; right|]. by intros ->.
    + rewrite <-insert_union_r by by apply not_elem_of_list_to_map_1. by rewrite insert_union_l.
Qed.

(** The payloads of a call are the ones that were asked for: building them
    succeeds exactly when standard input, if asked for, and the files of all slots
    can be read, every slot has a name and a path, and no two slots, standard
    input included, have the same name; each slot then has its own text. *)
Theorem buildPayloads_spec p payloads :
  buildPayloads stdin read_file p = Ok payloads ↔
  ∃ slots, Forall2 (λ spec s, slot spec = Some s) (p_payloads p) slots ∧
    let own := if p_stdin p then option_list (pair "stdin" <$> stdin) else [] in
    (p_stdin p = true → is_Some stdin) ∧ NoDup (own ++ slots).*1 ∧
    payloads = list_to_map (own ++ slots).
Proof using.
  unfold buildPayloads. rewrite result_bind_ok. setoid_rewrite add_payloads_ok. cbv zeta. split.
  - intros (m & Hm & slots & Hs & Hnd & Hfresh & ->). exists slots. split; [done|].
    destruct (p_stdin p); [destruct stdin as [text|]; [|done]|]; simplify_eq/=.
    + split_and!; [by eauto| |].
      * constructor; [|done]. intros Hin. specialize (Hfresh _ Hin). by rewrite lookup_singleton_eq in Hfresh.
      * trans (<["stdin" := text]> (list_to_map slots : gmap string string)); [|done].
        rewrite insert_union_singleton_l, map_union_comm; [done|].
        apply map_disjoint_singleton_r, not_elem_of_list_to_map_1. intros Hin.
        specialize (Hfresh _ Hin). by rewrite lookup_singleton_eq in Hfresh.
    + split_and!; [done|done|]. by rewrite (right_id_L ∅ (∪)).
  - intros (slots & Hs & Hin & Hnd & ->). destruct (p_stdin p).
    + destruct (Hin eq_refl) as [text ->]. cbn [fmap option_fmap option_map option_list app] in *.
      apply NoDup_cons in Hnd as [Hnin Hnd]. eexists. split; [done|]. exists slots. split_and!; [done|done| |].
      * intros n Hn. rewrite lookup_singleton_ne; [done|]. intros <-. done.
      * trans (<["stdin" := text]> (list_to_map slots : gmap string string)); [done|].
        rewrite insert_union_singleton_l, map_union_comm; [done|].
        apply map_disjoint_singleton_l. by apply not_elem_of_list_to_map_1.
    + exists ∅. split; [done|]. exists slots. split_and!; [done|done|by intros|].
      by rewrite (right_id_L ∅ (∪)).
Qed.
End payload_spec.

(** ** One run *)

Section runs.
Context (Version BuildID : string) (pid : Z) (ParseDuration : string → option Z).
Context (lower : string → string) (float_text : string → option string).
Context (fault_text : fault → string) (raw_text : doc → string).
Context (en : env) (kind : writer) (failing : nat → option nat).
Context (payload_text : payload_error → string) (timeout_text : timeout_error → string)
  (format_text : format_error → string) (write_text : string).
Context (stdin : option string) (read_file : string → option string).
Context (getwd : result string string) (deriveGitContext : string → result string (string * string)).
Context (terminal : option (option Z)).

Notation Run' := (Run Version BuildID pid ParseDuration lower float_text fault_text raw_text en kind failing
  payload_text timeout_text format_text write_text stdin read_file getwd deriveGitContext terminal).

(** Standard error gets nothing on success, and one rendering otherwise. *)
Definition one_rendering (s : io) (r : io * Z) : Prop :=
  (r.2 = 0%Z ∧ stderr r.1 = stderr s) ∨
  (r.2 = 1%Z ∧ ∃ e, stderr r.1 = stderr s +:+ Render lower en e (ModeFor en kind)).

Lemma fail_rendering code message s : one_rendering s (fail lower en kind code message s).
Proof using. right. split; [done|]. by eexists. Qed.

Lemma print_or_rendering text s :
  one_rendering s (print_or lower en kind failing write_text text s).
Proof using.
  unfold print_or. destruct (Write failing text (stdout s)) as [w [|]]; [by left|].
  apply (fail_rendering _ _ (mkIO w (stderr s))).
Qed.

Lemma invoke_rendering m p envelope s :
  m_interrupted m = false →
  one_rendering s (invoke lower float_text fault_text raw_text en kind failing m p envelope s).
Proof using.
  intros Hm. unfold invoke.
  pose proof (InvokeThroughMill_rendered lower float_text fault_text raw_text en kind failing m envelope s) as H.
  destruct (InvokeThroughMill _ _ _ _ _ _ _ m envelope s) as [s' [code err]].
  destruct H as (Hc & He & Hb). specialize (He Hm). destruct err as [e|].
  - assert (code = 1%Z) as -> by (destruct Hc as [[_ ?]|[[? _]|(_ & ? & _)]]; done).
    right. split; [done|]. destruct e as [e|message code|message].
    + destruct He as [_ He]. by eexists.
    + cbn [fst render stderr]. rewrite He. by eexists.
    + by destruct (Hb message).
  - left. split; [|done]. cbn [snd]. destruct Hc as [[? _]|[[_ ?]|(_ & _ & ?)]]; [done|done|congruence].
Qed.

(** A run that is not interrupted reports its failure once: either its exit code
    is 0 and standard error is as it was, or the code is 1 and standard error has
    exactly one rendering of one error more, whoever found the failure: the
    dispatcher, the client, or the weaver at the other end. *)
Theorem failure_rendered_once m args s :
  m_interrupted m = false →
  (snd (Run' m args s) = 0%Z ∧ stderr (fst (Run' m args s)) = stderr s) ∨
  (snd (Run' m args s) = 1%Z ∧
   ∃ e, stderr (fst (Run' m args s)) = stderr s +:+ Render lower en e (ModeFor en kind)).
Proof using.
  intros Hm. change (one_rendering s (Run' m args s)). unfold Run.
  destruct (parse args) as [p|e]; [|apply fail_rendering].
  destruct (p_version p); [apply print_or_rendering|].
  destruct (p_help p), (p_op p) as [[op argv]|]; [apply fail_rendering|apply print_or_rendering| |apply print_or_rendering].
  destruct (ValidateFormat en); [|apply fail_rendering].
  destruct (buildPayloads stdin read_file p) as [payloads|]; [|apply fail_rendering].
  destruct (resolveContext getwd deriveGitContext p) as [[[cwd root] common]|]; [|apply fail_rendering].
  destruct (assembleEnvelope _ _ _ _ p payloads cwd root common _) as [envelope|]; [|apply fail_rendering].
  destruct (p_dryRun p); [apply print_or_rendering|by apply invoke_rendering].
Qed.

(** The local paths send nothing: with [--version], [--help], no op or
    [--dry-run], a run is the same whatever the mill is and answers. *)
Theorem local_runs_send_nothing m m' args p s :
  parse args = Ok p →
  p_version p || p_help p || p_dryRun p || bool_decide (p_op p = None) = true →
  Run' m args s = Run' m' args s.
Proof using.
  intros Hp Hl. unfold Run. rewrite Hp. destruct (p_version p); [done|].
  destruct (p_help p); [done|]. destruct (p_op p) as [[op argv]|]; [|done]. cbn [orb] in Hl.
  rewrite orb_false_r in Hl. rewrite Hl. done.
Qed.
End runs.

(** ** Examples *)

Example parse_ex : parse ["--cwd=/x"; "--payload"; "body=n.md"; "add"; "--help"; "-x"] =
  Ok (set_op "add" ["--help"; "-x"] (add_payload "body=n.md" (set_cwd "/x" no_flags))).
Proof. reflexivity. Qed.

Definition silent_mill : mill :=
  mkMill (Ok (mkMillMetadata 3 "" 1 "m" "/s" "/s/mill.sock" "now" "")) true true [] EOF None.

(** A mill that ends the connection without an answer is reported once. *)
Lemma failure_rendered_once_witness :
  let r := Run "dev" "dev" 1 (λ _, None) id Some sample_text (λ _, "") (mkEnv "" "" "") WBuffer no_faults
             (λ _, "") (λ _, "") (λ _, "") "" None (λ _, None) (Ok "/r") (λ _, Ok ("/r", "/r/.git"))
             None silent_mill ["list"] empty_io in
  snd r = 1%Z ∧ ∃ e, stderr (fst r) = "" +:+ Render id (mkEnv "" "" "") e Plain.
Proof.
  intros r.
  destruct (failure_rendered_once "dev" "dev" 1 (λ _, None) id Some sample_text (λ _, "") (mkEnv "" "" "")
    WBuffer no_faults (λ _, "") (λ _, "") (λ _, "") "" None (λ _, None) (Ok "/r")
    (λ _, Ok ("/r", "/r/.git")) None silent_mill ["list"] empty_io eq_refl) as [[H _]|H]; [|exact H].
  exfalso. revert H. vm_compute. discriminate.
Defined.

Lemma local_runs_send_nothing_witness :
  let run m := Run "dev" "dev" 1 (λ _, None) id Some sample_text (λ _, "") (mkEnv "" "" "") WBuffer no_faults
             (λ _, "") (λ _, "") (λ _, "") "" None (λ _, None) (Ok "/r") (λ _, Ok ("/r", "/r/.git"))
             None m ["--dry-run"; "list"] empty_io in
  run (mkMill (Err NoRunningMill) false false [] EOF None) = run silent_mill.
Proof.
  cbv zeta.
  apply (local_runs_send_nothing "dev" "dev" 1 (λ _, None) id Some sample_text (λ _, "") (mkEnv "" "" "")
    WBuffer no_faults (λ _, "") (λ _, "") (λ _, "") "" None (λ _, None) (Ok "/r")
    (λ _, Ok ("/r", "/r/.git")) None (mkMill (Err NoRunningMill) false false [] EOF None) silent_mill ["--dry-run"; "list"]
    (set_op "list" [] (set_dryRun no_flags)) empty_io); reflexivity.
Defined.
