(* ===== verification/Control.v ===== *)
(** Process control (src/cli/cmd/mill/process_control.go): the requests by which a
    weaver reaches the custody of its processes. A request is decoded, its caller is
    admitted by its published identity or by the token of its launch, and the
    operation acts on the custody of the caller's world. The peer of the connection,
    the process table, the texts of library errors, [strings.ToLower] and the order
    in which Go iterates over a map are parameters. *)

From stdpp Require Import pretty.
From S2P Require Export Client.
From S2P Require Export Custody.

(** ** Requests *)

Record controlRequest := mkControl {
  cr_RequestID : string;
  cr_WeaverID : string;
  cr_LaunchToken : string;
  cr_Operation : string;
  cr_Arguments : jobject;
}.

Definition controlOperations : list string :=
  ["process.launch"; "process.get"; "process.list-owned"; "process.cancel"; "process.acknowledge"].

Definition control_fields : list string :=
  ["protocol_version"; "request_id"; "weaver_id"; "launch_token"; "operation"; "arguments"].

(** Which of several bad members an iteration over a map meets first is not part of
    an error. *)
Inductive frame_error :=
| FrameUnknownField
| FrameVersion
| FrameVersionOther
| FrameIdentity
| FrameBlank
| FrameToken
| FrameTokenBlank
| FrameArguments
| FrameArgumentsNil.

(** A member that is there decodes into a zero value of the type. *)
Definition unmarshalControl {A} (into : doc → option A) (raw : gmap string doc) (key : string)
    : option A := raw !! key ≫= into.

Definition controlString (raw : gmap string doc) (key : string) : string :=
  default "" (unmarshalControl into_string raw key).

Section decode.
Context (float_text : string → option string).

Definition into_map (d : doc) : option (option jobject) :=
  match d with
  | DObject _ => match JsonText.value float_text d with Some (JObject m) => Some (Some m) | _ => None end
  | DNull => Some None
  | _ => None
  end.

(** The optional member [launch_token]. *)
Definition launch_token (raw : gmap string doc) : result frame_error string :=
  if bool_decide (raw !! "launch_token" = None) then Ok ""
  else match unmarshalControl into_string raw "launch_token" with
       | None => Err FrameToken
       | Some token => ensure (negb (is_blank token)) FrameTokenBlank ;; Ok token
       end.

(** The request, or why it is none; the request id is [controlString] in both cases. *)
Definition decodeControlRequest (raw : gmap string doc) : result frame_error controlRequest :=
  ensure (forallb (λ kv, bool_decide (kv.1 ∈ control_fields)) (map_to_list raw)) FrameUnknownField ;;
  match unmarshalControl into_int raw "protocol_version" with
  | None => Err FrameVersion
  | Some version =>
      ensure (bool_decide (version = MillProtocolVersion)) FrameVersionOther ;;
      match unmarshalControl into_string raw "request_id", unmarshalControl into_string raw "weaver_id",
            unmarshalControl into_string raw "operation" with
      | Some requestID, Some weaverID, Some operation =>
          ensure (negb (is_blank requestID) && negb (is_blank weaverID) && negb (is_blank operation))
            FrameBlank ;;
          token ← launch_token raw;
          match unmarshalControl into_map raw "arguments" with
          | None => Err FrameArguments
          | Some None => Err FrameArgumentsNil
          | Some (Some arguments) => Ok (mkControl requestID weaverID token operation arguments)
          end
      | _, _, _ => Err FrameIdentity
      end
  end.
End decode.

(** ** Arguments *)

(** The value of a launch specification, as custody takes it. *)
Fixpoint of_json (v : json) : Custody.value :=
  match v with
  | JNull => VNil
  | JBool b => VBool b
  | JNumber n => VNumber n
  | JString s => VString s
  | JArray l => VArray (of_json <$> l)
  | JObject m => VObject (map_fold (λ k v acc, (k, of_json v) :: acc) [] m)
  end.

Inductive control_error :=
| LaunchUnknownField
| LaunchRequired
| HandleUnknownField
| HandleBlank
| ListUnknownField
| OwnerBlank
| OwnerHandleUnknownField
| NotAnOperation
| InCustody (e : custody_error).

Definition only (keys : list string) (m : jobject) : bool :=
  forallb (λ kv, bool_decide (kv.1 ∈ keys)) (map_to_list m).

(** A member that is a string and not blank. *)
Definition nonblank (m : jobject) (key : string) : option string :=
  s ← as_jstring (m !! key); if is_blank s then None else Some s.

Definition as_jobject (v : option json) : option jobject :=
  match v with Some (JObject m) => Some m | _ => None end.

Definition need {A} (v : option A) (e : control_error) : result control_error A :=
  match v with Some a => Ok a | None => Err e end.

Definition launchArguments (m : jobject) : result control_error (string * string * jobject) :=
  ensure (only ["owner"; "key"; "launch_spec"] m) LaunchUnknownField ;;
  need (owner ← nonblank m "owner"; key ← nonblank m "key"; spec ← as_jobject (m !! "launch_spec");
        Some (owner, key, spec)) LaunchRequired.

Definition handleArgument (m : jobject) : result control_error string :=
  ensure (only ["handle"] m) HandleUnknownField ;; need (nonblank m "handle") HandleBlank.

Definition ownerArgument (m : jobject) : result control_error string :=
  ensure (only ["owner"] m) ListUnknownField ;; need (nonblank m "owner") OwnerBlank.

Definition ownerHandleArguments (m : jobject) : result control_error (string * string) :=
  ensure (only ["owner"; "handle"] m) OwnerHandleUnknownField ;;
  owner ← need (nonblank m "owner") OwnerBlank;
  handle ← need (nonblank m "handle") HandleBlank;
  Ok (owner, handle).

(** What the operations find: the answers to a launch, whether the output of a
    handle can be removed, and how the wait of a cancellation ends, with the custody
    it finds then. *)
Record custody_answers := mkCustodyAnswers {
  ca_launch : launch_answers;
  ca_remove : bool;
  ca_in_time : bool;
  ca_stop : option string;
  ca_later : custody;
}.

Inductive control_result :=
| RRecord (r : Rec)
| RRecords (l : list Rec)
| RAcknowledged (handle : string).

Definition from_custody {A} (f : A → control_result) (r : result custody_error A)
    : result control_error control_result :=
  match r with Ok a => Ok (f a) | Err e => Err (InCustody e) end.

(** The custody after the operation's own critical section, and its outcome. *)
Definition dispatchProcessControl (a : custody_answers) (operation : string) (arguments : jobject)
    (c : custody) : custody * result control_error control_result :=
  if bool_decide (operation = "process.launch") then
    match launchArguments arguments with
    | Err e => (c, Err e)
    | Ok (owner, key, specMap) =>
        match ParseLaunchSpec (Some (of_json <$> specMap)) with
        | Err e => (c, Err (InCustody e))
        | Ok spec => let '(c, r) := Launch (ca_launch a) owner key spec c in (c, from_custody RRecord r)
        end
    end
  else if bool_decide (operation = "process.get") then
    match handleArgument arguments with
    | Err e => (c, Err e)
    | Ok handle => (c, from_custody RRecord (Get handle c))
    end
  else if bool_decide (operation = "process.list-owned") then
    match ownerArgument arguments with
    | Err e => (c, Err e)
    | Ok owner => (c, Ok (RRecords (ListOwned owner c)))
    end
  else if bool_decide (operation = "process.cancel") then
    match ownerHandleArguments arguments with
    | Err e => (c, Err e)
    | Ok (owner, handle) =>
        let '(c, plan) := Cancel_begin owner handle c in
        (c, from_custody RRecord (Cancel_end plan handle (ca_in_time a) (ca_stop a) (ca_later a)))
    end
  else if bool_decide (operation = "process.acknowledge") then
    match ownerHandleArguments arguments with
    | Err e => (c, Err e)
    | Ok (owner, handle) =>
        let '(c, r) := Acknowledge (ca_remove a) owner handle c in
        (c, from_custody (λ _, RAcknowledged handle) r)
    end
  else (c, Err NotAnOperation).

(** ** Admission *)

(** A child as far as admission looks: [k_pid] is the pid of its process, [k_weaverID]
    and [k_identityPID] its published identity. *)
Record controlChild := mkControlChild {
  k_world : World;
  k_pid : option Z;
  k_weaverID : string;
  k_identityPID : Z;
  k_temporary : bool;
  k_unsupervised : bool;
  k_launchToken : string;
  k_startupWeaverID : string;
}.

(** A pool host; [h_process] is whether its command has a process. *)
Record controlHost := mkControlHost {
  h_process : bool;
  h_PID : Z;
  h_LaunchToken : string;
  h_Live : bool;
  h_Allowances : gmap string World;
}.

Record mill := mkMill {
  m_hosts : gmap string controlHost;
  m_children : gmap string controlChild;
  m_custodies : gmap string custody;
  m_stopping : bool;
}.

Definition with_child (f : gmap string controlChild → gmap string controlChild) (s : mill) : mill :=
  mkMill (m_hosts s) (f (m_children s)) (m_custodies s) (m_stopping s).
Definition with_custodies (f : gmap string custody → gmap string custody) (s : mill) : mill :=
  mkMill (m_hosts s) (m_children s) (f (m_custodies s)) (m_stopping s).
Definition with_hosts (f : gmap string controlHost → gmap string controlHost) (s : mill) : mill :=
  mkMill (f (m_hosts s)) (m_children s) (m_custodies s) (m_stopping s).
Definition set_startupWeaverID (id : string) (c : controlChild) : controlChild :=
  mkControlChild (k_world c) (k_pid c) (k_weaverID c) (k_identityPID c) (k_temporary c)
    (k_unsupervised c) (k_launchToken c) id.

Inductive admit_error :=
| PoolTokenMismatch
| UnknownMember
| PeerOther
| NotRunning
| TokenOfOther (weaverID : string)
| TokenEnded
| TokenBound (weaverID : string).

(** The orders in which the three loops meet hosts and children. *)
Record orders := mkOrders {
  o_hosts : list controlHost;
  o_children : list (string * controlChild);
  o_launches : list (string * controlChild);
}.

Definition orders_of (s : mill) (o : orders) : Prop :=
  o_hosts o ≡ₚ (map_to_list (m_hosts s)).*2 ∧ o_children o ≡ₚ map_to_list (m_children s) ∧
  o_launches o ≡ₚ map_to_list (m_children s).

Section admission.
Context (alive : Z → bool).

(** What the loop over the hosts returns at one of them, if it does. *)
Definition host_verdict (weaverID token : string) (callerPID : Z) (h : controlHost)
    : option (result admit_error World) :=
  if negb (h_process h && bool_decide (h_PID h = callerPID) && alive (h_PID h)) then None
  else match h_Allowances h !! weaverID with
       | Some w =>
           Some (if h_Live h && bool_decide (token = "") then Ok w
                 else if negb (bool_decide (h_LaunchToken h = token)) then Err PoolTokenMismatch
                 else Ok w)
       | None =>
           if bool_decide (h_LaunchToken h = token) && negb (is_blank weaverID)
           then Some (Err UnknownMember) else None
       end.

Definition identity_verdict (weaverID : string) (callerPID : Z) (kc : string * controlChild)
    : option (result admit_error World) :=
  if bool_decide (k_weaverID kc.2 = weaverID) then
    Some (if negb (bool_decide (k_identityPID kc.2 = callerPID)) then Err PeerOther
          else Ok (k_world kc.2))
  else None.

(** With the key of the child whose token was presented. *)
Definition launch_verdict (weaverID token : string) (callerPID : Z) (kc : string * controlChild)
    : option (result admit_error (string * World)) :=
  let c := kc.2 in
  if k_unsupervised c || bool_decide (k_launchToken c = "")
     || negb (bool_decide (k_launchToken c = token)) then None
  else Some
    (if negb (bool_decide (k_weaverID c = "")) then Err (TokenOfOther (k_weaverID c))
     else if negb (bool_decide (k_pid c = Some callerPID) && alive callerPID) then Err TokenEnded
     else if bool_decide (k_startupWeaverID c = "") || bool_decide (k_startupWeaverID c = weaverID)
          then Ok (kc.1, k_world c)
     else Err (TokenBound (k_startupWeaverID c))).

Definition admitControlCaller (o : orders) (weaverID token : string) (callerPID : Z) (s : mill)
    : mill * result admit_error World :=
  match head (omap (host_verdict weaverID token callerPID) (o_hosts o)) with
  | Some r => (s, r)
  | None =>
      match head (omap (identity_verdict weaverID callerPID) (o_children o)) with
      | Some r => (s, r)
      | None =>
          if is_blank token then (s, Err NotRunning)
          else match head (omap (launch_verdict weaverID token callerPID) (o_launches o)) with
               | None => (s, Err NotRunning)
               | Some (Err e) => (s, Err e)
               | Some (Ok (k, w)) => (with_child (alter (set_startupWeaverID weaverID) k) s, Ok w)
               end
      end
  end.
End admission.

(** ** The custody of a world *)

Inductive service_error := ShuttingDown | LifetimeEnded | NewFailed (e : custody_error).

Section service.
Context (xdg_state_home : string) (home : option string) (alive : Z → bool).

(** [mkdir_ok]: the output directory of a new custody can be made. *)
Definition custodyFor (mkdir_ok : bool) (w : World) (s : mill)
    : mill * result service_error custody :=
  let lives :=
    match m_children s !! w_ConfigDir w with
    | Some c => k_temporary c && bool_decide (w_StateDir (k_world c) = w_StateDir w)
                && from_option alive false (k_pid c)
    | None => false
    end in
  if m_stopping s then (s, Err ShuttingDown)
  else if IsTemporaryRuntimeDir xdg_state_home home (w_StateDir w) && negb lives
  then (s, Err LifetimeEnded)
  else match m_custodies s !! w_StateDir w with
       | Some c => (s, Ok c)
       | None =>
           match NewCustody (PathJoin [w_StateDir w; "processes"]) mkdir_ok with
           | Err e => (s, Err (NewFailed e))
           | Ok c => (with_custodies (insert (w_StateDir w) c) s, Ok c)
           end
       end.

(** ** Failures *)

Section texts.
(** [strings.ToLower], the [%q] verb and the texts of library errors. *)
Context (lower quote : string → string) (system_text : string).

(** The messages of custody.go and process.go, as far as they reach a caller. *)
Definition custody_text (e : custody_error) : string :=
  match e with
  | SpecNotObject => "launch_spec must be an object"
  | SpecUnknownField => "launch_spec contains unknown field " +:+ system_text
  | SpecArgvEmpty => "launch_spec argv must be a non-empty array"
  | SpecArgv i => "launch_spec argv[" +:+ pretty i +:+ "] must be a non-blank string"
  | SpecCwd => "launch_spec cwd must be an absolute string"
  | SpecEnvNotObject => "launch_spec env must be an object"
  | SpecEnvEntry => "launch_spec env" +:+ system_text
  | SpecStdin => "launch_spec stdin must be a string or null"
  | SpecCwdNotDirectory => "launch spec cwd must be a directory"
  | SpecCwdUnavailable => "launch spec cwd is unavailable: " +:+ system_text
  | BlankIdentity => "custody owner and key must not be blank"
  | Closed => "custody service is closed"
  | Acknowledged key owner =>
      "custody key " +:+ quote key +:+ " for owner " +:+ quote owner
        +:+ " was already acknowledged and cannot be relaunched"
  | Conflict key owner =>
      "custody key " +:+ quote key +:+ " for owner " +:+ quote owner
        +:+ " was already reserved with a different launch spec"
  | HandleAlloc => "allocate custody handle: " +:+ system_text
  | OutputDirectory => "create custody output directory: " +:+ system_text
  | OutputFile => "create custody std" +:+ system_text
  | UnknownHandle handle => "unknown custody handle " +:+ quote handle
  | OtherOwner => "custody handle belongs to a different owner"
  | NotTerminal => "custody handle is not terminal"
  | RemoveOutput => "remove custody output directory: " +:+ system_text
  | NotReaped handle => "custody process for handle " +:+ quote handle +:+ " did not finish reaping"
  | TreeFailed handle e => "cancel custody process group for handle " +:+ quote handle +:+ ": " +:+ e
  | TreeUnfinished handle =>
      "cancel custody process group for handle " +:+ quote handle +:+ " did not finish"
  | BlankRoot => "custody output root must not be blank"
  end.

Definition control_text (e : control_error) : string :=
  match e with
  | LaunchUnknownField => "launch arguments contain unknown field " +:+ system_text
  | LaunchRequired => "launch arguments require non-blank owner, key, and launch_spec"
  | HandleUnknownField => "handle arguments contain unknown field " +:+ system_text
  | HandleBlank => "handle must be a non-blank string"
  | ListUnknownField => "list-owned arguments contain unknown field " +:+ system_text
  | OwnerBlank => "owner must be a non-blank string"
  | OwnerHandleUnknownField => "owner/handle arguments contain unknown field " +:+ system_text
  | NotAnOperation => "unsupported process operation"
  | InCustody e => custody_text e
  end.

(** The code of a failure is read off its message. *)
Definition processErrorCode (text : string) : string :=
  let message := lower text in
  if Contains message "unknown custody handle" then "process/unknown-handle"
  else if Contains message "different owner" then "process/owner-mismatch"
  else if Contains message "already reserved" then "process/conflicting-key"
  else if Contains message "tombstone" || Contains message "already acknowledged"
  then "process/conflicting-key"
  else if Contains message "malformed" || Contains message "must be"
          || Contains message "launch spec" then "process/malformed-launch"
  else "process/error".

(** ** The handler *)

(** A response: the type, code and message of the envelope of a failure, without
    its detail. *)
Definition response : Type := string * result (string * string * string) control_result.

Definition not_admitted : string * string * string :=
  ("domain", "process/stale-weaver", "process control caller is not an admitted Weaver").

(** [peer] is what the connection says of its peer. The custody of the caller's world
    is replaced by the one the operation leaves. *)
Definition handleProcessControl (float_text : string → option string) (peer : option Z) (o : orders)
    (mkdir_ok : bool) (a : custody_answers) (raw : gmap string doc) (s : mill) : mill * response :=
  let requestID := controlString raw "request_id" in
  match peer with
  | None => (s, (requestID, Err not_admitted))
  | Some callerPID =>
      match decodeControlRequest float_text raw with
      | Err _ =>
          (s, (requestID, Err ("protocol", "process/malformed-request",
                               "malformed process control request")))
      | Ok request =>
          if negb (bool_decide (cr_Operation request ∈ controlOperations)) then
            (s, (requestID, Err ("protocol", "process/operation-not-allowed",
                                 "process operation is not available")))
          else
            match admitControlCaller alive o (cr_WeaverID request) (cr_LaunchToken request)
                    callerPID s with
            | (s, Err _) => (s, (requestID, Err not_admitted))
            | (s, Ok w) =>
                match custodyFor mkdir_ok w s with
                | (s, Err _) =>
                    (s, (requestID, Err ("domain", "process/unavailable",
                                         "Mill process custody is unavailable")))
                | (s, Ok c) =>
                    let '(c, r) := dispatchProcessControl a (cr_Operation request)
                                     (cr_Arguments request) c in
                    (with_custodies (insert (w_StateDir w) c) s,
                     (requestID, match r with
                                 | Ok v => Ok v
                                 | Err e => Err ("domain", processErrorCode (control_text e),
                                                 "process custody operation failed")
                                 end))
                end
            end
      end
  end.
End texts.
End service.

(** ** Lemmas *)

Lemma head_omap_some {A B} (f : A → option B) (l : list A) b :
  head (omap f l) = Some b → ∃ a, a ∈ l ∧ f a = Some b.
Proof.
  induction l as [|a l IH]; [done|]. cbn. destruct (f a) as [b'|] eqn:E.
  - intros [= ->]. exists a. split; [by left|done].
  - intros H. destruct (IH H) as (a' & ? & ?). exists a'. split; [by right|done].
Qed.

Lemma head_omap_none {A B} (f : A → option B) (l : list A) a :
  head (omap f l) = None → a ∈ l → f a = None.
Proof.
  induction l as [|a' l IH]; [intros _ H; by inversion H|]. cbn. destruct (f a') eqn:E; [done|].
  intros H [->|Ha]%elem_of_cons; auto.
Qed.

(** Why a caller may reach the custody of a world: it is the process of a pool host
    that allows the member, and presents the token of that host or needs none as it
    is live; it is the process of the child that published this identity; or it is
    the live process of a launch that published none, presents its token, and no
    other identity did before. *)
Inductive admitted (alive : Z → bool) (s : mill) (callerPID : Z) (weaverID token : string)
    (w : World) : Prop :=
| by_host p h : m_hosts s !! p = Some h → h_process h = true → h_PID h = callerPID →
    alive callerPID = true → h_Allowances h !! weaverID = Some w →
    (h_Live h = true ∧ token = "") ∨ h_LaunchToken h = token →
    admitted alive s callerPID weaverID token w
| by_identity k c : m_children s !! k = Some c → k_weaverID c = weaverID →
    k_identityPID c = callerPID → k_world c = w →
    admitted alive s callerPID weaverID token w
| by_launch k c : m_children s !! k = Some c → k_unsupervised c = false →
    k_launchToken c = token → is_blank token = false → k_weaverID c = "" →
    k_pid c = Some callerPID → alive callerPID = true →
    k_startupWeaverID c = "" ∨ k_startupWeaverID c = weaverID → k_world c = w →
    admitted alive s callerPID weaverID token w.

Section admission_lemmas.
Context (alive : Z → bool) (o : orders) (weaverID token : string) (callerPID : Z) (s : mill).
Hypothesis Horders : orders_of s o.

Lemma order_hosts h : h ∈ o_hosts o ↔ ∃ p, m_hosts s !! p = Some h.
Proof using Horders.
  destruct Horders as (-> & _ & _). rewrite list_elem_of_fmap. split.
  - intros ([p h'] & -> & Hp%elem_of_map_to_list). by exists p.
  - intros [p Hp]. exists (p, h). split; [done|]. by apply elem_of_map_to_list.
Qed.

Lemma order_launches k c : (k, c) ∈ o_launches o ↔ m_children s !! k = Some c.
Proof using Horders. destruct Horders as (_ & _ & ->). apply elem_of_map_to_list. Qed.

Lemma order_children k c : (k, c) ∈ o_children o ↔ m_children s !! k = Some c.
Proof using Horders. destruct Horders as (_ & -> & _). apply elem_of_map_to_list. Qed.

Lemma launch_verdict_ok k c k' w :
  launch_verdict alive weaverID token callerPID (k, c) = Some (Ok (k', w)) ↔
  k' = k ∧ w = k_world c ∧ k_unsupervised c = false ∧ k_launchToken c ≠ "" ∧ k_launchToken c = token ∧
  k_weaverID c = "" ∧ k_pid c = Some callerPID ∧ alive callerPID = true ∧
  (k_startupWeaverID c = "" ∨ k_startupWeaverID c = weaverID).
Proof using Type.
  unfold launch_verdict. cbn [fst snd]. destruct (k_unsupervised c); cbn [orb]; [naive_solver|].
  case_bool_decide; cbn [orb]; [naive_solver|]. case_bool_decide; cbn [negb]; [|naive_solver].
  case_bool_decide; cbn [negb]; [|naive_solver]. case_bool_decide; cbn [negb andb]; [|naive_solver].
  destruct (alive callerPID); cbn [negb]; [|naive_solver].
  case_bool_decide; cbn [orb]; [naive_solver|]. case_bool_decide; naive_solver.
Qed.

(** An admitted caller, and the child its token is bound to from then on. *)
Lemma admit_ok s' w :
  admitControlCaller alive o weaverID token callerPID s = (s', Ok w) →
  admitted alive s callerPID weaverID token w ∧
  (s' = s ∨ ∃ k, s' = with_child (alter (set_startupWeaverID weaverID) k) s).
Proof using Horders.
  unfold admitControlCaller. intros H.
  destruct (head (omap (host_verdict _ _ _ _) _)) as [r|] eqn:Eh.
  { injection H as <- ->. split; [|by left]. apply head_omap_some in Eh as (h & Hh & Hv).
    apply order_hosts in Hh as [p Hp]. unfold host_verdict in Hv.
    destruct (negb _) eqn:En; [done|]. bools. subst callerPID.
    destruct (h_Allowances h !! weaverID) as [w'|] eqn:Ea; [|by destruct (_ && _)].
    destruct (h_Live h && bool_decide (token = "")) eqn:El.
    - bools. injection Hv as ->. eapply by_host; eauto.
    - case_bool_decide; cbn in Hv; [|done]. injection Hv as ->. eapply by_host; eauto. }
  destruct (head (omap (identity_verdict _ _) _)) as [r|] eqn:Ei.
  { injection H as <- ->. split; [|by left]. apply head_omap_some in Ei as ([k c] & Hk & Hv).
    apply order_children in Hk. unfold identity_verdict in Hv. cbn in Hv.
    case_bool_decide; [|done]. case_bool_decide; cbn in Hv; [|done]. injection Hv as <-.
    eapply by_identity; eauto. }
  destruct (is_blank token) eqn:Eb; [done|].
  destruct (head (omap (launch_verdict _ _ _ _) _)) as [[[k w']|e]|] eqn:El; [|done..].
  injection H as <- ->. apply head_omap_some in El as ([k' c] & Hk & Hv). apply order_launches in Hk.
  apply launch_verdict_ok in Hv as (-> & -> & Hv). split; [|right; by exists k'].
  eapply by_launch; naive_solver.
Qed.

(** A refused caller changes nothing. *)
Lemma admit_err s' e : admitControlCaller alive o weaverID token callerPID s = (s', Err e) → s' = s.
Proof using Type.
  unfold admitControlCaller. destruct (head _) as [r|]; [by intros [= <- _]|].
  destruct (head _) as [r|]; [by intros [= <- _]|]. destruct (is_blank token); [by intros [= <-]|].
  destruct (head _) as [[[k w']|e']|]; [done|by intros [= <-]..].
Qed.
End admission_lemmas.

Lemma custodyFor_ok xdg home alive mk w s s' c :
  custodyFor xdg home alive mk w s = (s', Ok c) →
  m_stopping s = false ∧ m_custodies s' !! w_StateDir w = Some c ∧
  m_hosts s' = m_hosts s ∧ m_children s' = m_children s ∧
  (∀ d, d ≠ w_StateDir w → m_custodies s' !! d = m_custodies s !! d) ∧
  (∀ c', m_custodies s !! w_StateDir w = Some c' → c = c' ∧ s' = s).
Proof.
  unfold custodyFor. intros H. destruct (m_stopping s) eqn:Es; [done|].
  destruct (_ && _); [done|]. destruct (m_custodies s !! w_StateDir w) as [c'|] eqn:Ec.
  { injection H as <- <-. split_and!; try done. naive_solver. }
  destruct (NewCustody _ _) as [c'|e]; [|done]. injection H as <- <-. cbn.
  split_and!; try done; [by rewrite lookup_insert_eq|]. intros d Hd. by rewrite lookup_insert_ne.
Qed.

Lemma custodyFor_err xdg home alive mk w s s' e :
  custodyFor xdg home alive mk w s = (s', Err e) → s' = s.
Proof.
  unfold custodyFor. destruct (m_stopping s); [by intros [= <-]|].
  destruct (_ && _); [by intros [= <-]|]. destruct (m_custodies s !! _); [done|].
  destruct (NewCustody _ _); [done|by intros [= <-]].
Qed.


(** ** Launch tokens *)

(** [l_used] are the tokens of all launches so far, [l_bound] the identities that
    tokens admitted. *)
Record ledger := mkLedger {
  l_mill : mill;
  l_used : gset string;
  l_bound : list (string * string);
}.

Definition publish (weaverID : string) (pid : Z) (c : controlChild) : controlChild :=
  mkControlChild (k_world c) (k_pid c) weaverID pid (k_temporary c) (k_unsupervised c)
    (k_launchToken c) (k_startupWeaverID c).

(** The caller is admitted by its token alone. *)
Definition by_token (alive : Z → bool) (o : orders) (weaverID token : string) (callerPID : Z) : bool :=
  bool_decide (omap (host_verdict alive weaverID token callerPID) (o_hosts o) = [])
  && bool_decide (omap (identity_verdict weaverID callerPID) (o_children o) = []).

(** A request, whose weaver identity is not blank, and what happens to the children
    between the requests: a launch registers with a token of its own and nothing
    published or bound, a child publishes its identity, a child leaves, hosts come
    and go. *)
Inductive ledger_step (alive : Z → bool) : ledger → ledger → Prop :=
| step_admit l o weaverID token callerPID s' r :
    is_blank weaverID = false → orders_of (l_mill l) o →
    admitControlCaller alive o weaverID token callerPID (l_mill l) = (s', r) →
    ledger_step alive l
      (mkLedger s' (l_used l)
         (if is_ok r && by_token alive o weaverID token callerPID
          then (token, weaverID) :: l_bound l else l_bound l))
| step_register l k c :
    k_launchToken c ∉ l_used l → k_startupWeaverID c = "" → k_weaverID c = "" →
    ledger_step alive l
      (mkLedger (with_child <[k := c]> (l_mill l)) ({[k_launchToken c]} ∪ l_used l) (l_bound l))
| step_publish l k weaverID pid :
    weaverID ≠ "" →
    ledger_step alive l
      (mkLedger (with_child (alter (publish weaverID pid) k) (l_mill l)) (l_used l) (l_bound l))
| step_leave l k :
    ledger_step alive l (mkLedger (with_child (delete k) (l_mill l)) (l_used l) (l_bound l))
| step_hosts l h :
    ledger_step alive l (mkLedger (with_hosts (λ _, h) (l_mill l)) (l_used l) (l_bound l)).

Definition no_launches (h : gmap string controlHost) (c : gmap string custody) : ledger :=
  mkLedger (mkMill h ∅ c false) ∅ [].

Record ledger_inv (l : ledger) : Prop := {
  li_used : ∀ k c, m_children (l_mill l) !! k = Some c → k_launchToken c ∈ l_used l;
  li_own : ∀ k k' c c', m_children (l_mill l) !! k = Some c → m_children (l_mill l) !! k' = Some c' →
    k_launchToken c = k_launchToken c' → k = k';
  li_bound : ∀ t w, (t, w) ∈ l_bound l → w ≠ "" ∧ t ∈ l_used l ∧
    ∀ k c, m_children (l_mill l) !! k = Some c → k_launchToken c = t → k_startupWeaverID c = w;
  li_functional : ∀ t w w', (t, w) ∈ l_bound l → (t, w') ∈ l_bound l → w = w';
}.

(** A change of the children that keeps their tokens, and binds only those not bound. *)
Definition settles (s s' : mill) : Prop :=
  ∀ k c', m_children s' !! k = Some c' →
    ∃ c, m_children s !! k = Some c ∧ k_launchToken c' = k_launchToken c ∧
      (k_startupWeaverID c ≠ "" → k_startupWeaverID c' = k_startupWeaverID c).

Lemma ledger_settles l s' : ledger_inv l → settles (l_mill l) s' →
  ledger_inv (mkLedger s' (l_used l) (l_bound l)).
Proof.
  intros [H1 H2 H3 H4] Hs. split; cbn; try done.
  - intros k c' Hk. destruct (Hs _ _ Hk) as (c & Hc & -> & _). eauto.
  - intros k k' c c' Hk Hk' E. destruct (Hs _ _ Hk) as (c1 & Hc1 & E1 & _), (Hs _ _ Hk') as (c2 & Hc2 & E2 & _).
    eapply H2; eauto; congruence.
  - intros t w Hb. destruct (H3 t w Hb) as (Hw & Hu & Hk). split; [done|]. split; [done|].
    intros k c' Hc' Ht. destruct (Hs _ _ Hc') as (c & Hc & Et & Es).
    assert (k_startupWeaverID c = w) as E by (eapply Hk; [done|congruence]). rewrite Es; congruence.
Qed.

Lemma settles_alter s f k :
  (∀ c, m_children s !! k = Some c → k_launchToken (f c) = k_launchToken c ∧
     (k_startupWeaverID c ≠ "" → k_startupWeaverID (f c) = k_startupWeaverID c)) →
  settles s (with_child (alter f k) s).
Proof.
  intros Hf k' c' H. cbn in H. destruct (decide (k' = k)) as [->|Hne].
  - rewrite lookup_alter_eq in H. apply fmap_Some in H as (c & Hc & ->).
    destruct (Hf c Hc). by exists c.
  - rewrite lookup_alter_ne in H by done. by exists c'.
Qed.

(** What the binding of a token does. *)
Lemma ledger_bind l k c w :
  ledger_inv l → m_children (l_mill l) !! k = Some c → w ≠ "" →
  k_startupWeaverID c = "" ∨ k_startupWeaverID c = w →
  ledger_inv (mkLedger (with_child (alter (set_startupWeaverID w) k) (l_mill l)) (l_used l)
                ((k_launchToken c, w) :: l_bound l)).
Proof.
  intros Hinv Hc Hw Hs.
  assert (ledger_inv (mkLedger (with_child (alter (set_startupWeaverID w) k) (l_mill l)) (l_used l)
            (l_bound l))) as [H1 H2 H3 H4].
  { apply ledger_settles; [done|]. apply settles_alter. intros c' Hc'. cbn. split; [done|].
    intros. destruct Hs; congruence. }
  assert (∀ w', (k_launchToken c, w') ∈ l_bound l → w' = w) as Hold.
  { intros w' Hb. destruct (li_bound _ Hinv _ _ Hb) as (Hn & _ & Hk).
    pose proof (Hk k c Hc eq_refl). destruct Hs; congruence. }
  split; cbn; try done.
  - intros t w' [[= -> ->]|Hb]%elem_of_cons; [|by apply H3]. split; [done|].
    split; [by apply (li_used _ Hinv k)|]. intros k' c' Hk' Et.
    destruct (decide (k' = k)) as [->|Hne].
    + rewrite lookup_alter_eq, Hc in Hk'. by injection Hk' as <-.
    + rewrite lookup_alter_ne in Hk' by done. destruct Hne. by eapply (li_own _ Hinv).
  - intros t w1 w2 [[= -> ->]|Hb1]%elem_of_cons [E|Hb2]%elem_of_cons.
    + by injection E as ->.
    + symmetry. by apply Hold.
    + injection E as -> ->. by apply Hold.
    + by eapply H4.
Qed.

Lemma by_token_none alive o weaverID token callerPID :
  by_token alive o weaverID token callerPID = true ↔
  head (omap (host_verdict alive weaverID token callerPID) (o_hosts o)) = None ∧
  head (omap (identity_verdict weaverID callerPID) (o_children o)) = None.
Proof.
  unfold by_token. rewrite andb_true_iff, !bool_decide_eq_true.
  by rewrite !head_None.
Qed.

Lemma ledger_inv_step alive l l' : ledger_inv l → ledger_step alive l l' → ledger_inv l'.
Proof.
  intros Hinv. destruct 1 as [l o weaverID token callerPID s' r Hb Ho Ha|l k c Hu Hs Hw|l k w pid Hw|l k|l h].
  - apply not_blank_nonempty in Hb. revert Ha. unfold admitControlCaller.
    destruct (head (omap (host_verdict _ _ _ _) _)) as [r1|] eqn:Eh.
    { intros [= <- <-]. assert (by_token alive o weaverID token callerPID = false) as ->.
      { apply not_true_iff_false. rewrite by_token_none. naive_solver. }
      rewrite andb_false_r. by destruct l. }
    destruct (head (omap (identity_verdict _ _) _)) as [r1|] eqn:Ei.
    { intros [= <- <-]. assert (by_token alive o weaverID token callerPID = false) as ->.
      { apply not_true_iff_false. rewrite by_token_none. naive_solver. }
      rewrite andb_false_r. by destruct l. }
    assert (by_token alive o weaverID token callerPID = true) as -> by (by apply by_token_none).
    destruct (is_blank token); [intros [= <- <-]; by destruct l|].
    destruct (head (omap (launch_verdict _ _ _ _) _)) as [[[k w]|e]|] eqn:El;
      try (intros [= <- <-]; by destruct l).
    intros [= <- <-]. cbn [is_ok andb]. apply head_omap_some in El as ([k' c] & Hk & Hv).
    apply (order_launches o (l_mill l) Ho) in Hk.
    apply launch_verdict_ok in Hv as (-> & _ & _ & _ & <- & _ & _ & _ & Hst). by apply ledger_bind.
  - destruct Hinv as [H1 H2 H3 H4]. split; cbn.
    + intros k' c'. destruct (decide (k' = k)) as [->|Hne].
      * rewrite lookup_insert_eq. intros [= ->]. set_solver.
      * rewrite lookup_insert_ne by done. intros Hk. apply H1 in Hk. set_solver.
    + assert (∀ k' c', m_children (l_mill l) !! k' = Some c' → k_launchToken c' ≠ k_launchToken c) as Hfresh
        by (intros k' c' Hk' E; apply Hu; rewrite <-E; eauto).
      intros k1 k2 c1 c2. destruct (decide (k1 = k)) as [->|Hn1], (decide (k2 = k)) as [->|Hn2];
        rewrite ?lookup_insert_eq, ?(lookup_insert_ne (m_children (l_mill l))) by done; try done.
      * intros [= ->] H E. by edestruct Hfresh.
      * intros H [= ->] E. by edestruct Hfresh.
      * apply H2.
    + intros t w Hb. destruct (H3 t w Hb) as (Hn & Ht & Hk). split; [done|]. split; [set_solver|].
      intros k' c'. destruct (decide (k' = k)) as [->|Hne].
      * rewrite lookup_insert_eq. intros [= ->] <-. done.
      * rewrite lookup_insert_ne by done. apply Hk.
    + done.
  - apply ledger_settles; [done|]. by apply settles_alter.
  - apply ledger_settles; [done|]. intros k' c' H. cbn in H. apply lookup_delete_Some in H as [_ H].
    by exists c'.
  - apply ledger_settles; [done|]. intros k' c' H. by exists c'.
Qed.

(** However requests, launches, publications and departures follow each other, a
    launch token admits by itself at most one weaver identity. *)
Theorem token_pins alive h c l token w1 w2 :
  rtc (ledger_step alive) (no_launches h c) l →
  (token, w1) ∈ l_bound l → (token, w2) ∈ l_bound l → w1 = w2.
Proof.
  intros Hl. assert (ledger_inv l) as Hinv.
  { eapply (rtc_invariant (ledger_step alive) ledger_inv); [|split|exact Hl].
    - intros x y. apply ledger_inv_step.
    - intros k c' H. cbn in H. by rewrite lookup_empty in H.
    - intros k k' c' c'' H. cbn in H. by rewrite lookup_empty in H.
    - intros t w H. by apply elem_of_nil in H.
    - intros t w w' H. by apply elem_of_nil in H. }
  intros H1 H2. by eapply li_functional.
Qed.

(** ** Error codes *)

(** The two laws of [strings.ToLower] about the constant parts of a message. *)
Definition lower_ascii (s : string) : string := of_bytes (lower_byte <$> bytes_of s).
Definition plain_ascii (s : string) : bool := forallb (λ c, (Ascii.N_of_ascii c <? 128)%N) (bytes_of s).

Record lower_laws (lower : string → string) : Prop := {
  lower_before : ∀ p s, plain_ascii p = true → lower (p +:+ s) = lower_ascii p +:+ lower s;
  lower_after : ∀ s p, plain_ascii p = true → lower (s +:+ p) = lower s +:+ lower_ascii p;
  lower_empty : lower "" = "";
}.

Section codes.
Context (lower quote : string → string) (system_text : string).
Hypothesis Hlower : lower_laws lower.

Definition code (e : control_error) : string :=
  processErrorCode lower (control_text quote system_text e).

Lemma lower_plain p : plain_ascii p = true → lower p = lower_ascii p.
Proof using Hlower.
  intros Hp. rewrite <-(str_app_nil_r p) at 1. rewrite (lower_before _ Hlower) by done.
  by rewrite (lower_empty _ Hlower), str_app_nil_r.
Qed.

(** The code of a constant message can be computed. *)
Lemma code_plain e :
  plain_ascii (control_text quote system_text e) = true →
  code e = processErrorCode lower_ascii (control_text quote system_text e).
Proof using Hlower. intros Hp. unfold code, processErrorCode. by rewrite lower_plain. Qed.

Lemma contains_before p s : plain_ascii p = true → lower_ascii p = p → Contains (lower (p +:+ s)) p = true.
Proof using Hlower.
  intros Hp Hl. rewrite (lower_before _ Hlower), Hl by done. exact (Contains_in "" p (lower s)).
Qed.

Lemma contains_after s p q : plain_ascii p = true → lower_ascii p = q → ∀ w a b, q = a +:+ w +:+ b →
  Contains (lower (s +:+ p)) w = true.
Proof using Hlower.
  intros Hp Hl w a b ->. rewrite (lower_after _ Hlower), Hl by done.
  rewrite <-str_app_assoc. apply Contains_in.
Qed.

Definition user_code (text : string) : string :=
  if Contains (lower text) "unknown custody handle" then "process/unknown-handle"
  else if Contains (lower text) "different owner" then "process/owner-mismatch"
  else "process/conflicting-key".

Lemma code_conflict key owner : code (InCustody (Conflict key owner))
  = user_code (custody_text quote system_text (Conflict key owner)).
Proof using Hlower.
  unfold code, processErrorCode, user_code. cbn [control_text custody_text].
  destruct (Contains _ "unknown custody handle"); [done|].
  destruct (Contains _ "different owner"); [done|].
  rewrite <-!str_app_assoc.
  by rewrite (contains_after _ " was already reserved with a different launch spec" _ eq_refl eq_refl
    "already reserved" " was " " with a different launch spec" eq_refl).
Qed.

Lemma code_acknowledged key owner : code (InCustody (Acknowledged key owner))
  = user_code (custody_text quote system_text (Acknowledged key owner)).
Proof using Hlower.
  unfold code, processErrorCode, user_code. cbn [control_text custody_text].
  destruct (Contains _ "unknown custody handle"); [done|].
  destruct (Contains _ "different owner"); [done|].
  rewrite <-!str_app_assoc.
  rewrite (contains_after _ " was already acknowledged and cannot be relaunched" _ eq_refl eq_refl
    "already acknowledged" " was " " and cannot be relaunched" eq_refl).
  rewrite orb_true_r. by destruct (Contains _ "already reserved").
Qed.

(** The failures whose message is constant, by the code they get. *)
Definition malformed_codes : list control_error :=
  InCustody <$> [SpecNotObject; SpecArgvEmpty; SpecCwd; SpecEnvNotObject; SpecStdin; SpecCwdNotDirectory].

Definition argument_codes : list control_error := [HandleBlank; OwnerBlank].

Definition other_codes : list control_error :=
  [LaunchRequired; NotAnOperation] ++ (InCustody <$> [Closed; NotTerminal; BlankIdentity]).

Lemma codes_plain (l : list control_error) c :
  Forall (λ e, plain_ascii (control_text quote system_text e) = true ∧
    processErrorCode lower_ascii (control_text quote system_text e) = c) l →
  ∀ e, e ∈ l → code e = c.
Proof using Hlower. rewrite Forall_forall. intros H e He. destruct (H e He) as [Hp <-]. by apply code_plain. Qed.
End codes.

(** The code of a failure, read off its message. A handle that custody does not know,
    another owner's handle and a launch specification or argument of the wrong shape
    have their own codes whatever the texts of the caller; a conflicting or
    acknowledged key has the code of a conflict unless the key or the owner, which the
    message quotes, bring in a phrase of another code. A launch without its required
    members and an acknowledgement before the end have no code of their own. *)
Theorem error_codes lower quote system_text :
  lower_laws lower →
  let code := code lower quote system_text in
  (∀ handle, code (InCustody (UnknownHandle handle)) = "process/unknown-handle") ∧
  code (InCustody OtherOwner) = "process/owner-mismatch" ∧
  (∀ e, e ∈ malformed_codes ++ argument_codes → code e = "process/malformed-launch") ∧
  (∀ e, e ∈ other_codes → code e = "process/error") ∧
  (∀ key owner e, e = Conflict key owner ∨ e = Acknowledged key owner →
     let message := lower (custody_text quote system_text e) in
     code (InCustody e) =
       if Contains message "unknown custody handle" then "process/unknown-handle"
       else if Contains message "different owner" then "process/owner-mismatch"
       else "process/conflicting-key").
Proof.
  intros Hl code0. unfold code0. split; [|split; [|split; [|split]]].
  - intros handle. unfold code, processErrorCode. cbn [control_text custody_text].
    assert (Contains (lower ("unknown custody handle " +:+ quote handle)) "unknown custody handle" = true) as ->;
      [|done].
    rewrite (lower_before _ Hl) by done. exact (Contains_in "" "unknown custody handle" (" " +:+ lower (quote handle))).
  - rewrite code_plain; done.
  - apply codes_plain; [done|]. repeat (apply Forall_cons; split; [by split|]). by apply Forall_nil.
  - apply codes_plain; [done|]. repeat (apply Forall_cons; split; [by split|]). by apply Forall_nil.
  - intros key owner e [->| ->]; [by rewrite code_conflict|by rewrite code_acknowledged].
Qed.

(** ** Examples *)

Lemma lower_ascii_laws : lower_laws lower_ascii.
Proof.
  split; try done; intros; unfold lower_ascii; rewrite bytes_of_app, fmap_app; rewrite <-(bytes_of_of (_ <$> bytes_of p)) at 1.
  all: rewrite <-(bytes_of_of (_ <$> bytes_of s)) at 1; rewrite <-bytes_of_app; by rewrite of_bytes_of.
Qed.

(** A key that names a phrase of another failure changes the code of its conflict. *)
Lemma error_codes_witness :
  lower_laws lower_ascii ∧
  code lower_ascii id "" (InCustody (UnknownHandle "h")) = "process/unknown-handle" ∧
  code lower_ascii id "" (InCustody (Conflict "different owner" "me")) = "process/owner-mismatch".
Proof.
  destruct (error_codes lower_ascii id "" lower_ascii_laws) as (H1 & _ & _ & _ & H5).
  split; [exact lower_ascii_laws|]. split; [exact (H1 "h")|].
  exact (H5 "different owner" "me" _ (or_introl eq_refl)).
Defined.

Definition demo_world : World := mkWorld "/w/.millstrand" "/s/w" "/s/w/data" "/w/.millstrand/c" "/s/w/data/d".
Definition demo_child : controlChild := mkControlChild demo_world (Some 42%Z) "" 0 false false "token" "".
Definition demo_mill : mill := mkMill ∅ {["/w/.millstrand" := demo_child]} ∅ false.
Definition demo_orders (c : controlChild) : orders :=
  mkOrders [] [("/w/.millstrand", c)] [("/w/.millstrand", c)].

Lemma demo_ordered c : orders_of (mkMill ∅ {["/w/.millstrand" := c]} ∅ false) (demo_orders c).
Proof.
  split; [by vm_compute|]. unfold demo_orders. cbn [m_children o_children o_launches].
  by rewrite map_to_list_singleton.
Qed.

Definition demo_frame : gmap string doc :=
  members [("protocol_version", DNumber "3"); ("request_id", DString "q"); ("weaver_id", DString "w1");
    ("launch_token", DString "token"); ("operation", DString "process.list-owned");
    ("arguments", DObject [("owner", DString "me")])].

Definition demo_custody_answers : custody_answers :=
  mkCustodyAnswers (mkAnswers (λ _, StatDir) None true true true (Ok 7%Z)) true true None
    (mkCustody "" ∅ ∅ ∅ false).


(** A registered launch, whose token then admits one identity twice. *)
Lemma token_pins_witness :
  ∃ l, rtc (ledger_step (λ _, true)) (no_launches ∅ ∅) l ∧ ("token", "w1") ∈ l_bound l ∧
    ∀ w, ("token", w) ∈ l_bound l → w = "w1".
Proof.
  set (l0 := no_launches ∅ ∅).
  set (l1 := mkLedger (with_child <["/w/.millstrand" := demo_child]> (l_mill l0)) ({["token"]} ∪ l_used l0) []).
  assert (ledger_step (λ _, true) l0 l1) as H1 by (apply (step_register (λ _, true) l0); set_solver).
  assert (l_mill l1 = demo_mill) as El by (by vm_compute).
  assert (orders_of (l_mill l1) (demo_orders demo_child)) as Ho by (rewrite El; apply demo_ordered).
  destruct (admitControlCaller (λ _, true) (demo_orders demo_child) "w1" "token" 42 (l_mill l1)) as [s r] eqn:E.
  set (l2 := mkLedger s (l_used l1) [("token", "w1")]).
  assert (ledger_step (λ _, true) l1 l2) as H2.
  { pose proof (step_admit (λ _, true) l1 _ "w1" "token" 42%Z s r eq_refl Ho E) as H.
    assert (is_ok r = true) as Hr by (rewrite El in E; vm_compute in E; by injection E as _ <-).
    by rewrite Hr in H. }
  assert (rtc (ledger_step (λ _, true)) l0 l2) as H by (eapply rtc_l; [exact H1|by apply rtc_once]).
  assert (("token", "w1") ∈ l_bound l2) as Hb by (by left).
  exists l2. split; [exact H|]. split; [exact Hb|]. intros w Hw.
  exact (token_pins _ _ _ _ _ _ _ H Hw Hb).
Defined.
