(* ===== verification/Bin.v ===== *)
(** Spool-shipped executables (src/cli/cmd/mill/bin.go): the plan that the weaver
    answers, its decoding, the command line of [mill bin], and what a build or a run
    executes with which arguments and environment. The invocation of the weaver, the
    environment, [exec.LookPath] and the processes are arguments, the texts of library
    errors parameters. *)

From stdpp Require Import pretty.
From S2P Require Export Dispatch.

(** ** Plans *)

Record BinExec := mkExec { be_Path : string; be_Command : string; be_Env : gmap string string }.
Record BinBuild := mkBuild { bb_Argv : list string; bb_CWD : string }.

Record BinPlan := mkPlan {
  bp_Operation : string;
  bp_Bin : string;
  bp_Runnable : option bool;
  bp_Exec : BinExec;
  bp_Build : option BinBuild;
}.

#[global] Instance BinExec_eq_dec : EqDecision BinExec.
Proof. solve_decision. Defined.
#[global] Instance BinBuild_eq_dec : EqDecision BinBuild.
Proof. solve_decision. Defined.
#[global] Instance BinPlan_eq_dec : EqDecision BinPlan.
Proof. solve_decision. Defined.

(** Which of several bad keys an iteration over a map meets first is not part of an
    error. *)
Inductive plan_error :=
| PlanNoObject
| PlanMissing (key : string)
| PlanText (key : string)
| PlanOperation
| PlanRunnable
| PlanExec
| PlanExecText (key : string)
| PlanExecBoth
| PlanEnv
| PlanEnvKey
| PlanBuild
| PlanArgv
| PlanArgvEntry
| PlanCwd
| PlanCommandRunnable
| PlanPathRunnable
| PlanPathAbsolute
| PlanCommandBare.

(** [decodeString] of a required member. *)
Definition decodeString (raw : gmap string doc) (key : string) : result plan_error string :=
  match raw !! key with
  | None => Err (PlanMissing key)
  | Some d =>
      match into_string d with
      | Some s => if is_blank s then Err (PlanText key) else Ok s
      | None => Err (PlanText key)
      end
  end.

(** The text, and whether the member is there. *)
Definition decodeExecString (values : gmap string doc) (key : string)
    : result plan_error (string * bool) :=
  match values !! key with
  | None => Ok ("", false)
  | Some d =>
      match into_string d with
      | Some s => if bool_decide (s = "") then Err (PlanExecText key) else Ok (s, true)
      | None => Err (PlanExecText key)
      end
  end.

Definition decodeRunnable (raw : gmap string doc) : result plan_error (option bool) :=
  match raw !! "runnable" with
  | None => Err (PlanMissing "runnable")
  | Some DNull => Ok None
  | Some (DBool b) => Ok (Some b)
  | Some _ => Err PlanRunnable
  end.

(** A non-nil [map[string]json.RawMessage]. *)
Definition object_members (d : doc) : option (gmap string doc) :=
  match d with DObject l => Some (members l) | _ => None end.

(** A non-nil [map[string]string]. *)
Definition string_members (d : doc) : option (gmap string string) :=
  match d with
  | DObject l => last_wins <$> mapM (λ kv, pair kv.1 <$> into_string kv.2) l
  | _ => None
  end.

Definition env_key_ok (key : string) : bool :=
  negb (bool_decide (key = "")) && negb (Contains key "=").

Definition decodeEnv (values : gmap string doc) : result plan_error (gmap string string) :=
  match values !! "env" with
  | None => Err (PlanMissing "exec.env")
  | Some d =>
      match string_members d with
      | None => Err PlanEnv
      | Some env => ensure (forallb (λ kv, env_key_ok kv.1) (map_to_list env)) PlanEnvKey ;; Ok env
      end
  end.

(** A [[]string] field, from the members that name it: an array is decoded over the
    one before, null clears it, and a null element leaves what it finds. *)
Definition strings_field (l : list doc) : option (option (list string)) :=
  foldl (λ acc d, old ← acc;
           match d with
           | DArray es =>
               Some <$> mapM (λ ie, match ie.2 with
                                    | DString s => Some s
                                    | DNull => Some (default "" (default [] old !! ie.1))
                                    | _ => None
                                    end) (imap pair es)
           | DNull => Some None
           | _ => None
           end) (Some None) l.

Definition decodeBuild (d : doc) : result plan_error BinBuild :=
  match d with
  | DObject l =>
      match strings_field (field_values "argv" l), string_field (field_values "cwd" l) with
      | Some (Some argv), Some cwd =>
          ensure (negb (bool_decide (argv = []))) PlanArgv ;;
          ensure (forallb (λ a, negb (bool_decide (a = ""))) argv) PlanArgvEntry ;;
          ensure (negb (is_blank cwd) && IsAbs cwd) PlanCwd ;;
          Ok (mkBuild argv cwd)
      | _, _ => Err PlanArgv
      end
  | DNull => Err PlanBuild
  | _ => Err PlanArgv
  end.

Definition separator_in (s : string) : bool :=
  existsb (λ c, bool_decide (c = slash) || bool_decide (c = backslash)) (bytes_of s).

Arguments separator_in : simpl never.

(** [BinPlan.UnmarshalJSON] *)
Definition UnmarshalJSON (d : doc) : result plan_error BinPlan :=
  match as_frame d with
  | None => Err PlanNoObject
  | Some raw =>
      ensure (negb (bool_decide (raw = ∅))) PlanNoObject ;;
      operation ← decodeString raw "operation";
      ensure (bool_decide (operation = "bins plan")) PlanOperation ;;
      bin ← decodeString raw "bin";
      runnable ← decodeRunnable raw;
      match raw !! "exec" with
      | None => Err (PlanMissing "exec")
      | Some execRaw =>
          match object_members execRaw with
          | None => Err PlanExec
          | Some execMap =>
              '(path, pathPresent) ← decodeExecString execMap "path";
              '(command, commandPresent) ← decodeExecString execMap "command";
              ensure (xorb pathPresent commandPresent) PlanExecBoth ;;
              env ← decodeEnv execMap;
              build ← match raw !! "build" with
                      | None => Ok None
                      | Some d => b ← decodeBuild d; Ok (Some b)
                      end;
              ensure (negb (commandPresent && bool_decide (is_Some runnable))) PlanCommandRunnable ;;
              ensure (negb (pathPresent && bool_decide (runnable = None))) PlanPathRunnable ;;
              ensure (negb (pathPresent && negb (IsAbs path))) PlanPathAbsolute ;;
              ensure (negb (commandPresent && separator_in command)) PlanCommandBare ;;
              Ok (mkPlan operation bin runnable (mkExec path command env) build)
          end
      end
  end.

(** ** The command line *)

Record parsedBinInvocation := mkInvocation {
  pb_workspace : string;
  pb_bin : string;
  pb_args : list string;
  pb_help : bool;
}.

Inductive bin_usage :=
| NameRequired
| WorkspaceArgument
| WorkspaceEmpty
| BinUnknownFlag (arg : string)
| BuildArgument (arg : string).

(** The flags before the name, which is empty until there is one. *)
Fixpoint parse_bin (workspace name : string) (args : list string)
    : result bin_usage parsedBinInvocation :=
  if negb (bool_decide (name = "")) then Ok (mkInvocation workspace name args false)
  else match args with
  | [] => Err NameRequired
  | arg :: rest =>
      if bool_decide (arg = "--help") || bool_decide (arg = "-h")
      then Ok (mkInvocation workspace "" [] true)
      else if bool_decide (arg = "--") then
        match rest with [] => Err NameRequired | n :: rest' => parse_bin workspace n rest' end
      else if bool_decide (arg = "--workspace") then
        match rest with [] => Err WorkspaceArgument | w :: rest' => parse_bin w "" rest' end
      else match inline_value arg "--workspace" with
      | Some w => if bool_decide (w = "") then Err WorkspaceEmpty else parse_bin w "" rest
      | None =>
          if HasPrefix arg "-" then Err (BinUnknownFlag arg) else parse_bin workspace arg rest
      end
  end.

Definition parseBinInvocation (workspace : string) (args : list string) (allowArgs : bool)
    : result bin_usage parsedBinInvocation :=
  p ← parse_bin workspace "" args;
  match pb_args p with
  | arg :: _ => if allowArgs then Ok p else Err (BuildArgument arg)
  | [] => Ok p
  end.

(** ** The environment of a process *)

(** [strings.Cut(entry, "=")] *)
Definition entry_key (entry : string) : option string := fst <$> Cut entry "="%char.

(** The last position of every key. *)
Definition key_positions (base : list string) : gmap string nat :=
  foldl (λ m ie, match entry_key ie.2 with Some key => <[key := ie.1]> m | None => m end)
    ∅ (imap pair base).

Definition overlay_entry (acc : list string * gmap string nat) (kv : string * string)
    : list string * gmap string nat :=
  let '(result, positions) := acc in
  let entry := kv.1 +:+ "=" +:+ kv.2 in
  match positions !! kv.1 with
  | Some i => (<[i := entry]> result, positions)
  | None => (result ++ [entry], <[kv.1 := length result]> positions)
  end.

Definition sorted_entries (overlay : gmap string string) : list (string * string) :=
  sort_stable (λ a b, str_ltb a.1 b.1) (map_to_list overlay).

Definition overlayEnvironment (base : list string) (overlay : gmap string string) : list string :=
  (foldl overlay_entry (base, key_positions base) (sorted_entries overlay)).1.

(** ** Failures *)

Record binError := mkBinError {
  e_Operation : string;
  e_Bin : string;
  e_Code : string;
  e_Message : string;
  e_Details : jobject;
}.

(** The members of the command itself win over details of the same name. *)
Definition binFailureEnvelope (e : binError) : jobject :=
  let named := if bool_decide (e_Bin e = "") then ∅ else {["bin" := JString (e_Bin e)]} in
  (named ∪ (<["operation" := JString (e_Operation e)]>
     {["error" := JString (if bool_decide (e_Code e = "") then e_Message e else e_Code e)]}))
  ∪ e_Details e.

Section texts.
Context (quote : string → string) (system_text : string).

Definition plan_text (e : plan_error) : string :=
  "malformed bins plan: " +:+
  match e with
  | PlanNoObject => system_text
  | PlanMissing key => "missing " +:+ key
  | PlanText key => key +:+ " must be a non-empty string"
  | PlanOperation => "operation must be " +:+ quote "bins plan"
  | PlanRunnable => "runnable must be boolean or null"
  | PlanExec => "exec must be an object"
  | PlanExecText key => "exec." +:+ key +:+ " must be a non-empty string"
  | PlanExecBoth => "exec must carry exactly one of path or command"
  | PlanEnv => "exec.env must be an object of strings"
  | PlanEnvKey => "invalid environment key " +:+ system_text
  | PlanBuild => "build must be an object when present"
  | PlanArgv => "build.argv must be a non-empty string array"
  | PlanArgvEntry => "build.argv entries must be non-empty strings"
  | PlanCwd => "build.cwd must be an absolute non-empty string"
  | PlanCommandRunnable => "command exec must have null runnable"
  | PlanPathRunnable => "path exec must have boolean runnable"
  | PlanPathAbsolute => "exec.path must be absolute"
  | PlanCommandBare => "exec.command must be a bare name"
  end.

(** What a plan is not fetched for: the call fails, or its result is no plan. *)
Inductive fetch_error :=
| FetchCall (e : call_error)
| FetchStatus (code : Z)
| FetchEmpty
| FetchSyntax
| FetchPlan (e : plan_error).

Definition fetch_text (e : fetch_error) : string :=
  match e with
  | FetchCall (Response r) => PlainMessage (forRendering r [])
  | FetchCall (TransportError message _) | FetchCall (Bare message) => message
  | FetchStatus code => "bins operation exited with status " +:+ pretty code
  | FetchEmpty => "malformed bins response: empty result"
  | FetchSyntax => system_text
  | FetchPlan e => plan_text e
  end.

Definition binOperationError (operation name : string) (e : fetch_error) : binError :=
  match e with
  | FetchCall (Response r) =>
      mkBinError operation name (re_Code r) (re_Message r) (default ∅ (re_Details r))
  | _ => mkBinError operation name "" (fetch_text e) {["cause" := JString (fetch_text e)]}
  end.

(** ** Commands *)

Context (Version BuildID : string) (pid : Z).

(** [world] is the cwd and the workspace of the request. *)
Definition binEnvelope (world : string * string) (argv : list string) : jobject :=
  with_text "workspace" world.2
    (<["name" := JString "bins"]> (<["argv" := strings argv]> (<["payloads" := JObject ∅]>
    (<["cwd" := JString world.1]> (<["is_tty" := JBool false]> (<["tty_col" := JNull]>
    (<["client" := JObject (<["pid" := number pid]> (<["version" := JString Version]>
                     {["build_id" := JString BuildID]}))]> ∅))))))).

(** [client.InvokeThroughMill], writing to a buffer. *)
Context (binInvoke : jobject → io * outcome).

Definition invokeBin (world : string * string) (argv : list string) : result fetch_error string :=
  let '(s, (code, err)) := binInvoke (binEnvelope world argv) in
  match err with
  | Some e => Err (FetchCall e)
  | None =>
      ensure (bool_decide (code = 0%Z)) (FetchStatus code) ;;
      ensure (negb (bool_decide (s_text (stdout s) = ""))) FetchEmpty ;;
      Ok (s_text (stdout s))
  end.

Definition fetchBinPlan (world : string * string) (name : string) : result fetch_error BinPlan :=
  text ← invokeBin world ["plan"; name];
  match JsonText.parse text with
  | None => Err FetchSyntax
  | Some d => match UnmarshalJSON d with Ok p => Ok p | Err e => Err (FetchPlan e) end
  end.

(** A process that is started: its file, its arguments with the name first, its
    directory ([None] is that of mill) and its environment. *)
Record execution := mkExecution {
  x_file : string;
  x_argv : list string;
  x_dir : option string;
  x_env : list string;
}.

(** How a build ends: it does not start, or exits with a code. *)
Inductive build_end := NoStart (cause : string) | Exited (code : Z).

Context (environ : list string).

Definition build_execution (b : BinBuild) (env : gmap string string) : execution :=
  mkExecution (default "" (head (bb_Argv b))) (bb_Argv b) (Some (bb_CWD b))
    (overlayEnvironment environ env).

Definition bin_error (operation name code message : string) (details : jobject) : binError :=
  mkBinError operation name code message details.

(** The processes that were started, and the report or the failure. *)
Definition runBinBuild (world : string * string) (name : string)
    (ends : execution → build_end) (elapsed_ms : Z) : list execution * result binError json :=
  match fetchBinPlan world name with
  | Err e => ([], Err (binOperationError "bin build" name e))
  | Ok plan =>
      match bp_Build plan with
      | None =>
          ([], Err (bin_error "bin build" name "bin/no-build-recipe"
                      ("bin " +:+ quote name +:+ " declares no build recipe") ∅))
      | Some b =>
          let x := build_execution b (be_Env (bp_Exec plan)) in
          match ends x with
          | NoStart cause =>
              ([], Err (bin_error "bin build" name "bin/build-start-failed"
                          ("could not start build " +:+ quote (Join (bb_Argv b) " ") +:+ ": " +:+ cause)
                          (<["argv" := strings (bb_Argv b)]> {["cause" := JString cause]})))
          | Exited code =>
              ([x], if bool_decide (code = 0%Z)
                    then Ok (JObject (<["operation" := JString "bin build"]> (<["bin" := JString name]>
                               (<["exit" := number 0]> {["elapsed-ms" := number elapsed_ms]}))))
                    else Err (bin_error "bin build" name "bin/build-failed"
                                ("build exited with status " +:+ pretty code)
                                (<["argv" := strings (bb_Argv b)]> {["exit" := number code]})))
          end
      end
  end.

(** [exec.LookPath]: a path, or a failure; one found relative to the working directory
    is taken. *)
Inductive look := LookFound (path : string) | LookFailed (cause : string).

(** What a run of a bin executes, or why nothing. *)
Definition run_plan (plan : BinPlan) (name : string) (args : list string) (lookPath : string → look)
    : result binError execution :=
  let executable :=
    if bool_decide (be_Path (bp_Exec plan) = "") then
      match lookPath (be_Command (bp_Exec plan)) with
      | LookFound path => Ok path
      | LookFailed cause =>
          Err (bin_error "bin run" name "bin/exec-failed"
                 ("could not find " +:+ be_Command (bp_Exec plan) +:+ " in PATH: " +:+ cause)
                 (<["path" := JString (be_Command (bp_Exec plan))]> {["cause" := JString cause]}))
      end
    else Ok (be_Path (bp_Exec plan)) in
  match bp_Runnable plan, bp_Build plan with
  | Some false, Some _ =>
      Err (bin_error "bin run" name "bin/not-built"
             ("bin " +:+ quote name +:+ " is not runnable; build it with: mill bin build " +:+ name)
             {["remedy" := JString ("mill bin build " +:+ name)]})
  | Some false, None =>
      Err (bin_error "bin run" name "bin/not-runnable"
             ("bin " +:+ quote name +:+ " is not runnable at " +:+ be_Path (bp_Exec plan))
             {["path" := JString (be_Path (bp_Exec plan))]})
  | _, _ =>
      file ← executable;
      Ok (mkExecution file (file :: args) None (overlayEnvironment environ (be_Env (bp_Exec plan))))
  end.

(** [refused] is why [exec] returns, if it does; otherwise mill becomes the bin. *)
Definition runBinExec (world : string * string) (name : string) (args : list string)
    (lookPath : string → look) (refused : execution → option string) : result binError execution :=
  match fetchBinPlan world name with
  | Err e => Err (binOperationError "bin run" name e)
  | Ok plan =>
      x ← run_plan plan name args lookPath;
      match refused x with
      | None => Ok x
      | Some cause =>
          let path := if bool_decide (be_Path (bp_Exec plan) = "")
                      then be_Command (bp_Exec plan) else x_file x in
          Err (bin_error "bin run" name "bin/exec-failed" ("could not exec " +:+ path +:+ ": " +:+ cause)
                 (<["path" := JString path]> {["cause" := JString cause]}))
      end
  end.
End texts.

(** ** Lemmas: plans *)

Definition build_ok (b : BinBuild) : Prop :=
  bb_Argv b ≠ [] ∧ Forall (λ a, a ≠ "") (bb_Argv b) ∧ is_blank (bb_CWD b) = false ∧ IsAbs (bb_CWD b) = true.

(** Which plans there are: a path that is absolute, with its runnability, or a bare
    command without. *)
Record plan_ok (p : BinPlan) : Prop := {
  po_operation : bp_Operation p = "bins plan";
  po_bin : is_blank (bp_Bin p) = false;
  po_exec :
    (IsAbs (be_Path (bp_Exec p)) = true ∧ be_Command (bp_Exec p) = "" ∧ is_Some (bp_Runnable p)) ∨
    (be_Path (bp_Exec p) = "" ∧ be_Command (bp_Exec p) ≠ "" ∧
     separator_in (be_Command (bp_Exec p)) = false ∧ bp_Runnable p = None);
  po_env : ∀ k v, be_Env (bp_Exec p) !! k = Some v → env_key_ok k = true;
  po_build : ∀ b, bp_Build p = Some b → build_ok b;
}.

Definition encode_plan (p : BinPlan) : doc :=
  DObject
    ([("operation", DString (bp_Operation p)); ("bin", DString (bp_Bin p));
      ("runnable", from_option DBool DNull (bp_Runnable p));
      ("exec", DObject
         ((if bool_decide (be_Path (bp_Exec p) = "") then ("command", DString (be_Command (bp_Exec p)))
           else ("path", DString (be_Path (bp_Exec p))))
          :: [("env", DObject (prod_map id DString <$> map_to_list (be_Env (bp_Exec p))))]))]
     ++ match bp_Build p with
        | Some b => [("build", DObject [("argv", DArray (DString <$> bb_Argv b));
                                        ("cwd", DString (bb_CWD b))])]
        | None => []
        end).

Lemma decodeString_ok raw key s :
  decodeString raw key = Ok s → is_blank s = false.
Proof.
  unfold decodeString. destruct (raw !! key) as [d|]; [|done].
  destruct (into_string d) as [s'|]; [|done]. destruct (is_blank s') eqn:E; [done|]. by intros [= <-].
Qed.

Lemma decodeExecString_ok values key s b :
  decodeExecString values key = Ok (s, b) → (b = true ∧ s ≠ "") ∨ (b = false ∧ s = "").
Proof.
  unfold decodeExecString. destruct (values !! key) as [d|]; [|naive_solver].
  destruct (into_string d) as [s'|]; [|done]. case_bool_decide; naive_solver.
Qed.

Lemma decodeEnv_ok values env : decodeEnv values = Ok env → ∀ k v, env !! k = Some v → env_key_ok k = true.
Proof.
  unfold decodeEnv. destruct (values !! "env") as [d|]; [|done].
  destruct (string_members d) as [env'|]; [|done]. intros H k v Hk. inv_ok.
  match goal with H : forallb _ _ = true |- _ => rewrite forallb_forall in H; apply (H (k, v)) end.
  by apply list_elem_of_In, elem_of_map_to_list.
Qed.

Lemma decodeBuild_ok d b : decodeBuild d = Ok b → build_ok b.
Proof.
  unfold decodeBuild. destruct d as [| | | | |l]; try done.
  destruct (strings_field _) as [[argv|]|]; [|done..]. destruct (string_field _) as [cwd|]; [|done].
  intros H. inv_ok. bools. split_and!; cbn; try done.
  match goal with H : forallb _ argv = true |- _ => rewrite forallb_forall in H; rename H into Hf end.
  apply Forall_forall. intros a Ha%list_elem_of_In. by specialize (Hf a Ha); bools.
Qed.

Lemma UnmarshalJSON_ok d p : UnmarshalJSON d = Ok p → plan_ok p.
Proof.
  unfold UnmarshalJSON. destruct (as_frame d) as [raw|]; [|done]. intros H. inv_ok.
  destruct (raw !! "exec") as [execRaw|]; [|done]. destruct (object_members execRaw) as [em|]; [|done].
  do 3 (inv_ok; repeat match goal with x : string * bool |- _ => destruct x end; cbn beta iota in * ).
  repeat match goal with
  | H : decodeString _ _ = Ok _ |- _ => apply decodeString_ok in H
  | H : decodeExecString _ _ = Ok _ |- _ => apply decodeExecString_ok in H
  end.
  repeat match goal with H : bool_decide _ = true |- _ => apply bool_decide_eq_true in H end.
  split; cbn; try done.
  - repeat match goal with H : _ ∨ _ |- _ => destruct H as [[-> ?]|[-> ?]] end; cbn in *; try done; subst.
    + right. bools. split_and!; try done.
      match goal with H : ¬ is_Some ?r |- ?r = None => destruct r; [destruct H; by eexists|done] end.
    + left. bools. split_and!; try done.
      match goal with H : ?r ≠ None |- is_Some ?r => by destruct r end.
  - by eapply decodeEnv_ok.
  - intros bb ->. destruct (raw !! "build"); inv_ok; [|done].
    repeat match goal with H : Some _ = Some _ |- _ => injection H as -> end. by eapply decodeBuild_ok.
Qed.

Lemma string_members_env (m : gmap string string) :
  string_members (DObject (prod_map id DString <$> map_to_list m)) = Some m.
Proof.
  unfold string_members. replace (mapM _ _) with (Some (map_to_list m)).
  - cbn. f_equal. by apply last_wins_perm.
  - symmetry. apply mapM_Some_2, Forall2_fmap_l, Forall_Forall2_diag, Forall_true. by intros [].
Qed.

Lemma strings_field_array (l : list string) :
  strings_field [DArray (DString <$> l)] = Some (Some l).
Proof.
  unfold strings_field. cbn. rewrite imap_fmap.
  replace (mapM _ _) with (Some l); [done|]. symmetry. apply mapM_Some_2, Forall2_same_length_lookup_2.
  - by rewrite length_imap.
  - intros i x y. rewrite list_lookup_imap. destruct (l !! i); naive_solver.
Qed.

Lemma decodeBuild_encoded b :
  build_ok b →
  decodeBuild (DObject [("argv", DArray (DString <$> bb_Argv b)); ("cwd", DString (bb_CWD b))]) = Ok b.
Proof.
  intros (Hne & Hf & Hb & Ha). destruct b as [argv cwd]. cbn [bb_Argv bb_CWD] in *. unfold decodeBuild.
  change (field_values "argv" _) with [DArray (DString <$> argv)].
  change (field_values "cwd" _) with [DString cwd].
  rewrite strings_field_array. change (string_field _) with (Some cwd). cbv iota beta.
  rewrite bool_decide_eq_false_2 by done. cbn [negb ensure mbind result_bind].
  assert (forallb (λ a, negb (bool_decide (a = ""))) argv = true) as ->.
  { apply forallb_forall. intros a Hin%list_elem_of_In. rewrite Forall_forall in Hf.
    by rewrite bool_decide_eq_false_2 by auto. }
  by rewrite Hb, Ha.
Qed.

Lemma decodeEnv_encoded k v (env : gmap string string) :
  k ≠ "env" → (∀ k v, env !! k = Some v → env_key_ok k = true) →
  decodeEnv (members [(k, v); ("env", DObject (prod_map id DString <$> map_to_list env))]) = Ok env.
Proof.
  intros Hk Henv. unfold decodeEnv, members, last_wins. cbn [reverse rev_append list_to_map foldr fst snd uncurry].
  rewrite lookup_insert_eq, string_members_env.
  assert (forallb (λ kv, env_key_ok kv.1) (map_to_list env) = true) as ->; [|done].
  apply forallb_forall. intros [k' v'] Hin%list_elem_of_In%elem_of_map_to_list. eauto.
Qed.

Lemma UnmarshalJSON_encoded p : plan_ok p → UnmarshalJSON (encode_plan p) = Ok p.
Proof.
  intros [Hop Hbin Hexec Henv Hbuild]. destruct p as [op bin run [path cmd env] build].
  cbn in Hop, Hbin, Hexec, Henv, Hbuild. subst op.
  unfold UnmarshalJSON, encode_plan, as_frame.
  cbv beta iota delta [bp_Operation bp_Bin bp_Runnable bp_Exec bp_Build be_Path be_Command be_Env].
  match goal with |- context [pair "exec"%string ?x] => set (ex := x) end.
  match goal with |- context [members ?l] => set (raw := members l) end.
  assert (raw !! "operation" = Some (DString "bins plan")) as E1 by (by subst raw; destruct build).
  assert (raw !! "bin" = Some (DString bin)) as E2 by (by subst raw; destruct build).
  assert (raw !! "runnable" = Some (from_option DBool DNull run)) as E3 by (by subst raw; destruct build).
  assert (raw !! "exec" = Some ex) as E4 by (by subst raw; destruct build).
  assert (raw !! "build" = (λ b, DObject [("argv", DArray (DString <$> bb_Argv b));
    ("cwd", DString (bb_CWD b))]) <$> build) as E5 by (by subst raw; destruct build).
  rewrite bool_decide_eq_false_2 by (intros E; by rewrite E in E1). clearbody raw.
  unfold decodeString, decodeRunnable. rewrite E1, E2, E3, E4, E5. clear E1 E2 E3 E4 E5. subst ex.
  cbn [negb ensure mbind result_bind into_string].
  change (is_blank "bins plan") with false. cbv iota. cbn [mbind result_bind].
  rewrite (bool_decide_eq_true_2 ("bins plan" = "bins plan")) by done. cbn [ensure mbind result_bind]. rewrite Hbin.
  cbn [mbind result_bind object_members].
  assert (match (λ b, DObject [("argv", DArray (DString <$> bb_Argv b)); ("cwd", DString (bb_CWD b))]) <$> build with
          | Some d => b ← decodeBuild d; Ok (Some b)
          | None => Ok None
          end = Ok build) as Eb.
  { destruct build as [b|]; [|done]. cbn [fmap option_fmap option_map]. by rewrite decodeBuild_encoded by eauto. }
  destruct Hexec as [(Ha & -> & [r ->])|(-> & Hc & Hs & ->)]; cbn [from_option].
  - assert (path ≠ "") as Hp by (by intros ->). rewrite bool_decide_eq_false_2 by done.
    rewrite decodeEnv_encoded by done.
    match goal with |- context [members ?l] => set (em := members l) end.
    assert (em !! "path" = Some (DString path)) as P1 by done. assert (em !! "command" = None) as P2 by done.
    clearbody em. unfold decodeExecString. rewrite P1, P2. cbn [into_string].
    rewrite bool_decide_eq_false_2 by done. cbn [mbind result_bind xorb ensure].
    rewrite Eb. cbn [mbind result_bind andb negb ensure]. rewrite bool_decide_eq_false_2 by done.
    cbn [mbind result_bind andb negb ensure]. by rewrite Ha.
  - rewrite bool_decide_eq_true_2 by done. rewrite decodeEnv_encoded by done.
    match goal with |- context [members ?l] => set (em := members l) end.
    assert (em !! "path" = None) as P1 by done. assert (em !! "command" = Some (DString cmd)) as P2 by done.
    clearbody em. unfold decodeExecString. rewrite P1, P2. cbn [into_string mbind result_bind].
    rewrite (bool_decide_eq_false_2 (cmd = "")) by done. cbn [mbind result_bind xorb ensure].
    rewrite Eb. cbn [mbind result_bind andb negb ensure]. rewrite bool_decide_eq_false_2 by (by intros []).
    cbn [mbind result_bind andb negb ensure]. by rewrite Hs.
Qed.

(** A plan is taken exactly when it names the operation, a bin, and either an absolute
    path with its runnability or a bare command without, an environment of proper
    keys, and a build recipe, if any, with a command line and an absolute directory;
    and a plan of that form is read back as it was written. *)
Theorem plan_exact p :
  (∀ d, UnmarshalJSON d = Ok p → plan_ok p) ∧ (plan_ok p → UnmarshalJSON (encode_plan p) = Ok p).
Proof. split; [intros d; apply UnmarshalJSON_ok|apply UnmarshalJSON_encoded]. Qed.

(** ** Lemmas: the environment *)

(** [os.Getenv] of an environment without two entries of one key. *)
Definition env_value (env : list string) (key : string) : option string :=
  head (omap (λ e, kv ← Cut e "="%char; if bool_decide (kv.1 = key) then Some kv.2 else None) env).

(** The entries of an environment are for different keys. *)
Definition env_distinct (env : list string) : Prop :=
  ∀ i j e e' key, env !! i = Some e → env !! j = Some e' →
    entry_key e = Some key → entry_key e' = Some key → i = j.

Lemma cut_bytes_app sep k v : sep ∉ k → cut_bytes sep (k ++ sep :: v) = Some (k, v).
Proof.
  induction k as [|c k IH]; intros H; cbn [app cut_bytes]; [by rewrite bool_decide_eq_true_2|].
  rewrite bool_decide_eq_false_2 by set_solver. rewrite IH by set_solver. done.
Qed.

Lemma Cut_entry key value : Contains key "=" = false → Cut (key +:+ "=" +:+ value) "="%char = Some (key, value).
Proof.
  intros H. unfold Cut. rewrite !bytes_of_app. cbn [app].
  change (bytes_of "=" ++ bytes_of value) with ("="%char :: bytes_of value).
  rewrite cut_bytes_app; [cbn; by rewrite !of_bytes_of|].
  intros Hin. apply list_elem_of_split in Hin as (a & b & E).
  assert (Contains key "=" = true); [|congruence]. apply Contains_spec.
  exists (of_bytes a), (of_bytes b). rewrite <-(of_bytes_of key), E.
  rewrite <-(of_bytes_of (of_bytes a +:+ _)), !bytes_of_app, !bytes_of_of. done.
Qed.

Lemma entry_key_entry key value : Contains key "=" = false → entry_key (key +:+ "=" +:+ value) = Some key.
Proof. intros H. unfold entry_key. by rewrite Cut_entry. Qed.

Lemma env_value_at env i e key v :
  env_distinct env → env !! i = Some e → Cut e "="%char = Some (key, v) → env_value env key = Some v.
Proof.
  intros Hd Hi Hc. unfold env_value. revert i Hi. induction env as [|e' env IH]; intros i Hi; [done|]. cbn.
  destruct i as [|i]; cbn in Hi.
  - injection Hi as ->. rewrite Hc. cbn. by rewrite bool_decide_eq_true_2.
  - assert (env_distinct env) as Hd' by (intros x y a b k Hx Hy Ha Hb; injection (Hd (S x) (S y) a b k Hx Hy Ha Hb); done).
    destruct (Cut e' "="%char) as [[k w]|] eqn:E; cbn; [|by eapply IH].
    case_bool_decide as Hk; [|by eapply IH]. subst k. exfalso.
    assert (0 = S i); [|done]. eapply (Hd 0 (S i) e' e key); try done; unfold entry_key; [by rewrite E|by rewrite Hc].
Qed.

Lemma env_value_none env key :
  (∀ i e, env !! i = Some e → entry_key e ≠ Some key) → env_value env key = None.
Proof.
  intros H. unfold env_value. induction env as [|e env IH]; [done|]. cbn.
  specialize (H 0 e eq_refl) as He. unfold entry_key in He.
  destruct (Cut e "="%char) as [[k w]|]; cbn in *; [rewrite bool_decide_eq_false_2 by congruence|];
    apply IH; intros i; apply (H (S i)).
Qed.

(** What the positions record. *)
Definition positions_ok (env : list string) (ps : gmap string nat) : Prop :=
  env_distinct env ∧ ∀ key i, ps !! key = Some i ↔ ∃ e, env !! i = Some e ∧ entry_key e = Some key.

Lemma key_positions_ok base : env_distinct base → positions_ok base (key_positions base).
Proof.
  unfold key_positions, positions_ok. intros H. split; [done|]. revert H.
  induction base as [|e base IH] using rev_ind; intros Hd key i.
  - cbn. rewrite lookup_empty. split; [done|]. intros (e & He & _). by rewrite lookup_nil in He.
  - assert (env_distinct base) as Hd'.
    { intros x y a b k Hx Hy. apply Hd; by apply lookup_app_l_Some. }
    rewrite imap_app, foldl_app. cbn [imap foldl]. rewrite Nat.add_0_r. cbn [fst snd].
    specialize (IH Hd'). set (m := foldl _ _ _) in *.
    assert ((base ++ [e]) !! length base = Some e) as Hlast by (by rewrite lookup_app_r, Nat.sub_diag).
    assert (∀ j e', base !! j = Some e' → (base ++ [e]) !! j = Some e') as Hold
      by (intros; by apply lookup_app_l_Some).
    assert (∀ j e', (base ++ [e]) !! j = Some e' → base !! j = Some e' ∨ (j = length base ∧ e' = e)) as Hcases.
    { intros j e' Hj. apply lookup_app_Some in Hj as [Hj|[Hge Hj]]; [by left|right].
      apply list_lookup_singleton_Some in Hj as [Hj <-]. split; [lia|done]. }
    destruct (entry_key e) as [k|] eqn:Ek.
    + destruct (decide (key = k)) as [->|Hne].
      * rewrite lookup_insert_eq. split; [intros [= <-]; by exists e|].
        intros (e' & He' & Hk'). f_equal. by apply (Hd (length base) i e e' k).
      * rewrite lookup_insert_ne by done. rewrite IH. split.
        -- intros (e' & He' & Hk'). exists e'. split; [by apply Hold|done].
        -- intros (e' & He' & Hk'). destruct (Hcases _ _ He') as [?|[-> ->]]; [by exists e'|congruence].
    + rewrite IH. split.
      * intros (e' & He' & Hk'). exists e'. split; [by apply Hold|done].
      * intros (e' & He' & Hk'). destruct (Hcases _ _ He') as [?|[-> ->]]; [by exists e'|congruence].
Qed.

Definition entry_of (kv : string * string) : string := kv.1 +:+ "=" +:+ kv.2.

(** What a change of the environment by some entries keeps and brings. *)
Record overlaid (l : list (string * string)) (env env' : list string) : Prop := {
  ov_brings : ∀ kv, kv ∈ l → ∃ i, env' !! i = Some (entry_of kv);
  ov_keeps : ∀ i e, env !! i = Some e → (∀ k, entry_key e = Some k → k ∉ l.*1) → env' !! i = Some e;
  ov_only : ∀ i e, env' !! i = Some e → env !! i = Some e ∨ ∃ kv, kv ∈ l ∧ e = entry_of kv;
}.

Lemma overlay_entry_ok env ps kv :
  positions_ok env ps → Contains kv.1 "=" = false →
  let '(env', ps') := overlay_entry (env, ps) kv in positions_ok env' ps' ∧ overlaid [kv] env env'.
Proof.
  intros [Hd Hps] Hk. destruct kv as [key v]. cbn [fst] in Hk. unfold overlay_entry. cbn [fst snd].
  pose proof (entry_key_entry key v Hk) as He. set (entry := key +:+ "=" +:+ v) in *.
  destruct (ps !! key) as [p|] eqn:Ep.
  - apply Hps in Ep as Hp. destruct Hp as (old & Hold & Holdk).
    pose proof (lookup_lt_Some _ _ _ Hold) as Hlt.
    assert (∀ i e, <[p := entry]> env !! i = Some e → (i = p ∧ e = entry) ∨ (i ≠ p ∧ env !! i = Some e)) as Hcases.
    { intros i e Hi. apply list_lookup_insert_Some in Hi. naive_solver. }
    assert (∀ i e k, <[p := entry]> env !! i = Some e → entry_key e = Some k →
      ∃ e0, env !! i = Some e0 ∧ entry_key e0 = Some k) as Hback.
    { intros i e k Hi Hek. destruct (Hcases _ _ Hi) as [[-> ->]|[_ ?]]; [|by exists e].
      exists old. split; [done|congruence]. }
    split; [split|split].
    + intros i j e e' k Hi Hj Hei Hej. destruct (Hback _ _ _ Hi Hei) as (a & ? & ?), (Hback _ _ _ Hj Hej) as (b & ? & ?).
      by apply (Hd i j a b k).
    + intros k i. rewrite Hps. split.
      * intros (e & Hi & Hek). destruct (decide (i = p)) as [->|Hne].
        -- exists entry. rewrite list_lookup_insert_eq by done. split; [done|congruence].
        -- exists e. by rewrite list_lookup_insert_ne.
      * intros (e & Hi & Hek). by apply (Hback i e).
    + intros kv ->%list_elem_of_singleton. exists p. by rewrite list_lookup_insert_eq.
    + intros i e Hi Hn. rewrite list_lookup_insert_ne; [done|]. intros ->.
      assert (e = old) as -> by congruence. by apply (Hn key Holdk); left.
    + intros i e Hi. destruct (Hcases _ _ Hi) as [[-> ->]|[_ ?]]; [right|by left].
      exists (key, v). split; [by left|done].
  - assert (∀ i e, env !! i = Some e → entry_key e ≠ Some key) as Hno.
    { intros i e Hi Hek. assert (ps !! key = Some i) by (apply Hps; by exists e). congruence. }
    assert (∀ i e, (env ++ [entry]) !! i = Some e → env !! i = Some e ∨ (i = length env ∧ e = entry)) as Hcases.
    { intros i e Hi. apply lookup_app_Some in Hi as [Hi|[Hge Hi]]; [by left|right].
      apply list_lookup_singleton_Some in Hi as [Hi <-]. split; [lia|done]. }
    assert ((env ++ [entry]) !! length env = Some entry) as Hnew by (by rewrite lookup_app_r, Nat.sub_diag).
    split; [split|split].
    + intros i j e e' k Hi Hj Hei Hej.
      destruct (Hcases _ _ Hi) as [Hi'|[-> ->]], (Hcases _ _ Hj) as [Hj'|[-> ->]]; try done.
      * by apply (Hd i j e e' k).
      * assert (k = key) as -> by congruence. by edestruct Hno.
      * assert (k = key) as -> by congruence. by edestruct Hno.
    + intros k i. destruct (decide (k = key)) as [->|Hne].
      * rewrite lookup_insert_eq. split; [intros [= <-]; by exists entry|].
        intros (e & Hi & Hek). destruct (Hcases _ _ Hi) as [Hi'|[-> _]]; [by edestruct Hno|done].
      * rewrite lookup_insert_ne, Hps by done. split.
        -- intros (e & Hi & Hek). exists e. split; [by apply lookup_app_l_Some|done].
        -- intros (e & Hi & Hek). destruct (Hcases _ _ Hi) as [Hi'|[-> ->]]; [by exists e|congruence].
    + intros kv ->%list_elem_of_singleton. by exists (length env).
    + intros i e Hi _. by apply lookup_app_l_Some.
    + intros i e Hi. destruct (Hcases _ _ Hi) as [Hi'|[-> ->]]; [by left|right].
      exists (key, v). split; [by left|done].
Qed.

Lemma overlay_entries_ok l env ps :
  positions_ok env ps → NoDup l.*1 → (∀ kv, kv ∈ l → Contains kv.1 "=" = false) →
  let '(env', ps') := foldl overlay_entry (env, ps) l in positions_ok env' ps' ∧ overlaid l env env'.
Proof.
  revert env ps. induction l as [|kv l IH]; intros env ps Hps Hnd Hk.
  - cbn. split; [done|]. split; [intros kv H; by inversion H|done|by left].
  - cbn [foldl]. pose proof (overlay_entry_ok env ps kv Hps (Hk kv ltac:(by left))) as H1.
    destruct (overlay_entry (env, ps) kv) as [env1 ps1]. destruct H1 as [Hps1 [B1 K1 O1]].
    cbn in Hnd. apply NoDup_cons in Hnd as [Hnot Hnd].
    pose proof (IH env1 ps1 Hps1 Hnd (λ kv H, Hk kv (list_elem_of_further _ _ _ H))) as H2.
    destruct (foldl overlay_entry (env1, ps1) l) as [env2 ps2]. destruct H2 as [Hps2 [B2 K2 O2]].
    assert (Contains kv.1 "=" = false) as Hkv by (apply Hk; by left).
    split; [done|]. split.
    + intros kv' [->|Hin]%elem_of_cons; [|by apply B2]. destruct (B1 kv ltac:(by left)) as [i Hi].
      exists i. apply K2; [done|]. intros k Hek. unfold entry_of in Hek. rewrite entry_key_entry in Hek by done.
      by injection Hek as <-.
    + intros i e Hi Hn. apply K2; [apply K1; [done|]|].
      * intros k Hek Hin. apply (Hn k Hek). cbn in Hin |- *. set_solver.
      * intros k Hek Hin. apply (Hn k Hek). cbn. set_solver.
    + intros i e Hi. destruct (O2 _ _ Hi) as [Hi1|(kv' & Hin & ->)].
      * destruct (O1 _ _ Hi1) as [?|(kv' & ->%list_elem_of_singleton & ->)]; [by left|].
        right. exists kv. split; [by left|done].
      * right. exists kv'. split; [by right|done].
Qed.

Lemma sorted_entries_elem overlay k v : (k, v) ∈ sorted_entries overlay ↔ overlay !! k = Some v.
Proof. unfold sorted_entries. rewrite elem_of_sort_stable. apply elem_of_map_to_list. Qed.

Lemma overlay_all base overlay :
  env_distinct base → (∀ k v, overlay !! k = Some v → Contains k "=" = false) →
  env_distinct (overlayEnvironment base overlay) ∧
  overlaid (sorted_entries overlay) base (overlayEnvironment base overlay).
Proof.
  intros Hd Hk. unfold overlayEnvironment.
  pose proof (overlay_entries_ok (sorted_entries overlay) base (key_positions base)
    (key_positions_ok base Hd)) as H.
  destruct (foldl overlay_entry _ _) as [env ps]. destruct H as [[Hd' _] Ho]; [| |done].
  - unfold sorted_entries. rewrite sort_stable_perm. apply NoDup_fst_map_to_list.
  - intros [k v] Hin%sorted_entries_elem. by eapply Hk.
Qed.

(** The environment of a bin has the value that the plan gives a key, the value that
    mill itself has for any other key, one entry for each, and every entry of mill's
    that the plan does not name at its place. *)
Theorem overlay_environment base overlay :
  env_distinct base → (∀ k v, overlay !! k = Some v → env_key_ok k = true) →
  let env := overlayEnvironment base overlay in
  env_distinct env ∧
  (∀ key, env_value env key = match overlay !! key with Some v => Some v | None => env_value base key end) ∧
  (∀ i e, base !! i = Some e → (∀ k, entry_key e = Some k → overlay !! k = None) → env !! i = Some e).
Proof.
  intros Hd Hk env.
  assert (∀ k v, overlay !! k = Some v → Contains k "=" = false) as Hk'.
  { intros k v H. specialize (Hk k v H). unfold env_key_ok in Hk. by bools. }
  destruct (overlay_all base overlay Hd Hk') as [Hd' [B K O]]. fold env in Hd', B, K, O.
  assert (∀ i e, base !! i = Some e → (∀ k, entry_key e = Some k → overlay !! k = None) → env !! i = Some e) as Hkeep.
  { intros i e Hi Hn. apply K; [done|]. intros k Hek ([k' v] & -> & Hin)%list_elem_of_fmap.
    apply sorted_entries_elem in Hin. cbn in Hek. rewrite (Hn _ Hek) in Hin. done. }
  split; [done|]. split; [|exact Hkeep]. intros key. destruct (overlay !! key) as [v|] eqn:Ev.
  - destruct (B (key, v)) as [i Hi]; [by apply sorted_entries_elem|]. eapply env_value_at; [done|exact Hi|].
    apply Cut_entry. by eapply Hk'.
  - destruct (env_value base key) as [v|] eqn:Eb.
    + unfold env_value in Eb. apply head_Some in Eb as [rest Eb].
      assert (v ∈ omap (λ e, kv ← Cut e "="%char; if bool_decide (kv.1 = key) then Some kv.2 else None) base)
        as Hin by (rewrite Eb; by left).
      apply list_elem_of_omap in Hin as (e & He & Hc). apply list_elem_of_lookup in He as [i Hi].
      destruct (Cut e "="%char) as [[k w]|] eqn:Ec; [|done]. cbn in Hc. case_bool_decide; [|done]. simplify_eq/=.
      eapply env_value_at; [done| |exact Ec]. apply Hkeep; [done|]. intros k Hek. unfold entry_key in Hek.
      rewrite Ec in Hek. by injection Hek as <-.
    + apply env_value_none. intros i e Hi Hek. destruct (O _ _ Hi) as [Hb|([k w] & Hin%sorted_entries_elem & ->)].
      * destruct (Cut e "="%char) as [[k w]|] eqn:Ec; [|unfold entry_key in Hek; by rewrite Ec in Hek].
        unfold entry_key in Hek. rewrite Ec in Hek. injection Hek as ->.
        pose proof (env_value_at _ _ _ _ _ Hd Hb Ec). congruence.
      * unfold entry_of in Hek. cbn in Hek. rewrite entry_key_entry in Hek by (by eapply Hk'). congruence.
Qed.

(** ** What is executed *)

Section executes.
Context (quote : string → string) (system_text Version BuildID : string) (pid : Z).
Context (binInvoke : jobject → io * outcome) (environ : list string).

(** The weaver answered this plan for the bin. *)
Definition planned (world : string * string) (name : string) (plan : BinPlan) : Prop :=
  ∃ s d, binInvoke (binEnvelope Version BuildID pid world ["plan"; name]) = (s, (0%Z, None)) ∧
    JsonText.parse (s_text (stdout s)) = Some d ∧ UnmarshalJSON d = Ok plan.

Lemma fetch_planned world name plan :
  fetchBinPlan Version BuildID pid binInvoke world name = Ok plan → planned world name plan.
Proof using Type.
  unfold fetchBinPlan, invokeBin. destruct (binInvoke _) as [s [code err]] eqn:E. intros H. inv_ok.
  destruct err; [done|]. inv_ok. bools. subst code. destruct (JsonText.parse _) as [d|] eqn:Ep; [|done].
  destruct (UnmarshalJSON d) as [p|] eqn:Eu; simplify_eq. by exists s, d.
Qed.
End executes.

(** C22: A run becomes the file that a plan of the weaver names, an absolute path or what
    the bare command was found as, never one the plan calls not runnable; and a build
    starts at most one process, the plan's recipe in the plan's directory. Both have
    the arguments as they were given and the plan's environment over that of mill. *)
Theorem bin_executes quote system_text Version BuildID pid binInvoke environ world name :
  let planned := planned Version BuildID pid binInvoke world name in
  (∀ args lookPath refused x,
     runBinExec quote system_text Version BuildID pid binInvoke environ world name args lookPath refused = Ok x →
     ∃ plan, planned plan ∧ plan_ok plan ∧ bp_Runnable plan ≠ Some false ∧ refused x = None ∧
       (IsAbs (x_file x) = true ∧ x_file x = be_Path (bp_Exec plan) ∨
        be_Path (bp_Exec plan) = "" ∧ lookPath (be_Command (bp_Exec plan)) = LookFound (x_file x)) ∧
       x_argv x = x_file x :: args ∧ x_dir x = None ∧
       x_env x = overlayEnvironment environ (be_Env (bp_Exec plan))) ∧
  (∀ ends ms started r,
     runBinBuild quote system_text Version BuildID pid binInvoke environ world name ends ms = (started, r) →
     started = [] ∨
     ∃ plan b file rest, planned plan ∧ plan_ok plan ∧ bp_Build plan = Some b ∧ bb_Argv b = file :: rest ∧
       started = [mkExecution file (file :: rest) (Some (bb_CWD b))
                    (overlayEnvironment environ (be_Env (bp_Exec plan)))] ∧
       (is_ok r = true → ends (build_execution environ b (be_Env (bp_Exec plan))) = Exited 0)).
Proof.
  intros planned0. split.
  - intros args lookPath refused x H. unfold runBinExec in H.
    destruct (fetchBinPlan _ _ _ _ _ _) as [plan|] eqn:Ef; [|done]. apply fetch_planned in Ef as Hp.
    inv_ok. destruct (refused _) eqn:Er; [done|]. inv_ok. exists plan. split; [done|].
    assert (plan_ok plan) as Hok by (destruct Hp as (s & d & _ & _ & Hu); by eapply UnmarshalJSON_ok).
    split; [done|]. unfold run_plan in *.
    assert (bp_Runnable plan ≠ Some false) as Hr.
    { intros Hr. rewrite Hr in *. by destruct (bp_Build plan). }
    destruct (bp_Runnable plan) as [[]|] eqn:Ern; [|done|]; inv_ok; cbn; (split; [done|]; split; [done|]);
      split; try done; case_bool_decide as Eb; inv_ok.
    1,3: destruct (lookPath _) eqn:El; [|done]; inv_ok; by right.
    all: left; destruct (po_exec _ Hok) as [(? & _)|(? & _)]; [done|congruence].
  - intros ends ms started r H. unfold runBinBuild in H.
    destruct (fetchBinPlan _ _ _ _ _ _) as [plan|] eqn:Ef; [|injection H as <- _; by left].
    apply fetch_planned in Ef as Hp.
    assert (plan_ok plan) as Hok by (destruct Hp as (s & d & _ & _ & Hu); by eapply UnmarshalJSON_ok).
    destruct (bp_Build plan) as [b|] eqn:Eb; [|injection H as <- _; by left].
    destruct (po_build _ Hok b Eb) as (Hne & _). destruct (bb_Argv b) as [|file rest] eqn:Ea; [done|].
    destruct (ends _) as [cause|code] eqn:Ee; injection H as <- <-; [by left|right].
    exists plan, b, file, rest. split; [done|]. split; [done|]. split; [done|]. split; [done|].
    unfold build_execution. rewrite Ea. split; [done|].
    case_bool_decide as Ec; [|done]. intros _. unfold build_execution in Ee. rewrite Ea in Ee. congruence.
Qed.

(** ** Examples *)

Definition sample_plan : BinPlan :=
  mkPlan "bins plan" "fmt" (Some true) (mkExec "/spool/bin/fmt" "" {["LANG" := "C"]})
    (Some (mkBuild ["make"; "fmt"] "/spool")).

Lemma sample_plan_ok : plan_ok sample_plan.
Proof.
  split; cbn; [done|done|by left| |].
  - intros k v [<- <-]%lookup_singleton_Some. done.
  - intros b [= <-]. split_and!; [done| |done|done]. by apply (bool_decide_unpack _).
Qed.

Example run_sample_plan :
  run_plan id ["PATH=/bin"; "LANG=de"] sample_plan "fmt" ["--check"; "a b"] (λ _, LookFailed "") =
    Ok (mkExecution "/spool/bin/fmt" ["/spool/bin/fmt"; "--check"; "a b"] None ["PATH=/bin"; "LANG=C"]).
Proof. by vm_compute. Qed.

Example parse_bin_ex :
  parseBinInvocation "" ["--workspace"; "w"; "fmt"; "--workspace"; "x"] true =
    Ok (mkInvocation "w" "fmt" ["--workspace"; "x"] false).
Proof. by vm_compute. Qed.

Lemma overlay_environment_witness :
  env_value (overlayEnvironment ["PATH=/bin"; "LANG=de"; "plain"] {["LANG" := "C"]}) "LANG" = Some "C" ∧
  env_value (overlayEnvironment ["PATH=/bin"; "LANG=de"; "plain"] {["LANG" := "C"]}) "PATH" = Some "/bin".
Proof.
  assert (env_distinct ["PATH=/bin"; "LANG=de"; "plain"]) as Hd.
  { intros i j e e' key Hi Hj He He'.
    do 3 (destruct i as [|i]; [do 3 (destruct j as [|j]; [first [reflexivity|cbn in Hi, Hj; injection Hi as <-; injection Hj as <-; vm_compute in He; vm_compute in He'; congruence]|]); done|]). done. }
  destruct (overlay_environment ["PATH=/bin"; "LANG=de"; "plain"] {["LANG" := "C"]} Hd) as (_ & Hv & _).
  { intros k v [<- <-]%lookup_singleton_Some. done. }
  split; [exact (Hv "LANG")|exact (Hv "PATH")].
Defined.
