(* ===== verification/Autostart.v ===== *)
(** Automatic startup (src/cli/cmd/mill/autostart.go): the registrations of
    workspaces in mill's state directory, the choice of the weavers to start, and the
    workers that start them, at most four at a time, with shutdown at any moment. The
    outcome of a start, of a system call and of a removal are arguments, like the
    texts of errors. The state root is taken not to contain the special characters of
    a glob pattern. *)

From S2P Require Export Config.

(** ** Registrations *)

Record registration := mkRegistration {
  rg_ConfigDir : string;
  rg_CWD : string;
  rg_Name : string;
  rg_Enabled : bool;
}.

#[global] Instance registration_eq_dec : EqDecision registration.
Proof. solve_decision. Defined.

Definition autostartDirectory : string := "autostart".
Definition autostartSlots : nat := 4.
Definition autostartFailure : string := "startup-failure.json".

Definition decodeRegistration (d : doc) : option registration :=
  match d with
  | DObject l =>
      dir ← string_field (field_values "config_dir" l);
      cwd ← string_field (field_values "cwd" l);
      name ← string_field (field_values "name" l);
      enabled ← bool_field (field_values "enabled" l);
      Some (mkRegistration dir cwd name enabled)
  | DNull => Some (mkRegistration "" "" "" false)
  | _ => None
  end.

(** [omitempty] leaves an empty name out. *)
Definition encodeRegistration (e : registration) : doc :=
  DObject
    ([("config_dir", marshal_string (rg_ConfigDir e)); ("cwd", marshal_string (rg_CWD e))]
     ++ (if bool_decide (rg_Name e = "") then [] else [("name", marshal_string (rg_Name e))])
     ++ [("enabled", DBool (rg_Enabled e))]).

(** What is missing for a registration to be used. *)
Definition usable (e : registration) : bool :=
  rg_Enabled e && negb (is_blank (rg_ConfigDir e)) && negb (is_blank (rg_CWD e)).

Inductive registry_failure := RegistryRead (path : string) | RegistryDecode (path : string) | RegistryInvalid (path : string).

Inductive auto_failure :=
| RegistryFailures (l : list registry_failure)
| ConfigFailure (dir : string)
| RemovalFailure (dir : string)
| StartFailure (dir : string)
| RetainedFailure (dir : string).

Inductive register_error := RegisterCwd | RegisterAbs | RegisterPath (e : config_error) | RegisterWrite.

Definition HasSuffix (s p : string) : bool := list_prefix (reverse (bytes_of p)) (reverse (bytes_of s)).

Section registry.
Context (getwd : option string) (xdg_state_home : string) (home : option string).
Context (eval_symlinks : string → option string) (WorldHash : string → string).

Definition autostartPath (configDir : string) : result config_error string :=
  identity ← CanonicalWorldIdentity getwd eval_symlinks configDir;
  root ← StateRoot xdg_state_home home;
  Ok (PathJoin [root; autostartDirectory; WorldHash identity +:+ ".json"]).

(** The file is replaced as a whole, or not at all. *)
Definition registerAutoStart (fs : files) (configDir cwd name : string) (failing : option write_step)
    : files * result register_error unit :=
  if is_blank cwd then (fs, Err RegisterCwd)
  else match Abs getwd cwd with
  | None => (fs, Err RegisterAbs)
  | Some absoluteCWD =>
      match autostartPath configDir with
      | Err e => (fs, Err (RegisterPath e))
      | Ok path =>
          match replace fs path (encodeRegistration (mkRegistration configDir absoluteCWD name true)) failing with
          | (fs, Ok _) => (fs, Ok tt)
          | (fs, Err _) => (fs, Err RegisterWrite)
          end
      end
  end.

(** [can_remove]: the file can be removed; one that is not there is as good. *)
Definition removeAutoStart (can_remove : string → bool) (configDir : string) (fs : files)
    : files * result register_error unit :=
  match autostartPath configDir with
  | Err e => (fs, Err (RegisterPath e))
  | Ok path =>
      match fs !! path with
      | None => (fs, Ok tt)
      | Some _ => if can_remove path then (delete path fs, Ok tt) else (fs, Err RegisterWrite)
      end
  end.

Definition registryDir : result config_error string :=
  root ← StateRoot xdg_state_home home; Ok (PathJoin [root; autostartDirectory]).

(** [filepath.Glob]: the files of the directory whose name ends in [.json], by name. *)
Definition registry_matches (dir : string) (fs : files) : list string :=
  sort_strings (filter (λ p, Dir p = dir ∧ HasSuffix (Base p) ".json" = true) (map_to_list fs).*1).

Definition read_one (fs : files) (path : string) : result registry_failure registration :=
  match fs !! path with
  | None | Some Unreadable => Err (RegistryRead path)
  | Some (Holds d) =>
      match d ≫= decodeRegistration with
      | None => Err (RegistryDecode path)
      | Some e => ensure (usable e) (RegistryInvalid path) ;; Ok e
      end
  end.

Definition collect {E A} (rs : list (result E A)) : list A * list E :=
  (omap (λ r, match r with Ok a => Some a | Err _ => None end) rs,
   omap (λ r, match r with Err e => Some e | Ok _ => None end) rs).

Definition readAutoStartRegistrations (fs : files)
    : result config_error (list registration * list registry_failure) :=
  dir ← registryDir;
  Ok (collect (read_one fs <$> filter (λ p, Base p ≠ autostartFailure) (registry_matches dir fs))).

(** ** The failure record *)

Context (failure_text : auto_failure → string).

Definition failureRecord (failures : list auto_failure) : doc :=
  DObject [("state", DString "failed");
           ("errors", DArray (marshal_string ∘ failure_text <$> failures))].

Definition autostartFailurePath : result config_error string :=
  root ← StateRoot xdg_state_home home; Ok (PathJoin [root; autostartDirectory; autostartFailure]).

Definition writeAutostartFailure (can_remove : string → bool) (failing : option write_step)
    (failures : list auto_failure) (fs : files) : files :=
  match autostartFailurePath with
  | Err _ => fs
  | Ok path =>
      match failures with
      | [] => if can_remove path then delete path fs else fs
      | _ => (replace fs path (failureRecord failures) failing).1
      end
  end.

(** ** The jobs *)

(** What [config.Load] answers for a workspace: whether it starts automatically, and
    its pool. *)
Context (load : string → option (bool * option string)).

Record planning := mkPlanning {
  pl_files : files;
  pl_grouped : gmap string registration;
  pl_failures : list auto_failure;
  pl_optedOut : bool;
}.

Definition job_key (e : registration) (pool : option string) : string :=
  match pool with Some p => "pool:" +:+ p | None => "world:" +:+ rg_ConfigDir e end.

Definition plan_entry (can_remove : string → bool) (p : planning) (e : registration) : planning :=
  match load (rg_ConfigDir e) with
  | None =>
      mkPlanning (pl_files p) (pl_grouped p) (pl_failures p ++ [ConfigFailure (rg_ConfigDir e)]) (pl_optedOut p)
  | Some (false, _) =>
      match removeAutoStart can_remove (rg_ConfigDir e) (pl_files p) with
      | (fs, Err _) =>
          mkPlanning fs (pl_grouped p) (pl_failures p ++ [RemovalFailure (rg_ConfigDir e)]) (pl_optedOut p)
      | (fs, Ok _) => mkPlanning fs (pl_grouped p) (pl_failures p) true
      end
  | Some (true, pool) =>
      let key := job_key e pool in
      mkPlanning (pl_files p)
        (if bool_decide (is_Some (pl_grouped p !! key)) then pl_grouped p else <[key := e]> (pl_grouped p))
        (pl_failures p) (pl_optedOut p)
  end.

Definition registry_failures (l : list registry_failure) : list auto_failure :=
  match l with [] => [] | _ => [RegistryFailures l] end.

Definition plan (can_remove : string → bool) (entries : list registration)
    (failures : list registry_failure) (fs : files) : planning :=
  foldl (plan_entry can_remove) (mkPlanning fs ∅ (registry_failures failures) false) entries.

Definition by_ConfigDir (a b : registration) : bool := str_ltb (rg_ConfigDir a) (rg_ConfigDir b).

Definition jobsToStart (p : planning) : list registration :=
  sort_stable by_ConfigDir (map_to_list (pl_grouped p)).*2.

(** What [startAutostart] leaves to the workers: the jobs and the failures so far. *)
Inductive started := Nothing (fs : files) | Workers (fs : files) (jobs : list registration) (failures : list auto_failure).

Definition persistAutostartFailures (shuttingDown : bool) (can_remove : string → bool)
    (failing : option write_step) (failures : list auto_failure) (explicitOptOut : bool) (fs : files) : files :=
  if shuttingDown && negb explicitOptOut then fs
  else writeAutostartFailure can_remove failing failures fs.

Definition startAutostart (shuttingDown : bool) (can_remove : string → bool)
    (failing : option write_step) (fs : files) : started :=
  match readAutoStartRegistrations fs with
  | Err e =>
      Nothing (persistAutostartFailures shuttingDown can_remove failing [RegistryFailures []] false fs)
  | Ok ([], failures) =>
      Nothing (persistAutostartFailures shuttingDown can_remove failing (registry_failures failures) false fs)
  | Ok (entries, failures) =>
      let p := plan can_remove entries failures fs in
      if bool_decide (pl_grouped p = ∅) then
        Nothing (persistAutostartFailures shuttingDown can_remove failing (pl_failures p)
                   (pl_optedOut p && bool_decide (pl_failures p = [])) (pl_files p))
      else Workers (pl_files p) (jobsToStart p) (pl_failures p)
  end.
End registry.

(** ** The workers *)

(** How the start of a weaver ends: well, with an error, or with the retained state
    of an earlier failure. *)
Inductive start_end := StartOk | StartErr | StartRetained.

(** A job: not yet past its look at the shutdown, in the call, ended. *)
Inductive job_pc := JBegin | JCall | JEnd (outcome : option start_end).

(** The launching goroutine: before its look at the shutdown, before a slot, in the
    wait for the jobs, ended. *)
Inductive main_pc := MCheck | MSelect | MWait | MDone.

#[global] Instance start_end_eq_dec : EqDecision start_end.
Proof. solve_decision. Defined.
#[global] Instance job_pc_eq_dec : EqDecision job_pc.
Proof. solve_decision. Defined.
#[global] Instance main_pc_eq_dec : EqDecision main_pc.
Proof. solve_decision. Defined.

(** [wk_written] are the failures that were persisted, if that was done. *)
Record workers := mkWorkers {
  wk_todo : list registration;
  wk_main : main_pc;
  wk_jobs : list (registration * job_pc);
  wk_failures : list auto_failure;
  wk_shutdown : bool;
  wk_written : option (list auto_failure);
}.

Definition begin_workers (jobs : list registration) (failures : list auto_failure) : workers :=
  mkWorkers jobs MCheck [] failures false None.

Definition ended (j : registration * job_pc) : bool := match j.2 with JEnd _ => true | _ => false end.

(** The slots in use. *)
Definition slots (w : workers) : nat := length (filter (λ j, ended j = false) (wk_jobs w)).

Definition set_main (m : main_pc) (w : workers) : workers :=
  mkWorkers (wk_todo w) m (wk_jobs w) (wk_failures w) (wk_shutdown w) (wk_written w).
Definition set_job (i : nat) (j : registration * job_pc) (w : workers) : workers :=
  mkWorkers (wk_todo w) (wk_main w) (<[i := j]> (wk_jobs w)) (wk_failures w) (wk_shutdown w) (wk_written w).
Definition add_failure (f : auto_failure) (w : workers) : workers :=
  mkWorkers (wk_todo w) (wk_main w) (wk_jobs w) (wk_failures w ++ [f]) (wk_shutdown w) (wk_written w).

(** The launching goroutine. With a slot free and the shutdown signalled either branch
    of its [select] may be taken: [slot] says which. *)
Definition main_step (slot : bool) (w : workers) : option workers :=
  match wk_main w with
  | MCheck =>
      Some (set_main (if bool_decide (wk_todo w = []) || wk_shutdown w then MWait else MSelect) w)
  | MSelect =>
      if slot then
        match wk_todo w with
        | e :: rest =>
            if slots w <? autostartSlots then
              Some (mkWorkers rest MCheck (wk_jobs w ++ [(e, JBegin)]) (wk_failures w) (wk_shutdown w) (wk_written w))
            else None
        | [] => None
        end
      else if wk_shutdown w then Some (set_main MWait w) else None
  | MWait =>
      if forallb ended (wk_jobs w) then
        Some (mkWorkers (wk_todo w) MDone (wk_jobs w) (wk_failures w) (wk_shutdown w)
                (if wk_shutdown w then wk_written w else Some (wk_failures w)))
      else None
  | MDone => None
  end.

(** The failure that the end of a start adds. *)
Definition start_failure (shutdown : bool) (e : registration) (o : start_end) : option auto_failure :=
  match o with
  | StartOk => None
  | StartErr => if shutdown then None else Some (StartFailure (rg_ConfigDir e))
  | StartRetained => Some (RetainedFailure (rg_ConfigDir e))
  end.

(** The job with this number; [o] is how its call ends. *)
Definition job_step (i : nat) (o : start_end) (w : workers) : option workers :=
  match wk_jobs w !! i with
  | Some (e, JBegin) => Some (set_job i (e, if wk_shutdown w then JEnd None else JCall) w)
  | Some (e, JCall) =>
      let w := set_job i (e, JEnd (Some o)) w in
      Some (from_option (λ f, add_failure f w) w (start_failure (wk_shutdown w) e o))
  | _ => None
  end.

Definition signal_shutdown (w : workers) : workers :=
  mkWorkers (wk_todo w) (wk_main w) (wk_jobs w) (wk_failures w) true (wk_written w).

Inductive worker_step : workers → workers → Prop :=
| by_main slot w w' : main_step slot w = Some w' → worker_step w w'
| by_job i o w w' : job_step i o w = Some w' → worker_step w w'
| by_shutdown w : worker_step w (signal_shutdown w).

(** The work of the goroutines, without shutdowns. *)
Definition work_step (w w' : workers) : Prop :=
  (∃ slot, main_step slot w = Some w') ∨ (∃ i o, job_step i o w = Some w').

(** ** Lemmas: the workers *)

(** The calls that were made, by workspace. *)
Definition called (w : workers) : list registration :=
  (filter (λ j : registration * job_pc, j.2 ≠ JBegin ∧ j.2 ≠ JEnd None) (wk_jobs w)).*1.

(** The failures that the ended jobs added. *)
Definition job_failure (j : registration * job_pc) : option auto_failure :=
  match j.2 with JEnd (Some o) => start_failure false j.1 o | _ => None end.

Record workers_inv (jobs : list registration) (failures : list auto_failure) (w : workers) : Prop := {
  wi_todo : (wk_jobs w).*1 ++ wk_todo w = jobs;
  wi_slots : slots w ≤ autostartSlots;
  wi_todo_done : wk_shutdown w = false → wk_main w = MWait ∨ wk_main w = MDone → wk_todo w = [];
  wi_begun : wk_shutdown w = false → Forall (λ j, j.2 ≠ JEnd None) (wk_jobs w);
  wi_failures : wk_shutdown w = false → wk_failures w ≡ₚ failures ++ omap job_failure (wk_jobs w);
  wi_done : wk_main w = MDone → forallb ended (wk_jobs w) = true;
  wi_written : wk_main w ≠ MDone → wk_written w = None;
  wi_persisted : wk_main w = MDone → wk_shutdown w = false → wk_written w = Some (wk_failures w);
  wi_record : ∀ l, wk_written w = Some l → wk_main w = MDone ∧ wk_todo w = [] ∧
    Forall (λ j, j.2 ≠ JEnd None) (wk_jobs w) ∧ l ≡ₚ failures ++ omap job_failure (wk_jobs w);
}.

Lemma slots_set i j w e pc :
  wk_jobs w !! i = Some (e, pc) → ended (e, pc) = false → slots (set_job i j w) ≤ slots w.
Proof.
  intros Hi He. unfold slots, set_job. cbn. rewrite insert_take_drop by (by eapply lookup_lt_Some).
  rewrite <-(take_drop_middle (wk_jobs w) i (e, pc) Hi) at 3.
  rewrite !filter_app, !filter_cons, !length_app, (decide_True _ _ He).
  destruct (decide (ended j = false)); simpl; lia.
Qed.

Lemma fst_set i j w e pc :
  wk_jobs w !! i = Some (e, pc) → j.1 = e → (wk_jobs (set_job i j w)).*1 = (wk_jobs w).*1.
Proof.
  intros Hi <-. cbn. rewrite list_fmap_insert. apply list_insert_id. by rewrite list_lookup_fmap, Hi.
Qed.

Lemma job_failure_set i j w e pc :
  wk_jobs w !! i = Some (e, pc) → job_failure (e, pc) = None →
  omap job_failure (wk_jobs (set_job i j w)) ≡ₚ omap job_failure (wk_jobs w) ++ option_list (job_failure j).
Proof.
  intros Hi He. cbn [wk_jobs set_job]. rewrite insert_take_drop by (by eapply lookup_lt_Some).
  rewrite <-(take_drop_middle (wk_jobs w) i (e, pc) Hi) at 3. rewrite !omap_app. cbn [omap list_omap].
  rewrite He. destruct (job_failure j) as [f|]; cbn; [|by rewrite app_nil_r].
  rewrite <-app_assoc. apply Permutation_app_head. by rewrite Permutation_app_comm.
Qed.

Lemma main_step_inv jobs failures slot w w' :
  workers_inv jobs failures w → main_step slot w = Some w' → workers_inv jobs failures w'.
Proof.
  intros [Ht Hs Htd Hb Hf Hd Hw Hp Hr] H. unfold main_step in H. destruct (wk_main w) eqn:Em.
  - injection H as <-. assert (wk_written w = None) as Hn by auto.
    destruct (bool_decide _ || _) eqn:E; split; cbn; try done; try congruence.
    + intros Hsh _. rewrite Hsh, orb_false_r in E. by bools.
    + by intros _ [|].
  - assert (wk_written w = None) as Hn by auto. destruct slot.
    + destruct (wk_todo w) as [|e rest] eqn:Et; [done|]. destruct (slots w <? autostartSlots) eqn:Esl; [|done].
      injection H as <-. apply Nat.ltb_lt in Esl. split; cbn; try done; try congruence.
      * by rewrite fmap_app, <-app_assoc.
      * unfold slots in *. cbn [wk_jobs]. rewrite filter_app, length_app.
        change (length (filter _ [(e, JBegin)])) with 1. lia.
      * intros _ [|]; done.
      * intros Hsh. apply Forall_app. split; [by apply Hb|]. by repeat constructor.
      * intros Hsh. rewrite Hf by done. rewrite omap_app. cbn. by rewrite app_nil_r.
    + destruct (wk_shutdown w) eqn:Esh; [|done]. injection H as <-. split; cbn; try done; try congruence.
  - destruct (forallb ended (wk_jobs w)) eqn:Ee; [|done]. injection H as <-.
    destruct (wk_shutdown w) eqn:Esh; split; cbn; try done; try congruence; try (by intros; apply Htd; [|left]).
    + intros l. rewrite Hw by done. done.
    + intros l [= <-]. split_and!; auto.
  - done.
Qed.

Lemma job_step_inv jobs failures i o w w' :
  workers_inv jobs failures w → job_step i o w = Some w' → workers_inv jobs failures w'.
Proof.
  intros [Ht Hs Htd Hb Hf Hd Hw Hp Hr] H. unfold job_step in H.
  destruct (wk_jobs w !! i) as [[e pc]|] eqn:Hi; [|done].
  assert (ended (e, pc) = false → wk_main w ≠ MDone) as Hnd.
  { intros He Hm. apply Hd in Hm. rewrite forallb_forall in Hm. rewrite (Hm (e, pc)) in He; [done|].
    by eapply list_elem_of_In, list_elem_of_lookup_2. }
  assert (∀ j, j.1 = e → ended (e, pc) = false → job_failure (e, pc) = None →
    (wk_shutdown w = false → j.2 ≠ JEnd None) → ∀ fs,
    (wk_shutdown w = false → fs ≡ₚ wk_failures w ++ option_list (job_failure j)) →
    workers_inv jobs failures (mkWorkers (wk_todo w) (wk_main w) (<[i := j]> (wk_jobs w)) fs
      (wk_shutdown w) (wk_written w))) as go.
  { intros j Hj He Hn Hnot fs Hfs. specialize (Hnd He). pose proof (fst_set i j w e pc Hi Hj) as Hfst.
    pose proof (slots_set i j w e pc Hi He) as Hsl. pose proof (job_failure_set i j w e pc Hi Hn) as Hjf.
    cbn in Hfst, Hjf. split; cbn; try done.
    - by rewrite Hfst.
    - etrans; [exact Hsl|done].
    - intros Hsh. apply Forall_insert; [by apply Hb|by apply Hnot].
    - intros Hsh. rewrite (Hfs Hsh), Hf, Hjf by done. by rewrite <-app_assoc.
    - intros l Hl. by rewrite (Hw Hnd) in Hl. }
  destruct pc as [| |oc]; [| |done].
  - injection H as <-. apply (go (e, if wk_shutdown w then JEnd None else JCall)); try done.
    + intros ->. done.
    + intros ->. cbn. by rewrite app_nil_r.
  - assert (∀ fs, (wk_shutdown w = false → fs ≡ₚ wk_failures w ++ option_list (start_failure false e o)) →
      workers_inv jobs failures (mkWorkers (wk_todo w) (wk_main w) (<[i := (e, JEnd (Some o))]> (wk_jobs w)) fs
        (wk_shutdown w) (wk_written w))) as go' by (intros fs Hfs; by apply go).
    injection H as <-. cbn [wk_shutdown set_job].
    destruct (start_failure (wk_shutdown w) e o) as [f|] eqn:Ef; cbn; apply go';
      intros Hsh; rewrite Hsh in Ef; rewrite Ef; cbn; [done|by rewrite app_nil_r].
Qed.

Lemma worker_step_inv jobs failures w w' :
  workers_inv jobs failures w → worker_step w w' → workers_inv jobs failures w'.
Proof.
  intros Hinv. destruct 1 as [slot w w' H|i o w w' H|w].
  - by eapply main_step_inv.
  - by eapply job_step_inv.
  - destruct Hinv as [Ht Hs Htd Hb Hf Hd Hw Hp Hr]. by split.
Qed.

Lemma begin_workers_inv jobs failures : workers_inv jobs failures (begin_workers jobs failures).
Proof. split; cbn; try done; [unfold slots, autostartSlots; cbn; lia|by intros _ [|]|by rewrite app_nil_r]. Qed.

Lemma workers_reached jobs failures w :
  rtc worker_step (begin_workers jobs failures) w → workers_inv jobs failures w.
Proof.
  apply (rtc_invariant worker_step (workers_inv jobs failures)); [apply worker_step_inv|apply begin_workers_inv].
Qed.

(** C23: However the goroutines interleave and whenever the shutdown comes: at most four
    starts run at a time, every job is for a workspace of the plan, in its order and
    once, and what is persisted is complete: a start of every workspace was called and
    has ended, and the failures are those of the plan and of the starts that failed. *)
Theorem workers_complete jobs failures w :
  rtc worker_step (begin_workers jobs failures) w →
  slots w ≤ autostartSlots ∧ (wk_jobs w).*1 ++ wk_todo w = jobs ∧
  (∀ l, wk_written w = Some l →
     called w = jobs ∧ forallb ended (wk_jobs w) = true ∧ l ≡ₚ failures ++ omap job_failure (wk_jobs w)).
Proof.
  intros H%workers_reached. destruct H as [Ht Hs _ _ _ Hd _ _ Hr]. split; [done|]. split; [done|].
  intros l Hl. destruct (Hr l Hl) as (Hm & Htodo & Hall & Hp). split_and!; [|auto|done].
  unfold called. rewrite Htodo, app_nil_r in Ht. rewrite <-Ht. f_equal. apply filter_all.
  specialize (Hd Hm). rewrite Forall_forall in *. intros j Hj. specialize (Hall j Hj). split; [|done].
  rewrite forallb_forall in Hd. specialize (Hd j ltac:(by apply list_elem_of_In)). unfold ended in Hd.
  by destruct (j.2).
Qed.

(** *** After a shutdown *)

Lemma called_set i j w e pc :
  wk_jobs w !! i = Some (e, pc) → j.1 = e →
  (j.2 ≠ JBegin ∧ j.2 ≠ JEnd None ↔ pc ≠ JBegin ∧ pc ≠ JEnd None) → called (set_job i j w) = called w.
Proof.
  intros Hi Hj Hc. unfold called. cbn [wk_jobs set_job]. rewrite insert_take_drop by (by eapply lookup_lt_Some).
  rewrite <-(take_drop_middle (wk_jobs w) i (e, pc) Hi) at 3. rewrite !filter_app, !filter_cons, !fmap_app.
  f_equal. cbn [snd]. destruct (decide (j.2 ≠ JBegin ∧ j.2 ≠ JEnd None)), (decide (pc ≠ JBegin ∧ pc ≠ JEnd None));
    try tauto; cbn; congruence.
Qed.

Lemma shutdown_step w w' :
  worker_step w w' → wk_shutdown w = true →
  wk_shutdown w' = true ∧ called w' = called w ∧ wk_written w' = wk_written w.
Proof.
  intros H Hsh. destruct H as [slot w w' H|i o w w' H|w]; [| |done].
  - unfold main_step in H. destruct (wk_main w); [by injection H as <-| | |done].
    + destruct slot; [|rewrite Hsh in H; by injection H as <-].
      destruct (wk_todo w) as [|e rest]; [done|]. destruct (_ <? _); [|done]. injection H as <-.
      split; [done|]. split; [|done]. unfold called. cbn [wk_jobs]. rewrite filter_app.
      change (filter _ [(e, JBegin)]) with (@nil (registration * job_pc)). by rewrite app_nil_r.
    + destruct (forallb _ _); [|done]. injection H as <-. by rewrite Hsh.
  - unfold job_step in H. destruct (wk_jobs w !! i) as [[e pc]|] eqn:Hi; [|done]. destruct pc; [| |done].
    + injection H as <-. rewrite Hsh. split; [done|]. split; [|done].
      eapply called_set; [done|done|]. split; intros []; done.
    + injection H as <-. cbn [wk_shutdown set_job].
      assert (called (set_job i (e, JEnd (Some o)) w) = called w) as Hc
        by (eapply called_set; [done|done|]; by split; intros _).
      by destruct (start_failure _ _ _).
Qed.

(** From the shutdown on no start is called that had not been, and what was persisted
    of earlier failures, or was not, stays as it is. *)
Theorem shutdown_stops_starts w w' :
  wk_shutdown w = true → rtc worker_step w w' →
  called w' = called w ∧ wk_written w' = wk_written w.
Proof.
  intros Hsh H. assert (wk_shutdown w' = true ∧ called w' = called w ∧ wk_written w' = wk_written w) as (_ & ? & ?);
    [|done].
  apply (rtc_invariant worker_step
    (λ w', wk_shutdown w' = true ∧ called w' = called w ∧ wk_written w' = wk_written w) w); [|done|done].
  intros x y (Hx & Hc & Hw) Hs. destruct (shutdown_step _ _ Hs Hx) as (? & E1 & E2). split; [done|].
  by rewrite E1, E2.
Qed.

(** *** The work ends *)

Definition main_rank (m : main_pc) : nat :=
  match m with MCheck => 3 | MSelect => 2 | MWait => 1 | MDone => 0 end.
Definition job_rank (j : registration * job_pc) : nat :=
  match j.2 with JBegin => 2 | JCall => 1 | JEnd _ => 0 end.
Definition work (w : workers) : nat :=
  6 * length (wk_todo w) + main_rank (wk_main w) + sum_list (job_rank <$> wk_jobs w).

Lemma work_set i j w e pc :
  wk_jobs w !! i = Some (e, pc) → job_rank j < job_rank (e, pc) → work (set_job i j w) < work w.
Proof.
  intros Hi Hr. unfold work. cbn [wk_todo wk_main wk_jobs set_job].
  rewrite insert_take_drop by (by eapply lookup_lt_Some).
  rewrite <-(take_drop_middle (wk_jobs w) i (e, pc) Hi) at 3.
  rewrite !fmap_app, !fmap_cons, !sum_list_with_app. cbn [sum_list_with]. unfold id. lia.
Qed.

Lemma work_step_decreases w w' : work_step w w' → work w' < work w.
Proof.
  intros [[slot H]|(i & o & H)].
  - unfold main_step in H. destruct (wk_main w) eqn:Em.
    + injection H as <-. unfold work. rewrite Em. cbn. destruct (_ || _); cbn; lia.
    + destruct slot; [|destruct (wk_shutdown w); [|done]; injection H as <-; unfold work; rewrite Em; cbn; lia].
      destruct (wk_todo w) as [|e rest] eqn:Et; [done|]. destruct (_ <? _); [|done]. injection H as <-.
      unfold work. rewrite Et, Em. cbn [wk_todo wk_main wk_jobs main_rank length].
      rewrite fmap_app, sum_list_with_app. cbn. lia.
    + destruct (forallb _ _); [|done]. injection H as <-. unfold work. rewrite Em. cbn. lia.
    + done.
  - unfold job_step in H. destruct (wk_jobs w !! i) as [[e pc]|] eqn:Hi; [|done]. destruct pc; [| |done].
    + injection H as <-. eapply work_set; [done|]. unfold job_rank. cbn. destruct (wk_shutdown w); lia.
    + injection H as <-. assert (work (set_job i (e, JEnd (Some o)) w) < work w) as Hlt
        by (eapply work_set; [done|]; unfold job_rank; cbn; lia).
      by destruct (start_failure _ _ _).
Qed.

Definition has_next (w : workers) : Prop := wk_main w = MSelect → wk_todo w ≠ [].

Lemma has_next_step w w' : has_next w → worker_step w w' → has_next w'.
Proof.
  unfold has_next. intros Hn. destruct 1 as [slot w w' H|i o w w' H|w]; [| |done].
  - unfold main_step in H. destruct (wk_main w).
    + injection H as <-. cbn. destruct (bool_decide (wk_todo w = [])) eqn:E; [done|]. by bools.
    + destruct slot; [|destruct (wk_shutdown w); [injection H as <-; cbn; discriminate|done]].
      destruct (wk_todo w); [done|]. destruct (_ <? _); [|done]. injection H as <-. cbn. discriminate.
    + destruct (forallb _ _); [|done]. injection H as <-. cbn. discriminate.
    + done.
  - unfold job_step in H. destruct (wk_jobs w !! i) as [[e pc]|]; [|done]. destruct pc; [| |done].
    + by injection H as <-.
    + injection H as <-. by destruct (start_failure _ _ _).
Qed.

Lemma not_ended_job (l : list (registration * job_pc)) :
  forallb ended l = false → ∃ i e pc, l !! i = Some (e, pc) ∧ ended (e, pc) = false.
Proof.
  induction l as [|[e pc] l IH]; [done|]. cbn [forallb]. destruct (ended (e, pc)) eqn:E.
  - intros H. destruct (IH H) as (i & e' & pc' & ? & ?). by exists (S i), e', pc'.
  - intros _. by exists 0, e, pc.
Qed.

Lemma job_moves w : forallb ended (wk_jobs w) = false → ∃ w', work_step w w'.
Proof.
  intros (i & e & pc & Hi & He)%not_ended_job.
  assert (∃ w', job_step i StartOk w = Some w') as [w' Hw]; [|exists w'; right; by exists i, StartOk].
  unfold job_step. rewrite Hi. destruct pc; [by eexists..|done].
Qed.

Lemma work_moves w : has_next w → wk_main w ≠ MDone → ∃ w', work_step w w'.
Proof.
  intros Hn Hd. destruct (forallb ended (wk_jobs w)) eqn:Ee; [|by apply job_moves].
  assert (∃ w', main_step true w = Some w') as [w' Hw]; [|exists w'; left; by exists true].
  unfold main_step. destruct (wk_main w) eqn:Em; [by eexists| |rewrite Ee; by eexists|done].
  destruct (wk_todo w) as [|e rest] eqn:Et; [by destruct (Hn Em Et)|].
  assert (slots w = 0) as ->; [|by eexists]. unfold slots. rewrite forallb_forall in Ee.
  assert (filter (λ j, ended j = false) (wk_jobs w) = []) as ->; [|done].
  apply elem_of_nil_inv. intros j (He & Hj)%list_elem_of_filter. rewrite Ee in He; [done|by apply list_elem_of_In].
Qed.

Lemma work_is_worker w w' : work_step w w' → worker_step w w'.
Proof. intros [[slot H]|(i & o & H)]; [by eapply by_main|by eapply by_job]. Qed.

(** As long as starts return the workers come to an end, within a number of steps that
    the jobs bound, and then a startup without a shutdown has persisted its outcome. *)
Theorem workers_finish jobs failures w :
  rtc worker_step (begin_workers jobs failures) w →
  (∀ n w', nsteps work_step n w w' → n ≤ work w) ∧
  ∃ w', rtc work_step w w' ∧ wk_main w' = MDone ∧ (wk_shutdown w' = false → is_Some (wk_written w')).
Proof.
  intros Hw. split.
  - intros n w' H. clear Hw. induction H as [w|n x y z Hxy _ IH]; [lia|].
    apply work_step_decreases in Hxy. lia.
  - assert (has_next w) as Hn.
    { eapply (rtc_invariant worker_step has_next); [apply has_next_step| |exact Hw]. done. }
    remember (work w) as k eqn:Ek. revert w Hw Hn Ek. induction k as [k IH] using lt_wf_ind. intros w Hw Hn ->.
    destruct (decide (wk_main w = MDone)) as [Hd|Hd].
    + exists w. split; [done|]. split; [done|]. intros Hs. apply workers_reached in Hw.
      rewrite (wi_persisted _ _ _ Hw Hd Hs). by eexists.
    + destruct (work_moves w Hn Hd) as [w1 H1]. pose proof (work_step_decreases _ _ H1) as Hlt.
      pose proof (work_is_worker _ _ H1) as Hw1.
      destruct (IH _ Hlt w1) as (w' & Hr & Hrest); [by eapply rtc_r|by eapply has_next_step|done|].
      exists w'. split; [by eapply rtc_l|done].
Qed.

(** ** Lemmas: the plan *)

Section plans.
Context (getwd : option string) (xdg_state_home : string) (home : option string).
Context (eval_symlinks : string → option string) (WorldHash : string → string).
Context (load : string → option (bool * option string)) (can_remove : string → bool).

Notation path_of := (autostartPath getwd xdg_state_home home eval_symlinks WorldHash).
Notation planned entries failures fs :=
  (plan getwd xdg_state_home home eval_symlinks WorldHash load can_remove entries failures fs).

(** The host process an entry asks for, if its workspace starts automatically. *)
Definition asks (e : registration) : option string :=
  match load (rg_ConfigDir e) with Some (true, pool) => Some (job_key e pool) | _ => None end.

(** The first entry that asks for it. *)
Definition first_asking (entries : list registration) (key : string) : option registration :=
  head (filter (λ e, asks e = Some key) entries).

(** The registrations that may be removed. *)
Definition opted_out (entries : list registration) (path : string) : Prop :=
  ∃ e pool, e ∈ entries ∧ load (rg_ConfigDir e) = Some (false, pool) ∧ path_of (rg_ConfigDir e) = Ok path.

Record plan_inv (entries : list registration) (failures : list registry_failure) (fs : files) (p : planning) : Prop := {
  pi_grouped : ∀ key, pl_grouped p !! key = first_asking entries key;
  pi_registry : ∃ rest, pl_failures p = registry_failures failures ++ rest;
  pi_config : ∀ e, e ∈ entries → load (rg_ConfigDir e) = None → ConfigFailure (rg_ConfigDir e) ∈ pl_failures p;
  pi_files : ∀ path, pl_files p !! path ≠ fs !! path → opted_out entries path ∧ pl_files p !! path = None;
}.

Lemma first_asking_snoc entries e key :
  first_asking (entries ++ [e]) key =
    match first_asking entries key with
    | Some e' => Some e'
    | None => if bool_decide (asks e = Some key) then Some e else None
    end.
Proof using Type.
  unfold first_asking. rewrite filter_app. destruct (filter _ entries) as [|e' l]; [|done]. cbn [app head].
  rewrite filter_cons, filter_nil. case_bool_decide; [by rewrite decide_True|by rewrite decide_False].
Qed.

Lemma removeAutoStart_files dir fs fs' r :
  removeAutoStart getwd xdg_state_home home eval_symlinks WorldHash can_remove dir fs = (fs', r) →
  fs' = fs ∨ ∃ path, path_of dir = Ok path ∧ fs' = delete path fs.
Proof using Type.
  unfold removeAutoStart. destruct (path_of dir) as [path|e] eqn:E; [|intros [= <- _]; by left].
  destruct (fs !! path); [|intros [= <- _]; by left].
  destruct (can_remove path); intros [= <- _]; [right; by exists path|by left].
Qed.

Lemma opted_out_app entries entries' path :
  opted_out entries path → opted_out (entries ++ entries') path.
Proof using Type.
  intros (e & pool & He & H). exists e, pool. split; [|done]. apply elem_of_app. by left.
Qed.

Lemma plan_entry_inv entries failures fs p e :
  plan_inv entries failures fs p →
  plan_inv (entries ++ [e]) failures fs
    (plan_entry getwd xdg_state_home home eval_symlinks WorldHash load can_remove p e).
Proof using Type.
  intros [Hg [rest Hr] Hc Hf].
  assert (∀ key, asks e = None → first_asking (entries ++ [e]) key = pl_grouped p !! key) as Hsame.
  { intros key Ha. rewrite first_asking_snoc, Ha, bool_decide_eq_false_2, Hg by done.
    by destruct (first_asking entries key). }
  assert (∀ fl : list auto_failure, (∀ f, f ∈ pl_failures p → f ∈ fl) → load (rg_ConfigDir e) ≠ None →
    ∀ e', e' ∈ entries ++ [e] → load (rg_ConfigDir e') = None → ConfigFailure (rg_ConfigDir e') ∈ fl) as Hcfg.
  { intros fl Hfl Hl e' [He'| ->%list_elem_of_singleton]%elem_of_app Hn; [by apply Hfl, Hc|done]. }
  unfold plan_entry. destruct (load (rg_ConfigDir e)) as [[[] pool]|] eqn:El.
  - assert (asks e = Some (job_key e pool)) as Ha by (unfold asks; by rewrite El).
    split; cbn; [|by exists rest|by apply Hcfg|by intros path H; destruct (Hf path H); split; [apply opted_out_app|]].
    intros key. rewrite first_asking_snoc, Ha, <-Hg. case_bool_decide as Hs.
    + destruct (pl_grouped p !! key) eqn:Ek; [done|]. rewrite bool_decide_eq_false_2; [done|].
      intros [= <-]. rewrite Ek in Hs. by destruct Hs.
    + destruct (decide (key = job_key e pool)) as [->|Hne].
      * rewrite lookup_insert_eq. destruct (pl_grouped p !! _) eqn:Ek; [by destruct Hs; eexists|].
        by rewrite bool_decide_eq_true_2.
      * rewrite lookup_insert_ne, bool_decide_eq_false_2 by congruence. by destruct (pl_grouped p !! key).
  - destruct (removeAutoStart _ _ _ _ _ _ _ _) as [fs1 r] eqn:Er. apply removeAutoStart_files in Er as Hfs.
    assert (asks e = None) as Ha by (unfold asks; by rewrite El).
    assert (∀ path, fs1 !! path ≠ fs !! path → opted_out (entries ++ [e]) path ∧ fs1 !! path = None) as Hf1.
    { intros path H. destruct Hfs as [->|(path' & Hp' & ->)];
        [destruct (Hf path H); split; [by apply opted_out_app|done]|].
      destruct (decide (path = path')) as [->|Hne].
      - rewrite lookup_delete_eq. split; [|done]. exists e, pool. split; [apply elem_of_app; right; by left|done].
      - rewrite lookup_delete_ne in H |- * by done. destruct (Hf path H). split; [by apply opted_out_app|done]. }
    destruct r; split; cbn; try done; try (intros key; by rewrite Hsame).
    + by exists rest.
    + by apply Hcfg.
    + exists (rest ++ [RemovalFailure (rg_ConfigDir e)]). by rewrite Hr, app_assoc.
    + apply Hcfg; [|done]. intros f Hin. apply elem_of_app. by left.
  - assert (asks e = None) as Ha by (unfold asks; by rewrite El). split; cbn.
    + intros key. by rewrite Hsame.
    + exists (rest ++ [ConfigFailure (rg_ConfigDir e)]). by rewrite Hr, app_assoc.
    + intros e' [He'| ->%list_elem_of_singleton]%elem_of_app Hn; apply elem_of_app; [left; by apply Hc|right; by left].
    + intros path H. destruct (Hf path H). split; [by apply opted_out_app|done].
Qed.

Lemma plan_reached entries failures fs : plan_inv entries failures fs (planned entries failures fs).
Proof using Type.
  unfold plan. induction entries as [|e entries IH] using rev_ind.
  - cbn. split; cbn; [done|exists []; by rewrite app_nil_r| |done]. intros e H. by apply elem_of_nil in H.
  - rewrite foldl_app. cbn. by apply plan_entry_inv.
Qed.
End plans.

(** What is started: for every pool, and for every workspace outside pools, whose
    configuration asks for it, the first registration that names it; by directory, no
    directory twice. The failures of the registry come first, every configuration that
    cannot be read is a failure, and the only files that go are registrations of
    workspaces that opted out. *)
Theorem autostart_plan getwd xdg home eval_symlinks WorldHash load can_remove entries failures fs :
  let p := plan getwd xdg home eval_symlinks WorldHash load can_remove entries failures fs in
  (∀ j, j ∈ jobsToStart p ↔ ∃ key, first_asking load entries key = Some j) ∧
  Sorted (sort_le by_ConfigDir) (jobsToStart p) ∧ NoDup (rg_ConfigDir <$> jobsToStart p) ∧
  (∃ rest, pl_failures p = registry_failures failures ++ rest) ∧
  (∀ e, e ∈ entries → load (rg_ConfigDir e) = None → ConfigFailure (rg_ConfigDir e) ∈ pl_failures p) ∧
  (∀ path, pl_files p !! path ≠ fs !! path →
     opted_out getwd xdg home eval_symlinks WorldHash load entries path ∧ pl_files p !! path = None).
Proof.
  intros p. destruct (plan_reached getwd xdg home eval_symlinks WorldHash load can_remove entries failures fs)
    as [Hg Hr Hc Hf]. fold p in Hg, Hr, Hc, Hf.
  assert (∀ key e, pl_grouped p !! key = Some e → asks load e = Some key) as Hask.
  { intros key e He. rewrite Hg in He. unfold first_asking in He. apply head_Some in He as [l Hl].
    assert (e ∈ filter (λ e, asks load e = Some key) entries) as Hin by (rewrite Hl; by left).
    by apply list_elem_of_filter in Hin as [? _]. }
  split; [|split; [|split; [|by split_and!]]].
  - intros j. unfold jobsToStart. rewrite elem_of_sort_stable, list_elem_of_fmap. split.
    + intros ([key e] & -> & Hin%elem_of_map_to_list). exists key. by rewrite <-Hg.
    + intros [key Hk]. exists (key, j). split; [done|]. apply elem_of_map_to_list. by rewrite Hg.
  - apply sort_stable_sorted. intros a b. apply str_ltb_asym.
  - unfold jobsToStart. rewrite sort_stable_perm, <-list_fmap_compose.
    apply NoDup_fmap_2_strong; [|apply NoDup_map_to_list].
    intros [k1 e1] [k2 e2] H1%elem_of_map_to_list H2%elem_of_map_to_list E. cbn in E.
    pose proof (Hask _ _ H1) as A1. pose proof (Hask _ _ H2) as A2.
    assert (k1 = k2) as ->; [|congruence]. unfold asks in A1, A2. rewrite E in A1.
    destruct (load (rg_ConfigDir e2)) as [[[] pool]|]; try done. injection A1 as <-. injection A2 as <-.
    unfold job_key. by rewrite E.
Qed.

(** ** Examples *)

Definition sample_registration (dir : string) : registration := mkRegistration dir "/r" "" true.

(** Two workspaces of one pool, one outside, one that opted out. *)
Definition sample_load (dir : string) : option (bool * option string) :=
  if bool_decide (dir = "/c") then Some (true, None)
  else if bool_decide (dir = "/d") then Some (false, None) else Some (true, Some "p").

Example sample_jobs :
  jobsToStart (plan (Some "/") "/s" None Some id sample_load (λ _, true)
    (sample_registration <$> ["/c"; "/b"; "/a"; "/d"]) [] ∅) = sample_registration <$> ["/b"; "/c"].
Proof. by vm_compute. Qed.

Definition sample_jobs_list : list registration := sample_registration <$> ["/b"; "/c"].

(** A run: what the launching goroutine or a job does next. *)
Fixpoint run_workers (moves : list (bool + nat * start_end)) (w : workers) : option workers :=
  match moves with
  | [] => Some w
  | inl slot :: moves => main_step slot w ≫= run_workers moves
  | inr (i, o) :: moves => job_step i o w ≫= run_workers moves
  end.

Lemma run_workers_steps moves w w' : run_workers moves w = Some w' → rtc worker_step w w'.
Proof.
  revert w. induction moves as [|[slot|[i o]] moves IH]; intros w; cbn [run_workers]; [by intros [= ->]|..].
  - destruct (main_step slot w) as [w1|] eqn:E; [|done]. cbn. intros H.
    eapply rtc_l; [by eapply by_main|by apply IH].
  - destruct (job_step i o w) as [w1|] eqn:E; [|done]. cbn. intros H.
    eapply rtc_l; [by eapply by_job|by apply IH].
Qed.

(** Both jobs begun; the first failed, the second went well; the end. *)
Definition sample_moves : list (bool + nat * start_end) :=
  replicate 5 (inl true) ++ [inr (0, StartOk); inr (0, StartErr); inr (1, StartOk); inr (1, StartOk); inl true].

Definition sample_end : workers :=
  default (begin_workers [] []) (run_workers sample_moves (begin_workers sample_jobs_list [])).

Lemma sample_end_reached : rtc worker_step (begin_workers sample_jobs_list []) sample_end.
Proof.
  apply (run_workers_steps sample_moves). unfold sample_end.
  by destruct (run_workers sample_moves _) eqn:E; [|vm_compute in E].
Qed.

Lemma workers_complete_witness :
  wk_written sample_end = Some [StartFailure "/b"] ∧ called sample_end = sample_jobs_list.
Proof.
  assert (wk_written sample_end = Some [StartFailure "/b"]) as Hw by (by vm_compute).
  destruct (workers_complete _ _ _ sample_end_reached) as (_ & _ & H).
  split; [exact Hw|]. by destruct (H _ Hw).
Defined.

Lemma workers_finish_witness :
  ∃ w', rtc work_step (begin_workers sample_jobs_list []) w' ∧ wk_main w' = MDone.
Proof.
  destruct (workers_finish sample_jobs_list [] _ (rtc_refl _ _)) as (_ & w' & Hw & Hm & _). by exists w'.
Defined.

Lemma shutdown_stops_starts_witness :
  called (signal_shutdown sample_end) = sample_jobs_list ∧
  ∀ w', rtc worker_step (signal_shutdown sample_end) w' → called w' = sample_jobs_list.
Proof.
  assert (called (signal_shutdown sample_end) = sample_jobs_list) as Hc by (by vm_compute).
  split; [exact Hc|]. intros w' Hw. rewrite <-Hc.
  exact (proj1 (shutdown_stops_starts (signal_shutdown sample_end) w' eq_refl Hw)).
Defined.
