(* ===== verification/Identity.v ===== *)
(** The identity of a running weaver (src/cli/cmd/mill/lifecycle.go and
    restart_process.go): what mill makes of the metadata a weaver publishes, the
    proof of identity through its endpoint, the signals to a recorded process, and
    the removal of the artifacts that an identity owns. The process table, symbolic
    links, the reply of the endpoint and the texts of library errors are
    parameters. *)

From stdpp Require Import pretty.
From S2P Require Export Client Restart.

(** ** Published metadata *)

(** Signal 0 reaches the process, or may not be sent to it. *)
Definition Alive (probe : Z → bool) (pid : Z) : bool := (0 <? pid)%Z && probe pid.

Definition lower_hex (c : ascii) : bool := byte_within 48 57 c || byte_within 97 102 c.

(** A rune that is no lower-case hexadecimal digit has a byte that is none. *)
Definition validBasisFingerprint (value : string) : bool :=
  bool_decide (String.length value = 71) && HasPrefix value "sha256:"
  && forallb lower_hex (drop 7 (bytes_of value)).

Inductive stale_reason :=
| ProtocolOther (version : Z)
| RequiredMissing
| VersionBad (version : string)
| StorageBad (e : storage_error)
| RestartPathMissing
| KindUnsupported (kind : string)
| IdentityMismatch
| NotAlive (pid : Z).

(** [client.ProtocolVersion] *)
Definition ProtocolVersion : Z := 3.

Section validation.
Context (eval_symlinks : string → option string) (probe : Z → bool).

Definition samePath (a b : string) : bool :=
  if bool_decide (a = "") || bool_decide (b = "") then bool_decide (a = b)
  else bool_decide (default (Clean a) (eval_symlinks a) = default (Clean b) (eval_symlinks b)).

Definition requiredMissing (m : Metadata) : bool :=
  bool_decide (md_Version m = "") || bool_decide (md_PID m = 0%Z) || bool_decide (md_DaemonID m = "")
  || bool_decide (md_ConfigDir m = "") || bool_decide (md_StateDir m = "")
  || bool_decide (md_DataDir m = "") || is_blank (md_Name m) || bool_decide (md_SocketPath m = "")
  || bool_decide (md_StartedAt m = "") || bool_decide (md_Host m = "")
  || bool_decide (md_Port m = 0%Z) || negb (validBasisFingerprint (md_BasisFingerprint m)).

Definition sameWorld (w : world) (m : Metadata) : bool :=
  samePath (md_ConfigDir m) (ConfigDir w) && samePath (md_StateDir m) (StateDir w)
  && samePath (md_DataDir m) (DataDir w) && samePath (DatabasePathString m) (DBPath w)
  && samePath (md_SocketPath m) (PathJoin [StateDir w; "weaver.sock"]).

(** [Ok] is the empty reason. *)
Definition validateMetadata (w : world) (m : Metadata) : result stale_reason unit :=
  ensure (bool_decide (md_ProtocolVersion m = ProtocolVersion)) (ProtocolOther (md_ProtocolVersion m)) ;;
  ensure (negb (requiredMissing m)) RequiredMissing ;;
  ensure (ValidVersion (md_Version m)) (VersionBad (md_Version m)) ;;
  match ValidateStorageIdentity m with Ok _ => Ok tt | Err e => Err (StorageBad e) end ;;
  ensure (bool_decide (md_JVMPool m = "")
          || (negb (bool_decide (md_PoolRestartPath m = "")) && IsAbs (md_PoolRestartPath m)
              && bool_decide (Clean (md_PoolRestartPath m) = md_PoolRestartPath m)))
    RestartPathMissing ;;
  ensure (bool_decide (md_DatabaseKind m = "sqlite-file")) (KindUnsupported (md_DatabaseKind m)) ;;
  ensure (sameWorld w m) IdentityMismatch ;;
  ensure (Alive probe (md_PID m)) (NotAlive (md_PID m)).
End validation.

Section texts.
(** The [%q] verb. *)
Context (quote : string → string).

Definition storage_text (m : Metadata) (e : storage_error) : string :=
  match e with
  | BlankLabel => "blank weaver storage label for kind " +:+ quote (md_DatabaseKind m)
  | InconsistentFile => "inconsistent sqlite-file storage metadata: label " +:+ quote (md_DatabaseLabel m)
                          +:+ " path " +:+ quote (DatabasePathString m)
  | InconsistentMemory => "inconsistent sqlite-memory storage metadata: label "
                          +:+ quote (md_DatabaseLabel m) +:+ " path " +:+ quote (DatabasePathString m)
  | UnknownKind kind => "unknown weaver storage kind " +:+ quote kind
  end.

Definition stale_text (m : Metadata) (r : stale_reason) : string :=
  match r with
  | ProtocolOther v => "weaver protocol mismatch: got v" +:+ pretty v +:+ ", mill supports v"
                         +:+ pretty ProtocolVersion
  | RequiredMissing => "malformed weaver metadata: missing required fields"
  | VersionBad v => "malformed weaver metadata: invalid product version " +:+ quote v
  | StorageBad e => storage_text m e
  | RestartPathMissing =>
      "malformed weaver metadata: pooled runtime is missing a canonical pool_restart_path"
  | KindUnsupported kind =>
      "mill supervises file-backed weavers; unsupported storage kind " +:+ quote kind
  | IdentityMismatch => "weaver metadata identity mismatch"
  | NotAlive pid => "pid " +:+ pretty pid +:+ " is not alive"
  end.
End texts.

(** ** Statuses *)

Definition when (b : bool) (v : any) : option any := if b then Some v else None.

(** A pointer is kept as what it points to. *)
Definition status_members (m : Metadata) (state : string) : list (string * option any) :=
  let pooled := negb (bool_decide (md_JVMPool m = "")) in
  [("state", Some (AString state)); ("config_dir", Some (AString (md_ConfigDir m)));
   ("state_dir", Some (AString (md_StateDir m))); ("data_dir", Some (AString (md_DataDir m)));
   ("database_kind", Some (AString (md_DatabaseKind m)));
   ("database_label", Some (AString (md_DatabaseLabel m)));
   ("database_path", Some (from_option AString ANil (md_DatabasePath m)));
   ("name", Some (AString (md_Name m))); ("pid", Some (AInt (md_PID m)));
   ("weaver_id", Some (AString (md_DaemonID m)));
   ("socket_path", Some (AString (md_SocketPath m)));
   ("nrepl", Some (AObject (<["port" := AInt (md_Port m)]> {["host" := AString (md_Host m)]})));
   ("started_at", Some (AString (md_StartedAt m)));
   ("log_path", Some (AString (weaverLogPath (md_StateDir m))));
   ("version", when (negb (is_blank (md_Version m))) (AString (md_Version m)));
   ("generation_id", when (negb (is_blank (md_GenerationID m))) (AString (md_GenerationID m)));
   ("basis_fingerprint", Some (AString (md_BasisFingerprint m)));
   ("jvm_pool", when pooled (AString (md_JVMPool m)));
   ("host_id", when pooled (AString (md_HostID m)));
   ("host_generation_id", when pooled (AString (md_HostGenerationID m)));
   ("pool_restart_path", when pooled (AString (md_PoolRestartPath m)));
   ("member_basis_fingerprint", when pooled (AString (md_MemberBasisFingerprint m)))].

Definition statusFromMetadata (m : Metadata) (state : string) : object :=
  json_object (status_members m state).

Definition weaver_json (stateDir : string) : string := PathJoin [stateDir; "weaver.json"].

(** What [readRestart] answers; [None] for a nil function. *)
Notation restart_answer := (option (result string (option restartRecord))).

Definition set_state (state : string) (m : object) : object := <["state" := AString state]> m.
Definition set_stale (reason : string) (m : object) : object :=
  <["stale_reason" := AString reason]> m.

Section reading.
Context (eval_symlinks : string → option string) (probe : Z → bool) (quote : string → string).
(** The text of the error of a decoder. *)
Context (decode_text : string).

(** [None] for a nil status; the flag is "stale". *)
Definition readStatusWithRestartRecord (w : world) (restart : restart_answer) (fs : files)
    : option (object * bool) :=
  match fs !! weaver_json (StateDir w) with
  | None | Some Unreadable => None
  | Some (Holds d) =>
      match d ≫= decodeMetadata with
      | None => Some (set_stale ("malformed weaver metadata: " +:+ decode_text) (baseStatus w "stale"), true)
      | Some m =>
          match validateMetadata eval_symlinks probe w m with
          | Err r => Some (set_stale (stale_text quote m r) (statusFromMetadata m "stale"), true)
          | Ok _ =>
              let status := statusFromMetadata m "running" in
              match restart with
              | None => Some (status, false)
              | Some (Err e) => Some (set_stale e (set_state "stale" status), true)
              | Some (Ok record) =>
                  match record with
                  | Some r => if bool_decide (State r = "running")
                              then Some (mergeRestartRecordCompactStatus status r, false)
                              else Some (status, false)
                  | None => Some (status, false)
                  end
              end
          end
      end
  end.

Definition readRuntimeStatus (w : world) : files → option (object * bool) :=
  readStatusWithRestartRecord w None.

Inductive file_error := FileUnreadable | FileMalformed | FileStale (reason : string).

(** The world that metadata names; its friendly name is not asked for. *)
Definition metadataWorld (m : Metadata) : world :=
  mkWorld (md_ConfigDir m) (md_StateDir m) (md_DataDir m) (DatabasePathString m) "".

Definition readStatusFileWithWorld (file : option held) : result file_error (object * world) :=
  match file with
  | None | Some Unreadable => Err FileUnreadable
  | Some (Holds d) =>
      match d ≫= decodeMetadata with
      | None => Err FileMalformed
      | Some m =>
          match validateMetadata eval_symlinks probe (metadataWorld m) m with
          | Err r =>
              let reason := stale_text quote m r in
              if HasPrefix reason "pid "
              then Ok (set_stale reason (statusFromMetadata m "stale"), metadataWorld m)
              else Err (FileStale reason)
          | Ok _ => Ok (statusFromMetadata m "running", metadataWorld m)
          end
      end
  end.
End reading.

(** ** Identities *)

Record weaverIdentity := mkIdentity {
  id_PID : Z;
  id_WeaverID : string;
  id_GenerationID : string;
  id_StartedAt : string;
  id_Socket : string;
  id_ConfigDir : string;
  id_StateDir : string;
  id_DataDir : string;
}.

#[global] Instance weaverIdentity_eq_dec : EqDecision weaverIdentity.
Proof. solve_decision. Defined.

Inductive identity_error := MissingPID | MissingIdentity.

(** [stringStatus] is [text]. *)
Definition identityFromStatus (status : object) : result identity_error weaverIdentity :=
  match status !! "pid" with
  | Some (AInt pid) =>
      if (pid <=? 0)%Z then Err MissingPID
      else
        let id := mkIdentity pid (text "weaver_id" status) (text "generation_id" status)
                    (text "started_at" status) (text "socket_path" status)
                    (text "config_dir" status) (text "state_dir" status) (text "data_dir" status) in
        if bool_decide (id_WeaverID id = "") || bool_decide (id_StartedAt id = "")
           || bool_decide (id_Socket id = "") || bool_decide (id_ConfigDir id = "")
           || bool_decide (id_StateDir id = "") || bool_decide (id_DataDir id = "")
        then Err MissingIdentity else Ok id
  | _ => Err MissingPID
  end.

(** A generation that is not known is not compared. *)
Definition sameGeneration (a b : string) : bool :=
  bool_decide (a = "") || bool_decide (b = "") || bool_decide (a = b).

Definition sameWeaverIdentity (a b : weaverIdentity) : bool :=
  bool_decide (id_PID a = id_PID b) && bool_decide (id_WeaverID a = id_WeaverID b)
  && sameGeneration (id_GenerationID a) (id_GenerationID b)
  && bool_decide (id_StartedAt a = id_StartedAt b) && bool_decide (id_Socket a = id_Socket b)
  && bool_decide (id_ConfigDir a = id_ConfigDir b) && bool_decide (id_StateDir a = id_StateDir b)
  && bool_decide (id_DataDir a = id_DataDir b).

(** The identity in published metadata. *)
Definition publishedIdentity (m : Metadata) : weaverIdentity :=
  mkIdentity (md_PID m) (md_DaemonID m) (md_GenerationID m) (md_StartedAt m) (md_SocketPath m)
    (md_ConfigDir m) (md_StateDir m) (md_DataDir m).

(** ** The removal of artifacts *)

Inductive cleanup_error := CleanupRead | CleanupDecode | OwnershipChanged | RemoveFailed (path : string).

Definition artifacts (stateDir : string) : list string :=
  [weaver_json stateDir; PathJoin [stateDir; "weaver.edn"]; PathJoin [stateDir; "weaver.sock"]].

Section cleanup.
(** Which paths the system lets be removed. *)
Context (can_remove : string → bool).

(** One [os.Remove] of the loop; the first error is kept. *)
Definition remove_artifact (acc : files * option cleanup_error) (path : string)
    : files * option cleanup_error :=
  let '(fs, first) := acc in
  match fs !! path with
  | None => acc
  | Some _ => if can_remove path then (delete path fs, first)
              else (fs, Some (default (RemoveFailed path) first))
  end.

Definition cleanupWorldArtifactsOwned (w : world) (expected : weaverIdentity) (fs : files)
    : files * result cleanup_error unit :=
  match fs !! weaver_json (StateDir w) with
  | None => (fs, Ok tt)
  | Some Unreadable => (fs, Err CleanupRead)
  | Some (Holds d) =>
      match d ≫= decodeMetadata with
      | None => (fs, Err CleanupDecode)
      | Some m =>
          if bool_decide (id_WeaverID expected = "")
             || negb (sameWeaverIdentity expected (publishedIdentity m))
          then (fs, Err OwnershipChanged)
          else
            let '(fs, first) := foldl remove_artifact (fs, None) (artifacts (StateDir w)) in
            (fs, from_option Err (Ok tt) first)
      end
  end.
End cleanup.

(** ** The endpoint *)

Inductive endpoint_error :=
| EndpointIO
| NotMatching
| NotHealthy
| PidMismatch
| FieldMismatch (key : string).

Section endpoint.
Context (float_text : string → option string).
(** The [int] that a float64 of this text is, if it is one. *)
Context (float_int : string → option Z).

Record statusResponse := mkStatusResponse {
  sr_ProtocolVersion : Z; sr_RequestID : string; sr_OK : bool; sr_Result : option jobject;
}.

Definition decodeStatusResponse (d : doc) : option statusResponse :=
  match d with
  | DObject l =>
      v ← int_field (field_values "protocol_version" l);
      id ← string_field (field_values "request_id" l);
      ok ← bool_field (field_values "ok" l);
      res ← map_from float_text None (field_values "result" l);
      _ ← map_from float_text None (field_values "error" l);
      Some (mkStatusResponse v id ok res)
  | DNull => Some (mkStatusResponse 0 "" false None)
  | _ => None
  end.

Definition jsonInt (v : option json) : option Z :=
  match v with Some (JNumber t) => float_int t | _ => None end.

Definition expected_fields (id : weaverIdentity) : list (string * string) :=
  [("weaver_id", id_WeaverID id); ("started_at", id_StartedAt id); ("socket_path", id_Socket id);
   ("config_dir", id_ConfigDir id); ("state_dir", id_StateDir id); ("data_dir", id_DataDir id)]
  ++ (if bool_decide (id_GenerationID id = "") then [] else [("generation_id", id_GenerationID id)]).

(** [reply] is what the connection answers to the request; [None] for a failed
    dial or write, or a reply that does not decode. *)
Definition runtimeStatusRequest (id : weaverIdentity) (requestID : string) (reply : option doc)
    : result endpoint_error jobject :=
  match reply ≫= decodeStatusResponse with
  | None => Err EndpointIO
  | Some r =>
      match sr_Result r with
      | Some res =>
          ensure (bool_decide (sr_ProtocolVersion r = ProtocolVersion)
                  && bool_decide (sr_RequestID r = requestID) && sr_OK r) NotMatching ;;
          ensure (match res !! "healthy" with Some (JBool b) => b | _ => false end) NotHealthy ;;
          ensure (bool_decide (jsonInt (res !! "pid") = Some (id_PID id))) PidMismatch ;;
          check_each (λ kv, ensure (match res !! kv.1 with
                                    | Some (JString s) => bool_decide (s = kv.2)
                                    | _ => false end) (FieldMismatch kv.1)) (expected_fields id) ;;
          Ok res
      | None => Err NotMatching
      end
  end.

Definition verifyRuntimeEndpoint (id : weaverIdentity) (requestID : string) (reply : option doc)
    : result endpoint_error unit :=
  runtimeStatusRequest id requestID reply ;; Ok tt.
End endpoint.

(** ** Signals to a recorded process *)

(** What the system holds and answers when an identity is checked. *)
Record moment := mkMoment {
  mo_files : files;
  mo_restart : result string (option restartRecord);
  mo_probe : Z → bool;
  mo_request : string;
  mo_reply : option doc;
}.

(** A child as far as it is signalled: [wc_pid] is the pid of its process. *)
Record recordedChild := mkRecorded {
  wc_pid : option Z;
  wc_identity : weaverIdentity;
  wc_world : world;
  wc_unsupervised : bool;
}.

Inductive verify_error :=
| Incomplete
| AbsentOrStale
| InvalidStatus (e : identity_error)
| IdentityChanged (pid : Z)
| EndpointRefused (e : endpoint_error).

(** What is done to processes, in order: a check of identity that passed, a signal
    to one process, a signal to its group and itself. *)
Inductive act :=
| Proved (at_ : moment)
| TermPID (pid : Z)
| TermGroup (pid : Z)
| KillPID (pid : Z).

Inductive stop_error :=
| NoRecordedPID
| Refused (e : verify_error)
| VerifyFailed (e : verify_error)
| NotConfirmed (pid : Z)
| StopCleanup (e : cleanup_error).

Section stopping.
Context (eval_symlinks : string → option string) (quote : string → string) (decode_text : string).
Context (float_text : string → option string) (float_int : string → option Z).
Context (can_remove : string → bool).

Definition readStatus (w : world) (mo : moment) : option (object * bool) :=
  readStatusWithRestartRecord eval_symlinks (mo_probe mo) quote decode_text w
    (Some (mo_restart mo)) (mo_files mo).

Definition verifyUnsupervisedIdentity (child : recordedChild) (w : world) (mo : moment)
    : result verify_error (list act) :=
  if negb (wc_unsupervised child) then Ok []
  else
    let id := wc_identity child in
    ensure (negb (id_PID id <=? 0)%Z && bool_decide (wc_pid child = Some (id_PID id))) Incomplete ;;
    match readStatus w mo with
    | None | Some (_, true) => Err AbsentOrStale
    | Some (status, false) =>
        match identityFromStatus status with
        | Err e => Err (InvalidStatus e)
        | Ok current =>
            ensure (sameWeaverIdentity current id) (IdentityChanged (id_PID id)) ;;
            match verifyRuntimeEndpoint float_text float_int id (mo_request mo) (mo_reply mo) with
            | Err e => Err (EndpointRefused e)
            | Ok _ => Ok [Proved mo]
            end
        end
    end.

Definition signalRecordedPID (pid : Z) (a : Z → act) : list act :=
  if (0 <? pid)%Z then [a pid] else [].
Definition terminatePID (pid : Z) : list act := if (0 <? pid)%Z then [TermGroup pid] else [].

(** [first] and [second] are the moments of the two checks, [exit1] and [exit2]
    whether [waitRecordedExit] sees the process gone after each signal. *)
Definition terminateAndConfirm (child : recordedChild) (pid : Z) (first second : moment)
    (exit1 exit2 : bool) : list act * result verify_error bool :=
  match verifyUnsupervisedIdentity child (wc_world child) first with
  | Err e => ([], Err e)
  | Ok proof1 =>
      let acts := proof1 ++ if wc_unsupervised child then signalRecordedPID pid TermPID
                            else terminatePID pid in
      if exit1 then (acts, Ok true)
      else
        match verifyUnsupervisedIdentity child (wc_world child) second with
        | Err e => (acts, Err e)
        | Ok proof2 =>
            (acts ++ proof2 ++ if wc_unsupervised child then signalRecordedPID pid KillPID
                               else [KillPID pid], Ok exit2)
        end
  end.

(** [entry] is the moment of the check before any signal; [fs] holds the files
    when the process is gone. *)
Definition stopRecordedGeneration (child : recordedChild) (w : world) (entry first second : moment)
    (exit1 exit2 : bool) (fs : files) : list act * files * result stop_error unit :=
  match wc_pid child with
  | None => ([], fs, Err NoRecordedPID)
  | Some pid =>
      if (pid <=? 0)%Z then ([], fs, Err NoRecordedPID)
      else
        match verifyUnsupervisedIdentity child w entry with
        | Err e => ([], fs, Err (Refused e))
        | Ok proof =>
            let '(acts, r) := terminateAndConfirm child pid first second exit1 exit2 in
            match r with
            | Err e => (proof ++ acts, fs, Err (VerifyFailed e))
            | Ok false => (proof ++ acts, fs, Err (NotConfirmed pid))
            | Ok true =>
                match cleanupWorldArtifactsOwned can_remove w (wc_identity child) fs with
                | (fs', Ok _) => (proof ++ acts, fs', Ok tt)
                | (fs', Err e) => (proof ++ acts, fs', Err (StopCleanup e))
                end
            end
        end
  end.
End stopping.

(** ** Lemmas: statuses and their identity *)

Lemma status_member m state k v :
  (k, v) ∈ status_members m state → statusFromMetadata m state !! k = v.
Proof. apply lookup_json_object. cbn [status_members fmap list_fmap fst]. by_evaluation. Qed.

Ltac member := cbn [status_members]; repeat (apply elem_of_cons; first [by left|right]).

Lemma status_text m state k s :
  (k, Some (AString s)) ∈ status_members m state → text k (statusFromMetadata m state) = s.
Proof. intros H. unfold text. by rewrite (status_member _ _ _ _ H). Qed.

(** The generation a status of [m] names. *)
Definition ownGeneration (m : Metadata) : string :=
  if is_blank (md_GenerationID m) then "" else md_GenerationID m.

Definition with_generation (g : string) (id : weaverIdentity) : weaverIdentity :=
  mkIdentity (id_PID id) (id_WeaverID id) g (id_StartedAt id) (id_Socket id)
    (id_ConfigDir id) (id_StateDir id) (id_DataDir id).

Lemma status_generation m state :
  text "generation_id" (statusFromMetadata m state) = ownGeneration m.
Proof.
  unfold text, ownGeneration.
  rewrite (status_member m state "generation_id"
    (when (negb (is_blank (md_GenerationID m))) (AString (md_GenerationID m)))) by member.
  by destruct (is_blank _).
Qed.

(** A status that agrees with that of [m] on the members of an identity. *)
Lemma identity_of_status m state status :
  (0 < md_PID m)%Z → requiredMissing m = false →
  Forall (λ k, status !! k = statusFromMetadata m state !! k)
    ["pid"; "weaver_id"; "started_at"; "socket_path"; "config_dir"; "state_dir"; "data_dir"] →
  identityFromStatus status = Ok (with_generation (text "generation_id" status) (publishedIdentity m)).
Proof.
  intros Hpid Hreq Hk. rewrite !Forall_cons in Hk. destruct Hk as (Hp & Hw & Hs & Hso & Hc & Hst & Hd & _).
  unfold identityFromStatus. rewrite Hp, (status_member m state "pid" (Some (AInt (md_PID m)))) by member.
  rewrite (proj2 (Z.leb_gt _ _)) by lia.
  assert (∀ k s, status !! k = statusFromMetadata m state !! k →
    (k, Some (AString s)) ∈ status_members m state → text k status = s) as Ht.
  { intros k s Hk Hin. rewrite <-(status_text _ _ _ _ Hin). unfold text. by rewrite Hk. }
  rewrite (Ht "weaver_id" (md_DaemonID m) Hw) by member.
  rewrite (Ht "started_at" (md_StartedAt m) Hs) by member.
  rewrite (Ht "socket_path" (md_SocketPath m) Hso) by member.
  rewrite (Ht "config_dir" (md_ConfigDir m) Hc) by member.
  rewrite (Ht "state_dir" (md_StateDir m) Hst) by member.
  rewrite (Ht "data_dir" (md_DataDir m) Hd) by member. cbv zeta.
  cbn [id_WeaverID id_StartedAt id_Socket id_ConfigDir id_StateDir id_DataDir].
  unfold requiredMissing in Hreq. rewrite !orb_false_iff, !bool_decide_eq_false in Hreq.
  destruct Hreq as (((((((((((_ & _) & Hi1) & Hi2) & Hi3) & Hi4) & _) & Hi5) & Hi6) & _) & _) & _).
  by rewrite !bool_decide_eq_false_2 by done.
Qed.

Lemma validateMetadata_ok eval_symlinks probe w m u :
  validateMetadata eval_symlinks probe w m = Ok u →
  requiredMissing m = false ∧ ValidateStorageIdentity m = Ok tt ∧ md_DatabaseKind m = "sqlite-file" ∧
  sameWorld eval_symlinks w m = true ∧ (0 < md_PID m)%Z ∧ probe (md_PID m) = true.
Proof.
  unfold validateMetadata. intros H.
  apply result_bind_ok in H as (? & _ & H). apply result_bind_ok in H as (? & Hr%ensure_ok & H).
  apply result_bind_ok in H as (? & _ & H). apply result_bind_ok in H as ([] & Hs & H).
  apply result_bind_ok in H as (? & _ & H). apply result_bind_ok in H as (? & Hk%ensure_ok & H).
  apply result_bind_ok in H as (? & Hw%ensure_ok & H). apply ensure_ok in H.
  unfold Alive in H. apply andb_true_iff in H as [Hp%Z.ltb_lt Hpr].
  split_and!; try done; [by apply negb_true_iff|by destruct (ValidateStorageIdentity m) as [[]|]|].
  by apply bool_decide_eq_true in Hk.
Qed.

(** The generation a record puts in place of a status' own. *)
Definition overlay (own : string) (record : option restartRecord) : string :=
  match record with
  | Some r => if bool_decide (State r = "running") && negb (bool_decide (GenerationID r = ""))
              then GenerationID r else own
  | None => own
  end.

Lemma merged_lookup m r k :
  k ≠ "generation_id" → k ≠ "transition_id" → k ≠ "restart_failure" →
  mergeRestartRecordCompactStatus m r !! k = m !! k.
Proof.
  intros Hg Ht Hf. unfold mergeRestartRecordCompactStatus.
  destruct (Failure r); rewrite ?lookup_insert_ne by done; by rewrite !lookup_set_text_ne.
Qed.

Lemma merged_generation m r :
  text "generation_id" (mergeRestartRecordCompactStatus m r)
  = if bool_decide (GenerationID r = "") then text "generation_id" m else GenerationID r.
Proof.
  unfold text, mergeRestartRecordCompactStatus.
  assert (∀ m', (set_text "transition_id" (TransitionID r) m') !! "generation_id" = m' !! "generation_id") as Ht
    by (intros m'; by rewrite lookup_set_text_ne).
  destruct (Failure r); rewrite ?lookup_insert_ne by done; rewrite Ht; unfold set_text;
    case_bool_decide; by rewrite ?lookup_insert_eq.
Qed.

Lemma same_published g m :
  sameWeaverIdentity (with_generation g (publishedIdentity m)) (publishedIdentity m)
  = sameGeneration g (md_GenerationID m).
Proof.
  unfold sameWeaverIdentity. cbn. rewrite !bool_decide_eq_true_2 by done. by rewrite !andb_true_r.
Qed.

(** ** Lemmas: removal *)

Lemma remove_all_spec can_remove paths fs first :
  let '(fs', r) := foldl (remove_artifact can_remove) (fs, first) paths in
  (∀ p, fs' !! p = if bool_decide (p ∈ paths) && can_remove p then None else fs !! p) ∧
  (r = None ↔ first = None ∧ ∀ p, p ∈ paths → is_Some (fs !! p) → can_remove p = true).
Proof.
  revert fs first. induction paths as [|q paths IH]; intros fs first.
  { simpl. split; [done|]. split; [|by intros [? _]]. intros ->. split; [done|]. by intros p ?%elem_of_nil. }
  cbn [foldl remove_artifact]. destruct (fs !! q) as [h|] eqn:Eq; [destruct (can_remove q) eqn:Er|].
  all: match goal with |- context [foldl ?op (?g, ?f) ?l] =>
         specialize (IH g f); destruct (foldl op (g, f) l) as [fs' r] end.
  all: destruct IH as [Hl Hr]; split.
  - intros p. rewrite Hl. destruct (decide (p = q)) as [->|Hne].
    + rewrite Er, lookup_delete_eq, (bool_decide_eq_true_2 (q ∈ q :: paths)) by left. by destruct (_ && _).
    + rewrite lookup_delete_ne by done. by rewrite (bool_decide_ext (p ∈ q :: paths) (p ∈ paths))
        by (rewrite elem_of_cons; naive_solver).
  - rewrite Hr. apply and_iff_compat_l. split; intros H p Hp.
    + intros Hs. destruct (decide (p = q)) as [->|Hne]; [done|].
      apply elem_of_cons in Hp as [|Hp]; [done|]. apply H; [done|]. by rewrite lookup_delete_ne.
    + intros [h' Hs]. destruct (decide (p = q)) as [->|Hne]; [done|].
      apply H; [by right|]. rewrite lookup_delete_ne in Hs by done. by exists h'.
  - intros p. rewrite Hl. destruct (decide (p = q)) as [->|Hne]; [by rewrite Er, !andb_false_r|].
    by rewrite (bool_decide_ext (p ∈ q :: paths) (p ∈ paths)) by (rewrite elem_of_cons; naive_solver).
  - rewrite Hr. split; [by intros [? _]|]. intros [_ H]. specialize (H q ltac:(left) ltac:(by exists h)).
    congruence.
  - intros p. rewrite Hl. destruct (decide (p = q)) as [->|Hne]; [rewrite Eq; by repeat case_match|].
    by rewrite (bool_decide_ext (p ∈ q :: paths) (p ∈ paths)) by (rewrite elem_of_cons; naive_solver).
  - rewrite Hr. apply and_iff_compat_l. split; intros H p Hp Hs.
    + destruct (decide (p = q)) as [->|Hne]; [by rewrite Eq in Hs; destruct Hs|].
      apply elem_of_cons in Hp as [|Hp]; [done|]. by apply H.
    + apply H; [by right|done].
Qed.

(** The metadata file names this identity as its own. *)
Definition owns (w : world) (expected : weaverIdentity) (fs : files) : Prop :=
  ∃ d m, fs !! weaver_json (StateDir w) = Some (Holds (Some d)) ∧ decodeMetadata d = Some m ∧
    id_WeaverID expected ≠ "" ∧ sameWeaverIdentity expected (publishedIdentity m) = true.

(** C19: The removal of a weaver's artifacts touches no other file, changes nothing
    unless the metadata that is there names the expected weaver, so that the
    artifacts of a successor stay, and then removes every artifact the system lets
    it remove, whatever happened to the others. It succeeds exactly when no
    metadata was there, or the artifacts were its own and all could be removed. *)
Theorem cleanup_owned can_remove w expected fs fs' r :
  cleanupWorldArtifactsOwned can_remove w expected fs = (fs', r) →
  (fs' = fs ∨ owns w expected fs) ∧
  (∀ p, p ∉ artifacts (StateDir w) → fs' !! p = fs !! p) ∧
  (owns w expected fs → ∀ p, p ∈ artifacts (StateDir w) →
     fs' !! p = if can_remove p then None else fs !! p) ∧
  (r = Ok tt ↔ fs !! weaver_json (StateDir w) = None ∨
     (owns w expected fs ∧ ∀ p, p ∈ artifacts (StateDir w) → is_Some (fs !! p) → can_remove p = true)).
Proof.
  unfold cleanupWorldArtifactsOwned. intros H.
  assert (∀ (P : Prop), ¬ owns w expected fs → fs !! weaver_json (StateDir w) ≠ None →
    ∀ e, (fs, Err e) = (fs', r) →
    (fs' = fs ∨ owns w expected fs) ∧ (∀ p, p ∉ artifacts (StateDir w) → fs' !! p = fs !! p) ∧
    (owns w expected fs → ∀ p, p ∈ artifacts (StateDir w) →
      fs' !! p = if can_remove p then None else fs !! p) ∧
    (r = Ok tt ↔ fs !! weaver_json (StateDir w) = None ∨ (owns w expected fs ∧ P))) as refused.
  { intros P Hno Hsome e [= <- <-]. split_and!; [by left|done|done|]. naive_solver. }
  destruct (fs !! weaver_json (StateDir w)) as [[|d]|] eqn:Ej.
  - eapply refused; [|done|done]. intros (d & m & Hd & _). congruence.
  - destruct (d ≫= decodeMetadata) as [m|] eqn:Em.
    2: { eapply refused; [|done|done]. intros (d' & m & Hd & Hm & _).
         assert (d = Some d') as -> by congruence. simpl in Em. congruence. }
    destruct d as [d|]; [|done]. simpl in Em.
    destruct (_ || _) eqn:Eo.
    { eapply refused; [|done|done]. intros (d' & m' & Hd & Hm & Hw & Hs). simplify_eq.
      rewrite Hs in Eo. by rewrite (bool_decide_eq_false_2 _ Hw) in Eo. }
    apply orb_false_iff in Eo as [Hw%bool_decide_eq_false Hs%negb_false_iff].
    assert (owns w expected fs) as Ho by (exists d, m; done).
    pose proof (remove_all_spec can_remove (artifacts (StateDir w)) fs None) as Hspec.
    destruct (foldl _ (fs, None) _) as [fs1 first] eqn:Ef.
    destruct Hspec as [Hl Hr]. assert (fs1 = fs') as -> by (by destruct first; simplify_eq).
    split_and!.
    + by right.
    + intros p Hp. by rewrite Hl, (bool_decide_eq_false_2 _ Hp).
    + intros _ p Hp. by rewrite Hl, (bool_decide_eq_true_2 _ Hp).
    + assert (r = Ok tt ↔ first = None) as -> by (destruct first; simplify_eq/=; naive_solver).
      rewrite Hr. split; [intros [_ Hall]; right; by split|]. by intros [|[_ Hall]].
  - simplify_eq. split_and!; [by left|done| |naive_solver].
    intros (d & m & Hd & _). congruence.
Qed.

(** ** The identity in a status *)

Lemma status_identity eval_symlinks probe quote decode_text w restart fs d m status :
  fs !! weaver_json (StateDir w) = Some (Holds (Some d)) → decodeMetadata d = Some m →
  readStatusWithRestartRecord eval_symlinks probe quote decode_text w restart fs = Some (status, false) →
  validateMetadata eval_symlinks probe w m = Ok tt ∧
  identityFromStatus status
  = Ok (with_generation (overlay (ownGeneration m) match restart with Some (Ok r) => r | _ => None end)
          (publishedIdentity m)).
Proof.
  intros Hf Hd Hs. unfold readStatusWithRestartRecord in Hs.
  rewrite Hf in Hs. cbn [mbind option_bind] in Hs. rewrite Hd in Hs.
  destruct (validateMetadata eval_symlinks probe w m) as [[]|e] eqn:Hv; [|done]. split; [done|].
  apply validateMetadata_ok in Hv as (Hreq & _ & _ & _ & Hpid & _).
  assert (∀ r, identityFromStatus (mergeRestartRecordCompactStatus (statusFromMetadata m "running") r)
    = Ok (with_generation (if bool_decide (GenerationID r = "") then ownGeneration m else GenerationID r)
           (publishedIdentity m))) as Hmerged.
  { intros r. rewrite <-(status_generation m "running"), <-merged_generation.
    apply (identity_of_status m "running"); [exact Hpid|exact Hreq|].
    repeat (constructor; [apply merged_lookup; discriminate|]). constructor. }
  assert (identityFromStatus (statusFromMetadata m "running")
    = Ok (with_generation (ownGeneration m) (publishedIdentity m))) as Hplain.
  { rewrite <-(status_generation m "running").
    apply (identity_of_status m "running"); [exact Hpid|exact Hreq|].
    repeat (constructor; [reflexivity|]). constructor. }
  revert Hs Hplain Hmerged. generalize (statusFromMetadata m "running"). intros st Hs Hplain Hmerged.
  unfold overlay. destruct restart as [[[r|]|e]|]; cbv iota in Hs; simplify_eq; try exact Hplain.
  destruct (bool_decide (State r = "running")); simplify_eq; [|exact Hplain]. rewrite Hmerged.
  cbn [andb]. by destruct (bool_decide (GenerationID r = "")).
Qed.

(** A status that is not stale identifies its weaver, with every part of the
    identity from the metadata but the generation: a running restart record puts
    its own in that place. So the identity owns the artifacts of that very weaver
    unless the record is of another generation; then their removal is refused and
    changes nothing. *)
Theorem status_identity_owns eval_symlinks probe quote decode_text can_remove w restart fs d m status :
  fs !! weaver_json (StateDir w) = Some (Holds (Some d)) → decodeMetadata d = Some m →
  readStatusWithRestartRecord eval_symlinks probe quote decode_text w restart fs = Some (status, false) →
  let record := match restart with Some (Ok r) => r | _ => None end in
  let generation := overlay (ownGeneration m) record in
  let id := with_generation generation (publishedIdentity m) in
  identityFromStatus status = Ok id ∧
  (sameGeneration generation (md_GenerationID m) = true → owns w id fs) ∧
  (sameGeneration generation (md_GenerationID m) = false →
   cleanupWorldArtifactsOwned can_remove w id fs = (fs, Err OwnershipChanged)).
Proof.
  intros Hf Hd Hs record generation id.
  destruct (status_identity _ _ _ _ _ _ _ _ _ _ Hf Hd Hs) as [Hv Hid].
  apply validateMetadata_ok in Hv as (Hreq & _).
  assert (id_WeaverID id ≠ "") as Hw.
  { unfold requiredMissing in Hreq. rewrite !orb_false_iff, !bool_decide_eq_false in Hreq.
    cbn. tauto. }
  split; [done|]. split; intros Hg.
  - exists d, m. split_and!; [done..|]. unfold id. by rewrite same_published.
  - unfold cleanupWorldArtifactsOwned. rewrite Hf. cbn [mbind option_bind]. rewrite Hd. unfold id.
    by rewrite same_published, Hg, orb_true_r.
Qed.

(** ** Signals that are proved *)

Section proofs.
Context (eval_symlinks : string → option string) (quote : string → string) (decode_text : string).
Context (float_text : string → option string) (float_int : string → option Z).

(** At this moment the metadata of [w] names the weaver, its process is alive, and
    the endpoint, answering this very request, names it too. *)
Definition evidence (id : weaverIdentity) (w : world) (mo : moment) : Prop :=
  (∃ d m, mo_files mo !! weaver_json (StateDir w) = Some (Holds (Some d)) ∧
     decodeMetadata d = Some m ∧ sameWorld eval_symlinks w m = true ∧
     md_PID m = id_PID id ∧ md_DaemonID m = id_WeaverID id ∧ md_StartedAt m = id_StartedAt id ∧
     md_SocketPath m = id_Socket id ∧ mo_probe mo (id_PID id) = true) ∧
  (∃ reply r res, mo_reply mo = Some reply ∧ decodeStatusResponse float_text reply = Some r ∧
     sr_RequestID r = mo_request mo ∧ sr_OK r = true ∧ sr_Result r = Some res ∧
     res !! "healthy" = Some (JBool true) ∧ jsonInt float_int (res !! "pid") = Some (id_PID id) ∧
     ∀ k s, (k, s) ∈ expected_fields id → res !! k = Some (JString s)).

Lemma endpoint_evidence id requestID reply res :
  runtimeStatusRequest float_text float_int id requestID reply = Ok res →
  ∃ d r, reply = Some d ∧ decodeStatusResponse float_text d = Some r ∧
    sr_RequestID r = requestID ∧ sr_OK r = true ∧ sr_Result r = Some res ∧
    res !! "healthy" = Some (JBool true) ∧ jsonInt float_int (res !! "pid") = Some (id_PID id) ∧
    ∀ k s, (k, s) ∈ expected_fields id → res !! k = Some (JString s).
Proof.
  unfold runtimeStatusRequest. destruct reply as [d|]; [|done]. simpl.
  destruct (decodeStatusResponse float_text d) as [r|] eqn:Er; [|done].
  destruct (sr_Result r) as [res'|] eqn:Eres; [|done]. intros H.
  apply result_bind_ok in H as (? & Hm%ensure_ok & H).
  apply result_bind_ok in H as (? & Hh%ensure_ok & H).
  apply result_bind_ok in H as (? & Hp%ensure_ok & H).
  apply result_bind_ok in H as (? & Hf%check_each_ok & [= ->]).
  rewrite !andb_true_iff, !bool_decide_eq_true in Hm. destruct Hm as [[_ Hid] Hok].
  apply bool_decide_eq_true in Hp. exists d, r. split_and!; try done.
  - destruct (res !! "healthy") as [[]|]; naive_solver.
  - intros k s Hin. rewrite Forall_forall in Hf. specialize (Hf (k, s) Hin).
    apply ensure_ok in Hf. cbn in Hf. destruct (res !! k) as [[]|]; try done.
    by apply bool_decide_eq_true in Hf as ->.
Qed.

Lemma verify_evidence child w mo acts :
  wc_unsupervised child = true →
  verifyUnsupervisedIdentity eval_symlinks quote decode_text float_text float_int child w mo = Ok acts →
  acts = [Proved mo] ∧ evidence (wc_identity child) w mo ∧
  wc_pid child = Some (id_PID (wc_identity child)).
Proof.
  intros Hu. unfold verifyUnsupervisedIdentity. rewrite Hu. cbn [negb]. intros H.
  apply result_bind_ok in H as (? & Hc%ensure_ok & H).
  apply andb_true_iff in Hc as [_ Hpid%bool_decide_eq_true].
  destruct (readStatus _ _ _ _ _) as [[status []]|] eqn:Es; [done| |done].
  destruct (identityFromStatus status) as [current|] eqn:Ei; [|done].
  apply result_bind_ok in H as (? & Hsame%ensure_ok & H).
  destruct (verifyRuntimeEndpoint _ _ _ _ _) as [[]|] eqn:Ee; [|done]. injection H as <-.
  split; [done|]. split; [|done].
  unfold verifyRuntimeEndpoint in Ee. apply result_bind_ok in Ee as (res & Ee & _).
  split; [|by apply endpoint_evidence in Ee as (d & r & ?); exists d, r, res].
  unfold readStatus in Es. destruct (mo_files mo !! weaver_json (StateDir w)) as [[|[d|]]|] eqn:Ef.
  1, 3, 4: by (unfold readStatusWithRestartRecord in Es; rewrite Ef in Es).
  destruct (decodeMetadata d) as [m|] eqn:Em.
  2: { unfold readStatusWithRestartRecord in Es. rewrite Ef in Es. cbn [mbind option_bind] in Es.
       by rewrite Em in Es. }
  destruct (status_identity _ _ _ _ _ _ _ _ _ _ Ef Em Es) as [Hv Hid].
  rewrite Hid in Ei. injection Ei as <-. apply validateMetadata_ok in Hv as (_ & _ & _ & Hw & _ & Hp).
  unfold sameWeaverIdentity in Hsame. rewrite !andb_true_iff, !bool_decide_eq_true in Hsame.
  destruct Hsame as (((((((Hi1 & Hi2) & _) & Hi3) & Hi4) & _) & _) & _). cbn in *.
  exists d, m. rewrite <-Hi1. done.
Qed.
End proofs.


(** ** Examples *)

Definition sample_weaver_world : world :=
  mkWorld "/r/.millstrand" "/s/w" "/s/w/data" "/s/w/data/millstrand.sqlite" "r".

Definition sample_basis : string := "sha256:" +:+ of_bytes (repeat "0"%char 64).

Definition sample_metadata : doc :=
  DObject [("protocol_version", DNumber "3"); ("version", DString "1.2.3"); ("pid", DNumber "42");
    ("database_kind", DString "sqlite-file"); ("database_label", DString (DBPath sample_weaver_world));
    ("database_path", DString (DBPath sample_weaver_world)); ("weaver_id", DString "w1");
    ("generation_id", DString "g2"); ("basis_fingerprint", DString sample_basis);
    ("config_dir", DString (ConfigDir sample_weaver_world)); ("state_dir", DString "/s/w");
    ("data_dir", DString "/s/w/data"); ("name", DString "r"); ("socket_path", DString "/s/w/weaver.sock");
    ("started_at", DString "now");
    ("nrepl", DObject [("host", DString "127.0.0.1"); ("port", DNumber "7000")])].

Definition sample_published : Metadata :=
  mkMetadata 3 "1.2.3" 42 "sqlite-file" (DBPath sample_weaver_world) (Some (DBPath sample_weaver_world))
    "w1" "g2" sample_basis "" "" "" "" "" "/r/.millstrand" "/s/w" "/s/w/data" "r" "/s/w/weaver.sock"
    "now" "127.0.0.1" 7000.

Lemma sample_metadata_decodes : decodeMetadata sample_metadata = Some sample_published.
Proof. vm_compute. reflexivity. Qed.

Definition sample_runtime : files :=
  <["/s/w/weaver.json" := Holds (Some sample_metadata)]> {["/s/w/weaver.sock" := Unreadable]}.

Lemma cleanup_owned_witness :
  (cleanupWorldArtifactsOwned (λ _, true) sample_weaver_world (publishedIdentity sample_published)
     sample_runtime).1 !! "/s/w/weaver.sock" = None.
Proof.
  destruct (cleanupWorldArtifactsOwned (λ _, true) sample_weaver_world
    (publishedIdentity sample_published) sample_runtime) as [fs' r] eqn:E.
  destruct (cleanup_owned _ _ _ _ _ _ E) as (_ & _ & H & _). cbn [fst].
  rewrite (H ltac:(exists sample_metadata, sample_published; split_and!;
             [vm_compute; reflexivity|exact sample_metadata_decodes|done|vm_compute; reflexivity])
             "/s/w/weaver.sock"); [done|].
  vm_compute. right; right; left.
Defined.

(** The record of a restart that ended in generation [g1], and the metadata of the
    weaver that a later start launched. *)
Definition sample_old_record : restartRecord :=
  mkRecord "running" "t1" "g1" "g0" "w0" "now" true None None false false.

Lemma status_identity_owns_witness :
  cleanupWorldArtifactsOwned (λ _, true) sample_weaver_world
    (with_generation "g1" (publishedIdentity sample_published)) sample_runtime
  = (sample_runtime, Err OwnershipChanged).
Proof.
  assert (snd <$> readStatusWithRestartRecord Some (λ _, true) id "" sample_weaver_world
    (Some (Ok (Some sample_old_record))) sample_runtime = Some false) as E by (vm_compute; reflexivity).
  apply fmap_Some in E as ([status stale] & E & Hs). cbn [snd] in Hs. subst stale.
  apply (proj2 (proj2 (status_identity_owns Some (λ _, true) id "" (λ _, true) sample_weaver_world
    (Some (Ok (Some sample_old_record))) sample_runtime sample_metadata sample_published status
    ltac:(vm_compute; reflexivity) sample_metadata_decodes E))).
  vm_compute. reflexivity.
Defined.

Definition sample_reply : doc :=
  DObject [("protocol_version", DNumber "3"); ("request_id", DString "q"); ("ok", DBool true);
    ("result", DObject [("healthy", DBool true); ("pid", DNumber "42"); ("weaver_id", DString "w1");
       ("started_at", DString "now"); ("socket_path", DString "/s/w/weaver.sock");
       ("config_dir", DString "/r/.millstrand"); ("state_dir", DString "/s/w");
       ("data_dir", DString "/s/w/data"); ("generation_id", DString "g2")])].

Definition sample_moment : moment :=
  mkMoment sample_runtime (Ok None) (λ _, true) "q" (Some sample_reply).

Definition sample_recorded : recordedChild :=
  mkRecorded (Some 42%Z) (publishedIdentity sample_published) sample_weaver_world true.

