(* ===== verification/Supervisor.v ===== *)
(** The supervision of weavers (src/cli/cmd/mill/lifecycle.go, temporary.go,
    restart.go and restart_process.go): the calls that start, stop and restart the
    weaver of a workspace, interleaved at the critical sections of [server.mu], with
    the goroutines that wait for the processes.

    A call is a thread that holds its place in the code. It makes at most one start
    claim, one child and one transition, which bear its number. What a call finds
    outside (the metadata of a workspace, the outcome of a system call, a timeout)
    is the answer it is given. [server.mu] is held from step to step only where the
    code waits under it. *)

From S2P Require Export RestartRecord.

(** ** State *)

Inductive process := NoProcess | Running | Reaped.
Inductive channel := Empty | Full | Taken.

(** The goroutine that waits for a child: not started, in [cmd.Wait], before the
    send on [done], before the close of [waitDone], before the wait for the start
    claim, ended. *)
Inductive observer := OIdle | OWait | OSend | OClose | OStartDone | OEnd.

#[global] Instance process_eq_dec : EqDecision process.
Proof. solve_decision. Defined.
#[global] Instance channel_eq_dec : EqDecision channel.
Proof. solve_decision. Defined.

(** [weaverChild]: [ch_waitDone] is whether the channel is closed. *)
Record child := mkChild {
  ch_ws : string;
  ch_temp : bool;
  ch_proc : process;
  ch_done : channel;
  ch_waitDone : bool;
  ch_observer : observer;
}.

(** [weaverTransition]: [tr_old] is the old generation, with its child if mill
    supervises it; [tr_done] is whether [done] is closed. *)
Record transition := mkTrans {
  tr_old : option (option nat);
  tr_retry : bool;
  tr_state : restart_state;
  tr_done : bool;
}.

(** How a call ended: with a weaver of its own, with what it found, or refused. *)
Inductive outcome := Started | Joined | Refused.

Inductive start_pc :=
| SLookup
| SWaitClaim (c : nat)
| SMode
| SPool
| STransition
| SWaitTransition (r : nat)
| SInstall
| SClaimed
| SPrepared
| SRegister
| SSpawn
| SLaunchFailed
| SReady
| SPublish
| SStop
| SDiscard
| SRelease (o : outcome)
| SDone (o : outcome).

Inductive stop_pc :=
| PFirst
| PLookup
| PWaitClaim (c : nat)
| PTransition
| PLock
| PWaitTemp (l : nat)
| PWaitExit (l : nat)
| PDone (o : outcome).

Inductive restart_pc :=
| RLookup
| RWaitClaim (c : nat)
| RTemp
| RPool
| RBegin
| RWaitTransition (r : nat)
| RFirstWrite
| RProbe
| RAdmit
| RStopOld
| RStopped
| RReleaseOld
| RRegister
| RSpawn
| RLaunchFailed
| RReady
| RStopNew
| RReleaseNew
| RCommit
| RFailing
| RComplete (retain : bool)
| RDone (o : outcome).

Inductive thread :=
| TStart (ws : string) (temp : bool) (pc : start_pc)
| TStop (ws : string) (pc : stop_pc)
| TRestart (ws : string) (pc : restart_pc).

(** [sv_dirs] are the temporary runtime directories that exist, [sv_closed] the
    claims that are closed, [sv_mu] who holds the mutex while it waits. *)
Record server := mkServer {
  sv_children : gmap string nat;
  sv_heap : gmap nat child;
  sv_claims : gmap string nat;
  sv_closed : gset nat;
  sv_transitions : gmap string nat;
  sv_trans : gmap nat transition;
  sv_threads : gmap nat thread;
  sv_mu : option nat;
  sv_dirs : gset nat;
}.

Definition idle_server : server := mkServer ∅ ∅ ∅ ∅ ∅ ∅ ∅ None ∅.

(** What [readStatus] finds. *)
Inductive seen := SeenNone | SeenStale | SeenLive.

(** The answers to one step: whether the calls it makes succeed, what the metadata
    says, whether a wait takes the value in [done], whether a cleanup succeeds, and
    whether a durable record makes a restart a retry. *)
Record answer := mkAnswer {
  a_ok : bool;
  a_seen : seen;
  a_take : bool;
  a_clean : bool;
  a_retry : bool;
}.

(** ** Updates *)

Definition with_children (f : gmap string nat → gmap string nat) (s : server) : server :=
  mkServer (f (sv_children s)) (sv_heap s) (sv_claims s) (sv_closed s) (sv_transitions s)
    (sv_trans s) (sv_threads s) (sv_mu s) (sv_dirs s).
Definition with_heap (f : gmap nat child → gmap nat child) (s : server) : server :=
  mkServer (sv_children s) (f (sv_heap s)) (sv_claims s) (sv_closed s) (sv_transitions s)
    (sv_trans s) (sv_threads s) (sv_mu s) (sv_dirs s).
Definition with_claims (f : gmap string nat → gmap string nat) (s : server) : server :=
  mkServer (sv_children s) (sv_heap s) (f (sv_claims s)) (sv_closed s) (sv_transitions s)
    (sv_trans s) (sv_threads s) (sv_mu s) (sv_dirs s).
Definition with_closed (f : gset nat → gset nat) (s : server) : server :=
  mkServer (sv_children s) (sv_heap s) (sv_claims s) (f (sv_closed s)) (sv_transitions s)
    (sv_trans s) (sv_threads s) (sv_mu s) (sv_dirs s).
Definition with_transitions (f : gmap string nat → gmap string nat) (s : server) : server :=
  mkServer (sv_children s) (sv_heap s) (sv_claims s) (sv_closed s) (f (sv_transitions s))
    (sv_trans s) (sv_threads s) (sv_mu s) (sv_dirs s).
Definition with_trans (f : gmap nat transition → gmap nat transition) (s : server) : server :=
  mkServer (sv_children s) (sv_heap s) (sv_claims s) (sv_closed s) (sv_transitions s)
    (f (sv_trans s)) (sv_threads s) (sv_mu s) (sv_dirs s).
Definition with_thread (t : nat) (th : thread) (s : server) : server :=
  mkServer (sv_children s) (sv_heap s) (sv_claims s) (sv_closed s) (sv_transitions s)
    (sv_trans s) (<[t := th]> (sv_threads s)) (sv_mu s) (sv_dirs s).
Definition with_mu (m : option nat) (s : server) : server :=
  mkServer (sv_children s) (sv_heap s) (sv_claims s) (sv_closed s) (sv_transitions s)
    (sv_trans s) (sv_threads s) m (sv_dirs s).
Definition with_dirs (f : gset nat → gset nat) (s : server) : server :=
  mkServer (sv_children s) (sv_heap s) (sv_claims s) (sv_closed s) (sv_transitions s)
    (sv_trans s) (sv_threads s) (sv_mu s) (f (sv_dirs s)).

Definition set_proc (p : process) (o : observer) (c : child) : child :=
  mkChild (ch_ws c) (ch_temp c) p (ch_done c) (ch_waitDone c) o.
Definition set_done (d : channel) (c : child) : child :=
  mkChild (ch_ws c) (ch_temp c) (ch_proc c) d (ch_waitDone c) (ch_observer c).
Definition set_observer (o : observer) (c : child) : child :=
  mkChild (ch_ws c) (ch_temp c) (ch_proc c) (ch_done c) (ch_waitDone c) o.
Definition set_waitDone (c : child) : child :=
  mkChild (ch_ws c) (ch_temp c) (ch_proc c) (ch_done c) true (ch_observer c).

Definition on_child (l : nat) (f : child → child) : server → server := with_heap (alter f l).

(** ** Critical sections *)

Definition child_at (s : server) (ws : string) : option nat := sv_children s !! ws.

(** [child.cmd.Process != nil && processAlive(child.cmd.Process.Pid)] *)
Definition alive (s : server) (l : nat) : bool :=
  match sv_heap s !! l with Some c => bool_decide (ch_proc c = Running) | None => false end.

Definition temp_child (s : server) (l : nat) : bool :=
  match sv_heap s !! l with Some c => ch_temp c | None => false end.

Definition waited (s : server) (l : nat) : bool :=
  match sv_heap s !! l with Some c => ch_waitDone c | None => false end.

(** There is no process to wait for. *)
Definition unstarted (s : server) (l : nat) : bool :=
  match sv_heap s !! l with Some c => bool_decide (ch_proc c = NoProcess) | None => false end.

Definition done_of (s : server) (l : nat) : channel :=
  match sv_heap s !! l with Some c => ch_done c | None => Empty end.

Definition startClaim (s : server) (ws : string) : option nat := sv_claims s !! ws.
Definition lifecycleTransition (s : server) (ws : string) : option nat := sv_transitions s !! ws.

Definition tran_state (s : server) (r : nat) : restart_state :=
  from_option tr_state FailedState (sv_trans s !! r).

Definition releaseStartClaim (ws : string) (claim : nat) (s : server) : server :=
  if bool_decide (sv_claims s !! ws = Some claim)
  then with_closed (union {[claim]}) (with_claims (delete ws) s) else s.

Definition releaseChild (ws : string) (l : nat) (s : server) : server :=
  if bool_decide (child_at s ws = Some l) then with_children (delete ws) s else s.

(** [ok] is whether custody shut down and the artifacts and the directory were
    removed; a child whose teardown failed stays registered. *)
Definition cleanupTemporaryChildLocked (ok : bool) (l : nat) (s : server) : server :=
  match sv_heap s !! l with
  | Some c => if ok then with_children (delete (ch_ws c)) (with_dirs (λ d, d ∖ {[l]}) s) else s
  | None => s
  end.

(** The server, and whether the start may go on. *)
Definition checkStartModeLocked (ws : string) (temporary ok : bool) (s : server) : server * bool :=
  match child_at s ws, sv_claims s !! ws with
  | Some l, None =>
      if negb (temp_child s l) && negb (alive s l) then (s, true)
      else if temp_child s l && waited s l then (cleanupTemporaryChildLocked ok l s, ok)
      else (s, bool_decide (temp_child s l = temporary))
  | _, _ => (s, true)
  end.

(** The [register] of a start: a child that is alive is not replaced. *)
Definition new_child (ws : string) (temporary : bool) : child :=
  mkChild ws temporary NoProcess Empty false OIdle.

Definition register_child (ws : string) (temporary : bool) (l : nat) (s : server) : server :=
  with_children (insert ws l) (with_heap (insert l (new_child ws temporary)) s).

Definition register_start (ws : string) (temporary : bool) (l : nat) (s : server) : option server :=
  match child_at s ws with
  | Some l' => if alive s l' then None else Some (register_child ws temporary l s)
  | None => Some (register_child ws temporary l s)
  end.

(** The [register] of a replacement: no child is replaced. *)
Definition register_replacement (ws : string) (l : nat) (s : server) : option server :=
  match child_at s ws with
  | Some _ => None
  | None => Some (register_child ws false l s)
  end.

(** The locked part of [discardStartedChild]. *)
Definition discardStartedChild (ws : string) (l : nat) (ok : bool) (s : server) : server :=
  if bool_decide (child_at s ws = Some l) then
    if temp_child s l then cleanupTemporaryChildLocked ok l s
    else with_children (delete ws) s
  else s.

(** The deferred removal of a directory that no child took. *)
Definition drop_directory (temporary ok : bool) (t : nat) (s : server) : server :=
  if temporary && ok then with_dirs (λ d, d ∖ {[t]}) s else s.

Definition set_transition_state (r : nat) (state : restart_state) : server → server :=
  with_trans (alter (λ x, mkTrans (tr_old x) (tr_retry x) state (tr_done x)) r).

Definition completeTransition (ws : string) (r : nat) (retain : bool) (s : server) : server :=
  let s := with_trans (alter (λ x, mkTrans (tr_old x) (tr_retry x) (tr_state x) true) r) s in
  if negb retain && bool_decide (sv_transitions s !! ws = Some r)
  then with_transitions (delete ws) s else s.

(** ** The goroutine that waits for a child *)

Definition observe (a : answer) (l : nat) (s : server) : option server :=
  c ← sv_heap s !! l;
  match ch_observer c with
  | OWait => Some (on_child l (set_proc Reaped OSend) s)
  | OSend => Some (on_child l (set_observer OClose ∘ set_done Full) s)
  | OClose => Some (on_child l (set_observer (if ch_temp c then OStartDone else OEnd) ∘ set_waitDone) s)
  | OStartDone =>
      if bool_decide (l ∈ sv_closed s) && bool_decide (sv_mu s = None) then
        Some (on_child l (set_observer OEnd)
          (if bool_decide (child_at s (ch_ws c) = Some l)
           then cleanupTemporaryChildLocked (a_clean a) l s else s))
      else None
  | OIdle | OEnd => None
  end.

(** A critical section: nobody holds the mutex. *)
Definition locked (s : server) (r : option server) : option server :=
  if bool_decide (sv_mu s = None) then r else None.

(** The value in [done] is taken. *)
Definition take_done (l : nat) (s : server) : option server :=
  if bool_decide (done_of s l = Full) then Some (on_child l (set_done Taken) s) else None.

(** ** The calls *)

(** From the first look for a claim to the installation of one's own. *)
Definition start_before (a : answer) (t : nat) (ws : string) (temporary : bool) (pc : start_pc)
    (s : server) : option server :=
  let goto pc s := Some (with_thread t (TStart ws temporary pc) s) in
  match pc with
  | SLookup =>
      locked s (match startClaim s ws with
                | Some c => goto (SWaitClaim c) s
                | None => goto SMode s
                end)
  | SWaitClaim c =>
      if negb (a_ok a) then goto (SDone Refused) s
      else if bool_decide (c ∈ sv_closed s) then goto SLookup s else None
  | SMode =>
      locked s (let '(s, ok) := checkStartModeLocked ws temporary (a_clean a) s in
                goto (if ok then SPool else SDone Refused) s)
  | SPool => goto (if a_ok a then STransition else SDone Refused) s
  | STransition =>
      locked s (match lifecycleTransition s ws with
                | Some r =>
                    if temporary then goto (SDone Refused) s
                    else if bool_decide (tran_state s r = Probing) then goto (SDone Joined) s
                    else goto (SWaitTransition r) s
                | None => goto (if a_ok a then SInstall else SDone Refused) s
                end)
  | SWaitTransition r =>
      if negb (a_ok a) || from_option tr_done false (sv_trans s !! r)
      then goto (SDone Joined) s else None
  | SInstall =>
      locked s (match startClaim s ws with
        | Some c => goto (SWaitClaim c) s
        | None =>
            let '(s, ok) := checkStartModeLocked ws temporary (a_clean a) s in
            if negb ok then goto (SDone Refused) s
            else match lifecycleTransition s ws with
              | Some r =>
                  if temporary then goto (SDone Refused) s
                  else if bool_decide (tran_state s r = Probing) then goto (SDone Joined) s
                  else goto (SWaitTransition r) s
              | None =>
                  if from_option (alive s) false (child_at s ws) then
                    goto (SDone match a_seen a with SeenStale => Refused | _ => Joined end) s
                  else match a_seen a with
                    | SeenLive => goto (SDone (if temporary then Refused else Joined)) s
                    | SeenStale => goto (SDone Refused) s
                    | SeenNone => goto SClaimed (with_claims (insert ws t) s)
                    end
              end
        end)
  | _ => None
  end.

(** With the claim held. *)
Definition start_claimed (a : answer) (t : nat) (ws : string) (temporary : bool) (pc : start_pc)
    (s : server) : option server :=
  let goto pc s := Some (with_thread t (TStart ws temporary pc) s) in
  match pc with
  | SClaimed =>
      if a_ok a then goto SPrepared (if temporary then with_dirs (union {[t]}) s else s)
      else goto (SRelease Refused) s
  | SPrepared =>
      if a_ok a then goto SRegister s
      else goto (SRelease Refused) (drop_directory temporary (a_clean a) t s)
  | SRegister =>
      locked s (match register_start ws temporary t s with
                | Some s => goto SSpawn s
                | None => goto SLaunchFailed s
                end)
  | SSpawn =>
      if a_ok a then goto SReady (on_child t (set_proc Running OWait) s) else goto SLaunchFailed s
  | SLaunchFailed =>
      locked s (goto (SRelease Refused)
                  (drop_directory temporary (a_clean a) t (releaseChild ws t s)))
  | SReady =>
      if a_ok a then goto SPublish s
      else if a_take a then take_done t s ≫= goto SStop else goto SStop s
  | SPublish => locked s (goto (if a_ok a then SRelease Started else SStop) s)
  | SStop => if waited s t then goto SDiscard s else None
  | SDiscard =>
      locked s (goto (SRelease Refused) (discardStartedChild ws t (a_clean a) s))
  | SRelease o => locked s (goto (SDone o) (releaseStartClaim ws t s))
  | _ => None
  end.

Definition stop_step (a : answer) (t : nat) (ws : string) (pc : stop_pc) (s : server)
    : option server :=
  let goto pc s := Some (with_thread t (TStop ws pc) s) in
  match pc with
  | PFirst =>
      locked s (if from_option (temp_child s) false (child_at s ws) || a_ok a then goto PLookup s
                else goto (PDone Refused) s)
  | PLookup =>
      locked s (match startClaim s ws with
                | Some c => goto (PWaitClaim c) s
                | None => goto PTransition s
                end)
  | PWaitClaim c => if bool_decide (c ∈ sv_closed s) then goto PFirst s else None
  | PTransition =>
      locked s (match lifecycleTransition s ws with
                | Some _ => goto (PDone Refused) s
                | None => goto PLock s
                end)
  | PLock =>
      locked s (match child_at s ws with
        | None => goto (PDone (if a_ok a then Joined else Refused)) s
        | Some l =>
            if temp_child s l then goto (PWaitTemp l) (with_mu (Some t) s)
            else if alive s l then goto (PWaitExit l) (with_mu (Some t) s)
            else goto (PDone (if a_ok a then Joined else Refused)) (with_children (delete ws) s)
        end)
  | PWaitTemp l =>
      if waited s l || unstarted s l then
        goto (PDone (if a_clean a then Joined else Refused))
          (with_mu None (cleanupTemporaryChildLocked (a_clean a) l s))
      else None
  | PWaitExit l =>
      s ← take_done l s;
      goto (PDone (if a_clean a then Joined else Refused))
        (with_mu None (if a_clean a then with_children (delete ws) s else s))
  | PDone _ => None
  end.

(** The transition that a restart registers. *)
Definition install_transition (t : nat) (ws : string) (old : option (option nat)) (retry : bool)
    (s : server) : server :=
  with_transitions (insert ws t)
    (with_trans (insert t (mkTrans old retry (if retry then Restarting else Probing) false)) s).

(** Without a live child: a retry needs the record of a failed launch and no
    metadata, and otherwise the metadata has to name a live weaver. *)
Definition discover_old (a : answer) (t : nat) (ws : string) (s : server) : server * bool :=
  match a_ok a, a_retry a, a_seen a with
  | true, true, SeenNone => (install_transition t ws None true s, true)
  | true, false, SeenLive => (install_transition t ws (Some None) false s, true)
  | _, _, _ => (s, false)
  end.

(** From the look for the old child to the registered transition. *)
Definition begin_transition (a : answer) (t : nat) (ws : string) (s : server) : server * bool :=
  match child_at s ws with
  | Some l =>
      if temp_child s l then (s, false)
      else if alive s l then (install_transition t ws (Some (Some l)) false s, true)
      else discover_old a t ws (with_children (delete ws) s)
  | None => discover_old a t ws s
  end.

(** Up to the registered transition. *)
Definition restart_before (a : answer) (t : nat) (ws : string) (pc : restart_pc) (s : server)
    : option server :=
  let goto pc s := Some (with_thread t (TRestart ws pc) s) in
  let begin_ s := let '(s, ok) := begin_transition a t ws s in
                  goto (if ok then RFirstWrite else RDone Refused) s in
  match pc with
  | RLookup =>
      locked s (match startClaim s ws with
                | Some c => goto (RWaitClaim c) s
                | None => goto RTemp s
                end)
  | RWaitClaim c => if bool_decide (c ∈ sv_closed s) then goto RLookup s else None
  | RTemp =>
      locked s (goto (if from_option (temp_child s) false (child_at s ws) then RDone Refused
                      else RPool) s)
  | RPool => goto (if a_ok a then RBegin else RDone Refused) s
  | RBegin =>
      locked s (match startClaim s ws with
        | Some c => goto (RWaitClaim c) s
        | None =>
            match lifecycleTransition s ws with
            | Some r => if bool_decide (tran_state s r = FailedState)
                        then begin_ (with_transitions (delete ws) s)
                        else goto (RWaitTransition r) s
            | None => begin_ s
            end
        end)
  | RWaitTransition r =>
      if negb (a_ok a) || from_option tr_done false (sv_trans s !! r)
      then goto (RDone Joined) s else None
  | _ => None
  end.

Definition old_child (s : server) (t : nat) : option nat :=
  x ← sv_trans s !! t; mjoin (tr_old x).

(** The transition itself, from its first durable record. *)
Definition restart_open (a : answer) (t : nat) (ws : string) (pc : restart_pc) (s : server)
    : option server :=
  let goto pc s := Some (with_thread t (TRestart ws pc) s) in
  let has_old := bool_decide (is_Some (sv_trans s !! t ≫= tr_old)) in
  let retry := from_option tr_retry false (sv_trans s !! t) in
  let old_gone := negb (from_option (alive s) false (old_child s t)) in
  match pc with
  | RFirstWrite =>
      locked s (if a_ok a then goto RProbe s
                else if has_old && negb retry
                then goto (RComplete false) (set_transition_state t RunningState s)
                else goto (RComplete true) s)
  | RProbe =>
      if a_ok a then goto RAdmit s
      else if negb has_old || retry then goto RFailing s
      else locked s (goto (RComplete false) (set_transition_state t RunningState s))
  | RAdmit =>
      locked s (let s := set_transition_state t Restarting s in
                goto (if a_ok a then if has_old then RStopOld else RRegister else RFailing) s)
  | RStopOld =>
      if a_take a then l ← old_child s t; take_done l s
      else if a_ok a then if old_gone then goto RStopped s else None
      else goto RFailing s
  | RStopped =>
      locked s (goto (if a_ok a then RReleaseOld else RFailing) (set_transition_state t Restarting s))
  | RReleaseOld =>
      locked s (goto RRegister (from_option (λ l, releaseChild ws l s) s (old_child s t)))
  | RRegister =>
      if negb (a_ok a) then goto RFailing s
      else locked s (match register_replacement ws t s with
                     | Some s => goto RSpawn s
                     | None => goto RLaunchFailed s
                     end)
  | RSpawn =>
      if a_ok a then goto RReady (on_child t (set_proc Running OWait) s) else goto RLaunchFailed s
  | RLaunchFailed => locked s (goto RFailing (releaseChild ws t s))
  | RReady =>
      if a_ok a then goto RCommit s
      else if a_take a then take_done t s ≫= goto RStopNew else goto RStopNew s
  | RStopNew =>
      if a_take a then take_done t s
      else if a_ok a then if negb (alive s t) then goto RReleaseNew s else None
      else goto RFailing s
  | RReleaseNew => locked s (goto RFailing (releaseChild ws t s))
  | RCommit =>
      locked s (goto (if a_ok a then RComplete false else RFailing)
                  (set_transition_state t RunningState s))
  | RFailing => locked s (goto (RComplete true) (set_transition_state t FailedState s))
  | RComplete retain =>
      locked s (goto (RDone Started) (completeTransition ws t retain s))
  | _ => None
  end.

Definition claimed (pc : start_pc) : bool :=
  match pc with
  | SClaimed | SPrepared | SRegister | SSpawn | SLaunchFailed | SReady | SPublish | SStop
  | SDiscard | SRelease _ => true
  | _ => false
  end.

(** Before the transition is in its last state. *)
Definition open (pc : restart_pc) : bool :=
  match pc with
  | RFirstWrite | RProbe | RAdmit | RStopOld | RStopped | RReleaseOld | RRegister | RSpawn
  | RLaunchFailed | RReady | RStopNew | RReleaseNew | RCommit | RFailing => true
  | _ => false
  end.

(** ** Steps *)

Definition advance (a : answer) (t : nat) (s : server) : option server :=
  th ← sv_threads s !! t;
  match th with
  | TStart ws temporary pc =>
      if claimed pc then start_claimed a t ws temporary pc s
      else start_before a t ws temporary pc s
  | TStop ws pc => stop_step a t ws pc s
  | TRestart ws pc =>
      match pc with
      | RLookup | RWaitClaim _ | RTemp | RPool | RBegin | RWaitTransition _ =>
          restart_before a t ws pc s
      | _ => restart_open a t ws pc s
      end
  end.

(** A call that comes in. *)
Inductive request := ReqStart (temporary : bool) | ReqStop | ReqRestart.

Definition entry (ws : string) (q : request) : thread :=
  match q with
  | ReqStart temporary => TStart ws temporary SLookup
  | ReqStop => TStop ws PFirst
  | ReqRestart => TRestart ws RLookup
  end.

Inductive event :=
| Call (t : nat) (ws : string) (q : request)
| Advance (a : answer) (t : nat)
| Observe (a : answer) (l : nat).

Definition perform (e : event) (s : server) : option server :=
  match e with
  | Call t ws q =>
      if bool_decide (sv_threads s !! t = None) then Some (with_thread t (entry ws q) s) else None
  | Advance a t => advance a t s
  | Observe a l => observe a l s
  end.

Inductive step (s s' : server) : Prop :=
| Step e : perform e s = Some s' → step s s'.

(** The last section of a stop that finds the claims and transitions of its
    workspace as its earlier sections found them. *)
Definition orderly (e : event) (s : server) : Prop :=
  match e with
  | Advance _ t =>
      match sv_threads s !! t with
      | Some (TStop ws PLock) => sv_claims s !! ws = None ∧ sv_transitions s !! ws = None
      | _ => True
      end
  | _ => True
  end.

Inductive orderly_step (s s' : server) : Prop :=
| Orderly e : orderly e s → perform e s = Some s' → orderly_step s s'.

Fixpoint run (es : list event) (s : server) : option server :=
  match es with
  | [] => Some s
  | e :: es => perform e s ≫= run es
  end.

(** An answer by which the calls go well. *)
Definition well : answer := mkAnswer true SeenNone false true false.

Definition reachable : server → Prop := rtc step idle_server.
Definition orderly_reachable : server → Prop := rtc orderly_step idle_server.

Lemma run_steps es s s' : run es s = Some s' → rtc step s s'.
Proof.
  revert s. induction es as [|e es IH]; intros s; cbn [run]; [by intros [= ->]|].
  destruct (perform e s) as [s1|] eqn:E; [|done]. cbn. intros H. eapply rtc_l; [by exists e|by apply IH].
Qed.

(** ** Lemmas: claims and transitions *)

(** What a thread holds: the start claim of a workspace, or its transition. *)
Definition role (th : thread) : option (string + string) :=
  match th with
  | TStart ws _ pc => if claimed pc then Some (inl ws) else None
  | TStop _ _ => None
  | TRestart ws pc => if open pc then Some (inr ws) else None
  end.

(** The claim whose release a thread waits for. *)
Definition waits (th : thread) : option nat :=
  match th with
  | TStart _ _ (SWaitClaim c) | TStop _ (PWaitClaim c) | TRestart _ (RWaitClaim c) => Some c
  | _ => None
  end.

Definition claim_known (s : server) (c : nat) : Prop :=
  c ∈ sv_closed s ∨ ∃ ws, sv_claims s !! ws = Some c.

Record claims_inv (s : server) : Prop := {
  ci_claim : ∀ ws t, sv_claims s !! ws = Some t ↔
    ∃ th, sv_threads s !! t = Some th ∧ role th = Some (inl ws);
  ci_open : ∀ ws t th, sv_threads s !! t = Some th → role th = Some (inr ws) →
    sv_transitions s !! ws = Some t ∧ ∃ x, sv_trans s !! t = Some x ∧ tr_state x ≠ FailedState;
  ci_excl : ∀ ws, sv_claims s !! ws = None ∨ sv_transitions s !! ws = None;
  ci_wait : ∀ t th c, sv_threads s !! t = Some th → waits th = Some c → claim_known s c;
}.

(** The same but for children, processes, directories and the mutex. *)
Definition same_calls (s s' : server) : Prop :=
  sv_claims s' = sv_claims s ∧ sv_closed s' = sv_closed s ∧
  sv_transitions s' = sv_transitions s ∧ sv_trans s' = sv_trans s ∧ sv_threads s' = sv_threads s.

Lemma same_calls_refl s : same_calls s s.
Proof. done. Qed.
Lemma same_calls_trans s1 s2 s3 : same_calls s1 s2 → same_calls s2 s3 → same_calls s1 s3.
Proof. unfold same_calls. intros (?&?&?&?&?) (?&?&?&?&?). split_and!; congruence. Qed.
Lemma same_releaseChild ws l s : same_calls s (releaseChild ws l s).
Proof. unfold releaseChild. by case_bool_decide. Qed.
Lemma same_cleanup ok l s : same_calls s (cleanupTemporaryChildLocked ok l s).
Proof. unfold cleanupTemporaryChildLocked. destruct (sv_heap s !! l), ok; done. Qed.
Lemma same_mode ws temporary ok s : same_calls s (checkStartModeLocked ws temporary ok s).1.
Proof.
  unfold checkStartModeLocked. destruct (child_at s ws), (sv_claims s !! ws); try done.
  destruct (_ && _); [done|]. destruct (_ && _); [apply same_cleanup|done].
Qed.
Lemma same_discard ws l ok s : same_calls s (discardStartedChild ws l ok s).
Proof.
  unfold discardStartedChild. case_bool_decide; [|done]. destruct (temp_child s l); [|done].
  apply same_cleanup.
Qed.
Lemma same_drop temporary ok t s : same_calls s (drop_directory temporary ok t s).
Proof. unfold drop_directory. by destruct (_ && _). Qed.
Lemma same_register_start ws temporary l s s' :
  register_start ws temporary l s = Some s' → same_calls s s'.
Proof. unfold register_start. destruct (child_at s ws); [destruct (alive s _)|]; by intros [= <-]. Qed.
Lemma same_register_replacement ws l s s' :
  register_replacement ws l s = Some s' → same_calls s s'.
Proof. unfold register_replacement. destruct (child_at s ws); by intros [= <-]. Qed.
Lemma same_take l s s' : take_done l s = Some s' → same_calls s s'.
Proof. unfold take_done. case_bool_decide; by intros [= <-]. Qed.

Create HintDb calls.
#[export] Hint Resolve same_calls_refl same_releaseChild same_cleanup same_mode same_discard same_drop
  same_register_start same_register_replacement same_take : calls.
#[export] Hint Extern 1 (same_calls ?s (with_mu _ ?s)) => exact (same_calls_refl s) : calls.
#[export] Hint Extern 1 (same_calls ?s (with_children _ ?s)) => exact (same_calls_refl s) : calls.
#[export] Hint Extern 1 (same_calls ?s (with_dirs _ ?s)) => exact (same_calls_refl s) : calls.
#[export] Hint Extern 1 (same_calls ?s (on_child _ _ ?s)) => exact (same_calls_refl s) : calls.
#[export] Hint Extern 2 (same_calls ?s (with_mu _ ?s')) => change (same_calls s s') : calls.
#[export] Hint Extern 2 (same_calls ?s (with_dirs _ ?s')) => change (same_calls s s') : calls.
#[export] Hint Extern 2 (same_calls ?s (with_children _ ?s')) => change (same_calls s s') : calls.
#[export] Hint Extern 2 (same_calls ?s (drop_directory _ _ _ ?s')) =>
  apply (same_calls_trans s s'); [|apply same_drop] : calls.

Lemma claims_inv_same s s' : claims_inv s → same_calls s s' → claims_inv s'.
Proof.
  intros [H1 H2 H3 H4] (E1 & E2 & E3 & E4 & E5). unfold claim_known in H4.
  constructor; unfold claim_known; rewrite ?E1, ?E2, ?E3, ?E4, ?E5; done.
Qed.

(** A thread moves on and keeps what it holds, or leaves its transition. *)
Lemma claims_inv_move s s' t th th' :
  claims_inv s → sv_threads s !! t = Some th → same_calls s s' →
  role th' = role th ∨ (role th' = None ∧ ∃ ws, role th = Some (inr ws)) →
  (∀ c, waits th' = Some c → claim_known s c) →
  claims_inv (with_thread t th' s').
Proof.
  intros Hinv Hth Hs Hr Hw. apply (claims_inv_same _ s') in Hinv as [H1 H2 H3 H4]; [|done].
  destruct Hs as (E1 & E2 & E3 & E4 & E5). rewrite <-E5 in Hth.
  constructor; cbn -[claim_known].
  - intros ws t'. rewrite H1. destruct (decide (t' = t)) as [->|Hne].
    + rewrite lookup_insert_eq. split; intros (th0 & Hl & Hr0); simplify_eq.
      * exists th'. split; [done|]. destruct Hr as [->|[_ [ws' Hr]]]; [done|congruence].
      * exists th. split; [done|]. destruct Hr as [<-|[Hr _]]; [done|congruence].
    + by rewrite lookup_insert_ne.
  - intros ws t' th0. destruct (decide (t' = t)) as [->|Hne].
    + rewrite lookup_insert_eq. intros [= <-] Hr0. apply (H2 ws t th); [done|].
      destruct Hr as [<-|[Hr _]]; [done|congruence].
    + rewrite lookup_insert_ne by done. apply H2.
  - done.
  - intros t' th0 c. destruct (decide (t' = t)) as [->|Hne].
    + rewrite lookup_insert_eq. intros [= <-] Hc%Hw. unfold claim_known in *. cbn. by rewrite E1, E2.
    + rewrite lookup_insert_ne by done. apply H4.
Qed.

(** A thread that holds nothing comes in. *)
Lemma claims_inv_call s t ws q :
  claims_inv s → sv_threads s !! t = None → claims_inv (with_thread t (entry ws q) s).
Proof.
  intros [H1 H2 H3 H4] Ht. constructor; cbn -[claim_known].
  - intros ws' t'. rewrite H1. destruct (decide (t' = t)) as [->|Hne].
    + rewrite lookup_insert_eq, Ht. split; intros (th & Hl & Hr); [done|]. injection Hl as <-. by destruct q.
    + by rewrite lookup_insert_ne.
  - intros ws' t' th. destruct (decide (t' = t)) as [->|Hne].
    + rewrite lookup_insert_eq. intros [= <-]. by destruct q.
    + rewrite lookup_insert_ne by done. apply H2.
  - done.
  - intros t' th c. destruct (decide (t' = t)) as [->|Hne].
    + rewrite lookup_insert_eq. intros [= <-]. by destruct q.
    + rewrite lookup_insert_ne by done. apply H4.
Qed.

Lemma claims_inv_install s t ws temporary pc :
  claims_inv s → sv_threads s !! t = Some (TStart ws temporary pc) → claimed pc = false →
  sv_claims s !! ws = None → sv_transitions s !! ws = None →
  claims_inv (with_thread t (TStart ws temporary SClaimed) (with_claims (insert ws t) s)).
Proof.
  intros [H1 H2 H3 H4] Ht Hpc Hc Htr. constructor; cbn -[claim_known].
  - intros ws' t'. destruct (decide (t' = t)) as [->|Hne].
    + rewrite lookup_insert_eq. destruct (decide (ws' = ws)) as [->|Hw].
      * rewrite lookup_insert_eq. split; [|done]. intros _. by eexists.
      * rewrite lookup_insert_ne by done. split.
        -- intros (th & Hl & Hr)%H1. rewrite Ht in Hl. injection Hl as <-. cbn in Hr. by rewrite Hpc in Hr.
        -- intros (th & [= <-] & Hr). cbn in Hr. congruence.
    + rewrite (lookup_insert_ne (sv_threads s)), <-H1 by done. destruct (decide (ws' = ws)) as [->|Hw].
      * rewrite lookup_insert_eq, Hc. split; congruence.
      * by rewrite lookup_insert_ne.
  - intros ws' t' th. destruct (decide (t' = t)) as [->|Hne].
    + rewrite lookup_insert_eq. by intros [= <-].
    + rewrite lookup_insert_ne by done. apply H2.
  - intros ws'. destruct (decide (ws' = ws)) as [->|Hw]; [by right|]. rewrite lookup_insert_ne by done. apply H3.
  - intros t' th c. destruct (decide (t' = t)) as [->|Hne].
    + rewrite lookup_insert_eq. by intros [= <-].
    + rewrite lookup_insert_ne by done. intros Hl [Hw|[ws' Hw]]%(H4 _ _ _ Hl); [by left|right].
      exists ws'. cbn. rewrite lookup_insert_ne; [done|]. by intros ->; rewrite Hc in Hw.
Qed.

Lemma claims_inv_release s t ws temporary o :
  claims_inv s → sv_threads s !! t = Some (TStart ws temporary (SRelease o)) →
  claims_inv (with_thread t (TStart ws temporary (SDone o)) (releaseStartClaim ws t s)).
Proof.
  intros [H1 H2 H3 H4] Ht.
  assert (sv_claims s !! ws = Some t) as Hc by (apply H1; by eexists).
  unfold releaseStartClaim. rewrite bool_decide_eq_true_2 by done. constructor; cbn -[claim_known].
  - intros ws' t'. destruct (decide (ws' = ws)) as [->|Hw].
    + rewrite lookup_delete_eq. split; [done|]. intros (th & Hl & Hr). destruct (decide (t' = t)) as [->|Hne].
      * rewrite lookup_insert_eq in Hl. by injection Hl as <-.
      * rewrite lookup_insert_ne in Hl by done.
        assert (sv_claims s !! ws = Some t') by (apply H1; by eexists). congruence.
    + rewrite lookup_delete_ne, H1 by done. destruct (decide (t' = t)) as [->|Hne].
      * rewrite lookup_insert_eq. split; intros (th & Hl & Hr); [|by injection Hl as <-].
        rewrite Ht in Hl. injection Hl as <-. cbn in Hr. congruence.
      * by rewrite lookup_insert_ne.
  - intros ws' t' th. destruct (decide (t' = t)) as [->|Hne].
    + rewrite lookup_insert_eq. by intros [= <-].
    + rewrite lookup_insert_ne by done. apply H2.
  - intros ws'. destruct (decide (ws' = ws)) as [->|Hw]; [left; by rewrite lookup_delete_eq|].
    rewrite lookup_delete_ne by done. apply H3.
  - intros t' th c. destruct (decide (t' = t)) as [->|Hne].
    + rewrite lookup_insert_eq. by intros [= <-].
    + rewrite lookup_insert_ne by done. intros Hl [Hw|[ws' Hw]]%(H4 _ _ _ Hl).
      * left. cbn. set_solver.
      * destruct (decide (ws' = ws)) as [->|Hne'].
        -- left. cbn. assert (c = t) as -> by congruence. set_solver.
        -- right. exists ws'. cbn. by rewrite lookup_delete_ne.
Qed.

(** Only an open transition keeps others from being installed. *)
Lemma claims_inv_drop_failed s ws r :
  claims_inv s → sv_transitions s !! ws = Some r → tran_state s r = FailedState →
  claims_inv (with_transitions (delete ws) s).
Proof.
  intros [H1 H2 H3 H4] Hr Hst. constructor; cbn; try done.
  - intros ws' t th Hl Hro. destruct (H2 _ _ _ Hl Hro) as [Ht (x & Hx & Hne)]. split; [|by exists x].
    destruct (decide (ws' = ws)) as [->|Hw]; [|by rewrite lookup_delete_ne].
    exfalso. assert (r = t) as -> by congruence. unfold tran_state in Hst. by rewrite Hx in Hst.
  - intros ws'. destruct (decide (ws' = ws)) as [->|Hw]; [right; by rewrite lookup_delete_eq|].
    rewrite lookup_delete_ne by done. apply H3.
Qed.

Lemma claims_inv_begin s t ws pc old retry :
  claims_inv s → sv_threads s !! t = Some (TRestart ws pc) → open pc = false →
  sv_claims s !! ws = None → sv_transitions s !! ws = None →
  claims_inv (with_thread t (TRestart ws RFirstWrite) (install_transition t ws old retry s)).
Proof.
  intros [H1 H2 H3 H4] Ht Hpc Hc Htr. constructor; cbn -[claim_known].
  - intros ws' t'. rewrite H1. destruct (decide (t' = t)) as [->|Hne].
    + rewrite lookup_insert_eq, Ht. split; intros (th & Hl & Hr); injection Hl as <-; cbn in Hr;
        [by rewrite Hpc in Hr|done].
    + by rewrite lookup_insert_ne.
  - intros ws' t' th. destruct (decide (t' = t)) as [->|Hne].
    + rewrite !lookup_insert_eq. intros [= <-] [= <-]. rewrite lookup_insert_eq. split; [done|].
      eexists. split; [done|]. by destruct retry.
    + rewrite (lookup_insert_ne (sv_threads s)), (lookup_insert_ne (sv_trans s)) by done. intros Hl Hr.
      destruct (H2 _ _ _ Hl Hr) as [Htr' Hx]. split; [|done]. rewrite lookup_insert_ne; [done|]. congruence.
  - intros ws'. destruct (decide (ws' = ws)) as [->|Hw]; [by left|]. rewrite lookup_insert_ne by done. apply H3.
  - intros t' th c. destruct (decide (t' = t)) as [->|Hne].
    + rewrite lookup_insert_eq. by intros [= <-].
    + rewrite lookup_insert_ne by done. apply H4.
Qed.

(** The owner of an open transition sets its state, or its flag once it is closed. *)
Lemma claims_inv_set s t ws pc pc' f :
  claims_inv s → sv_threads s !! t = Some (TRestart ws pc) →
  (open pc = false → open pc' = false) → waits (TRestart ws pc') = None →
  (open pc' = true → ∀ x, tr_state x ≠ FailedState → tr_state (f x) ≠ FailedState) →
  claims_inv (with_thread t (TRestart ws pc') (with_trans (alter f t) s)).
Proof.
  intros [H1 H2 H3 H4] Ht Hpc Hw Hf. constructor; cbn -[claim_known].
  - intros ws' t'. rewrite H1. destruct (decide (t' = t)) as [->|Hne].
    + rewrite lookup_insert_eq, Ht. split; intros (th & Hl & Hr); injection Hl as <-; cbn in Hr;
        [by destruct (open pc)|by destruct (open pc')].
    + by rewrite lookup_insert_ne.
  - intros ws' t' th. destruct (decide (t' = t)) as [->|Hne].
    + rewrite lookup_insert_eq, lookup_alter_eq. intros [= <-] Hr. cbn in Hr.
      destruct (open pc') eqn:Eo; [|done]. injection Hr as ->.
      destruct (open pc) eqn:Eo'; [|naive_solver].
      destruct (H2 ws' t _ Ht) as [Htr (x & Hx & Hne)]; [cbn; by rewrite Eo'|].
      split; [done|]. exists (f x). rewrite Hx. split; [done|]. by apply Hf.
    + rewrite lookup_insert_ne, lookup_alter_ne by done. apply H2.
  - done.
  - intros t' th c. destruct (decide (t' = t)) as [->|Hne].
    + rewrite lookup_insert_eq. intros [= <-]. by rewrite Hw.
    + rewrite lookup_insert_ne by done. apply H4.
Qed.

Lemma claims_inv_complete s t ws retain o :
  claims_inv s → sv_threads s !! t = Some (TRestart ws (RComplete retain)) →
  claims_inv (with_thread t (TRestart ws (RDone o)) (completeTransition ws t retain s)).
Proof.
  intros Hinv Ht. unfold completeTransition. cbv zeta.
  pose proof (claims_inv_set s t ws (RComplete retain) (RDone o)
    (λ x, mkTrans (tr_old x) (tr_retry x) (tr_state x) true) Hinv Ht (λ _, eq_refl) eq_refl ltac:(done)) as Hset.
  destruct (_ && _) eqn:Ed; [|done].
  apply andb_true_iff in Ed as [_ Ed%bool_decide_eq_true]. cbn in Ed.
  destruct Hset as [H1 H2 H3 H4]. constructor; cbn in *; try done.
  - intros ws' t' th Hl Hr. destruct (H2 _ _ _ Hl Hr) as [Htr Hx]. split; [|done].
    destruct (decide (ws' = ws)) as [->|Hw]; [|by rewrite lookup_delete_ne].
    exfalso. assert (t' = t) as -> by congruence. rewrite lookup_insert_eq in Hl. by injection Hl as <-.
  - intros ws'. destruct (decide (ws' = ws)) as [->|Hw]; [right; by rewrite lookup_delete_eq|].
    rewrite lookup_delete_ne by done. apply H3.
Qed.

Lemma claims_inv_idle : claims_inv idle_server.
Proof.
  constructor; try done; [|by left]. intros ws t. cbn. rewrite !lookup_empty.
  split; [done|]. by intros (th & Hl & _).
Qed.

Lemma locked_some s r s' : locked s r = Some s' → sv_mu s = None ∧ r = Some s'.
Proof. unfold locked. by case_bool_decide. Qed.

Lemma mode_same ws temporary ok s s' b :
  checkStartModeLocked ws temporary ok s = (s', b) → same_calls s s'.
Proof. intros E. pose proof (same_mode ws temporary ok s) as H. by rewrite E in H. Qed.

Lemma start_before_inv a t ws temporary pc s s' :
  claims_inv s → sv_threads s !! t = Some (TStart ws temporary pc) → claimed pc = false →
  start_before a t ws temporary pc s = Some s' → claims_inv s'.
Proof.
  intros Hinv Ht Hpc H. assert (∀ c, startClaim s ws = Some c → claim_known s c) as Hknown
    by (intros c Hc; right; by exists ws).
  assert (∀ pc' s1, same_calls s s1 → claimed pc' = false →
    (∀ c, waits (TStart ws temporary pc') = Some c → claim_known s c) →
    claims_inv (with_thread t (TStart ws temporary pc') s1)) as move.
  { intros pc' s1 Hs Hc Hw. apply (claims_inv_move s s1 t _ _ Hinv Ht Hs); [|done].
    left. cbn. by rewrite Hpc, Hc. }
  destruct pc; cbn [start_before] in H; try done.
  - apply locked_some in H as [_ H]. destruct (startClaim s ws) as [c|] eqn:Ec; injection H as <-;
      by apply move.
  - destruct (negb (a_ok a)); [injection H as <-; by apply move|].
    case_bool_decide; [|done]. injection H as <-. by apply move.
  - apply locked_some in H as [_ H]. destruct (checkStartModeLocked _ _ _ _) as [s1 b] eqn:Em.
    injection H as <-. apply move; [by eapply mode_same|by destruct b|by destruct b].
  - injection H as <-. apply move; [done|by destruct (a_ok a)|by destruct (a_ok a)].
  - apply locked_some in H as [_ H]. destruct (lifecycleTransition s ws).
    + destruct temporary; [injection H as <-; by apply move|].
      case_bool_decide; injection H as <-; by apply move.
    + injection H as <-. apply move; [done|by destruct (a_ok a)|by destruct (a_ok a)].
  - destruct (_ || _); [|done]. injection H as <-. by apply move.
  - apply locked_some in H as [_ H]. destruct (startClaim s ws) as [c|] eqn:Ec.
    { injection H as <-. by apply move. }
    destruct (checkStartModeLocked _ _ _ _) as [s1 b] eqn:Em. apply mode_same in Em.
    destruct b; cbn [negb] in H; [|injection H as <-; by apply move].
    destruct (lifecycleTransition s1 ws) as [r|] eqn:Er.
    { destruct temporary; [injection H as <-; by apply move|].
      case_bool_decide; injection H as <-; by apply move. }
    destruct (from_option _ _ _); [injection H as <-; by apply move|].
    destruct (a_seen a); injection H as <-; try (by apply move).
    destruct Em as (E1 & E2 & E3 & E4 & E5).
    eapply (claims_inv_install s1 t ws temporary SInstall); try done.
    + by apply (claims_inv_same s).
    + by rewrite E5.
    + by rewrite E1.
Qed.

Lemma start_claimed_inv a t ws temporary pc s s' :
  claims_inv s → sv_threads s !! t = Some (TStart ws temporary pc) → claimed pc = true →
  start_claimed a t ws temporary pc s = Some s' → claims_inv s'.
Proof.
  intros Hinv Ht Hpc H.
  assert (∀ pc' s1, same_calls s s1 → claimed pc' = true →
    claims_inv (with_thread t (TStart ws temporary pc') s1)) as move.
  { intros pc' s1 Hs Hc. apply (claims_inv_move s s1 t _ _ Hinv Ht Hs).
    - left. cbn. by rewrite Hpc, Hc.
    - by destruct pc'. }
  destruct pc; cbn [start_claimed] in H; try done.
  - destruct (a_ok a); injection H as <-; apply move; try done. by destruct temporary.
  - destruct (a_ok a); injection H as <-; apply move; eauto with calls.
  - apply locked_some in H as [_ H]. destruct (register_start _ _ _ _) as [s1|] eqn:Er;
      injection H as <-; apply move; eauto with calls.
  - destruct (a_ok a); injection H as <-; by apply move.
  - apply locked_some in H as [_ H]. injection H as <-. apply move; [|done].
    eapply same_calls_trans; [apply same_releaseChild|apply same_drop].
  - destruct (a_ok a); [injection H as <-; by apply move|].
    destruct (a_take a); [|injection H as <-; by apply move].
    destruct (take_done t s) as [s1|] eqn:Et; [|done]. injection H as <-. apply move; [|done].
    by eapply same_take.
  - apply locked_some in H as [_ H]. injection H as <-. apply move; [done|by destruct (a_ok a)].
  - destruct (waited s t); [|done]. injection H as <-. by apply move.
  - apply locked_some in H as [_ H]. injection H as <-. apply move; eauto with calls.
  - apply locked_some in H as [_ H]. injection H as <-. by apply claims_inv_release.
Qed.

Lemma stop_step_inv a t ws pc s s' :
  claims_inv s → sv_threads s !! t = Some (TStop ws pc) →
  stop_step a t ws pc s = Some s' → claims_inv s'.
Proof.
  intros Hinv Ht H. assert (∀ c, startClaim s ws = Some c → claim_known s c) as Hknown
    by (intros c Hc; right; by exists ws).
  assert (∀ pc' s1, same_calls s s1 → (∀ c, waits (TStop ws pc') = Some c → claim_known s c) →
    claims_inv (with_thread t (TStop ws pc') s1)) as move.
  { intros pc' s1 Hs Hw. apply (claims_inv_move s s1 t _ _ Hinv Ht Hs); [by left|done]. }
  destruct pc; cbn [stop_step] in H; try done.
  - apply locked_some in H as [_ H]. destruct (_ || _); injection H as <-; by apply move.
  - apply locked_some in H as [_ H]. destruct (startClaim s ws) as [c|] eqn:Ec; injection H as <-;
      by apply move.
  - case_bool_decide; [|done]. injection H as <-. by apply move.
  - apply locked_some in H as [_ H]. destruct (lifecycleTransition s ws); injection H as <-; by apply move.
  - apply locked_some in H as [_ H]. destruct (child_at s ws) as [l|]; [|injection H as <-; by apply move].
    destruct (temp_child s l); [injection H as <-; by apply move|].
    destruct (alive s l); injection H as <-; by apply move.
  - destruct (_ || _); [|done]. injection H as <-. apply move; eauto with calls.
    by destruct (a_clean a).
  - destruct (take_done l s) as [s1|] eqn:Et; [|done]. injection H as <-. apply same_take in Et.
    apply move; [by destruct (a_clean a)|by destruct (a_clean a)].
Qed.

Lemma same_discover a t ws s s' :
  discover_old a t ws s = (s', false) → s' = s.
Proof. unfold discover_old. by destruct (a_ok a), (a_retry a), (a_seen a); intros [= <-]. Qed.

Lemma begin_inv a t ws s s' b :
  claims_inv s → sv_threads s !! t = Some (TRestart ws RBegin) →
  sv_claims s !! ws = None → sv_transitions s !! ws = None →
  begin_transition a t ws s = (s', b) →
  claims_inv (with_thread t (TRestart ws (if b then RFirstWrite else RDone Refused)) s').
Proof.
  intros Hinv Ht Hc Htr H.
  assert (∀ s1, same_calls s s1 → claims_inv (with_thread t (TRestart ws (RDone Refused)) s1)) as refused.
  { intros s1 Hs. apply (claims_inv_move s s1 t _ _ Hinv Ht Hs); [by left|done]. }
  assert (∀ s1 old retry, same_calls s s1 →
    claims_inv (with_thread t (TRestart ws RFirstWrite) (install_transition t ws old retry s1))) as installed.
  { intros s1 old retry Hs. pose proof (claims_inv_same _ _ Hinv Hs) as Hinv1.
    destruct Hs as (E1 & E2 & E3 & E4 & E5).
    apply (claims_inv_begin s1 t ws RBegin); rewrite ?E1, ?E3, ?E5; done. }
  assert (∀ s1, same_calls s s1 → discover_old a t ws s1 = (s', b) →
    claims_inv (with_thread t (TRestart ws (if b then RFirstWrite else RDone Refused)) s')) as discovered.
  { intros s1 Hs Hd. destruct b; [|apply same_discover in Hd as ->; by apply refused].
    unfold discover_old in Hd. destruct (a_ok a), (a_retry a), (a_seen a); simplify_eq; by apply installed. }
  unfold begin_transition in H. destruct (child_at s ws) as [l|]; [|by apply (discovered s)].
  destruct (temp_child s l); [simplify_eq; by apply refused|].
  destruct (alive s l); [simplify_eq; by apply installed|].
  by apply (discovered (with_children (delete ws) s)).
Qed.

Lemma restart_before_inv a t ws pc s s' :
  claims_inv s → sv_threads s !! t = Some (TRestart ws pc) → open pc = false →
  restart_before a t ws pc s = Some s' → claims_inv s'.
Proof.
  intros Hinv Ht Hpc H. assert (∀ c, startClaim s ws = Some c → claim_known s c) as Hknown
    by (intros c Hc; right; by exists ws).
  assert (∀ pc', open pc' = false → (∀ c, waits (TRestart ws pc') = Some c → claim_known s c) →
    claims_inv (with_thread t (TRestart ws pc') s)) as move.
  { intros pc' Ho Hw. apply (claims_inv_move s s t _ _ Hinv Ht (same_calls_refl s)); [|done].
    left. cbn. by rewrite Hpc, Ho. }
  destruct pc; cbn [restart_before] in H; try done.
  - apply locked_some in H as [_ H]. destruct (startClaim s ws) as [c|] eqn:Ec; injection H as <-;
      by apply move.
  - case_bool_decide; [|done]. injection H as <-. by apply move.
  - apply locked_some in H as [_ H]. injection H as <-. apply move; by destruct (from_option _ _ _).
  - injection H as <-. apply move; by destruct (a_ok a).
  - apply locked_some in H as [_ H]. destruct (startClaim s ws) as [c|] eqn:Ec.
    { injection H as <-. by apply move. }
    destruct (lifecycleTransition s ws) as [r|] eqn:Er.
    + case_bool_decide as Hf; [|injection H as <-; by apply move].
      destruct (begin_transition _ _ _ _) as [s1 b] eqn:Eb. injection H as <-.
      eapply begin_inv; [by eapply claims_inv_drop_failed| | | |done]; [done..|cbn].
      by rewrite lookup_delete_eq.
    + destruct (begin_transition _ _ _ _) as [s1 b] eqn:Eb. injection H as <-. by eapply begin_inv.
  - destruct (_ || _); [|done]. injection H as <-. by apply move.
Qed.

Lemma restart_open_inv a t ws pc s s' :
  claims_inv s → sv_threads s !! t = Some (TRestart ws pc) →
  restart_open a t ws pc s = Some s' → claims_inv s'.
Proof.
  intros Hinv Ht H.
  assert (∀ pc' s1, same_calls s s1 → open pc = true →
    waits (TRestart ws pc') = None → claims_inv (with_thread t (TRestart ws pc') s1)) as move.
  { intros pc' s1 Hs Ho Hw. apply (claims_inv_move s s1 t _ _ Hinv Ht Hs).
    - cbn. rewrite Ho. destruct (open pc'); [by left|right]. split; [done|]. by exists ws.
    - by rewrite Hw. }
  assert (∀ pc' state, open pc = true → waits (TRestart ws pc') = None →
    (open pc' = true → state ≠ FailedState) →
    claims_inv (with_thread t (TRestart ws pc') (set_transition_state t state s))) as set_.
  { intros pc' state Ho Hw Hs. apply (claims_inv_set s t ws pc); [done..|congruence|done|].
    intros Ho' x _. by apply Hs. }
  assert (∀ l s1, take_done l s = Some s1 → claims_inv s1) as taken.
  { intros l s1 Hs%same_take. by apply (claims_inv_same s). }
  destruct pc; cbn [restart_open] in H; try done.
  - apply locked_some in H as [_ H]. destruct (a_ok a); [injection H as <-; by apply move|].
    destruct (_ && _); injection H as <-; [by apply set_|by apply move].
  - destruct (a_ok a); [injection H as <-; by apply move|].
    destruct (_ || _); [injection H as <-; by apply move|].
    apply locked_some in H as [_ H]. injection H as <-. by apply set_.
  - apply locked_some in H as [_ H]. injection H as <-. apply set_; [done| |done].
    by destruct (a_ok a); [case_bool_decide|].
  - destruct (a_take a).
    { destruct (old_child s t) as [l|]; [|done]. by eapply taken. }
    destruct (a_ok a); [|injection H as <-; by apply move].
    destruct (negb _); [|done]. injection H as <-. by apply move.
  - apply locked_some in H as [_ H]. injection H as <-. apply set_; by destruct (a_ok a).
  - apply locked_some in H as [_ H]. injection H as <-. apply move; [|done..].
    destruct (old_child s t); [apply same_releaseChild|done].
  - destruct (negb _); [injection H as <-; by apply move|]. apply locked_some in H as [_ H].
    destruct (register_replacement _ _ _) as [s1|] eqn:Er; injection H as <-; apply move; try done.
    by eapply same_register_replacement.
  - destruct (a_ok a); injection H as <-; by apply move.
  - apply locked_some in H as [_ H]. injection H as <-. apply move; eauto with calls.
  - destruct (a_ok a); [injection H as <-; by apply move|].
    destruct (a_take a); [|injection H as <-; by apply move].
    destruct (take_done t s) as [s1|] eqn:Et; [|done]. injection H as <-. apply move; [|done..].
    by eapply same_take.
  - destruct (a_take a); [by eapply taken|].
    destruct (a_ok a); [|injection H as <-; by apply move].
    destruct (negb _); [|done]. injection H as <-. by apply move.
  - apply locked_some in H as [_ H]. injection H as <-. apply move; eauto with calls.
  - apply locked_some in H as [_ H]. injection H as <-. apply set_; by destruct (a_ok a).
  - apply locked_some in H as [_ H]. injection H as <-. by apply set_.
  - apply locked_some in H as [_ H]. injection H as <-. by apply claims_inv_complete.
Qed.

Lemma observe_same a l s s' : observe a l s = Some s' → same_calls s s'.
Proof.
  unfold observe. destruct (sv_heap s !! l) as [c|]; [|done]. cbn [mbind option_bind].
  destruct (ch_observer c); try done; try by intros [= <-].
  destruct (_ && _); [|done]. intros [= <-]. case_bool_decide; [|done].
  apply (same_calls_trans _ (cleanupTemporaryChildLocked (a_clean a) l s)); [apply same_cleanup|done].
Qed.

Lemma perform_claims e s s' : claims_inv s → perform e s = Some s' → claims_inv s'.
Proof.
  intros Hinv H. destruct e as [t ws q|a t|a l]; cbn [perform] in H.
  - case_bool_decide as Ht; [|done]. injection H as <-. by apply claims_inv_call.
  - unfold advance in H. destruct (sv_threads s !! t) as [th|] eqn:Ht; [|done].
    cbn [mbind option_bind] in H. destruct th as [ws temporary pc|ws pc|ws pc].
    + destruct (claimed pc) eqn:Ec; [by eapply start_claimed_inv|by eapply start_before_inv].
    + by eapply stop_step_inv.
    + destruct pc; first [exact (restart_before_inv a t ws _ s s' Hinv Ht eq_refl H)
                          |exact (restart_open_inv a t ws _ s s' Hinv Ht H)].
  - eapply claims_inv_same; [done|by eapply observe_same].
Qed.

Lemma reachable_claims s : reachable s → claims_inv s.
Proof.
  apply (rtc_invariant step claims_inv); [|apply claims_inv_idle].
  intros s1 s2 Hinv [e He]. by eapply perform_claims.
Qed.

(** A call that is between the installation of its claim or transition and their
    release: from these places weavers of the workspace are launched. *)
Definition launches (ws : string) (th : thread) : Prop :=
  role th = Some (inl ws) ∨ role th = Some (inr ws).

Lemma one_launch s ws t1 t2 th1 th2 :
  claims_inv s → sv_threads s !! t1 = Some th1 → sv_threads s !! t2 = Some th2 →
  launches ws th1 → launches ws th2 → t1 = t2.
Proof.
  intros [H1 H2 H3 H4] Ht1 Ht2 L1 L2.
  assert (∀ t th, sv_threads s !! t = Some th → role th = Some (inl ws) → sv_claims s !! ws = Some t) as Hc
    by (intros t th Ht Hr; apply H1; by eexists).
  assert (∀ t th, sv_threads s !! t = Some th → role th = Some (inr ws) → sv_transitions s !! ws = Some t) as Htr
    by (intros t th Ht Hr; by destruct (H2 _ _ _ Ht Hr)).
  destruct L1 as [L1|L1], L2 as [L2|L2].
  - pose proof (Hc _ _ Ht1 L1). pose proof (Hc _ _ Ht2 L2). congruence.
  - pose proof (Hc _ _ Ht1 L1). pose proof (Htr _ _ Ht2 L2). destruct (H3 ws); congruence.
  - pose proof (Htr _ _ Ht1 L1). pose proof (Hc _ _ Ht2 L2). destruct (H3 ws); congruence.
  - pose proof (Htr _ _ Ht1 L1). pose proof (Htr _ _ Ht2 L2). congruence.
Qed.


(** A start that waits for a second one, which launches a weaver. *)
Definition waiting_run : list event :=
  Call 1 "w" (ReqStart false) :: repeat (Advance well 1) 8
  ++ Call 2 "w" (ReqStart false) :: repeat (Advance well 2) 1.

