(* ===== verification/Supervision.v ===== *)
(** The children of the supervisor (Supervisor.v): while every stop finds claims and
    transitions as it left them, a weaver that runs is the registered child of its
    workspace, has its directory, and a stop that waits for it returns; and what
    happens when a stop does not. *)

From S2P Require Export Supervisor.

(** ** The invariant *)

Definition proc_of (s : server) (l : nat) : option process := ch_proc <$> sv_heap s !! l.

(** The child of [t], if it has one, is of this workspace. *)
Definition own (s : server) (ws : string) (t : nat) : Prop :=
  ∀ c, sv_heap s !! t = Some c → ch_ws c = ws.

(** And it is not registered before it was started. *)
Definition settled (s : server) (ws : string) (t : nat) : Prop :=
  own s ws t ∧ ∀ ws', child_at s ws' = Some t → proc_of s t ≠ Some NoProcess.

(** A registered child that its call is about to start. *)
Definition about_to_spawn (s : server) (ws : string) (temporary : bool) (t : nat) : Prop :=
  child_at s ws = Some t ∧ (temporary = true → t ∈ sv_dirs s) ∧
  ∃ c, sv_heap s !! t = Some c ∧ ch_proc c = NoProcess ∧ ch_temp c = temporary ∧ ch_ws c = ws.

(** The child [l] has been started, for this workspace; it is gone if [gone]. *)
Definition started (s : server) (ws : string) (l : nat) (gone : bool) : Prop :=
  ∃ c, sv_heap s !! l = Some c ∧ ch_ws c = ws ∧ ch_proc c ≠ NoProcess ∧ (gone = true → ch_proc c = Reaped).

(** Nobody launches in this workspace. *)
Definition idle (s : server) (ws : string) : Prop :=
  sv_claims s !! ws = None ∧ sv_transitions s !! ws = None.

(** A stop waits for [l] with the mutex held; nobody else takes the value in [done]
    if it waits for that. *)
Definition holding (s : server) (ws : string) (t l : nat) (exit : bool) : Prop :=
  sv_mu s = Some t ∧ child_at s ws = Some l ∧ idle s ws ∧ started s ws l false ∧
  (exit = true → done_of s l ≠ Taken).

Definition old_ok (s : server) (ws : string) (t : nat) (gone : bool) : Prop :=
  sv_heap s !! t = None ∧ ∀ l, old_child s t = Some l → started s ws l gone.

(** What the places of the calls promise. *)
Definition start_ok (s : server) (t : nat) (ws : string) (temporary : bool) (pc : start_pc) : Prop :=
  match pc with
  | SPrepared | SRegister => sv_heap s !! t = None ∧ (temporary = true → t ∈ sv_dirs s)
  | SSpawn => about_to_spawn s ws temporary t
  | SLaunchFailed => own s ws t ∧ proc_of s t ≠ Some Running
  | SDiscard => settled s ws t ∧ proc_of s t ≠ Some Running
  | SReady | SPublish | SStop | SRelease _ | SDone _ => settled s ws t
  | _ => sv_heap s !! t = None
  end.

Definition stop_ok (s : server) (t : nat) (ws : string) (pc : stop_pc) : Prop :=
  sv_heap s !! t = None ∧
  match pc with
  | PWaitTemp l => holding s ws t l false
  | PWaitExit l => holding s ws t l true
  | _ => True
  end.

Definition restart_ok (s : server) (t : nat) (ws : string) (pc : restart_pc) : Prop :=
  match pc with
  | RFirstWrite | RProbe | RAdmit | RStopOld => old_ok s ws t false
  | RStopped | RReleaseOld => old_ok s ws t true
  | RSpawn => about_to_spawn s ws false t
  | RLaunchFailed => own s ws t ∧ proc_of s t ≠ Some Running
  | RReleaseNew => settled s ws t ∧ proc_of s t ≠ Some Running
  | RReady | RStopNew | RCommit | RFailing | RComplete _ | RDone _ => settled s ws t
  | _ => sv_heap s !! t = None
  end.

Definition thread_ok (s : server) (t : nat) (th : thread) : Prop :=
  match th with
  | TStart ws temporary pc => start_ok s t ws temporary pc
  | TStop ws pc => stop_ok s t ws pc
  | TRestart ws pc => restart_ok s t ws pc
  end.

(** How far a child is, by its goroutine. *)
Definition stage_ok (c : child) : Prop :=
  match ch_observer c with
  | OIdle => ch_proc c = NoProcess ∧ ch_done c = Empty ∧ ch_waitDone c = false
  | OWait => ch_proc c = Running ∧ ch_done c = Empty ∧ ch_waitDone c = false
  | OSend => ch_proc c = Reaped ∧ ch_done c = Empty ∧ ch_waitDone c = false
  | OClose => ch_proc c = Reaped ∧ ch_done c ≠ Empty ∧ ch_waitDone c = false
  | OStartDone | OEnd => ch_proc c = Reaped ∧ ch_done c ≠ Empty ∧ ch_waitDone c = true
  end.

Record heap_ok (s : server) : Prop := {
  ho_child : ∀ ws l, child_at s ws = Some l → ∃ c, sv_heap s !! l = Some c ∧ ch_ws c = ws;
  ho_running : ∀ l c, sv_heap s !! l = Some c → ch_proc c = Running →
    child_at s (ch_ws c) = Some l ∧ (ch_temp c = true → l ∈ sv_dirs s);
  ho_stage : ∀ l c, sv_heap s !! l = Some c → stage_ok c;
}.

(** The invariant but for the place of [t]. *)
Record but (t : nat) (s : server) : Prop := {
  bu_heap : heap_ok s;
  bu_others : ∀ t' th, t' ≠ t → sv_threads s !! t' = Some th → thread_ok s t' th;
  bu_unborn : ∀ t', sv_threads s !! t' = None → sv_heap s !! t' = None;
}.

Record registry_inv (s : server) : Prop := {
  ri_heap : heap_ok s;
  ri_threads : ∀ t th, sv_threads s !! t = Some th → thread_ok s t th;
  ri_unborn : ∀ t, sv_threads s !! t = None → sv_heap s !! t = None;
}.

Lemma registry_but s t : registry_inv s → but t s.
Proof. intros [H1 H2 H3]. constructor; [done| |done]. intros t' th _. apply H2. Qed.

(** ** Changes that keep a promise *)

Definition spawns (ws : string) (th : thread) : Prop :=
  (∃ temporary, th = TStart ws temporary SSpawn) ∨ th = TRestart ws RSpawn.

Definition holds (ws : string) (l : nat) (exit : bool) (th : thread) : Prop :=
  th = TStop ws (if exit then PWaitExit l else PWaitTemp l).

Record keeps (s s' : server) (t : nat) (th : thread) : Prop := {
  k_none : sv_heap s !! t = None → sv_heap s' !! t = None;
  k_dir : sv_heap s !! t = None → t ∈ sv_dirs s → t ∈ sv_dirs s';
  k_own : ∀ ws, own s ws t → own s' ws t;
  k_settled : ∀ ws, settled s ws t → settled s' ws t;
  k_stopped : proc_of s t ≠ Some Running → proc_of s' t ≠ Some Running;
  k_spawn : ∀ ws b, spawns ws th → about_to_spawn s ws b t → about_to_spawn s' ws b t;
  k_old : ∀ ws g, old_ok s ws t g → old_ok s' ws t g;
  k_hold : ∀ ws l b, holds ws l b th → holding s ws t l b → holding s' ws t l b;
}.

Lemma thread_ok_keeps s s' t th : keeps s s' t th → thread_ok s t th → thread_ok s' t th.
Proof.
  intros [K1 K2 K3 K4 K5 K6 K7 K8]. destruct th as [ws b pc|ws pc|ws pc]; destruct pc; cbn; unfold stop_ok.
  all: first [ exact K1 | apply K4 | apply K7
             | intros [H1 H2]; split; [apply K1, H1|intros Hb; apply K2; [exact H1|exact (H2 Hb)]]
             | intros [H1 H2]; split; [apply K3, H1|exact (K5 H2)]
             | intros [H1 H2]; split; [apply K4, H1|exact (K5 H2)]
             | intros [H1 H2]; split; [apply K1, H1|exact I]
             | apply K6; left; by eexists | apply K6; by right
             | intros [H1 H2]; split; [apply K1, H1|]; by apply (K8 _ _ false)
             | intros [H1 H2]; split; [apply K1, H1|]; by apply (K8 _ _ true) ].
Qed.

(** The state but for the calls: claims, closed claims, transitions and threads. *)
Lemma keeps_same s s' t th :
  sv_children s' = sv_children s → sv_heap s' = sv_heap s → sv_trans s' !! t = sv_trans s !! t →
  sv_mu s' = sv_mu s → sv_dirs s' = sv_dirs s →
  (∀ ws l b, holds ws l b th → idle s ws → idle s' ws) → keeps s s' t th.
Proof.
  intros E1 E2 E3 E4 E5 Hi. constructor; unfold settled, own, about_to_spawn, old_ok, old_child, holding,
    started, done_of, proc_of, child_at; rewrite ?E1, ?E2, ?E3, ?E4, ?E5; try done.
  intros ws l b Hh (? & ? & ? & ? & ?). split_and!; try done. by eapply Hi.
Qed.

Lemma heap_ok_same s s' :
  sv_children s' = sv_children s → sv_heap s' = sv_heap s → sv_dirs s' = sv_dirs s →
  heap_ok s → heap_ok s'.
Proof.
  intros E1 E2 E3 [H1 H2 H3]. constructor; unfold child_at in *; rewrite ?E1, ?E2, ?E3; done.
Qed.

(** The thread takes its new place. *)
Lemma but_thread s t th : but t s → thread_ok s t th → registry_inv (with_thread t th s).
Proof.
  intros [H1 H2 H3] Ht.
  assert (∀ t' th', keeps s (with_thread t th s) t' th') as Hk by (intros t' th'; by apply keeps_same).
  constructor.
  - by apply (heap_ok_same s).
  - intros t' th'. cbn. destruct (decide (t' = t)) as [->|Hne].
    + rewrite lookup_insert_eq. intros [= <-]. by eapply thread_ok_keeps.
    + rewrite lookup_insert_ne by done. intros Hl. eapply thread_ok_keeps; [done|]. by apply H2.
  - intros t'. cbn. destruct (decide (t' = t)) as [->|Hne]; [by rewrite lookup_insert_eq|].
    rewrite lookup_insert_ne by done. apply H3.
Qed.

(** A change of claims, or of the transition of [t] alone, with the mutex free. *)
Lemma but_calls s s' t :
  but t s → sv_mu s = None ∨ (sv_claims s' = sv_claims s ∧ sv_transitions s' = sv_transitions s) →
  sv_children s' = sv_children s → sv_heap s' = sv_heap s →
  sv_threads s' = sv_threads s → sv_mu s' = sv_mu s → sv_dirs s' = sv_dirs s →
  (∀ t', t' ≠ t → sv_trans s' !! t' = sv_trans s !! t') → but t s'.
Proof.
  intros [H1 H2 H3] Hmu E1 E2 E3 E4 E5 E6. constructor.
  - by apply (heap_ok_same s).
  - intros t' th Hne. rewrite E3. intros Hl. specialize (H2 t' th Hne Hl).
    apply (thread_ok_keeps s); [|done]. apply keeps_same; try done; [by apply E6|].
    intros ws l b Hh. destruct Hmu as [Hmu|[E7 E8]]; [|unfold idle; by rewrite E7, E8].
    rewrite Hh in H2. destruct H2 as [_ H2]. destruct b; destruct H2 as [H2 _]; congruence.
  - intros t'. rewrite E3, E2. apply H3.
Qed.

(** ** Lemmas: children *)

Definition quiet (t : nat) (ws : string) (s : server) : Prop :=
  ∀ t' th, t' ≠ t → sv_threads s !! t' = Some th → ¬ launches ws th.

Definition free (t : nat) (s : server) : Prop := sv_mu s = None ∨ sv_mu s = Some t.

Lemma spawns_launches ws th : spawns ws th → launches ws th.
Proof. intros [[b ->]| ->]; [by left|by right]. Qed.

Lemma not_holding t s t' th ws l b :
  but t s → free t s → t' ≠ t → sv_threads s !! t' = Some th → holds ws l b th → False.
Proof.
  intros [_ Ho _] Hf Hne Ht ->. specialize (Ho _ _ Hne Ht) as [_ Ho].
  destruct b, Ho as [Hmu _], Hf; congruence.
Qed.

Lemma child_at_insert ws ws' l s :
  child_at (with_children (insert ws l) s) ws' = if bool_decide (ws' = ws) then Some l else child_at s ws'.
Proof.
  unfold child_at. cbn. case_bool_decide as H; [subst; by rewrite lookup_insert_eq|].
  by rewrite lookup_insert_ne.
Qed.

Lemma child_at_delete ws ws' s :
  child_at (with_children (delete ws) s) ws' = if bool_decide (ws' = ws) then None else child_at s ws'.
Proof.
  unfold child_at. cbn. case_bool_decide as H; [subst; by rewrite lookup_delete_eq|].
  by rewrite lookup_delete_ne.
Qed.

Lemma but_delete t s ws :
  but t s → free t s →
  (∀ l, child_at s ws = Some l → proc_of s l ≠ Some Running ∧
     (proc_of s l = Some NoProcess → l = t ∨ quiet t ws s)) →
  but t (with_children (delete ws) s).
Proof.
  intros Hb Hfree Hl. pose proof Hb as [[H1 H2 H3] Ho Hu]. constructor; [constructor| |done].
  - intros ws' l. rewrite child_at_delete. case_bool_decide; [done|]. apply H1.
  - intros l c Hc Hr. rewrite child_at_delete. destruct (H2 _ _ Hc Hr) as [Hat Hd].
    case_bool_decide as Hw; [|done]. exfalso. rewrite Hw in Hat.
    destruct (Hl _ Hat) as [Hnr _]. apply Hnr. unfold proc_of. cbn in Hc. rewrite Hc. by rewrite <-Hr.
  - done.
  - intros t' th Hne Ht. apply (thread_ok_keeps s); [|by apply Ho]. constructor; try done.
    + intros ws' [Hown Hs]. split; [done|]. intros ws2. rewrite child_at_delete.
      case_bool_decide; [done|]. apply Hs.
    + intros ws' b Hsp (Hat & Hd & c & Hc & Hp & Hrest). split; [|split; [done|by exists c]].
      rewrite child_at_delete. case_bool_decide as Hw; [|done]. exfalso. subst ws'.
      destruct (Hl _ Hat) as [_ Hq].
      destruct Hq as [Hq|Hq]; [unfold proc_of; rewrite Hc; by rewrite <-Hp|done|].
      apply (Hq t' th Hne Ht). by apply spawns_launches.
    + intros ws' l b Hh. exfalso. by eapply not_holding.
Qed.

Lemma but_delete_gone t s ws :
  but t s → free t s → (∀ l, child_at s ws = Some l → proc_of s l = Some Reaped) →
  but t (with_children (delete ws) s).
Proof.
  intros Hb Hf Hl. apply but_delete; [done..|]. intros l Hat. rewrite (Hl l Hat). by split.
Qed.

Lemma started_proc s ws l g : started s ws l g → ∃ p, proc_of s l = Some p ∧ p ≠ NoProcess.
Proof. intros (c & Hc & _ & Hp & _). exists (ch_proc c). unfold proc_of. by rewrite Hc. Qed.

Lemma but_register t s ws temporary th :
  but t s → sv_mu s = None → sv_threads s !! t = Some th → sv_heap s !! t = None → quiet t ws s →
  (∀ l, child_at s ws = Some l → proc_of s l ≠ Some Running) →
  but t (register_child ws temporary t s).
Proof.
  intros Hb Hmu Ht Hnone Hq Hl. pose proof Hb as [[H1 H2 H3] Ho Hu]. unfold register_child.
  set (s1 := with_children _ _).
  assert (∀ l, l ≠ t → sv_heap s1 !! l = sv_heap s !! l) as Hne_heap
    by (intros l Hne; cbn; by rewrite lookup_insert_ne).
  assert (∀ ws' l g, started s ws' l g → started s1 ws' l g) as Hst.
  { intros ws' l g (c & Hc & Hrest). exists c. rewrite Hne_heap; [done|]. congruence. }
  constructor; [constructor| |].
  - intros ws' l. unfold s1. rewrite child_at_insert. case_bool_decide as Hw.
    + intros [= <-]. cbn. rewrite lookup_insert_eq. subst ws'. by eexists.
    + intros Hat. destruct (H1 ws' l) as (c & Hc & Hcw); [done|]. exists c.
      cbn. rewrite lookup_insert_ne; [done|]. congruence.
  - intros l c. cbn. destruct (decide (l = t)) as [->|Hne];
      [rewrite lookup_insert_eq; by intros [= <-]|].
    rewrite lookup_insert_ne by done. intros Hc Hr. destruct (H2 _ _ Hc Hr) as [Hat Hd].
    split; [|done]. unfold s1. rewrite child_at_insert. case_bool_decide as Hw; [|done]. exfalso.
    rewrite Hw in Hat. apply (Hl l Hat). unfold proc_of. rewrite Hc. by rewrite <-Hr.
  - intros l c. cbn. destruct (decide (l = t)) as [->|Hne];
      [rewrite lookup_insert_eq; by intros [= <-]|]. rewrite lookup_insert_ne by done. apply H3.
  - intros t' th' Hne Ht'. apply (thread_ok_keeps s); [|by apply Ho].
    unfold s1 in *. constructor; unfold own, settled, proc_of, own in *; rewrite ?Hne_heap by done; try done.
    + intros ws' [Hown Hs]. split; [exact Hown|]. intros ws2. rewrite child_at_insert.
      case_bool_decide; [congruence|]. apply Hs.
    + intros ws' b Hsp (Hat & Hd & Hc). unfold about_to_spawn. rewrite Hne_heap by done. split; [|done].
      rewrite child_at_insert. case_bool_decide as Hw; [|done]. exfalso. subst ws'.
      apply (Hq t' th' Hne Ht'). by apply spawns_launches.
    + intros ws' g [Hn Hold]. split; [by rewrite Hne_heap|]. intros l Hl'. by apply Hst, Hold.
    + intros ws' l b Hh. exfalso. by eapply (not_holding t s t'); [|left| | |].
  - intros t' Ht'. cbn in *. destruct (decide (t' = t)) as [->|Hne]; [congruence|].
    rewrite lookup_insert_ne by done. by apply Hu.
Qed.

Lemma proc_on_child l f s l' :
  proc_of (on_child l f s) l' = if bool_decide (l' = l) then ch_proc ∘ f <$> sv_heap s !! l else proc_of s l'.
Proof.
  unfold proc_of, on_child. cbn. case_bool_decide as H; [subst|by rewrite lookup_alter_ne].
  rewrite lookup_alter_eq. by destruct (sv_heap s !! l).
Qed.

Lemma unborn_on_child s l f t : sv_heap s !! t = None → sv_heap (on_child l f s) !! t = None.
Proof.
  intros H. cbn. destruct (decide (t = l)) as [->|Hne]; [by rewrite lookup_alter_eq, H|].
  by rewrite lookup_alter_ne.
Qed.

(** A change to a child that is no start of it. *)
Definition tame (f : child → child) (c : child) : Prop :=
  ch_ws (f c) = ch_ws c ∧ ch_temp (f c) = ch_temp c ∧ stage_ok (f c) ∧
  (ch_proc (f c) = ch_proc c ∨ ch_proc c ≠ NoProcess ∧ ch_proc (f c) = Reaped).

Lemma heap_ok_on_child s l f c :
  sv_heap s !! l = Some c → tame f c → heap_ok s → heap_ok (on_child l f s).
Proof.
  intros Hc (Hw & Htmp & Hst & Hp) [H1 H2 H3]. constructor.
  - intros ws l' Hat. destruct (H1 ws l' Hat) as (c' & Hc' & Hcw). cbn.
    destruct (decide (l' = l)) as [->|Hne].
    + rewrite lookup_alter_eq, Hc. exists (f c). split; [done|congruence].
    + exists c'. by rewrite lookup_alter_ne.
  - intros l' c'. cbn. destruct (decide (l' = l)) as [->|Hne].
    + rewrite lookup_alter_eq, Hc. intros [= <-] Hr. destruct Hp as [Hp|[_ Hp]]; [|congruence].
      rewrite Hw, Htmp. apply H2; [done|congruence].
    + rewrite lookup_alter_ne by done. apply H2.
  - intros l' c'. cbn. destruct (decide (l' = l)) as [->|Hne].
    + rewrite lookup_alter_eq, Hc. by intros [= <-].
    + rewrite lookup_alter_ne by done. apply H3.
Qed.

(** A change of [l] keeps every promise, if no stop that waits for [l] loses the
    value in [done]. *)
Lemma keeps_on_child s l f c t th :
  sv_heap s !! l = Some c → tame f c →
  (ch_done (f c) = Taken → ch_done c = Taken ∨ ∀ ws, ¬ holds ws l true th) →
  keeps s (on_child l f s) t th.
Proof.
  intros Hc (Hw & Htmp & _ & Hp) Hd.
  assert (∀ l', l' ≠ l → sv_heap (on_child l f s) !! l' = sv_heap s !! l') as Hne_heap
    by (intros l' Hne; cbn; by rewrite lookup_alter_ne).
  assert (sv_heap (on_child l f s) !! l = Some (f c)) as Hl by (cbn; by rewrite lookup_alter_eq, Hc).
  assert (∀ ws, own s ws t → own (on_child l f s) ws t) as Hown.
  { intros ws Ho. unfold own. destruct (decide (t = l)) as [->|Hne]; [|by rewrite Hne_heap].
    rewrite Hl. intros ? [= <-]. rewrite Hw. by apply Ho. }
  assert (∀ ws l' g, started s ws l' g → started (on_child l f s) ws l' g) as Hst.
  { intros ws l' g (c' & Hc' & Hcw & Hnp & Hg). unfold started. destruct (decide (l' = l)) as [->|Hne].
    - assert (c' = c) as -> by congruence. exists (f c). rewrite Hl. split_and!; [done|congruence| |].
      + destruct Hp as [->|[_ ->]]; done.
      + intros g'. destruct Hp as [->|[_ ->]]; [by apply Hg|done].
    - exists c'. by rewrite Hne_heap. }
  assert (∀ p, proc_of s t ≠ Some p → p = NoProcess ∨ p = Running →
    proc_of (on_child l f s) t ≠ Some p) as Hproc.
  { intros p. rewrite proc_on_child. case_bool_decide; [subst|done]. unfold proc_of. rewrite Hc. cbn.
    destruct Hp as [->|[_ ->]]; [done|]. intros _ [->| ->]; done. }
  constructor; try done.
  - apply unborn_on_child.
  - intros ws [Ho Hs]. split; [by apply Hown|]. intros ws' Hat. apply Hproc; [by apply (Hs ws')|by left].
  - intros Hs. apply Hproc; [done|by right].
  - intros ws b _ (Hat & Hdir & c' & Hc' & Hnp & Htp & Hws). split; [done|]. split; [done|].
    destruct (decide (t = l)) as [->|Hne].
    + assert (c' = c) as -> by congruence. exists (f c). split; [done|].
      destruct Hp as [->|[Hp _]]; [|done]. split_and!; [done|congruence|congruence].
    + exists c'. by rewrite Hne_heap.
  - intros ws g [Hn Ho]. split; [by apply unborn_on_child|]. intros l' Hl'. by apply Hst, Ho.
  - intros ws l' b Hh (Hmu & Hat & Hi & Hs & Ht). split_and!; try done; [by apply Hst|].
    intros Hb. specialize (Ht Hb). unfold done_of in *. destruct (decide (l' = l)) as [->|Hne].
    + rewrite Hl. rewrite Hc in Ht. intros Htk. destruct (Hd Htk) as [|Hno]; [done|].
      subst b. by apply (Hno ws).
    + by rewrite Hne_heap.
Qed.

Lemma but_on_child s l f c t :
  sv_heap s !! l = Some c → tame f c → but t s →
  (∀ t' th, t' ≠ t → sv_threads s !! t' = Some th →
     ch_done (f c) = Taken → ch_done c = Taken ∨ ∀ ws, ¬ holds ws l true th) →
  but t (on_child l f s).
Proof.
  intros Hc Hf [H1 H2 H3] Hd. constructor.
  - by eapply heap_ok_on_child.
  - intros t' th Hne Ht. apply (thread_ok_keeps s); [|by apply H2]. eapply keeps_on_child; [done..|].
    by apply (Hd t' th).
  - intros t' Ht. by apply unborn_on_child, H3.
Qed.

(** The start of a child. *)
Lemma but_spawn s t ws temporary :
  but t s → about_to_spawn s ws temporary t → but t (on_child t (set_proc Running OWait) s).
Proof.
  intros [[H1 H2 H3] Ho Hu] (Hat & Hd & c & Hc & Hnp & Htp & Hws).
  assert (∀ l, l ≠ t → sv_heap (on_child t (set_proc Running OWait) s) !! l = sv_heap s !! l) as Hne_heap
    by (intros l Hne; cbn; by rewrite lookup_alter_ne).
  assert (∀ ws' l g, started s ws' l g → started (on_child t (set_proc Running OWait) s) ws' l g) as Hst.
  { intros ws' l g (c' & Hc' & Hrest). exists c'. rewrite Hne_heap; [done|]. intros ->. assert (c' = c) as -> by congruence. by destruct Hrest as (_ & ? & _). }
  constructor; [constructor| |].
  - intros ws' l Hl. destruct (H1 ws' l Hl) as (c' & Hc' & Hcw). cbn.
    destruct (decide (l = t)) as [->|Hne].
    + rewrite lookup_alter_eq, Hc. assert (c' = c) as -> by congruence. by eexists.
    + exists c'. by rewrite lookup_alter_ne.
  - intros l c'. cbn. destruct (decide (l = t)) as [->|Hne].
    + rewrite lookup_alter_eq, Hc. intros [= <-] _. cbn. rewrite Hws, Htp. split; [exact Hat|exact Hd].
    + rewrite lookup_alter_ne by done. apply H2.
  - intros l c'. cbn. destruct (decide (l = t)) as [->|Hne].
    + rewrite lookup_alter_eq, Hc. intros [= <-]. specialize (H3 t c Hc). unfold stage_ok in *. cbn.
      by destruct (ch_observer c), H3 as (? & ? & ?); try congruence; split_and!.
    + rewrite lookup_alter_ne by done. apply H3.
  - intros t' th Hne Ht. apply (thread_ok_keeps s); [|by apply Ho].
    constructor; unfold own, settled, proc_of, own in *; rewrite ?Hne_heap by done; try done.
    + intros ws' b _ (? & ? & ?). unfold about_to_spawn. by rewrite Hne_heap.
    + intros ws' g [Hn Hold]. split; [by rewrite Hne_heap|]. intros l Hl'. by apply Hst, Hold.
    + intros ws' l b Hh (Hmu & Hat' & Hi & Hs & Htk). split_and!; try done; [by apply Hst|].
      unfold done_of in *. rewrite Hne_heap; [done|]. intros ->. destruct Hs as (c' & Hc' & _ & Hn & _).
      assert (c' = c) as -> by congruence. done.
  - intros t' Ht. by apply unborn_on_child, Hu.
Qed.

Lemma but_drop_dir t s l :
  but t s → proc_of s l ≠ Some Running → (l = t ∨ proc_of s l = Some Reaped) →
  but t (with_dirs (λ d, d ∖ {[l]}) s).
Proof.
  intros [[H1 H2 H3] Ho Hu] Hnr Hl. constructor; [constructor| |done]; try done.
  - intros l' c Hc Hr. destruct (H2 l' c Hc Hr) as [Hat Hd]. split; [done|]. intros Ht. cbn.
    apply elem_of_difference. split; [by apply Hd|]. intros ->%elem_of_singleton. apply Hnr.
    unfold proc_of. cbn in Hc. rewrite Hc. by rewrite <-Hr.
  - intros t' th Hne Ht. apply (thread_ok_keeps s); [|by apply Ho]. constructor; try done.
    + intros Hn Hd. cbn. apply elem_of_difference. split; [done|]. intros ->%elem_of_singleton.
      destruct Hl as [->|Hl]; [done|]. unfold proc_of in Hl. by rewrite Hn in Hl.
    + intros ws b _ (Hat & Hd & c & Hc & Hnp & Hrest). split; [done|]. split; [|by exists c].
      intros Hb. cbn. apply elem_of_difference. split; [by apply Hd|]. intros ->%elem_of_singleton.
      destruct Hl as [->|Hl]; [done|]. unfold proc_of in Hl. rewrite Hc in Hl. cbn in Hl. congruence.
Qed.

Lemma but_add_dir t s : but t s → but t (with_dirs (union {[t]}) s).
Proof.
  intros [[H1 H2 H3] Ho Hu]. constructor; [constructor| |done]; try done.
  - intros l c Hc Hr. destruct (H2 l c Hc Hr) as [Hat Hd]. split; [done|]. cbn. intros Ht.
    apply elem_of_union_r. by apply Hd.
  - intros t' th Hne Ht. apply (thread_ok_keeps s); [|by apply Ho]. constructor; try done.
    + intros _ Hd. cbn. set_solver.
    + intros ws b _ (Hat & Hd & Hc). split; [done|]. split; [|done]. cbn. set_solver.
Qed.

Lemma but_mu t s m : but t s → free t s → but t (with_mu m s).
Proof.
  intros Hb Hf. pose proof Hb as [H1 Ho Hu]. constructor; [by apply (heap_ok_same s)| |done].
  intros t' th Hne Ht. apply (thread_ok_keeps s); [|by apply Ho]. constructor; try done.
  intros ws l b Hh. exfalso. by eapply not_holding.
Qed.

Lemma waited_reaped s l : heap_ok s → waited s l = true → proc_of s l = Some Reaped.
Proof.
  intros H. unfold waited, proc_of. destruct (sv_heap s !! l) as [c|] eqn:E; [|done]. intros Hw. cbn.
  pose proof (ho_stage _ H l c E) as Hs. unfold stage_ok in Hs.
  destruct (ch_observer c), Hs as (Hp & _ & Hw'); congruence.
Qed.

Lemma alive_running s l : alive s l = bool_decide (proc_of s l = Some Running).
Proof.
  unfold alive, proc_of. destruct (sv_heap s !! l) as [c|]; [|done]. cbn.
  apply bool_decide_ext. split; congruence.
Qed.

Lemma not_alive s l : alive s l = false → proc_of s l ≠ Some Running.
Proof. rewrite alive_running. by intros ?%bool_decide_eq_false. Qed.

Lemma unborn_settled s ws t : heap_ok s → sv_heap s !! t = None → settled s ws t.
Proof.
  intros H Hn. split; [intros c Hc; congruence|]. intros ws' Hat.
  destruct (ho_child _ H ws' t Hat) as (c & Hc & _). congruence.
Qed.

Lemma but_cleanup t s ws l ok :
  but t s → free t s → child_at s ws = Some l → proc_of s l = Some Reaped →
  but t (cleanupTemporaryChildLocked ok l s).
Proof.
  intros Hb Hf Hat Hr. unfold cleanupTemporaryChildLocked.
  destruct (ho_child _ (bu_heap _ _ Hb) ws l Hat) as (c & Hc & <-). rewrite Hc. destruct ok; [|done].
  apply but_delete_gone.
  - apply but_drop_dir; [done|by rewrite Hr|by right].
  - done.
  - intros l' Hat'. assert (l' = l) as -> by (unfold child_at in *; cbn in Hat'; congruence). done.
Qed.

Lemma cleanup_heap ok l s :
  sv_heap (cleanupTemporaryChildLocked ok l s) = sv_heap s ∧ sv_mu (cleanupTemporaryChildLocked ok l s) = sv_mu s.
Proof. unfold cleanupTemporaryChildLocked. by destruct (sv_heap s !! l), ok. Qed.

Lemma but_mode t s ws temporary ok s' b :
  but t s → free t s → checkStartModeLocked ws temporary ok s = (s', b) →
  but t s' ∧ sv_heap s' = sv_heap s ∧ sv_mu s' = sv_mu s.
Proof.
  intros Hb Hf H. unfold checkStartModeLocked in H.
  destruct (child_at s ws) as [l|] eqn:Hat; [|by simplify_eq].
  destruct (sv_claims s !! ws); [by simplify_eq|]. destruct (_ && _); [by simplify_eq|].
  destruct (_ && _) eqn:Ew; [|by simplify_eq]. apply andb_true_iff in Ew as [_ Ew]. injection H as <- <-.
  split; [|apply cleanup_heap]. eapply but_cleanup; [done..|]. by apply waited_reaped; [apply Hb|].
Qed.

Lemma but_release t s ws l :
  but t s → free t s → proc_of s l ≠ Some Running →
  (proc_of s l = Some NoProcess → l = t ∨ quiet t ws s) → but t (releaseChild ws l s).
Proof.
  intros Hb Hf Hr Hn. unfold releaseChild. case_bool_decide as Hat; [|done].
  apply but_delete; [done..|]. intros l' Hat'. assert (l' = l) as -> by congruence. done.
Qed.

(** A call whose own child did not start, or is gone, is settled when it is released. *)
Lemma release_settled s ws t : heap_ok s → own s ws t → settled (releaseChild ws t s) ws t.
Proof.
  intros Hh Ho. unfold releaseChild. case_bool_decide as Hat.
  - split; [exact Ho|]. intros ws'. rewrite child_at_delete. case_bool_decide as Hw; [done|].
    intros Hat'. destruct (ho_child _ Hh ws' t Hat') as (c & Hc & Hcw). by rewrite (Ho c Hc) in Hcw.
  - split; [exact Ho|]. intros ws' Hat'. destruct (ho_child _ Hh ws' t Hat') as (c & Hc & Hcw).
    rewrite (Ho c Hc) in Hcw. subst ws'. done.
Qed.

Lemma but_drop t s temporary ok :
  but t s → proc_of s t ≠ Some Running → but t (drop_directory temporary ok t s).
Proof.
  intros Hb Hr. unfold drop_directory. destruct (_ && _); [|done]. apply but_drop_dir; [done..|by left].
Qed.

Lemma settled_drop s ws t temporary ok t' :
  settled s ws t → settled (drop_directory temporary ok t' s) ws t.
Proof. unfold drop_directory. by destruct (_ && _). Qed.

Lemma proc_of_releaseChild ws l s l' : proc_of (releaseChild ws l s) l' = proc_of s l'.
Proof. unfold releaseChild. by case_bool_decide. Qed.

(** A call that launches in a workspace excludes a stop that waits there. *)
Lemma no_holder s t th ws l c :
  claims_inv s → but t s → sv_threads s !! t = Some th → launches ws th →
  sv_heap s !! l = Some c → ch_ws c = ws →
  ∀ t' th', t' ≠ t → sv_threads s !! t' = Some th' → ∀ ws', ¬ holds ws' l true th'.
Proof.
  intros Hci Hb Ht HL Hc Hw t' th' Hne Ht' ws' ->.
  destruct (bu_others _ _ Hb _ _ Hne Ht') as (_ & _ & Hat & [Hcl Htr] & _).
  destruct (ho_child _ (bu_heap _ _ Hb) ws' l Hat) as (c' & Hc' & Hw').
  assert (ws' = ws) as -> by congruence. destruct HL as [HL|HL].
  - assert (sv_claims s !! ws = Some t) by (apply (ci_claim _ Hci); by eexists). congruence.
  - destruct (ci_open _ Hci _ _ _ Ht HL) as [? _]. congruence.
Qed.

Lemma tame_taken c : stage_ok c → ch_done c = Full → tame (set_done Taken) c.
Proof.
  intros Hs Hd. split_and!; [done|done| |by left]. unfold stage_ok in *. cbn.
  by destruct (ch_observer c), Hs as (? & ? & ?); try congruence; split_and!.
Qed.

Lemma take_cases l s s' :
  heap_ok s → take_done l s = Some s' →
  ∃ c, sv_heap s !! l = Some c ∧ tame (set_done Taken) c ∧ s' = on_child l (set_done Taken) s ∧
    ch_proc c = Reaped.
Proof.
  intros Hh. unfold take_done, done_of. case_bool_decide as Hd; [|done]. intros [= <-].
  destruct (sv_heap s !! l) as [c|] eqn:Hc; [|done]. exists c.
  pose proof (ho_stage _ Hh l c Hc) as Hs. split_and!; [done|by apply tame_taken|done|].
  unfold stage_ok in Hs. by destruct (ch_observer c), Hs as (? & ? & ?); try congruence.
Qed.

Lemma quiet_launch s t th ws :
  claims_inv s → sv_threads s !! t = Some th → launches ws th → quiet t ws s.
Proof. intros Hc Ht HL t' th' Hne Ht' HL'. apply Hne. by eapply (one_launch s ws t' t). Qed.

Lemma quiet_idle s t ws :
  claims_inv s → sv_claims s !! ws = None →
  (∀ r, sv_transitions s !! ws = Some r → tran_state s r = FailedState) → quiet t ws s.
Proof.
  intros [H1 H2 _ _] Hc Htr t' th' _ Ht' [HL|HL].
  - assert (sv_claims s !! ws = Some t') by (apply H1; by eexists). congruence.
  - destruct (H2 _ _ _ Ht' HL) as [Ht (x & Hx & Hne)]. apply Htr in Ht. unfold tran_state in Ht.
    by rewrite Hx in Ht.
Qed.

(** A registered child that was not started has its call in the workspace. *)
Lemma unstarted_launches s ws l :
  registry_inv s → child_at s ws = Some l → proc_of s l = Some NoProcess →
  ∃ th, sv_threads s !! l = Some th ∧ launches ws th.
Proof.
  intros Hreg Hat Hp. destruct (ho_child _ (ri_heap _ Hreg) ws l Hat) as (c & Hc & Hw).
  destruct (sv_threads s !! l) as [th|] eqn:Ht.
  2: { by rewrite (ri_unborn _ Hreg l Ht) in Hc. }
  pose proof (ri_threads _ Hreg l th Ht) as Hok. exists th. split; [done|].
  assert (∀ ws', ¬ settled s ws' l) as Hns by (intros ws' [_ Hs]; by apply (Hs ws)).
  assert (sv_heap s !! l ≠ None) as Hnn by congruence.
  destruct th as [ws' b pc|ws' pc|ws' pc]; destruct pc; cbn in Hok; unfold stop_ok, old_ok in Hok;
    try (exfalso; tauto); try (by destruct (Hns ws')); try (by destruct (Hns ws'); apply Hok).
  - destruct Hok as (_ & _ & c' & Hc' & _ & _ & Hw'). left. cbn. congruence.
  - destruct Hok as [Ho _]. left. cbn. rewrite <-(Ho c Hc). by rewrite Hw.
  - destruct Hok as (_ & _ & c' & Hc' & _ & _ & Hw'). right. cbn. congruence.
  - destruct Hok as [Ho _]. right. cbn. rewrite <-(Ho c Hc). by rewrite Hw.
Qed.

(** ** The calls keep the invariant *)

Section steps.
Context (a : answer) (t : nat) (s s' : server).
Hypothesis Hclaims : claims_inv s.
Hypothesis Hreg : registry_inv s.

Let Hbut : but t s := registry_but s t Hreg.

Lemma take_ok th ws l s1 :
  sv_threads s !! t = Some th → launches ws th → own s ws l → take_done l s = Some s1 →
  but t s1 ∧ (thread_ok s t th → thread_ok s1 t th) ∧ (∀ ws', settled s ws' t → settled s1 ws' t).
Proof using Hbut Hclaims Hreg.
  intros Ht HL Ho Et. destruct (take_cases _ _ _ (ri_heap _ Hreg) Et) as (c & Hc & Hf & -> & _).
  pose proof (no_holder s t th ws l c Hclaims Hbut Ht HL Hc (Ho c Hc)) as Hno.
  assert (keeps s (on_child l (set_done Taken) s) t th) as Hk.
  { eapply keeps_on_child; [done..|]. intros _. right. intros ws' ->. by destruct HL. }
  split; [|split; [by apply thread_ok_keeps|apply (k_settled _ _ _ _ Hk)]].
  eapply but_on_child; [done..|]. intros t' th' Hne Ht' _. right. by eapply Hno.
Qed.

Lemma start_before_ok ws temporary pc :
  sv_threads s !! t = Some (TStart ws temporary pc) → claimed pc = false →
  start_before a t ws temporary pc s = Some s' → registry_inv s'.
Proof using Hbut Hclaims Hreg.
  intros Ht Hpc H. pose proof (ri_threads _ Hreg _ _ Ht) as Hok. cbn in Hok.
  assert (∀ s1 pc', but t s1 → sv_heap s1 = sv_heap s → claimed pc' = false → sv_heap s !! t = None →
    registry_inv (with_thread t (TStart ws temporary pc') s1)) as move.
  { intros s1 pc' Hb Hh Hc Hn. apply but_thread; [done|].
    assert (settled s1 ws t) by (apply unborn_settled; [apply Hb|by rewrite Hh]).
    destruct pc'; cbn; rewrite ?Hh; done. }
  destruct pc; cbn [start_before] in H; cbn in Hok; try done.
  - apply locked_some in H as [_ H]. destruct (startClaim s ws); injection H as <-; by apply move.
  - destruct (negb _); [injection H as <-; by apply move|].
    case_bool_decide; [|done]. injection H as <-. by apply move.
  - apply locked_some in H as [Hmu H]. destruct (checkStartModeLocked _ _ _ _) as [s1 b] eqn:Em.
    injection H as <-. destruct (but_mode t s _ _ _ _ _ Hbut (or_introl Hmu) Em) as (Hb & Hh & _).
    apply move; [done..|by destruct b|done].
  - injection H as <-. apply move; [done..|by destruct (a_ok a)|done].
  - apply locked_some in H as [_ H]. destruct (lifecycleTransition s ws).
    + destruct temporary; [injection H as <-; by apply move|].
      case_bool_decide; injection H as <-; by apply move.
    + injection H as <-. apply move; [done..|by destruct (a_ok a)|done].
  - destruct (_ || _); [|done]. injection H as <-. by apply move.
  - apply locked_some in H as [Hmu H]. destruct (startClaim s ws); [injection H as <-; by apply move|].
    destruct (checkStartModeLocked _ _ _ _) as [s1 b] eqn:Em.
    destruct (but_mode t s _ _ _ _ _ Hbut (or_introl Hmu) Em) as (Hb & Hh & Hm).
    destruct b; cbn [negb] in H; [|injection H as <-; by apply move].
    destruct (lifecycleTransition s1 ws).
    { destruct temporary; [injection H as <-; by apply move|].
      case_bool_decide; injection H as <-; by apply move. }
    destruct (from_option _ _ _); [injection H as <-; by apply move|].
    destruct (a_seen a); injection H as <-; try (by apply move).
    apply but_thread; [apply (but_calls s1); try done; left; by rewrite Hm|]. cbn. by rewrite Hh.
Qed.

Lemma start_claimed_ok ws temporary pc :
  sv_threads s !! t = Some (TStart ws temporary pc) → claimed pc = true →
  start_claimed a t ws temporary pc s = Some s' → registry_inv s'.
Proof using Hbut Hclaims Hreg.
  intros Ht Hpc H. pose proof (ri_threads _ Hreg _ _ Ht) as Hok. cbn in Hok.
  assert (launches ws (TStart ws temporary pc)) as HL by (left; cbn; by rewrite Hpc).
  pose proof (quiet_launch _ _ _ _ Hclaims Ht HL) as Hq. pose proof (ri_heap _ Hreg) as Hh.
  destruct pc; cbn [start_claimed] in H; cbn in Hok; try done.
  - destruct (a_ok a); injection H as <-; [|by apply but_thread; [|apply unborn_settled]].
    destruct temporary; apply but_thread; try done; [by apply but_add_dir|]. cbn. split; [done|set_solver].
  - destruct Hok as [Hn Hd]. destruct (a_ok a); injection H as <-; [by apply but_thread|].
    apply but_thread; [|by apply settled_drop, unborn_settled].
    apply but_drop; [done|]. unfold proc_of. by rewrite Hn.
  - destruct Hok as [Hn Hd]. apply locked_some in H as [Hmu H]. unfold register_start in H.
    assert (proc_of s t ≠ Some Running) as Hr by (unfold proc_of; by rewrite Hn).
    assert (own s ws t) as Ho by (intros c Hc; congruence).
    assert ((∀ l, child_at s ws = Some l → proc_of s l ≠ Some Running) →
      registry_inv (with_thread t (TStart ws temporary SSpawn) (register_child ws temporary t s))) as Hregd.
    { intros Hl. apply but_thread; [by eapply but_register|]. cbn. unfold about_to_spawn. split.
      - unfold register_child. rewrite child_at_insert. by rewrite bool_decide_eq_true_2.
      - split; [done|]. eexists. cbn. rewrite lookup_insert_eq. done. }
    destruct (child_at s ws) as [l|] eqn:Hat; [|injection H as <-; by apply Hregd].
    destruct (alive s l) eqn:Ea; injection H as <-; [by apply but_thread|].
    apply Hregd. intros l' [= <-]. by apply not_alive.
  - destruct (a_ok a); injection H as <-.
    + apply but_thread; [by eapply but_spawn|]. destruct Hok as (_ & _ & c & Hc & _ & _ & Hw). split.
      * intros c'. cbn. rewrite lookup_alter_eq, Hc. by intros [= <-].
      * intros ws' _. rewrite proc_on_child, bool_decide_eq_true_2 by done. by rewrite Hc.
    + apply but_thread; [done|]. destruct Hok as (_ & _ & c & Hc & Hnp & _ & Hw). split.
      * intros c' Hc'. change (sv_heap s !! t = Some c') in Hc'. congruence.
      * unfold proc_of. cbn. rewrite Hc. cbn. by rewrite Hnp.
  - apply locked_some in H as [Hmu H]. injection H as <-. destruct Hok as [Ho Hr].
    apply but_thread; [|by apply settled_drop, release_settled].
    apply but_drop; [|by rewrite proc_of_releaseChild]. apply but_release; [done|by left|done|by left].
  - destruct (a_ok a); [injection H as <-; by apply but_thread|].
    destruct (a_take a); [|injection H as <-; by apply but_thread].
    destruct (take_done t s) as [s1|] eqn:Et; [|done]. injection H as <-.
    destruct (take_ok _ _ _ _ Ht HL (proj1 Hok) Et) as (Hb & _ & Hs). apply but_thread; [done|]. by apply Hs.
  - apply locked_some in H as [_ H]. injection H as <-. apply but_thread; [done|]. by destruct (a_ok a).
  - destruct (waited s t) eqn:Ew; [|done]. injection H as <-. apply but_thread; [done|].
    split; [exact Hok|]. rewrite (waited_reaped s t); done.
  - apply locked_some in H as [Hmu H]. injection H as <-. destruct Hok as [[Ho Hs] Hr].
    unfold discardStartedChild. case_bool_decide as Hat; [|by apply but_thread].
    destruct (ho_child _ Hh ws t Hat) as (c & Hc & Hcw).
    assert (∀ s1, child_at s1 = child_at s → sv_heap s1 = sv_heap s →
      settled (with_children (delete ws) s1) ws t) as Hset.
    { intros s1 E1 E2. split; [intros c'; cbn; rewrite E2; apply Ho|]. intros ws'. rewrite child_at_delete, E1.
      case_bool_decide as Hw; [done|]. intros Hat'. destruct (ho_child _ Hh ws' t Hat') as (c' & Hc' & Hcw').
      by rewrite (Ho c' Hc') in Hcw'. }
    destruct (temp_child s t) eqn:Etmp.
    + unfold cleanupTemporaryChildLocked. rewrite Hc, Hcw. destruct (a_clean a); [|by apply but_thread].
      apply but_thread; [|by apply Hset].
      apply but_delete; [apply but_drop_dir; [done|done|by left]|by left|].
      intros l Hl. assert (l = t) as -> by (unfold child_at in *; cbn in Hl; congruence). split; [done|by left].
    + apply but_thread; [|by apply Hset].
      apply but_delete; [done|by left|]. intros l Hl. assert (l = t) as -> by congruence. split; [done|by left].
  - apply locked_some in H as [Hmu H]. injection H as <-. unfold releaseStartClaim.
    case_bool_decide; [|by apply but_thread]. apply but_thread; [|done]. apply (but_calls s); try done. by left.
Qed.

Lemma stop_step_ok ws pc :
  sv_threads s !! t = Some (TStop ws pc) → (pc = PLock → idle s ws) →
  stop_step a t ws pc s = Some s' → registry_inv s'.
Proof using Hbut Hclaims Hreg.
  intros Ht Hq H. pose proof (ri_threads _ Hreg _ _ Ht) as [Hn Hok].
  assert (∀ pc', (∀ l, pc' ≠ PWaitTemp l ∧ pc' ≠ PWaitExit l) →
    registry_inv (with_thread t (TStop ws pc') s)) as move.
  { intros pc' Hpc. apply but_thread; [done|]. split; [done|]. destruct pc'; naive_solver. }
  destruct pc; cbn [stop_step] in H; cbn in Hok; try done.
  - apply locked_some in H as [_ H]. destruct (_ || _); injection H as <-; by apply move.
  - apply locked_some in H as [_ H]. destruct (startClaim s ws); injection H as <-; by apply move.
  - case_bool_decide; [|done]. injection H as <-. by apply move.
  - apply locked_some in H as [_ H]. destruct (lifecycleTransition s ws); injection H as <-; by apply move.
  - specialize (Hq eq_refl). assert (quiet t ws s) as Hquiet.
    { apply quiet_idle; [done|apply Hq|]. intros r Hr. destruct Hq as [_ Hq]. congruence. }
    apply locked_some in H as [Hmu H]. destruct (child_at s ws) as [l|] eqn:Hat; [|injection H as <-; by apply move].
    destruct (ho_child _ (ri_heap _ Hreg) ws l Hat) as (c & Hc & Hw).
    assert (started s ws l false) as Hst.
    { exists c. split_and!; [done|done| |done]. intros Hnp.
      destruct (unstarted_launches s ws l Hreg Hat) as (th & Hth & HL); [unfold proc_of; rewrite Hc; cbn; by rewrite Hnp|].
      apply (Hquiet l th); [|done|done]. intros ->. congruence. }
    destruct (temp_child s l).
    { injection H as <-. apply but_thread; [apply but_mu; [done|by left]|]. by split. }
    destruct (alive s l) eqn:Ea; injection H as <-.
    { apply but_thread; [apply but_mu; [done|by left]|]. split; [done|]. split_and!; try done.
      intros _. rewrite alive_running in Ea. apply bool_decide_eq_true in Ea. unfold proc_of in Ea. unfold done_of. cbn.
      rewrite Hc in *. injection Ea as Ea. pose proof (ho_stage _ (ri_heap _ Hreg) l c Hc) as Hs.
      unfold stage_ok in Hs. destruct (ch_observer c), Hs as (? & ? & ?); congruence. }
    apply but_thread; [|by split]. apply but_delete; [done|by left|]. intros l' Hat'.
    assert (l' = l) as -> by congruence. split; [by apply not_alive|]. intros _. by right.
  - destruct Hok as (Hmu & Hat & Hi & Hst & _). destruct (waited s l || unstarted s l) eqn:Ew; [|done].
    injection H as <-. destruct (cleanup_heap (a_clean a) l s) as [Hh Hm].
    apply but_thread; [|split; [by rewrite <-Hn, <-Hh|done]].
    apply but_mu; [|right; by rewrite Hm].
    eapply but_cleanup; [done|by right|done|]. apply orb_true_iff in Ew as [Ew|Ew].
    + by apply waited_reaped; [apply Hreg|].
    + exfalso. destruct Hst as (c & Hc & _ & Hnp & _). unfold unstarted in Ew. rewrite Hc in Ew.
      by apply bool_decide_eq_true in Ew.
  - destruct Hok as (Hmu & Hat & Hi & Hst & _). destruct (take_done l s) as [s1|] eqn:Et; [|done]. injection H as <-.
    destruct (take_cases _ _ _ (ri_heap _ Hreg) Et) as (c & Hc & Hf & -> & Hr).
    assert (but t (on_child l (set_done Taken) s)) as Hb.
    { eapply but_on_child; [done..|]. intros t' th' Hne Ht' _. right. intros ws' Hh.
      eapply (not_holding t s t'); [done|by right|done..]. }
    assert (sv_heap (on_child l (set_done Taken) s) !! t = None) as Hn' by (by apply unborn_on_child).
    apply but_thread; [|by destruct (a_clean a); split].
    apply but_mu; [|right; by destruct (a_clean a)]. destruct (a_clean a); [|done].
    apply but_delete_gone; [done|by right|]. intros l' Hat'.
    assert (l' = l) as -> by (unfold child_at in *; cbn in Hat'; congruence).
    rewrite proc_on_child, bool_decide_eq_true_2 by done. rewrite Hc. cbn. by rewrite Hr.
Qed.
End steps.

Section restart_steps.
Context (a : answer) (t : nat) (s s' : server).
Hypothesis Hclaims : claims_inv s.
Hypothesis Hreg : registry_inv s.

Let Hbut : but t s := registry_but s t Hreg.

(** The registration of a transition; its old child runs. *)
Lemma but_install s1 ws old retry :
  but t s1 → sv_mu s1 = None → sv_heap s1 !! t = None →
  (∀ l, old = Some (Some l) → started s1 ws l false) →
  registry_inv (with_thread t (TRestart ws RFirstWrite) (install_transition t ws old retry s1)).
Proof using.
  intros Hb Hmu Hn Hold. apply but_thread.
  - apply (but_calls s1); try done; [by left|]. intros t' Hne. cbn. by rewrite lookup_insert_ne.
  - split; [done|]. intros l. unfold old_child. cbn. rewrite lookup_insert_eq. cbn.
    intros Hl. destruct old as [[l'|]|]; [|done..]. injection Hl as ->. by apply Hold.
Qed.

Lemma begin_ok s1 ws s2 b :
  but t s1 → sv_mu s1 = None → sv_heap s1 !! t = None → quiet t ws s1 →
  begin_transition a t ws s1 = (s2, b) →
  registry_inv (with_thread t (TRestart ws (if b then RFirstWrite else RDone Refused)) s2).
Proof using.
  intros Hb Hmu Hn Hq H.
  assert (∀ s3, but t s3 → sv_mu s3 = None → sv_heap s3 !! t = None → discover_old a t ws s3 = (s2, b) →
    registry_inv (with_thread t (TRestart ws (if b then RFirstWrite else RDone Refused)) s2)) as discovered.
  { intros s3 Hb3 Hmu3 Hn3 Hd. destruct b.
    - unfold discover_old in Hd.
      destruct (a_ok a), (a_retry a), (a_seen a); simplify_eq; by apply but_install.
    - apply same_discover in Hd as ->. apply but_thread; [done|]. by apply unborn_settled; [apply Hb3|]. }
  unfold begin_transition in H. destruct (child_at s1 ws) as [l|] eqn:Hat; [|by apply (discovered s1)].
  destruct (temp_child s1 l).
  { simplify_eq. apply but_thread; [done|]. by apply unborn_settled; [apply Hb|]. }
  destruct (alive s1 l) eqn:Ea.
  - simplify_eq. apply but_install; [done..|]. intros l' [= <-]. rewrite alive_running in Ea.
    apply bool_decide_eq_true in Ea. destruct (ho_child _ (bu_heap _ _ Hb) ws l Hat) as (c & Hc & Hw).
    exists c. unfold proc_of in Ea. rewrite Hc in Ea. injection Ea as Ea. split_and!; [done|done|congruence|done].
  - apply (discovered (with_children (delete ws) s1)); [|done..].
    apply but_delete; [done|by left|]. intros l' Hat'. assert (l' = l) as -> by congruence.
    split; [by apply not_alive|]. intros _. by right.
Qed.

Lemma restart_before_ok ws pc :
  sv_threads s !! t = Some (TRestart ws pc) → open pc = false →
  restart_before a t ws pc s = Some s' → registry_inv s'.
Proof using Hbut Hclaims Hreg.
  intros Ht Hpc H. pose proof (ri_threads _ Hreg _ _ Ht) as Hok. cbn in Hok.
  assert (sv_heap s !! t = None → settled s ws t) as Hset by (apply unborn_settled, Hreg).
  destruct pc; cbn [restart_before] in H; cbn in Hok; try done.
  - apply locked_some in H as [_ H]. destruct (startClaim s ws); injection H as <-; by apply but_thread.
  - case_bool_decide; [|done]. injection H as <-. by apply but_thread.
  - apply locked_some in H as [_ H]. injection H as <-. apply but_thread; [done|].
    destruct (from_option _ _ _); [by apply Hset|done].
  - injection H as <-. apply but_thread; [done|]. destruct (a_ok a); [done|by apply Hset].
  - apply locked_some in H as [Hmu H]. destruct (startClaim s ws) as [c|] eqn:Ec.
    { injection H as <-. by apply but_thread. }
    destruct (lifecycleTransition s ws) as [r|] eqn:Er.
    + case_bool_decide as Hf; [|injection H as <-; by apply but_thread].
      destruct (begin_transition _ _ _ _) as [s1 b] eqn:Eb. injection H as <-.
      eapply (begin_ok (with_transitions (delete ws) s)); [|done|exact Hok| |done].
      { apply (but_calls s); try done. by left. }
      change (quiet t ws s). apply quiet_idle; [done..|].
      intros r' Hr'. unfold lifecycleTransition in Er. by assert (r' = r) as -> by congruence.
    + destruct (begin_transition _ _ _ _) as [s1 b] eqn:Eb. injection H as <-.
      eapply begin_ok; try done. apply quiet_idle; [done..|]. intros r' Hr'. unfold lifecycleTransition in Er. congruence.
  - destruct (_ || _); [|done]. injection H as <-. apply but_thread; [done|by apply Hset].
Qed.

Lemma old_child_set state : old_child (set_transition_state t state s) t = old_child s t.
Proof using. unfold old_child, set_transition_state. cbn. rewrite lookup_alter_eq. by destruct (sv_trans s !! t). Qed.

Lemma restart_open_ok ws pc :
  sv_threads s !! t = Some (TRestart ws pc) →
  restart_open a t ws pc s = Some s' → registry_inv s'.
Proof using Hbut Hclaims Hreg.
  intros Ht H. pose proof (ri_threads _ Hreg _ _ Ht) as Hok. cbn in Hok. pose proof (ri_heap _ Hreg) as Hh.
  assert (open pc = true → launches ws (TRestart ws pc)) as HL by (intros Ho; right; cbn; by rewrite Ho).
  assert (open pc = true → quiet t ws s) as Hq by (intros Ho; eapply quiet_launch; eauto).
  assert (∀ state pc', restart_ok (set_transition_state t state s) t ws pc' →
    registry_inv (with_thread t (TRestart ws pc') (set_transition_state t state s))) as set_.
  { intros state pc' Hpc. apply but_thread; [|done].
    apply (but_calls s); try done; [by right|]. intros t' Hne. cbn. by rewrite lookup_alter_ne. }
  assert (∀ state g, old_ok s ws t g → old_ok (set_transition_state t state s) ws t g) as set_old.
  { intros state g [Hn Ho]. split; [done|]. rewrite old_child_set. exact Ho. }
  assert (∀ l s1, open pc = true → own s ws l → take_done l s = Some s1 → registry_inv s1) as taken.
  { intros l s1 Ho Hown Et. destruct (take_ok t s Hclaims Hreg _ _ _ _ Ht (HL Ho) Hown Et) as (Hb & Hk & _).
    pose proof (but_thread s1 t _ Hb (Hk (ri_threads _ Hreg _ _ Ht))) as Hr.
    destruct (take_cases _ _ _ Hh Et) as (c & _ & _ & -> & _).
    replace (on_child l (set_done Taken) s) with
      (with_thread t (TRestart ws pc) (on_child l (set_done Taken) s)); [done|].
    unfold with_thread, on_child, with_heap. cbn. by rewrite insert_id. }
  assert (sv_heap s !! t = None → settled s ws t) as Hset by (by apply unborn_settled).
  destruct pc; cbn [restart_open] in H; cbn in Hok; try done.
  - apply locked_some in H as [_ H]. destruct (a_ok a); [injection H as <-; by apply but_thread|].
    destruct (_ && _); injection H as <-; [apply set_|apply but_thread; [done|]]; by apply Hset, Hok.
  - destruct (a_ok a); [injection H as <-; by apply but_thread|].
    destruct (_ || _); [injection H as <-; apply but_thread; [done|]; by apply Hset, Hok|].
    apply locked_some in H as [_ H]. injection H as <-. apply set_. by apply Hset, Hok.
  - apply locked_some in H as [_ H]. injection H as <-. apply set_.
    destruct (a_ok a); [|by apply Hset, Hok]. case_bool_decide; cbn; [by apply set_old|by apply Hok].
  - destruct (a_take a).
    { destruct (old_child s t) as [l|] eqn:El; [|done]. apply (taken l s'); [done| |done].
      intros c Hc. destruct (proj2 Hok l El) as (c' & Hc' & Hw & _). congruence. }
    destruct (a_ok a); [|injection H as <-; apply but_thread; [done|]; by apply Hset, Hok].
    destruct (negb _) eqn:Eg; [|done]. injection H as <-. apply but_thread; [done|]. cbn.
    destruct Hok as [Hn Ho]. split; [done|]. intros l Hl. destruct (Ho l Hl) as (c & Hc & Hw & Hnp & _).
    exists c. split_and!; [done..|]. intros _. rewrite Hl in Eg. cbn in Eg.
    apply negb_true_iff, not_alive in Eg. unfold proc_of in Eg. rewrite Hc in Eg. cbn in Eg.
    by destruct (ch_proc c).
  - apply locked_some in H as [_ H]. injection H as <-. apply set_.
    destruct (a_ok a); cbn; [by apply set_old|by apply Hset, Hok].
  - apply locked_some in H as [Hmu H]. injection H as <-. destruct Hok as [Hn Ho].
    destruct (old_child s t) as [l|] eqn:El; cbn; [|by apply but_thread].
    destruct (Ho l eq_refl) as (c & Hc & Hw & Hnp & Hr). specialize (Hr eq_refl).
    assert (proc_of s l = Some Reaped) as Hp by (unfold proc_of; rewrite Hc; cbn; by rewrite Hr).
    apply but_thread.
    + apply but_release; [done|by left|by rewrite Hp|by rewrite Hp].
    + cbn. unfold releaseChild. by case_bool_decide.
  - destruct (negb _); [injection H as <-; apply but_thread; [done|by apply Hset]|].
    apply locked_some in H as [Hmu H].
    unfold register_replacement in H. destruct (child_at s ws) as [l|] eqn:Hat; injection H as <-.
    + apply but_thread; [done|]. cbn. split; [intros c Hc; congruence|]. unfold proc_of. by rewrite Hok.
    + apply but_thread.
      * eapply but_register; [done..|by apply Hq|]. by rewrite Hat.
      * cbn. split; [unfold register_child; rewrite child_at_insert; by rewrite bool_decide_eq_true_2|].
        split; [done|]. eexists. cbn. rewrite lookup_insert_eq. done.
  - destruct (a_ok a); injection H as <-.
    + apply but_thread; [by eapply but_spawn|]. destruct Hok as (_ & _ & c & Hc & _ & _ & Hw). split.
      * intros c'. cbn. rewrite lookup_alter_eq, Hc. by intros [= <-].
      * intros ws' _. rewrite proc_on_child, bool_decide_eq_true_2 by done. by rewrite Hc.
    + apply but_thread; [done|]. destruct Hok as (_ & _ & c & Hc & Hnp & _ & Hw). split.
      * intros c' Hc'. change (sv_heap s !! t = Some c') in Hc'. congruence.
      * unfold proc_of. cbn. rewrite Hc. cbn. by rewrite Hnp.
  - apply locked_some in H as [Hmu H]. injection H as <-. destruct Hok as [Ho Hr].
    apply but_thread; [|by apply release_settled].
    apply but_release; [done|by left|done|by left].
  - destruct (a_ok a); [injection H as <-; by apply but_thread|].
    destruct (a_take a); [|injection H as <-; by apply but_thread].
    destruct (take_done t s) as [s1|] eqn:Et; [|done]. injection H as <-.
    destruct (take_ok t s Hclaims Hreg _ _ _ _ Ht (HL eq_refl) (proj1 Hok) Et) as (Hb & _ & Hs).
    apply but_thread; [done|]. by apply Hs.
  - destruct (a_take a); [apply (taken t s'); [done|apply Hok|done]|].
    destruct (a_ok a); [|injection H as <-; by apply but_thread].
    destruct (negb _) eqn:Eg; [|done]. injection H as <-. apply but_thread; [done|]. cbn.
    split; [exact Hok|]. by apply not_alive, negb_true_iff.
  - apply locked_some in H as [Hmu H]. injection H as <-. destruct Hok as [[Ho Hs] Hr].
    apply but_thread; [|by apply release_settled].
    apply but_release; [done|by left|done|by left].
  - apply locked_some in H as [_ H]. injection H as <-. apply set_. by destruct (a_ok a).
  - apply locked_some in H as [_ H]. injection H as <-. by apply set_.
  - apply locked_some in H as [Hmu H]. injection H as <-.
    assert (∀ s1, sv_children s1 = sv_children s → sv_heap s1 = sv_heap s → settled s1 ws t) as Hs1.
    { intros s1 E1 E2. unfold settled, own, proc_of, child_at in *. by rewrite E1, E2. }
    unfold completeTransition. cbv zeta. destruct (_ && _);
      (apply but_thread; [|by apply Hs1]; apply (but_calls s); try done; [by left|];
       intros t' Hne; cbn; by rewrite lookup_alter_ne).
Qed.
End restart_steps.

Lemma observe_ok a l s s' : registry_inv s → observe a l s = Some s' → registry_inv s'.
Proof.
  intros Hreg H. unfold observe in H. destruct (sv_heap s !! l) as [c|] eqn:Hc; [|done].
  cbn [mbind option_bind] in H. pose proof (ri_heap _ Hreg) as Hh.
  pose proof (ho_stage _ Hh l c Hc) as Hst. unfold stage_ok in Hst.
  assert (∀ f s1, registry_inv s1 → sv_heap s1 = sv_heap s → tame f c → (ch_done (f c) = Taken → ch_done c = Taken) →
    registry_inv (on_child l f s1)) as keep.
  { intros f s1 [H1 H2 H3] E Hf Hd. assert (sv_heap s1 !! l = Some c) as Hc1 by (by rewrite E). constructor.
    - by eapply heap_ok_on_child.
    - intros t th Ht. apply (thread_ok_keeps s1); [|by apply H2]. eapply keeps_on_child; [done..|].
      intros Htk. left. by apply Hd.
    - intros t Ht. by apply unborn_on_child, H3. }
  unfold tame, stage_ok in keep. destruct (ch_observer c) eqn:Eo, Hst as (Hp & Hd & Hw); try done.
  - injection H as <-. apply keep; [done|done| |done]. cbn. split_and!; try done. right. by rewrite Hp.
  - injection H as <-. apply keep; [done|done| |done]. cbn. split_and!; try done. by left.
  - injection H as <-. apply keep; [done|done| |done]. cbn. split_and!; try done; [|by left].
    by destruct (ch_temp c).
  - destruct (_ && _) eqn:E; [|done]. apply andb_true_iff in E as [_ Hmu%bool_decide_eq_true].
    injection H as <-. apply keep; [| |cbn; split_and!; try done; by left|done].
    2: { case_bool_decide; [by rewrite (proj1 (cleanup_heap _ _ _))|done]. }
    case_bool_decide as Hat; [|done].
    destruct (sv_threads s !! l) as [th|] eqn:Ht.
    2: { by rewrite (ri_unborn _ Hreg l Ht) in Hc. }
    assert (but l (cleanupTemporaryChildLocked (a_clean a) l s)) as Hb.
    { eapply but_cleanup; [by apply registry_but|by left|done|]. unfold proc_of. rewrite Hc. cbn. by rewrite Hp. }
    constructor; [apply Hb| |apply Hb].
    intros t th' Ht'. destruct (decide (t = l)) as [->|Hne]; [|by apply Hb].
    unfold cleanupTemporaryChildLocked in *. rewrite Hc in *. destruct (a_clean a); [|by apply Hreg].
    apply (thread_ok_keeps s); [|by apply Hreg]. constructor; try done; [congruence| | |].
    + intros ws [Ho Hs]. split; [exact Ho|]. intros ws'. rewrite child_at_delete. case_bool_decide; [done|]. apply Hs.
    + intros ws b _ (_ & _ & c' & Hc' & Hnp & _). congruence.
    + intros ws l' b -> (Hmu' & _). congruence.
Qed.

Lemma registry_idle : registry_inv idle_server.
Proof.
  constructor; [constructor| |]; try done. all: intros l c; cbn; by rewrite lookup_empty.
Qed.

Lemma perform_registry e s s' :
  claims_inv s → registry_inv s → orderly e s → perform e s = Some s' → registry_inv s'.
Proof.
  intros Hc Hreg Ho H. destruct e as [t ws q|a t|a l]; cbn [perform] in H; [| |by eapply observe_ok].
  - case_bool_decide as Ht; [|done]. injection H as <-.
    apply but_thread; [by apply registry_but|]. pose proof (ri_unborn _ Hreg t Ht) as Hn.
    destruct q; [done|by split|done].
  - unfold advance in H. unfold orderly in Ho. destruct (sv_threads s !! t) as [th|] eqn:Ht; [|done].
    cbn [mbind option_bind] in H. destruct th as [ws temporary pc|ws pc|ws pc].
    + destruct (claimed pc) eqn:Ec; [by eapply start_claimed_ok|by eapply start_before_ok].
    + eapply stop_step_ok; [done|done|done| |done]. by intros ->.
    + destruct pc; first [exact (restart_before_ok a t s s' Hc Hreg ws _ Ht eq_refl H)
                         |exact (restart_open_ok a t s s' Hc Hreg ws _ Ht H)].
Qed.

Lemma orderly_inv s : orderly_reachable s → claims_inv s ∧ registry_inv s.
Proof.
  apply (rtc_invariant orderly_step (λ s, claims_inv s ∧ registry_inv s)).
  - intros s1 s2 [Hc Hr] [e Ho He]. split; [by eapply perform_claims|by eapply perform_registry].
  - split; [apply claims_inv_idle|apply registry_idle].
Qed.

(** C7: While every stop acts on claims and transitions as it found them, a weaver that
    runs is the registered child of its workspace, so that a workspace has at most
    one and a stop finds it, and a temporary weaver that runs has its directory. *)
Theorem running_registered s :
  orderly_reachable s →
  (∀ l c, sv_heap s !! l = Some c → ch_proc c = Running →
     child_at s (ch_ws c) = Some l ∧ (ch_temp c = true → l ∈ sv_dirs s)) ∧
  (∀ l l' c c', sv_heap s !! l = Some c → sv_heap s !! l' = Some c' →
     ch_proc c = Running → ch_proc c' = Running → ch_ws c = ch_ws c' → l = l').
Proof.
  intros [_ Hr]%orderly_inv. pose proof (ho_running _ (ri_heap _ Hr)) as H. split; [exact H|].
  intros l l' c c' Hl Hl' Hc Hc' Hw. destruct (H _ _ Hl Hc) as [H1 _], (H _ _ Hl' Hc') as [H2 _].
  rewrite Hw in H1. congruence.
Qed.

(** ** The mutex *)

Definition waits_locked (th : thread) : bool :=
  match th with TStop _ (PWaitTemp _) | TStop _ (PWaitExit _) => true | _ => false end.

(** A step of the thread [t], which was at [th]: what becomes of the mutex. *)
Definition own_move (t : nat) (th : thread) (s s' : server) : Prop :=
  (∃ th', sv_threads s' = <[t := th']> (sv_threads s) ∧
     match waits_locked th, waits_locked th' with
     | false, false => sv_mu s' = sv_mu s
     | true, false => sv_mu s' = None
     | false, true => sv_mu s = None ∧ sv_mu s' = Some t
     | true, true => False
     end) ∨
  (sv_threads s' = sv_threads s ∧ sv_mu s' = sv_mu s).

Lemma mode_mu ws temporary ok s s' b :
  checkStartModeLocked ws temporary ok s = (s', b) → sv_mu s' = sv_mu s ∧ sv_threads s' = sv_threads s.
Proof.
  unfold checkStartModeLocked, cleanupTemporaryChildLocked. intros H.
  repeat case_match; simplify_eq; done.
Qed.

Lemma start_move a t ws temporary pc s s' :
  (if claimed pc then start_claimed a t ws temporary pc s else start_before a t ws temporary pc s) = Some s' →
  own_move t (TStart ws temporary pc) s s'.
Proof.
  intros H. assert (∀ s1 pc', sv_threads s1 = sv_threads s → sv_mu s1 = sv_mu s →
    own_move t (TStart ws temporary pc) s (with_thread t (TStart ws temporary pc') s1)) as move.
  { intros s1 pc' E1 E2. left. eexists. cbn. by rewrite E1. }
  destruct pc; cbn [claimed start_claimed start_before] in H; try done.
  all: repeat match type of H with locked _ _ = _ => apply locked_some in H as [_ H] end.
  all: try (destruct (checkStartModeLocked _ _ _ _) as [s1 b] eqn:Em; apply mode_mu in Em as [??]).
  all: unfold register_start, discardStartedChild, releaseStartClaim, releaseChild, take_done,
    cleanupTemporaryChildLocked, drop_directory in H.
  all: repeat (case_match; simplify_eq/=; try done); simplify_option_eq; by apply move.
Qed.

Lemma stop_move a t ws pc s s' : stop_step a t ws pc s = Some s' → own_move t (TStop ws pc) s s'.
Proof.
  intros H. assert (∀ s1 pc', sv_threads s1 = sv_threads s →
    match waits_locked (TStop ws pc), waits_locked (TStop ws pc') with
    | false, false => sv_mu s1 = sv_mu s
    | true, false => sv_mu s1 = None
    | false, true => sv_mu s = None ∧ sv_mu s1 = Some t
    | true, true => False
    end → own_move t (TStop ws pc) s (with_thread t (TStop ws pc') s1)) as move.
  { intros s1 pc' E1 E2. left. eexists. cbn. by rewrite E1. }
  destruct pc; cbn [stop_step] in H; try done.
  all: repeat match type of H with locked _ _ = _ => apply locked_some in H as [? H] end.
  all: unfold take_done, cleanupTemporaryChildLocked in H.
  all: repeat (case_match; simplify_eq/=; try done); simplify_option_eq; by apply move.
Qed.

Lemma restart_move a t ws pc s s' :
  restart_before a t ws pc s = Some s' ∨ restart_open a t ws pc s = Some s' →
  own_move t (TRestart ws pc) s s'.
Proof.
  assert (∀ s1 pc', sv_threads s1 = sv_threads s → sv_mu s1 = sv_mu s →
    own_move t (TRestart ws pc) s (with_thread t (TRestart ws pc') s1)) as move.
  { intros s1 pc' E1 E2. left. eexists. cbn. by rewrite E1. }
  assert (∀ l, take_done l s = Some s' → own_move t (TRestart ws pc) s s') as taken.
  { unfold take_done. intros l H. case_bool_decide; [|done]. injection H as <-. by right. }
  intros [H|H]; destruct pc; cbn [restart_before restart_open] in H; try done.
  all: repeat match type of H with locked _ _ = _ => apply locked_some in H as [_ H] end.
  all: unfold begin_transition, discover_old, register_replacement, completeTransition, releaseChild, locked in H.
  all: repeat (case_match; simplify_eq/=; try done); simplify_option_eq;
    try (by eapply taken); try (by apply move).
  all: unfold take_done in *; simplify_option_eq; try (by apply move).
  destruct (old_child s t); [cbn; case_bool_decide|]; by apply move.
Qed.

Lemma advance_move a t s s' :
  advance a t s = Some s' → ∃ th, sv_threads s !! t = Some th ∧ own_move t th s s'.
Proof.
  unfold advance. destruct (sv_threads s !! t) as [th|]; [|done]. cbn [mbind option_bind].
  intros H. exists th. split; [done|].
  destruct th as [ws b pc|ws pc|ws pc]; [by eapply start_move|by eapply stop_move|].
  apply (restart_move a t ws pc). destruct pc; auto.
Qed.

Lemma observe_mu a l s s' : observe a l s = Some s' → sv_mu s' = sv_mu s.
Proof.
  unfold observe. destruct (sv_heap s !! l) as [c|]; [|done]. cbn.
  destruct (ch_observer c); try done; try by intros [= <-].
  destruct (_ && _); [|done]. intros [= <-]. cbn.
  case_bool_decide; [by rewrite (proj2 (cleanup_heap _ _ _))|done].
Qed.

(** The mutex is held exactly by the thread that waits under it. *)
Lemma mu_held s t :
  reachable s → sv_mu s = Some t ↔ ∃ th, sv_threads s !! t = Some th ∧ waits_locked th = true.
Proof.
  intros Hr. revert t. revert Hr.
  apply (rtc_invariant step (λ s, ∀ t, sv_mu s = Some t ↔
    ∃ th, sv_threads s !! t = Some th ∧ waits_locked th = true)).
  2: { intros t. cbn. rewrite lookup_empty. split; [done|]. by intros (? & ? & _). }
  intros s1 s2 IH [e He] t. destruct e as [t' ws q|a t'|a l]; cbn [perform] in He.
  - case_bool_decide as Ht; [|done]. injection He as <-. cbn. rewrite IH.
    destruct (decide (t = t')) as [->|Hne]; [|by rewrite lookup_insert_ne].
    rewrite lookup_insert_eq, Ht. split; intros (th & Hl & Hw); [done|]. injection Hl as <-. by destruct q.
  - apply advance_move in He as (th & Hth & [(th' & -> & Hm)|[-> ->]]); [|by apply IH].
    destruct (decide (t = t')) as [->|Hne].
    + rewrite lookup_insert_eq. pose proof (IH t') as IHt. rewrite Hth in IHt.
      destruct (waits_locked th) eqn:Ew, (waits_locked th') eqn:Ew'; try done.
      * rewrite Hm. split; [done|]. intros (? & [= <-] & ?). congruence.
      * destruct Hm as [_ ->]. split; [intros _; by exists th'|done].
      * rewrite Hm, IHt. split; intros (? & [= <-] & ?); congruence.
    + rewrite lookup_insert_ne by done. rewrite <-IH.
      destruct (waits_locked th) eqn:Ew, (waits_locked th') eqn:Ew'; try done.
      * rewrite Hm. assert (sv_mu s1 = Some t') as -> by (apply IH; by exists th). split; congruence.
      * destruct Hm as [-> ->]. split; congruence.
      * by rewrite Hm.
  - pose proof (observe_same _ _ _ _ He) as (_ & _ & _ & _ & ->). by rewrite (observe_mu _ _ _ _ He).
Qed.

Lemma orderly_reaches s : orderly_reachable s → reachable s.
Proof.
  unfold orderly_reachable, reachable. induction 1 as [|s1 s2 s3 [e _ He] _ IH]; [done|].
  eapply rtc_l; [by exists e|done].
Qed.

(** ** A stop that waits *)

(** The goroutine of a child that has not closed [waitDone] moves on by itself. *)
Lemma observe_moves s l c :
  sv_heap s !! l = Some c → ch_observer c = OWait ∨ ch_observer c = OSend ∨ ch_observer c = OClose →
  ∃ f, observe (mkAnswer true SeenNone false true false) l s = Some (on_child l f s) ∧
    ch_observer (f c) = match ch_observer c with OWait => OSend | OSend => OClose
                        | _ => if ch_temp c then OStartDone else OEnd end.
Proof.
  intros Hc Ho. unfold observe. rewrite Hc. cbn [mbind option_bind].
  destruct Ho as [Ho|[Ho|Ho]]; rewrite Ho; eexists; split; [done..|]; done.
Qed.

Lemma observer_reaches s l c :
  orderly_reachable s → sv_heap s !! l = Some c → ch_proc c ≠ NoProcess →
  ∃ s' c', rtc orderly_step s s' ∧ sv_mu s' = sv_mu s ∧ sv_threads s' = sv_threads s ∧
    sv_heap s' !! l = Some c' ∧ (ch_observer c' = OStartDone ∨ ch_observer c' = OEnd).
Proof.
  intros Hr Hc Hp.
  assert (∀ n s c, orderly_reachable s → sv_heap s !! l = Some c → ch_observer c ≠ OIdle →
    n = match ch_observer c with OWait => 3 | OSend => 2 | OClose => 1 | _ => 0 end →
    ∃ s' c', rtc orderly_step s s' ∧ sv_mu s' = sv_mu s ∧ sv_threads s' = sv_threads s ∧
      sv_heap s' !! l = Some c' ∧ (ch_observer c' = OStartDone ∨ ch_observer c' = OEnd)) as go.
  { clear s c Hr Hc Hp. induction n as [|n IH]; intros s c Hr Hc Hi En.
    - exists s, c. split_and!; try done. destruct (ch_observer c); auto; try done.
    - destruct (observe_moves s l c Hc) as (f & Hf & Ho); [destruct (ch_observer c); auto; done|].
      assert (orderly_step s (on_child l f s)) as Hs by (by exists (Observe (mkAnswer true SeenNone false true false) l)).
      assert (sv_heap (on_child l f s) !! l = Some (f c)) as Hl by (cbn; by rewrite lookup_alter_eq, Hc).
      destruct (IH (on_child l f s) (f c)) as (s' & c' & H1 & H2); [|done| | |].
      + eapply rtc_r; done.
      + rewrite Ho. by destruct (ch_observer c), (ch_temp c).
      + rewrite Ho. destruct (ch_observer c), (ch_temp c); try done; congruence.
      + exists s', c'. split; [|done]. by eapply rtc_l. }
  eapply go; [done|done| |done]. apply orderly_inv in Hr as [_ Hr].
  pose proof (ho_stage _ (ri_heap _ Hr) l c Hc) as Hs. unfold stage_ok in Hs.
  intros Hi. rewrite Hi in Hs. by destruct Hs.
Qed.

(** C9: And then a stop that holds the mutex while it waits for the exit of a weaver
    always returns: the goroutine of that weaver needs no mutex and nobody else
    takes what it sends. *)
Theorem stop_returns s t :
  orderly_reachable s → sv_mu s = Some t →
  ∃ s', rtc orderly_step s s' ∧ sv_mu s' = None ∧
    ∃ ws o, sv_threads s' !! t = Some (TStop ws (PDone o)).
Proof.
  intros Hr Hmu. apply (mu_held s t (orderly_reaches s Hr)) in Hmu as (th & Hth & Hwl).
  assert (∃ ws l, th = TStop ws (PWaitTemp l) ∨ th = TStop ws (PWaitExit l)) as (ws & l & Hw).
  { destruct th as [| ws [] |]; try done; eauto. }
  destruct (orderly_inv s Hr) as [_ Hreg].
  assert (∃ c, sv_heap s !! l = Some c ∧ ch_proc c ≠ NoProcess) as (c & Hc & Hnp).
  { pose proof (ri_threads _ Hreg t th Hth) as Hok.
    destruct Hw as [->| ->]; destruct Hok as (_ & _ & _ & _ & (c & Hc & _ & Hnp & _) & _); by exists c. }
  destruct (observer_reaches s l c Hr Hc Hnp) as (s1 & c1 & Hs1 & Hm1 & Ht1 & Hc1 & Ho1).
  assert (orderly_reachable s1) as Hr1 by exact (rtc_trans _ _ _ Hr Hs1).
  destruct (orderly_inv s1 Hr1) as [_ Hreg1]. pose proof (ho_stage _ (ri_heap _ Hreg1) l c1 Hc1) as Hst.
  assert (ch_done c1 ≠ Empty ∧ ch_waitDone c1 = true) as [Hd1 Hw1].
  { unfold stage_ok in Hst. by destruct Ho1 as [Ho|Ho]; rewrite Ho in Hst; destruct Hst. }
  assert (sv_threads s1 !! t = Some th) as Hth1 by (by rewrite Ht1).
  pose proof (ri_threads _ Hreg1 t th Hth1) as Hok.
  assert (∃ s2, advance (mkAnswer true SeenNone false true false) t s1 = Some s2 ∧ sv_mu s2 = None ∧
    ∃ ws o, sv_threads s2 !! t = Some (TStop ws (PDone o))) as (s2 & Ha & Hm2 & Hd2).
  { unfold advance. rewrite Hth1. cbn [mbind option_bind]. destruct Hw as [->| ->]; cbn [stop_step].
    - unfold waited. rewrite Hc1, Hw1. cbn [orb]. eexists. split; [done|]. split; [done|].
      cbn. rewrite lookup_insert_eq. by eexists _, _.
    - destruct Hok as (_ & _ & _ & _ & _ & Htk). specialize (Htk eq_refl). unfold done_of in Htk. rewrite Hc1 in Htk.
      unfold take_done, done_of. rewrite Hc1. rewrite bool_decide_eq_true_2 by (by destruct (ch_done c1)).
      cbn [mbind option_bind]. eexists. split; [done|]. split; [done|].
      cbn. rewrite lookup_insert_eq. by eexists _, _. }
  exists s2. split; [|done]. eapply rtc_r; [done|].
  exists (Advance (mkAnswer true SeenNone false true false) t); [|done].
  cbn. rewrite Hth1. by destruct Hw as [->| ->].
Qed.

(** ** A stop that acts on what it no longer knows *)

(** An answer by which the wait takes the value. *)
Definition take : answer := mkAnswer false SeenNone true true false.

(** A stop that has looked for claims and transitions; a start that installs its
    claim and registers its child; the stop, which finds a child without a process;
    and the rest of the start. *)
Definition orphan_run : list event :=
  Call 1 "w" ReqStop :: repeat (Advance well 1) 3
  ++ Call 2 "w" (ReqStart false) :: repeat (Advance well 2) 8
  ++ Advance well 1 :: repeat (Advance well 2) 4.

(** A weaver that runs; a stop that has looked; a restart up to the stop of the old
    generation; the stop, which waits for the exit; the exit, and the restart takes
    the value that tells of it. *)
Definition hang_run : list event :=
  Call 1 "w" (ReqStart false) :: repeat (Advance well 1) 12
  ++ Call 2 "w" ReqStop :: repeat (Advance well 2) 3
  ++ Call 3 "w" ReqRestart :: repeat (Advance well 3) 7
  ++ Advance well 2 :: repeat (Observe well 1) 3 ++ [Advance take 3].

(** The stop waits for a value that was taken, of a child whose goroutine ended and
    whose call is over. *)
Definition hung (t l : nat) (s : server) : Prop :=
  sv_mu s = Some t ∧ (∃ ws, sv_threads s !! t = Some (TStop ws (PWaitExit l))) ∧
  (∃ ws b o, sv_threads s !! l = Some (TStart ws b (SDone o))) ∧
  ∃ c, sv_heap s !! l = Some c ∧ ch_done c = Taken ∧ ch_observer c = OEnd.

Lemma hung_keeps t l s s' :
  hung t l s → sv_mu s' = sv_mu s → sv_threads s' !! t = sv_threads s !! t →
  sv_threads s' !! l = sv_threads s !! l → sv_heap s' !! l = sv_heap s !! l → hung t l s'.
Proof. unfold hung. intros H E1 E2 E3 E4. by rewrite E1, E2, E3, E4. Qed.

Lemma hung_step t l s s' : reachable s → hung t l s → step s s' → hung t l s'.
Proof.
  intros Hr Hh [e He]. pose proof Hh as (Hmu & (ws & Ht) & (ws' & b & o & Hl) & (c & Hc & Hd & Ho)).
  assert (∀ r s1, locked s r = Some s1 → False) as nolock.
  { intros r s1 H. apply locked_some in H as [H _]. congruence. }
  assert (take_done l s = None) as Hnt.
  { unfold take_done, done_of. rewrite Hc. by rewrite bool_decide_eq_false_2 by congruence. }
  assert (∀ l' s1, take_done l' s = Some s1 → hung t l s1) as taken.
  { intros l' s1 H. assert (l' ≠ l) as Hne by congruence. unfold take_done in H. case_bool_decide; [|done].
    injection H as <-. apply (hung_keeps t l s); try done. cbn. by rewrite lookup_alter_ne. }
  destruct e as [t' w q|a t'|a l']; cbn [perform] in He.
  - case_bool_decide as Hn; [|done]. injection He as <-.
    apply (hung_keeps t l s); try done; cbn; rewrite lookup_insert_ne; try done; congruence.
  - unfold advance in He. destruct (sv_threads s !! t') as [th|] eqn:Hth; [|done]. cbn [mbind option_bind] in He.
    destruct (decide (t' = t)) as [->|Hnt'].
    { rewrite Ht in Hth. injection Hth as <-. cbn [stop_step] in He. by rewrite Hnt in He. }
    destruct (decide (t' = l)) as [->|Hnl].
    { rewrite Hl in Hth. by injection Hth as <-. }
    assert (∀ th' s1, hung t l s1 → hung t l (with_thread t' th' s1)) as move.
    { intros th' s1 H1. apply (hung_keeps t l s1); try done; cbn; by rewrite lookup_insert_ne. }
    assert (∀ f s1, hung t l s1 → hung t l (on_child t' f s1)) as move_child.
    { intros f s1 H1. apply (hung_keeps t l s1); try done. cbn. by rewrite lookup_alter_ne. }
    assert (∀ f s1, hung t l s1 → hung t l (with_dirs f s1)) as move_dirs by (intros; by apply (hung_keeps t l s1)).
    destruct th as [w b' pc|w pc|w pc].
    + destruct pc; cbn [claimed start_claimed start_before] in He; try done; try (by apply nolock in He).
      all: repeat (case_match; simplify_eq/=; try done); unfold drop_directory.
      all: try (destruct (take_done t' s) as [s1|] eqn:Et; [|done]; simplify_eq/=).
      all: repeat case_match; eauto.
    + destruct (waits_locked (TStop w pc)) eqn:Ew.
      { assert (sv_mu s = Some t') by (apply (mu_held s t' Hr); by eexists). congruence. }
      destruct pc; cbn [stop_step] in He; try done; try (by apply nolock in He).
      case_bool_decide; simplify_eq. by apply move.
    + destruct pc; cbn [restart_before restart_open] in He; try done; try (by apply nolock in He).
      all: repeat (case_match; simplify_eq/=; try done); try (by apply nolock in He); eauto.
      all: simplify_option_eq; eauto.
  - unfold observe in He. destruct (decide (l' = l)) as [->|Hne].
    { rewrite Hc in He. cbn [mbind option_bind] in He. by rewrite Ho in He. }
    destruct (sv_heap s !! l') as [c'|]; [|done]. cbn [mbind option_bind] in He.
    assert (∀ f, hung t l (on_child l' f s)) as moved.
    { intros f. apply (hung_keeps t l s); try done. cbn. by rewrite lookup_alter_ne. }
    destruct (ch_observer c'); simplify_eq; try apply moved.
    rewrite Hmu, (bool_decide_eq_false_2 (Some t = None)), andb_false_r in He by done. done.
Qed.

Lemma hung_forever t l s s' : reachable s → hung t l s → rtc step s s' → hung t l s'.
Proof.
  intros Hr Hh H. revert Hr Hh. induction H as [|x y z Hxy _ IH]; intros Hr Hh; [done|].
  apply IH; [by eapply rtc_r|by eapply hung_step].
Qed.

(** A stop that looks for a claim and for a transition and acts on what it saw in a
    later critical section can leave a weaver running that the registry does not
    hold, although the start that launched it reports it started; and it can wait
    for the value of [done] that a restart took, with the mutex held from then on
    whatever else happens. *)
Theorem disorderly_stop :
  (∃ s l c, reachable s ∧ sv_heap s !! l = Some c ∧ ch_proc c = Running ∧
     child_at s (ch_ws c) = None ∧ sv_threads s !! l = Some (TStart (ch_ws c) false (SDone Started))) ∧
  (∃ s t, reachable s ∧ sv_mu s = Some t ∧ ∀ s', rtc step s s' → sv_mu s' = Some t).
Proof.
  split.
  - destruct (run orphan_run idle_server) as [s|] eqn:E; [|by vm_compute in E].
    exists s, 2, (mkChild "w" false Running Empty false OWait). split; [by eapply run_steps|].
    vm_compute in E. injection E as <-. by vm_compute.
  - destruct (run hang_run idle_server) as [s|] eqn:E; [|by vm_compute in E].
    assert (reachable s) as Hr by (by eapply run_steps).
    assert (hung 2 1 s) as Hh.
    { clear Hr. vm_compute in E. injection E as <-. repeat split.
      - by eexists.
      - by do 3 eexists.
      - by eexists. }
    exists s, 2. split; [done|]. split; [by destruct Hh|].
    intros s' Hs. by destruct (hung_forever _ _ _ _ Hr Hh Hs).
Qed.

(** ** Orderly runs *)

#[global] Instance orderly_dec e s : Decision (orderly e s).
Proof.
  destruct e as [| a t |]; cbn; try apply _. destruct (sv_threads s !! t) as [[| ws [] |]|]; apply _.
Defined.

Fixpoint orderly_run (es : list event) (s : server) : option server :=
  match es with
  | [] => Some s
  | e :: es => if decide (orderly e s) then perform e s ≫= orderly_run es else None
  end.

Lemma orderly_run_steps es s s' : orderly_run es s = Some s' → rtc orderly_step s s'.
Proof.
  revert s. induction es as [|e es IH]; intros s; cbn [orderly_run]; [by intros [= ->]|].
  destruct (decide (orderly e s)); [|done]. destruct (perform e s) as [s1|] eqn:E; [|done].
  cbn. intros H. eapply rtc_l; [by exists e|by apply IH].
Qed.

(** A temporary weaver that is started, and a stop of it that waits for its exit. *)
Definition temporary_run : list event :=
  Call 1 "w" (ReqStart true) :: repeat (Advance well 1) 12
  ++ Call 2 "w" ReqStop :: repeat (Advance well 2) 4.

Definition temporary_server : server := default idle_server (orderly_run temporary_run idle_server).

Lemma temporary_reached : orderly_reachable temporary_server.
Proof.
  apply (orderly_run_steps temporary_run). unfold temporary_server.
  by destruct (orderly_run temporary_run idle_server) eqn:E; [|vm_compute in E].
Qed.

Definition temporary_weaver : child := mkChild "w" true Running Empty false OWait.

Lemma running_registered_witness :
  orderly_reachable temporary_server ∧ sv_heap temporary_server !! 1 = Some temporary_weaver ∧
  child_at temporary_server "w" = Some 1 ∧ 1 ∈ sv_dirs temporary_server.
Proof.
  assert (sv_heap temporary_server !! 1 = Some temporary_weaver) as H by (by vm_compute).
  destruct (proj1 (running_registered temporary_server temporary_reached) 1 temporary_weaver H eq_refl)
    as [Hc Hd].
  split; [exact temporary_reached|]. split; [exact H|]. split; [exact Hc|by apply Hd].
Defined.

Lemma stop_returns_witness :
  sv_mu temporary_server = Some 2 ∧ ∃ s', rtc orderly_step temporary_server s' ∧ sv_mu s' = None.
Proof.
  assert (sv_mu temporary_server = Some 2) as H by (by vm_compute).
  destruct (stop_returns temporary_server 2 temporary_reached H) as (s' & Hs & Hm & _).
  split; [exact H|]. by exists s'.
Defined.
