(* ===== verification/SummaryCache.v ===== *)
(** The caches of restart records (src/cli/cmd/mill: the two [*SummaryCached] readers of
    lifecycle.go and pool_restart_record.go): what was read of a file is kept with the
    file's identity, size and time of modification, and answers the next reading of a
    file that has them all. *)

From S2P Require Export Prelude.

(** [os.SameFile], [Size] and [ModTime] of [os.Stat]. *)
Record file_info := mkInfo { fi_file : Z; fi_size : Z; fi_modified : Z }.

#[global] Instance file_info_eq_dec : EqDecision file_info.
Proof. solve_decision. Defined.

Inductive stat_answer := StatMissing | StatFailed (e : string) | StatInfo (i : file_info).

Section cache.
Context {E A : Type}.
(** The error of a failed [os.Stat]. *)
Context (stat_error : string → E).

(** An entry has the record without its details, its presence and its error. *)
Definition entry : Type := file_info * result E (option A).

(** One call: [read] is what reading the file gives, if it is read. *)
Definition cached_read (path : string) (stat : stat_answer) (read : result E (option A))
    (c : gmap string entry) : gmap string entry * result E (option A) :=
  match stat with
  | StatMissing => (delete path c, Ok None)
  | StatFailed e => (delete path c, Err (stat_error e))
  | StatInfo info =>
      let miss := (<[path := (info, read)]> c, read) in
      match c !! path with
      | Some (i, r) => if bool_decide (i = info) then (c, r) else miss
      | None => miss
      end
  end.

(** A call, with what the file system answers. *)
Definition call : Type := string * stat_answer * result E (option A).

Definition uncached (k : call) : result E (option A) :=
  match k.1.2 with
  | StatMissing => Ok None
  | StatFailed e => Err (stat_error e)
  | StatInfo _ => k.2
  end.

Fixpoint cached_reads (h : list call) (c : gmap string entry) : list (result E (option A)) :=
  match h with
  | [] => []
  | (path, stat, read) :: h =>
      let '(c, r) := cached_read path stat read c in r :: cached_reads h c
  end.

(** Files of one identity, size and time of modification are read alike. *)
Definition identified (h : list call) : Prop :=
  ∀ path i r r', (path, StatInfo i, r) ∈ h → (path, StatInfo i, r') ∈ h → r = r'.

Definition entries_of (h : list call) (c : gmap string entry) : Prop :=
  ∀ path i r, c !! path = Some (i, r) → (path, StatInfo i, r) ∈ h.

Lemma cached_read_spec h path stat read c c' r :
  identified h → entries_of h c → (path, stat, read) ∈ h →
  cached_read path stat read c = (c', r) → r = uncached (path, stat, read) ∧ entries_of h c'.
Proof.
  intros Hi Hc Hin. unfold cached_read, uncached. cbn.
  assert (entries_of h (delete path c)) as Hdel.
  { intros p i x Hp. apply lookup_delete_Some in Hp as [_ Hp]. by apply Hc. }
  destruct stat as [|e|info]; [by intros [= <- <-]|by intros [= <- <-]|].
  assert (entries_of h (<[path := (info, read)]> c)) as Hins.
  { intros p i x. destruct (decide (p = path)) as [->|Hne].
    - rewrite lookup_insert_eq. by intros [= <- <-].
    - rewrite lookup_insert_ne by done. apply Hc. }
  destruct (c !! path) as [[i x]|] eqn:Ep; [|by intros [= <- <-]].
  case_bool_decide as Hii; intros [= <- <-]; [|done]. subst i. split; [|done].
  by eapply Hi; [apply Hc|].
Qed.

Lemma cached_reads_uncached h0 h c :
  identified h0 → entries_of h0 c → h ⊆ h0 → cached_reads h c = uncached <$> h.
Proof.
  intros Hi. revert c. induction h as [|[[path stat] read] h IH]; intros c Hc Hh; [done|].
  cbn [cached_reads fmap list_fmap]. destruct (cached_read path stat read c) as [c' r] eqn:E1.
  apply (cached_read_spec h0) in E1 as [-> Hc']; [|done|done|apply Hh; by left].
  f_equal. apply IH; [done|]. intros k Hk. apply Hh. by right.
Qed.
End cache.
