(* ===== verification/PoolRecord.v ===== *)
(** The restart record of a JVM pool (src/cli/cmd/mill/pool_restart_record.go): its
    validation, its encoding, its strict reading and the cache of its summary. As in
    [RestartRecord] a file holds the JSON value it decodes to. *)

From S2P Require Export Identity SummaryCache.
From S2P Require JvmPool.
From stdpp Require Import pretty.

(** ** Data *)

Definition poolRestartRecordFormat : string := "millstrand.jvm-pool-restart/v1".
Definition poolRestartRecordFile : string := "restart.json".

Record poolRestartMember := mkPoolMember {
  rm_ConfigDir : string;
  rm_WeaverID : string;
  rm_GenerationID : string;
}.

Record poolRestartHost := mkPoolHost {
  rh_HostID : string;
  rh_HostGeneration : string;
  rh_PID : Z;
  rh_BasisFingerprint : string;
  rh_Members : list poolRestartMember;
}.

(** A nil slice is [None]. *)
Record poolRestartRecord := mkPoolRecord {
  pr_Format : string;
  pr_JVMPool : string;
  pr_State : string;
  pr_TransitionID : string;
  pr_UpdatedAt : string;
  pr_MembershipRevision : string;
  pr_OldGenerationStopped : bool;
  pr_AdmittedHost : option poolRestartHost;
  pr_PreviousHost : option poolRestartHost;
  pr_RegisteredMembers : option (list string);
  pr_PendingMembers : option (list string);
  pr_Probe : option restartProbeResult;
  pr_Failure : option restartFailure;
}.

Definition registered (r : poolRestartRecord) : list string := default [] (pr_RegisteredMembers r).
Definition pending (r : poolRestartRecord) : list string := default [] (pr_PendingMembers r).

Inductive pool_error :=
| PoolWriterOwned
| PoolRequiresUpdated
| PoolFormat
| PoolFieldBlank
| PoolUnknownState (s : string)
| PoolPath (label : string) (i : nat)
| PoolDuplicate (label value : string)
| PoolUnsorted (label : string)
| PoolHostInvalid (label : string) (e : pool_error)
| HostFieldBlank
| HostPID
| HostBasis
| HostNoMembers
| HostMember (i : nat)
| PoolSets
| PoolNeedsHost
| PoolProbe (e : restart_error)
| PoolFailure
| PoolContradictory (s : string)
| PoolUnknownField
| PoolMissingField
| PoolNull (key : string)
| PoolNotJSON
| PoolOther (pool : string)
| PoolRecordPath
| PoolIO (e : string).

(** ** Validation *)

Definition canonical (path : string) : bool :=
  negb (bool_decide (path = "")) && IsAbs path && bool_decide (Clean path = path).

(** The entry at [i] is after the one before it. *)
Definition in_order {A} (dir : A → string) (l : list A) (i : nat) (x : A) : bool :=
  match i with
  | 0 => true
  | S j => match l !! j with Some y => str_ltb (dir y) (dir x) | None => true end
  end.

Definition seen {A} (dir : A → string) (l : list A) (i : nat) (x : A) : bool :=
  bool_decide (dir x ∈ dir <$> take i l).

Definition validateCanonicalPoolDirs (label : string) (values : list string) : result pool_error unit :=
  check_from (λ i v,
    ensure (canonical v) (PoolPath label i) ;;
    ensure (negb (seen id values i v)) (PoolDuplicate label v) ;;
    ensure (in_order id values i v) (PoolUnsorted label)) 0 values.

Definition validatePoolRestartHost (host : option poolRestartHost) : result pool_error unit :=
  match host with
  | None => Ok tt
  | Some h =>
      ensure (negb (is_blank (rh_HostID h) || is_blank (rh_HostGeneration h)
                    || is_blank (rh_BasisFingerprint h))) HostFieldBlank ;;
      ensure (0 <? rh_PID h)%Z HostPID ;;
      ensure (validBasisFingerprint (rh_BasisFingerprint h)) HostBasis ;;
      ensure (negb (bool_decide (rh_Members h = []))) HostNoMembers ;;
      check_from (λ i m,
        ensure (canonical (rm_ConfigDir m) && negb (is_blank (rm_WeaverID m))
                && negb (is_blank (rm_GenerationID m))) (HostMember i) ;;
        ensure (negb (seen rm_ConfigDir (rh_Members h) i m)) (PoolDuplicate "members" (rm_ConfigDir m)) ;;
        ensure (in_order rm_ConfigDir (rh_Members h) i m) (PoolUnsorted "members")) 0 (rh_Members h)
  end.

Definition setOf (values : list string) : gset string := list_to_set values.
Definition hostMemberSet (h : poolRestartHost) : gset string := setOf (rm_ConfigDir <$> rh_Members h).
Definition equalSets (left right : gset string) : bool :=
  bool_decide (left ⊆ right) && bool_decide (right ⊆ left).

Definition validatePoolRestartSetRelations (r : poolRestartRecord) : result pool_error unit :=
  let reg := setOf (registered r) in
  let pend := setOf (pending r) in
  match pr_AdmittedHost r with
  | Some h => ensure (bool_decide (hostMemberSet h ⊆ reg)
                      && equalSets pend (reg ∖ hostMemberSet h)) PoolSets
  | None => Ok tt
  end ;;
  match pr_PreviousHost r with
  | Some h =>
      ensure (bool_decide (hostMemberSet h ⊆ reg)) PoolSets ;;
      ensure (negb (is_none (pr_AdmittedHost r)) || equalSets pend (reg ∖ hostMemberSet h)) PoolSets
  | None => ensure (negb (is_none (pr_AdmittedHost r))) PoolNeedsHost
  end.

Definition probe_ok (r : poolRestartRecord) : bool :=
  match pr_Probe r with Some p => p_Success p | None => false end.

Definition failure_ok (f : restartFailure) : bool :=
  negb (is_blank (f_Stage f) || is_blank (f_Message f))
  && negb (blank_but_set (f_LogPath f)) && negb (blank_but_set (f_ExitEvidence f)).

(** The last switch of [validatePoolRestartRecord]. *)
Definition validate_pool_state (r : poolRestartRecord) : result pool_error unit :=
  let admitted := negb (is_none (pr_AdmittedHost r)) in
  let previous := negb (is_none (pr_PreviousHost r)) in
  let contradictory := PoolContradictory (pr_State r) in
  match parse_state (pr_State r) with
  | Some Probing =>
      ensure (negb (negb admitted || previous || pr_OldGenerationStopped r
                    || negb (is_none (pr_Failure r)))) contradictory ;;
      ensure (negb (negb (is_none (pr_Probe r)) && negb (probe_ok r))) contradictory
  | Some Restarting =>
      ensure (negb (admitted || negb previous || negb (is_none (pr_Failure r)) || negb (probe_ok r)))
        contradictory
  | Some RunningState =>
      ensure admitted contradictory ;;
      if negb previous then
        ensure (negb (pr_OldGenerationStopped r)) contradictory ;;
        match pr_Failure r with
        | None => ensure (is_none (pr_Probe r) && bool_decide (pending r = [])) contradictory
        | Some f => ensure (bool_decide (f_Stage f = "probe") && negb (is_none (pr_Probe r))
                            && negb (probe_ok r)) contradictory
        end
      else
        ensure (probe_ok r && pr_OldGenerationStopped r && bool_decide (pending r = [])) contradictory ;;
        ensure (is_none (pr_Failure r)) contradictory
  | Some FailedState =>
      ensure (negb (admitted || negb previous || negb (probe_ok r) || is_none (pr_Failure r)))
        contradictory
  | None => Ok tt
  end.

Definition host_error {A} (label : string) (r : result pool_error A) : result pool_error A :=
  match r with Ok a => Ok a | Err e => Err (PoolHostInvalid label e) end.

Definition validatePoolRestartRecord (r : poolRestartRecord) (fromDisk : bool) : result pool_error unit :=
  ensure (bool_decide (pr_Format r = poolRestartRecordFormat)) PoolFormat ;;
  ensure (negb (is_blank (pr_JVMPool r) || is_blank (pr_TransitionID r)
                || is_blank (pr_MembershipRevision r))) PoolFieldBlank ;;
  ensure (negb (fromDisk && is_blank (pr_UpdatedAt r))) PoolFieldBlank ;;
  ensure (bool_decide (is_Some (parse_state (pr_State r)))) (PoolUnknownState (pr_State r)) ;;
  validateCanonicalPoolDirs "registered_members" (registered r) ;;
  validateCanonicalPoolDirs "pending_members" (pending r) ;;
  host_error "admitted_host" (validatePoolRestartHost (pr_AdmittedHost r)) ;;
  host_error "previous_host" (validatePoolRestartHost (pr_PreviousHost r)) ;;
  validatePoolRestartSetRelations r ;;
  match pr_Probe r with
  | Some p => match validate p with Ok _ => Ok tt | Err e => Err (PoolProbe e) end
  | None => Ok tt
  end ;;
  match pr_Failure r with Some f => ensure (failure_ok f) PoolFailure | None => Ok tt end ;;
  validate_pool_state r.

Definition validatePoolRestartRecordForWrite (r : poolRestartRecord) : result pool_error unit :=
  ensure (bool_decide (pr_UpdatedAt r = "")) PoolWriterOwned ;;
  validatePoolRestartRecord r false.

Definition validatePoolRestartRecordFromDisk (r : poolRestartRecord) : result pool_error unit :=
  ensure (negb (is_blank (pr_UpdatedAt r))) PoolRequiresUpdated ;;
  validatePoolRestartRecord r true.

(** ** JSON *)

Definition member_fields : list string := ["config_dir"; "weaver_id"; "generation_id"].
Definition host_fields : list string :=
  ["host_id"; "host_generation_id"; "pid"; "basis_fingerprint"; "members"].
Definition pool_fields : list string :=
  ["format"; "jvm_pool"; "state"; "transition_id"; "updated_at"; "membership_revision";
   "old_generation_stopped"; "admitted_host"; "previous_host"; "registered_members";
   "pending_members"; "probe"; "failure"].

Definition encode_pool_member (m : poolRestartMember) : object :=
  json_object [("config_dir", Some (AString (rm_ConfigDir m))); ("weaver_id", Some (AString (rm_WeaverID m)));
               ("generation_id", Some (AString (rm_GenerationID m)))].

Definition encode_pool_host (h : poolRestartHost) : object :=
  json_object [("host_id", Some (AString (rh_HostID h)));
               ("host_generation_id", Some (AString (rh_HostGeneration h)));
               ("pid", Some (ANumber (pretty (rh_PID h))));
               ("basis_fingerprint", Some (AString (rh_BasisFingerprint h)));
               ("members", Some (AArray ((AObject ∘ encode_pool_member) <$> rh_Members h)))].

(** A pointer: null for nil. *)
Definition json_pointer {A} (f : A → object) (o : option A) : any :=
  match o with Some a => AObject (f a) | None => ANil end.

Definition encode_pool_record (r : poolRestartRecord) : object :=
  json_object
    [("format", Some (AString (pr_Format r))); ("jvm_pool", Some (AString (pr_JVMPool r)));
     ("state", Some (AString (pr_State r))); ("transition_id", Some (AString (pr_TransitionID r)));
     ("updated_at", Some (AString (pr_UpdatedAt r)));
     ("membership_revision", Some (AString (pr_MembershipRevision r)));
     ("old_generation_stopped", Some (ABool (pr_OldGenerationStopped r)));
     ("admitted_host", Some (json_pointer encode_pool_host (pr_AdmittedHost r)));
     ("previous_host", Some (json_pointer encode_pool_host (pr_PreviousHost r)));
     ("registered_members", Some (json_strings (pr_RegisteredMembers r)));
     ("pending_members", Some (json_strings (pr_PendingMembers r)));
     ("probe", Some (json_pointer encode_probe (pr_Probe r)));
     ("failure", Some (json_pointer encode_failure (pr_Failure r)))].

Definition dec_int (v : option any) : option Z :=
  match v with
  | None | Some ANil => Some 0%Z
  | Some (ANumber n) => Atoi n
  | _ => None
  end.

(** An element of the slice of members: null leaves the zero value. *)
Definition dec_pool_member (v : any) : option poolRestartMember :=
  match v with
  | ANil => Some (mkPoolMember "" "" "")
  | AObject m =>
      dir ← dec_string (field "config_dir" m);
      weaver ← dec_string (field "weaver_id" m);
      generation ← dec_string (field "generation_id" m);
      Some (mkPoolMember dir weaver generation)
  | _ => None
  end.

Definition dec_pool_members (v : option any) : option (list poolRestartMember) :=
  match v with
  | None | Some ANil => Some []
  | Some (AArray l) => mapM dec_pool_member l
  | _ => None
  end.

Definition read_pool_host (m : object) : option poolRestartHost :=
  id ← dec_string (field "host_id" m);
  generation ← dec_string (field "host_generation_id" m);
  pid ← dec_int (field "pid" m);
  basis ← dec_string (field "basis_fingerprint" m);
  members ← dec_pool_members (field "members" m);
  Some (mkPoolHost id generation pid basis members).

(** [json.Unmarshal] into a pointer to a struct that [read] fills. *)
Definition dec_pointer {A} (read : object → option A) (v : option any) : option (option A) :=
  match v with
  | None | Some ANil => Some None
  | Some (AObject m) => Some <$> read m
  | _ => None
  end.

(** The first decoding of the record; the pointers are decoded again. *)
Definition dec_pool_record (m : object) : option poolRestartRecord :=
  format ← dec_string (field "format" m);
  pool ← dec_string (field "jvm_pool" m);
  state ← dec_string (field "state" m);
  transition ← dec_string (field "transition_id" m);
  updated ← dec_string (field "updated_at" m);
  revision ← dec_string (field "membership_revision" m);
  stopped ← dec_bool (field "old_generation_stopped" m);
  admitted ← dec_pointer read_pool_host (field "admitted_host" m);
  previous ← dec_pointer read_pool_host (field "previous_host" m);
  reg ← dec_strings (field "registered_members" m);
  pend ← dec_strings (field "pending_members" m);
  probe ← dec_pointer read_probe (field "probe" m);
  failure ← dec_pointer read_failure (field "failure" m);
  Some (mkPoolRecord format pool state transition updated revision stopped admitted previous reg pend
          probe failure).

Definition is_null (v : option any) : bool := match v with Some ANil => true | _ => false end.

(** The keys are exactly the expected ones. *)
Definition exact_keys (expected : list string) (m : object) : result pool_error unit :=
  ensure (only_keys expected m) PoolUnknownField ;;
  ensure (forallb (λ key, present key m) expected) PoolMissingField.

Definition required_fields : list string :=
  ["format"; "jvm_pool"; "state"; "transition_id"; "updated_at"; "membership_revision";
   "registered_members"; "pending_members"; "old_generation_stopped"].

Definition decodePoolRestartRequiredFields (raw : object) : result pool_error unit :=
  check_each (λ key, ensure (negb (is_null (raw !! key))) (PoolNull key)) required_fields.

Definition decodePoolRestartMember (v : any) : result pool_error poolRestartMember :=
  match v with
  | AObject m =>
      ensure (only_keys member_fields m) PoolUnknownField ;;
      ensure (forallb (λ key, present key m && negb (is_null (m !! key))) member_fields) PoolMissingField ;;
      match dec_pool_member v with Some r => Ok r | None => Err PoolNotJSON end
  | _ => Err PoolNotJSON
  end.

Fixpoint decode_pool_members (l : list any) : result pool_error (list poolRestartMember) :=
  match l with
  | [] => Ok []
  | v :: l => m ← decodePoolRestartMember v; ms ← decode_pool_members l; Ok (m :: ms)
  end.

Definition with_host_members (ms : list poolRestartMember) (h : poolRestartHost) : poolRestartHost :=
  mkPoolHost (rh_HostID h) (rh_HostGeneration h) (rh_PID h) (rh_BasisFingerprint h) ms.

Definition decodePoolRestartHost (v : option any) : result pool_error (option poolRestartHost) :=
  match v with
  | Some ANil => Ok None
  | Some (AObject m) =>
      exact_keys host_fields m ;;
      match read_pool_host m with
      | None => Err PoolNotJSON
      | Some h =>
          ms ← match m !! "members" with
               | Some (AArray l) => decode_pool_members l
               | Some ANil => Ok []
               | _ => Err PoolNotJSON
               end;
          let h := with_host_members ms h in
          validatePoolRestartHost (Some h) ;;
          Ok (Some h)
      end
  | _ => Err PoolNotJSON
  end.

Definition decodePoolRestartProbe (v : option any) : result pool_error (option restartProbeResult) :=
  match v with
  | Some ANil => Ok None
  | _ => match decodeRestartProbe v with Ok p => Ok (Some p) | Err e => Err (PoolProbe e) end
  end.

Definition decodePoolRestartFailure (v : option any) : result pool_error (option restartFailure) :=
  match v with
  | Some ANil => Ok None
  | Some (AObject m) =>
      ensure (only_keys failure_fields m) PoolUnknownField ;;
      ensure (forallb (λ key, present key m && negb (is_null (m !! key))) ["stage"; "message"])
        PoolMissingField ;;
      ensure (forallb (λ key, negb (is_null (m !! key))) ["log_path"; "exit_evidence"]) (PoolNull "") ;;
      match read_failure m with Some f => Ok (Some f) | None => Err PoolNotJSON end
  | _ => Err PoolNotJSON
  end.

(** ** The file *)

Definition with_pool_updated (now : string) (r : poolRestartRecord) : poolRestartRecord :=
  mkPoolRecord (pr_Format r) (pr_JVMPool r) (pr_State r) (pr_TransitionID r) now
    (pr_MembershipRevision r) (pr_OldGenerationStopped r) (pr_AdmittedHost r) (pr_PreviousHost r)
    (pr_RegisteredMembers r) (pr_PendingMembers r) (pr_Probe r) (pr_Failure r).

(** [atomicPoolJSON]: the first error of the directory, the temporary file and the
    rename leaves the file as it was. *)
Definition atomicPoolJSON (io : option string) (value : object) : ST disk pool_error unit := λ d,
  match io with
  | Some e => (d, Err (PoolIO e))
  | None => (JSONFile (AObject value), Ok tt)
  end.

Definition writePoolRestartRecord (now : string) (io : option string) (r : poolRestartRecord)
    : ST disk pool_error unit := λ d,
  match validatePoolRestartRecordForWrite r with
  | Err e => (d, Err e)
  | Ok _ => atomicPoolJSON io (encode_pool_record (with_pool_updated now r)) d
  end.

Section reading.
Context (sha256 : list ascii → list Z).

Definition validatePoolRestartPath (path pool : string) : result pool_error unit :=
  ensure (negb (is_blank path) && IsAbs path && bool_decide (Clean path = path)) PoolRecordPath ;;
  ensure (bool_decide (Base path = poolRestartRecordFile)) PoolRecordPath ;;
  match JvmPool.ValidateArtifactKey sha256 pool (Base (Dir path)) with
  | Ok _ => Ok tt
  | Err _ => Err PoolRecordPath
  end ;;
  ensure (bool_decide (Base (Dir (Dir path)) = "hosts")
          && bool_decide (Base (Dir (Dir (Dir path))) = "jvm-pools")) PoolRecordPath.

Definition with_pointers (admitted previous : option poolRestartHost) (probe : option restartProbeResult)
    (failure : option restartFailure) (r : poolRestartRecord) : poolRestartRecord :=
  mkPoolRecord (pr_Format r) (pr_JVMPool r) (pr_State r) (pr_TransitionID r) (pr_UpdatedAt r)
    (pr_MembershipRevision r) (pr_OldGenerationStopped r) admitted previous
    (pr_RegisteredMembers r) (pr_PendingMembers r) probe failure.

(** [Ok None] is an absent file; [io] an error of the reading other than absence. *)
Definition readPoolRestartRecord (path pool : string) (io : option string) (d : disk)
    : result pool_error (option poolRestartRecord) :=
  validatePoolRestartPath path pool ;;
  match io, d with
  | Some e, _ => Err (PoolIO e)
  | None, NoFile => Ok None
  | None, JSONFile (AObject raw) =>
      exact_keys pool_fields raw ;;
      decodePoolRestartRequiredFields raw ;;
      match dec_pool_record raw with
      | None => Err PoolNotJSON
      | Some r =>
          ensure (bool_decide (pr_JVMPool r = pool)) (PoolOther (pr_JVMPool r)) ;;
          admitted ← host_error "admitted_host" (decodePoolRestartHost (raw !! "admitted_host"));
          previous ← host_error "previous_host" (decodePoolRestartHost (raw !! "previous_host"));
          probe ← decodePoolRestartProbe (raw !! "probe");
          failure ← decodePoolRestartFailure (raw !! "failure");
          let r := with_pointers admitted previous probe failure r in
          validatePoolRestartRecordFromDisk r ;;
          Ok (Some r)
      end
  | None, _ => Err PoolNotJSON
  end.
End reading.

(** ** The cache of the summary *)

Definition compactPoolRestartRecord (r : poolRestartRecord) : poolRestartRecord :=
  with_pointers (pr_AdmittedHost r) (pr_PreviousHost r) None (pr_Failure r) r.

Definition compact_read (r : result pool_error (option poolRestartRecord))
    : result pool_error (option poolRestartRecord) :=
  match r with Ok o => Ok (compactPoolRestartRecord <$> o) | Err e => Err e end.

Definition readPoolRestartRecordSummaryCached (sha256 : list ascii → list Z) (path pool : string)
    (stat : stat_answer) (io : option string) (d : disk)
    : gmap string (entry (E:=pool_error) (A:=poolRestartRecord)) →
      gmap string entry * result pool_error (option poolRestartRecord) :=
  cached_read PoolIO path stat (compact_read (readPoolRestartRecord sha256 path pool io d)).

(** ** Lemmas: ordered rows *)

Lemma Sorted_neighbours {A} (R : relation A) l :
  Sorted R l ↔ ∀ i a b, l !! i = Some a → l !! S i = Some b → R a b.
Proof.
  split.
  - induction 1 as [|x l Hs IH Hh]; intros i a b Ha Hb; [done|]. destruct i as [|i]; [|by eapply IH].
    cbn in Ha, Hb. injection Ha as ->. destruct l as [|y l]; [done|]. cbn in Hb. injection Hb as ->.
    by inversion Hh.
  - induction l as [|x l IH]; intros H; constructor.
    + apply IH. intros i a b Ha Hb. by apply (H (S i) a b).
    + destruct l as [|y l]; constructor. by apply (H 0 x y).
Qed.

Lemma StronglySorted_lookup_lt {A} (R : relation A) l i j a b :
  StronglySorted R l → l !! i = Some a → l !! j = Some b → i < j → R a b.
Proof.
  intros Hs. revert i j. induction Hs as [|x l Hs IH Hx]; intros i j Ha Hb Hij; [done|].
  destruct j as [|j]; [lia|]. cbn in Hb. destruct i as [|i]; cbn in Ha.
  - injection Ha as ->. rewrite Forall_forall in Hx. apply Hx. by eapply list_elem_of_lookup_2.
  - eapply IH; [done|done|lia].
Qed.

#[global] Instance str_lt_trans : Transitive str_lt.
Proof. intros a b c. apply str_ltb_trans. Qed.

Lemma ordered_rows {A} (dir : A → string) l :
  (∀ i x, l !! i = Some x → seen dir l i x = false ∧ in_order dir l i x = true) ↔
  StronglySorted str_lt (dir <$> l).
Proof.
  split.
  - intros H. apply Sorted_StronglySorted; [exact str_lt_trans|]. apply Sorted_neighbours. intros i a b Ha Hb.
    apply list_lookup_fmap_Some in Ha as (x & -> & Hx). apply list_lookup_fmap_Some in Hb as (y & -> & Hy).
    destruct (H _ _ Hy) as [_ Ho]. cbn in Ho. by rewrite Hx in Ho.
  - intros Hs i x Hx. split.
    + apply bool_decide_eq_false. intros (j & Hj)%list_elem_of_lookup.
      apply list_lookup_fmap_Some in Hj as (y & E & Hy). apply lookup_take_Some in Hy as [Hy Hlt].
      assert (str_lt (dir y) (dir x)) as H.
      { apply (StronglySorted_lookup_lt _ _ j i _ _ Hs); rewrite ?list_lookup_fmap, ?Hy, ?Hx; done. }
      rewrite E in H. unfold str_lt in H. by rewrite str_ltb_irrefl in H.
    + destruct i as [|i]; [done|]. cbn. destruct (l !! i) as [y|] eqn:Hy; [|done].
      apply (StronglySorted_lookup_lt _ _ i (S i) _ _ Hs); rewrite ?list_lookup_fmap, ?Hy, ?Hx; done || lia.
Qed.

(** A loop that checks every row and its place. *)
Lemma check_rows {A} (dir : A → string) (good : A → bool) (l : list A) {E} (e1 : nat → A → E) e2 e3 :
  check_from (λ i x, ensure (good x) (e1 i x) ;;
                     ensure (negb (seen dir l i x)) (e2 x) ;;
                     ensure (in_order dir l i x) e3) 0 l = Ok tt ↔
  forallb good l = true ∧ StronglySorted str_lt (dir <$> l).
Proof.
  rewrite <-ordered_rows, forallb_forall, check_from_ok. cbn. split.
  - intros H. split.
    + intros x (i & Hi)%list_elem_of_In%list_elem_of_lookup. specialize (H i x Hi). by inv_ok.
    + intros i x Hi. specialize (H i x Hi). inv_ok. by bools.
  - intros [Hg Ho] i x Hi. destruct (Ho i x Hi) as [-> ->]. rewrite Hg; [done|].
    apply list_elem_of_In. by eapply list_elem_of_lookup_2.
Qed.

(** ** What a valid record is *)

Definition ordered_dirs (l : list string) : Prop :=
  forallb canonical l = true ∧ StronglySorted str_lt l.

Lemma validateCanonicalPoolDirs_ok label l :
  validateCanonicalPoolDirs label l = Ok tt ↔ ordered_dirs l.
Proof.
  unfold validateCanonicalPoolDirs, ordered_dirs.
  rewrite (check_rows id canonical l (λ i _, PoolPath label i) (PoolDuplicate label) (PoolUnsorted label)).
  by rewrite list_fmap_id.
Qed.

Definition member_ok (m : poolRestartMember) : bool :=
  canonical (rm_ConfigDir m) && negb (is_blank (rm_WeaverID m)) && negb (is_blank (rm_GenerationID m)).

Record valid_host (h : poolRestartHost) : Prop := {
  vh_ids : is_blank (rh_HostID h) = false ∧ is_blank (rh_HostGeneration h) = false;
  vh_pid : (0 < rh_PID h)%Z;
  vh_basis : validBasisFingerprint (rh_BasisFingerprint h) = true;
  vh_members : rh_Members h ≠ [] ∧ forallb member_ok (rh_Members h) = true ∧
               StronglySorted str_lt (rm_ConfigDir <$> rh_Members h);
}.

Lemma basis_not_blank b : validBasisFingerprint b = true → is_blank b = false.
Proof.
  intros H. unfold validBasisFingerprint in H. bools. destruct b as [|c b]; [done|].
  apply nonblank_head. assert (HasPrefix (String c b) "sha256:" = true) as Hp by done.
  unfold HasPrefix in Hp. cbn [String.prefix] in Hp. by destruct (ascii_dec "s" c) as [<-|].
Qed.

Lemma validatePoolRestartHost_ok h : validatePoolRestartHost (Some h) = Ok tt ↔ valid_host h.
Proof.
  unfold validatePoolRestartHost. split.
  - intros H. inv_ok. bools.
    match goal with H : check_from _ _ _ = Ok _ |- _ =>
      apply (check_rows rm_ConfigDir member_ok _ (λ i _, HostMember i)) in H end.
    split; try done. by apply Z.ltb_lt.
  - intros [[H1 H2] H3 H4 (H5 & H6 & H7)]. rewrite H1, H2, (basis_not_blank _ H4), H4.
    apply Z.ltb_lt in H3. rewrite H3, bool_decide_eq_false_2 by done. cbn.
    apply (check_rows rm_ConfigDir member_ok _ (λ i _, HostMember i)). by split.
Qed.

(** The host whose members the other registered members wait for. *)
Definition reference_host (r : poolRestartRecord) : option poolRestartHost :=
  match pr_AdmittedHost r with Some h => Some h | None => pr_PreviousHost r end.

(** What each state of a pool's restart promises about the other fields. *)
Definition pool_shape (st : restart_state) (r : poolRestartRecord) : Prop :=
  match st with
  | Probing =>
      is_Some (pr_AdmittedHost r) ∧ pr_PreviousHost r = None ∧ pr_OldGenerationStopped r = false ∧
      pr_Failure r = None ∧ (is_Some (pr_Probe r) → probe_ok r = true)
  | Restarting =>
      pr_AdmittedHost r = None ∧ is_Some (pr_PreviousHost r) ∧ pr_Failure r = None ∧ probe_ok r = true
  | RunningState =>
      is_Some (pr_AdmittedHost r) ∧
      ((pr_PreviousHost r = None ∧ pr_OldGenerationStopped r = false ∧
        (pr_Failure r = None ∧ pr_Probe r = None ∧ pending r = [] ∨
         ∃ f p, pr_Failure r = Some f ∧ f_Stage f = "probe" ∧ pr_Probe r = Some p ∧ p_Success p = false)) ∨
       (is_Some (pr_PreviousHost r) ∧ pr_OldGenerationStopped r = true ∧ pr_Failure r = None ∧
        probe_ok r = true ∧ pending r = []))
  | FailedState =>
      pr_AdmittedHost r = None ∧ is_Some (pr_PreviousHost r) ∧ is_Some (pr_Failure r) ∧ probe_ok r = true
  end.

Record valid_pool_record (r : poolRestartRecord) : Prop := {
  vp_format : pr_Format r = poolRestartRecordFormat;
  vp_ids : is_blank (pr_JVMPool r) = false ∧ is_blank (pr_TransitionID r) = false ∧
           is_blank (pr_MembershipRevision r) = false;
  vp_dirs : ordered_dirs (registered r) ∧ ordered_dirs (pending r);
  vp_hosts : ∀ h, pr_AdmittedHost r = Some h ∨ pr_PreviousHost r = Some h →
    valid_host h ∧ hostMemberSet h ⊆ setOf (registered r);
  vp_pending : ∃ h, reference_host r = Some h ∧
    setOf (pending r) = setOf (registered r) ∖ hostMemberSet h;
  vp_probe : ∀ p, pr_Probe r = Some p → validate p = Ok tt;
  vp_failure : ∀ f, pr_Failure r = Some f → failure_ok f = true;
  vp_state : ∃ st, pr_State r = state_name st ∧ pool_shape st r;
}.

Lemma equalSets_eq a b : equalSets a b = true ↔ a = b.
Proof. unfold equalSets. rewrite andb_true_iff, !bool_decide_eq_true. set_solver. Qed.

Lemma is_none_false {A} (o : option A) : is_none o = false ↔ is_Some o.
Proof. destruct o; cbn; split; naive_solver. Qed.

Lemma is_none_true {A} (o : option A) : is_none o = true ↔ o = None.
Proof. by destruct o. Qed.

Lemma relations_ok r :
  validatePoolRestartSetRelations r = Ok tt ↔
  (∀ h, pr_AdmittedHost r = Some h ∨ pr_PreviousHost r = Some h →
     hostMemberSet h ⊆ setOf (registered r)) ∧
  ∃ h, reference_host r = Some h ∧ setOf (pending r) = setOf (registered r) ∖ hostMemberSet h.
Proof.
  unfold validatePoolRestartSetRelations, reference_host.
  destruct (pr_AdmittedHost r) as [a|], (pr_PreviousHost r) as [p|]; cbn [is_none negb orb];
    (split; [intros H; inv_ok; bools|intros [Hsub (h & Hh & Hp)]; try discriminate Hh; injection Hh as <-]);
    repeat match goal with H : equalSets _ _ = true |- _ => apply equalSets_eq in H end.
  - split; [|by eexists]. intros h [[= <-]|[= <-]]; done.
  - rewrite !bool_decide_eq_true_2 by auto. cbn. by rewrite (proj2 (equalSets_eq _ _) Hp).
  - split; [|by eexists]. intros h [[= <-]|[=]]; done.
  - rewrite bool_decide_eq_true_2 by auto. cbn. by rewrite (proj2 (equalSets_eq _ _) Hp).
  - split; [|by eexists]. intros h [[=]|[= <-]]; done.
  - rewrite bool_decide_eq_true_2 by auto. cbn. by rewrite (proj2 (equalSets_eq _ _) Hp).
  - done.
Qed.

Ltac unpack :=
  repeat match goal with
  | H : _ ∧ _ |- _ => destruct H
  | H : _ ∨ _ |- _ => destruct H
  | H : ∃ _, _ |- _ => destruct H
  | H : is_Some None |- _ => destruct H; discriminate
  | H : is_Some (Some _) → _ |- _ => specialize (H ltac:(by eexists))
  | _ => progress simplify_eq
  end.

Lemma pool_state_ok r st :
  parse_state (pr_State r) = Some st → validate_pool_state r = Ok tt ↔ pool_shape st r.
Proof.
  intros Hst. unfold validate_pool_state. rewrite Hst. unfold pool_shape, probe_ok.
  generalize (PoolContradictory (pr_State r)) as e; intros e.
  destruct st, (pr_AdmittedHost r) as [a|], (pr_PreviousHost r) as [p|], (pr_OldGenerationStopped r),
    (pr_Probe r) as [q|], (pr_Failure r) as [f|]; cbn;
    try (destruct (p_Success q) eqn:Hq); cbn;
    (split;
      [intros H; try discriminate H; inv_ok; bools; try discriminate;
       split_and?; try done; try (by eexists); try (intros [? [=]])
      |intros H; unpack; try done; try congruence; by rewrite bool_decide_eq_true_2]).
  - right. by split_and!; [eexists|..].
  - left. split_and!; [done..|]. right. by exists f, q.
  - left. split_and!; [done..|]. by left.
Qed.

Lemma pool_record_ok r fromDisk :
  validatePoolRestartRecord r fromDisk = Ok tt ↔
  valid_pool_record r ∧ (fromDisk = true → is_blank (pr_UpdatedAt r) = false).
Proof.
  unfold validatePoolRestartRecord. split.
  - intros H. inv_ok.
    repeat match goal with
    | H : host_error _ ?r = Ok _ |- _ =>
        let E := fresh in destruct r as [[]|] eqn:E; [clear H|discriminate H]
    | H : validateCanonicalPoolDirs _ _ = Ok _ |- _ => apply validateCanonicalPoolDirs_ok in H
    | H : validatePoolRestartSetRelations _ = Ok _ |- _ => apply relations_ok in H as [? ?]
    | H : bool_decide (is_Some (parse_state _)) = true |- _ => apply bool_decide_eq_true in H as [st Hst]
    end.
    match goal with H : validate_pool_state _ = Ok _ |- _ => apply (pool_state_ok _ _ Hst) in H end.
    bools. split; [|intros ->; by bools]. split; try done.
    + intros h Hh. split; [|auto]. apply validatePoolRestartHost_ok. destruct Hh as [E|E]; by rewrite E in *.
    + intros p Hp. rewrite Hp in *. by destruct (validate p) as [[]|].
    + intros f Hf. rewrite Hf in *. by inv_ok.
    + exists st. split; [by apply parse_state_name|done].
  - intros [[H1 (H2 & H3 & H4) [H5 H6] H7 H8 H9 H10 (st & Hst & Hsh)] Hu].
    rewrite (bool_decide_eq_true_2 _ H1), H2, H3, H4. cbn.
    assert (fromDisk && is_blank (pr_UpdatedAt r) = false) as -> by (destruct fromDisk; [by apply Hu|done]).
    assert (parse_state (pr_State r) = Some st) as Hp by (by rewrite Hst, parse_state_self).
    rewrite (bool_decide_eq_true_2 (is_Some _)) by (rewrite Hp; by eexists). cbn.
    rewrite (proj2 (validateCanonicalPoolDirs_ok _ _) H5), (proj2 (validateCanonicalPoolDirs_ok _ _) H6). cbn.
    assert (∀ label o, (∀ h, o = Some h → valid_host h) → host_error label (validatePoolRestartHost o) = Ok tt)
      as Hhost.
    { intros label [h|] Hh; [|done]. by rewrite (proj2 (validatePoolRestartHost_ok h) (Hh h eq_refl)). }
    rewrite !Hhost by naive_solver. cbn. rewrite (proj2 (relations_ok r)) by naive_solver. cbn.
    assert (match pr_Probe r with
            | Some p => match validate p with Ok _ => Ok tt | Err e => Err (PoolProbe e) end
            | None => Ok tt end = Ok tt) as -> by (destruct (pr_Probe r) as [p|]; [by rewrite H9|done]).
    assert (match pr_Failure r with Some f => ensure (failure_ok f) PoolFailure | None => Ok tt end = Ok tt)
      as -> by (destruct (pr_Failure r) as [f|]; [by rewrite H10|done]).
    cbn. by apply (pool_state_ok r st).
Qed.

(** A record passes validation exactly when it is of its format, has its identities,
    lists of canonical, strictly ordered directories and well-formed hosts of
    registered members, when the pending members are the registered ones that the
    admitted host, or else the previous one, does not have, its probe and its failure
    are complete, and its state has its shape: a probing record has an admitted host
    only, a restarting one a previous host and a successful probe, a failed one a
    failure besides; a running record has an admitted host and either no history, a
    refused probe, or a completed cutover from the previous host. *)
Theorem validatePoolRestartRecord_exact r fromDisk :
  validatePoolRestartRecord r fromDisk = Ok tt ↔
  valid_pool_record r ∧ (fromDisk = true → is_blank (pr_UpdatedAt r) = false).
Proof. apply pool_record_ok. Qed.

(** ** Lemmas: numbers *)

Lemma digit_of_pretty x : (x < 10)%N → digit_of (pretty_N_char x) = Some (Z.of_N x).
Proof.
  intros H. assert (x = 0 ∨ x = 1 ∨ x = 2 ∨ x = 3 ∨ x = 4 ∨ x = 5 ∨ x = 6 ∨ x = 7 ∨ x = 8 ∨ x = 9)%N as Hx by lia.
  repeat destruct Hx as [->|Hx]; by subst.
Qed.

Lemma digits_pretty x s :
  digits_value 0 (bytes_of (pretty_N_go x s)) = digits_value (Z.of_N x) (bytes_of s).
Proof.
  revert s. induction (N.lt_wf_0 x) as [x _ IH]; intros s.
  destruct (decide (x = 0)%N) as [->|Hx]; [by rewrite pretty_N_go_0|].
  rewrite pretty_N_go_step by lia. rewrite IH by (apply N.div_lt; lia).
  unfold bytes_of. cbn [String.list_ascii_of_string digits_value].
  rewrite digit_of_pretty by (by apply N.mod_lt). cbn [mbind option_bind].
  f_equal. pose proof (N.div_mod x 10 ltac:(done)). lia.
Qed.

(** An [int] of the program is read back as it was written. *)
Lemma Atoi_pretty z : (0 < z < 2 ^ 63)%Z → Atoi (pretty z) = Some z.
Proof.
  intros Hz. destruct z as [|p|p]; [lia| |lia].
  change (pretty (Zpos p)) with (pretty (Npos p)). unfold pretty, pretty_N.
  rewrite decide_False by done.
  assert (∀ c l, bytes_of (pretty_N_go (Npos p) "") = c :: l → c ≠ "-"%char ∧ c ≠ "+"%char) as Hc.
  { intros c l E. pose proof (digits_pretty (Npos p) "") as H. rewrite E in H. cbn in H.
    split; intros ->; discriminate H. }
  unfold Atoi. pose proof (digits_pretty (Npos p) "") as H.
  destruct (bytes_of (pretty_N_go (N.pos p) "")) as [|c l] eqn:E; [discriminate H|].
  destruct (Hc c l eq_refl) as [H1 H2].
  rewrite (bool_decide_eq_false_2 _ H1), (bool_decide_eq_false_2 _ H2), H. cbn [mbind option_bind].
  cbn [digits_value bytes_of String.list_ascii_of_string]. change (Z.of_N (N.pos p)) with (Z.pos p).
  cbn [mbind option_bind]. assert ((- 2 ^ 63 <=? Z.pos p)%Z && (Z.pos p <? 2 ^ 63)%Z = true) as -> by (apply andb_true_intro; lia). done.
Qed.

(** ** Lemmas: reading what was written *)

Lemma only_keys_encoded names l :
  forallb (λ k, bool_decide (k ∈ names)) l.*1 = true → only_keys names (json_object l) = true.
Proof.
  rewrite forallb_forall. intros H. apply forallb_forall. intros [k v] Hin%list_elem_of_In.
  apply elem_of_map_to_list in Hin. apply H, list_elem_of_In, json_object_keys. cbn. by rewrite Hin.
Qed.

Lemma present_encoded k v l : NoDup l.*1 → (k, Some v) ∈ l → present k (json_object l) = true.
Proof. intros Hn Hin. unfold present. by rewrite (lookup_json_object l k (Some v)). Qed.

Ltac json_lookup := erewrite lookup_json_object; [|names_ok|json_member].

Lemma decode_encoded_member m :
  decodePoolRestartMember (AObject (encode_pool_member m)) = Ok m.
Proof.
  unfold decodePoolRestartMember. cbn beta iota.
  assert (only_keys member_fields (encode_pool_member m) = true) as -> by (apply only_keys_encoded; by vm_compute).
  cbn [ensure mbind result_bind].
  assert (forallb (λ key, present key (encode_pool_member m) && negb (is_null (encode_pool_member m !! key)))
            member_fields = true) as ->.
  { apply forallb_forall. intros k Hk%list_elem_of_In. unfold member_fields in Hk.
    rewrite !elem_of_cons in Hk. unfold present, encode_pool_member.
    destruct Hk as [->|[->|[->|Hk]]]; [json_lookup; done..|by apply elem_of_nil in Hk]. }
  cbn [ensure mbind result_bind]. unfold dec_pool_member, encode_pool_member. json_read. by destruct m.
Qed.

Lemma decode_encoded_members ms :
  decode_pool_members ((AObject ∘ encode_pool_member) <$> ms) = Ok ms.
Proof.
  induction ms as [|m ms IH]; [done|]. cbn [fmap list_fmap decode_pool_members compose].
  rewrite decode_encoded_member. cbn [mbind result_bind]. by rewrite IH.
Qed.

Lemma dec_encoded_members ms :
  dec_pool_members (Some (AArray ((AObject ∘ encode_pool_member) <$> ms))) = Some ms.
Proof.
  cbn [dec_pool_members]. apply (mapM_fmap_Some dec_pool_member (AObject ∘ encode_pool_member)).
  intros m. cbn. unfold encode_pool_member. json_read. by destruct m.
Qed.

Lemma read_encoded_host h : (0 < rh_PID h < 2 ^ 63)%Z → read_pool_host (encode_pool_host h) = Some h.
Proof.
  intros Hp. unfold read_pool_host, encode_pool_host. json_read.
  rewrite dec_encoded_members. cbn [dec_int dec_string mbind option_bind]. rewrite Atoi_pretty by done. by destruct h.
Qed.

(** The process ids are [int]s. *)
Definition int_pid (h : poolRestartHost) : Prop := (rh_PID h < 2 ^ 63)%Z.

Lemma decode_encoded_host o :
  (∀ h, o = Some h → valid_host h ∧ int_pid h) →
  decodePoolRestartHost (Some (json_pointer encode_pool_host o)) = Ok o.
Proof.
  destruct o as [h|]; [|done]. intros H. destruct (H h eq_refl) as [Hv Hp]. destruct Hv as [Hi Hpid Hb Hm].
  cbn [json_pointer decodePoolRestartHost]. unfold exact_keys.
  assert (only_keys host_fields (encode_pool_host h) = true) as -> by (apply only_keys_encoded; by vm_compute).
  cbn [ensure mbind result_bind].
  assert (forallb (λ key, present key (encode_pool_host h)) host_fields = true) as ->.
  { apply forallb_forall. intros k Hk%list_elem_of_In. unfold host_fields in Hk.
    rewrite !elem_of_cons in Hk. unfold present, encode_pool_host.
    destruct Hk as [->|[->|[->|[->|[->|Hk]]]]]; [json_lookup; done..|by apply elem_of_nil in Hk]. }
  cbn [ensure mbind result_bind]. rewrite read_encoded_host by done.
  assert (encode_pool_host h !! "members" = Some (AArray ((AObject ∘ encode_pool_member) <$> rh_Members h))) as ->
    by (unfold encode_pool_host; by json_lookup).
  rewrite decode_encoded_members. cbn [mbind result_bind].
  assert (with_host_members (rh_Members h) h = h) as -> by (by destruct h).
  by rewrite (proj2 (validatePoolRestartHost_ok h)).
Qed.

Lemma decode_encoded_probe o :
  (∀ p, o = Some p → validate p = Ok tt ∧ is_Some (p_Completed p) ∧ is_Some (p_Diagnostics p)) →
  decodePoolRestartProbe (Some (json_pointer encode_probe o)) = Ok o.
Proof.
  destruct o as [p|]; [|done]. intros H. destruct (H p eq_refl) as (Hv & Hc & Hd).
  cbn [json_pointer decodePoolRestartProbe].
  by rewrite (proj2 (decodeRestartProbe_roundtrip None p) Hv Hc Hd).
Qed.

Lemma decode_encoded_failure o :
  decodePoolRestartFailure (Some (json_pointer encode_failure o)) = Ok o.
Proof.
  destruct o as [f|]; [|done]. cbn [json_pointer decodePoolRestartFailure].
  assert (only_keys failure_fields (encode_failure f) = true) as -> by (apply only_keys_encoded; by vm_compute).
  cbn [ensure mbind result_bind].
  assert (forallb (λ key, present key (encode_failure f) && negb (is_null (encode_failure f !! key)))
            ["stage"; "message"] = true) as ->.
  { apply forallb_forall. intros k Hk%list_elem_of_In. rewrite !elem_of_cons in Hk. unfold present, encode_failure.
    destruct Hk as [->|[->|Hk]]; [json_lookup; done..|by apply elem_of_nil in Hk]. }
  assert (forallb (λ key, negb (is_null (encode_failure f !! key))) ["log_path"; "exit_evidence"] = true) as ->.
  { apply forallb_forall. intros k Hk%list_elem_of_In. rewrite !elem_of_cons in Hk. unfold encode_failure.
    destruct Hk as [->|[->|Hk]]; [json_lookup; unfold omit_string; by case_bool_decide..|by apply elem_of_nil in Hk]. }
  cbn [ensure mbind result_bind]. by rewrite read_encode_failure.
Qed.

Lemma dec_encoded_record r :
  (∀ h, pr_AdmittedHost r = Some h ∨ pr_PreviousHost r = Some h → valid_host h ∧ int_pid h) →
  dec_pool_record (encode_pool_record r) = Some r.
Proof.
  intros Hh. unfold dec_pool_record, encode_pool_record. json_read.
  assert (∀ o, (∀ h, o = Some h → valid_host h ∧ int_pid h) →
    dec_pointer read_pool_host (Some (json_pointer encode_pool_host o)) = Some o) as Hhost.
  { intros [h|] H; [|done]. destruct (H h eq_refl) as [[_ Hp _ _] Hi]. cbn [json_pointer dec_pointer]. by rewrite read_encoded_host. }
  assert (∀ o, dec_pointer read_probe (Some (json_pointer encode_probe o)) = Some o) as Hprobe.
  { intros [p|]; [|done]. cbn [json_pointer dec_pointer]. by rewrite read_encode_probe. }
  assert (∀ o, dec_pointer read_failure (Some (json_pointer encode_failure o)) = Some o) as Hfailure.
  { intros [f|]; [|done]. cbn [json_pointer dec_pointer]. by rewrite read_encode_failure. }
  rewrite !Hhost, Hprobe, Hfailure, !dec_strings_json by auto. cbn. by destruct r.
Qed.

(** What a record must have to be read back: its lists and those of its probe are not
    nil, and its process ids are [int]s. *)
Record readable_record (r : poolRestartRecord) : Prop := {
  rr_lists : is_Some (pr_RegisteredMembers r) ∧ is_Some (pr_PendingMembers r);
  rr_probe : ∀ p, pr_Probe r = Some p → is_Some (p_Completed p) ∧ is_Some (p_Diagnostics p);
  rr_pids : ∀ h, pr_AdmittedHost r = Some h ∨ pr_PreviousHost r = Some h → int_pid h;
}.

Lemma valid_pool_updated now r : valid_pool_record r → valid_pool_record (with_pool_updated now r).
Proof. by intros []. Qed.

Lemma read_encoded_record sha256 path pool r :
  validatePoolRestartPath sha256 path pool = Ok tt → pr_JVMPool r = pool →
  is_blank (pr_UpdatedAt r) = false → valid_pool_record r → readable_record r →
  readPoolRestartRecord sha256 path pool None (JSONFile (AObject (encode_pool_record r))) = Ok (Some r).
Proof.
  intros Hpath <- Hu Hv [[[reg Hreg] [pend Hpend]] Hprobe Hpids].
  assert (∀ h, pr_AdmittedHost r = Some h ∨ pr_PreviousHost r = Some h → valid_host h ∧ int_pid h) as Hh.
  { intros h Hin. split; [|by apply Hpids]. by apply (vp_hosts r Hv). }
  unfold readPoolRestartRecord. rewrite Hpath. cbn [mbind result_bind]. unfold exact_keys.
  assert (only_keys pool_fields (encode_pool_record r) = true) as -> by (apply only_keys_encoded; by vm_compute).
  assert (forallb (λ key, present key (encode_pool_record r)) pool_fields = true) as ->.
  { apply forallb_forall. intros k Hk%list_elem_of_In. unfold pool_fields in Hk.
    rewrite !elem_of_cons in Hk. unfold present, encode_pool_record.
    repeat (destruct Hk as [->|Hk]; [by json_lookup|]). by apply elem_of_nil in Hk. }
  cbn [ensure mbind result_bind].
  assert (decodePoolRestartRequiredFields (encode_pool_record r) = Ok tt) as ->.
  { apply check_each_ok. unfold encode_pool_record.
    repeat (apply Forall_cons; split; [json_lookup; by rewrite ?Hreg, ?Hpend|]). by apply Forall_nil. }
  cbn [ensure mbind result_bind]. rewrite dec_encoded_record by done.
  rewrite bool_decide_eq_true_2 by done. cbn [ensure mbind result_bind].
  assert (encode_pool_record r !! "admitted_host" = Some (json_pointer encode_pool_host (pr_AdmittedHost r))) as ->
    by (unfold encode_pool_record; by json_lookup).
  assert (encode_pool_record r !! "previous_host" = Some (json_pointer encode_pool_host (pr_PreviousHost r))) as ->
    by (unfold encode_pool_record; by json_lookup).
  assert (encode_pool_record r !! "probe" = Some (json_pointer encode_probe (pr_Probe r))) as ->
    by (unfold encode_pool_record; by json_lookup).
  assert (encode_pool_record r !! "failure" = Some (json_pointer encode_failure (pr_Failure r))) as ->
    by (unfold encode_pool_record; by json_lookup).
  rewrite !decode_encoded_host by auto. cbn [host_error mbind result_bind].
  rewrite decode_encoded_probe by (intros p Hp; split; [by apply (vp_probe r Hv)|by apply Hprobe]).
  rewrite decode_encoded_failure. cbn [mbind result_bind].
  assert (with_pointers (pr_AdmittedHost r) (pr_PreviousHost r) (pr_Probe r) (pr_Failure r) r = r) as ->
    by (by destruct r).
  unfold validatePoolRestartRecordFromDisk. rewrite Hu. cbn [negb ensure mbind result_bind].
  by rewrite (proj2 (pool_record_ok r true)).
Qed.

(** A record that was written is read back as it was, with the time of the writing;
    a refused or failed writing leaves the file as it was. *)
Theorem pool_record_roundtrip sha256 path pool now io r d :
  validatePoolRestartPath sha256 path pool = Ok tt → pr_JVMPool r = pool → is_blank now = false →
  readable_record r →
  match writePoolRestartRecord now io r d with
  | (d', Ok _) => readPoolRestartRecord sha256 path pool None d' = Ok (Some (with_pool_updated now r))
  | (d', Err _) => d' = d
  end.
Proof.
  intros Hpath Hpool Hn [H1 H2 H3]. unfold writePoolRestartRecord, atomicPoolJSON.
  destruct (validatePoolRestartRecordForWrite r) as [u|e] eqn:Hv; [|done]. destruct io; [done|].
  unfold validatePoolRestartRecordForWrite in Hv. destruct u. inv_ok.
  match goal with H : validatePoolRestartRecord r false = _ |- _ =>
    apply pool_record_ok in H as [Hval _] end.
  apply read_encoded_record; [done..|by apply valid_pool_updated|by split].
Qed.

(** ** The summary cache *)

(** One reading of a summary: what the file system holds and answers then. *)
Record summary_read := mkSummary {
  sr_path : string; sr_pool : string; sr_stat : stat_answer; sr_io : option string; sr_disk : disk;
}.

Definition direct_read (sha256 : list ascii → list Z) (k : summary_read)
    : result pool_error (option poolRestartRecord) :=
  compact_read (readPoolRestartRecord sha256 (sr_path k) (sr_pool k) (sr_io k) (sr_disk k)).

Definition fresh_summary (sha256 : list ascii → list Z) (k : summary_read)
    : result pool_error (option poolRestartRecord) :=
  match sr_stat k with
  | StatMissing => Ok None
  | StatFailed e => Err (PoolIO e)
  | StatInfo _ => direct_read sha256 k
  end.

Fixpoint pool_summaries (sha256 : list ascii → list Z) (h : list summary_read)
    (c : gmap string (entry (E:=pool_error) (A:=poolRestartRecord))) :=
  match h with
  | [] => []
  | k :: h =>
      let '(c, r) := readPoolRestartRecordSummaryCached sha256 (sr_path k) (sr_pool k) (sr_stat k)
                       (sr_io k) (sr_disk k) c in
      r :: pool_summaries sha256 h c
  end.

(** A file of one identity, size and time of modification has one content, and is read
    for one pool. *)
Definition one_content (h : list summary_read) : Prop :=
  ∀ k k' i, k ∈ h → k' ∈ h → sr_path k = sr_path k' → sr_stat k = StatInfo i → sr_stat k' = StatInfo i →
    sr_pool k = sr_pool k' ∧ sr_io k = sr_io k' ∧ sr_disk k = sr_disk k'.

Definition summary_call (sha256 : list ascii → list Z) (k : summary_read)
    : call (E:=pool_error) (A:=poolRestartRecord) :=
  (sr_path k, sr_stat k, direct_read sha256 k).

Lemma pool_summaries_cached sha256 h c :
  pool_summaries sha256 h c = cached_reads PoolIO (summary_call sha256 <$> h) c.
Proof.
  revert c. induction h as [|k h IH]; intros c; [done|]. cbn [pool_summaries fmap list_fmap cached_reads].
  unfold summary_call at 1. unfold readPoolRestartRecordSummaryCached, direct_read.
  destruct (cached_read _ _ _ _ _) as [c' r]. by rewrite IH.
Qed.

(** The summaries that the cache answers are those that reading the files would give. *)
Theorem pool_summary_cache sha256 h :
  one_content h → pool_summaries sha256 h ∅ = fresh_summary sha256 <$> h.
Proof.
  intros Hone. rewrite pool_summaries_cached.
  rewrite (cached_reads_uncached PoolIO (summary_call sha256 <$> h)); [|..|done].
  - rewrite <-list_fmap_compose. apply list_fmap_ext. intros i k Hk. cbn. unfold uncached, fresh_summary. cbn.
    by destruct (sr_stat k).
  - intros path i r r' (k & [= -> Hs ->] & Hk)%list_elem_of_fmap (k' & [= Hp Hs' ->] & Hk')%list_elem_of_fmap.
    destruct (Hone k k' i Hk Hk' Hp (eq_sym Hs) (eq_sym Hs')) as (H1 & H2 & H3).
    unfold direct_read. by rewrite Hp, H1, H2, H3.
  - intros path i r H. by rewrite lookup_empty in H.
Qed.

(** ** Examples *)

Definition sample_digest (l : list ascii) : list Z :=
  repeat (default 0%Z ((λ c, Z.of_N (Ascii.N_of_ascii c)) <$> last l)) 32.

Definition sample_path : string := "/s/jvm-pools/hosts/" +:+ JvmPool.ArtifactKey sample_digest "a" +:+ "/restart.json".

Definition sample_pool_record : poolRestartRecord :=
  mkPoolRecord poolRestartRecordFormat "a" "running" "transition-1" "" "membership-1" false
    (Some (mkPoolHost "host-1" "generation-1" 42 sample_basis [mkPoolMember "/w" "weaver-1" "generation-2"]))
    None (Some ["/w"]) (Some []) None None.

Definition sample_file : disk := (writePoolRestartRecord "now" None sample_pool_record NoFile).1.

(** The cache does not ask for which pool it read a file: a reading for another pool
    fails, and its failure answers for the right one. *)
Theorem summary_cache_ignores_pool :
  ∃ path pool other d i,
    is_ok (fresh_summary sample_digest (mkSummary path pool (StatInfo i) None d)) = true ∧
    is_ok <$> pool_summaries sample_digest
      [mkSummary path other (StatInfo i) None d; mkSummary path pool (StatInfo i) None d] ∅
    = [false; false].
Proof. exists sample_path, "a", "b", sample_file, (mkInfo 1 1 1). split; by vm_compute. Qed.

Lemma pool_record_roundtrip_witness :
  readPoolRestartRecord sample_digest sample_path "a" None sample_file
  = Ok (Some (with_pool_updated "now" sample_pool_record)).
Proof.
  assert (validatePoolRestartPath sample_digest sample_path "a" = Ok tt) as H1 by (by vm_compute).
  assert (readable_record sample_pool_record) as H2.
  { split; [by split; eexists|by intros p|]. intros h [[= <-]|[=]]. by vm_compute. }
  pose proof (pool_record_roundtrip sample_digest sample_path "a" "now" None sample_pool_record NoFile
    H1 eq_refl ltac:(by vm_compute) H2) as H.
  change sample_file with (writePoolRestartRecord "now" None sample_pool_record NoFile).1.
  destruct (writePoolRestartRecord "now" None sample_pool_record NoFile) as [d' [u|e]] eqn:E; [exact H|].
  exfalso. revert E. by vm_compute.
Defined.

Lemma pool_summary_cache_witness :
  pool_summaries sample_digest
    [mkSummary sample_path "a" (StatInfo (mkInfo 1 1 1)) None sample_file;
     mkSummary sample_path "a" StatMissing None NoFile] ∅
  = [Ok (Some (with_pool_updated "now" sample_pool_record)); Ok None].
Proof.
  rewrite (pool_summary_cache sample_digest); [by vm_compute|].
  intros k k' i Hk Hk' _ Hs Hs'. rewrite !elem_of_cons in Hk, Hk'.
  destruct Hk as [->|[->|Hk]]; [|discriminate Hs|by apply elem_of_nil in Hk].
  destruct Hk' as [->|[->|Hk']]; [done|discriminate Hs'|by apply elem_of_nil in Hk'].
Defined.
