(* ===== verification/PoolHost.v ===== *)
(** The host of a JVM pool (src/cli/cmd/mill/pool_host.go, and the statuses of
    pool_status.go): the manifest that launches it, the marker it publishes when it is
    ready, the admission of a host whose members have all proved themselves, and the
    status of a member. A file holds the JSON document it decodes to. *)

From S2P Require Export PoolRecord.

(** ** Data *)

Definition poolLaunchFormat : string := "millstrand.jvm-pool-launch/v1".
Definition poolReadyFormat : string := "millstrand.jvm-pool-ready/v1".

Definition zero_identity : weaverIdentity := mkIdentity 0 "" "" "" "" "" "" "".

Record poolMember := mkPMember {
  pm_World : world;
  pm_SourceCWD : string;
  pm_Name : string;
  pm_WeaverID : string;
  pm_GenerationID : string;
  pm_MemberBasis : string;
  pm_Identity : weaverIdentity;
}.

Definition pm_ConfigDir (m : poolMember) : string := ConfigDir (pm_World m).

(** [wh_cmd] says whether the host has a process that was started or found. *)
Record weaverHost := mkHost {
  wh_Pool : string;
  wh_HostID : string;
  wh_HostGenerationID : string;
  wh_BasisFingerprint : string;
  wh_MembershipRev : string;
  wh_cmd : bool;
  wh_PID : Z;
  wh_LaunchToken : string;
  wh_Members : list poolMember;
  wh_Allowances : gmap string world;
  wh_ReadyPath : string;
  wh_ManifestPath : string;
  wh_LogPath : string;
  wh_PoolRestartPath : string;
  wh_Live : bool;
}.

Record poolLaunchMember := mkLMember {
  lm_ConfigDir : string; lm_SourceCWD : string; lm_StateDir : string; lm_DataDir : string;
  lm_Name : string; lm_WeaverID : string; lm_GenerationID : string; lm_DependencyDiagnostic : string;
}.

Record poolLaunchManifest := mkManifest {
  mf_Format : string; mf_JVMPool : string; mf_HostID : string; mf_HostGenerationID : string;
  mf_MembershipRevision : string; mf_PoolRestartPath : string; mf_MillstrandSource : string;
  mf_MillstrandVersion : string; mf_Members : list poolLaunchMember;
}.

Record poolReadyMember := mkYMember {
  ym_ConfigDir : string; ym_WeaverID : string; ym_GenerationID : string; ym_SocketPath : string;
  ym_NREPLHost : string; ym_NREPLPort : Z;
}.

Record poolReadyMarker := mkReady {
  rd_Format : string; rd_JVMPool : string; rd_HostID : string; rd_HostGenerationID : string;
  rd_MembershipRevision : string; rd_PID : Z; rd_BasisFingerprint : string;
  rd_Members : list poolReadyMember;
}.

Inductive host_file_error :=
| HFIO
| HFDecode
| HFIdentity
| HFPath
| HFNoMembers
| HFMember (i : nat)
| HFDuplicate (dir : string)
| HFUnsorted.

(** ** Validation *)

Definition abs_clean (path : string) : bool := IsAbs path && bool_decide (Clean path = path).

Definition nonempty (l : list string) : bool := forallb (λ s, negb (bool_decide (s = ""))) l.
Definition nonblank (l : list string) : bool := forallb (λ s, negb (is_blank s)) l.

Definition launch_member_ok (m : poolLaunchMember) : bool :=
  nonempty [lm_ConfigDir m; lm_SourceCWD m; lm_StateDir m; lm_DataDir m; lm_Name m; lm_WeaverID m;
            lm_GenerationID m; lm_DependencyDiagnostic m]
  && abs_clean (lm_ConfigDir m) && IsAbs (lm_SourceCWD m).

Definition launch_paths_ok (m : poolLaunchMember) : bool :=
  forallb abs_clean [lm_ConfigDir m; lm_SourceCWD m; lm_StateDir m; lm_DataDir m; lm_DependencyDiagnostic m].

Definition validatePoolLaunchManifest (m : poolLaunchManifest) : result host_file_error unit :=
  ensure (bool_decide (mf_Format m = poolLaunchFormat)
          && nonblank [mf_JVMPool m; mf_HostID m; mf_HostGenerationID m; mf_MembershipRevision m;
                       mf_PoolRestartPath m; mf_MillstrandSource m; mf_MillstrandVersion m]) HFIdentity ;;
  ensure (forallb abs_clean [mf_PoolRestartPath m; mf_MillstrandSource m]) HFPath ;;
  ensure (negb (bool_decide (mf_Members m = []))) HFNoMembers ;;
  check_from (λ i x,
    ensure (launch_member_ok x && launch_paths_ok x) (HFMember i) ;;
    ensure (negb (seen lm_ConfigDir (mf_Members m) i x)) (HFDuplicate (lm_ConfigDir x)) ;;
    ensure (in_order lm_ConfigDir (mf_Members m) i x) HFUnsorted) 0 (mf_Members m).

Definition ready_member_ok (m : poolReadyMember) : bool :=
  nonempty [ym_ConfigDir m; ym_WeaverID m; ym_GenerationID m; ym_SocketPath m; ym_NREPLHost m]
  && (0 <? ym_NREPLPort m)%Z.

Definition validatePoolReady (m : poolReadyMarker) : result host_file_error unit :=
  ensure (bool_decide (rd_Format m = poolReadyFormat)
          && nonblank [rd_JVMPool m; rd_HostID m; rd_HostGenerationID m; rd_MembershipRevision m]
          && (0 <? rd_PID m)%Z && validBasisFingerprint (rd_BasisFingerprint m)
          && negb (bool_decide (rd_Members m = []))) HFIdentity ;;
  check_from (λ i x,
    ensure (ready_member_ok x && negb (seen ym_ConfigDir (rd_Members m) i x)) (HFMember i) ;;
    ensure (in_order ym_ConfigDir (rd_Members m) i x) HFUnsorted) 0 (rd_Members m).

(** ** The files *)

Definition known_fields (names : list string) (l : list (string * doc)) : bool :=
  forallb (λ kv, bool_decide (fold_name kv.1 ∈ names)) l.

Definition launch_member_fields : list string :=
  ["config_dir"; "source_cwd"; "state_dir"; "data_dir"; "name"; "weaver_id"; "generation_id";
   "dependency_diagnostic"].
Definition manifest_fields : list string :=
  ["format"; "jvm_pool"; "host_id"; "host_generation_id"; "membership_revision"; "pool_restart_path";
   "millstrand_source"; "millstrand_version"; "members"].
Definition ready_member_fields : list string :=
  ["config_dir"; "weaver_id"; "generation_id"; "socket_path"; "nrepl_host"; "nrepl_port"].
Definition ready_fields : list string :=
  ["format"; "jvm_pool"; "host_id"; "host_generation_id"; "membership_revision"; "pid";
   "basis_fingerprint"; "members"].

Definition zero_launch_member : poolLaunchMember := mkLMember "" "" "" "" "" "" "" "".

Definition decode_launch_member (m : poolLaunchMember) (d : doc) : option poolLaunchMember :=
  match d with
  | DObject l =>
      let str get name := string_from (get m) (field_values name l) in
      if known_fields launch_member_fields l then
        a ← str lm_ConfigDir "config_dir"; b ← str lm_SourceCWD "source_cwd";
        c ← str lm_StateDir "state_dir"; d ← str lm_DataDir "data_dir"; e ← str lm_Name "name";
        f ← str lm_WeaverID "weaver_id"; g ← str lm_GenerationID "generation_id";
        h ← str lm_DependencyDiagnostic "dependency_diagnostic";
        Some (mkLMember a b c d e f g h)
      else None
  | DNull => Some m
  | _ => None
  end.

Definition decode_manifest (d : doc) : option poolLaunchManifest :=
  match d with
  | DObject l =>
      let str name := string_field (field_values name l) in
      if known_fields manifest_fields l then
        a ← str "format"; b ← str "jvm_pool"; c ← str "host_id"; d ← str "host_generation_id";
        e ← str "membership_revision"; f ← str "pool_restart_path"; g ← str "millstrand_source";
        h ← str "millstrand_version";
        ms ← slice_field zero_launch_member decode_launch_member (field_values "members" l);
        Some (mkManifest a b c d e f g h ms)
      else None
  | DNull => Some (mkManifest "" "" "" "" "" "" "" "" [])
  | _ => None
  end.

Definition zero_ready_member : poolReadyMember := mkYMember "" "" "" "" "" 0.

Definition decode_ready_member (m : poolReadyMember) (d : doc) : option poolReadyMember :=
  match d with
  | DObject l =>
      let str get name := string_from (get m) (field_values name l) in
      if known_fields ready_member_fields l then
        a ← str ym_ConfigDir "config_dir"; b ← str ym_WeaverID "weaver_id";
        c ← str ym_GenerationID "generation_id"; d ← str ym_SocketPath "socket_path";
        e ← str ym_NREPLHost "nrepl_host"; p ← int_from (ym_NREPLPort m) (field_values "nrepl_port" l);
        Some (mkYMember a b c d e p)
      else None
  | DNull => Some m
  | _ => None
  end.

Definition decode_ready (d : doc) : option poolReadyMarker :=
  match d with
  | DObject l =>
      let str name := string_field (field_values name l) in
      if known_fields ready_fields l then
        a ← str "format"; b ← str "jvm_pool"; c ← str "host_id"; d ← str "host_generation_id";
        e ← str "membership_revision"; p ← int_field (field_values "pid" l); f ← str "basis_fingerprint";
        ms ← slice_field zero_ready_member decode_ready_member (field_values "members" l);
        Some (mkReady a b c d e p f ms)
      else None
  | DNull => Some (mkReady "" "" "" "" "" 0 "" [])
  | _ => None
  end.

(** An absent file is [Ok None]; so is what [os.IsNotExist] says of the error. *)
Definition read_file {A} (decode : doc → option A) (check : A → result host_file_error unit)
    (file : option held) : result host_file_error (option A) :=
  match file with
  | None => Ok None
  | Some Unreadable => Err HFIO
  | Some (Holds d) =>
      match d ≫= decode with
      | None => Err HFDecode
      | Some a => check a ;; Ok (Some a)
      end
  end.

Definition readPoolLaunchManifest : option held → result host_file_error (option poolLaunchManifest) :=
  read_file decode_manifest validatePoolLaunchManifest.

Definition readPoolReady : option held → result host_file_error (option poolReadyMarker) :=
  read_file decode_ready validatePoolReady.

Definition encode_launch_member (m : poolLaunchMember) : doc :=
  DObject [("config_dir", DString (lm_ConfigDir m)); ("source_cwd", DString (lm_SourceCWD m));
           ("state_dir", DString (lm_StateDir m)); ("data_dir", DString (lm_DataDir m));
           ("name", DString (lm_Name m)); ("weaver_id", DString (lm_WeaverID m));
           ("generation_id", DString (lm_GenerationID m));
           ("dependency_diagnostic", DString (lm_DependencyDiagnostic m))].

Definition encode_manifest (m : poolLaunchManifest) : doc :=
  DObject [("format", DString (mf_Format m)); ("jvm_pool", DString (mf_JVMPool m));
           ("host_id", DString (mf_HostID m)); ("host_generation_id", DString (mf_HostGenerationID m));
           ("membership_revision", DString (mf_MembershipRevision m));
           ("pool_restart_path", DString (mf_PoolRestartPath m));
           ("millstrand_source", DString (mf_MillstrandSource m));
           ("millstrand_version", DString (mf_MillstrandVersion m));
           ("members", DArray (encode_launch_member <$> mf_Members m))].

(** The first error of the directory, the temporary file and the rename leaves the
    file as it was. *)
Definition writePoolLaunchManifest (io_ok : bool) (path : string) (m : poolLaunchManifest)
    : ST files host_file_error unit := λ fs,
  match validatePoolLaunchManifest m with
  | Err e => (fs, Err e)
  | Ok _ => if io_ok then (<[path := Holds (Some (encode_manifest m))]> fs, Ok tt) else (fs, Err HFIO)
  end.

(** ** Admission *)

Inductive admission_error :=
| HostMissing
| MarkerMismatch
| ReadyIdentity (dir : string)
| NoStatus (dir : string)
| BadIdentity (dir : string) (e : identity_error)
| NotHostPID (dir : string)
| BasisMismatch (dir : string)
| RestartPathMismatch (dir : string)
| SocketIdentity (dir : string)
| EndpointProof (dir : string).

Definition poolHostHasMember (h : weaverHost) (configDir : string) : bool :=
  existsb (λ m, bool_decide (pm_ConfigDir m = configDir)) (wh_Members h).

Definition poolConfigDirs (ms : list poolMember) : list string := pm_ConfigDir <$> ms.

Section admission.
(** [processAlive], and whether the endpoint of an identity proves it: [runtimeStatus]. *)
Context (alive : Z → bool) (endpoint : weaverIdentity → bool).

(** The body of the loop, for one member, its row of the marker and its status. *)
Definition admit_member (h : weaverHost) (marker : poolReadyMarker) (expected : poolMember)
    (actual : poolReadyMember) (status : option object) : result admission_error unit :=
  let dir := pm_ConfigDir expected in
  ensure (bool_decide (ym_ConfigDir actual = dir) && bool_decide (ym_WeaverID actual = pm_WeaverID expected)
          && bool_decide (ym_GenerationID actual = pm_GenerationID expected)) (ReadyIdentity dir) ;;
  match status with
  | None => Err (NoStatus dir)
  | Some st =>
      match identityFromStatus st with
      | Err e => Err (BadIdentity dir e)
      | Ok id =>
          ensure (bool_decide (id_PID id = wh_PID h) && bool_decide (id_WeaverID id = pm_WeaverID expected)
                  && bool_decide (id_GenerationID id = pm_GenerationID expected)
                  && bool_decide (id_ConfigDir id = dir) && alive (id_PID id)) (NotHostPID dir) ;;
          ensure (bool_decide (as_text (st !! "jvm_pool") = Some (wh_Pool h))
                  && bool_decide (as_text (st !! "host_id") = Some (wh_HostID h))
                  && bool_decide (as_text (st !! "host_generation_id") = Some (wh_HostGenerationID h))
                  && bool_decide (as_text (st !! "basis_fingerprint") = Some (rd_BasisFingerprint marker))
                  && negb (bool_decide (as_text (st !! "member_basis_fingerprint") = Some "")))
            (BasisMismatch dir) ;;
          ensure (bool_decide (wh_PoolRestartPath h = "")
                  || bool_decide (as_text (st !! "pool_restart_path") = Some (wh_PoolRestartPath h)))
            (RestartPathMismatch dir) ;;
          ensure (bool_decide (ym_SocketPath actual = id_Socket id)) (SocketIdentity dir) ;;
          ensure (endpoint id) (EndpointProof dir)
      end
  end.

Definition validatePoolAdmission (host : option weaverHost) (marker : poolReadyMarker)
    (statuses : gmap string object) : result admission_error unit :=
  match host with
  | None => Err HostMissing
  | Some h =>
      ensure (bool_decide (rd_JVMPool marker = wh_Pool h) && bool_decide (rd_HostID marker = wh_HostID h)
              && bool_decide (rd_HostGenerationID marker = wh_HostGenerationID h)
              && bool_decide (rd_MembershipRevision marker = wh_MembershipRev h)
              && bool_decide (rd_PID marker = wh_PID h)
              && bool_decide (length (rd_Members marker) = length (wh_Members h))) MarkerMismatch ;;
      check_each (λ ea, admit_member h marker ea.1 ea.2 (statuses !! pm_ConfigDir ea.1))
        (zip (wh_Members h) (rd_Members marker))
  end.
End admission.

(** ** Statuses *)

(** A list of texts in a status. *)
Definition AStrings (l : list string) : any := AArray (AString <$> l).

Section statuses.
Context (eval_symlinks : string → option string) (probe : Z → bool) (quote : string → string).
Context (decode_text : string).

Definition host_fields_of (h : weaverHost) (m : poolMember) : list (string * any) :=
  [("jvm_pool", AString (wh_Pool h)); ("host_id", AString (wh_HostID h));
   ("host_generation_id", AString (wh_HostGenerationID h));
   ("registered_members", AStrings (poolConfigDirs (wh_Members h)));
   ("live_members", AStrings (poolConfigDirs (wh_Members h)));
   ("pending_members", AStrings []); ("restart_required", ABool false);
   ("member_basis_fingerprint", AString (pm_MemberBasis m));
   ("pool_restart_path", AString (wh_PoolRestartPath h))].

(** The assignments [status[key] = value], in order. *)
Definition assign (l : list (string * any)) (m : object) : object :=
  foldl (λ m kv, <[kv.1 := kv.2]> m) m l.

Definition poolStatusForMember (h : weaverHost) (configDir : string) (fs : files) : option object :=
  m ← head (filter (λ m, pm_ConfigDir m = configDir) (wh_Members h));
  let base := assign [("pid", AInt (wh_PID h)); ("weaver_id", AString (pm_WeaverID m));
                      ("generation_id", AString (pm_GenerationID m));
                      ("socket_path", AString (id_Socket (pm_Identity m)));
                      ("started_at", AString (id_StartedAt (pm_Identity m)))]
                (baseStatus (pm_World m) "running") in
  Some (assign (host_fields_of h m)
          (match readRuntimeStatus eval_symlinks probe quote decode_text (pm_World m) fs with
           | Some (status, false) => status
           | _ => base
           end)).
End statuses.

Definition snapshot_dirs (s : JvmPool.PoolSnapshot) : list string :=
  JvmPool.m_ConfigDir <$> JvmPool.ps_Members s.

(** The registered members that the host does not have. *)
Definition pending_dirs (h : weaverHost) (s : JvmPool.PoolSnapshot) : list string :=
  filter (λ d, d ∉ poolConfigDirs (wh_Members h)) (snapshot_dirs s).

Definition addPoolPending (h : weaverHost) (s : JvmPool.PoolSnapshot) (status : object) : object :=
  assign [("registered_members", AStrings (snapshot_dirs s));
          ("pending_members", AStrings (pending_dirs h s));
          ("restart_required", ABool (negb (bool_decide (pending_dirs h s = []))))] status.

(** The details of the error that asks for a restart. *)
Definition poolPendingError (h : weaverHost) (s : JvmPool.PoolSnapshot) (selected : string)
    : string * object :=
  ("mill/jvm-pool-restart-required",
   assign [("jvm_pool", AString (wh_Pool h)); ("selected_workspace", AString selected);
           ("live_members", AStrings (poolConfigDirs (wh_Members h)));
           ("pending_members", AStrings (pending_dirs h s)); ("host_pid", AInt (wh_PID h));
           ("host_generation_id", AString (wh_HostGenerationID h));
           ("restart_command", AString "mill weaver restart")] ∅).

Definition poolStatusForRegistered (w : world) (pool : string) (s : JvmPool.PoolSnapshot)
    (restart_path : string) : object :=
  assign [("jvm_pool", AString pool); ("registered_members", AStrings (snapshot_dirs s));
          ("live_members", AStrings []); ("pending_members", AStrings []);
          ("restart_required", ABool false); ("pool_restart_path", AString restart_path)]
    (baseStatus w "stopped").

(** The status of a registered member that the live host does not have. *)
Definition pendingStatus (w : world) (pool : string) (h : weaverHost) (s : JvmPool.PoolSnapshot) : object :=
  addPoolPending h s
    (assign [("jvm_pool", AString pool); ("pool_restart_path", AString (wh_PoolRestartPath h));
             ("live_members", AStrings (poolConfigDirs (wh_Members h)))] (baseStatus w "pending")).

Inductive coordinate_error := BadPool | BadPath.

Definition pooledRestartRecordCoordinates (status : object) : result coordinate_error (string * string) :=
  match as_text (status !! "jvm_pool") with
  | Some pool =>
      ensure (negb (is_blank pool)) BadPool ;;
      match as_text (status !! "pool_restart_path") with
      | Some path => ensure (negb (is_blank path)) BadPath ;; Ok (pool, path)
      | None => Err BadPath
      end
  | None => Err BadPool
  end.

Definition mergePoolRestartRecordStatus (r : poolRestartRecord) (details : bool) (status : object) : object :=
  let pending := bool_decide (text "state" status = "pending") in
  let status := if negb pending && negb (bool_decide (pr_State r = "running"))
                then <["state" := AString (pr_State r)]> status else status in
  let status := assign [("restart_state", AString (pr_State r)); ("transition_id", AString (pr_TransitionID r));
                        ("old_generation_stopped", ABool (pr_OldGenerationStopped r))] status in
  let status := match pr_Probe r with
                | Some p => if details then <["probe" := AProbe p]> status else status
                | None => status
                end in
  match pr_Failure r with
  | Some f =>
      assign [("restart_failure", AFailure f);
              ("diagnostics", AMaps [failure_row (f_Stage f) (failure_data (f_Message f) (f_LogPath f))])] status
  | None => status
  end.

(** [mergePooledCompactRestartStatus] and its detailed variant, by what the reading of
    the record at the status' coordinates answers. *)
Definition merge_read (details : bool) (text_of : pool_error + coordinate_error → string)
    (read : string → string → result pool_error (option poolRestartRecord)) (status : object) : object :=
  let failed e := assign [("state", AString "stale"); ("stale_reason", AString (text_of e))] status in
  match pooledRestartRecordCoordinates status with
  | Err e => failed (inr e)
  | Ok (pool, path) =>
      match read path pool with
      | Err e => failed (inl e)
      | Ok None => status
      | Ok (Some r) => mergePoolRestartRecordStatus r details status
      end
  end.

(** ** Lemmas: the files *)

(** The values of fields of an object that lists them. *)
Ltac field_lists :=
  repeat match goal with
  | |- context [field_values ?n ?l] =>
      let v := eval cbv in (field_values n l) in change (field_values n l) with v
  end.

Lemma decode_encoded_launch_member m :
  decode_launch_member zero_launch_member (encode_launch_member m) = Some m.
Proof.
  destruct m as [a b c d e f g h]. unfold encode_launch_member. cbn [decode_launch_member lm_ConfigDir
    lm_SourceCWD lm_StateDir lm_DataDir lm_Name lm_WeaverID lm_GenerationID lm_DependencyDiagnostic].
  field_lists. reflexivity.
Qed.

Lemma decode_encoded_launch_members ms :
  decode_elements zero_launch_member decode_launch_member [] (encode_launch_member <$> ms) = Some ms.
Proof.
  induction ms as [|m ms IH]; [done|]. cbn [fmap list_fmap decode_elements head tail default].
  rewrite decode_encoded_launch_member. cbn [mbind option_bind]. by rewrite IH.
Qed.

Lemma decode_encoded_manifest m : decode_manifest (encode_manifest m) = Some m.
Proof.
  destruct m as [a b c d e f g h ms]. unfold encode_manifest. cbn [mf_Members mf_Format mf_JVMPool mf_HostID
    mf_HostGenerationID mf_MembershipRevision mf_PoolRestartPath mf_MillstrandSource mf_MillstrandVersion].
  pose proof (decode_encoded_launch_members ms) as H. revert H. generalize (encode_launch_member <$> ms) as ds.
  intros ds H. cbn [decode_manifest]. field_lists.
  unfold slice_field. cbn [foldl mbind option_bind]. rewrite H. reflexivity.
Qed.

(** The manifest of a launch is read back as it was written, and nothing else changes;
    a manifest that is refused or not written leaves every file as it was. *)
Theorem launch_manifest_roundtrip io_ok path m fs :
  match writePoolLaunchManifest io_ok path m fs with
  | (fs', Ok _) =>
      readPoolLaunchManifest (fs' !! path) = Ok (Some m) ∧ ∀ p, p ≠ path → fs' !! p = fs !! p
  | (fs', Err _) => fs' = fs
  end.
Proof.
  unfold writePoolLaunchManifest. destruct (validatePoolLaunchManifest m) as [u|e] eqn:Hv; [|done].
  destruct io_ok; [|done]. split; [|by intros p Hp; rewrite lookup_insert_ne by done].
  rewrite lookup_insert_eq. unfold readPoolLaunchManifest, read_file. cbn [mbind option_bind].
  rewrite decode_encoded_manifest, Hv. done.
Qed.

(** ** Lemmas: admission *)

(** What proves a member of a host: its row of the marker and its published metadata
    name the identity that was launched, the host's process and its basis, and its
    endpoint answers for them. *)
Record member_proof (alive : Z → bool) (endpoint : weaverIdentity → bool) (h : weaverHost)
    (marker : poolReadyMarker) (m : poolMember) (row : poolReadyMember) (st : object)
    (id : weaverIdentity) : Prop := {
  mp_row : ym_ConfigDir row = pm_ConfigDir m ∧ ym_WeaverID row = pm_WeaverID m ∧
           ym_GenerationID row = pm_GenerationID m ∧ ym_SocketPath row = id_Socket id;
  mp_identity : identityFromStatus st = Ok id ∧ id_PID id = wh_PID h ∧ id_WeaverID id = pm_WeaverID m ∧
                id_GenerationID id = pm_GenerationID m ∧ id_ConfigDir id = pm_ConfigDir m;
  mp_alive : alive (wh_PID h) = true;
  mp_host : as_text (st !! "jvm_pool") = Some (wh_Pool h) ∧ as_text (st !! "host_id") = Some (wh_HostID h) ∧
            as_text (st !! "host_generation_id") = Some (wh_HostGenerationID h) ∧
            as_text (st !! "basis_fingerprint") = Some (rd_BasisFingerprint marker) ∧
            as_text (st !! "member_basis_fingerprint") ≠ Some "";
  mp_restart : wh_PoolRestartPath h = "" ∨ as_text (st !! "pool_restart_path") = Some (wh_PoolRestartPath h);
  mp_endpoint : endpoint id = true;
}.

Lemma admit_member_ok alive endpoint h marker m row status :
  admit_member alive endpoint h marker m row status = Ok tt ↔
  ∃ st id, status = Some st ∧ member_proof alive endpoint h marker m row st id.
Proof.
  unfold admit_member. split.
  - intros H. inv_ok. destruct status as [st|]; [|discriminate].
    destruct (identityFromStatus st) as [id|] eqn:Ei; [|discriminate]. inv_ok. bools.
    exists st, id. split; [done|]. split; try done; [congruence|].
    match goal with H : _ || _ = true |- _ => apply orb_true_iff in H as [H|H]; bools; auto end.
  - intros (st & id & -> & [(H1 & H2 & H3 & H4) (H5 & H6 & H7 & H8 & H9) H10 (H11 & H12 & H13 & H14 & H15) H16 H17]).
    rewrite H5, (bool_decide_eq_true_2 _ H1), (bool_decide_eq_true_2 _ H2), (bool_decide_eq_true_2 _ H3),
      (bool_decide_eq_true_2 _ H6), (bool_decide_eq_true_2 _ H7), (bool_decide_eq_true_2 _ H8),
      (bool_decide_eq_true_2 _ H9), (bool_decide_eq_true_2 _ H11), (bool_decide_eq_true_2 _ H12),
      (bool_decide_eq_true_2 _ H13), (bool_decide_eq_true_2 _ H14), (bool_decide_eq_true_2 _ H4), H6, H10. rewrite (bool_decide_eq_false_2 _ H15). cbn [andb negb ensure mbind result_bind].
    assert (bool_decide (wh_PoolRestartPath h = "")
            || bool_decide (as_text (st !! "pool_restart_path") = Some (wh_PoolRestartPath h)) = true) as ->.
    { destruct H16 as [E|E]; rewrite (bool_decide_eq_true_2 _ E); [done|apply orb_true_r]. }
    cbn [ensure mbind result_bind]. by rewrite H17.
Qed.

(** An admitted host is the one of the marker, and each of its members is proved. *)
Definition marker_names (h : weaverHost) (marker : poolReadyMarker) : Prop :=
  rd_JVMPool marker = wh_Pool h ∧ rd_HostID marker = wh_HostID h ∧
  rd_HostGenerationID marker = wh_HostGenerationID h ∧ rd_MembershipRevision marker = wh_MembershipRev h ∧
  rd_PID marker = wh_PID h ∧ length (rd_Members marker) = length (wh_Members h).

Definition admitted_by (alive : Z → bool) (endpoint : weaverIdentity → bool) (h : weaverHost)
    (marker : poolReadyMarker) (statuses : gmap string object) : Prop :=
  marker_names h marker ∧
  ∀ i m, wh_Members h !! i = Some m → ∃ row st id,
    rd_Members marker !! i = Some row ∧ statuses !! pm_ConfigDir m = Some st ∧
    member_proof alive endpoint h marker m row st id.

Lemma validatePoolAdmission_ok alive endpoint h marker statuses :
  validatePoolAdmission alive endpoint (Some h) marker statuses = Ok tt ↔
  admitted_by alive endpoint h marker statuses.
Proof.
  unfold validatePoolAdmission, admitted_by, marker_names. split.
  - intros H. inv_ok. bools. split; [by split_and!|]. intros i m Hm.
    match goal with H : check_each _ _ = _ |- _ => apply check_each_ok in H; rename H into Hc end.
    assert (is_Some (rd_Members marker !! i)) as [row Hrow].
    { apply lookup_lt_is_Some. replace (length (rd_Members marker)) with (length (wh_Members h)) by done.
      by eapply lookup_lt_Some. }
    rewrite Forall_lookup in Hc. specialize (Hc i (m, row)). cbn in Hc.
    apply admit_member_ok in Hc as (st & id & Hst & Hp); [by exists row, st, id|].
    apply lookup_zip_with_Some. by exists m, row.
  - intros [(H1 & H2 & H3 & H4 & H5 & H6) Hm]. rewrite !bool_decide_eq_true_2 by done.
    cbn [andb ensure mbind result_bind]. apply check_each_ok, Forall_lookup. intros i [m row] Hi.
    apply lookup_zip_with_Some in Hi as (m' & row' & [= <- <-] & Hm' & Hrow).
    destruct (Hm i m Hm') as (row' & st & id & Hrow' & Hst & Hp). simplify_eq.
    apply admit_member_ok. by exists st, id.
Qed.
