(* ===== verification/PoolProbe.v ===== *)
(** The probe of a pool's replacement (src/cli/cmd/mill/pool_probe.go): the manifest of
    private directories that the probe process gets, the validation of its result, and
    what a failed or successful probe leaves. The process itself, the links of the file
    system and the endpoints of the live members are answers given in advance; the
    copying of the members' configurations into their private directories is one. *)

From S2P Require Export PoolHost.
From S2P Require Import Paths.
From S2P Require Relay.

(** ** File paths *)

Definition words (p : string) : list (list ascii) :=
  filter (λ w, w ≠ []) (split_bytes slash (bytes_of p)).

Fixpoint strip_common (b t : list (list ascii)) : list (list ascii) * list (list ascii) :=
  match b, t with
  | x :: b', y :: t' => if bool_decide (x = y) then strip_common b' t' else (b, t)
  | _, _ => (b, t)
  end.

(** [filepath.Rel], on cleaned paths by their elements. *)
Definition Rel (basepath targpath : string) : option string :=
  let base := Clean basepath in
  let targ := Clean targpath in
  if bool_decide (targ = base) then Some "."
  else if negb (Bool.eqb (IsAbs base) (IsAbs targ)) then None
  else
    let '(b, t) := strip_common (if bool_decide (base = ".") then [] else words base) (words targ) in
    if bool_decide (head b = Some dotdot) && negb (bool_decide (t = [])) then None
    else Some (of_bytes (join_bytes [slash] (repeat dotdot (length b) ++ t))).

Definition pathBelow (root path : string) : bool :=
  match Rel root path with
  | Some rel => negb (bool_decide (rel = ".")) && negb (bool_decide (rel = ".."))
                && negb (HasPrefix rel "../") && negb (IsAbs rel)
  | None => false
  end.

Definition pathsOverlap (a b : string) : bool :=
  bool_decide (a = b) || pathBelow a b || pathBelow b a.

(** What [filepath.EvalSymlinks] answers. *)
Inductive eval_answer := EvalReal (path : string) | EvalMissing | EvalFailed.

Section canonical_paths.
Context (getwd : option string) (eval : string → eval_answer).

(** The loop, from the elements of the current path backwards; [missing] are the
    elements that were dropped. *)
Fixpoint climb (back : list (list ascii)) (missing : list string) : option string :=
  let current := rooted (reverse back) in
  match eval current with
  | EvalReal real => Some (Clean (foldl (λ p m, PathJoin [p; m]) real missing))
  | EvalFailed => None
  | EvalMissing =>
      match back with
      | [] => None
      | w :: back => climb back (of_bytes w :: missing)
      end
  end.

Definition canonicalProbePath (path : string) : option string :=
  if is_blank path then None
  else abs ← Abs getwd path; climb (reverse (words (Clean abs))) [].
End canonical_paths.

(** ** Data *)

Definition poolProbeFormat : string := "millstrand.jvm-pool-probe/v1".
Definition poolProbeResultFormat : string := "millstrand.jvm-pool-probe-result/v1".

Record poolProbeMember := mkProbeMember {
  bm_OriginalConfigDir : string; bm_OriginalSourceCWD : string; bm_ProbeConfigDir : string;
  bm_ProbeStateDir : string; bm_ProbeDataDir : string; bm_MemberDiagnostic : string; bm_Name : string;
  bm_CandidateWeaverID : string; bm_CandidateGenerationID : string;
  bm_OldMemberBaseline : option jobject;
}.

Record poolProbeManifest := mkProbeManifest {
  bf_Format : string; bf_JVMPool : string; bf_ProbeID : string; bf_CandidateHostID : string;
  bf_CandidateGeneration : string; bf_ProbeRoot : string; bf_MillstrandSource : string;
  bf_Result : string; bf_CollectiveDiagnostic : string; bf_Members : list poolProbeMember;
}.

Record poolProbeResultMember := mkResultMember {
  br_OriginalConfigDir : string; br_ProbeConfigDir : string; br_CandidateWeaverID : string;
  br_CandidateGenerationID : string; br_BaselineKind : string; br_Status : string;
  br_RegistryProjection : option jobject; br_RegistryDiff : option jobject; br_MemberDiagnostic : string;
}.

Record poolProbeResult := mkProbeResult {
  bt_Format : string; bt_ProbeID : string; bt_Success : bool; bt_Stage : string; bt_ProbeRoot : string;
  bt_SourceWorkspace : string; bt_Completed : option (list string); bt_Members : list poolProbeResultMember;
  bt_CollectiveDiagnostic : string; bt_Log : string;
}.

Inductive probe_error :=
| PEIdentity
| PEPath
| PEArtifactOutside
| PENoMembers
| PEMember (i : nat)
| PEDuplicate (dir : string)
| PEMemberPath (dir : string)
| PEMemberOutside (dir : string)
| PEUnsorted
| PEBaseline (dir : string)
| PEOverlap (path : string)
| PEArtifactOverlap (path : string)
| PEStage
| PECount
| PEMismatch (i : nat)
| PEBaselineKind (dir : string)
| PEProjection (dir : string)
| PEDiff (dir : string)
| PEStatus (dir : string)
| PEDecode
| PERoot
| PEMemberIdentity (dir : string)
| PEName (dir : string)
| PEIO
| PEProcess (stderr : string)
| PEReported (stage : string).

(** ** Registry projections *)

Definition has_keys (keys : list string) (m : jobject) : bool :=
  bool_decide (size m = length keys) && forallb (λ k, bool_decide (is_Some (m !! k))) keys.

(** [fmt.Sprint] of a value is blank for blank texts only. *)
Definition sprint_blank (v : option json) : bool :=
  match v with Some (JString s) => is_blank s | _ => false end.

Fixpoint validProjectionValue (v : json) : bool :=
  match v with
  | JNull | JString _ | JBool _ | JNumber _ => true
  | JArray l => forallb validProjectionValue l
  | JObject m =>
      if bool_decide (is_Some (m !! "callable"))
         || (match m !! "class" with Some JNull | None => false | _ => true end)
      then bool_decide (size m = 2)
           && (match m !! "callable" with Some (JBool b) => b | _ => false end)
           && negb (sprint_blank (m !! "class"))
      else map_fold (λ k v ok, negb (bool_decide (k = "")) && validProjectionValue v && ok) true m
  end.

Definition projection_keys : list string := ["effective"; "owners"; "provenance"].

Definition valid_row (v : json) : bool :=
  match v with
  | JObject row =>
      has_keys projection_keys row
      && forallb (λ k, from_option validProjectionValue true (row !! k)) projection_keys
  | _ => false
  end.

Definition validRegistryProjection (m : jobject) : bool :=
  forallb (λ kv, valid_row kv.2) (map_to_list m).

Definition validateProbeBaseline (m : jobject) : bool :=
  bool_decide (size m = 2) && bool_decide (as_jstring (m !! "status") = Some "admitted")
  && match m !! "projection" with Some (JObject p) => validRegistryProjection p | _ => false end.

(** ** The manifest *)

Definition private_paths (m : poolProbeMember) : list string :=
  [bm_ProbeConfigDir m; bm_ProbeStateDir m; bm_ProbeDataDir m; bm_MemberDiagnostic m].

Definition all_private (ms : list poolProbeMember) : list string := ms ≫= private_paths.

Definition validatePoolProbeManifest (m : poolProbeManifest) : result probe_error unit :=
  ensure (bool_decide (bf_Format m = poolProbeFormat)
          && nonblank [bf_JVMPool m; bf_ProbeID m; bf_CandidateHostID m; bf_CandidateGeneration m;
                       bf_ProbeRoot m; bf_MillstrandSource m; bf_Result m; bf_CollectiveDiagnostic m])
    PEIdentity ;;
  ensure (forallb abs_clean [bf_ProbeRoot m; bf_MillstrandSource m; bf_Result m; bf_CollectiveDiagnostic m])
    PEPath ;;
  ensure (pathBelow (bf_ProbeRoot m) (bf_Result m) && pathBelow (bf_ProbeRoot m) (bf_CollectiveDiagnostic m))
    PEArtifactOutside ;;
  ensure (negb (bool_decide (bf_Members m = []))) PENoMembers ;;
  check_from (λ i x,
    let dir := bm_OriginalConfigDir x in
    ensure (nonempty [dir; bm_OriginalSourceCWD x; bm_ProbeConfigDir x; bm_ProbeStateDir x; bm_ProbeDataDir x;
                      bm_MemberDiagnostic x; bm_Name x; bm_CandidateWeaverID x; bm_CandidateGenerationID x])
      (PEMember i) ;;
    ensure (negb (seen bm_OriginalConfigDir (bf_Members m) i x)) (PEDuplicate dir) ;;
    ensure (forallb abs_clean (dir :: bm_OriginalSourceCWD x :: private_paths x)) (PEMemberPath dir) ;;
    ensure (forallb (pathBelow (bf_ProbeRoot m)) (private_paths x)) (PEMemberOutside dir) ;;
    ensure (in_order bm_OriginalConfigDir (bf_Members m) i x) PEUnsorted ;;
    ensure (from_option validateProbeBaseline true (bm_OldMemberBaseline x)) (PEBaseline dir)) 0 (bf_Members m) ;;
  let paths := all_private (bf_Members m) in
  check_from (λ i p,
    ensure (forallb (λ other, negb (pathsOverlap p other)) (take i paths)) (PEOverlap p) ;;
    ensure (negb (pathsOverlap p (bf_Result m) || pathsOverlap p (bf_CollectiveDiagnostic m)))
      (PEArtifactOverlap p)) 0 paths.

(** ** The result *)

Definition diff_keys : list string := ["added"; "removed"; "changed"].

Definition diff_ok (d : jobject) : bool :=
  has_keys diff_keys d
  && forallb (λ k, match d !! k with Some (JObject p) => validRegistryProjection p | _ => false end) diff_keys.

(** The body of the loop over the members of a result. *)
Definition check_result_member (success : bool) (seen_dirs : list string) (i : nat)
    (expected : poolProbeMember) (actual : poolProbeResultMember) : result probe_error unit :=
  let dir := br_OriginalConfigDir actual in
  let live := negb (is_none (bm_OldMemberBaseline expected)) in
  ensure (bool_decide (dir = bm_OriginalConfigDir expected)
          && bool_decide (br_ProbeConfigDir actual = bm_ProbeConfigDir expected)
          && bool_decide (br_CandidateWeaverID actual = bm_CandidateWeaverID expected)
          && bool_decide (br_CandidateGenerationID actual = bm_CandidateGenerationID expected)
          && bool_decide (br_MemberDiagnostic actual = bm_MemberDiagnostic expected)) (PEMismatch i) ;;
  ensure (negb (bool_decide (dir ∈ seen_dirs))) (PEDuplicate dir) ;;
  ensure (bool_decide (br_BaselineKind actual = if live then "live" else "newcomer")) (PEBaselineKind dir) ;;
  ensure (from_option validRegistryProjection false (br_RegistryProjection actual)) (PEProjection dir) ;;
  ensure (if live then from_option diff_ok false (br_RegistryDiff actual)
          else is_none (br_RegistryDiff actual)) (PEDiff dir) ;;
  ensure (bool_decide (br_Status actual = "validated")
          || negb success && bool_decide (br_Status actual = "failed")) (PEStatus dir).

Definition validatePoolProbeResult (r : poolProbeResult) (m : poolProbeManifest) : result probe_error unit :=
  validatePoolProbeManifest m ;;
  ensure (bool_decide (bt_Format r = poolProbeResultFormat) && bool_decide (bt_ProbeID r = bf_ProbeID m)
          && bool_decide (bt_ProbeRoot r = bf_ProbeRoot m)
          && nonblank [bt_Stage r; bt_SourceWorkspace r; bt_CollectiveDiagnostic r; bt_Log r]
          && negb (is_none (bt_Completed r))) PEIdentity ;;
  ensure (forallb abs_clean [bt_ProbeRoot r; bt_SourceWorkspace r; bt_CollectiveDiagnostic r; bt_Log r]) PEPath ;;
  ensure (bool_decide (bt_Stage r = if bt_Success r then "probe/complete" else "probe/failure")) PEStage ;;
  ensure (bool_decide (length (bt_Members r) = length (bf_Members m))) PECount ;;
  check_from (λ i ea, check_result_member (bt_Success r) (take i (br_OriginalConfigDir <$> bt_Members r)) i ea.1 ea.2)
    0 (zip (bf_Members m) (bt_Members r)).

(** ** Decoding *)

Section decoding.
Context (float_text : string → option string).

Definition result_member_fields : list string :=
  ["original_config_dir"; "probe_config_dir"; "candidate_weaver_id"; "candidate_generation_id";
   "baseline_kind"; "status"; "registry_projection"; "registry_diff"; "member_diagnostic"].

Definition result_fields : list string :=
  ["format"; "probe_id"; "success"; "stage"; "probe_root"; "source_workspace"; "completed"; "members";
   "collective_diagnostic"; "log"].

Definition zero_result_member : poolProbeResultMember := mkResultMember "" "" "" "" "" "" None None "".

Definition decode_result_member (m : poolProbeResultMember) (d : doc) : option poolProbeResultMember :=
  match d with
  | DObject l =>
      let str get name := string_from (get m) (field_values name l) in
      if known_fields result_member_fields l then
        a ← str br_OriginalConfigDir "original_config_dir"; b ← str br_ProbeConfigDir "probe_config_dir";
        c ← str br_CandidateWeaverID "candidate_weaver_id";
        d ← str br_CandidateGenerationID "candidate_generation_id";
        e ← str br_BaselineKind "baseline_kind"; f ← str br_Status "status";
        p ← map_from float_text (br_RegistryProjection m) (field_values "registry_projection" l);
        q ← map_from float_text (br_RegistryDiff m) (field_values "registry_diff" l);
        g ← str br_MemberDiagnostic "member_diagnostic";
        Some (mkResultMember a b c d e f p q g)
      else None
  | DNull => Some m
  | _ => None
  end.

(** A nil slice of texts stays nil unless an array is decoded. *)
Definition strings_field (l : list doc) : option (option (list string)) :=
  foldl (λ acc d, xs ← acc;
           match d with
           | DArray ds => Some <$> decode_elements "" (λ s d, string_from s [d]) (default [] xs) ds
           | DNull => Some None
           | _ => None
           end) (Some None) l.

Definition decode_result (d : doc) : option poolProbeResult :=
  match d with
  | DObject l =>
      let str name := string_field (field_values name l) in
      if known_fields result_fields l then
        a ← str "format"; b ← str "probe_id"; s ← bool_field (field_values "success" l);
        c ← str "stage"; d ← str "probe_root"; e ← str "source_workspace";
        cs ← strings_field (field_values "completed" l);
        ms ← slice_field zero_result_member decode_result_member (field_values "members" l);
        f ← str "collective_diagnostic"; g ← str "log";
        Some (mkProbeResult a b s c d e cs ms f g)
      else None
  | DNull => Some (mkProbeResult "" "" false "" "" "" None [] "" "")
  | _ => None
  end.

Definition decodePoolProbeResult (d : option doc) (m : poolProbeManifest) : result probe_error poolProbeResult :=
  match d ≫= decode_result with
  | None => Err PEDecode
  | Some r => validatePoolProbeResult r m ;; Ok r
  end.
End decoding.

(** ** Building the manifest *)

Section building.
Context (getwd : option string) (eval_symlinks : string → option string) (eval : string → eval_answer).
Context (WorldHash : string → string).
(** The opaque ids that are minted, by what they are for. *)
Context (mint : string → string).
(** Whether [RuntimeWorld] knows the directory, and the name that its configuration
    gives it: [Some ""] for a configuration without a name. *)
Context (runtime_ok : string → bool) (config_name : string → option string).
(** What the endpoint of a live member answers for its status. *)
Context (baseline_status : weaverIdentity → option jobject).

Definition friendlyName (configDir requested : string) : result probe_error string :=
  if negb (bool_decide (requested = "")) then
    if is_blank requested then Err (PEName configDir) else Ok requested
  else
    match config_name configDir with
    | None => Err (PEName configDir)
    | Some name =>
        if negb (bool_decide (name = "")) then Ok name
        else
          let base := Base configDir in
          if bool_decide (base = ".") || bool_decide (base = "/") || is_blank base
          then Err (PEName configDir) else Ok base
    end.

(** The loop over the host's members: the baseline of the last of the identity. *)
Definition find_baseline (dir identity : string) (ms : list poolMember) : result probe_error (option jobject) :=
  foldl (λ acc m,
    b ← acc;
    if bool_decide (pm_ConfigDir m = identity) then
      match baseline_status (pm_Identity m) with
      | None => Err (PEBaseline dir)
      | Some status =>
          match status !! "registry_projection" with
          | Some (JObject p) =>
              if validRegistryProjection p
              then Ok (Some (<["projection" := JObject p]> {["status" := JString "admitted"]}))
              else Err (PEBaseline dir)
          | _ => Err (PEBaseline dir)
          end
      end
    else Ok b) (Ok None) ms.

Definition manifest_member (host : weaverHost) (probeRoot : string) (r : JvmPool.Member)
    : result probe_error poolProbeMember :=
  let dir := JvmPool.m_ConfigDir r in
  match CanonicalConfigIdentity getwd eval_symlinks dir with
  | Err _ => Err (PEMemberIdentity dir)
  | Ok identity =>
      let memberRoot := PathJoin [probeRoot; "members"; "member-" +:+ WorldHash identity] in
      baseline ← find_baseline dir identity (wh_Members host);
      ensure (runtime_ok identity) (PEMemberIdentity dir) ;;
      name ← friendlyName identity "";
      match canonicalProbePath getwd eval (JvmPool.m_SourceCWD r) with
      | None => Err (PEMemberIdentity dir)
      | Some cwd =>
          Ok (mkProbeMember identity cwd (PathJoin [memberRoot; "config"]) (PathJoin [memberRoot; "state"])
                (PathJoin [memberRoot; "data"]) (PathJoin [memberRoot; "diagnostic.jsonl"]) name
                (mint ("probe-weaver " +:+ identity)) (mint ("probe-generation " +:+ identity)) baseline)
      end
  end.

Fixpoint manifest_members (host : weaverHost) (probeRoot : string) (l : list JvmPool.Member)
    : result probe_error (list poolProbeMember) :=
  match l with
  | [] => Ok []
  | r :: l => m ← manifest_member host probeRoot r; ms ← manifest_members host probeRoot l; Ok (m :: ms)
  end.

Definition poolProbeManifestForHost (host : weaverHost) (s : JvmPool.PoolSnapshot) (source root : string)
    : result probe_error poolProbeManifest :=
  let probeID := mint "probe" in
  match canonicalProbePath getwd eval root, canonicalProbePath getwd eval source with
  | Some canonicalRoot, Some canonicalSource =>
      let probeRoot := PathJoin [canonicalRoot; "jvm-pools"; "pool-probes"; probeID] in
      ms ← manifest_members host probeRoot (JvmPool.ps_Members s);
      let m := mkProbeManifest poolProbeFormat (wh_Pool host) probeID (mint "probe-host")
                 (mint "probe-host-generation") probeRoot canonicalSource
                 (PathJoin [probeRoot; "result.json"]) (PathJoin [probeRoot; "collective.jsonl"]) ms in
      validatePoolProbeManifest m ;; Ok m
  | _, _ => Err PERoot
  end.
End building.

(** ** Running the probe *)

Definition launchTokenEnvVar : string := "MILLSTRAND_MILL_LAUNCH_TOKEN".

Definition withoutLaunchToken (environment : list string) : list string :=
  filter (λ e, HasPrefix e (launchTokenEnvVar +:+ "=") = false) environment.

(** The answers of one run: whether the manifest is written, the configurations are
    copied, what the process' failure left on standard error, and what the result file
    holds afterwards; whether the probe root is made and the result written back. *)
Record probe_answers := mkProbeAnswers {
  pa_root : bool;
  pa_manifest : bool;
  pa_copies : bool;
  pa_process : option string;
  pa_result : option (option doc);
  pa_rewrite : bool;
}.

Section running.
Context (float_text : string → option string).

(** The result, which a reported failure has too. *)
Definition runPooledProbeProcess (a : probe_answers) (m : poolProbeManifest)
    : option poolProbeResult * result probe_error unit :=
  if negb (pa_manifest a && pa_copies a) then (None, Err PEIO) else
  match pa_process a with
  | Some stderr => (None, Err (PEProcess stderr))
  | None =>
      match pa_result a with
      | None => (None, Err PEIO)
      | Some d =>
          match decodePoolProbeResult float_text d m with
          | Err e => (None, Err e)
          | Ok r => (Some r, if bt_Success r then Ok tt else Err (PEReported (bt_Stage r)))
          end
      end
  end.

Definition executePooledProbe (a : probe_answers) (m : poolProbeManifest)
    : option poolProbeResult * result probe_error unit :=
  if negb (pa_root a) then (None, Err PEIO) else
  match runPooledProbeProcess a m with
  | (r, Err e) => (r, Err e)
  | (None, Ok _) => (None, Err PEIO)
  | (Some r, Ok _) =>
      match validatePoolProbeResult r m with
      | Err e => (None, Err e)
      | Ok _ =>
          if negb (pa_rewrite a) then (None, Err PEIO)
          else (Some r, if bt_Success r then Ok tt else Err (PEReported (bt_Stage r)))
      end
  end.

(** The root that is removed after a successful probe. *)
Definition cleanupPoolProbe (can_remove : bool) (m : poolProbeManifest) : result probe_error unit :=
  ensure (negb (is_blank (bf_ProbeRoot m))) PEIO ;; ensure can_remove PEIO.
End running.

(** ** What a restart keeps of a probe *)

(** The dynamic values are in their JSON form. *)
Definition pooledRestartProbeFailureDiagnostics (r : poolProbeResult) (err : option string) : list object :=
  if bt_Success r then [] else
  let stage := if is_blank (bt_Stage r) then "probe/transport" else bt_Stage r in
  let data := {["completed" := match default [] (bt_Completed r) with [] => ANil | l => AStrings l end]} : object in
  let data := if is_blank (bt_CollectiveDiagnostic r) then data
              else <["collective_diagnostic" := AString (bt_CollectiveDiagnostic r)]> data in
  let data := match err with Some e => <["message" := AString e]> data | None => data end in
  let row m := assign [("workspace", AString (br_OriginalConfigDir m));
                       ("baseline_kind", AString (br_BaselineKind m)); ("status", AString (br_Status m));
                       ("diagnostic", AString (br_MemberDiagnostic m))] ∅ in
  let data := <["members" := AArray ((AObject ∘ row) <$> bt_Members r)]> data in
  [failure_row stage data].

Definition or_else (s other : string) : string := if is_blank s then other else s.

(** [result] is the zero value when there is none. *)
Definition pooledRestartProbeResult (m : poolProbeManifest) (result : option poolProbeResult)
    (err : option string) : restartProbeResult :=
  let r := default (mkProbeResult "" "" false "" "" "" None [] "" "") result in
  mkProbe (bt_Success r) (if bt_Success r then "probe/complete" else "probe/failure")
    (or_else (bt_ProbeRoot r) (bf_ProbeRoot m))
    (if is_blank (bt_SourceWorkspace r)
     then from_option bm_OriginalConfigDir (bt_SourceWorkspace r) (head (bf_Members m))
     else bt_SourceWorkspace r)
    (Some (default [] (bt_Completed r)))
    (Some (pooledRestartProbeFailureDiagnostics r err))
    (or_else (bt_Log r) (PathJoin [bf_ProbeRoot m; "pool-probe.log"])).

(** ** Lemmas: paths *)

Lemma words_rooted ps : Forall plain_part ps → words (rooted ps) = ps.
Proof.
  intros H. unfold words. rewrite bytes_of_rooted.
  change (split_bytes slash (slash :: ?l)) with ([] :: split_bytes slash l).
  rewrite filter_cons_False by naive_solver.
  destruct ps as [|w ps]; [done|]. rewrite split_join by (done || by apply plain_no_slash).
  apply filter_all. eapply Forall_impl; [exact H|]. by intros x [? _].
Qed.

Lemma abs_clean_rooted p : abs_clean p = true → ∃ ps, p = rooted ps ∧ Forall plain_part ps.
Proof.
  unfold abs_clean. intros H. bools. destruct (Clean_rooted p) as (ps & Hps & E); [done|].
  exists ps. split; [congruence|done].
Qed.

Lemma rooted_abs_clean ps : Forall plain_part ps → abs_clean (rooted ps) = true.
Proof.
  intros H. unfold abs_clean. rewrite IsAbs_rooted. apply bool_decide_eq_true.
  unfold Clean. rewrite bytes_of_rooted, clean_rooted_idem by done. by rewrite <-bytes_of_rooted, of_bytes_of.
Qed.

Lemma strip_common_spec b t b' t' :
  strip_common b t = (b', t') → ∃ c, b = c ++ b' ∧ t = c ++ t' ∧ (b' = [] ∨ t' = [] ∨ head b' ≠ head t').
Proof.
  revert t. induction b as [|x b IH]; intros t; [intros [= <- <-]; exists []; naive_solver|].
  destruct t as [|y t]; [intros [= <- <-]; exists []; naive_solver|]. cbn [strip_common].
  case_bool_decide as Hxy.
  - intros H. destruct (IH _ H) as (c & -> & -> & Hc). subst y. by exists (x :: c).
  - intros [= <- <-]. exists []. split_and!; [done..|]. right. right. cbn. congruence.
Qed.

Lemma HasPrefix_app s p : HasPrefix s p = true → ∃ r, s = p +:+ r.
Proof.
  unfold HasPrefix. revert s. induction p as [|c p IH]; intros s H; [by exists s|].
  destruct s as [|d s]; [done|]. cbn in H. destruct (ascii_dec c d) as [->|]; [|done].
  destruct (IH s H) as [r ->]. by exists r.
Qed.

Lemma join_repeat_dotdot n t : n ≠ 0 →
  of_bytes (join_bytes [slash] (repeat dotdot n ++ t)) = ".." ∨
  HasPrefix (of_bytes (join_bytes [slash] (repeat dotdot n ++ t))) "../" = true.
Proof.
  destruct n as [|n]; [done|]. intros _. cbn [repeat app].
  destruct (repeat dotdot n ++ t) as [|w l] eqn:E; [by left|]. right. unfold HasPrefix, of_bytes. cbn. by destruct (String.string_of_list_ascii _).
Qed.

Lemma join_plain_rel t : Forall plain_part t → t ≠ [] →
  let r := of_bytes (join_bytes [slash] t) in r ≠ "." ∧ r ≠ ".." ∧ HasPrefix r "../" = false ∧ IsAbs r = false.
Proof.
  intros Ht Hne. destruct t as [|w t]; [done|]. apply Forall_cons in Ht as [(H1 & H2 & H3 & H4) Ht].
  assert (∀ (w : list ascii) l, join_bytes [slash] (w :: l) = w ++ match l with [] => [] | _ => slash :: join_bytes [slash] l end)
    as Hj by (intros v [|x l]; [cbn; by rewrite app_nil_r|done]).
  set (rest := match t with [] => [] | _ => slash :: join_bytes [slash] t end).
  assert (join_bytes [slash] (w :: t) = w ++ rest) as E by apply Hj. cbn zeta. rewrite E. clear E.
  assert (rest = [] ∨ ∃ r, rest = slash :: r) as Hrest by (unfold rest; destruct t; eauto).
  clearbody rest.
  assert (∀ v, no_slash v → w ≠ v → of_bytes (w ++ rest) ≠ of_bytes v) as Hneq.
  { intros v Hv Hwv E. apply (f_equal bytes_of) in E. rewrite !bytes_of_of in E.
    destruct Hrest as [->|[r ->]]; [rewrite app_nil_r in E; done|]. apply Hv. rewrite <-E. set_solver. }
  assert (no_slash dot) as Hd by (unfold no_slash, dot; set_solver).
  assert (no_slash dotdot) as Hdd by (unfold no_slash, dotdot; set_solver).
  split_and!; [by apply (Hneq dot)|by apply (Hneq dotdot)| |].
  - apply not_true_is_false. intros [r Hr]%HasPrefix_app. apply (f_equal bytes_of) in Hr.
    rewrite bytes_of_of, bytes_of_app in Hr. change (bytes_of "../") with (dotdot ++ [slash]) in Hr.
    rewrite <-app_assoc in Hr. cbn [app] in Hr. destruct Hrest as [->|[r' ->]].
    + rewrite app_nil_r in Hr. apply H4. rewrite Hr. set_solver.
    + apply (f_equal (split_bytes slash)) in Hr. rewrite !split_bytes_app in Hr by done. by injection Hr.
  - destruct w as [|c w]; [done|]. unfold IsAbs. rewrite bytes_of_of. cbn. apply bool_decide_eq_false.
    intros ->. apply H4. set_solver.
Qed.

(** Below is: further down the same elements. *)
Lemma pathBelow_rooted ps qs :
  Forall plain_part ps → Forall plain_part qs →
  pathBelow (rooted ps) (rooted qs) = true ↔ ∃ r, r ≠ [] ∧ qs = ps ++ r.
Proof.
  intros Hps Hqs. unfold pathBelow, Rel.
  assert (∀ l, Forall plain_part l → Clean (rooted l) = rooted l) as Hc.
  { intros l Hl. apply rooted_abs_clean in Hl. unfold abs_clean in Hl. by bools. }
  rewrite !Hc, !IsAbs_rooted, !words_rooted by done. cbn [Bool.eqb negb].
  destruct (decide (qs = ps)) as [->|Hne].
  { rewrite bool_decide_eq_true_2 by done. split; [done|]. intros (r & Hr & E).
    apply (f_equal length) in E. rewrite length_app in E. destruct r; [done|]. cbn in E. lia. }
  rewrite bool_decide_eq_false_2 by (intros E; by apply Hne, rooted_inj).
  assert (bool_decide (rooted ps = ".") = false) as -> by (apply bool_decide_eq_false; by destruct ps).
  destruct (strip_common ps qs) as [b t] eqn:E. apply strip_common_spec in E as (c & -> & -> & Hbt).
  apply Forall_app in Hps as [Hpc Hpb]. apply Forall_app in Hqs as [_ Hqt].
  assert (bool_decide (head b = Some dotdot) = false) as ->.
  { apply bool_decide_eq_false. destruct b as [|w b]; [done|]. intros [= ->].
    by apply Forall_cons in Hpb as [(_ & _ & [] & _) _]. }
  cbn [andb]. destruct b as [|w b].
  - rewrite app_nil_r in *. cbn [length repeat app]. assert (t ≠ []) as Ht by (intros ->; by rewrite app_nil_r in Hne).
    destruct (join_plain_rel t Hqt Ht) as (H1 & H2 & -> & ->).
    rewrite (bool_decide_eq_false_2 _ H1), (bool_decide_eq_false_2 _ H2). split; [|done]. intros _. by exists t.
  - split.
    + intros H. bools. exfalso. destruct (join_repeat_dotdot (length (w :: b)) t) as [E|E]; [done|..];
        rewrite E in *; done.
    + intros (r & Hr & E). rewrite <-app_assoc in E. apply app_inv_head in E. subst t.
      destruct Hbt as [?|[?|Hh]]; [done|done|]. by destruct Hh.
Qed.

(** ** Private directories *)

Definition within (dir path : string) : Prop := path = dir ∨ pathBelow dir path = true.

Lemma within_rooted ps qs :
  Forall plain_part ps → Forall plain_part qs → within (rooted ps) (rooted qs) ↔ ps `prefix_of` qs.
Proof.
  intros Hps Hqs. unfold within. rewrite pathBelow_rooted by done. split.
  - intros [E|(r & _ & ->)]; [apply rooted_inj in E as ->; done|by exists r].
  - intros [r ->]. destruct r as [|w r]; [left; by rewrite app_nil_r|right; by exists (w :: r)].
Qed.

(** Two directories that do not overlap have nothing in common. *)
Lemma no_overlap a b q :
  abs_clean a = true → abs_clean b = true → abs_clean q = true → pathsOverlap a b = false →
  within a q → within b q → False.
Proof.
  intros (ps & -> & Hps)%abs_clean_rooted (qs & -> & Hqs)%abs_clean_rooted (rs & -> & Hrs)%abs_clean_rooted.
  intros Ho. rewrite !within_rooted by done. intros Ha Hb. unfold pathsOverlap in Ho. bools.
  destruct (prefix_weak_total _ _ _ Ha Hb) as [Hp|Hp].
  - apply within_rooted in Hp as [E|E]; [by symmetry in E|congruence|done..].
  - apply within_rooted in Hp as [E|E]; [done|congruence|done..].
Qed.

Record manifest_facts (m : poolProbeManifest) : Prop := {
  mc_root : abs_clean (bf_ProbeRoot m) = true;
  mc_artifacts : abs_clean (bf_Result m) = true ∧ abs_clean (bf_CollectiveDiagnostic m) = true;
  mc_below : ∀ p, p ∈ all_private (bf_Members m) → abs_clean p = true ∧ pathBelow (bf_ProbeRoot m) p = true;
  mc_disjoint : ∀ i j a b, all_private (bf_Members m) !! i = Some a → all_private (bf_Members m) !! j = Some b →
    j < i → pathsOverlap a b = false;
  mc_apart : ∀ p, p ∈ all_private (bf_Members m) →
    pathsOverlap p (bf_Result m) = false ∧ pathsOverlap p (bf_CollectiveDiagnostic m) = false;
  mc_order : bf_Members m ≠ [] ∧ StronglySorted str_lt (bm_OriginalConfigDir <$> bf_Members m);
}.

Lemma manifest_ok m : validatePoolProbeManifest m = Ok tt → manifest_facts m.
Proof.
  intros H. unfold validatePoolProbeManifest in H. inv_ok.
  repeat match goal with H : check_from _ _ _ = Ok _ |- _ => rewrite check_from_ok in H end.
  match goal with H1 : ∀ k x, bf_Members m !! k = Some x → _, H2 : ∀ k x, all_private _ !! k = Some x → _ |- _ =>
    rename H1 into Hm; rename H2 into Hp end.
  match goal with H : forallb abs_clean [_; _; _; _] = true |- _ => cbn in H; bools end.
  match goal with H : _ && _ = true |- _ => bools | _ => idtac end.
  split; [done|done|..].
  - intros p (x & Hpx & (k & Hx)%list_elem_of_lookup)%list_elem_of_bind. specialize (Hm k x Hx). inv_ok.
    match goal with H : forallb (pathBelow _) _ = true |- _ => rewrite forallb_forall in H; rename H into Hb end.
    match goal with H : forallb abs_clean _ = true |- _ => rewrite forallb_forall in H; rename H into Ha end.
    split; [apply Ha; right; right; by apply list_elem_of_In|apply Hb; by apply list_elem_of_In].
  - intros i j a b Hi Hj Hij. specialize (Hp i a Hi). inv_ok.
    match goal with H : forallb _ (take _ _) = true |- _ => rewrite forallb_forall in H; rename H into Ht end.
    specialize (Ht b). cbn in Ht. apply negb_true_iff, Ht, list_elem_of_In, list_elem_of_lookup. exists j.
    by rewrite lookup_take_lt.
  - intros p (i & Hi)%list_elem_of_lookup. specialize (Hp i p Hi). inv_ok. by bools.
  - bools. split; [done|]. apply (ordered_rows bm_OriginalConfigDir). intros i x Hx. specialize (Hm i x Hx). inv_ok.
    by bools.
Qed.

Lemma overlap_sym a b : pathsOverlap a b = pathsOverlap b a.
Proof.
  unfold pathsOverlap. rewrite <-!orb_assoc, (orb_comm (pathBelow a b)). f_equal.
  by apply bool_decide_ext.
Qed.

(** C18: In a manifest that passes validation the members are in order, each once; their
    private directories and files lie below the probe's root, no two of them have a
    path in common, and the result and the collective diagnostic are in none. *)
Theorem probe_isolation m :
  validatePoolProbeManifest m = Ok tt →
  let private := all_private (bf_Members m) in
  bf_Members m ≠ [] ∧ StronglySorted str_lt (bm_OriginalConfigDir <$> bf_Members m) ∧
  (∀ p, p ∈ private → pathBelow (bf_ProbeRoot m) p = true) ∧
  (∀ i j a b q, private !! i = Some a → private !! j = Some b → i ≠ j → abs_clean q = true →
     within a q → within b q → False) ∧
  (∀ p, p ∈ private → ¬ within p (bf_Result m) ∧ ¬ within p (bf_CollectiveDiagnostic m)).
Proof.
  intros H private. apply manifest_ok in H as [Hr [Ha1 Ha2] Hb Hd Hp [Hne Ho]].
  split; [done|]. split; [done|]. split; [by intros p Hin; apply Hb|]. split.
  - intros i j a b q Hi Hj Hij Hq. assert (a ∈ private ∧ b ∈ private) as [Hai Hbi].
    { split; by eapply list_elem_of_lookup_2. }
    apply no_overlap; [by apply Hb|by apply Hb|done|].
    destruct (decide (j < i)); [by eapply Hd|]. rewrite overlap_sym. eapply Hd; [done|done|lia].
  - intros p Hin. destruct (Hp p Hin) as [H1 H2].
    split; intros Hw.
    + by apply (no_overlap p (bf_Result m) (bf_Result m)); [apply Hb| | | | |left].
    + by apply (no_overlap p (bf_CollectiveDiagnostic m) (bf_CollectiveDiagnostic m)); [apply Hb| | | | |left].
Qed.

(** ** A passed probe *)

(** What the row of a member in an accepted result says. *)
Record row_facts (success : bool) (e : poolProbeMember) (x : poolProbeResultMember) : Prop := {
  rf_identity : br_OriginalConfigDir x = bm_OriginalConfigDir e ∧ br_ProbeConfigDir x = bm_ProbeConfigDir e ∧
    br_CandidateWeaverID x = bm_CandidateWeaverID e ∧ br_CandidateGenerationID x = bm_CandidateGenerationID e ∧
    br_MemberDiagnostic x = bm_MemberDiagnostic e;
  rf_status : br_Status x = "validated" ∨ success = false ∧ br_Status x = "failed";
  rf_projection : ∃ p, br_RegistryProjection x = Some p ∧ validRegistryProjection p = true;
  rf_diff : match bm_OldMemberBaseline e with
            | Some _ => br_BaselineKind x = "live" ∧ ∃ d, br_RegistryDiff x = Some d ∧ diff_ok d = true
            | None => br_BaselineKind x = "newcomer" ∧ br_RegistryDiff x = None
            end;
}.

Lemma from_option_some {A} (f : A → bool) (o : option A) :
  from_option f false o = true → ∃ a, o = Some a ∧ f a = true.
Proof. destruct o as [a|]; [|done]. by exists a. Qed.

Lemma result_member_ok success dirs i e x :
  check_result_member success dirs i e x = Ok tt → row_facts success e x.
Proof.
  unfold check_result_member. intros H. inv_ok. bools.
  repeat match goal with H : from_option _ false _ = true |- _ => apply from_option_some in H end.
  split; [by split_and!| |done|].
  - match goal with H : _ || _ = true |- _ => apply orb_true_iff in H as [H|H]; bools; auto end.
  - destruct (bm_OldMemberBaseline e); cbn in *; split; try done.
    + match goal with H : from_option diff_ok false _ = true |- _ => by apply from_option_some in H end.
    + match goal with H : is_none _ = true |- _ => by apply is_none_true in H end.
Qed.

(** A result covers a manifest: member by member, with the stage of its outcome. *)
Record covers (r : poolProbeResult) (m : poolProbeManifest) : Prop := {
  cv_manifest : validatePoolProbeManifest m = Ok tt;
  cv_probe : bt_ProbeID r = bf_ProbeID m ∧ bt_ProbeRoot r = bf_ProbeRoot m;
  cv_stage : bt_Stage r = if bt_Success r then "probe/complete" else "probe/failure";
  cv_texts : is_blank (bt_SourceWorkspace r) = false ∧ is_blank (bt_Log r) = false ∧ is_Some (bt_Completed r);
  cv_members : Forall2 (row_facts (bt_Success r)) (bf_Members m) (bt_Members r);
}.

Lemma result_ok r m : validatePoolProbeResult r m = Ok tt → covers r m.
Proof.
  unfold validatePoolProbeResult. intros H. inv_ok.
  match goal with H : check_from _ _ _ = _ |- _ => rewrite check_from_ok in H; rename H into Hm end.
  unfold nonblank in *. cbn [forallb] in *. bools.
  match goal with H : is_none (bt_Completed r) = false |- _ => apply is_none_false in H end.
  split; try done; try (by split_and!). apply Forall2_same_length_lookup. split; [done|].
  intros i e x He Hx. specialize (Hm i (e, x)). cbn in Hm. eapply result_member_ok, Hm, lookup_zip_with_Some.
  by exists e, x.
Qed.

(** A probe passes only with a successful result that covers the manifest, so that
    every member was validated; a probe that did not pass has a result only if that
    covers the manifest and reports the failure, and then the failure is its stage's. *)
Theorem probe_passes float_text a m r out :
  executePooledProbe float_text a m = (r, out) →
  match out with
  | Ok _ => ∃ x, r = Some x ∧ bt_Success x = true ∧ covers x m ∧
      ∀ i e, bf_Members m !! i = Some e → ∃ row, bt_Members x !! i = Some row ∧
        row_facts true e row ∧ br_Status row = "validated"
  | Err e => ∀ x, r = Some x → bt_Success x = false ∧ covers x m ∧ e = PEReported "probe/failure"
  end.
Proof.
  unfold executePooledProbe, runPooledProbeProcess, decodePoolProbeResult.
  destruct (pa_root a); cbn [negb]; [|by intros [= <- <-]].
  destruct (pa_manifest a && pa_copies a); cbn [negb]; [|by intros [= <- <-]].
  destruct (pa_process a) as [stderr|]; [by intros [= <- <-]|].
  destruct (pa_result a) as [d|]; [|by intros [= <- <-]].
  destruct (d ≫= decode_result float_text) as [x|]; [|by intros [= <- <-]].
  destruct (validatePoolProbeResult x m) as [[]|e] eqn:Hv; cbn [mbind result_bind]; [|by intros [= <- <-]].
  pose proof (result_ok x m Hv) as Hc. destruct (bt_Success x) eqn:Hs.
  - rewrite Hv. destruct (pa_rewrite a); cbn [negb]; rewrite ?Hs; [|by intros [= <- <-]].
    intros [= <- <-]. exists x. split; [done|]. split; [done|]. split; [done|]. intros i e He.
    destruct Hc as [_ _ _ _ Hm]. rewrite Hs in Hm.
    destruct (Forall2_lookup_l _ _ _ _ _ Hm He) as (row & Hrow & Hf). exists row. split; [done|]. split; [done|].
    destruct Hf as [_ [?|[? _]] _ _]; done.
  - intros [= <- <-] y [= <-]. split; [done|]. split; [done|]. destruct Hc as [_ _ Hst _ _].
    by rewrite Hs in Hst; rewrite Hst.
Qed.

(** ** What the restart record keeps *)

Lemma abs_not_blank p : IsAbs p = true → is_blank p = false.
Proof.
  intros [l Hl]%IsAbs_bytes. destruct p as [|c p]; [discriminate Hl|]. injection Hl as -> _. by apply nonblank_head.
Qed.

Lemma abs_clean_abs p : abs_clean p = true → IsAbs p = true.
Proof. unfold abs_clean. intros H. by bools. Qed.

Lemma or_else_not_blank s other : is_blank other = false → is_blank (or_else s other) = false.
Proof. unfold or_else. by destruct (is_blank s) eqn:E. Qed.

Lemma PathJoin_abs root w : abs_clean root = true → plain_part (bytes_of w) → IsAbs (PathJoin [root; w]) = true.
Proof.
  intros (ps & -> & Hps)%abs_clean_rooted Hw.
  rewrite (PathJoin_rooted ps [w]) by plain_list. apply IsAbs_rooted.
Qed.

(** The stages that a result calls completed have names. *)
Definition stages_named (r : option poolProbeResult) : Prop :=
  ∀ x, r = Some x → forallb (λ s, negb (is_blank s)) (default [] (bt_Completed x)) = true.

Lemma failure_row_ok stage data :
  is_blank stage = false → validateProbeDiagnostic (failure_row stage data) = Ok tt.
Proof.
  intros Hs. unfold validateProbeDiagnostic, failure_row.
  set (row := <["data" := AObject data]> (<["status" := AString "failed"]> (<["stage" := AString stage]> ∅)) : object).
  assert (row !! "stage" = Some (AString stage)) as E1 by done.
  assert (row !! "status" = Some (AString "failed")) as E2 by done.
  assert (row !! "data" = Some (AObject data)) as E3 by done.
  assert (row !! "at" = None) as E4 by done.
  assert (only_keys ["stage"; "status"; "data"; "at"] row = true) as ->.
  { apply forallb_forall. intros [k v] Hk%list_elem_of_In%elem_of_map_to_list. cbn. apply bool_decide_eq_true.
    unfold row in Hk. apply lookup_insert_Some in Hk as [[<- _]|[_ Hk]]; [set_solver|].
    apply lookup_insert_Some in Hk as [[<- _]|[_ Hk]]; [set_solver|].
    apply lookup_insert_Some in Hk as [[<- _]|[_ Hk]]; [set_solver|by rewrite lookup_empty in Hk]. }
  unfold text_ok, status_ok, data_ok, present. rewrite E1, E2, E3, E4. cbn [as_text]. rewrite Hs. done.
Qed.

(** The probe that a restart records passes the record's validation, if it comes from a
    valid manifest and a result that covers it, or from none. *)
Lemma pooled_probe_valid m r err :
  validatePoolProbeManifest m = Ok tt → (∀ x, r = Some x → covers x m) → stages_named r →
  validate (pooledRestartProbeResult m r err) = Ok tt.
Proof.
  intros Hm Hc Hn. pose proof (manifest_ok m Hm) as [Hroot _ _ _ _ [Hne _]].
  assert (is_blank (bf_ProbeRoot m) = false) as H1 by (by apply abs_not_blank, abs_clean_abs).
  assert (is_blank (PathJoin [bf_ProbeRoot m; "pool-probe.log"]) = false) as H2.
  { apply abs_not_blank, PathJoin_abs; [done|]. plain_element. }
  assert (is_blank (from_option bm_OriginalConfigDir "" (head (bf_Members m))) = false) as H3.
  { destruct (bf_Members m) as [|e ms] eqn:Em; [done|]. cbn. apply abs_not_blank, abs_clean_abs.
    unfold validatePoolProbeManifest in Hm. rewrite Em in Hm. inv_ok.
    match goal with H : check_from _ 0 (e :: ms) = _ |- _ => cbn [check_from] in H end. inv_ok.
    match goal with H : forallb abs_clean (_ :: _) = true |- _ => cbn [forallb] in H end. by bools. }
  unfold pooledRestartProbeResult, validate. cbn [p_Stage p_ProbeWorkspace p_SourceWorkspace p_Log p_Success
    p_Completed p_Diagnostics from_option id].
  destruct r as [x|]; cbn [from_option id bt_Success bt_Stage bt_ProbeRoot bt_SourceWorkspace bt_Log bt_Completed].
  - destruct (Hc x eq_refl) as [_ _ Hst (Hsrc & Hlog & _) _]. rewrite Hsrc. cbv match.
    rewrite (or_else_not_blank _ _ H1), (or_else_not_blank _ _ H2), Hsrc.
    assert (∀ l, forallb (λ s, negb (is_blank s)) l = true →
      check_from (λ i s, ensure (negb (is_blank s)) (ProbeCompleted i)) 0 l = Ok tt) as Hl.
    { intros l Hl. apply check_from_ok. intros k s Hk. rewrite forallb_forall in Hl.
      rewrite (Hl s); [done|]. apply list_elem_of_In. by eapply list_elem_of_lookup_2. }
    rewrite Hl by (by apply Hn). unfold pooledRestartProbeFailureDiagnostics.
    destruct (bt_Success x) eqn:Hs; [done|]. cbn [negb andb ensure mbind result_bind check_from].
    rewrite Hst. cbn [is_blank]. rewrite failure_row_ok by done. done.
  - cbn [from_option] in H3. rewrite (or_else_not_blank _ _ H1), (or_else_not_blank _ _ H2).
    change (is_blank "") with true. cbv match. rewrite H3.
    cbn [negb andb ensure mbind result_bind check_from]. unfold pooledRestartProbeFailureDiagnostics.
    cbn [bt_Success bt_Stage check_from]. rewrite failure_row_ok by done. done.
Qed.

(** ** Examples *)

Definition sample_probe_member (name : string) : poolProbeMember :=
  mkProbeMember ("/w/" +:+ name) ("/w/" +:+ name) ("/s/p/members/" +:+ name +:+ "/config")
    ("/s/p/members/" +:+ name +:+ "/state") ("/s/p/members/" +:+ name +:+ "/data")
    ("/s/p/members/" +:+ name +:+ "/diagnostic.jsonl") name ("weaver-" +:+ name) ("generation-" +:+ name) None.

Definition sample_probe_manifest : poolProbeManifest :=
  mkProbeManifest poolProbeFormat "pool" "probe-1" "host-1" "generation-1" "/s/p" "/src" "/s/p/result.json"
    "/s/p/collective.jsonl" [sample_probe_member "a"; sample_probe_member "b"].

Lemma probe_isolation_witness :
  validatePoolProbeManifest sample_probe_manifest = Ok tt ∧
  ¬ within "/s/p/members/a/data" "/s/p/result.json".
Proof.
  assert (validatePoolProbeManifest sample_probe_manifest = Ok tt) as H by (by vm_compute). split; [done|].
  apply (probe_isolation sample_probe_manifest H). apply list_elem_of_In. vm_compute. tauto.
Defined.

Definition sample_result_text : string := Relay.json_text
  "{'format':'millstrand.jvm-pool-probe-result/v1','probe_id':'probe-1','success':true,'stage':'probe/complete','probe_root':'/s/p','source_workspace':'/w/a','completed':['load'],'members':[{'original_config_dir':'/w/a','probe_config_dir':'/s/p/members/a/config','candidate_weaver_id':'weaver-a','candidate_generation_id':'generation-a','baseline_kind':'newcomer','status':'validated','registry_projection':{},'registry_diff':null,'member_diagnostic':'/s/p/members/a/diagnostic.jsonl'},{'original_config_dir':'/w/b','probe_config_dir':'/s/p/members/b/config','candidate_weaver_id':'weaver-b','candidate_generation_id':'generation-b','baseline_kind':'newcomer','status':'validated','registry_projection':{},'registry_diff':null,'member_diagnostic':'/s/p/members/b/diagnostic.jsonl'}],'collective_diagnostic':'/s/p/collective.jsonl','log':'/s/p/log'}".

Definition sample_probe_run : probe_answers :=
  mkProbeAnswers true true true None (Some (JsonText.parse sample_result_text)) true.

Lemma probe_passes_witness :
  ∃ x, (executePooledProbe Some sample_probe_run sample_probe_manifest).1 = Some x ∧ bt_Success x = true.
Proof.
  destruct (executePooledProbe Some sample_probe_run sample_probe_manifest) as [r out] eqn:E.
  pose proof (probe_passes Some sample_probe_run sample_probe_manifest r out E) as H.
  destruct out as [u|e].
  - clear E. destruct H as (x & -> & Hx & _). by exists x.
  - exfalso. clear H. revert E. vm_compute. discriminate.
Defined.
