(* ===== verification/Pool.v ===== *)
(** The lifecycle of JVM pools (src/cli/cmd/mill/pool_lifecycle.go): the hosts that mill
    knows, their discovery after mill itself was restarted, their start from a
    snapshot of the registered members and their stop. What runs outside mill is given
    in advance: which processes live, which endpoints prove their identity, what the
    file system holds at every look, the outcome of every launch and removal. *)

From S2P Require Export PoolProbe.

(** ** The environment *)

Inductive pool_fault :=
| PFEmpty (pool : string)
| PFRoot
| PFHostDir
| PFWorld (dir : string)
| PFName (dir : string)
| PFNotRegistered (dir pool : string)
| PFShutdown
| PFSnapshot
| PFPending (details : string * object)
| PFFile (e : host_file_error)
| PFNoManifest
| PFRestartPath
| PFNotReady (dir : string)
| PFIdentity (e : identity_error)
| PFAdmission (e : admission_error)
| PFSource
| PFLog
| PFRunning (pool : string)
| PFLaunch
| PFExited
| PFTimeout
| PFMarker
| PFRecord (e : pool_error)
| PFNoHost
| PFProbeManifest (e : probe_error)
| PFProbe (e : probe_error)
| PFProbeCleanup (e : probe_error)
| PFProbeLog
| PFArtifacts (dir : string) (e : cleanup_error)
| PFRemoveMarker
| PFRemoveRecord
| PFResult.

(** What does not change while mill runs: directories, environment variables, links,
    hashes, minted ids by their purpose, the texts of library errors. *)
Record penv := mkPEnv {
  pe_getwd : option string;
  pe_xdg : string;
  pe_home : option string;
  pe_eval_symlinks : string → option string;
  pe_eval : string → eval_answer;
  pe_WorldHash : string → string;
  pe_sha256 : list ascii → list Z;
  pe_mint : string → string;
  pe_config_name : string → option string;
  pe_quote : string → string;
  pe_decode_text : string;
  pe_Version : string;
  pe_now : string;
  pe_text : pool_fault → string;
}.

(** What was done, in order. *)
Inductive pool_event :=
| EvRecord (path : string) (r : poolRestartRecord)
| EvManifest (path : string) (m : poolLaunchManifest)
| EvProbe (m : poolProbeManifest) (passed : bool)
| EvStopped (host : nat)
| EvArtifacts (dir : string)
| EvMarkerRemoved (path : string)
| EvForgotten (host : nat)
| EvLaunched (host : nat)
| EvReady (host : nat)
| EvLock (pool : string)
| EvUnlock (pool : string).

(** Mill's hosts: [po_heap] are the [weaverHost] values behind the pointers of
    [s.poolHosts] and [s.poolMembers]; [po_files] holds manifests, markers and
    published metadata, [po_records] the restart records. *)
Record pools := mkPools {
  po_next : nat;
  po_heap : gmap nat weaverHost;
  po_hosts : gmap string nat;
  po_members : gmap string nat;
  po_files : files;
  po_records : gmap string disk;
  po_log : list pool_event;
}.

Definition with_heap (f : gmap nat weaverHost → gmap nat weaverHost) (s : pools) : pools :=
  mkPools (po_next s) (f (po_heap s)) (po_hosts s) (po_members s) (po_files s) (po_records s) (po_log s).
Definition with_hosts (f : gmap string nat → gmap string nat) (s : pools) : pools :=
  mkPools (po_next s) (po_heap s) (f (po_hosts s)) (po_members s) (po_files s) (po_records s) (po_log s).
Definition with_members (f : gmap string nat → gmap string nat) (s : pools) : pools :=
  mkPools (po_next s) (po_heap s) (po_hosts s) (f (po_members s)) (po_files s) (po_records s) (po_log s).
Definition with_files (fs : files) (s : pools) : pools :=
  mkPools (po_next s) (po_heap s) (po_hosts s) (po_members s) fs (po_records s) (po_log s).
Definition with_record (path : string) (d : disk) (s : pools) : pools :=
  mkPools (po_next s) (po_heap s) (po_hosts s) (po_members s) (po_files s) (<[path := d]> (po_records s)) (po_log s).
Definition logged (e : pool_event) (s : pools) : pools :=
  mkPools (po_next s) (po_heap s) (po_hosts s) (po_members s) (po_files s) (po_records s) (po_log s ++ [e]).

Notation PM := (ST pools pool_fault).

Definition st_ensure (b : bool) (e : pool_fault) : PM unit := st_lift (ensure b e).

(** The host behind a pointer. *)
Definition host_at (s : pools) (l : nat) : option weaverHost := po_heap s !! l.

(** [s.poolHosts[pool]] and [poolHostForConfigLocked]. *)
Definition host_of_pool (pool : string) (s : pools) : option (nat * weaverHost) :=
  l ← po_hosts s !! pool; h ← host_at s l; Some (l, h).
Definition poolHostForConfigLocked (configDir : string) (s : pools) : option (nat * weaverHost) :=
  l ← po_members s !! configDir; h ← host_at s l; Some (l, h).

Definition set_live (b : bool) (h : weaverHost) : weaverHost :=
  mkHost (wh_Pool h) (wh_HostID h) (wh_HostGenerationID h) (wh_BasisFingerprint h) (wh_MembershipRev h)
    (wh_cmd h) (wh_PID h) (wh_LaunchToken h) (wh_Members h) (wh_Allowances h) (wh_ReadyPath h)
    (wh_ManifestPath h) (wh_LogPath h) (wh_PoolRestartPath h) b.
Definition set_process (pid : Z) (h : weaverHost) : weaverHost :=
  mkHost (wh_Pool h) (wh_HostID h) (wh_HostGenerationID h) (wh_BasisFingerprint h) (wh_MembershipRev h)
    true pid (wh_LaunchToken h) (wh_Members h) (wh_Allowances h) (wh_ReadyPath h)
    (wh_ManifestPath h) (wh_LogPath h) (wh_PoolRestartPath h) (wh_Live h).
Definition set_members (ms : list poolMember) (h : weaverHost) : weaverHost :=
  mkHost (wh_Pool h) (wh_HostID h) (wh_HostGenerationID h) (wh_BasisFingerprint h) (wh_MembershipRev h)
    (wh_cmd h) (wh_PID h) (wh_LaunchToken h) ms (wh_Allowances h) (wh_ReadyPath h)
    (wh_ManifestPath h) (wh_LogPath h) (wh_PoolRestartPath h) (wh_Live h).
Definition set_basis (b : string) (h : weaverHost) : weaverHost :=
  mkHost (wh_Pool h) (wh_HostID h) (wh_HostGenerationID h) b (wh_MembershipRev h)
    (wh_cmd h) (wh_PID h) (wh_LaunchToken h) (wh_Members h) (wh_Allowances h) (wh_ReadyPath h)
    (wh_ManifestPath h) (wh_LogPath h) (wh_PoolRestartPath h) (wh_Live h).

Definition removePoolHost (l : nat) (h : weaverHost) (s : pools) : pools :=
  let s := if bool_decide (po_hosts s !! wh_Pool h = Some l) then with_hosts (delete (wh_Pool h)) s else s in
  logged (EvForgotten l)
    (with_members (λ ms, foldl (λ ms d, if bool_decide (ms !! d = Some l) then delete d ms else ms) ms
                           (poolConfigDirs (wh_Members h))) s).

(** ** Restart records *)

Definition poolRestartHostFromWeaverHost (h : weaverHost) : option poolRestartHost :=
  if bool_decide (wh_Members h = []) then None else
  let basis := if bool_decide (wh_BasisFingerprint h = "")
               then default "" (head (filter (λ b, b ≠ "") (pm_MemberBasis <$> wh_Members h)))
               else wh_BasisFingerprint h in
  if bool_decide (basis = "") then None else
  let row m :=
    mkPoolMember (pm_ConfigDir m)
      (if bool_decide (id_WeaverID (pm_Identity m) = "") then pm_WeaverID m else id_WeaverID (pm_Identity m))
      (if bool_decide (id_GenerationID (pm_Identity m) = "") then pm_GenerationID m
       else id_GenerationID (pm_Identity m)) in
  Some (mkPoolHost (wh_HostID h) (wh_HostGenerationID h) (wh_PID h) basis
          (sort_stable (λ a b, str_ltb (rm_ConfigDir a) (rm_ConfigDir b)) (row <$> wh_Members h))).

Definition poolPendingDirs (h : weaverHost) (registered : list string) : list string :=
  filter (λ d, d ∉ poolConfigDirs (wh_Members h)) registered.

Definition pool_record (h : weaverHost) (snap : JvmPool.PoolSnapshot) (state : restart_state)
    (transitionID : string) (probe : option restartProbeResult) (failure : option restartFailure)
    (stopped : bool) (previous : option weaverHost) : poolRestartRecord :=
  let registered := match snapshot_dirs snap with [] => poolConfigDirs (wh_Members h) | l => l end in
  let admitted := match state with
                  | Probing | RunningState => poolRestartHostFromWeaverHost h
                  | _ => None end in
  let prev := match state with
              | Restarting | FailedState => poolRestartHostFromWeaverHost (default h previous)
              | RunningState => previous ≫= poolRestartHostFromWeaverHost
              | Probing => None end in
  mkPoolRecord poolRestartRecordFormat (wh_Pool h) (state_name state) transitionID ""
    (JvmPool.ps_Revision snap) stopped admitted prev (Some registered)
    (Some (poolPendingDirs h registered)) probe failure.

Section lifecycle.
Context (E : penv).

(** [io] is the first error of the writing. *)
Definition writePoolRestartRecordForHost (h : weaverHost) (snap : JvmPool.PoolSnapshot)
    (state : restart_state) (transitionID : string) (probe : option restartProbeResult)
    (failure : option restartFailure) (stopped : bool) (previous : option weaverHost)
    (io : option string) : PM unit := λ s,
  if is_blank (wh_PoolRestartPath h) then (s, Err (PFRecord PoolRecordPath)) else
  let r := pool_record h snap state transitionID probe failure stopped previous in
  let path := wh_PoolRestartPath h in
  match writePoolRestartRecord (pe_now E) io r (default NoFile (po_records s !! path)) with
  | (d, Ok _) => (logged (EvRecord path r) (with_record path d s), Ok tt)
  | (_, Err e) => (s, Err (PFRecord e))
  end.

(** ** Worlds and directories *)

Definition name_of (dir : string) : result probe_error string :=
  friendlyName (pe_config_name E) dir "".

Definition runtime_world (dir : string) : option world :=
  match RuntimeWorld (pe_getwd E) (pe_xdg E) (pe_home E) (pe_eval_symlinks E) (pe_WorldHash E) dir with
  | Ok w => Some (mkWorld (w_ConfigDir w) (w_StateDir w) (w_DataDir w) (w_DBPath w)
                    (match name_of (w_ConfigDir w) with Ok n => n | Err _ => "" end))
  | Err _ => None
  end.

Definition canonical_path (p : string) : option string := canonicalProbePath (pe_getwd E) (pe_eval E) p.

(** The canonical state root, and the directory of a pool's host in it. *)
Definition state_root : result pool_fault string :=
  match StateRoot (pe_xdg E) (pe_home E) with
  | Err _ => Err PFRoot
  | Ok root => match canonical_path root with Some r => Ok r | None => Err PFRoot end
  end.

Definition host_dir (root pool : string) : result pool_fault string :=
  match JvmPool.PoolHostDir (pe_sha256 E) root pool with Ok d => Ok d | Err _ => Err PFHostDir end.

Definition poolRestartRecordPath (root pool : string) : result pool_fault string :=
  match canonical_path root with
  | None => Err PFRoot
  | Some root => d ← host_dir root pool; Ok (PathJoin [d; poolRestartRecordFile])
  end.

Definition dependencyDiagnosticPath (w : world) : string := PathJoin [StateDir w; "dependency-diagnostic.json"].

(** ** Discovery *)

Definition read_status (w : world) (alive : Z → bool) (fs : files) : option (object * bool) :=
  readRuntimeStatus (pe_eval_symlinks E) alive (pe_quote E) (pe_decode_text E) w fs.

Definition discovered_member (alive : Z → bool) (fs : files) (m : poolLaunchMember)
    : result pool_fault (poolMember * object) :=
  match runtime_world (lm_ConfigDir m) with
  | None => Err (PFWorld (lm_ConfigDir m))
  | Some w =>
      match read_status w alive fs with
      | Some (st, false) =>
          match identityFromStatus st with
          | Err e => Err (PFIdentity e)
          | Ok id =>
              Ok (mkPMember w (lm_SourceCWD m) (lm_Name m) (lm_WeaverID m) (lm_GenerationID m)
                    (text "member_basis_fingerprint" st) id, st)
          end
      | _ => Err (PFNotReady (lm_ConfigDir m))
      end
  end.

Fixpoint discovered_members (alive : Z → bool) (fs : files) (l : list poolLaunchMember)
    : result pool_fault (list (poolMember * object)) :=
  match l with
  | [] => Ok []
  | m :: l => x ← discovered_member alive fs m; xs ← discovered_members alive fs l; Ok (x :: xs)
  end.

(** The first launch manifest, in the order of the glob, that the marker's host has. *)
Definition matching_manifest (fs : files) (id : string) (paths : list string) : option poolLaunchManifest :=
  head (omap (λ p, match readPoolLaunchManifest (fs !! p) with
                   | Ok (Some m) => if bool_decide (mf_HostID m = id) then Some m else None
                   | _ => None end) paths).

(** What a look at the processes, endpoints and launch manifests of a pool finds. *)
Record look := mkLook {
  lk_alive : Z → bool;
  lk_endpoint : weaverIdentity → bool;
  lk_launches : list string;
}.

(** The host that a marker and its manifest describe, with the statuses that prove it. *)
Definition found_host (k : look) (pool hostDir : string) (marker : poolReadyMarker)
    (m : poolLaunchManifest) (xs : list (poolMember * object)) : weaverHost :=
  mkHost pool (rd_HostID marker) (rd_HostGenerationID marker) (rd_BasisFingerprint marker)
    (rd_MembershipRevision marker) true (rd_PID marker) "" xs.*1
    (list_to_map (reverse (zip (lm_WeaverID <$> mf_Members m) (pm_World <$> xs.*1))))
    (PathJoin [hostDir; "ready.json"]) (PathJoin [hostDir; Base (default "" (head (lk_launches k)))])
    (PathJoin [hostDir; "host.log"]) (mf_PoolRestartPath m) true.

Definition statuses_of (m : poolLaunchManifest) (xs : list (poolMember * object)) : gmap string object :=
  list_to_map (reverse (zip (lm_ConfigDir <$> mf_Members m) xs.*2)).

(** The host that the files of a pool describe; [None] for none that lives. *)
Definition find_host (k : look) (pool : string) (fs : files) : result pool_fault (option weaverHost) :=
  root ← state_root;
  hostDir ← host_dir root pool;
  match readPoolReady (fs !! PathJoin [hostDir; "ready.json"]) with
  | Err e => Err (PFFile e)
  | Ok None => Ok None
  | Ok (Some marker) =>
      if negb (lk_alive k (rd_PID marker)) then Ok None else
      match matching_manifest fs (rd_HostID marker) (lk_launches k) with
      | None => Err PFNoManifest
      | Some m =>
          expected ← poolRestartRecordPath root pool;
          ensure (bool_decide (mf_PoolRestartPath m = expected)) PFRestartPath ;;
          xs ← discovered_members (lk_alive k) fs (mf_Members m);
          let h := found_host k pool hostDir marker m xs in
          match validatePoolAdmission (lk_alive k) (lk_endpoint k) (Some h) marker (statuses_of m xs) with
          | Err e => Err (PFAdmission e)
          | Ok _ => Ok (Some h)
          end
      end
  end.

Definition install_host (h : weaverHost) (s : pools) : pools * nat :=
  let l := po_next s in
  (mkPools (S l) (<[l := h]> (po_heap s)) (<[wh_Pool h := l]> (po_hosts s))
     (foldl (λ ms d, <[d := l]> ms) (po_members s) (poolConfigDirs (wh_Members h)))
     (po_files s) (po_records s) (po_log s), l).

Definition discoverPoolHost (k : look) (pool : string) : PM (option nat) := λ s,
  match find_host k pool (po_files s) with
  | Err e => (s, Err e)
  | Ok None => (s, Ok None)
  | Ok (Some h) =>
      match host_of_pool pool s with
      | Some (l, existing) =>
          if wh_Live existing then (s, Ok (Some l))
          else let '(s, l) := install_host h s in (s, Ok (Some l))
      | None => let '(s, l) := install_host h s in (s, Ok (Some l))
      end
  end.

(** ** Starting a host *)

(** The loop over the registered members: what is launched for one of them. *)
Definition snapshot_member (r : JvmPool.Member) : result pool_fault (poolLaunchMember * poolMember) :=
  let dir := JvmPool.m_ConfigDir r in
  match runtime_world dir with
  | None => Err (PFWorld dir)
  | Some w =>
      match canonical_path (StateDir w), canonical_path (DataDir w) with
      | Some state, Some data =>
          match name_of (ConfigDir w) with
          | Err _ => Err (PFName dir)
          | Ok name =>
              let w := mkWorld (ConfigDir w) state data (DBPath w) (w_Name w) in
              let weaver := pe_mint E ("weaver " +:+ dir) in
              let generation := pe_mint E ("generation " +:+ dir) in
              Ok (mkLMember dir (JvmPool.m_SourceCWD r) state data name weaver generation
                    (dependencyDiagnosticPath w),
                  mkPMember w (JvmPool.m_SourceCWD r) name weaver generation "" zero_identity)
          end
      | _, _ => Err (PFWorld dir)
      end
  end.

Fixpoint snapshot_members (l : list JvmPool.Member) : result pool_fault (list (poolLaunchMember * poolMember)) :=
  match l with
  | [] => Ok []
  | r :: l => x ← snapshot_member r; xs ← snapshot_members l; Ok (x :: xs)
  end.

Definition poolHostFromSnapshot (s : JvmPool.PoolSnapshot) (source root : string)
    : result pool_fault (poolLaunchManifest * weaverHost) :=
  let pool := JvmPool.ps_Pool s in
  ensure (negb (bool_decide (JvmPool.ps_Members s = []))) (PFEmpty pool) ;;
  match canonical_path root with
  | None => Err PFRoot
  | Some root =>
      hostDir ← host_dir root pool;
      xs ← snapshot_members (JvmPool.ps_Members s);
      let hostID := pe_mint E "host" in
      let generation := pe_mint E "host-generation" in
      let restart := PathJoin [hostDir; poolRestartRecordFile] in
      Ok (mkManifest poolLaunchFormat pool hostID generation (JvmPool.ps_Revision s) restart source
            (pe_Version E) xs.*1,
          mkHost pool hostID generation "" (JvmPool.ps_Revision s) false 0 (pe_mint E "launch") xs.*2
            (list_to_map (reverse (zip (lm_WeaverID <$> xs.*1) (pm_World <$> xs.*2))))
            (PathJoin [hostDir; "ready.json"]) (PathJoin [hostDir; "launch-" +:+ hostID +:+ ".json"])
            (PathJoin [hostDir; "host.log"]) restart false)
  end.

(** What is seen at a moment: the files that weavers publish, the processes and the
    endpoints. *)
Record view := mkView {
  vw_files : files;
  vw_alive : Z → bool;
  vw_endpoint : weaverIdentity → bool;
}.

(** One turn of the wait: whether the process was reaped, whether mill shuts down. *)
Record poll := mkPoll { pl_view : view; pl_exited : bool; pl_shutdown : bool }.

(** The statuses of the members; [None] when one is missing or stale. *)
Definition member_statuses (v : view) (ms : list poolMember) : option (gmap string object) :=
  foldl (λ acc m, statuses ← acc;
           match read_status (pm_World m) (vw_alive v) (vw_files v) with
           | Some (st, false) => Some (<[pm_ConfigDir m := st]> statuses)
           | _ => None
           end) (Some ∅) ms.

(** What a turn finds: not yet ready, or the outcome of the admission. *)
Definition ready_at (v : view) (h : weaverHost) : option (result pool_fault (gmap string object)) :=
  match readPoolReady (vw_files v !! wh_ReadyPath h) with
  | Ok (Some marker) =>
      statuses ← member_statuses v (wh_Members h);
      Some (match validatePoolAdmission (vw_alive v) (vw_endpoint v) (Some h) marker statuses with
            | Ok _ => Ok statuses
            | Err e => Err (PFAdmission e)
            end)
  | _ => None
  end.

(** [polls] are the turns until the deadline, at least one: after the last the deadline
    has passed. The files are those of the turn that decided. *)
Fixpoint waitForPoolReady (h : weaverHost) (polls : list poll) (fs : files)
    : files * result pool_fault (gmap string object) :=
  match polls with
  | [] => (fs, Err PFTimeout)
  | p :: polls =>
      let fs := vw_files (pl_view p) in
      match ready_at (pl_view p) h with
      | Some r => (fs, r)
      | None =>
          if pl_exited p || negb (vw_alive (pl_view p) (wh_PID h)) then (fs, Err PFExited)
          else if bool_decide (polls = []) then (fs, Err PFTimeout)
          else if pl_shutdown p then (fs, Err PFShutdown)
          else waitForPoolReady h polls fs
      end
  end.

(** ** The launch *)

(** What a wait for another start of the same pool ends with: mill shuts down, or the
    membership is read again; [others] is what that start did to mill meanwhile. *)
Inductive claim_end :=
| ClaimShutdown
| ClaimReread (others : pools → pools) (s : result pool_fault JvmPool.PoolSnapshot).

Record launch_answers := mkLaunchAnswers {
  la_claims : list claim_end;
  la_look : look;
  la_source : option string;
  la_manifest : bool;
  la_log : bool;
  la_start : option Z;
  la_polls : list poll;
  la_end : view;
  la_record : option string;
}.

Definition see_files (fs : files) : PM unit := st_modify (with_files fs).

Definition alloc_host (h : weaverHost) : PM nat := λ s,
  (mkPools (S (po_next s)) (<[po_next s := h]> (po_heap s)) (po_hosts s) (po_members s) (po_files s)
     (po_records s) (po_log s), Ok (po_next s)).

Definition forget_host (l : nat) : PM unit := λ s,
  (match host_at s l with Some h => removePoolHost l h s | None => s end, Ok tt).

Definition get_host (l : nat) : PM weaverHost := λ s,
  (s, match host_at s l with Some h => Ok h | None => Err PFNoHost end).

(** [register], under the lock: a host that is marked live is not replaced. *)
Definition register_host (pool : string) (l : nat) : PM unit := λ s,
  match host_of_pool pool s with
  | Some (_, old) => if wh_Live old then (s, Err (PFRunning pool))
                     else (with_hosts <[pool := l]> s, Ok tt)
  | None => (with_hosts <[pool := l]> s, Ok tt)
  end.

Definition admit_identity (id : weaverIdentity) (st : object) (m : poolMember) : poolMember :=
  mkPMember (pm_World m) (pm_SourceCWD m) (pm_Name m) (pm_WeaverID m) (pm_GenerationID m)
    (text "member_basis_fingerprint" st) id.

(** The loop that gives the members their identities, from the [i]-th on. *)
Fixpoint publish_members (statuses : gmap string object) (l i : nat) (ms : list poolMember) : PM unit :=
  match ms with
  | [] => mret tt
  | m :: ms =>
      let st := default ∅ (statuses !! pm_ConfigDir m) in
      match identityFromStatus st with
      | Err e => st_fail (PFIdentity e)
      | Ok id =>
          st_modify (λ s,
            with_members <[pm_ConfigDir m := l]>
              (with_heap (alter (λ h, set_members (alter (admit_identity id st) i (wh_Members h)) h) l) s)) ;;
          publish_members statuses l (S i) ms
      end
  end.

(** The status of a member of a host, with what the host lacks. *)
Definition member_status (l : nat) (v : view) (snap : JvmPool.PoolSnapshot) (dir : string) : PM (option object) :=
  h ← get_host l;
  mret (addPoolPending h snap <$>
          poolStatusForMember (pe_eval_symlinks E) (vw_alive v) (pe_quote E) (pe_decode_text E) h dir (vw_files v)).

Definition look_view (k : look) (s : pools) : view := mkView (po_files s) (lk_alive k) (lk_endpoint k).

(** The host that already serves the pool. *)
Definition existing_host (k : look) (pool : string) (s : pools) : option nat :=
  '(l, h) ← host_of_pool pool s;
  if wh_Live h && wh_cmd h && lk_alive k (wh_PID h) then Some l else None.

(** The answer of a host that serves already. *)
Definition answer_from (l : nat) (k : look) (snap : JvmPool.PoolSnapshot) (dir : string) : PM (option object) :=
  h ← get_host l;
  if poolHostHasMember h dir then s ← st_get; member_status l (look_view k s) snap dir
  else st_fail (PFPending (poolPendingError h snap dir)).

Definition update_host (l : nat) (f : weaverHost → weaverHost) : PM unit := st_modify (with_heap (alter f l)).
Definition log_event (e : pool_event) : PM unit := st_modify (logged e).

(** What a failing call leaves is cleaned up. *)
Definition on_error {A} (m : PM A) (cleanup : PM unit) : PM A := λ s,
  match m s with
  | (s, Err e) => ((cleanup s).1, Err e)
  | r => r
  end.

Definition await_ready (polls : list poll) (l : nat) : PM (gmap string object) := λ s,
  match host_at s l with
  | None => (s, Err PFNoHost)
  | Some h => let '(fs, r) := waitForPoolReady h polls (po_files s) in (with_files fs s, r)
  end.

(** [launchWeaver]: the host is registered, then the process is started. *)
Definition launch_process (start : option Z) (pool : string) (l : nat) : PM unit :=
  register_host pool l ;;
  match start with
  | None => st_fail PFLaunch
  | Some pid => log_event (EvLaunched l) ;; update_host l (set_process pid)
  end.

(** The identities, the marker and the record of a host that is ready. *)
Definition admit_host (a : launch_answers) (snap : JvmPool.PoolSnapshot) (statuses : gmap string object)
    (l : nat) : PM unit :=
  log_event (EvReady l) ;;
  update_host l (set_live true) ;;
  h ← get_host l;
  publish_members statuses l 0 (wh_Members h) ;;
  see_files (vw_files (la_end a)) ;;
  s ← st_get;
  match readPoolReady (po_files s !! wh_ReadyPath h) with
  | Ok (Some marker) => update_host l (set_basis (rd_BasisFingerprint marker))
  | _ => st_fail PFMarker
  end ;;
  h ← get_host l;
  writePoolRestartRecordForHost h snap RunningState (pe_mint E "start-transition") None None false None (la_record a).

Definition launch_host (a : launch_answers) (snap : JvmPool.PoolSnapshot) (pool dir : string) (l : nat)
    : PM (option object) :=
  on_error (launch_process (la_start a) pool l) (forget_host l) ;;
  statuses ← on_error (await_ready (la_polls a) l) (log_event (EvStopped l) ;; forget_host l);
  admit_host a snap statuses l ;;
  member_status l (la_end a) snap dir.

Definition write_manifest (io_ok : bool) (path : string) (m : poolLaunchManifest) : PM unit := λ s,
  match writePoolLaunchManifest io_ok path m (po_files s) with
  | (fs, Ok _) => (logged (EvManifest path m) (with_files fs s), Ok tt)
  | (fs, Err e) => (with_files fs s, Err (PFFile e))
  end.

(** The launch of a new host for the members of a snapshot. *)
Definition start_new (a : launch_answers) (snap : JvmPool.PoolSnapshot) (pool dir : string) : PM (option object) :=
  source ← st_lift (match la_source a with Some s => Ok s | None => Err PFSource end);
  root ← st_lift (match StateRoot (pe_xdg E) (pe_home E) with Ok r => Ok r | Err _ => Err PFRoot end);
  mh ← st_lift (poolHostFromSnapshot snap source root);
  write_manifest (la_manifest a) (wh_ManifestPath mh.2) mh.1 ;;
  st_ensure (la_log a) PFLog ;;
  l ← alloc_host mh.2;
  launch_host a snap pool dir l.

(** [startPooledWeaverFromSnapshot] once it holds the pool's start claim. *)
Definition start_claimed (a : launch_answers) (snap : JvmPool.PoolSnapshot) (pool dir : string) : PM (option object) :=
  s ← st_get;
  match existing_host (la_look a) pool s with
  | Some l => answer_from l (la_look a) snap dir
  | None =>
      found ← discoverPoolHost (la_look a) pool;
      match found with
      | Some l => answer_from l (la_look a) snap dir
      | None => start_new a snap pool dir
      end
  end.

Definition memberForPool (snap : JvmPool.PoolSnapshot) (configDir : string) : bool :=
  existsb (λ m, bool_decide (JvmPool.m_ConfigDir m = configDir)) (JvmPool.ps_Members snap).

Fixpoint start_from (a : launch_answers) (pool dir : string) (claims : list claim_end)
    (snap : JvmPool.PoolSnapshot) : PM (option object) :=
  st_ensure (memberForPool snap dir) (PFNotRegistered dir pool) ;;
  match claims with
  | [] => start_claimed a snap pool dir
  | ClaimShutdown :: _ => st_fail PFShutdown
  | ClaimReread others again :: claims =>
      st_modify others ;;
      match again with
      | Err e => st_fail e
      | Ok snap => start_from a pool dir claims snap
      end
  end.

Definition startPooledWeaverFromSnapshot (a : launch_answers) (pool dir : string)
    (snap : JvmPool.PoolSnapshot) : PM (option object) :=
  start_from a pool dir (la_claims a) snap.

Definition startPooledWeaver (a : launch_answers) (pool dir : string)
    (snap : result pool_fault JvmPool.PoolSnapshot) : PM (option object) :=
  s ← st_lift snap; startPooledWeaverFromSnapshot a pool dir s.

(** ** Stopping a host *)

(** Signals the group of the process, waits for it to go at most five seconds, and
    succeeds whatever came of it. *)
Definition stopPoolProcess (alive : Z → bool) (l : nat) : PM unit := λ s,
  match host_at s l with
  | Some h => (if wh_cmd h && alive (wh_PID h) then logged (EvStopped l) s else s, Ok tt)
  | None => (s, Ok tt)
  end.

(** The loop over the members that have an identity. *)
Fixpoint cleanup_members (can_remove : string → bool) (ms : list poolMember) : PM unit :=
  match ms with
  | [] => mret tt
  | m :: ms =>
      (if bool_decide (id_WeaverID (pm_Identity m) = "") then mret tt else λ s,
         match cleanupWorldArtifactsOwned can_remove (pm_World m) (pm_Identity m) (po_files s) with
         | (fs, Ok _) => (logged (EvArtifacts (pm_ConfigDir m)) (with_files fs s), Ok tt)
         | (fs, Err e) => (with_files fs s, Err (PFArtifacts (pm_ConfigDir m) e))
         end) ;;
      cleanup_members can_remove ms
  end.

Definition removePoolReadyMarker (can_remove : string → bool) (h : weaverHost) : PM unit := λ s,
  let path := wh_ReadyPath h in
  if is_blank path then (s, Err PFRemoveMarker)
  else if negb (is_none (po_files s !! path)) && negb (can_remove path) then (s, Err PFRemoveMarker)
  else (logged (EvMarkerRemoved path) (with_files (delete path (po_files s)) s), Ok tt).

(** [os.Remove] of the restart record. *)
Definition remove_record (can_remove : string → bool) (path : string) : PM unit := λ s,
  if can_remove path then (with_record path NoFile s, Ok tt)
  else match default NoFile (po_records s !! path) with
       | NoFile => (s, Ok tt)
       | _ => (s, Err PFRemoveRecord)
       end.

Record stop_answers := mkStopAnswers {
  sa_recorded : result pool_fault (option string);
  sa_look : look;
  sa_alive : Z → bool;
  sa_can_remove : string → bool;
}.

(** The host that serves a workspace, or the one of the pool it is registered in. *)
Definition host_to_stop (a : stop_answers) (dir : string) : PM (option nat) :=
  s ← st_get;
  match poolHostForConfigLocked dir s with
  | Some (l, _) => mret (Some l)
  | None =>
      recorded ← st_lift (sa_recorded a);
      match recorded with
      | None => mret None
      | Some pool =>
          found ← discoverPoolHost (sa_look a) pool;
          match found with
          | Some l => mret (Some l)
          | None => s ← st_get; mret (fst <$> host_of_pool pool s)
          end
      end
  end.

Definition unlocked {A} (pool : string) (m : PM A) : PM A := λ s,
  let '(s, r) := m (logged (EvLock pool) s) in (logged (EvUnlock pool) s, r).

Definition stop_host (a : stop_answers) (w : world) (l : nat) (h : weaverHost) : PM object :=
  stopPoolProcess (sa_alive a) l ;;
  update_host l (set_live false) ;;
  cleanup_members (sa_can_remove a) (wh_Members h) ;;
  removePoolReadyMarker (sa_can_remove a) h ;;
  remove_record (sa_can_remove a) (wh_PoolRestartPath h) ;;
  forget_host l ;;
  mret (assign [("jvm_pool", AString (wh_Pool h));
                ("registered_members", AStrings (poolConfigDirs (wh_Members h)));
                ("live_members", AStrings []); ("pending_members", AStrings []);
                ("restart_required", ABool false)] (baseStatus w "stopped")).

Definition stopPooledWeaver (a : stop_answers) (w : world) : PM object :=
  found ← host_to_stop a (ConfigDir w);
  match found with
  | None => mret (baseStatus w "stopped")
  | Some l => h ← get_host l; unlocked (wh_Pool h) (stop_host a w l h)
  end.

(** ** Restarting a pool *)

Record restart_answers := mkRestartAnswers {
  ra_look : look;
  ra_configured : string;
  ra_snapshot : result pool_fault JvmPool.PoolSnapshot;
  ra_source : option string;
  ra_baseline : weaverIdentity → option jobject;
  ra_probe : probe_answers;
  ra_end : view;
  ra_log : bool;
  ra_result : bool;
  ra_cleanup : bool;
  ra_alive : Z → bool;
  ra_can_remove : string → bool;
  ra_record : string → option string;
  ra_launch : launch_answers;
}.

Definition pooledRestartResult (w : world) (status : option object) : option object :=
  assign [("operation", AString "restart"); ("workspace", AString (ConfigDir w))] <$> status.

Definition probe_manifest (a : restart_answers) (h : weaverHost) (snap : JvmPool.PoolSnapshot) (source root : string)
    : result pool_fault poolProbeManifest :=
  match poolProbeManifestForHost (pe_getwd E) (pe_eval_symlinks E) (pe_eval E) (pe_WorldHash E) (pe_mint E)
          (λ d, match runtime_world d with Some _ => true | None => false end) (pe_config_name E)
          (ra_baseline a) h snap source root with
  | Ok m => match validatePoolProbeManifest m with Ok _ => Ok m | Err e => Err (PFProbeManifest e) end
  | Err e => Err (PFProbeManifest e)
  end.

(** The host that serves a workspace, or that of its pool. *)
Definition host_to_restart (k : look) (dir pool : string) : PM (option nat) := λ s,
  match poolHostForConfigLocked dir s with
  | Some (l, _) => (s, Ok (Some l))
  | None =>
      if bool_decide (pool = "") then (s, Ok None) else
      match host_of_pool pool s with
      | Some (l, _) => (s, Ok (Some l))
      | None => discoverPoolHost k pool s
      end
  end.

(** The record of a step; [step] names its writing among the answers. *)
Definition record_step (a : restart_answers) (step : string) (l : nat) (snap : JvmPool.PoolSnapshot)
    (state : restart_state) (tid : string) (probe : option restartProbeResult)
    (failure : option restartFailure) (stopped : bool) (previous : option weaverHost) : PM unit :=
  h ← get_host l;
  writePoolRestartRecordForHost h snap state tid probe failure stopped previous (ra_record a step).

(** A failed step: its failure is recorded, and the call fails with it, or with the
    error of the recording. *)
Definition fail_step (a : restart_answers) (l : nat) (snap : JvmPool.PoolSnapshot) (tid : string)
    (probe : restartProbeResult) (stage message log : string) (stopped : bool) (e : pool_fault) : PM unit :=
  h ← get_host l;
  record_step a stage l snap FailedState tid (Some probe) (Some (mkFailure stage message log "")) stopped (Some h) ;;
  st_fail e.

(** The answer to a failed probe: the old host goes on serving. *)
Definition probe_failed (a : restart_answers) (w : world) (l : nat) (snap : JvmPool.PoolSnapshot) (tid : string)
    (m : poolProbeManifest) (result : option poolProbeResult) (e : probe_error) : PM (option object) :=
  let message := pe_text E (PFProbe e) in
  see_files (vw_files (ra_end a)) ;;
  h ← get_host l;
  let status :=
    addPoolPending h snap
      (default (assign [("jvm_pool", AString (wh_Pool h));
                        ("live_members", AStrings (poolConfigDirs (wh_Members h)))] (baseStatus w "pending"))
         (poolStatusForMember (pe_eval_symlinks E) (vw_alive (ra_end a)) (pe_quote E) (pe_decode_text E) h
            (ConfigDir w) (vw_files (ra_end a)))) in
  let probe := pooledRestartProbeResult m result (Some message) in
  st_ensure (negb (is_blank (p_Log probe)) && ra_log a) PFProbeLog ;;
  record_step a "probe" l snap RunningState tid (Some probe)
    (Some (mkFailure "probe" message (p_Log probe) "")) false None ;;
  let data := assign [("message", AString message);
                      ("generation_id", default ANil (status !! "generation_id"));
                      ("transition_id", AString tid)] ∅ in
  mret (Some (restartBoundaryStatus w
    (assign [("probe_error", AString message); ("restart_state", AString "failed");
             ("diagnostics", AMaps [failure_row "probe" data])] status))).

(** The members' artifacts and the marker of the stopped host. *)
Definition retire_artifacts (a : restart_answers) (snap : JvmPool.PoolSnapshot) (tid : string)
    (probe : restartProbeResult) (l : nat) (h : weaverHost) : PM unit := λ s,
  match cleanup_members (ra_can_remove a) (wh_Members h) s with
  | (s, Err e) => fail_step a l snap tid probe "artifact-cleanup" (pe_text E e) (wh_LogPath h) true e s
  | (s, Ok _) =>
      match removePoolReadyMarker (ra_can_remove a) h s with
      | (s, Err e) => fail_step a l snap tid probe "marker-cleanup" (pe_text E e) (wh_LogPath h) true e s
      | (s, Ok _) => (s, Ok tt)
      end
  end.

(** The replacement, and its record. *)
Definition replace_host (a : restart_answers) (w : world) (pool : string) (snap : JvmPool.PoolSnapshot)
    (tid : string) (m : poolProbeManifest) (result : poolProbeResult) (probe : restartProbeResult) (l : nat)
    : PM (option object) := λ s,
  match startPooledWeaverFromSnapshot (ra_launch a) pool (ConfigDir w) snap s with
  | (s, Err e) =>
      (h ← get_host l;
       fail_step a l snap tid (pooledRestartProbeResult m (Some result) (Some (pe_text E e)))
         "launch" (pe_text E e) (wh_LogPath h) true e ;;
       mret None) s
  | (s, Ok replacement) =>
      (h ← get_host l;
       match poolHostForConfigLocked (ConfigDir w) s with
       | Some (l', _) => record_step a "running" l' snap RunningState tid (Some probe) None true (Some h)
       | None => mret tt
       end ;;
       mret (pooledRestartResult w replacement)) s
  end.

(** From the stop of the old host on, under the pool's admission lock. *)
Definition cutover (a : restart_answers) (w : world) (pool : string) (snap : JvmPool.PoolSnapshot)
    (tid : string) (m : poolProbeManifest) (result : poolProbeResult) (probe : restartProbeResult) (l : nat)
    : PM (option object) :=
  stopPoolProcess (ra_alive a) l ;;
  update_host l (set_live false) ;;
  h ← get_host l;
  record_step a "stopped" l snap Restarting tid (Some probe) None true (Some h) ;;
  retire_artifacts a snap tid probe l h ;;
  forget_host l ;;
  replace_host a w pool snap tid m result probe l.

(** A validated probe: its result is kept, its root removed, the cutover recorded. *)
Definition probe_passed (a : restart_answers) (w : world) (pool : string) (snap : JvmPool.PoolSnapshot)
    (tid : string) (m : poolProbeManifest) (result : poolProbeResult) (l : nat) : PM (option object) :=
  st_ensure (ra_result a) PFResult ;;
  let probe := pooledRestartProbeResult m (Some result) None in
  match cleanupPoolProbe (ra_cleanup a) m with
  | Err e => fail_step a l snap tid probe "probe-cleanup" (pe_text E (PFProbeCleanup e)) (p_Log probe) false
               (PFProbeCleanup e)
  | Ok _ => mret tt
  end ;;
  h ← get_host l;
  record_step a "restarting" l snap Restarting tid (Some probe) None false (Some h) ;;
  unlocked (wh_Pool h) (cutover a w pool snap tid m result probe l).

Section restarting.
Context (float_text : string → option string).

(** The restart of a live host. *)
Definition restart_live (a : restart_answers) (w : world) (pool : string) (l : nat) : PM (option object) :=
  h ← get_host l;
  let pool := if bool_decide (pool = "") then wh_Pool h else pool in
  let tid := pe_mint E "transition" in
  snap ← st_lift (ra_snapshot a);
  source ← st_lift (match ra_source a with Some s => Ok s | None => Err PFSource end);
  root ← st_lift (match StateRoot (pe_xdg E) (pe_home E) with Ok r => Ok r | Err _ => Err PFRoot end);
  m ← st_lift (probe_manifest a h snap source root);
  record_step a "probing" l snap Probing tid None None false None ;;
  match executePooledProbe float_text (ra_probe a) m with
  | (result, Err e) => log_event (EvProbe m false) ;; probe_failed a w l snap tid m result e
  | (None, Ok _) => st_fail PFNoHost
  | (Some result, Ok _) => log_event (EvProbe m true) ;; probe_passed a w pool snap tid m result l
  end.

Definition restartPooledWeaver (a : restart_answers) (w : world) (pool : string) : PM (option object) :=
  found ← host_to_restart (ra_look a) (ConfigDir w) pool;
  s ← st_get;
  let live := l ← found; h ← host_at s l; if wh_Live h then Some l else None in
  match live with
  | Some l => restart_live a w pool l
  | None =>
      let pool := if bool_decide (pool = "") then ra_configured a else pool in
      st_ensure (negb (bool_decide (pool = ""))) PFNoHost ;;
      snap ← st_lift (ra_snapshot a);
      status ← startPooledWeaverFromSnapshot (ra_launch a) pool (ConfigDir w) snap;
      mret (pooledRestartResult w status)
  end.
End restarting.
End lifecycle.

(** ** Lemmas: runs and their logs *)

Lemma st_bind_run {S F A B} (m : ST S F A) (f : A → ST S F B) s s' r :
  (m ≫= f) s = (s', r) →
  (∃ e, m s = (s', Err e) ∧ r = Err e) ∨ ∃ a s1, m s = (s1, Ok a) ∧ f a s1 = (s', r).
Proof. unfold mbind, st_bind. destruct (m s) as [s1 [a|e]]; [eauto 6|]. intros [= <- <-]. eauto. Qed.

(** [same_hosts]: the hosts that mill knows are the same. *)
Definition same_hosts (s s' : pools) : Prop :=
  po_next s' = po_next s ∧ po_heap s' = po_heap s ∧ po_hosts s' = po_hosts s ∧ po_members s' = po_members s.

(** [s'] continues [s] with the events [evs]. *)
Definition continues (s s' : pools) (evs : list pool_event) : Prop :=
  po_log s' = po_log s ++ evs ∧ po_next s ≤ po_next s'.

Lemma continues_refl s : continues s s [].
Proof. split; [by rewrite app_nil_r|lia]. Qed.

Lemma continues_trans s s1 s2 evs1 evs2 :
  continues s s1 evs1 → continues s1 s2 evs2 → continues s s2 (evs1 ++ evs2).
Proof. intros [H1 H2] [H3 H4]. split; [by rewrite H3, H1, (assoc_L (++))|lia]. Qed.

Lemma continues_one s e : continues s (logged e s) [e].
Proof. by split; cbn. Qed.

#[global] Hint Resolve continues_refl continues_one : go.

Ltac run H :=
  match type of H with
  | (?m ≫= ?f) ?s = (?s', ?r) =>
      let R := fresh "R" in apply st_bind_run in H as [(? & R & ->)|(? & ? & R & H)]
  end.

Section runs.
Context (E : penv).

Lemma get_host_run l s s' r :
  get_host l s = (s', r) →
  s' = s ∧ match r with Ok h => host_at s l = Some h | Err _ => host_at s l = None end.
Proof. unfold get_host. destruct (host_at s l); intros [= <- <-]; done. Qed.

Lemma write_record_run h snap state tid probe failure stopped previous io s s' r :
  writePoolRestartRecordForHost E h snap state tid probe failure stopped previous io s = (s', r) →
  let rec := pool_record h snap state tid probe failure stopped previous in
  same_hosts s s' ∧ po_files s' = po_files s ∧
  match r with
  | Ok _ => po_log s' = po_log s ++ [EvRecord (wh_PoolRestartPath h) rec] ∧
            po_records s' = <[wh_PoolRestartPath h :=
              (writePoolRestartRecord (pe_now E) io rec (default NoFile (po_records s !! wh_PoolRestartPath h))).1]>
              (po_records s)
  | Err _ => s' = s
  end.
Proof.
  unfold writePoolRestartRecordForHost. destruct (is_blank _); [by intros [= <- <-]|].
  destruct (writePoolRestartRecord _ _ _ _) as [d [u|e]]; intros [= <- <-]; done.
Qed.

Lemma record_step_run a step l snap state tid probe failure stopped previous s s' r :
  record_step E a step l snap state tid probe failure stopped previous s = (s', r) →
  same_hosts s s' ∧ po_files s' = po_files s ∧
  match r with
  | Ok _ => ∃ h, host_at s l = Some h ∧
      po_log s' = po_log s ++
        [EvRecord (wh_PoolRestartPath h) (pool_record h snap state tid probe failure stopped previous)]
  | Err _ => s' = s
  end.
Proof.
  unfold record_step. intros H. run H; apply get_host_run in R as [-> Hh]; [done|].
  apply write_record_run in H as (H1 & H2 & H3).
  destruct r; [|done]. split_and!; [done..|]. destruct H3 as [H3 _]. eauto.
Qed.

Lemma fail_step_run a l snap tid probe stage message log stopped e s s' r :
  fail_step E a l snap tid probe stage message log stopped e s = (s', r) →
  same_hosts s s' ∧ is_ok r = false ∧
  (s' = s ∨ ∃ h, host_at s l = Some h ∧
     po_log s' = po_log s ++
       [EvRecord (wh_PoolRestartPath h)
          (pool_record h snap FailedState tid (Some probe) (Some (mkFailure stage message log "")) stopped (Some h))]).
Proof.
  unfold fail_step. intros H. run H; apply get_host_run in R as [-> Hh]; [by split_and!; auto|].
  run H; apply record_step_run in R as (H1 & H2 & H3).
  - split_and!; [done..|by left].
  - destruct H3 as (h & H3 & H4). injection H as <- <-. simplify_eq. split_and!; [done..|]. right. eauto.
Qed.
End runs.

(** ** Lemmas: what a start does *)

(** Every event of the call satisfies [P], whatever the state with [n] hosts or more;
    its value satisfies [Q]. *)
Definition emitting (n : nat) (P : pool_event → Prop) {A} (Q : A → Prop) (m : PM A) : Prop :=
  ∀ s, n ≤ po_next s →
    (∃ evs, continues s (m s).1 evs ∧ Forall P evs) ∧ match (m s).2 with Ok a => Q a | Err _ => True end.

Section emitting.
Context (n : nat) (P : pool_event → Prop).

Lemma emitting_bind {A B} (Q1 : A → Prop) (Q2 : B → Prop) (m : PM A) (f : A → PM B) :
  emitting n P Q1 m → (∀ a, Q1 a → emitting n P Q2 (f a)) → emitting n P Q2 (m ≫= f).
Proof.
  intros Hm Hf s Hs. destruct (Hm s Hs) as [(evs & Hc & He) Hq].
  unfold mbind, st_bind. destruct (m s) as [s1 [a|e]]; cbn in *; [|eauto].
  destruct (Hf a Hq s1) as [(evs' & Hc' & He') Hq']; [destruct Hc; lia|]. split; [|done].
  exists (evs ++ evs'). split; [by eapply continues_trans|by apply Forall_app].
Qed.

Lemma emitting_true {A} (Q : A → Prop) (m : PM A) : emitting n P Q m → emitting n P (λ _, True) m.
Proof. intros H s Hs. destruct (H s Hs) as [H1 _]. split; [done|by destruct (m s).2]. Qed.

Lemma emitting_ret {A} (Q : A → Prop) (a : A) : Q a → emitting n P Q (mret a).
Proof. intros H s _. split; [exists []; eauto with go|done]. Qed.

Lemma emitting_lift {A} (r : result pool_fault A) : emitting n P (λ a, r = Ok a) (st_lift r).
Proof. intros s _. split; [exists []; eauto with go|by destruct r]. Qed.

Lemma emitting_fail {A} (Q : A → Prop) e : emitting n P Q (st_fail (A:=A) e).
Proof. intros s _. split; [exists []; eauto with go|done]. Qed.

Lemma emitting_get : emitting n P (λ _, True) (st_get (S:=pools) (E:=pool_fault)).
Proof. intros s _. split; [exists []; eauto with go|done]. Qed.

Lemma emitting_host l : emitting n P (λ _, True) (get_host l).
Proof. intros s _. split; [exists []; eauto with go|by destruct (get_host l s).2]. Qed.

Lemma emitting_silent (f : pools → pools) :
  (∀ s, po_log (f s) = po_log s ∧ po_next (f s) = po_next s) →
  emitting n P (λ _, True) (st_modify (E:=pool_fault) f).
Proof.
  intros H s _. destruct (H s) as [H1 H2]. split; [|done]. exists []. split; [|done].
  split; cbn; [by rewrite H1, app_nil_r|by rewrite H2].
Qed.

Lemma emitting_log e : P e → emitting n P (λ _, True) (log_event e).
Proof. intros H s _. split; [|done]. exists [e]. split; [apply continues_one|by constructor]. Qed.

Lemma emitting_error {A} (Q : A → Prop) (m : PM A) (c : PM unit) :
  emitting n P Q m → emitting n P (λ _, True) c → emitting n P Q (on_error m c).
Proof.
  intros Hm Hc s Hs. destruct (Hm s Hs) as [(evs & Hl & He) Hq]. unfold on_error.
  destruct (m s) as [s1 [a|e]] eqn:Em; cbn in *; [eauto|].
  destruct (Hc s1) as [(evs' & Hl' & He') _]; [destruct Hl; lia|]. split; [|done].
  exists (evs ++ evs'). split; [by eapply continues_trans|by apply Forall_app].
Qed.

Lemma emitting_forget l : P (EvForgotten l) → emitting n P (λ _, True) (forget_host l).
Proof.
  intros H s _. unfold forget_host. destruct (host_at s l) as [h|]; cbn; (split; [|done]).
  - exists [EvForgotten l]. split; [|by constructor]. unfold removePoolHost.
    case_bool_decide; split; cbn; done.
  - exists []. eauto with go.
Qed.

Lemma emitting_alloc h : emitting n P (λ l, n ≤ l) (alloc_host h).
Proof.
  intros s Hs. split; [|done]. exists []. split; [|done]. split; cbn; [by rewrite app_nil_r|lia].
Qed.
End emitting.

#[global] Hint Resolve emitting_ret emitting_lift emitting_fail emitting_get emitting_host emitting_log
  emitting_error emitting_forget emitting_alloc : go.

(** [emit] walks a call; its remaining goals are the pieces that have lemmas of their
    own, and the properties of the events. *)
Ltac emit :=
  repeat first
    [ assumption
    | apply emitting_get | apply emitting_host | apply emitting_lift | apply emitting_fail
    | apply emitting_alloc | apply emitting_forget | apply emitting_log
    | apply emitting_error
    | (apply emitting_silent; intros; split; reflexivity)
    | (apply emitting_ret; exact I)
    | lazymatch goal with |- emitting _ _ _ (_ ≫= _) => eapply emitting_bind; [|cbn beta; intros ? ?] end ].

(** The events of a start from [snap] concern hosts that are new, and its manifests
    list the members of the snapshot. *)
Definition start_event (n : nat) (snap : JvmPool.PoolSnapshot) (e : pool_event) : Prop :=
  match e with
  | EvStopped l | EvForgotten l | EvLaunched l | EvReady l => n ≤ l
  | EvManifest _ m => (lm_ConfigDir <$> mf_Members m) = snapshot_dirs snap
                      ∧ mf_MembershipRevision m = JvmPool.ps_Revision snap
  | EvRecord _ r => pr_State r = "running"
  | _ => False
  end.

Section starting.
Context (E : penv).

Lemma snapshot_members_dirs l xs :
  snapshot_members E l = Ok xs → (lm_ConfigDir <$> xs.*1) = JvmPool.m_ConfigDir <$> l.
Proof.
  revert xs. induction l as [|r l IH]; intros xs H; cbn [snapshot_members] in H; inv_ok; [done|].
  cbn [fmap list_fmap]. f_equal; [|by apply IH].
  unfold snapshot_member in H. destruct (runtime_world _ _); [|done].
  destruct (canonical_path _ _); [|done]. destruct (canonical_path _ _); [|done].
  destruct (name_of _ _); inv_ok; done.
Qed.

Lemma poolHostFromSnapshot_members snap source root m h :
  poolHostFromSnapshot E snap source root = Ok (m, h) →
  (lm_ConfigDir <$> mf_Members m) = snapshot_dirs snap ∧ mf_MembershipRevision m = JvmPool.ps_Revision snap.
Proof.
  unfold poolHostFromSnapshot. intros H. inv_ok. destruct (canonical_path E root); [|done]. inv_ok.
  cbn. split; [|done]. by apply snapshot_members_dirs.
Qed.

Context (n : nat) (snap : JvmPool.PoolSnapshot).
Local Notation ev := (start_event n snap).

Lemma discover_emitting k pool : emitting n ev (λ _, True) (discoverPoolHost E k pool).
Proof.
  intros s Hs. assert (∃ evs, continues s (discoverPoolHost E k pool s).1 evs ∧ Forall ev evs) as H.
  { exists []. split; [|done]. unfold discoverPoolHost.
    assert (∀ h, continues s (install_host h s).1 []) as Hi.
    { intros h. split; cbn; [by rewrite app_nil_r|lia]. }
    destruct (find_host E k pool (po_files s)) as [[h|]|e]; [|auto with go..].
    destruct (host_of_pool pool s) as [[l' h']|]; [destruct (wh_Live h'); [auto with go|]|]; apply (Hi h). }
  split; [done|]. by destruct (discoverPoolHost E k pool s).2.
Qed.

Lemma member_status_emitting l v dir : emitting n ev (λ _, True) (member_status E l v snap dir).
Proof. unfold member_status. emit. Qed.

Lemma answer_emitting l k dir : emitting n ev (λ _, True) (answer_from E l k snap dir).
Proof.
  unfold answer_from. emit. destruct (poolHostHasMember _ _); emit. apply member_status_emitting.
Qed.

Lemma register_emitting pool l : emitting n ev (λ _, True) (register_host pool l).
Proof.
  intros s Hs. split; [|by destruct (register_host pool l s).2]. exists []. split; [|done].
  unfold register_host. destruct (host_of_pool pool s) as [[? old]|]; [destruct (wh_Live old)|];
    split; cbn; try rewrite app_nil_r; done.
Qed.

Lemma publish_emitting statuses l i ms : emitting n ev (λ _, True) (publish_members statuses l i ms).
Proof.
  revert i. induction ms as [|m ms IH]; intros i; cbn [publish_members]; [emit|].
  destruct (identityFromStatus _); [|emit]. emit. apply IH.
Qed.

Lemma await_emitting polls l : emitting n ev (λ _, True) (await_ready E polls l).
Proof.
  intros s Hs. unfold await_ready. destruct (host_at s l); cbn; [|by split; [exists []; eauto with go|]].
  destruct (waitForPoolReady _ _ _ _) as [fs r]; cbn. split; [exists []; by split; [split; cbn; rewrite ?app_nil_r|]|].
  by destruct r.
Qed.

Lemma write_record_emitting h tid failure io :
  emitting n ev (λ _, True)
    (writePoolRestartRecordForHost E h snap RunningState tid None failure false None io).
Proof.
  intros s Hs. destruct (writePoolRestartRecordForHost _ _ _ _ _ _ _ _ _ _ s) as [s' r] eqn:Hw.
  apply write_record_run in Hw as (H1 & H2 & H3). cbn. destruct r as [u|e]; (split; [|done]).
  - destruct H3 as [H3 _]. eexists [_]. split; [split; [exact H3|]|by constructor].
    destruct H1 as (-> & _). lia.
  - subst. exists []. eauto with go.
Qed.

Lemma launch_emitting a pool dir l : n ≤ l → emitting n ev (λ _, True) (launch_host E a snap pool dir l).
Proof.
  intros Hl. unfold launch_host, launch_process, admit_host. emit; try done.
  - apply register_emitting.
  - destruct (la_start a); emit.
  - apply await_emitting.
  - apply publish_emitting.
  - destruct (readPoolReady _) as [[mk|]|]; emit.
  - apply write_record_emitting.
  - apply member_status_emitting.
Qed.

Lemma manifest_emitting io_ok path mf :
  ev (EvManifest path mf) → emitting n ev (λ _, True) (write_manifest io_ok path mf).
Proof.
  intros Hev s Hs. unfold write_manifest, writePoolLaunchManifest.
  assert (continues s s []) as Hs0 by auto with go.
  destruct (validatePoolLaunchManifest _); [destruct io_ok|]; cbn; (split; [|done]).
  - eexists [_]. split; [by split; cbn|by constructor].
  - by exists [].
  - by exists [].
Qed.

Lemma start_new_emitting a pool dir : emitting n ev (λ _, True) (start_new E a snap pool dir).
Proof.
  unfold start_new. emit.
  - destruct a2 as [mf h]. cbn in H1. apply poolHostFromSnapshot_members in H1. by apply manifest_emitting.
  - by apply launch_emitting.
Qed.

Lemma start_emitting a pool dir :
  la_claims a = [] → emitting n ev (λ _, True) (startPooledWeaverFromSnapshot E a pool dir snap).
Proof.
  intros Hc. unfold startPooledWeaverFromSnapshot. rewrite Hc. cbn [start_from]. emit.
  unfold start_claimed. emit. destruct (existing_host (la_look a) pool a1); [apply answer_emitting|].
  emit; [apply discover_emitting|]. destruct a2; [apply answer_emitting|apply start_new_emitting].
Qed.
End starting.

(** ** Lemmas: what a restart does *)

(** The event takes something away from the host [l]. *)
Definition touches (l : nat) (e : pool_event) : bool :=
  match e with
  | EvStopped l' | EvForgotten l' => bool_decide (l' = l)
  | EvArtifacts _ | EvMarkerRemoved _ => true
  | _ => false
  end.

Definition starts (e : pool_event) : bool :=
  match e with EvLaunched _ | EvReady _ | EvManifest _ _ => true | _ => false end.

Definition locks (e : pool_event) : bool :=
  match e with EvLock _ | EvUnlock _ | EvProbe _ _ => true | _ => false end.

(** The members that have an identity: those whose artifacts are removed. *)
Definition owned_dirs (ms : list poolMember) : list string :=
  pm_ConfigDir <$> filter (λ m, id_WeaverID (pm_Identity m) ≠ "") ms.

(** The events that take a host down, [stopped] if its process lived. *)
Definition retirement (l : nat) (h : weaverHost) (stopped : bool) (r : poolRestartRecord) : list pool_event :=
  (if stopped then [EvStopped l] else []) ++ [EvRecord (wh_PoolRestartPath h) r]
  ++ (EvArtifacts <$> owned_dirs (wh_Members h)) ++ [EvMarkerRemoved (wh_ReadyPath h); EvForgotten l].

Lemma same_hosts_refl s : same_hosts s s.
Proof. done. Qed.

Lemma same_hosts_trans s1 s2 s3 : same_hosts s1 s2 → same_hosts s2 s3 → same_hosts s1 s3.
Proof. intros (?&?&?&?) (?&?&?&?). split_and!; congruence. Qed.

#[global] Hint Resolve same_hosts_refl : go.

Lemma same_continues s s' evs : same_hosts s s' → po_log s' = po_log s ++ evs → continues s s' evs.
Proof. intros (H & _) Hl. split; [done|]. by rewrite H. Qed.

Lemma same_host_at s s' l : same_hosts s s' → host_at s' l = host_at s l.
Proof. intros (_ & H & _). unfold host_at. by rewrite H. Qed.

Definition quiet (e : pool_event) : Prop := starts e = false ∧ locks e = false.

Section traces.
Context (E : penv).

Lemma cleanup_members_run can_remove ms s s' r :
  cleanup_members can_remove ms s = (s', r) →
  same_hosts s s' ∧ ∃ dirs, po_log s' = po_log s ++ (EvArtifacts <$> dirs) ∧
    (r = Ok tt → dirs = owned_dirs ms).
Proof.
  revert s. induction ms as [|m ms IH]; intros s H; cbn [cleanup_members] in H.
  { injection H as <- <-. split; [done|]. exists []. by rewrite app_nil_r. }
  unfold owned_dirs. rewrite filter_cons. run H.
  - case_bool_decide; [done|].
    destruct (cleanupWorldArtifactsOwned _ _ _ _) as [fs [u|e']] eqn:Ec; [done|].
    injection R as <- <-. split; [done|]. exists []. cbn. by rewrite app_nil_r.
  - case_bool_decide as Hid.
    + injection R as <- <-. rewrite decide_False by tauto. by apply IH.
    + rewrite decide_True by done.
      destruct (cleanupWorldArtifactsOwned _ _ _ _) as [fs [u|e']] eqn:Ec; [|done].
      injection R as <- <-. apply IH in H as (H1 & dirs & H2 & H3). split; [done|].
      exists (pm_ConfigDir m :: dirs). split; [rewrite H2; cbn; by rewrite <- (assoc_L (++))|].
      intros Hr. cbn. f_equal. by apply H3.
Qed.

Lemma retire_artifacts_run a snap tid probe l h s s' r :
  retire_artifacts E a snap tid probe l h s = (s', r) →
  same_hosts s s' ∧ ∃ evs, po_log s' = po_log s ++ evs ∧
    match r with
    | Ok _ => evs = (EvArtifacts <$> owned_dirs (wh_Members h)) ++ [EvMarkerRemoved (wh_ReadyPath h)]
    | Err _ => Forall quiet evs
    end.
Proof.
  assert (∀ dirs : list string, Forall quiet (EvArtifacts <$> dirs)) as Hdirs.
  { intros dirs. apply Forall_fmap, Forall_true. done. }
  assert (∀ stage message log stopped e s1 evs, same_hosts s s1 → po_log s1 = po_log s ++ evs →
    Forall quiet evs →
    fail_step E a l snap tid probe stage message log stopped e s1 = (s', r) →
    same_hosts s s' ∧ ∃ evs, po_log s' = po_log s ++ evs ∧
      match r with
      | Ok _ => evs = (EvArtifacts <$> owned_dirs (wh_Members h)) ++ [EvMarkerRemoved (wh_ReadyPath h)]
      | Err _ => Forall quiet evs
      end) as Hfail.
  { intros stage message log stopped e s1 evs Hs Hl Hf H. apply fail_step_run in H as (H1 & H2 & H3).
    split; [by eapply same_hosts_trans|]. destruct r; [done|]. destruct H3 as [->|(h' & _ & H3)]; [eauto|].
    eexists (evs ++ [_]). split; [rewrite H3, Hl; symmetry; apply (assoc_L (++))|].
    apply Forall_app. split; [done|]. by constructor. }
  unfold retire_artifacts. intros H.
  destruct (cleanup_members _ _ s) as [s1 [u|e]] eqn:Ec; apply cleanup_members_run in Ec as (H1 & dirs & H2 & H3).
  - destruct u. specialize (H3 eq_refl). subst dirs. unfold removePoolReadyMarker in H.
    destruct (is_blank (wh_ReadyPath h)); [by eapply Hfail|].
    destruct (_ && _); [by eapply Hfail|]. injection H as <- <-. split; [by eapply same_hosts_trans|].
    eexists. split; [|done]. cbn. by rewrite H2, <- (assoc_L (++)).
  - by eapply Hfail.
Qed.

(** The events of a replacement: those of a start, and restart records. *)
Definition replacement_event (n : nat) (snap : JvmPool.PoolSnapshot) (e : pool_event) : Prop :=
  match e with EvRecord _ _ => True | _ => start_event n snap e end.

Lemma replace_host_run a w pool snap tid m result probe l s s' r :
  la_claims (ra_launch a) = [] →
  replace_host E a w pool snap tid m result probe l s = (s', r) →
  ∃ evs, continues s s' evs ∧ Forall (replacement_event (po_next s) snap) evs.
Proof.
  intros Hc. unfold replace_host.
  destruct (start_emitting E (po_next s) snap (ra_launch a) pool (ConfigDir w) Hc s) as [(evs & Hl & He) _]; [done|].
  assert (Forall (replacement_event (po_next s) snap) evs) as He'.
  { eapply Forall_impl; [exact He|]. by intros []. }
  destruct (startPooledWeaverFromSnapshot _ _ _ _ _ s) as [s1 [st|e]]; cbn in Hl; intros H.
  - run H; apply get_host_run in R as [-> Hh]; [by exists evs|].
    assert (∀ s2, same_hosts s1 s2 → (s2 = s1 ∨ ∃ p r, po_log s2 = po_log s1 ++ [EvRecord p r]) →
      ∃ evs, continues s s2 evs ∧ Forall (replacement_event (po_next s) snap) evs) as Hrec.
    { intros s2 Hs [->|(p & r' & Hp)]; [by exists evs|]. exists (evs ++ [EvRecord p r']).
      split; [eapply continues_trans, same_continues; done|]. apply Forall_app. split; [done|]. by constructor. }
    run H.
    + destruct (poolHostForConfigLocked _ _) as [[l' ?]|]; [|by injection R].
      apply record_step_run in R as (H1 & _ & ->). apply Hrec; auto with go.
    + injection H as <- <-. destruct (poolHostForConfigLocked _ _) as [[l' ?]|].
      * apply record_step_run in R as (H1 & _ & h' & _ & H2). apply Hrec; [done|]. eauto.
      * injection R as <- _. apply Hrec; auto with go.
  - run H; apply get_host_run in R as [-> Hh]; [by exists evs|]. run H.
    + apply fail_step_run in R as (H1 & _ & [->|(h' & _ & H2)]); [by exists evs|].
      eexists (evs ++ [_]). split; [eapply continues_trans, same_continues; done|].
      apply Forall_app. split; [done|]. by constructor.
    + apply fail_step_run in R as (_ & Hr & _). done.
Qed.

(** Under the lock: either no replacement is started, or the old host was taken down
    before anything of the replacement. *)
Definition cutover_log (n : nat) (l : nat) (h : weaverHost) (stopped : bool)
    (snap : JvmPool.PoolSnapshot) (evs : list pool_event) : Prop :=
  Forall quiet evs ∨
  ∃ rec started, evs = retirement l h stopped rec ++ started ∧ pr_OldGenerationStopped rec = true ∧
    Forall (replacement_event n snap) started.

Lemma cutover_run a w pool snap tid m result probe l h s s' r :
  la_claims (ra_launch a) = [] → host_at s l = Some h →
  cutover E a w pool snap tid m result probe l s = (s', r) →
  ∃ evs, continues s s' evs ∧ cutover_log (po_next s) l h (wh_cmd h && ra_alive a (wh_PID h)) snap evs.
Proof.
  intros Hc Hh H. unfold cutover in H.
  set (stopped := wh_cmd h && ra_alive a (wh_PID h)).
  set (stop := if stopped then [EvStopped l] else [] : list pool_event).
  assert (Forall quiet stop) as Hq by (subst stop; destruct stopped; repeat constructor).
  run H; unfold stopPoolProcess in R; rewrite Hh in R; [done|].
  fold stopped in R. injection R as <- <-.
  run H; [done|]. injection R as <- <-.
  set (s2 := with_heap _ _) in H. set (h2 := set_live false h).
  assert (host_at s2 l = Some h2) as Hh2.
  { subst s2. unfold host_at in *. destruct stopped; cbn; rewrite lookup_alter_eq, Hh; done. }
  assert (po_log s2 = po_log s ++ stop) as Hl2.
  { subst s2 stop. destruct stopped; cbn; [done|by rewrite app_nil_r]. }
  assert (po_next s2 = po_next s) as Hn2 by (subst s2; by destruct stopped).
  clearbody s2. run H; apply get_host_run in R as [-> R]; [congruence|].
  assert (x = h2) as -> by congruence. clear R.
  run H; apply record_step_run in R as (Hs3 & _ & R).
  { subst. exists stop. split; [by split; [|rewrite Hn2]|]. by left. }
  destruct R as (h2' & Hh2' & Hl3). assert (h2' = h2) as -> by congruence. clear Hh2'.
  set (rec := pool_record _ _ _ _ _ _ _ _) in Hl3. change (wh_PoolRestartPath h2) with (wh_PoolRestartPath h) in Hl3.
  run H; apply retire_artifacts_run in R as (Hs4 & evs & Hl4 & Hevs).
  { exists (stop ++ [EvRecord (wh_PoolRestartPath h) rec] ++ evs). split.
    - split; [by rewrite Hl4, Hl3, Hl2, <- !(assoc_L (++))|]. destruct Hs3 as (Hx & _), Hs4 as (Hy & _). by rewrite Hy, Hx, Hn2.
    - left. apply Forall_app. split; [done|]. by constructor. }
  assert (host_at x2 l = Some h2) as Hh4 by (by rewrite (same_host_at _ _ _ Hs4), (same_host_at _ _ _ Hs3)).
  run H; unfold forget_host in R; rewrite Hh4 in R; [done|]. injection R as <- <-.
  apply replace_host_run in H as (started & [Hl5 Hn5] & Hst); [|done].
  assert (po_log (removePoolHost l h2 x2) = po_log x2 ++ [EvForgotten l]) as Hl6.
  { unfold removePoolHost. by case_bool_decide. }
  assert (po_next (removePoolHost l h2 x2) = po_next s) as Hn6.
  { transitivity (po_next x2); [unfold removePoolHost; by case_bool_decide|].
    destruct Hs3 as (Hx & _), Hs4 as (Hy & _). congruence. }
  exists (retirement l h stopped rec ++ started). rewrite Hn6 in Hn5, Hst. split.
  - split; [|done]. rewrite Hl5, Hl6, Hl4, Hevs, Hl3, Hl2. unfold retirement. fold stop.
    change (wh_Members h2) with (wh_Members h). change (wh_ReadyPath h2) with (wh_ReadyPath h).
    by rewrite <- !(assoc_L (++)).
  - right. exists rec, started. done.
Qed.

(** Before the cutover only restart records are written and the probe is run. *)
Definition idle (e : pool_event) : Prop :=
  match e with EvRecord _ _ | EvProbe _ _ => True | _ => False end.

(** The events that lead a restart to its cutover. *)
Definition announced (h : weaverHost) (m : poolProbeManifest) (r0 r1 : poolRestartRecord) : list pool_event :=
  [EvRecord (wh_PoolRestartPath h) r0; EvProbe m true; EvRecord (wh_PoolRestartPath h) r1;
   EvLock (wh_Pool h)].

Definition restart_log (s s' : pools) (l : nat) (h : weaverHost) (stopped : bool)
    (snap : JvmPool.PoolSnapshot) (evs : list pool_event) : Prop :=
  (Forall idle evs ∧ same_hosts s s') ∨
  ∃ m r0 r1 cut, evs = announced h m r0 r1 ++ cut ++ [EvUnlock (wh_Pool h)] ∧
    pr_State r1 = "restarting" ∧ pr_OldGenerationStopped r1 = false ∧
    cutover_log (po_next s) l h stopped snap cut.

Lemma unlocked_run {A} pool (m : PM A) s s' r :
  unlocked pool m s = (s', r) →
  ∃ s1, m (logged (EvLock pool) s) = (s1, r) ∧ s' = logged (EvUnlock pool) s1.
Proof. unfold unlocked. destruct (m _) as [s1 r1]. intros [= <- <-]. eauto. Qed.

Lemma ensure_run b e s s' r : st_ensure b e s = (s', r) → s' = s ∧ r = ensure b e.
Proof. unfold st_ensure, st_lift. by intros [= <- <-]. Qed.

Lemma probe_failed_run a w l snap tid m result e s s' r :
  probe_failed E a w l snap tid m result e s = (s', r) →
  same_hosts s s' ∧ ∃ evs, po_log s' = po_log s ++ evs ∧ Forall idle evs.
Proof.
  unfold probe_failed. intros H. run H; [done|]. injection R as <- <-.
  set (s1 := with_files _ s) in H.
  assert (same_hosts s s1 ∧ ∃ evs, po_log s1 = po_log s ++ evs ∧ Forall idle evs) as Hn.
  { split; [done|]. exists []. by rewrite app_nil_r. }
  run H; apply get_host_run in R as [-> Hh]; [exact Hn|].
  run H; apply ensure_run in R as [-> R]; [exact Hn|].
  run H; apply record_step_run in R0 as (H1 & _ & R0); [by subst|].
  destruct R0 as (h & _ & H2). injection H as <- <-. split; [done|].
  eexists. split; [exact H2|]. by constructor.
Qed.

Lemma probe_passed_run a w pool snap tid m result l h s s' r :
  la_claims (ra_launch a) = [] → host_at s l = Some h →
  probe_passed E a w pool snap tid m result l s = (s', r) →
  ∃ evs, continues s s' evs ∧
    ((Forall idle evs ∧ same_hosts s s') ∨
     ∃ r1 cut, evs = [EvRecord (wh_PoolRestartPath h) r1; EvLock (wh_Pool h)] ++ cut ++ [EvUnlock (wh_Pool h)] ∧
       pr_State r1 = "restarting" ∧ pr_OldGenerationStopped r1 = false ∧
       cutover_log (po_next s) l h (wh_cmd h && ra_alive a (wh_PID h)) snap cut).
Proof.
  intros Hc Hh. unfold probe_passed. intros H.
  run H; unfold st_ensure, st_lift in R; injection R as <- R; [exists []; auto with go|]. run H.
  { destruct (cleanupPoolProbe _ _) as [u|e]; [done|].
    apply fail_step_run in R0 as (H1 & _ & [->|(h' & _ & H2)]); [exists []; auto with go|].
    eexists. split; [by apply same_continues|]. left. split; [by constructor|done]. }
  destruct (cleanupPoolProbe _ _) as [u|e]; [|by apply fail_step_run in R0 as (_ & R0 & _)].
  injection R0 as <- <-. run H; apply get_host_run in R0 as [-> R0]; [exists []; auto with go|].
  assert (x0 = h) as -> by congruence. run H; apply record_step_run in R1 as (H1 & _ & H2); [subst; exists []; auto with go|].
  destruct H2 as (h' & Hh' & H2). assert (h' = h) as -> by congruence.
  apply unlocked_run in H as (s3 & H & ->). eapply cutover_run in H as (cut & [H3 H4] & H5); [|done|].
  2: by rewrite <- (same_host_at _ _ l H1) in Hh.
  cbn in H3, H4. set (r1 := pool_record _ _ _ _ _ _ _ _) in H2.
  exists ([EvRecord (wh_PoolRestartPath h) r1; EvLock (wh_Pool h)] ++ cut ++ [EvUnlock (wh_Pool h)]). split.
  - split; cbn; [by rewrite H3, H2, <- !(assoc_L (++))|]. destruct H1 as (H1 & _). lia.
  - right. exists r1, cut. split_and!; [done..|]. destruct H1 as (H1 & _). cbn in H5. by rewrite H1 in H5.
Qed.

Lemma restart_live_run float_text a w pool l h s s' r :
  la_claims (ra_launch a) = [] → host_at s l = Some h →
  restart_live E float_text a w pool l s = (s', r) →
  ∃ evs, continues s s' evs ∧
    ∀ snap, ra_snapshot a = Ok snap → restart_log s s' l h (wh_cmd h && ra_alive a (wh_PID h)) snap evs.
Proof.
  intros Hc Hh. unfold restart_live. intros H.
  assert (∃ evs, continues s s evs ∧
    ∀ snap, ra_snapshot a = Ok snap → restart_log s s l h (wh_cmd h && ra_alive a (wh_PID h)) snap evs) as Hnone.
  { exists []. split; [auto with go|]. intros snap _. left. auto with go. }
  run H; apply get_host_run in R as [-> R]; [done|]. assert (x = h) as -> by congruence. clear R.
  do 4 (run H; unfold st_lift in *; match goal with R : (_, _) = (_, _) |- _ => injection R as <- ? end; [done|]).
  run H; apply record_step_run in R as (Hs1 & _ & R); [by subst|].
  destruct R as (h' & Hh' & Hl). assert (h' = h) as -> by congruence.
  match type of Hl with _ = _ ++ [EvRecord _ ?r] => set (r0 := r) in Hl end.
  assert (host_at x4 l = Some h) as Hh4 by by rewrite (same_host_at _ _ _ Hs1).
  destruct (executePooledProbe _ _ _) as [result [u|e]] eqn:Ep.
  - destruct result as [result|].
    2: { injection H as <- <-. exists [EvRecord (wh_PoolRestartPath h) r0]. split; [by apply same_continues|].
         left. split; [by constructor|done]. }
    run H; [done|]. injection R as <- <-. apply (probe_passed_run _ _ _ _ _ _ _ _ h) in H as (evs & [H4 H5] & H6);
      [|done|done]. cbn in H4, H5. destruct Hs1 as (Hn & Hrest).
    exists ([EvRecord (wh_PoolRestartPath h) r0; EvProbe x2 true] ++ evs). split.
    { split; [by rewrite H4, Hl, <- !(assoc_L (++))|]. lia. }
    intros snap' Hsnap. assert (snap' = x) as -> by congruence. destruct H6 as [[H6 H7]|(r1 & cut & -> & H6 & H7 & H8)].
    + left. split; [by repeat constructor|]. eapply same_hosts_trans; [|exact H7]. by split.
    + right. exists x2, r0, r1, cut. cbn in H8. rewrite Hn in H8. split_and!; done.
  - assert ((log_event (EvProbe x2 false) ≫= λ _, probe_failed E a w l x (pe_mint E "transition") x2 result e) x4
            = (s', r)) as H' by by destruct result.
    clear H. run H'; [done|]. injection R as <- <-. apply probe_failed_run in H' as (H4 & evs & H5 & H6).
    cbn in H5. exists ([EvRecord (wh_PoolRestartPath h) r0; EvProbe x2 false] ++ evs). split.
    { split; [by rewrite H5, Hl, <- !(assoc_L (++))|]. destruct Hs1 as (Hn & _), H4 as (Hn' & _). cbn in Hn'. lia. }
    intros snap' _. left. split; [by repeat constructor|]. eapply same_hosts_trans; [exact Hs1|done].
Qed.
End traces.

(** ** The order of a restart *)

Lemma split_in_app {A} (pre post xs ys : list A) e :
  xs ++ ys = pre ++ e :: post →
  (∃ t, xs = pre ++ e :: t ∧ post = t ++ ys) ∨ ∃ t, pre = xs ++ t ∧ ys = t ++ e :: post.
Proof.
  revert pre. induction xs as [|x xs IH]; intros pre H; [right; by exists pre|].
  destruct pre as [|p pre]; injection H as -> H.
  - left. by exists xs.
  - apply IH in H as [(t & -> & ->)|(t & -> & ->)]; eauto.
Qed.

(** What a restart of the host [l] guarantees about its events. *)
Record restart_order (s s' : pools) (l : nat) (h : weaverHost) (stopped : bool)
    (snap : JvmPool.PoolSnapshot) (evs : list pool_event) : Prop := {
  ro_take : ∀ pre e post, evs = pre ++ e :: post → touches l e = true →
    (∃ m, EvProbe m true ∈ pre) ∧
    (∃ r, EvRecord (wh_PoolRestartPath h) r ∈ pre ∧ pr_State r = "restarting" ∧
          pr_OldGenerationStopped r = false) ∧
    EvLock (wh_Pool h) ∈ pre ∧ EvUnlock (wh_Pool h) ∉ pre;
  ro_launch : ∀ pre l' post, evs = pre ++ EvLaunched l' :: post →
    l' ≠ l ∧ (stopped = true → EvStopped l ∈ pre) ∧ EvForgotten l ∈ pre ∧
    EvMarkerRemoved (wh_ReadyPath h) ∈ pre ∧ (∀ d, d ∈ owned_dirs (wh_Members h) → EvArtifacts d ∈ pre) ∧
    (∃ r, EvRecord (wh_PoolRestartPath h) r ∈ pre ∧ pr_OldGenerationStopped r = true) ∧
    EvLock (wh_Pool h) ∈ pre ∧ EvUnlock (wh_Pool h) ∉ pre;
  ro_members : ∀ path mf, EvManifest path mf ∈ evs →
    (lm_ConfigDir <$> mf_Members mf) = snapshot_dirs snap ∧
    mf_MembershipRevision mf = JvmPool.ps_Revision snap;
  ro_refused : (∀ m, EvProbe m true ∉ evs) → same_hosts s s';
}.

Section order.
Context (s s' : pools) (l : nat) (h : weaverHost) (stopped : bool) (snap : JvmPool.PoolSnapshot).
Context (Hl : l < po_next s).

Lemma replacement_event_new e :
  replacement_event (po_next s) snap e → touches l e = false ∧ e ≠ EvUnlock (wh_Pool h) ∧ e ≠ EvLaunched l.
Proof.
  destruct e; cbn; try done; intros H; split_and!; try done; try (apply bool_decide_eq_false; lia).
  injection 1 as ->. lia.
Qed.

Lemma quiet_not_unlock e : quiet e → e ≠ EvUnlock (wh_Pool h) ∧ starts e = false.
Proof. intros [H1 H2]. split; [|done]. by intros ->. Qed.

Lemma retirement_quiet r e : e ∈ retirement l h stopped r → quiet e.
Proof.
  unfold retirement. rewrite !elem_of_app. intros [H|[H|[H|H]]].
  - destruct stopped; [|by apply elem_of_nil in H]. apply list_elem_of_singleton in H as ->. done.
  - apply list_elem_of_singleton in H as ->. done.
  - apply list_elem_of_fmap in H as (d & -> & _). done.
  - rewrite !elem_of_cons in H. by destruct H as [->|[->|H%elem_of_nil]].
Qed.

Lemma cutover_no_unlock cut : cutover_log (po_next s) l h stopped snap cut → EvUnlock (wh_Pool h) ∉ cut.
Proof.
  intros [H|(r & started & -> & _ & H)] Hin.
  - rewrite Forall_forall in H. by apply H, quiet_not_unlock in Hin as [? _].
  - rewrite Forall_forall in H. apply elem_of_app in Hin as [Hin|Hin].
    + by apply retirement_quiet, quiet_not_unlock in Hin as [? _].
    + by apply H, replacement_event_new in Hin as (_ & ? & _).
Qed.

Lemma announced_plain m r0 r1 e :
  e ∈ announced h m r0 r1 → touches l e = false ∧ starts e = false ∧ e ≠ EvUnlock (wh_Pool h).
Proof. unfold announced. rewrite !elem_of_cons. by intros [->|[->|[->|[->|H%elem_of_nil]]]]. Qed.

Lemma idle_plain e : idle e → touches l e = false ∧ starts e = false.
Proof. by destruct e. Qed.

(** An event of the cutover comes after the announcement, with the lock held. *)
Lemma in_cutover m r0 r1 cut pre e post :
  EvUnlock (wh_Pool h) ∉ cut →
  announced h m r0 r1 ++ cut ++ [EvUnlock (wh_Pool h)] = pre ++ e :: post →
  touches l e || starts e = true →
  ∃ t post', pre = announced h m r0 r1 ++ t ∧ cut = t ++ e :: post' ∧ EvUnlock (wh_Pool h) ∉ pre.
Proof.
  intros Hu H He. apply split_in_app in H as [(t & H & _)|(t & -> & H)].
  { destruct (announced_plain m r0 r1 e) as (H1 & H2 & _); [rewrite H; set_solver|]. by rewrite H1, H2 in He. }
  apply split_in_app in H as [(t' & H & _)|(t' & -> & H)].
  - exists t, t'. split_and!; [done..|]. intros [Hin|Hin]%elem_of_app; [by apply announced_plain in Hin as (_ & _ & ?)|].
    apply Hu. rewrite H. set_solver.
  - exfalso. destruct t' as [|x [|y t']]; injection H as H; subst; try done.
Qed.

Lemma restart_log_order evs :
  restart_log s s' l h stopped snap evs → restart_order s s' l h stopped snap evs.
Proof.
  intros [[Hi Hs]|(m & r0 & r1 & cut & -> & Hst & Hold & Hcut)].
  { rewrite Forall_forall in Hi. split; [| | |done].
    - intros pre e post -> Ht. destruct (idle_plain e) as [H1 _]; [apply Hi; set_solver|]. congruence.
    - intros pre l' post ->. destruct (idle_plain (EvLaunched l')) as [_ H1]; [apply Hi; set_solver|done].
    - intros path mf Hin. by apply Hi in Hin. }
  pose proof (cutover_no_unlock cut Hcut) as Hu. split.
  - intros pre e post H Ht. apply in_cutover in H as (t & post' & -> & _ & Hun); [|done|by rewrite Ht].
    unfold announced in *. split_and!; [exists m; set_solver|exists r1; set_solver|set_solver|done].
  - intros pre l' post H. apply in_cutover in H as (t & post' & -> & -> & Hun); [|done..].
    destruct Hcut as [Hq|(rec & started & Hcut & Hrec & Hnew)].
    { rewrite Forall_forall in Hq. destruct (Hq (EvLaunched l')) as [? _]; [set_solver|done]. }
    symmetry in Hcut. apply split_in_app in Hcut as [(t' & Hcut & _)|(t' & -> & Hcut)].
    { destruct (retirement_quiet rec (EvLaunched l')) as [? _]; [rewrite Hcut; set_solver|done]. }
    rewrite Hcut, Forall_app, Forall_cons in Hnew. destruct Hnew as (_ & (_ & _ & Hne)%replacement_event_new & _).
    assert (∀ e, e ∈ retirement l h stopped rec → e ∈ announced h m r0 r1 ++ retirement l h stopped rec ++ t') as Hin
      by (intros e He; apply elem_of_app; right; apply elem_of_app; by left). unfold retirement in Hin at 1. setoid_rewrite elem_of_app in Hin at 1.
    split_and!.
    + intros ->. done.
    + intros Hsp. apply Hin. left. rewrite Hsp. set_solver.
    + apply Hin. right. set_solver.
    + apply Hin. right. set_solver.
    + intros d Hd. apply Hin. right. apply elem_of_app. right. apply elem_of_app. left.
      by apply list_elem_of_fmap_2.
    + exists rec. split; [|done]. apply Hin. right. set_solver.
    + unfold announced. set_solver.
    + done.
  - intros path mf Hin. apply elem_of_app in Hin as [Hin|Hin]; [by apply announced_plain in Hin as (_ & ? & _)|].
    apply elem_of_app in Hin as [Hin|Hin]; [|by apply list_elem_of_singleton in Hin].
    destruct Hcut as [Hq|(rec & started & -> & Hrec & Hnew)].
    { rewrite Forall_forall in Hq. by apply Hq in Hin as [? _]. }
    apply elem_of_app in Hin as [Hin|Hin]; [by apply retirement_quiet in Hin as [? _]|].
    rewrite Forall_forall in Hnew. by apply Hnew in Hin.
  - intros Hno. exfalso. apply (Hno m). unfold announced. set_solver.
Qed.
End order.


(** ** Examples *)

Definition sample_env : penv :=
  mkPEnv (Some "/") "/x" (Some "/home") Some EvalReal (λ d, d) (λ _, [0%Z; 1%Z; 2%Z]) (λ purpose, "id-" +:+ Base purpose)
    (λ _, Some "name") (λ s, s) "bad" "1.0" "now" (λ _, "failed").

Definition sample_basis : string := "sha256:0123456789abcdef0123456789abcdef0123456789abcdef0123456789abcdef".

Definition sample_world : world := default (mkWorld "" "" "" "" "") (runtime_world sample_env "/w/a").

Definition sample_identity : weaverIdentity := mkIdentity 7 "weaver-a" "generation-a" "started" "/s/a/sock" "/w/a" "/s/a" "/d/a".

Definition sample_host : weaverHost :=
  mkHost "pool" "host-a" "generation-a" sample_basis "rev" true 7 "" 
    [mkPMember sample_world "/w/a" "a" "weaver-a" "generation-a" "basis" sample_identity] ∅
    "/p/ready.json" "/p/launch.json" "/p/host.log" "/p/restart.json" true.

(** Mill with one live host. *)
Definition sample_pools : pools :=
  mkPools 1 {[0 := sample_host]} {["pool" := 0]} {["/w/a" := 0]} ∅ ∅ [].

Definition sample_snapshot : JvmPool.PoolSnapshot :=
  JvmPool.mkSnapshot "pool" "rev" [JvmPool.mkMember "/w/a" "/w/a" "pool"].

(** The document of a probe whose members all passed. *)
Definition passing_row (m : poolProbeMember) : doc :=
  DObject ([("original_config_dir", DString (bm_OriginalConfigDir m));
            ("probe_config_dir", DString (bm_ProbeConfigDir m));
            ("candidate_weaver_id", DString (bm_CandidateWeaverID m));
            ("candidate_generation_id", DString (bm_CandidateGenerationID m));
            ("status", DString "validated"); ("registry_projection", DObject []);
            ("member_diagnostic", DString (bm_MemberDiagnostic m))] ++
           (if is_none (bm_OldMemberBaseline m) then [("baseline_kind", DString "newcomer")]
            else [("baseline_kind", DString "live");
                  ("registry_diff", DObject [("added", DObject []); ("removed", DObject []); ("changed", DObject [])])])).

Definition passing_document (m : poolProbeManifest) : doc :=
  DObject [("format", DString poolProbeResultFormat); ("probe_id", DString (bf_ProbeID m)); ("success", DBool true);
           ("stage", DString "probe/complete"); ("probe_root", DString (bf_ProbeRoot m));
           ("source_workspace", DString "/w/a"); ("completed", DArray []); ("members", DArray (passing_row <$> bf_Members m));
           ("collective_diagnostic", DString (bf_CollectiveDiagnostic m)); ("log", DString "/p/log")].

(** What a launched host publishes: its marker and the metadata of its members. *)
Definition sample_launched : poolLaunchManifest * weaverHost :=
  match poolHostFromSnapshot sample_env sample_snapshot "/src" "/x/millstrand" with
  | Ok mh => mh
  | Err _ => (mkManifest "" "" "" "" "" "" "" "" [], sample_host)
  end.

Definition published_by (h : weaverHost) (m : poolMember) : doc :=
  let w := pm_World m in
  DObject [("protocol_version", DNumber "3"); ("version", DString "1.2.3"); ("pid", DNumber "9");
    ("database_kind", DString "sqlite-file"); ("database_label", DString (DBPath w));
    ("database_path", DString (DBPath w)); ("weaver_id", DString (pm_WeaverID m));
    ("generation_id", DString (pm_GenerationID m)); ("basis_fingerprint", DString sample_basis);
    ("jvm_pool", DString (wh_Pool h)); ("host_id", DString (wh_HostID h));
    ("host_generation_id", DString (wh_HostGenerationID h)); ("member_basis_fingerprint", DString sample_basis);
    ("pool_restart_path", DString (wh_PoolRestartPath h)); ("config_dir", DString (ConfigDir w));
    ("state_dir", DString (StateDir w)); ("data_dir", DString (DataDir w)); ("name", DString "name");
    ("socket_path", DString (PathJoin [StateDir w; "weaver.sock"])); ("started_at", DString "now");
    ("nrepl", DObject [("host", DString "127.0.0.1"); ("port", DNumber "7000")])].

Definition marker_row (m : poolMember) : doc :=
  DObject [("config_dir", DString (pm_ConfigDir m)); ("weaver_id", DString (pm_WeaverID m));
           ("generation_id", DString (pm_GenerationID m));
           ("socket_path", DString (PathJoin [StateDir (pm_World m); "weaver.sock"]));
           ("nrepl_host", DString "127.0.0.1"); ("nrepl_port", DNumber "7000")].

Definition marker_of (h : weaverHost) : doc :=
  DObject [("format", DString poolReadyFormat); ("jvm_pool", DString (wh_Pool h)); ("host_id", DString (wh_HostID h));
           ("host_generation_id", DString (wh_HostGenerationID h));
           ("membership_revision", DString (wh_MembershipRev h)); ("pid", DNumber "9");
           ("basis_fingerprint", DString sample_basis); ("members", DArray (marker_row <$> wh_Members h))].

Definition sample_files : files :=
  let '(m, h) := sample_launched in
  list_to_map ([(wh_ReadyPath h, Holds (Some (marker_of h))); (wh_ManifestPath h, Holds (Some (encode_manifest m)))] ++
               ((λ x, (weaver_json (StateDir (pm_World x)), Holds (Some (published_by h x)))) <$> wh_Members h)).

Definition serving (pid : Z) : bool := bool_decide (pid = 7%Z) || bool_decide (pid = 9%Z).

Definition sample_view : view := mkView ∅ serving (λ _, true).

Definition sample_launch : launch_answers :=
  mkLaunchAnswers [] (mkLook (λ _, false) (λ _, true) []) (Some "/src") true true (Some 9%Z)
    [mkPoll sample_view false false; mkPoll (mkView sample_files serving (λ _, true)) false false]
    (mkView sample_files serving (λ _, true)) None.

Definition sample_answers (probe : probe_answers) : restart_answers :=
  mkRestartAnswers (mkLook (λ _, true) (λ _, true) []) "pool" (Ok sample_snapshot) (Some "/src")
    (λ _, Some {["registry_projection" := JObject ∅]}) probe sample_view true true true (λ _, true) (λ _, true) (λ _, None)
    sample_launch.

Definition sample_manifest : option poolProbeManifest :=
  match probe_manifest sample_env (sample_answers (mkProbeAnswers true true true None None true)) sample_host
          sample_snapshot "/src" "/x/millstrand" with
  | Ok m => Some m | Err _ => None
  end.

Definition sample_restart (passes : bool) : restart_answers :=
  sample_answers (mkProbeAnswers true true true (if passes then None else Some "failed")
                    (Some (passing_document <$> sample_manifest)) true).

