(* ===== verification/PoolCustody.v ===== *)
(** What mill keeps of the hosts of JVM pools (src/cli/cmd/mill/pool_lifecycle.go): its
    routes lead to hosts it knows, a discovered host is proved member by member, a wait
    for readiness ends with the proof or without it, a stop takes the routes away, and a
    host whose process is gone blocks the next start. *)

From S2P Require Export Pool.

(** ** Routes *)

(** Mill's routes lead to hosts that it knows, of the pool and with the member. *)
Record routed (s : pools) : Prop := {
  rt_hosts : ∀ p l, po_hosts s !! p = Some l → ∃ h, host_at s l = Some h ∧ wh_Pool h = p;
  rt_members : ∀ d l, po_members s !! d = Some l → ∃ h, host_at s l = Some h ∧ d ∈ poolConfigDirs (wh_Members h);
  rt_heap : ∀ l h, host_at s l = Some h → l < po_next s;
}.

(** No call forgets a host's pool or its members. *)
Definition hosts_kept (s s' : pools) : Prop :=
  ∀ l h, host_at s l = Some h → ∃ h', host_at s' l = Some h' ∧ wh_Pool h' = wh_Pool h ∧
    poolConfigDirs (wh_Members h') = poolConfigDirs (wh_Members h).

Lemma hosts_kept_refl s : hosts_kept s s.
Proof. intros l h Hh. by exists h. Qed.

Lemma hosts_kept_trans s1 s2 s3 : hosts_kept s1 s2 → hosts_kept s2 s3 → hosts_kept s1 s3.
Proof.
  intros H1 H2 l h Hh. destruct (H1 l h Hh) as (h' & Hh' & E1 & E2). destruct (H2 l h' Hh') as (h'' & Hh'' & E3 & E4).
  exists h''. split_and!; congruence.
Qed.

(** The host of pool [p] that [l] points to. *)
Definition host_for (p : string) (l : nat) (s : pools) : Prop := ∃ h, host_at s l = Some h ∧ wh_Pool h = p.

Lemma host_for_stable p l s s' : hosts_kept s s' → host_for p l s → host_for p l s'.
Proof. intros H (h & Hh & Hp). destruct (H l h Hh) as (h' & Hh' & E & _). exists h'. split; congruence. Qed.

(** [K] is what the caller knows of the state, and stays true. *)
Definition keeping (K : pools → Prop) {A} (Q : A → pools → Prop) (m : PM A) : Prop :=
  ∀ s, routed s → K s →
    routed (m s).1 ∧ hosts_kept s (m s).1 ∧ match (m s).2 with Ok a => Q a (m s).1 | Err _ => True end.

Definition stable (K : pools → Prop) : Prop := ∀ s s', hosts_kept s s' → K s → K s'.

Definition nothing {A} : A → pools → Prop := λ _ _, True.

Lemma same_routed s s' : same_hosts s s' → routed s → routed s'.
Proof.
  intros Hs [H1 H2 H3]. pose proof (same_host_at s s') as Ha. destruct Hs as (E1 & E2 & E3 & E4).
  assert (∀ l, host_at s' l = host_at s l) as Hh by (intros l; by apply Ha). split.
  - intros p l. rewrite E3, Hh. apply H1.
  - intros d l. rewrite E4, Hh. apply H2.
  - intros l h. rewrite Hh, E1. apply H3.
Qed.

Lemma same_kept s s' : same_hosts s s' → hosts_kept s s'.
Proof. intros Hs l h Hh. exists h. by rewrite (same_host_at _ _ _ Hs). Qed.

Section keeping.
Context (K : pools → Prop) (HK : stable K).

Lemma keeping_bind {A B} (Q1 : A → pools → Prop) (Q2 : B → pools → Prop) (m : PM A) (f : A → PM B) :
  keeping K Q1 m → (∀ a, keeping (λ s, K s ∧ Q1 a s) Q2 (f a)) → keeping K Q2 (m ≫= f).
Proof.
  intros Hm Hf s Hr Hk. destruct (Hm s Hr Hk) as (H1 & H2 & H3).
  unfold mbind, st_bind. destruct (m s) as [s1 [a|e]]; cbn in *; [|done].
  destruct (Hf a s1) as (H4 & H5 & H6); [done|by eauto|]. split_and!; [done| |done]. by eapply hosts_kept_trans.
Qed.

Lemma keeping_weaken {A} (K' : pools → Prop) (Q : A → pools → Prop) (m : PM A) :
  (∀ s, K s → K' s) → keeping K' Q m → keeping K Q m.
Proof. intros H Hm s Hr Hk. apply Hm; auto. Qed.

Lemma keeping_same {A} (m : PM A) :
  (∀ s s' r, m s = (s', r) → same_hosts s s') → keeping K nothing m.
Proof.
  intros H s Hr _. destruct (m s) as [s' r] eqn:E. cbn. apply H in E.
  split_and!; [by eapply same_routed|by apply same_kept|by destruct r].
Qed.

Lemma keeping_error {A} (Q : A → pools → Prop) (m : PM A) (c : PM unit) :
  keeping K Q m → keeping K nothing c → keeping K Q (on_error m c).
Proof.
  intros Hm Hc s Hr Hk. destruct (Hm s Hr Hk) as (H1 & H2 & H3). unfold on_error.
  destruct (m s) as [s1 [a|e]]; cbn in *; [done|].
  destruct (Hc s1) as (H4 & H5 & _); [done|by eauto|]. split_and!; [done| |done]. by eapply hosts_kept_trans.
Qed.
End keeping.

Lemma keeping_seq {A B} K (Q : B → pools → Prop) (m : PM A) (f : A → PM B) :
  stable K → keeping K nothing m → (∀ a, keeping K Q (f a)) → keeping K Q (m ≫= f).
Proof.
  intros HK Hm Hf. eapply keeping_bind; [done..|]. intros a. eapply keeping_weaken; [|apply Hf]. by intros s [? _].
Qed.

Lemma keeping_then {A B} K (Q1 : A → pools → Prop) (Q : B → pools → Prop) (m : PM A) (f : A → PM B) :
  stable K → keeping K Q1 m → (∀ a, keeping (λ s, K s ∧ Q1 a s) Q (f a)) → keeping K Q (m ≫= f).
Proof. intros HK. by apply keeping_bind. Qed.

Lemma stable_true : stable (λ _, True).
Proof. done. Qed.

Lemma stable_host_for p l : stable (host_for p l).
Proof. intros s s'. apply host_for_stable. Qed.

Definition host_dirs (l : nat) (ds : list string) (s : pools) : Prop :=
  ∃ h, host_at s l = Some h ∧ poolConfigDirs (wh_Members h) = ds.

Lemma stable_host_dirs l ds : stable (host_dirs l ds).
Proof. intros s s' H (h & Hh & E). destruct (H l h Hh) as (h' & Hh' & _ & E'). exists h'. split; congruence. Qed.

Lemma stable_and K1 K2 : stable K1 → stable K2 → stable (λ s, K1 s ∧ K2 s).
Proof. intros H1 H2 s s' He [? ?]. split; eauto. Qed.

#[global] Hint Resolve stable_true stable_host_for stable_host_dirs stable_and : go.

Section operations.
Context (K : pools → Prop).

Lemma keeping_ret {A} (a : A) : keeping K nothing (mret a).
Proof. apply keeping_same. by intros s s' r [= <- <-]. Qed.

Lemma keeping_fail {A} (Q : A → pools → Prop) e : keeping K Q (st_fail (A:=A) e).
Proof. intros s Hr _. split_and!; [done|apply hosts_kept_refl|done]. Qed.

Lemma keeping_lift {A} (r : result pool_fault A) : keeping K nothing (st_lift r).
Proof. apply keeping_same. by intros s s' r' [= <- <-]. Qed.

Lemma keeping_ensure b e : keeping K nothing (st_ensure b e).
Proof. apply keeping_lift. Qed.

Lemma keeping_get : keeping K nothing (st_get (S:=pools) (E:=pool_fault)).
Proof. apply keeping_same. by intros s s' r' [= <- <-]. Qed.

Lemma keeping_host l : keeping K (λ h s, host_at s l = Some h) (get_host l).
Proof.
  intros s Hr _. unfold get_host. destruct (host_at s l) as [h|] eqn:E; cbn; (split_and!; [done|apply hosts_kept_refl|done]).
Qed.

Lemma keeping_log e : keeping K nothing (log_event e).
Proof. apply keeping_same. by intros s s' r [= <- <-]. Qed.

Lemma keeping_files fs : keeping K nothing (see_files fs).
Proof. apply keeping_same. by intros s s' r [= <- <-]. Qed.

Lemma removal_routed s l h :
  routed s → routed (removePoolHost l h s) ∧ hosts_kept s (removePoolHost l h s).
Proof.
  intros [H1 H2 H3]. unfold removePoolHost.
  set (s1 := if bool_decide _ then _ else s).
  assert (po_heap s1 = po_heap s ∧ po_next s1 = po_next s ∧ po_members s1 = po_members s ∧
          ∀ p l', po_hosts s1 !! p = Some l' → po_hosts s !! p = Some l') as (E1 & E2 & E3 & E4).
  { subst s1. case_bool_decide; split_and!; try done. intros p l'. cbn. by intros [_ ?]%lookup_delete_Some. }
  assert (∀ ds (ms : gmap string nat) d l',
    foldl (λ ms d, if bool_decide (ms !! d = Some l) then delete d ms else ms) ms ds !! d = Some l' →
    ms !! d = Some l') as Hf.
  { induction ds as [|d0 ds IH]; intros ms d l' H; [done|]. cbn in H. apply IH in H.
    case_bool_decide; [|done]. by apply lookup_delete_Some in H as [_ ?]. }
  split.
  - split; unfold host_at; cbn; rewrite ?E1, ?E2.
    + intros p l' Hp. apply E4, H1 in Hp. done.
    + intros d l' Hd. apply Hf in Hd. rewrite E3 in Hd. apply H2 in Hd. done.
    + intros l' h' Hh. by eapply H3.
  - intros l' h' Hh. exists h'. unfold host_at in *. cbn. by rewrite E1.
Qed.

Lemma keeping_forget l : keeping K nothing (forget_host l).
Proof.
  intros s Hr _. unfold forget_host. destruct (host_at s l) as [h|]; cbn.
  - destruct (removal_routed s l h Hr) as [H1 H2]. done.
  - split_and!; [done|apply hosts_kept_refl|done].
Qed.

Lemma keeping_alloc h : keeping K (λ l, host_for (wh_Pool h) l) (alloc_host h).
Proof.
  intros s [H1 H2 H3] _. cbn.
  assert (∀ l x, po_heap s !! l = Some x → l ≠ po_next s) as Hne.
  { intros l x Hx ->. specialize (H3 _ _ Hx). lia. }
  set (s' := mkPools (S (po_next s)) _ _ _ _ _ _).
  assert (∀ l x, host_at s l = Some x → host_at s' l = Some x) as Hk.
  { intros l x Hx. unfold host_at. cbn. rewrite lookup_insert_ne; [done|]. intros <-. by eapply Hne. }
  split_and!; [split|..].
  - intros p l (x & Hx & E)%H1. exists x. auto.
  - intros d l (x & Hx & E)%H2. exists x. auto.
  - intros l x Hx. unfold host_at in Hx. cbn in *. apply lookup_insert_Some in Hx as [[<- _]|[_ Hx]]; [lia|].
    specialize (H3 _ _ Hx). lia.
  - intros l x Hx. exists x. auto.
  - exists h. split; [|done]. unfold host_at. cbn. by rewrite lookup_insert_eq.
Qed.

Lemma keeping_register p l : (∀ s, K s → host_for p l s) → keeping K nothing (register_host p l).
Proof.
  intros HK s Hr Hk. unfold register_host.
  assert (routed (with_hosts <[p:=l]> s) ∧ hosts_kept s (with_hosts <[p:=l]> s)) as Hreg.
  { split; [|by intros l' h Hh; exists h]. destruct Hr as [H1 H2 H3]. split; [|apply H2|apply H3].
    intros p' l'. cbn. intros [[<- <-]|[_ H]]%lookup_insert_Some; [exact (HK s Hk)|exact (H1 p' l' H)]. }
  destruct (host_of_pool p s) as [[l' old]|]; [destruct (wh_Live old)|]; cbn; by (try (split_and!; [done|apply hosts_kept_refl|done]); split_and!; try apply Hreg).
Qed.

(** A change of a host that is none of its pool or its members' directories. *)
Definition modest (f : weaverHost → weaverHost) : Prop :=
  ∀ h, wh_Pool (f h) = wh_Pool h ∧ poolConfigDirs (wh_Members (f h)) = poolConfigDirs (wh_Members h).

Lemma modest_heap f l s : modest f → routed s → routed (with_heap (alter f l) s) ∧ hosts_kept s (with_heap (alter f l) s).
Proof.
  intros Hf [H1 H2 H3].
  assert (hosts_kept s (with_heap (alter f l) s)) as He.
  { intros l' h Hh. unfold host_at in *. cbn. destruct (decide (l' = l)) as [->|Hne].
    - exists (f h). rewrite lookup_alter_eq, Hh. destruct (Hf h). done.
    - exists h. by rewrite lookup_alter_ne. }
  split; [split|done].
  - intros p l' (h & Hh & E)%H1. destruct (He l' h Hh) as (h' & ? & ? & _). exists h'. split; congruence.
  - intros d l' (h & Hh & E)%H2. destruct (He l' h Hh) as (h' & ? & _ & ?). exists h'. split; congruence.
  - intros l' h. unfold host_at. cbn. intros Hh. destruct (decide (l' = l)) as [->|Hne].
    + rewrite lookup_alter_eq in Hh. destruct (po_heap s !! l) eqn:E; [|done]. by eapply H3.
    + rewrite lookup_alter_ne in Hh by done. by eapply H3.
Qed.

Lemma keeping_update l f : modest f → keeping K nothing (update_host l f).
Proof. intros Hf s Hr _. cbn. destruct (modest_heap f l s Hf Hr). done. Qed.

Lemma admit_identity_dirs id st i ms :
  poolConfigDirs (alter (admit_identity id st) i ms) = poolConfigDirs ms.
Proof.
  unfold poolConfigDirs. revert i. induction ms as [|m ms IH]; intros [|i]; try done. cbn. f_equal. apply IH.
Qed.

Lemma keeping_publish statuses l ds ms i :
  stable K → (∀ s, K s → host_dirs l ds s) → (∀ m, m ∈ ms → pm_ConfigDir m ∈ ds) →
  keeping K nothing (publish_members statuses l i ms).
Proof.
  intros HK Hd. revert i. induction ms as [|m ms IH]; intros i Hms; cbn [publish_members]; [apply keeping_ret|].
  destruct (identityFromStatus _) as [id|e]; [|apply keeping_fail].
  apply keeping_seq; [done| |intros _; apply IH; set_solver].
  intros s Hr Hk. cbn.
  set (f := λ h, set_members (alter (admit_identity id _) i (wh_Members h)) h).
  destruct (modest_heap f l s) as [H1 H2]; [|done|].
  { intros h. split; [done|]. apply admit_identity_dirs. }
  split_and!; [|done..]. destruct H1 as [R1 R2 R3]. split; [apply R1| |apply R3].
  intros d l'. cbn. intros [[<- <-]|[_ H]]%lookup_insert_Some; [|by apply R2].
  destruct (Hd s Hk) as (h & Hh & E). destruct (H2 l h Hh) as (h' & Hh' & _ & E').
  exists h'. split; [done|]. rewrite E', E. apply Hms. set_solver.
Qed.
End operations.

Lemma modest_live b : modest (set_live b).
Proof. by intros h. Qed.
Lemma modest_process pid : modest (set_process pid).
Proof. by intros h. Qed.
Lemma modest_basis b : modest (set_basis b).
Proof. by intros h. Qed.

#[global] Hint Resolve keeping_ret keeping_fail keeping_lift keeping_ensure keeping_get keeping_log keeping_files
  keeping_forget keeping_update modest_live modest_process modest_basis keeping_error : go.

(** [keep] walks a call; what remains are the pieces with lemmas of their own. *)
Ltac keep :=
  repeat first
    [ solve [auto with go]
    | apply keeping_error
    | lazymatch goal with |- keeping _ _ (_ ≫= _) => eapply keeping_seq; [by auto with go| |intros ?] end ].

Section custody.
Context (E : penv).

Lemma keeping_write K h snap state tid probe failure stopped previous io :
  keeping K nothing (writePoolRestartRecordForHost E h snap state tid probe failure stopped previous io).
Proof. apply keeping_same. intros s s' r H. by apply write_record_run in H as (H & _). Qed.

Lemma keeping_record K a step l snap state tid probe failure stopped previous :
  keeping K nothing (record_step E a step l snap state tid probe failure stopped previous).
Proof. apply keeping_same. intros s s' r H. by apply record_step_run in H as (H & _). Qed.

Lemma keeping_fail_step K a l snap tid probe stage message log stopped e :
  keeping K nothing (fail_step E a l snap tid probe stage message log stopped e).
Proof. apply keeping_same. intros s s' r H. by apply fail_step_run in H as (H & _). Qed.

Lemma keeping_get_host K l : keeping K nothing (get_host l).
Proof. apply keeping_same. intros s s' r H. by apply get_host_run in H as (-> & _). Qed.

Lemma keeping_status K l v snap dir : stable K → keeping K nothing (member_status E l v snap dir).
Proof. intros HK. unfold member_status. keep. apply keeping_get_host. Qed.

Lemma keeping_answer K l k snap dir : stable K → keeping K nothing (answer_from E l k snap dir).
Proof.
  intros HK. unfold answer_from. keep; [apply keeping_get_host|].
  destruct (poolHostHasMember _ _); keep. by apply keeping_status.
Qed.

(** What proves a discovered host: a marker of a living process, the launch manifest of
    its host, and the admission of each of the manifest's members. *)
Record host_proof (k : look) (pool : string) (fs : files) (h : weaverHost) (root hostDir : string)
    (marker : poolReadyMarker) (m : poolLaunchManifest) (xs : list (poolMember * object)) : Prop := {
  hp_dir : state_root E = Ok root ∧ host_dir E root pool = Ok hostDir;
  hp_marker : readPoolReady (fs !! PathJoin [hostDir; "ready.json"]) = Ok (Some marker);
  hp_alive : lk_alive k (rd_PID marker) = true;
  hp_manifest : matching_manifest fs (rd_HostID marker) (lk_launches k) = Some m;
  hp_restart : poolRestartRecordPath E root pool = Ok (mf_PoolRestartPath m);
  hp_members : discovered_members E (lk_alive k) fs (mf_Members m) = Ok xs;
  hp_host : h = found_host k pool hostDir marker m xs;
  hp_admitted : admitted_by (lk_alive k) (lk_endpoint k) h marker (statuses_of m xs);
}.

Lemma find_host_found k pool fs h :
  find_host E k pool fs = Ok (Some h) →
  ∃ root hostDir marker m xs, host_proof k pool fs h root hostDir marker m xs.
Proof.
  unfold find_host. intros H. apply result_bind_ok in H as (root & Hroot & H).
  apply result_bind_ok in H as (hostDir & Hdir & H).
  destruct (readPoolReady _) as [[mk|]|] eqn:Em; [|done..].
  destruct (lk_alive k (rd_PID mk)) eqn:Ea; [|done]. cbn [negb] in H.
  destruct (matching_manifest _ _ _) as [m|] eqn:Emm; [|done].
  apply result_bind_ok in H as (expected & He & H). apply result_bind_ok in H as ([] & Hr & H).
  apply result_bind_ok in H as (xs & Hxs & H).
  destruct (validatePoolAdmission _ _ _ _ _) as [[]|] eqn:Ev; [|done]. injection H as <-.
  apply validatePoolAdmission_ok in Ev. apply ensure_ok, bool_decide_eq_true in Hr. subst expected.
  exists root, hostDir, mk, m, xs. by split.
Qed.

Lemma install_routed h s : routed s → routed (install_host h s).1 ∧ hosts_kept s (install_host h s).1.
Proof.
  intros Hr. destruct (keeping_alloc (λ _, True) h s Hr I) as (Ha & Hx & Hfor).
  set (s1 := (alloc_host h s).1) in *. cbn in Hfor.
  assert (host_at s1 (po_next s) = Some h) as Hh by (unfold host_at; cbn; by rewrite lookup_insert_eq).
  split; [|exact Hx]. destruct Ha as [H1 H2 H3]. cbn. split; [| |exact H3].
  - cbn. intros p l [[<- <-]|[_ H]]%lookup_insert_Some; [by exists h|exact (H1 p l H)].
  - assert (∀ ds (ms : gmap string nat), (∀ d', d' ∈ ds → d' ∈ poolConfigDirs (wh_Members h)) →
      (∀ d' l', ms !! d' = Some l' → ∃ h', host_at s1 l' = Some h' ∧ d' ∈ poolConfigDirs (wh_Members h')) →
      ∀ d' l', foldl (λ ms d, <[d:=po_next s]> ms) ms ds !! d' = Some l' →
      ∃ h', host_at s1 l' = Some h' ∧ d' ∈ poolConfigDirs (wh_Members h')) as Hf.
    { induction ds as [|d0 ds IH]; intros ms Hds Hms; [exact Hms|]. cbn. apply IH; [set_solver|].
      intros d' l' [[<- <-]|[_ H]]%lookup_insert_Some; [exists h; split; [done|apply Hds; set_solver]|by apply Hms]. }
    exact (Hf _ (po_members s) (λ d' H, H) H2).
Qed.

Lemma keeping_discover K k pool : keeping K nothing (discoverPoolHost E k pool).
Proof.
  intros s Hr _. unfold discoverPoolHost.
  assert (routed s ∧ hosts_kept s s ∧ True) as Hs by (split_and!; [done|apply hosts_kept_refl|done]).
  destruct (find_host E k pool (po_files s)) as [[h|]|e]; [|done..].
  pose proof (install_routed h s Hr) as [H1 H2].
  destruct (host_of_pool pool s) as [[l' h']|]; [destruct (wh_Live h'); [done|]|]; cbn; done.
Qed.

Lemma keeping_await K polls l : keeping K nothing (await_ready E polls l).
Proof.
  apply keeping_same. intros s s' r. unfold await_ready. destruct (host_at s l); [|by intros [= <- <-]].
  destruct (waitForPoolReady _ _ _ _). by intros [= <- <-].
Qed.

Lemma keeping_launch p l ds a snap pool dir :
  p = pool → keeping (λ s, host_for p l s ∧ host_dirs l ds s) nothing (launch_host E a snap pool dir l).
Proof.
  intros ->. set (K := λ s, host_for pool l s ∧ host_dirs l ds s).
  assert (stable K) as HK by (apply stable_and; auto with go). unfold launch_host, launch_process. keep.
  - apply keeping_register. by intros s [? _].
  - destruct (la_start a); keep.
  - apply keeping_await.
  - unfold admit_host. do 2 (apply keeping_seq; [done|by auto with go|intros _]).
    eapply keeping_then; [done|apply keeping_host|]. intros h.
    apply (keeping_weaken _ (host_dirs l (poolConfigDirs (wh_Members h)))).
    { intros s [_ Hh]. by exists h. }
    keep; [|destruct (readPoolReady _) as [[?|]|]; keep|apply keeping_get_host|apply keeping_write].
    eapply keeping_publish; [by auto with go|done|]. intros m Hm. by apply list_elem_of_fmap_2.
  - by apply keeping_status.
Qed.

Lemma keeping_manifest K io_ok path m : keeping K nothing (write_manifest io_ok path m).
Proof.
  apply keeping_same. intros s s' r. unfold write_manifest.
  destruct (writePoolLaunchManifest _ _ _ _) as [fs [u|e]]; by intros [= <- <-].
Qed.

Lemma poolHostFromSnapshot_pool snap source root m h :
  poolHostFromSnapshot E snap source root = Ok (m, h) → wh_Pool h = JvmPool.ps_Pool snap.
Proof.
  unfold poolHostFromSnapshot. intros H. inv_ok. destruct (canonical_path E root); [|done]. inv_ok. done.
Qed.

Lemma keeping_lifted {A B} K (Q : B → pools → Prop) (r : result pool_fault A) (f : A → PM B) :
  (∀ a, r = Ok a → keeping K Q (f a)) → keeping K Q (st_lift r ≫= f).
Proof.
  intros H s Hr Hk. unfold mbind, st_bind, st_lift. destruct r as [a|e]; [by apply H|].
  split_and!; [done|apply hosts_kept_refl|done].
Qed.

Lemma keeping_start_new a snap pool dir :
  JvmPool.ps_Pool snap = pool → keeping (λ _, True) nothing (start_new E a snap pool dir).
Proof.
  intros Hp. unfold start_new. apply keeping_lifted. intros source _. apply keeping_lifted. intros root _.
  apply keeping_lifted. intros [m h] Hh%poolHostFromSnapshot_pool. cbn [fst snd].
  apply keeping_seq; [done|apply keeping_manifest|intros _]. apply keeping_seq; [done|apply keeping_ensure|intros _].
  eapply keeping_then; [done|apply keeping_alloc|]. intros l.
  intros s Hr [_ (h' & Hh' & Hp')]. eapply (keeping_launch _ l (poolConfigDirs (wh_Members h'))); [done|done|].
  split; exists h'; split; congruence.
Qed.

(** What may happen while a start waits for another one of the pool. *)
Definition claim_kept (pool : string) (c : claim_end) : Prop :=
  match c with
  | ClaimShutdown => True
  | ClaimReread others r => (∀ s, routed s → routed (others s) ∧ hosts_kept s (others s)) ∧
                            ∀ snap, r = Ok snap → JvmPool.ps_Pool snap = pool
  end.

Lemma keeping_start a snap pool dir :
  Forall (claim_kept pool) (la_claims a) → JvmPool.ps_Pool snap = pool →
  keeping (λ _, True) nothing (startPooledWeaverFromSnapshot E a pool dir snap).
Proof.
  unfold startPooledWeaverFromSnapshot. intros Hc. revert snap.
  induction Hc as [|c claims Hc _ IH]; intros snap Hp; cbn [start_from]; keep.
  - unfold start_claimed. keep. case_match; [by apply keeping_answer|].
    keep; [apply keeping_discover|]. case_match; [by apply keeping_answer|by apply keeping_start_new].
  - destruct c as [|others [again|e]]; [apply keeping_fail|..]; destruct Hc as [Ho Hs].
    + apply keeping_seq; [done| |intros _; by apply IH, Hs]. intros s Hr _. cbn. destruct (Ho s Hr). done.
    + apply keeping_seq; [done| |intros _; apply keeping_fail]. intros s Hr _. cbn. destruct (Ho s Hr). done.
Qed.

Lemma keeping_unlocked {A} pool (m : PM A) :
  keeping (λ _, True) nothing m → keeping (λ _, True) nothing (unlocked pool m).
Proof.
  intros Hm s Hr _. unfold unlocked. destruct (Hm (logged (EvLock pool) s)) as (H1 & H2 & _).
  { by apply (same_routed s). }
  { done. }
  destruct (m (logged (EvLock pool) s)) as [s1 r]. cbn in *. split_and!; [by apply (same_routed s1)| |by destruct r].
  eapply hosts_kept_trans; [exact H2|]. by apply same_kept.
Qed.

Lemma keeping_stop_process K alive l : keeping K nothing (stopPoolProcess alive l).
Proof.
  apply keeping_same. intros s s' r. unfold stopPoolProcess.
  destruct (host_at s l) as [h|]; [destruct (_ && _)|]; by intros [= <- <-].
Qed.

Lemma keeping_cleanup K can_remove ms : keeping K nothing (cleanup_members can_remove ms).
Proof. apply keeping_same. intros s s' r H. by apply cleanup_members_run in H as (H & _). Qed.

Lemma keeping_marker K can_remove h : keeping K nothing (removePoolReadyMarker can_remove h).
Proof.
  apply keeping_same. intros s s' r. unfold removePoolReadyMarker.
  destruct (is_blank _); [|destruct (_ && _)]; by intros [= <- <-].
Qed.

Lemma keeping_remove_record K can_remove path : keeping K nothing (remove_record can_remove path).
Proof.
  apply keeping_same. intros s s' r. unfold remove_record.
  destruct (can_remove path); [|case_match]; by intros [= <- <-].
Qed.

Lemma keeping_stop a w : keeping (λ _, True) nothing (stopPooledWeaver E a w).
Proof.
  unfold stopPooledWeaver, host_to_stop. keep.
  - case_match; [case_match; keep|]. keep. case_match; keep; [apply keeping_discover|].
    case_match; keep.
  - case_match; keep; [apply keeping_get_host|]. apply keeping_unlocked. unfold stop_host. keep.
    + apply keeping_stop_process.
    + apply keeping_cleanup.
    + apply keeping_marker.
    + apply keeping_remove_record.
Qed.

Lemma keeping_retire K a snap tid probe l h : keeping K nothing (retire_artifacts E a snap tid probe l h).
Proof. apply keeping_same. intros s s' r H. by apply retire_artifacts_run in H as (H & _). Qed.

Lemma keeping_replace a w pool snap tid m result probe l :
  Forall (claim_kept pool) (la_claims (ra_launch a)) → JvmPool.ps_Pool snap = pool →
  keeping (λ _, True) nothing (replace_host E a w pool snap tid m result probe l).
Proof.
  intros Hc Hp s Hr _. unfold replace_host.
  destruct (keeping_start (ra_launch a) snap pool (ConfigDir w) Hc Hp s Hr I) as (H1 & H2 & _).
  destruct (startPooledWeaverFromSnapshot _ _ _ _ _ s) as [s1 [st|e]]; cbn in H1, H2.
  - match goal with |- context [(?m : PM _) s1] => assert (keeping (λ _, True) nothing m) as Hm end.
    { keep; [apply keeping_get_host|]. case_match; [case_match; apply keeping_record|keep]. }
    destruct (Hm s1 H1 I) as (H3 & H4 & H5). split_and!; [done| |done]. by eapply hosts_kept_trans.
  - match goal with |- context [(?m : PM _) s1] => assert (keeping (λ _, True) nothing m) as Hm end.
    { keep; [apply keeping_get_host|apply keeping_fail_step]. }
    destruct (Hm s1 H1 I) as (H3 & H4 & H5). split_and!; [done| |done]. by eapply hosts_kept_trans.
Qed.

Lemma keeping_restart_live float_text a w pool l :
  pool ≠ "" → Forall (claim_kept pool) (la_claims (ra_launch a)) →
  (∀ snap, ra_snapshot a = Ok snap → JvmPool.ps_Pool snap = pool) →
  keeping (λ _, True) nothing (restart_live E float_text a w pool l).
Proof.
  intros Hne Hc Hs. unfold restart_live. apply keeping_seq; [done|apply keeping_get_host|]. intros h.
  rewrite (bool_decide_eq_false_2 _ Hne). apply keeping_lifted. intros snap Hsnap%Hs. keep; [apply keeping_record|].
  destruct (executePooledProbe _ _ _) as [[result|] [u|e]]; keep.
  - unfold probe_passed. keep.
    + destruct (cleanupPoolProbe _ _); [keep|apply keeping_fail_step].
    + apply keeping_get_host.
    + apply keeping_record.
    + apply keeping_unlocked. unfold cutover. keep.
      * apply keeping_stop_process.
      * apply keeping_get_host.
      * apply keeping_record.
      * apply keeping_retire.
      * by apply keeping_replace.
  - unfold probe_failed. keep; [apply keeping_get_host|apply keeping_record].
  - unfold probe_failed. keep; [apply keeping_get_host|apply keeping_record].
Qed.

Lemma keeping_restart float_text a w pool :
  pool ≠ "" → Forall (claim_kept pool) (la_claims (ra_launch a)) →
  (∀ snap, ra_snapshot a = Ok snap → JvmPool.ps_Pool snap = pool) →
  keeping (λ _, True) nothing (restartPooledWeaver E float_text a w pool).
Proof.
  intros Hne Hc Hs. unfold restartPooledWeaver. keep.
  - intros s Hr _. unfold host_to_restart.
    assert (routed s ∧ hosts_kept s s ∧ True) as Hn by (split_and!; [done|apply hosts_kept_refl|done]).
    case_match; [by case_match|]. case_bool_decide; [done|]. case_match; [by case_match|].
    by apply (keeping_discover (λ _, True)).
  - case_match; [by apply keeping_restart_live|]. rewrite (bool_decide_eq_false_2 _ Hne).
    apply keeping_seq; [done|apply keeping_ensure|intros _]. apply keeping_lifted. intros snap Hsnap%Hs. keep. by apply keeping_start.
Qed.
End custody.

(** The operations of mill on its pools, with the answers they get. *)
Inductive pool_op :=
| OpStart (a : launch_answers) (pool dir : string) (snap : JvmPool.PoolSnapshot)
| OpStop (a : stop_answers) (w : world)
| OpRestart (a : restart_answers) (w : world) (pool : string)
| OpDiscover (k : look) (pool : string).

(** The snapshots are of the pool, and the starts waited for keep to the same rules. *)
Definition op_kept (op : pool_op) : Prop :=
  match op with
  | OpStart a pool _ snap => Forall (claim_kept pool) (la_claims a) ∧ JvmPool.ps_Pool snap = pool
  | OpRestart a _ pool => pool ≠ "" ∧ Forall (claim_kept pool) (la_claims (ra_launch a)) ∧
                          ∀ snap, ra_snapshot a = Ok snap → JvmPool.ps_Pool snap = pool
  | OpStop _ _ | OpDiscover _ _ => True
  end.

Definition run_op (E : penv) (float_text : string → option string) (op : pool_op) (s : pools) : pools :=
  match op with
  | OpStart a pool dir snap => (startPooledWeaverFromSnapshot E a pool dir snap s).1
  | OpStop a w => (stopPooledWeaver E a w s).1
  | OpRestart a w pool => (restartPooledWeaver E float_text a w pool s).1
  | OpDiscover k pool => (discoverPoolHost E k pool s).1
  end.

(** C12: Whatever starts, stops, restarts and discoveries mill makes, failed ones included,
    its routes lead to hosts that it knows: the host of a pool's name is of that pool, the
    host of a workspace has it as a member; and no host that it ever knew changes its pool
    or its members. *)
Theorem routes_kept E float_text ops s :
  routed s → Forall op_kept ops →
  routed (foldl (λ s op, run_op E float_text op s) s ops) ∧
  hosts_kept s (foldl (λ s op, run_op E float_text op s) s ops).
Proof.
  intros Hr Hops. revert s Hr. induction Hops as [|op ops Hop _ IH]; intros s Hr; [split; [done|apply hosts_kept_refl]|].
  assert (routed (run_op E float_text op s) ∧ hosts_kept s (run_op E float_text op s)) as [H1 H2].
  { destruct op as [a pool dir snap|a w|a w pool|k pool]; cbn in *.
    - destruct Hop as [Hc Hp]. by destruct (keeping_start E a snap pool dir Hc Hp s Hr I) as (? & ? & _).
    - by destruct (keeping_stop E a w s Hr I) as (? & ? & _).
    - destruct Hop as (Hne & Hc & Hp).
      by destruct (keeping_restart E float_text a w pool Hne Hc Hp s Hr I) as (? & ? & _).
    - by destruct (keeping_discover E (λ _, True) k pool s Hr I) as (? & ? & _). }
  destruct (IH _ H1) as [H3 H4]. split; [done|]. by eapply hosts_kept_trans.
Qed.

(** ** Discovery *)

(** The rows of a manifest are the members of the host that is discovered. *)
Lemma discovered_members_rows E alive fs rows xs :
  discovered_members E alive fs rows = Ok xs →
  Forall2 (λ row x, ∃ w, runtime_world E (lm_ConfigDir row) = Some w ∧
    read_status E w alive fs = Some (x.2, false) ∧
    x.1 = mkPMember w (lm_SourceCWD row) (lm_Name row) (lm_WeaverID row) (lm_GenerationID row)
            (text "member_basis_fingerprint" x.2) (pm_Identity x.1) ∧
    identityFromStatus x.2 = Ok (pm_Identity x.1)) rows xs.
Proof.
  revert xs. induction rows as [|row rows IH]; intros xs H; cbn [discovered_members] in H; inv_ok; [constructor|].
  constructor; [|by apply IH]. unfold discovered_member in *.
  destruct (runtime_world E _) as [w|] eqn:Ew; [|done]. destruct (read_status E w alive fs) as [[st [|]]|] eqn:Es; [done| |done].
  destruct (identityFromStatus st) as [id|] eqn:Ei; [|done]. inv_ok. cbn. exists w. split_and!; done.
Qed.

(** Mill took over the host that the files of a pool prove. *)
Definition adopted (E : penv) (k : look) (pool : string) (s s' : pools) (l : nat) : Prop :=
  l = po_next s ∧ ∃ h root hostDir marker m xs,
    host_proof E k pool (po_files s) h root hostDir marker m xs ∧
    host_at s' l = Some h ∧ wh_Live h = true ∧ po_hosts s' !! pool = Some l ∧
    poolConfigDirs (wh_Members h) = (pm_ConfigDir <$> xs.*1) ∧
    (∀ d, d ∈ poolConfigDirs (wh_Members h) → po_members s' !! d = Some l) ∧
    (∀ l' h', host_at s l' = Some h' → host_at s' l' = Some h').

Lemma routes_inserted (l : nat) ds (ms : gmap string nat) d :
  d ∈ ds → foldl (λ ms d, <[d:=l]> ms) ms ds !! d = Some l.
Proof.
  induction ds as [|d0 ds IH] using rev_ind; intros Hd; [by apply elem_of_nil in Hd|].
  rewrite foldl_app. cbn. destruct (decide (d = d0)) as [->|Hne]; [by rewrite lookup_insert_eq|].
  rewrite lookup_insert_ne by done. apply IH. set_solver.
Qed.

Lemma install_adopts E k pool s h :
  routed s → find_host E k pool (po_files s) = Ok (Some h) → adopted E k pool s (install_host h s).1 (po_next s).
Proof.
  intros Hr Hf. apply find_host_found in Hf as (root & hostDir & marker & m & xs & Hp). split; [done|].
  assert (wh_Pool h = pool ∧ wh_Live h = true ∧ wh_Members h = xs.*1) as (H1 & H2 & H3)
    by by destruct Hp as [_ _ _ _ _ _ -> _].
  exists h, root, hostDir, marker, m, xs. unfold host_at. cbn. rewrite H1, H3, !lookup_insert_eq. split_and!; try done.
  - intros d Hd. by apply routes_inserted.
  - intros l' h' Hh. rewrite lookup_insert_ne; [done|]. intros <-. apply (rt_heap s Hr) in Hh. lia.
Qed.

(** C13: Discovery trusts no process id alone. It changes nothing, unless the pool's files
    prove a host that mill does not already route to alive: the marker names a living
    process, the launch manifest of that host names the pool's own record, and each
    member of the manifest has published metadata of the launched identity, its row in
    the marker and an endpoint that answers for it. Then that host, with the manifest's
    members, is a new one; the pool and each member are routed to it, and the hosts mill
    knew are as they were. *)
Theorem discovery_proved E k pool s s' r :
  routed s → discoverPoolHost E k pool s = (s', r) →
  match r with
  | Ok (Some l) => (s' = s ∧ ∃ h, host_of_pool pool s = Some (l, h) ∧ wh_Live h = true) ∨ adopted E k pool s s' l
  | _ => s' = s
  end.
Proof.
  intros Hr. unfold discoverPoolHost. destruct (find_host E k pool (po_files s)) as [[h|]|e] eqn:Ef;
    [|by intros [= <- <-]..].
  pose proof (install_adopts E k pool s h Hr Ef) as Ha.
  destruct (host_of_pool pool s) as [[l' h']|] eqn:Eh.
  - destruct (wh_Live h') eqn:El; [intros [= <- <-]; left; split; [done|by exists h']|].
    cbn. intros [= <- <-]. by right.
  - cbn. intros [= <- <-]. by right.
Qed.

(** ** A host whose process is gone *)

(** A host that mill does not route to can be forgotten without a change of its routes. *)
Lemma forget_unrouted s l h :
  (∀ p, po_hosts s !! p ≠ Some l) → (∀ d, po_members s !! d ≠ Some l) →
  po_hosts (removePoolHost l h s) = po_hosts s ∧ po_members (removePoolHost l h s) = po_members s ∧
  po_log (removePoolHost l h s) = po_log s ++ [EvForgotten l].
Proof.
  intros H1 H2. unfold removePoolHost. rewrite (bool_decide_eq_false_2 _ (H1 (wh_Pool h))).
  split_and!; [done| |done]. cbn. revert H2. generalize (po_members s). induction (poolConfigDirs (wh_Members h)) as [|d ds IH];
    intros ms H; [done|]. cbn. rewrite (bool_decide_eq_false_2 _ (H d)). by apply IH.
Qed.

Lemma unrouted_next s :
  routed s → (∀ p, po_hosts s !! p ≠ Some (po_next s)) ∧ (∀ d, po_members s !! d ≠ Some (po_next s)).
Proof.
  intros [H1 H2 H3]. split.
  - intros p (h & Hh & _)%H1. apply H3 in Hh. lia.
  - intros d (h & Hh & _)%H2. apply H3 in Hh. lia.
Qed.

(** Registering a host while the pool has one that is marked live. *)
Lemma launch_blocked E a snap pool dir l h s h0 :
  routed s → host_of_pool pool s = Some (l, h) → wh_Live h = true →
  let '(s', r) := (l0 ← alloc_host h0; launch_host E a snap pool dir l0) s in
  r = Err (PFRunning pool) ∧ po_hosts s' = po_hosts s ∧ po_members s' = po_members s ∧
  po_log s' = po_log s ++ [EvForgotten (po_next s)].
Proof.
  intros Hr Hp Hl. destruct (unrouted_next s Hr) as [Hn1 Hn2].
  unfold mbind, st_bind, alloc_host. set (s1 := mkPools _ _ _ _ _ _ _).
  assert (host_of_pool pool s1 = Some (l, h)) as Hp1.
  { unfold host_of_pool, host_at in *. cbn. destruct (po_hosts s !! pool) as [l1|] eqn:El; [|done].
    cbn in Hp |- *. rewrite lookup_insert_ne; [done|]. intros <-. by apply (Hn1 pool). }
  unfold launch_host, on_error, launch_process, mbind, st_bind, register_host. rewrite Hp1, Hl.
  unfold forget_host, host_at. cbn [po_heap s1]. rewrite lookup_insert_eq. cbn [fst].
  by destruct (forget_unrouted s1 (po_next s) h0 Hn1 Hn2) as (-> & -> & ->).
Qed.

Lemma with_files_same s : with_files (po_files s) s = s.
Proof. by destruct s. Qed.

(** A pool whose host lost its process cannot be started: mill still takes the host for
    live, so that the registration of a replacement is refused, once its manifest was
    written. Nothing is launched, mill's routes stay, and the call fails whatever the
    answers are; the refusal is the error unless an earlier step fails. *)
Theorem crashed_host_blocks_start E a pool dir snap l h s s' r :
  routed s → la_claims a = [] → host_of_pool pool s = Some (l, h) → wh_Live h = true →
  lk_alive (la_look a) (wh_PID h) = false → find_host E (la_look a) pool (po_files s) = Ok None →
  startPooledWeaverFromSnapshot E a pool dir snap s = (s', r) →
  is_ok r = false ∧ po_hosts s' = po_hosts s ∧ po_members s' = po_members s ∧
  (∀ l', EvLaunched l' ∈ po_log s' → EvLaunched l' ∈ po_log s) ∧
  ((∃ path m, EvManifest path m ∈ po_log s' ∧ EvManifest path m ∉ po_log s) → la_log a = true →
   r = Err (PFRunning pool)).
Proof.
  intros Hr Hc Hp Hl Ha Hf. unfold startPooledWeaverFromSnapshot. rewrite Hc. cbn [start_from].
  unfold mbind at 1, st_bind, st_ensure, st_lift.
  assert (∀ e, (s, Err e) = (s', r) → is_ok r = false ∧ po_hosts s' = po_hosts s ∧ po_members s' = po_members s ∧
    (∀ l', EvLaunched l' ∈ po_log s' → EvLaunched l' ∈ po_log s) ∧
    ((∃ path m, EvManifest path m ∈ po_log s' ∧ EvManifest path m ∉ po_log s) → la_log a = true →
     r = Err (PFRunning pool))) as Hnone.
  { intros e [= <- <-]. split_and!; try done. intros (? & ? & ? & ?). done. }
  destruct (ensure (memberForPool snap dir) _); [|by apply Hnone].
  unfold start_claimed, mbind at 1, st_bind, st_get, existing_host. rewrite Hp. cbn [mbind option_bind].
  rewrite Hl, Ha, andb_false_r. unfold mbind at 1, st_bind, discoverPoolHost. rewrite Hf.
  unfold start_new, mbind at 1, st_bind, st_lift. destruct (la_source a) as [source|]; [|by apply Hnone].
  unfold mbind at 1, st_bind. destruct (StateRoot _ _) as [root|]; [|by apply Hnone].
  unfold mbind at 1, st_bind. destruct (poolHostFromSnapshot _ _ _ _) as [[m h0]|]; [|by apply Hnone].
  unfold mbind at 1, st_bind, write_manifest, writePoolLaunchManifest. cbn [fst snd].
  destruct (validatePoolLaunchManifest m); [|rewrite with_files_same; by apply Hnone].
  destruct (la_manifest a); [|rewrite with_files_same; by apply Hnone]. set (s1 := logged _ _).
  unfold mbind at 1, st_bind, st_ensure, st_lift.
  destruct (la_log a); cbn [ensure].
  - pose proof (launch_blocked E a snap pool dir l h s1 h0 (same_routed s s1 ltac:(done) Hr) Hp Hl) as Hb.
    destruct ((l0 ← alloc_host h0; launch_host E a snap pool dir l0) s1) as [s2 r2].
    destruct Hb as (-> & Hh & Hm & Hlog). intros [= <- <-]. split_and!; [done..| |done].
    intros l'. rewrite Hlog. cbn. rewrite !elem_of_app, !list_elem_of_singleton. naive_solver.
  - intros [= <- <-]. split_and!; [done..| |done]. intros l'. cbn. rewrite elem_of_app, list_elem_of_singleton. naive_solver.
Qed.

(** ** A stop *)

Lemma removal_routes s l h :
  routed s → host_at s l = Some h →
  (∀ p l', po_hosts (removePoolHost l h s) !! p = Some l' ↔ po_hosts s !! p = Some l' ∧ l' ≠ l) ∧
  (∀ d l', po_members (removePoolHost l h s) !! d = Some l' ↔ po_members s !! d = Some l' ∧ l' ≠ l).
Proof.
  intros [H1 H2 H3] Hh. unfold removePoolHost. set (s1 := if bool_decide _ then _ else s).
  assert (po_members s1 = po_members s) as Em by (subst s1; by case_bool_decide). split.
  - intros p l'. cbn. subst s1. case_bool_decide as Hp.
    + cbn. rewrite lookup_delete_Some. split.
      * intros [Hne Hl']. split; [done|]. intros ->. apply H1 in Hl' as (h' & Hh' & <-). congruence.
      * intros [Hl' Hne]. split; [|done]. intros <-. congruence.
    + split; [|by intros []]. intros Hl'. split; [done|]. intros ->. apply Hp.
      pose proof (H1 _ _ Hl') as (h' & Hh' & <-). congruence.
  - intros d l'. cbn. rewrite Em.
    assert (∀ ds (ms : gmap string nat) d l',
      foldl (λ ms d, if bool_decide (ms !! d = Some l) then delete d ms else ms) ms ds !! d = Some l' ↔
      ms !! d = Some l' ∧ (d ∈ ds → l' ≠ l)) as Hf.
    { induction ds as [|d0 ds IH]; intros ms d1 l1; cbn; [set_solver|]. rewrite IH. case_bool_decide as E.
      - rewrite lookup_delete_Some. rewrite elem_of_cons. split; [|naive_solver].
        intros [[Hne Hl'] Hin]. split; [done|]. intros [->|?]; [done|by apply Hin].
      - rewrite elem_of_cons. split; [|naive_solver]. intros [Hl' Hin]. split; [done|].
        intros [->|?]; [congruence|by apply Hin]. }
    rewrite Hf. split.
    + intros [Hl' Hin]. split; [done|]. intros ->. pose proof (H2 _ _ Hl') as (h' & Hh' & Hd).
      apply Hin; [|done]. congruence.
    + intros [Hl' Hne]. done.
Qed.

(** The state after the process of the host was stopped. *)
Definition unserved (s : pools) (l : nat) (h : weaverHost) (s' : pools) : Prop :=
  same_hosts (with_heap (alter (set_live false) l) s) s'.

Lemma unserved_routes s l h s' :
  host_at s l = Some h → unserved s l h s' →
  host_at s' l = Some (set_live false h) ∧ po_hosts s' = po_hosts s ∧ po_members s' = po_members s.
Proof.
  intros Hh (_ & H1 & H2 & H3). unfold host_at in *. rewrite H1, H2, H3. cbn. by rewrite lookup_alter_eq, Hh.
Qed.

(** What a stop of [l] leaves. *)
Definition retired (s : pools) (l : nat) (h : weaverHost) (s' : pools) (r : result pool_fault object) : Prop :=
  host_at s' l = Some (set_live false h) ∧
  match r with
  | Ok status =>
      (∀ p l', po_hosts s' !! p = Some l' ↔ po_hosts s !! p = Some l' ∧ l' ≠ l) ∧
      (∀ d l', po_members s' !! d = Some l' ↔ po_members s !! d = Some l' ∧ l' ≠ l) ∧
      default NoFile (po_records s' !! wh_PoolRestartPath h) = NoFile ∧
      po_files s' !! wh_ReadyPath h = None ∧ status !! "state" = Some (AString "stopped")
  | Err _ => po_hosts s' = po_hosts s ∧ po_members s' = po_members s
  end.

Lemma unserved_retired s l h s' e : host_at s l = Some h → unserved s l h s' → retired s l h s' (Err e).
Proof. intros Hh Hu. destruct (unserved_routes s l h s' Hh Hu) as (? & ? & ?). by split_and!. Qed.

Lemma unserved_trans s l h s2 s3 : unserved s l h s2 → same_hosts s2 s3 → unserved s l h s3.
Proof. apply same_hosts_trans. Qed.

(** The process, and the mark that the host serves no more. *)
Lemma stop_process_run {A} alive l h (m : PM A) s s' r :
  host_at s l = Some h → (stopPoolProcess alive l ;; update_host l (set_live false) ;; m) s = (s', r) →
  ∃ s1, unserved s l h s1 ∧ m s1 = (s', r).
Proof.
  intros Hh H. run H; unfold stopPoolProcess in R; rewrite Hh in R; [done|]. injection R as <- <-.
  set (s2 := if wh_cmd h && alive (wh_PID h) then logged (EvStopped l) s else s) in H.
  assert (same_hosts s s2) as (E1 & E2 & E3 & E4) by (subst s2; by destruct (_ && _)). clearbody s2.
  run H; [done|]. injection R as <- <-. eexists. split; [|exact H]. split_and!; cbn; try done. by rewrite E2.
Qed.

Lemma remove_record_run can_remove path s s' r :
  remove_record can_remove path s = (s', r) →
  po_files s' = po_files s ∧ same_hosts s s' ∧ (r = Ok tt → default NoFile (po_records s' !! path) = NoFile).
Proof.
  unfold remove_record. destruct (can_remove path).
  - intros [= <- <-]. split_and!; try done. intros _. cbn. by rewrite lookup_insert_eq.
  - case_match eqn:Ed; intros [= <- <-]; by split_and!.
Qed.

Lemma marker_run can_remove h s s' r :
  removePoolReadyMarker can_remove h s = (s', r) →
  same_hosts s s' ∧ (r = Ok tt → po_files s' !! wh_ReadyPath h = None).
Proof.
  unfold removePoolReadyMarker. destruct (is_blank _); [by intros [= <- <-]|].
  destruct (_ && _); intros [= <- <-]; split; try done. intros _. apply lookup_delete_eq.
Qed.

Lemma stop_host_run a w l h s s' r :
  routed s → host_at s l = Some h → stop_host a w l h s = (s', r) → retired s l h s' r.
Proof.
  intros Hr Hh. unfold stop_host. intros H. apply (stop_process_run _ _ h) in H as (s3 & Hu & H); [|done].
  run H; apply cleanup_members_run in R as [Hs _]; pose proof (unserved_trans _ _ _ _ _ Hu Hs) as Hu4;
    [by apply unserved_retired|]. clear Hs.
  run H; apply marker_run in R as [Hs Hm]; pose proof (unserved_trans _ _ _ _ _ Hu4 Hs) as Hu5;
    [by apply unserved_retired|]. clear Hs.
  run H; apply remove_record_run in R as (Ef & Hs & Hrec); pose proof (unserved_trans _ _ _ _ _ Hu5 Hs) as Hu6;
    [by apply unserved_retired|]. destruct x1, x3. specialize (Hm eq_refl). specialize (Hrec eq_refl).
  destruct (unserved_routes s l h x4 Hh Hu6) as (Hh6 & Hp6 & Hm6).
  assert (routed x4) as Hr6.
  { apply (same_routed (with_heap (alter (set_live false) l) s)); [done|]. by apply modest_heap. }
  destruct (removal_routes x4 l (set_live false h) Hr6 Hh6) as [Hq1 Hq2]. rewrite Hp6 in Hq1. rewrite Hm6 in Hq2.
  run H; unfold forget_host in R; rewrite Hh6 in R; [done|]. injection R as <- <-. injection H as <- <-.
  assert (∀ s', po_records (removePoolHost l (set_live false h) s') = po_records s' ∧
    po_files (removePoolHost l (set_live false h) s') = po_files s' ∧
    host_at (removePoolHost l (set_live false h) s') l = host_at s' l) as Hrest.
  { intros s'. unfold removePoolHost. by case_bool_decide. }
  destruct (Hrest x4) as (E1 & E2 & E3). unfold retired. rewrite E1, E2, E3, Ef. by split_and!.
Qed.

(** A stop of the host that serves a workspace leaves it out of service in any case. If
    it succeeds, no route leads to the host any more, those to other hosts stay, its
    restart record and its ready marker are gone; if it fails, all routes stay, so that
    the failed cleanup can be inspected. *)
Theorem stop_retires E a w l h s s' r :
  routed s → poolHostForConfigLocked (ConfigDir w) s = Some (l, h) →
  stopPooledWeaver E a w s = (s', r) → retired s l h s' r.
Proof.
  intros Hr Hp H. assert (host_at s l = Some h) as Hh.
  { unfold poolHostForConfigLocked in Hp. destruct (po_members s !! _) as [l1|]; [|done]. cbn in Hp.
    destruct (host_at s l1) eqn:E1; [|done]. by injection Hp as -> ->. }
  unfold stopPooledWeaver, host_to_stop, mbind at 1, st_bind in H. unfold mbind at 1, st_bind, st_get in H.
  rewrite Hp in H. unfold mret, st_ret in H. run H; apply get_host_run in R as [-> R]; [congruence|].
  assert (x = h) as -> by congruence. apply unlocked_run in H as (s1 & H & ->).
  apply stop_host_run with (h := h) in H; [exact H|by apply (same_routed s)|done].
Qed.

(** ** Examples *)

Lemma sample_routed : routed sample_pools.
Proof.
  split.
  - intros p l H. cbn in H. apply lookup_singleton_Some in H as [<- <-]. by exists sample_host.
  - intros d l H. cbn in H. apply lookup_singleton_Some in H as [<- <-]. exists sample_host. split; [done|].
    apply list_elem_of_In. left. by vm_compute.
  - intros l h H. unfold host_at in H. cbn in H. apply lookup_singleton_Some in H as [<- _]. cbn. lia.
Qed.

Lemma routes_kept_witness :
  let ops := [OpRestart (sample_restart true) sample_world "pool"; OpDiscover (mkLook (λ _, true) (λ _, true) []) "pool"] in
  routed (foldl (λ s op, run_op sample_env Some op s) sample_pools ops).
Proof.
  intros ops. apply (routes_kept sample_env Some ops sample_pools sample_routed).
  repeat constructor; [done|]. intros snap H. cbn in H. by injection H as <-.
Defined.

Definition stop_sample : stop_answers := mkStopAnswers (Ok None) (mkLook (λ _, true) (λ _, true) []) (λ _, true) (λ _, true).

Lemma stop_retires_witness :
  let s' := (stopPooledWeaver sample_env stop_sample sample_world sample_pools).1 in
  host_at s' 0 = Some (set_live false sample_host) ∧ po_hosts s' = ∅.
Proof.
  intros s'. split.
  - apply (stop_retires sample_env stop_sample sample_world 0 sample_host sample_pools s'
      (stopPooledWeaver sample_env stop_sample sample_world sample_pools).2 sample_routed);
      [by vm_compute|apply surjective_pairing].
  - by vm_compute.
Defined.

Lemma crashed_host_blocks_start_witness :
  (startPooledWeaverFromSnapshot sample_env sample_launch "pool" "/w/a" sample_snapshot sample_pools).2
  = Err (PFRunning "pool").
Proof.
  assert (∃ path m, EvManifest path m ∈ po_log
      (startPooledWeaverFromSnapshot sample_env sample_launch "pool" "/w/a" sample_snapshot sample_pools).1) as (path & m & Hm).
  { eexists _, _. apply list_elem_of_In. left. vm_compute. reflexivity. }
  apply (crashed_host_blocks_start sample_env sample_launch "pool" "/w/a" sample_snapshot 0 sample_host sample_pools
    (startPooledWeaverFromSnapshot sample_env sample_launch "pool" "/w/a" sample_snapshot sample_pools).1 _ sample_routed);
    [done|by vm_compute|done|done|by vm_compute|apply surjective_pairing| |done].
  exists path, m. split; [exact Hm|]. apply not_elem_of_nil.
Defined.

(** A mill that was just started, and the files of a host that still serves. *)
Definition fresh_pools : pools := mkPools 0 ∅ ∅ ∅ sample_files ∅ [].
Definition sample_look : look := mkLook serving (λ _, true) [wh_ManifestPath sample_launched.2].

Lemma fresh_routed : routed fresh_pools.
Proof. by split. Qed.

Lemma discovery_proved_witness :
  adopted sample_env sample_look "pool" fresh_pools (discoverPoolHost sample_env sample_look "pool" fresh_pools).1 0.
Proof.
  assert ((discoverPoolHost sample_env sample_look "pool" fresh_pools).2 = Ok (Some 0)) as Hr by (by vm_compute).
  pose proof (discovery_proved sample_env sample_look "pool" fresh_pools
    (discoverPoolHost sample_env sample_look "pool" fresh_pools).1 (discoverPoolHost sample_env sample_look "pool" fresh_pools).2
    fresh_routed (surjective_pairing _)) as H.
  rewrite Hr in H. destruct H as [[_ (h & H & _)]|H]; [|exact H]. discriminate H.
Defined.
