(* ===== verification/PoolWrites.v ===== *)
(** The records that the lifecycle of JVM pools writes (src/cli/cmd/mill/pool_lifecycle.go):
    whatever a start or a restart has to record of a served host is a valid record, so
    that only the writing of the file can fail. *)

From S2P Require Export PoolCustody.

(** A host that mill serves: its identity is complete and its members are in order. *)
Definition served_member (m : poolMember) : bool :=
  canonical (pm_ConfigDir m)
  && (negb (is_blank (id_WeaverID (pm_Identity m)))
      || bool_decide (id_WeaverID (pm_Identity m) = "") && negb (is_blank (pm_WeaverID m)))
  && (negb (is_blank (id_GenerationID (pm_Identity m)))
      || bool_decide (id_GenerationID (pm_Identity m) = "") && negb (is_blank (pm_GenerationID m))).

Record served (h : weaverHost) : Prop := {
  sv_ids : is_blank (wh_Pool h) = false ∧ is_blank (wh_HostID h) = false ∧ is_blank (wh_HostGenerationID h) = false;
  sv_pid : (0 < wh_PID h)%Z;
  sv_basis : validBasisFingerprint (wh_BasisFingerprint h) = true;
  sv_members : wh_Members h ≠ [] ∧ forallb served_member (wh_Members h) = true ∧
               StronglySorted str_lt (poolConfigDirs (wh_Members h));
}.

(** A snapshot of a pool that has the host's members. *)
Definition covers_host (snap : JvmPool.PoolSnapshot) (h : weaverHost) : Prop :=
  is_blank (JvmPool.ps_Revision snap) = false ∧ ordered_dirs (snapshot_dirs snap) ∧
  ∀ d, d ∈ poolConfigDirs (wh_Members h) → d ∈ snapshot_dirs snap.

(** What is recorded: the state, the probe, the failure, whether the old host is
    stopped, and the host that is replaced, as the steps of a start and a restart of
    [h] have them. *)
Inductive recorded (h : weaverHost) (snap : JvmPool.PoolSnapshot) :
    restart_state → option restartProbeResult → option restartFailure → bool → option weaverHost → Prop :=
| rec_started : poolPendingDirs h (snapshot_dirs snap) = [] → recorded h snap RunningState None None false None
| rec_probing : recorded h snap Probing None None false None
| rec_refused p message log : p_Success p = false → is_blank message = false → is_blank log = false →
    recorded h snap RunningState (Some p) (Some (mkFailure "probe" message log "")) false None
| rec_cutover p stopped : p_Success p = true → recorded h snap Restarting (Some p) None stopped (Some h)
| rec_failed p stage message log stopped : p_Success p = true → is_blank stage = false →
    is_blank message = false → is_blank log = false →
    recorded h snap FailedState (Some p) (Some (mkFailure stage message log "")) stopped (Some h)
| rec_replaced p old : p_Success p = true → served old → covers_host snap old →
    poolPendingDirs h (snapshot_dirs snap) = [] → recorded h snap RunningState (Some p) None true (Some old).

(** ** Lemmas *)

Lemma sort_stable_sorted_id {A} (dir : A → string) (l : list A) :
  StronglySorted str_lt (dir <$> l) → sort_stable (λ a b, str_ltb (dir a) (dir b)) l = l.
Proof.
  induction l as [|x l IH]; [done|]. intros [H Hx]%StronglySorted_inv. set (lt := λ a b, _) in *.
  change (sort_stable lt (x :: l)) with (insert_stable lt x (sort_stable lt l)). rewrite IH by done. subst lt.
  destruct l as [|y l]; [done|]. cbn. apply Forall_inv in Hx. by rewrite (str_ltb_asym _ _ Hx).
Qed.

Definition host_row (m : poolMember) : poolRestartMember :=
  mkPoolMember (pm_ConfigDir m)
    (if bool_decide (id_WeaverID (pm_Identity m) = "") then pm_WeaverID m else id_WeaverID (pm_Identity m))
    (if bool_decide (id_GenerationID (pm_Identity m) = "") then pm_GenerationID m
     else id_GenerationID (pm_Identity m)).

Lemma host_row_dirs ms : (rm_ConfigDir <$> (host_row <$> ms)) = poolConfigDirs ms.
Proof. by rewrite <-list_fmap_compose. Qed.

Lemma blank_empty s : is_blank s = false → s ≠ "".
Proof. by intros H ->. Qed.

Lemma served_row m : served_member m = true → member_ok (host_row m) = true.
Proof.
  unfold served_member, member_ok, host_row. cbn [rm_ConfigDir rm_WeaverID rm_GenerationID].
  intros [[H1 H2]%andb_true_iff H3]%andb_true_iff. rewrite H1. cbn.
  assert (∀ a b, negb (is_blank a) || bool_decide (a = "") && negb (is_blank b) = true →
    negb (is_blank (if bool_decide (a = "") then b else a)) = true) as Hid.
  { intros a b [H|H]%orb_true_iff.
    - rewrite bool_decide_eq_false_2; [done|]. apply blank_empty. by bools.
    - apply andb_true_iff in H as [Ha Hb]. apply bool_decide_eq_true in Ha. by rewrite (bool_decide_eq_true_2 _ Ha). }
  by rewrite (Hid _ _ H2), (Hid _ _ H3).
Qed.

(** The host of a record: the served host's identity, and its members in their order. *)
Lemma served_host h :
  served h →
  poolRestartHostFromWeaverHost h =
    Some (mkPoolHost (wh_HostID h) (wh_HostGenerationID h) (wh_PID h) (wh_BasisFingerprint h) (host_row <$> wh_Members h)).
Proof.
  intros [_ _ Hb (Hne & _ & Hs)]. unfold poolRestartHostFromWeaverHost.
  apply basis_not_blank, blank_empty in Hb.
  rewrite (bool_decide_eq_false_2 _ Hne), (bool_decide_eq_false_2 _ Hb), (bool_decide_eq_false_2 _ Hb).
  fold host_row. rewrite (sort_stable_sorted_id rm_ConfigDir); [done|]. by rewrite host_row_dirs.
Qed.

Lemma served_host_valid h rh : served h → poolRestartHostFromWeaverHost h = Some rh →
  valid_host rh ∧ hostMemberSet rh = setOf (poolConfigDirs (wh_Members h)).
Proof.
  intros Hs. rewrite (served_host h Hs). intros [= <-].
  destruct Hs as [(_ & H1 & H2) H3 H4 (H5 & H6 & H7)]. split.
  - split; cbn; [done..|]. split_and!.
    + by intros ?%fmap_nil_inv.
    + rewrite forallb_forall in H6 |- *. intros r (m & <- & Hm)%in_map_iff. by apply served_row, H6.
    + by rewrite host_row_dirs.
  - unfold hostMemberSet. cbn. by rewrite host_row_dirs.
Qed.

Lemma filter_sorted (P : string → Prop) `{!∀ x, Decision (P x)} l : ordered_dirs l → ordered_dirs (filter P l).
Proof.
  intros [H1 H2]. split.
  - rewrite forallb_forall in *. intros x Hx%list_elem_of_In. apply H1, list_elem_of_In. by apply list_elem_of_filter in Hx as [_ ?].
  - induction l as [|x l IH]; [done|]. apply StronglySorted_inv in H2 as [H2 Hx]. rewrite filter_cons.
    rewrite forallb_forall in H1. assert (ordered_dirs l → StronglySorted str_lt (filter P l)) as IH'.
    { intros [? ?]. by apply IH. }
    assert (StronglySorted str_lt (filter P l)) as Hl.
    { apply IH'. split; [|done]. apply forallb_forall. intros y Hy. apply H1. by right. }
    case_decide; [|done]. constructor; [done|]. rewrite Forall_forall in *. intros y [_ Hy]%list_elem_of_filter. by apply Hx.
Qed.

Lemma pending_set h l :
  setOf (poolPendingDirs h l) = setOf l ∖ setOf (poolConfigDirs (wh_Members h)).
Proof.
  unfold setOf, poolPendingDirs. apply set_eq. intros d. rewrite elem_of_difference, !elem_of_list_to_set, list_elem_of_filter.
  tauto.
Qed.

Section record.
Context (h : weaverHost) (snap : JvmPool.PoolSnapshot) (tid : string).
Context (Hs : served h) (Hc : covers_host snap h) (Ht : is_blank tid = false).

Lemma record_registered state probe failure stopped previous :
  registered (pool_record h snap state tid probe failure stopped previous) = snapshot_dirs snap.
Proof using Hs Hc.
  unfold pool_record, registered. cbn. destruct Hc as (_ & _ & Hd), Hs as [_ _ _ (Hne & _)].
  destruct (snapshot_dirs snap) as [|d l]; [|done]. destruct (wh_Members h) as [|m ms]; [done|].
  exfalso. apply (not_elem_of_nil (pm_ConfigDir m)), Hd, list_elem_of_here.
Qed.

Lemma record_pending state probe failure stopped previous :
  pending (pool_record h snap state tid probe failure stopped previous) = poolPendingDirs h (snapshot_dirs snap).
Proof using Hs Hc.
  pose proof (record_registered state probe failure stopped previous) as H. unfold registered in H. cbn in H.
  unfold pending. cbn. by rewrite H.
Qed.

Context (state : restart_state) (probe : option restartProbeResult) (failure : option restartFailure).
Context (stopped : bool) (previous : option weaverHost).
Context (Hp : ∀ p, probe = Some p → validate p = Ok tt).
Context (Hrec : recorded h snap state probe failure stopped previous).

Local Notation r := (pool_record h snap state tid probe failure stopped previous).

(** The hosts that a record names are served, and their members registered. *)
Lemma record_hosts rh :
  pr_AdmittedHost r = Some rh ∨ pr_PreviousHost r = Some rh →
  valid_host rh ∧ hostMemberSet rh ⊆ setOf (registered r).
Proof.
  rewrite record_registered.
  assert (∀ g, served g → covers_host snap g → poolRestartHostFromWeaverHost g = Some rh →
    valid_host rh ∧ hostMemberSet rh ⊆ setOf (snapshot_dirs snap)) as Hg.
  { intros g Hg (_ & _ & Hd) Hrh. apply (served_host_valid g rh Hg) in Hrh as [Hv ->]. split; [done|].
    intros d. unfold setOf. rewrite !elem_of_list_to_set. apply Hd. }
  destruct Hrec; cbn; intros [Hrh|Hrh]; try discriminate Hrh; eauto.
Qed.

Lemma record_reference :
  ∃ rh, reference_host r = Some rh ∧ setOf (pending r) = setOf (registered r) ∖ hostMemberSet rh.
Proof.
  rewrite record_pending, record_registered, pending_set. pose proof (served_host h Hs) as Hh.
  destruct (served_host_valid h _ Hs Hh) as [_ Hset].
  eexists. split; [|by rewrite Hset]. unfold reference_host. destruct Hrec; cbn; by rewrite Hh.
Qed.

Lemma record_shape : pool_shape state r.
Proof using Hs Hc Hrec.
  clear Hp. pose proof (served_host h Hs) as Hh. unfold pool_shape, probe_ok.
  destruct Hrec as [Hnone| |p message log Hf _ _|p st Ht'|p stage message log st Ht' _ _ _|p old Ht' Ho Hco Hnone];
    rewrite ?record_pending, ?Hnone; cbn; rewrite Hh; try rewrite (served_host old Ho);
    split_and!; try done; try (by eexists); try (by intros [? [=]]).
  - left. split_and!; [done..|]. by left.
  - left. split_and!; [done..|]. right. by eexists _, _.
  - right. by split_and!; [eexists|..].
Qed.

Lemma record_valid : valid_pool_record r.
Proof.
  destruct Hc as (Hrev & Hdirs & _), Hs as [(Hpool & _) _ _ _]. split.
  - done.
  - done.
  - rewrite record_registered, record_pending. split; [done|]. by apply filter_sorted.
  - apply record_hosts.
  - apply record_reference.
  - intros p Hpr. by apply Hp.
  - intros f. cbn. destruct Hrec; intros [= <-]; unfold failure_ok, blank_but_set; cbn [f_Stage f_Message f_LogPath f_ExitEvidence];
      repeat match goal with H : is_blank _ = false |- _ => rewrite H; clear H end; by rewrite ?andb_false_r.
  - exists state. split; [done|]. apply record_shape.
Qed.
End record.


(** ** Examples *)

