(* ===== verification/Forward.v ===== *)
(** The forwarding of an invocation (src/cli/cmd/mill/forward.go): which weaver a request
    is admitted to, the request to its socket, the relay of its response lines to the
    caller, and the errors of mill itself. What the weaver's connection gives, when the
    caller goes away and what mill's state is each time it is looked at are given in
    advance. *)

From S2P Require Export Identity PoolHost.
From S2P Require Relay.

(** ** Response lines *)

(** [isStreamHeaderLine]: the field [Stream] of the struct the line is decoded into. *)
Definition isStreamHeaderLine (line : list ascii) : bool :=
  match parse_bytes line with
  | Some (DObject l) => default false (bool_field (field_values "stream" l))
  | _ => false
  end.

(** The keys and whether each is required; a key that is not must be absent. *)
Definition hasExactKeys (f : gmap string doc) (expected : list (string * bool)) : bool :=
  bool_decide (size f = length (filter (λ kb, kb.2 = true) expected))
  && forallb (λ kb, Bool.eqb (bool_decide (is_Some (f !! kb.1))) kb.2) expected.

Definition terminator_expected (success : bool) : list (string * bool) :=
  [("protocol_version", true); ("request_id", true); ("done", true); ("success", true);
   ("result", success); ("error", negb success)].

Definition isStreamTerminatorLine (line : list ascii) (requestID : string) : bool :=
  match parse_bytes line ≫= as_frame with
  | None => false
  | Some f =>
      match f !! "done" ≫= into_bool, f !! "success" ≫= into_bool with
      | Some true, Some success =>
          hasExactKeys f (terminator_expected success)
          && bool_decide (f !! "protocol_version" ≫= into_int = Some MillProtocolVersion)
          && match f !! "request_id" ≫= into_string with
             | Some id => negb (bool_decide (id = "")) && bool_decide (id = requestID)
             | None => false
             end
      | _, _ => false
      end
  end.

(** ** The relay of a response *)

Inductive relay_error :=
| RECaller
| REUnreachable
| REWrite
| RERelay
| REPartial
| RENoFrame
| RERead.

Record relayOutcome := mkOutcome {
  ro_requestDelivery : bool;
  ro_responseWritten : bool;
  ro_clientWriteFailed : bool;
  ro_err : option relay_error;
}.

(** A line with its newline. *)
Definition complete (line : list ascii) : bool := bool_decide (last line = Some newline_byte).

Section relay.
(** The outcome of the n-th write to the caller, with its flush: [Some k] fails after
    [k] bytes. *)
Context (failing : nat → option nat) (requestID : string).

Definition relayed (written : bool) (err : option relay_error) : relayOutcome := mkOutcome true written false err.

Fixpoint relay_lines (ending : read_error) (streaming written : bool) (lines : list (list ascii))
    (w : Relay.sink) : Relay.sink * relayOutcome :=
  match lines with
  | [] =>
      (w, match ending with
          | EOF => relayed written (if negb written || streaming then Some RENoFrame else None)
          | ReadFailed => relayed written (Some RERead)
          end)
  | line :: lines =>
      if complete line then
        let streaming := streaming || isStreamHeaderLine line in
        let terminated := streaming && isStreamTerminatorLine line requestID in
        match Relay.Write failing (of_bytes line) w with
        | (w, false) => (w, mkOutcome true true true (Some RERelay))
        | (w, true) =>
            if negb streaming || terminated then (w, relayed true None)
            else relay_lines ending streaming true lines w
        end
      else (w, relayed written (Some REPartial))
  end.
End relay.

(** How the sending of the request ends: it is written or fails, or the caller goes away
    while it is under way, the goroutine that writes it started or not. *)
Inductive send_end := Sent | SendFailed | SendCancelled (started : bool).

(** The answers of one relay: whether the caller is gone at each look, whether the socket
    is dialled, how the sending ends, what the weaver answers. *)
Record relay_answers := mkRelayAnswers {
  ra_gone : bool;
  ra_dials : bool;
  ra_gone_dialled : bool;
  ra_send : send_end;
  ra_gone_sent : bool;
  ra_bytes : list ascii;
  ra_ending : read_error;
  ra_failing : nat → option nat;
}.

(** What an invocation does, in order. *)
Inductive inv_event :=
| LockAdmission
| UnlockAdmission
| LockState
| UnlockState
| SendRequest (socket weaver : string)
| Forwarded (text : string)
| ErrorFrame (code : string) (details : object).

Definition undelivered (e : relay_error) : relayOutcome := mkOutcome false false false (Some e).
Definition delivered (e : relay_error) : relayOutcome := mkOutcome true false false (Some e).

(** [relayInvokeWithAdmission]: the events, the outcome, and whether the callback
    [admitted] was called. *)
Definition relayInvokeWithAdmission (a : relay_answers) (requestID socket weaver : string)
    : list inv_event * relayOutcome * bool :=
  if ra_gone a then ([], undelivered RECaller, false)
  else if negb (ra_dials a) then ([], undelivered REUnreachable, false)
  else if ra_gone_dialled a then ([], undelivered RECaller, false)
  else
    match ra_send a with
    | SendFailed => ([SendRequest socket weaver], delivered REWrite, false)
    | SendCancelled true => ([SendRequest socket weaver], delivered RECaller, false)
    | SendCancelled false => ([], undelivered RECaller, false)
    | Sent =>
        if ra_gone_sent a then ([SendRequest socket weaver], delivered REWrite, false)
        else
          let '(w, o) := relay_lines (ra_failing a) requestID (ra_ending a) false false (Relay.frames (ra_bytes a))
                           (Relay.mkSink "" 0) in
          ([SendRequest socket weaver; UnlockAdmission; Forwarded (Relay.s_text w)], o, true)
    end.

(** ** The selected workspace *)

Inductive world_error :=
| WEConfig (e : config_error)
| WEDiscover
| WENoPath (name : string)
| WEAmbiguous (name : string) (paths : list string).

Definition invokeWorkspaceIsPath (selection : string) : bool :=
  IsAbs selection || bool_decide (selection = ".") || bool_decide (selection = "..")
  || bool_decide (slash ∈ bytes_of selection).

Section selection.
Context (getwd : option string) (xdg : string) (home : option string).
Context (eval_symlinks : string → option string) (WorldHash : string → string).
Context (lstat : string → marker) (git : git_query → string → option string).
Context (fs : files) (cwd : string).

Definition resolveLifecycleWorld (configDir : string) : result world_error World :=
  match BootstrapTargetWorld getwd xdg home eval_symlinks WorldHash lstat git cwd configDir with
  | Err e => Err (WEConfig e)
  | Ok w =>
      match Load getwd xdg home eval_symlinks WorldHash lstat git fs (w_ConfigDir w) with
      | Err e => Err (WEConfig e)
      | Ok (_, selected) => Ok selected
      end
  end.

(** The configuration directories of the rows that have the name; a row that has it and
    no directory fails. *)
Fixpoint matched_dirs (name : string) (rows : list object) : result world_error (gset string) :=
  match rows with
  | [] => Ok ∅
  | row :: rows =>
      if bool_decide (as_text (row !! "name") = Some name) then
        match as_text (row !! "config_dir") with
        | Some dir => if is_blank dir then Err (WENoPath name)
                      else dirs ← matched_dirs name rows; Ok ({[dir]} ∪ dirs)
        | None => Err (WENoPath name)
        end
      else matched_dirs name rows
  end.

(** [rows] is what [weaverList] answers. *)
Definition resolveInvokeWorld (rows : option (list object)) (configDir : string) : result world_error World :=
  if bool_decide (configDir = "") || invokeWorkspaceIsPath configDir then resolveLifecycleWorld configDir
  else
    match rows with
    | None => Err WEDiscover
    | Some rows =>
        matched ← matched_dirs configDir rows;
        match sort_strings (elements matched) with
        | [] => resolveLifecycleWorld configDir
        | [path] => resolveLifecycleWorld path
        | paths => Err (WEAmbiguous configDir paths)
        end
    end.
End selection.

(** ** Admission *)

(** A restart of the workspace: [tn_old] are the identity's weaver id and the generation
    id of the child that it replaces. *)
Record transition := mkTransition {
  tn_state : string;
  tn_id : string;
  tn_old : option (string * string);
  tn_epoch : Z;
  tn_result : option object;
}.

(** Mill's state for a workspace, at one look under the lock: the temporary child's
    world, the pool's host and its status of the member, the transition, the epoch, and
    what [readStatus] answers. *)
Record admission := mkAdmission {
  ad_temporary : option world;
  ad_host : option weaverHost;
  ad_member : weaverHost → option object;
  ad_transition : option transition;
  ad_epoch : Z;
  ad_status : world → option (object * bool);
}.

Inductive target :=
| AdmittedTo (status : object)
| WaitFor (t : transition)
| RefusedWith (code : string) (details : object).

Definition decorateTemporaryStatus (status : object) : object := <["temporary" := ABool true]> status.

Definition transitionMatchesStatus (old : string * string) (status : object) : bool :=
  (bool_decide (old.1 = "") || bool_decide (old.1 = text "weaver_id" status))
  && (bool_decide (old.2 = "") || bool_decide (old.2 = text "generation_id" status)).

(** The transition that an interruption may be put down to. *)
Definition admissionBoundaryLocked (ad : admission) (status : object) : option transition :=
  t ← ad_transition ad;
  old ← tn_old t;
  if bool_decide (tn_epoch t = ad_epoch ad) && transitionMatchesStatus old status then Some t else None.

Section admission.
Context (restart_text : restart_error → string).

Definition config_details (w : world) : list (string * any) := [("config_dir", AString (ConfigDir w))].

Definition no_weaver (w : world) : target := RefusedWith "mill/no-selected-weaver" (assign (config_details w) ∅).

Definition stale_weaver (w : world) (status : object) : target :=
  RefusedWith "mill/stale-selected-weaver"
    (assign (config_details w ++ [("stale_reason", default ANil (status !! "stale_reason"))]) ∅).

Definition checked (admission : object) (t : target) : target :=
  match validateAdmissionState admission with
  | Ok _ => t
  | Err e => RefusedWith "mill/admission-invalid" (assign [("detail", AString (restart_text e))] ∅)
  end.

(** The status of a weaver that no transition concerns. *)
Definition plain_target (ad : admission) (w : world) : target :=
  match ad_status ad w with
  | None => no_weaver w
  | Some (status, true) => stale_weaver w status
  | Some (status, false) =>
      match as_text (status !! "generation_id") with
      | Some generation =>
          checked (assign [("state", AString "open"); ("generation_id", AString generation)] ∅) (AdmittedTo status)
      | None => AdmittedTo status
      end
  end.

(** A workspace whose restart is probing still serves. *)
Definition probing_target (ad : admission) (w : world) (t : transition) : target :=
  match ad_status ad w with
  | Some (status, false) =>
      let status := match tn_old t with
                    | Some old => if bool_decide (text "generation_id" status = "")
                                  then <["generation_id" := AString old.2]> status else status
                    | None => status
                    end in
      checked (assign [("state", AString "open");
                       ("generation_id", default ANil (status !! "generation_id"))] ∅) (AdmittedTo status)
  | Some (status, true) => stale_weaver w status
  | None => stale_weaver w ∅
  end.

Definition failed_target (w : world) (t : transition) : target :=
  checked (assign [("state", AString "closed"); ("transition_id", AString (tn_id t))] ∅)
    (RefusedWith "mill/weaver-restart-failed"
       (assign (config_details w ++ [("transition_id", AString (tn_id t));
                                     ("failure", from_option AObject ANil (tn_result t))]) ∅)).

Definition transition_target (ad : admission) (w : world) : target :=
  match ad_transition ad with
  | Some t =>
      if bool_decide (tn_state t = "probing") then probing_target ad w t
      else if bool_decide (tn_state t = "restarting") then WaitFor t
      else if bool_decide (tn_state t = "failed") then failed_target w t
      else plain_target ad w
  | None => plain_target ad w
  end.

Definition admittedInvokeTargetLocked (ad : admission) (w : world) : target :=
  match ad_temporary ad with
  | Some child =>
      match ad_status ad child with
      | None => no_weaver w
      | Some (status, true) => stale_weaver w status
      | Some (status, false) => AdmittedTo (decorateTemporaryStatus status)
      end
  | None =>
      match ad_host ad with
      | Some h =>
          if wh_Live h then
            match ad_member ad h with Some status => AdmittedTo status | None => no_weaver w end
          else transition_target ad w
      | None => transition_target ad w
      end
  end.

(** ** The invocation *)

(** How the wait for a transition ends: admitted again, or with an error, the caller gone
    by then or not. *)
Inductive wait_end := WaitDone | WaitFailed (detail : string) (gone : bool).

(** One turn of the loop: whether the caller is gone, mill's state under the lock, how a
    wait ends, the relay's request id and answers, and, when it is over, whether the
    caller is gone and the transition has started its cutover. *)
Record turn := mkTurn {
  tu_gone : bool;
  tu_admission : admission;
  tu_wait : wait_end;
  tu_request : string;
  tu_relay : relay_answers;
  tu_gone_after : bool;
  tu_cutover : bool;
}.

Context (relay_texts : relay_error → string).

(** The error of a relay that failed, [boundary] being what was captured when the
    request was admitted. *)
Definition forward_failure (boundary : option transition) (cutover : bool) (o : relayOutcome) (e : relay_error)
    : inv_event :=
  let details := assign [("detail", AString (relay_texts e)); ("request_delivery", ABool (ro_requestDelivery o))] ∅ in
  match boundary with
  | Some t =>
      if ro_requestDelivery o && cutover then
        ErrorFrame "weaver/restarted"
          (assign [("sent_once", ABool true); ("response", AString "ambiguous");
                   ("transition_id", AString (tn_id t))] details)
      else ErrorFrame "mill/weaver-forward-failed" details
  | None => ErrorFrame "mill/weaver-forward-failed" details
  end.

(** The turn in which the request is admitted to the weaver of [status]. *)
Definition forward_admitted (t : turn) (status : object) : list inv_event :=
  let boundary := admissionBoundaryLocked (tu_admission t) status in
  let '(events, o, admitted) :=
    relayInvokeWithAdmission (tu_relay t) (tu_request t) (text "socket_path" status) (text "weaver_id" status) in
  [LockAdmission; LockState; UnlockState] ++ events ++ (if admitted then [] else [UnlockAdmission]) ++
  match ro_err o with
  | None => []
  | Some e => if ro_clientWriteFailed o || tu_gone_after t then []
              else [forward_failure boundary (tu_cutover t) o e]
  end.

(** The loop; [false] while the turns that are given have not ended it. *)
Fixpoint invoke_turns (w : world) (turns : list turn) : list inv_event * bool :=
  match turns with
  | [] => ([], false)
  | t :: turns =>
      if tu_gone t then ([], true) else
      match admittedInvokeTargetLocked (tu_admission t) w with
      | WaitFor tr =>
          let waited := [LockAdmission; LockState; UnlockState; UnlockAdmission] in
          match tu_wait t with
          | WaitDone => let '(events, over) := invoke_turns w turns in (waited ++ events, over)
          | WaitFailed detail gone =>
              (waited ++ (if gone then [] else
                 [ErrorFrame "mill/weaver-restart-failed"
                    (assign (config_details w ++ [("detail", AString detail)]) ∅)]), true)
          end
      | RefusedWith code details =>
          ([LockAdmission; LockState; ErrorFrame code details; UnlockState; UnlockAdmission], true)
      | AdmittedTo status => (forward_admitted t status, true)
      end
  end.

(** The admission lock itself, one for a workspace or for the pool that hosts it, is found
    before the loop with mill's state locked for the moment. *)
Definition handleInvoke (selected : world_error + world) (world_text : world_error → string) (turns : list turn)
    : list inv_event * bool :=
  match selected with
  | inl e => ([ErrorFrame "mill/invoke-world-failed" (assign [("detail", AString (world_text e))] ∅)], true)
  | inr w => invoke_turns w turns
  end.
End admission.

(** ** Lemmas: terminators *)

Lemma hasExactKeys_dom f success :
  hasExactKeys f (terminator_expected success) = true ↔ dom f = Relay.closing_keys success.
Proof.
  unfold hasExactKeys.
  assert (length (filter (λ kb : string * bool, kb.2 = true) (terminator_expected success)) = 5) as -> by by destruct success.
  rewrite andb_true_iff, bool_decide_eq_true. split.
  - intros [Hsize Hall]. symmetry. apply set_subseteq_size_eq; [|rewrite size_dom, Hsize; by rewrite Relay.closing_keys_size].
    unfold terminator_expected in Hall. cbn [forallb fst snd] in Hall.
    rewrite !andb_true_iff, !Bool.eqb_true_iff in Hall. destruct Hall as (H1 & H2 & H3 & H4 & H5 & H6 & _).
    unfold Relay.closing_keys. intros k. rewrite !elem_of_union, !elem_of_singleton, elem_of_dom.
    destruct success; cbn [negb] in *; bools; by intros [[[[->| ->]| ->]| ->]| ->].
  - intros Hdom. assert (∀ k, is_Some (f !! k) ↔ k ∈ Relay.closing_keys success) as Hk.
    { intros k. by rewrite <-Hdom, elem_of_dom. }
    split; [by rewrite <-size_dom, Hdom, Relay.closing_keys_size|].
    apply forallb_forall. intros [k b] Hin. apply Bool.eqb_true_iff.
    cbn [fst snd]. unfold terminator_expected in Hin. cbn [In] in Hin.
    repeat destruct Hin as [[= <- <-]|Hin]; try done;
      destruct success; cbn [negb]; first [apply bool_decide_eq_true_2|apply bool_decide_eq_false_2]; rewrite Hk;
      unfold Relay.closing_keys; set_solver.
Qed.

Lemma frameBool_ok f k b : Relay.frameBool f k = Ok b ↔ f !! k ≫= into_bool = Some b.
Proof. unfold Relay.frameBool. destruct (f !! k) as [d|]; cbn; [|done]. destruct (into_bool d); naive_solver. Qed.

Lemma streamIdentity_ok f id :
  Relay.streamIdentity f = Ok (MillProtocolVersion, id) ↔
  f !! "protocol_version" ≫= into_int = Some MillProtocolVersion ∧
  f !! "request_id" ≫= into_string = Some id ∧ id ≠ "".
Proof.
  unfold Relay.streamIdentity. destruct (f !! "protocol_version" ≫= into_int) as [v|]; [|naive_solver].
  case_bool_decide as Hv; [subst v|naive_solver].
  destruct (f !! "request_id" ≫= into_string) as [x|]; [|naive_solver].
  case_bool_decide; naive_solver.
Qed.

(** Mill and the client recognise the same closing lines of a stream: a line ends the
    relay of request [id] exactly when it is a frame that closes the stream of [id] for
    the client. *)
Theorem terminator_agrees line id :
  isStreamTerminatorLine line id = true ↔
  ∃ f, Relay.decodeFrame line = Some f ∧ Relay.isClosedStreamTerminator f MillProtocolVersion id = true.
Proof.
  unfold isStreamTerminatorLine, Relay.decodeFrame. destruct (parse_bytes line ≫= as_frame) as [f|]; [|naive_solver].
  assert (∀ b, f !! "done" ≫= into_bool = Some b ↔ Relay.frameBool f "done" = Ok b) as Hd by (intros; by rewrite frameBool_ok).
  split.
  - destruct (f !! "done" ≫= into_bool) as [[|]|] eqn:Ed; [|done|done].
    destruct (f !! "success" ≫= into_bool) as [success|] eqn:Es; [|done].
    destruct (f !! "request_id" ≫= into_string) as [x|] eqn:Er; [|by rewrite andb_false_r].
    rewrite !andb_true_iff, hasExactKeys_dom. intros [[Hdom Hv] [Hne Hid]]. bools. subst x.
    exists f. split; [done|]. apply Relay.terminator_exact. exists success.
    split_and!; [by apply frameBool_ok|by apply frameBool_ok|by apply streamIdentity_ok|done].
  - intros (f' & [= <-] & (success & H1 & H2 & H3 & H4)%Relay.terminator_exact).
    apply frameBool_ok in H1, H2. apply streamIdentity_ok in H3 as (H5 & H6 & H7). rewrite H1, H2, H6.
    rewrite (proj2 (hasExactKeys_dom f success) H4), H5. by rewrite (bool_decide_eq_false_2 _ H7), !bool_decide_eq_true_2.
Qed.

(** ** Lemmas: the relay *)

(** The lines that are passed on, and whether they end the response: a single complete
    line that is no stream header, or the lines up to a terminator of the request. *)
Fixpoint forwarded (id : string) (streaming : bool) (lines : list (list ascii)) : list (list ascii) :=
  match lines with
  | [] => []
  | line :: lines =>
      if complete line then
        let streaming := streaming || isStreamHeaderLine line in
        if negb streaming || isStreamTerminatorLine line id then [line]
        else line :: forwarded id streaming lines
      else []
  end.

Fixpoint closed (id : string) (streaming : bool) (lines : list (list ascii)) : bool :=
  match lines with
  | [] => false
  | line :: lines =>
      complete line &&
      (let streaming := streaming || isStreamHeaderLine line in
       negb streaming || isStreamTerminatorLine line id || closed id streaming lines)
  end.

Lemma of_bytes_concat a b : of_bytes (a ++ b) = of_bytes a +:+ of_bytes b.
Proof. by rewrite <-(of_bytes_of (of_bytes a +:+ _)), !bytes_of_app, !bytes_of_of. Qed.

Definition text_of (lines : list (list ascii)) : string := of_bytes (concat lines).

Lemma relay_lines_spec failing id ending streaming lines w :
  let '(w', o) := relay_lines failing id ending streaming streaming lines w in
  let text := text_of (forwarded id streaming lines) in
  Relay.starts (Relay.s_text w') (Relay.s_text w +:+ text) ∧ ro_requestDelivery o = true ∧
  (ro_clientWriteFailed o = true → ∃ n, failing n ≠ None) ∧
  (ro_clientWriteFailed o = false → Relay.s_text w' = Relay.s_text w +:+ text) ∧
  (ro_err o = None ↔ ro_clientWriteFailed o = false ∧ closed id streaming lines = true).
Proof.
  revert streaming w. induction lines as [|line lines IH]; intros streaming w.
  { cbn. rewrite str_app_nil_r. destruct ending, streaming; cbn; (split_and!; [apply Relay.starts_refl|done|done|done|]);
      (split; [done|by intros [_ ?]]). }
  cbn [relay_lines forwarded closed]. destruct (complete line).
  2: { cbn. rewrite str_app_nil_r. split_and!; try done; [apply Relay.starts_refl|]. split; [done|by intros [_ ?]]. }
  set (st := streaming || isStreamHeaderLine line). cbn [andb].
  destruct (Relay.Write failing (of_bytes line) w) as [w1 ok] eqn:Ew. unfold Relay.Write in Ew.
  assert (∀ rest, text_of (line :: rest) = of_bytes line +:+ text_of rest) as Htext
    by (intros; apply of_bytes_concat).
  destruct (failing (Relay.s_calls w)) as [n|] eqn:Ef; injection Ew as <- <-.
  { assert (∀ rest, Relay.starts (Relay.s_text w +:+ String.substring 0 n (of_bytes line))
                       (Relay.s_text w +:+ text_of (line :: rest))) as Hs.
    { intros rest. rewrite Htext. apply Relay.starts_app, Relay.starts_weaken, Relay.substring_starts. }
    split_and!; try done.
    - by destruct (negb st || _).
    - intros _. exists (Relay.s_calls w). by rewrite Ef.
    - cbn. split; [done|by intros []]. }
  destruct (negb st) eqn:Est; cbn [orb].
  - split_and!; try done; [|]; rewrite Htext; change (text_of []) with ""; rewrite str_app_nil_r;
      [apply Relay.starts_refl|done].
  - apply negb_false_iff in Est. rewrite Est. cbn [andb]. destruct (isStreamTerminatorLine line id).
    + split_and!; try done; [|]; rewrite Htext; change (text_of []) with ""; rewrite str_app_nil_r;
        [apply Relay.starts_refl|done].
    + specialize (IH true (Relay.mkSink (Relay.s_text w +:+ of_bytes line) (S (Relay.s_calls w)))).
      destruct (relay_lines failing id ending true true lines _) as [w' o]. cbn [Relay.s_text] in IH.
      rewrite Htext, <-str_app_assoc. exact IH.
Qed.

Lemma forwarded_prefix id st lines : ∃ rest, lines = forwarded id st lines ++ rest.
Proof.
  revert st. induction lines as [|line l IH]; intros st; [by exists []|].
  cbn [forwarded]. destruct (complete line); [|by exists (line :: l)]. destruct (_ || _); [by exists l|].
  destruct (IH (st || isStreamHeaderLine line)) as [rest Hr]. exists rest. cbn. by rewrite <-Hr.
Qed.

(** What the caller gets is a beginning of the weaver's response, cut after a complete
    line: its one line, or the lines of its stream up to the terminator of the request.
    Only a failed write to the caller cuts it elsewhere; and the relay reports no error
    exactly when all of the response was written and the response was complete. *)
Theorem relay_forwards failing id ending bytes :
  let lines := Relay.frames bytes in
  let '(w, o) := relay_lines failing id ending false false lines (Relay.mkSink "" 0) in
  Relay.starts (Relay.s_text w) (text_of (forwarded id false lines)) ∧
  (∃ rest, lines = forwarded id false lines ++ rest) ∧ ro_requestDelivery o = true ∧
  (ro_clientWriteFailed o = true → ∃ n, failing n ≠ None) ∧
  (ro_clientWriteFailed o = false → Relay.s_text w = text_of (forwarded id false lines)) ∧
  (ro_err o = None ↔ ro_clientWriteFailed o = false ∧ closed id false lines = true).
Proof.
  cbv zeta. pose proof (relay_lines_spec failing id ending false (Relay.frames bytes) (Relay.mkSink "" 0)) as H.
  destruct (relay_lines _ _ _ _ _ _ _) as [w o]. destruct H as (H1 & H2 & H3 & H4 & H5).
  split_and!; try done. apply forwarded_prefix.
Qed.

(** ** Lemmas: the client at the end of the relay *)

Lemma frames_complete line l :
  complete line = true → newline_byte ∉ removelast line → Relay.frames (line ++ l) = line :: Relay.frames l.
Proof.
  unfold complete. rewrite bool_decide_eq_true. revert l. induction line as [|c line IH]; intros l Hl Hn; [done|].
  destruct line as [|c' line].
  - injection Hl as ->. cbn. by rewrite bool_decide_eq_true_2.
  - change (removelast (c :: c' :: line)) with (c :: removelast (c' :: line)) in Hn. rewrite not_elem_of_cons in Hn.
    destruct Hn as [Hc Hn]. change ((c :: c' :: line) ++ l) with (c :: ((c' :: line) ++ l)). cbn [Relay.frames].
    rewrite bool_decide_eq_false_2 by done. by rewrite IH.
Qed.

Lemma frames_inner l : Forall (λ w, newline_byte ∉ removelast w) (Relay.frames l).
Proof.
  induction l as [|c l IH]; [constructor|]. cbn [Relay.frames]. case_bool_decide as Hc.
  - constructor; [by apply not_elem_of_nil|done].
  - destruct (Relay.frames l) as [|w ws]; [by repeat constructor; apply not_elem_of_nil|].
    apply Forall_cons in IH as [H1 H2]. constructor; [|done]. destruct w as [|c' w]; [by apply not_elem_of_nil|].
    change (removelast (c :: c' :: w)) with (c :: removelast (c' :: w)). rewrite not_elem_of_cons. split; [congruence|done].
Qed.

(** Complete lines are read back as they were written, whatever follows. *)
Lemma frames_forwarded id st lines l :
  Forall (λ w, newline_byte ∉ removelast w) lines →
  Relay.frames (concat (forwarded id st lines) ++ l) = forwarded id st lines ++ Relay.frames l.
Proof.
  intros H. revert st. induction H as [|line lines Hl _ IH]; intros st; [done|].
  cbn [forwarded]. destruct (complete line) eqn:Ec; [|done]. destruct (_ || _).
  - cbn. rewrite app_nil_r. by apply frames_complete.
  - cbn [concat]. rewrite <-(assoc_L (++)), frames_complete by done. cbn. by rewrite IH.
Qed.

Section composed.
Context (lower : string → string) (float_text : string → option string).
Context (fault_text : fault → string) (raw_text : doc → string).
Context (en : env) (kind : writer) (failing : nat → option nat).

Notation client := (Relay.RelayResponse lower float_text fault_text raw_text en kind failing).
Notation client_lines := (Relay.relay_lines lower float_text fault_text raw_text en kind failing).

(** The client reads nothing after the line that closes its stream. *)
Lemma client_stops id command st lines rest1 rest2 e1 e2 s :
  closed id true lines = true → forwarded id true lines = st →
  client_lines MillProtocolVersion id command e1 (st ++ rest1) s
  = client_lines MillProtocolVersion id command e2 (st ++ rest2) s.
Proof using.
  revert st s. induction lines as [|line lines IH]; intros st s; cbn [closed forwarded]; [done|].
  intros [Hc H]%andb_true_iff. rewrite Hc. cbn [orb negb] in *. destruct (isStreamTerminatorLine line id) eqn:Et.
  - intros <-. apply terminator_agrees in Et as (f & Hf & Ht). cbn [app Relay.relay_lines]. by rewrite Hf, Ht.
  - cbn [orb] in H. intros <-. cbn [app Relay.relay_lines]. destruct (Relay.decodeFrame line); [|done].
    destruct (Relay.isClosedStreamTerminator _ _ _); [done|].
    unfold Relay.write_or. destruct (Relay.Write failing (of_bytes line) (Relay.stdout s)) as [w ok]. destruct ok; [|done].
    unfold Relay.ends_with_newline. unfold complete in Hc. rewrite Hc. by apply IH.
Qed.
End composed.

Lemma field_values_only name d (l : list (string * doc)) :
  NoDup l.*1 → (∀ k x, (k, x) ∈ l → fold_name k = fold_name name → k = name) → (name, d) ∈ l →
  field_values name l = [d].
Proof.
  unfold field_values. induction l as [|[k x] l IH]; intros Hnd Hk Hin; [by apply elem_of_nil in Hin|].
  apply NoDup_cons in Hnd as [Hn Hnd]. cbn [omap list_omap fst snd].
  apply elem_of_cons in Hin as [[= <- <-]|Hin].
  - rewrite bool_decide_eq_true_2 by done. f_equal.
    assert (∀ y, (name, y) ∉ l) as Hno.
    { intros y Hy. apply Hn. apply list_elem_of_fmap. by exists (name, y). }
    clear IH Hnd Hn. induction l as [|[k' y] l IHl]; [done|]. cbn [omap list_omap fst snd].
    rewrite bool_decide_eq_false_2.
    + apply IHl; [|set_solver]. intros k0 x0 H. apply (Hk k0 x0). set_solver.
    + intros Hf. apply (Hno y). rewrite <-(Hk k' y); [set_solver|set_solver|done].
  - rewrite bool_decide_eq_false_2; [apply IH; [done| |done]; intros k0 x0 H; apply (Hk k0 x0); set_solver|].
    intros Hf. rewrite (Hk k x) in Hn; [|set_solver|done]. apply Hn, list_elem_of_fmap. by exists (name, d).
Qed.

(** A header of the client without repeated members is one of the relay. *)
Lemma header_agrees line l :
  parse_bytes line = Some (DObject l) → NoDup l.*1 → Relay.isStreamHeader (members l) = true →
  isStreamHeaderLine line = true.
Proof.
  intros Hp Hnd. unfold Relay.isStreamHeader, isStreamHeaderLine. rewrite Hp.
  destruct (Relay.frameBool (members l) "stream") as [[|]|] eqn:Eb; [|done|done].
  destruct (Relay.streamIdentity (members l)) as [[v x]|] eqn:Ei; [|done]. cbn [is_ok andb].
  rewrite bool_decide_eq_true. intros Hsize.
  apply frameBool_ok in Eb. destruct (Relay.streamIdentity_keys _ _ _ Ei) as (_ & Hv & Hr).
  destruct (members l !! "stream") as [d|] eqn:Es; [|done]. cbn in Eb.
  assert (d = DBool true) as -> by (destruct d; try done; by injection Eb as ->).
  assert (dom (members l) = {["stream"; "protocol_version"; "request_id"]}) as Hdom.
  { symmetry. apply set_subseteq_size_eq; [|rewrite size_dom, Hsize; by vm_compute].
    intros k. rewrite !elem_of_union, !elem_of_singleton, elem_of_dom. intros [[->| ->]| ->]; [by eexists|done|done]. }
  rewrite (field_values_only "stream" (DBool true)); [done|done| |by apply last_wins_lookup].
  intros k y Hin Hf. assert (k ∈ dom (members l)) as Hk.
  { apply elem_of_dom. exists y. unfold members, last_wins. apply elem_of_list_to_map_1.
    - by rewrite fmap_reverse, reverse_Permutation.
    - by apply elem_of_reverse. }
  rewrite Hdom, !elem_of_union, !elem_of_singleton in Hk. destruct Hk as [[->| ->]| ->]; [done|exfalso..];
    revert Hf; by vm_compute.
Qed.


(** A stream of one line, its last line closed, and bytes that mill writes after it. *)
Definition sample_stream : list ascii :=
  bytes_of (Relay.json_text ("{'protocol_version':3,'request_id':'r1','stream':true}" +:+ newline
    +:+ "{'n':1}" +:+ newline
    +:+ "{'protocol_version':3,'request_id':'r1','done':true,'success':true,'result':null}" +:+ newline)).


(** ** The locks of an invocation *)

(** The locks that are held, admission and state, after the events; [None] when a lock is
    taken twice or released by one who has it not, when the request is sent without the
    admission or with mill's state locked, or lines are passed on with a lock held. *)
Definition hold1 (st : bool * bool) (e : inv_event) : option (bool * bool) :=
  match e, st with
  | LockAdmission, (false, s) => Some (true, s)
  | UnlockAdmission, (true, s) => Some (false, s)
  | LockState, (a, false) => Some (a, true)
  | UnlockState, (a, true) => Some (a, false)
  | SendRequest _ _, (true, false) => Some st
  | Forwarded _, (false, false) => Some st
  | ErrorFrame _ _, _ => Some st
  | _, _ => None
  end.

Fixpoint hold (st : bool * bool) (l : list inv_event) : option (bool * bool) :=
  match l with
  | [] => Some st
  | e :: l => st ← hold1 st e; hold st l
  end.

Lemma hold_app st l1 l2 : hold st (l1 ++ l2) = (st ← hold st l1; hold st l2).
Proof. revert st. induction l1 as [|e l1 IH]; intros st; [done|]. cbn. destruct (hold1 st e); [apply IH|done]. Qed.

Definition is_send (e : inv_event) : bool := match e with SendRequest _ _ => true | _ => false end.
Definition is_error (e : inv_event) : bool := match e with ErrorFrame _ _ => true | _ => false end.
Definition count (p : inv_event → bool) (l : list inv_event) : nat :=
  foldr (λ e n, if p e then S n else n) 0 l.
Notation sends := (count is_send).
Notation errors := (count is_error).

(** The properties of the events of one invocation. *)
Definition orderly (l : list inv_event) : Prop :=
  hold (false, false) l = Some (false, false) ∧ sends l ≤ 1 ∧ errors l ≤ 1 ∧
  ∀ details, ErrorFrame "weaver/restarted" details ∈ l → ∃ socket weaver, SendRequest socket weaver ∈ l.

Lemma relay_events a id socket weaver :
  let '(events, o, admitted) := relayInvokeWithAdmission a id socket weaver in
  (events = [] ∧ admitted = false ∧ ro_requestDelivery o = false) ∨
  (events = [SendRequest socket weaver] ∧ admitted = false) ∨
  ∃ text, events = [SendRequest socket weaver; UnlockAdmission; Forwarded text] ∧ admitted = true.
Proof.
  unfold relayInvokeWithAdmission. destruct (ra_gone a); [by left|]. destruct (ra_dials a); [|by left].
  destruct (ra_gone_dialled a); [by left|]. cbn [negb].
  destruct (ra_send a) as [| |[|]]; [|by right; left|by right; left|by left].
  destruct (ra_gone_sent a); [by right; left|].
  destruct (relay_lines _ _ _ _ _ _ _) as [w o]. right; right. by eexists.
Qed.

Lemma admitted_orderly relay_texts t status : orderly (forward_admitted relay_texts t status).
Proof.
  unfold forward_admitted.
  pose proof (relay_events (tu_relay t) (tu_request t) (text "socket_path" status) (text "weaver_id" status)) as H.
  destruct (relayInvokeWithAdmission _ _ _ _) as [[events o] admitted].
  set (final := match ro_err o with None => [] | Some e => _ end).
  assert (final = [] ∨ ∃ e, final = [forward_failure relay_texts
    (admissionBoundaryLocked (tu_admission t) status) (tu_cutover t) o e]) as Hfinal.
  { subst final. destruct (ro_err o) as [e|]; [|by left]. destruct (_ || _); [by left|]. right. by exists e. }
  clearbody final.
  assert (∀ e, ∃ code details, forward_failure relay_texts (admissionBoundaryLocked (tu_admission t) status)
    (tu_cutover t) o e = ErrorFrame code details ∧ (ro_requestDelivery o = false → code ≠ "weaver/restarted")) as Hf.
  { intros e. unfold forward_failure. destruct (admissionBoundaryLocked _ _); [|by eexists _, _].
    destruct (ro_requestDelivery o); [|by eexists _, _]. destruct (tu_cutover t); by eexists _, _. }
  destruct Hfinal as [->|(e & ->)]; [|destruct (Hf e) as (code & details & -> & Hcode)];
    destruct H as [(-> & -> & Hd)|[[-> ->]|(txt & -> & ->)]]; (split_and!; [done|cbn; lia|cbn; lia|]);
    intros details' Hin; try (by eexists _, _; do 3 right; left);
    repeat (apply elem_of_cons in Hin as [Hin|Hin]; [try discriminate Hin|]); try (by apply elem_of_nil in Hin).
  injection Hin as Hin _. by destruct (Hcode Hd).
Qed.

(** The codes of a refusal are those of the selection. *)
Definition refuses (t : target) : Prop :=
  match t with RefusedWith code _ => code ≠ "weaver/restarted" | _ => True end.

Lemma checked_refuses restart_text a t : refuses t → refuses (checked restart_text a t).
Proof. intros H. unfold checked. by destruct (validateAdmissionState a). Qed.

Lemma plain_refuses restart_text ad w : refuses (plain_target restart_text ad w).
Proof.
  unfold plain_target. destruct (ad_status ad w) as [[status [|]]|]; [done| |done].
  destruct (as_text _); [|done]. by apply checked_refuses.
Qed.

Lemma transition_refuses restart_text ad w : refuses (transition_target restart_text ad w).
Proof.
  unfold transition_target. destruct (ad_transition ad) as [t|]; [|apply plain_refuses].
  case_bool_decide.
  { unfold probing_target. destruct (ad_status ad w) as [[status [|]]|]; [done| |done]. by apply checked_refuses. }
  case_bool_decide; [done|]. case_bool_decide; [|apply plain_refuses]. by apply checked_refuses.
Qed.

Lemma target_refuses restart_text ad w : refuses (admittedInvokeTargetLocked restart_text ad w).
Proof.
  unfold admittedInvokeTargetLocked. destruct (ad_temporary ad) as [child|].
  { by destruct (ad_status ad child) as [[status [|]]|]. }
  destruct (ad_host ad) as [h|]; [destruct (wh_Live h); [by destruct (ad_member ad h)|]|]; apply transition_refuses.
Qed.

(** C30: An invocation takes and releases its two locks in order and ends with neither; it
    sends its request at most once, with the admission of the workspace held and mill's
    state free, and passes the response on with neither held; it writes at most one error
    frame, and the one that says a restart interrupted it only after the request was
    sent. While it has not ended it has only waited. *)
Theorem invocation_orderly restart_text relay_texts selected world_text turns :
  let '(events, over) := handleInvoke restart_text relay_texts selected world_text turns in
  orderly events ∧ (over = false → sends events = 0 ∧ errors events = 0).
Proof.
  destruct selected as [e|w]; cbn [handleInvoke].
  { split; [|done]. split_and!; [done|cbn; lia|cbn; lia|]. intros details Hin.
    apply list_elem_of_singleton in Hin. done. }
  induction turns as [|t turns IH]; cbn [invoke_turns].
  { split; [|done]. split_and!; [done|cbn; lia|cbn; lia|]. by intros details ?%elem_of_nil. }
  destruct (tu_gone t).
  { split; [|done]. split_and!; [done|cbn; lia|cbn; lia|]. by intros details ?%elem_of_nil. }
  destruct (admittedInvokeTargetLocked _ _ _) as [status|tr|code details] eqn:Ea.
  - split; [apply admitted_orderly|done].
  - destruct (tu_wait t) as [|detail [|]].
    + destruct (invoke_turns _ _ _ _) as [events over]. destruct IH as [(H1 & H2 & H3 & H4) H5]. split.
      * split_and!; [by rewrite hold_app|exact H2|exact H3|].
        intros d Hin. destruct (H4 d) as (x & y & Hxy); [|exists x, y; do 4 right; exact Hxy].
        by repeat (apply elem_of_cons in Hin as [Hin|Hin]; [discriminate Hin|]).
      * intros Ho. by destruct (H5 Ho).
    + split; [|done]. split_and!; [done|cbn; lia|cbn; lia|]. intros d Hin.
      by repeat (apply elem_of_cons in Hin as [Hin|Hin]; [discriminate Hin|]); apply elem_of_nil in Hin.
    + split; [|done]. split_and!; [done|cbn; lia|cbn; lia|]. intros d Hin.
      by repeat (apply elem_of_cons in Hin as [Hin|Hin]; [discriminate Hin|]); apply elem_of_nil in Hin.
  - split; [|done]. split_and!; [done|cbn; lia|cbn; lia|]. intros d Hin. exfalso.
    pose proof (target_refuses restart_text (tu_admission t) w) as Hr. rewrite Ea in Hr. cbn in Hr.
    repeat (apply elem_of_cons in Hin as [Hin|Hin]; [try discriminate Hin|]); [congruence|by apply elem_of_nil in Hin].
Qed.

(** A refusal is written to the caller with both locks held: while the caller does not
    take it, no other request of any workspace gets at mill's state. *)
Lemma refusal_written_locked restart_text relay_texts world_text w t turns code details :
  tu_gone t = false → admittedInvokeTargetLocked restart_text (tu_admission t) w = RefusedWith code details →
  ∃ before after, (handleInvoke restart_text relay_texts (inr w) world_text (t :: turns)).1
                  = before ++ ErrorFrame code details :: after ∧
    hold (false, false) before = Some (true, true).
Proof.
  intros Hg Ha. exists [LockAdmission; LockState], [UnlockState; UnlockAdmission]. cbn. by rewrite Hg, Ha.
Qed.

(** ** Names *)

(** A row publishes a name for a directory. *)
Definition publishes (name : string) (rows : list object) (dir : string) : Prop :=
  ∃ row, row ∈ rows ∧ as_text (row !! "name") = Some name ∧ as_text (row !! "config_dir") = Some dir.

Definition rows_located (name : string) (rows : list object) : Prop :=
  ∀ row, row ∈ rows → as_text (row !! "name") = Some name →
    ∃ dir, as_text (row !! "config_dir") = Some dir ∧ is_blank dir = false.

Lemma matched_dirs_ok name rows :
  rows_located name rows →
  ∃ dirs, matched_dirs name rows = Ok dirs ∧ ∀ d, d ∈ dirs ↔ publishes name rows d.
Proof.
  induction rows as [|row rows IH]; intros Hl.
  { exists ∅. split; [done|]. intros d. split; [set_solver|]. intros (r & Hr & _). by apply elem_of_nil in Hr. }
  destruct IH as (dirs & Hd & Hp); [intros r Hr; apply Hl; by right|]. cbn [matched_dirs]. case_bool_decide as Hn.
  - destruct (Hl row) as (dir & Hdir & Hb); [by left|done|]. rewrite Hdir, Hb, Hd. eexists. split; [done|].
    intros d. rewrite elem_of_union, elem_of_singleton, Hp. split.
    + intros [->|(r & Hr & H1 & H2)]; [exists row; split; [by left|done]|exists r; split; [by right|done]].
    + intros (r & [->|Hr]%elem_of_cons & H1 & H2); [left; congruence|right; by exists r].
  - exists dirs. split; [done|]. intros d. rewrite Hp. split.
    + intros (r & Hr & H1 & H2). exists r. split; [by right|done].
    + intros (r & [->|Hr]%elem_of_cons & H1 & H2); [done|by exists r].
Qed.

(** Sorted names without repetition increase strictly. *)
Lemma sort_strings_strict l : NoDup l → StronglySorted str_lt (sort_strings l).
Proof.
  intros Hnd. apply Sorted_StronglySorted; [exact str_lt_trans|].
  assert (NoDup (sort_strings l)) as Hs by (unfold sort_strings; by rewrite sort_stable_perm).
  assert (Sorted (sort_le str_ltb) (sort_strings l)) as H by apply sort_stable_sorted, str_ltb_asym.
  induction H as [|x m _ IH Hx]; [constructor|]. apply NoDup_cons in Hs as [Hin Hs]. constructor; [by apply IH|].
  destruct Hx as [|y m Hxy]; constructor. unfold str_lt. destruct (str_ltb x y) eqn:E; [done|].
  destruct Hin. rewrite (str_ltb_total x y E Hxy). by left.
Qed.

(** A bare selection is a name before it is a path: if the rows of mill's list publish it
    for one directory, the workspace of that directory is selected, whatever a path of
    the same spelling may hold; if for several, the selection is refused with all of them
    in order; if for none, it is the path. Every row of the name must have a directory. *)
Theorem name_selects getwd xdg home eval_symlinks WorldHash lstat git fs cwd rows name :
  name ≠ "" → invokeWorkspaceIsPath name = false → rows_located name rows →
  let path := resolveLifecycleWorld getwd xdg home eval_symlinks WorldHash lstat git fs cwd in
  let r := resolveInvokeWorld getwd xdg home eval_symlinks WorldHash lstat git fs cwd (Some rows) name in
  ((∀ d, ¬ publishes name rows d) → r = path name) ∧
  (∀ p, (∀ d, publishes name rows d ↔ d = p) → r = path p) ∧
  (∀ a b, publishes name rows a → publishes name rows b → a ≠ b →
     ∃ paths, r = Err (WEAmbiguous name paths) ∧ StronglySorted str_lt paths ∧
       ∀ d, d ∈ paths ↔ publishes name rows d).
Proof.
  intros Hne Hpath Hl path r. destruct (matched_dirs_ok name rows Hl) as (dirs & Hd & Hp).
  assert (r = match sort_strings (elements dirs) with
              | [] => path name | [p] => path p | paths => Err (WEAmbiguous name paths) end) as ->.
  { unfold r, resolveInvokeWorld. rewrite (bool_decide_eq_false_2 _ Hne), Hpath, Hd. done. }
  assert (∀ d, d ∈ sort_strings (elements dirs) ↔ publishes name rows d) as Hs.
  { intros d. rewrite <-Hp. unfold sort_strings. by rewrite elem_of_sort_stable, elem_of_elements. }
  assert (NoDup (sort_strings (elements dirs))) as Hnd.
  { unfold sort_strings. rewrite sort_stable_perm. apply NoDup_elements. }
  split_and!.
  - intros Hno. destruct (sort_strings _) as [|x l]; [done|]. exfalso. apply (Hno x), Hs. by left.
  - intros p Hone. destruct (sort_strings _) as [|x [|y l]].
    + exfalso. apply (not_elem_of_nil p), Hs. by apply Hone.
    + f_equal. apply Hone, Hs. by left.
    + exfalso. assert (x = y) as ->; [|apply NoDup_cons in Hnd as [Hnd _]; apply Hnd; by left].
      transitivity p; [|symmetry]; apply Hone, Hs; [by left|by right; left].
  - intros a b Ha Hb Hab. pose proof (sort_strings_strict (elements dirs) (NoDup_elements dirs)) as Hsort.
    exists (sort_strings (elements dirs)). split; [|done]. apply Hs in Ha, Hb.
    destruct (sort_strings (elements dirs)) as [|x [|y l]]; [by apply elem_of_nil in Ha| |done].
    apply list_elem_of_singleton in Ha, Hb. congruence.
Qed.

Definition demo_row (name dir : string) : object :=
  <["name" := AString name]> {["config_dir" := AString dir]}.

Definition demo_rows : list object :=
  [demo_row "core" "/b/.millstrand"; demo_row "api" "/c/.millstrand"; demo_row "core" "/a/.millstrand"].

Lemma name_selects_witness :
  rows_located "core" demo_rows ∧
  resolveInvokeWorld None "" None (λ _, None) (λ s, s) (λ _, MAbsent) (λ _ _, None) ∅ "/" (Some demo_rows) "core"
  = Err (WEAmbiguous "core" ["/a/.millstrand"; "/b/.millstrand"]).
Proof.
  assert (rows_located "core" demo_rows) as Hl.
  { intros row Hin _. repeat (apply elem_of_cons in Hin as [->|Hin]; [eexists; split; by vm_compute|]).
    by apply elem_of_nil in Hin. }
  split; [done|].
  destruct (name_selects None "" None (λ _, None) (λ s, s) (λ _, MAbsent) (λ _ _, None) ∅ "/" demo_rows "core"
              ltac:(done) eq_refl Hl) as (_ & _ & Hm).
  destruct (Hm "/a/.millstrand" "/b/.millstrand") as (paths & Hr & _ & _).
  - eexists. split; [do 2 right; left|]; by vm_compute.
  - eexists. split; [left|]; by vm_compute.
  - done.
  - by vm_compute.
Defined.
