(* ===== verification/Membership.v ===== *)
(** Which JVM pool a workspace belongs to (src/cli/cmd/mill/pool_membership.go): its
    configuration, its row of the durable registry and the host that serves it, and the
    reconciliation of the three when a workspace is initialised. Configuration files and
    published metadata are the files of mill's pools; the registry is the membership file
    of the [JvmPool] module. *)

From S2P Require Export Pool.
From S2P Require JvmPool.

(** ** State and errors *)

Record membership := mkMembership { ms_pools : pools; ms_registry : JvmPool.disk }.

Inductive init_error :=
| IEConfig (e : config_error)
| IEBlank (dir : string)
| IERoot
| IERegistry (e : JvmPool.reg_error)
| IEPool (e : pool_fault)
| IEWorld (dir : string)
| IEMetadata (e : identity_error)
| IEStopRequired (dir pool hostID : string)
| IESource.

Notation IM := (ST membership init_error).

(** An operation on one of the two parts. *)
Definition on_pools {A} (m : PM A) : IM A := λ s,
  let '(p, r) := m (ms_pools s) in
  (mkMembership p (ms_registry s), JvmPool.map_err IEPool r).

Definition on_registry {A} (m : ST JvmPool.disk JvmPool.reg_error A) : IM A := λ s,
  let '(d, r) := m (ms_registry s) in
  (mkMembership (ms_pools s) d, JvmPool.map_err IERegistry r).

(** The details of the error for a live host in the way. *)
Definition poolStopRequiredError (configDir pool hostID : string) : string * object :=
  ("mill/jvm-pool-stop-required",
   assign [("config_dir", AString configDir); ("jvm_pool", AString pool); ("host_id", AString hostID)] ∅).

(** A host is live as far as [livePoolHostForConfig] and [livePoolOwnership] look: a host
    without a process counts as such. *)
Definition host_serves (alive : Z → bool) (h : weaverHost) : bool :=
  wh_Live h && ((wh_PID h <=? 0)%Z || alive (wh_PID h)).

(** The host that stands for an isolated weaver. *)
Definition isolated_host (id : weaverIdentity) : weaverHost :=
  mkHost "" (id_WeaverID id) "" "" "" false (id_PID id) "" [] ∅ "" "" "" "" true.

(** The owners by workspace, the hosts in the order in which the map is iterated. *)
Definition livePoolOwnership (alive : Z → bool) (order : list string) (s : pools)
    : gmap string JvmPool.LiveOwner :=
  foldl (λ owners pool,
           match host_of_pool pool s with
           | Some (_, h) =>
               if host_serves alive h then
                 foldl (λ owners d, <[d := JvmPool.mkOwner pool (wh_HostID h)]> owners) owners
                   (poolConfigDirs (wh_Members h))
               else owners
           | None => owners
           end) ∅ order.

Section membership.
Context (E : penv) (lstat : string → marker) (git : git_query → string → option string).

Definition load (fs : files) (dir : string) : result config_error (Config * World) :=
  Load (pe_getwd E) (pe_xdg E) (pe_home E) (pe_eval_symlinks E) (pe_WorldHash E) lstat git fs dir.

(** ** Reading *)

(** Opening the registry touches no file. *)
Definition jvmPoolRegistry : IM unit :=
  match StateRoot (pe_xdg E) (pe_home E) with
  | Ok root => st_lift (match JvmPool.validateCanonicalPath "state root" root with
                        | Ok _ => Ok tt | Err _ => Err IERoot end)
  | Err _ => st_fail IERoot
  end.

Definition configuredPool (dir : string) : IM string := λ s,
  (s, match load (po_files (ms_pools s)) dir with
      | Err e => Err (IEConfig e)
      | Ok (c, _) =>
          match JVMPool c with
          | None => Ok ""
          | Some pool => if is_blank pool then Err (IEBlank dir) else Ok pool
          end
      end).

Definition poolSnapshot (pool : string) : IM JvmPool.PoolSnapshot :=
  jvmPoolRegistry ;;
  s ← st_get;
  st_lift (JvmPool.map_err IERegistry
    (JvmPool.ValidatePool (JvmPool.d_file (ms_registry s)) pool
       (Some (λ dir, '(c, _) ← load (po_files (ms_pools s)) dir; Ok (JvmPool.mkEffective dir "" (JVMPool c)))))).

Definition poolRegisteredSnapshot (pool : string) : IM JvmPool.PoolSnapshot :=
  jvmPoolRegistry ;;
  s ← st_get;
  st_lift (JvmPool.map_err IERegistry (JvmPool.Snapshot (JvmPool.d_file (ms_registry s)) pool)).

Definition registeredPoolForConfig (configDir : string) : IM (option string) :=
  jvmPoolRegistry ;;
  s ← st_get;
  st_lift (JvmPool.map_err IERegistry
    (doc ← JvmPool.readLocked (JvmPool.d_file (ms_registry s));
     Ok (JvmPool.m_JVMPool <$> head (filter (λ m, JvmPool.m_ConfigDir m = configDir) (JvmPool.doc_members doc))))).

Definition poolMembershipRecorded (configDir : string) : IM bool :=
  pool ← registeredPoolForConfig configDir; mret (bool_decide (is_Some pool)).

(** What is seen of a workspace while its host is looked for: processes, endpoints and
    launch manifests, and the restart record that its status is laid under. *)
Record host_look := mkHostLook {
  hl_look : look;
  hl_restart : result string (option restartRecord);
}.

(** The weaver of a workspace outside any pool, if its metadata is good. *)
Definition isolated_owner (k : host_look) (w : world) (fs : files) : result init_error (option weaverHost) :=
  match readStatusWithRestartRecord (pe_eval_symlinks E) (lk_alive (hl_look k)) (pe_quote E)
          (pe_decode_text E) w (Some (hl_restart k)) fs with
  | Some (status, false) =>
      if is_blank (text "jvm_pool" status) then
        match identityFromStatus status with
        | Ok id => Ok (Some (isolated_host id))
        | Err e => Err (IEMetadata e)
        end
      else Ok None
  | _ => Ok None
  end.

Definition discovered_owner (k : host_look) (configDir : string) : IM (option weaverHost) :=
  recorded ← registeredPoolForConfig configDir;
  match recorded with
  | None => mret None
  | Some pool =>
      l ← on_pools (discoverPoolHost E (hl_look k) pool);
      s ← st_get;
      mret (h ← (l ≫= host_at (ms_pools s)); if poolHostHasMember h configDir then Some h else None)
  end.

Definition livePoolHostForConfig (k : host_look) (configDir : string) : IM (option weaverHost) := λ s,
  let otherwise : IM (option weaverHost) :=
    h ← discovered_owner k configDir;
    match h with
    | Some h => mret (Some h)
    | None =>
        match runtime_world E configDir with
        | None => st_fail (IEWorld configDir)
        | Some w => s ← st_get; st_lift (isolated_owner k w (po_files (ms_pools s)))
        end
    end in
  match poolHostForConfigLocked configDir (ms_pools s) with
  | Some (_, h) => if host_serves (lk_alive (hl_look k)) h then (s, Ok (Some h)) else otherwise s
  | None => otherwise s
  end.

Definition poolMemberRecorded (configDir : string) (s : pools) : bool :=
  bool_decide (is_Some (poolHostForConfigLocked configDir s)).

(** ** Initialising a workspace *)

Definition initSourceCWD (cwd : string) : option string :=
  cwd ← (if is_blank cwd then pe_getwd E else Some cwd);
  abs ← Abs (pe_getwd E) cwd;
  Some (Clean (default abs (pe_eval_symlinks E abs))).

(** The answers of one initialisation: the looks for the host and, later, at the
    processes of the owners with the order of the hosts, the failing step of the
    rewriting of the local configuration, and the answers to the registry. *)
Record init_answers := mkInitAnswers {
  ia_look : host_look;
  ia_alive : Z → bool;
  ia_order : list string;
  ia_config : option Config.write_step;
  ia_registry : JvmPool.io_env;
}.

Definition set_local_pool (failing : option Config.write_step) (dir pool : string) : IM unit := λ s,
  let '(fs, r) := SetLocalJVMPool (po_files (ms_pools s)) dir pool failing in
  (mkMembership (with_files fs (ms_pools s)) (ms_registry s), JvmPool.map_err IEConfig r).

(** The registry's row after the configuration is settled. *)
Definition reconcile_row (a : init_answers) (dir cwd desired : string) : IM string :=
  jvmPoolRegistry ;;
  s ← st_get;
  let live := livePoolOwnership (ia_alive a) (ia_order a) (ms_pools s) in
  if bool_decide (desired = "") then
    on_registry (JvmPool.Remove (ia_registry a) dir live) ;; mret ""
  else
    match initSourceCWD cwd with
    | None => st_fail IESource
    | Some source =>
        on_registry (JvmPool.Reconcile (ia_registry a) (JvmPool.mkMember dir source desired) live) ;;
        mret desired
    end.

(** [dir] is the configuration directory of the selected world. *)
Definition reconcileInitPool (a : init_answers) (dir cwd : string) (override : option string) : IM string :=
  currentPool ← configuredPool dir;
  let desired := default currentPool override in
  host ← livePoolHostForConfig (ia_look a) dir;
  match host with
  | Some h => st_lift (ensure (negb (wh_Live h) || bool_decide (wh_Pool h = desired))
                         (IEStopRequired dir (wh_Pool h) (wh_HostID h)))
  | None => mret tt
  end ;;
  match override with
  | Some pool => set_local_pool (ia_config a) dir pool
  | None => mret tt
  end ;;
  s ← st_get;
  '(c, _) ← st_lift (JvmPool.map_err IEConfig (load (po_files (ms_pools s)) dir));
  reconcile_row a dir cwd (default "" (JVMPool c)).
End membership.

(** ** Lemmas: configuration *)

Section reconciling.
Context (E : penv) (lstat : string → marker) (git : git_query → string → option string).
(** What the system gives for the working directory and for links is absolute. *)
Context (Hwd : ∀ wd, pe_getwd E = Some wd → IsAbs wd = true).
Context (Heval : ∀ p p', pe_eval_symlinks E p = Some p' → IsAbs p' = true).

Notation load := (load E lstat git).
Notation reconcile := (reconcileInitPool E lstat git).

Lemma load_pool_named fs dir c w pool :
  load fs dir = Ok (c, w) → JVMPool c = Some pool → is_blank pool = false.
Proof using.
  unfold Membership.load. intros (_ & b & bw & l & lw & Hb & Hl & ->)%Load_ok Hp.
  assert (∀ l', (∃ raw, declares raw l') ∨ l' = no_layer → ∀ s, l_pool l' = Some (Some s) → is_blank s = false) as Hnb.
  { intros l' [(raw & _ & _ & _ & _ & H)| ->] x Hx; [by apply H|done]. }
  cbn in Hp. destruct (l_pool l) as [[q|]|] eqn:El; [|done|].
  - injection Hp as <-. eapply Hnb; [|done]. unfold local_layer in Hl.
    destruct Hl as [(_ & -> & _)|(ms & _ & _ & Hm & _)]; eauto.
  - cbn in Hp. destruct (l_pool b) as [[q|]|] eqn:Eb; [|done..]. injection Hp as <-.
    eapply Hnb; [|done]. destruct Hb as (ms & _ & _ & Hm & _). eauto.
Qed.

(** A directory that is its own canonical form. *)
Definition resolved (dir : string) : Prop :=
  dir ≠ "" ∧ IsAbs dir = true ∧ Clean dir = dir ∧ default dir (pe_eval_symlinks E dir) = dir.

Lemma load_dir fs dir c w : resolved dir → load fs dir = Ok (c, w) → w_ConfigDir w = dir.
Proof using.
  intros (Hne & Ha & Hc & He). unfold load. intros (Hw & _)%Load_ok. revert Hw.
  unfold SelectedWorld, RuntimeWorld, CanonicalConfigIdentity, Abs.
  rewrite (bool_decide_eq_false_2 _ Hne), Ha, Hc. cbn [negb]. rewrite He, Hc.
  destruct (StateRoot _ _); cbn; [|done]. by intros [= <-].
Qed.

Definition local_file (dir : string) : string := PathJoin [dir; LocalConfigFileName].

Lemma set_local_pool_run failing dir pool s s' :
  resolved dir → valid_text pool = true →
  set_local_pool failing dir pool s = (s', Ok tt) →
  ms_registry s' = ms_registry s ∧
  (∀ c w, load (po_files (ms_pools s)) dir = Ok (c, w) →
     load (po_files (ms_pools s')) dir = Ok (set_JVMPool (Some pool) c, w)) ∧
  (∀ p, p ≠ local_file dir → po_files (ms_pools s') !! p = po_files (ms_pools s) !! p) ∧
  ms_pools s' = with_files (po_files (ms_pools s')) (ms_pools s).
Proof using Hwd Heval.
  intros Hdir Hv. unfold set_local_pool.
  destruct (SetLocalJVMPool _ dir pool failing) as [fs r] eqn:Es. intros [= <- Hr]. cbn.
  assert (is_blank pool = false) as Hb.
  { revert Es. unfold SetLocalJVMPool. destruct (is_blank pool); [|done]. intros [= <- <-]. done. }
  destruct r as [[]|]; [|done]. split_and!; [done| | |done].
  - intros c w Hc. pose proof (load_dir _ _ _ _ Hdir Hc) as Hd.
    pose proof (SetLocalJVMPool_Load _ _ _ _ _ lstat git Hwd Heval _ dir c w pool failing Hc Hb Hv) as H.
    rewrite Hd, Es in H. destruct failing; [|by apply H]. by destruct H as [_ [_ H]].
  - intros p Hp. revert Es. unfold SetLocalJVMPool. rewrite Hb. cbv zeta. fold (local_file dir).
    destruct (po_files (ms_pools s) !! local_file dir) as [[|[[]|]]|]; try (by intros [=]);
      (destruct failing; cbn; [by intros [=]|]; intros [= <-]; by rewrite lookup_insert_ne).
Qed.

(** ** Lemmas: what reading leaves alone *)

(** Neither the registry nor a file changes. *)
Definition untouched (s s' : membership) : Prop :=
  ms_registry s' = ms_registry s ∧ po_files (ms_pools s') = po_files (ms_pools s).

Definition reads {A} (m : IM A) : Prop := ∀ s s' r, m s = (s', r) → untouched s s'.

Lemma reads_pure {A} (f : membership → result init_error A) : reads (λ s, (s, f s)).
Proof using. by intros s s' r [= <- <-]. Qed.

Lemma reads_bind {A B} (m : IM A) (f : A → IM B) : reads m → (∀ x, reads (f x)) → reads (m ≫= f).
Proof using.
  intros Hm Hf s s' r H. apply st_bind_run in H as [(e & R & ->)|(x & s1 & R & H)]; [by eapply Hm|].
  apply Hm in R as [R1 R2]. apply Hf in H as [H1 H2]. split; congruence.
Qed.

Lemma reads_registry : reads (jvmPoolRegistry E).
Proof using.
  unfold jvmPoolRegistry. destruct (StateRoot _ _); [apply reads_pure|].
  exact (reads_pure (λ _, Err IERoot)).
Qed.

Lemma reads_registered dir : reads (registeredPoolForConfig E dir).
Proof using.
  apply reads_bind; [apply reads_registry|]. intros _. apply reads_bind; [exact (reads_pure Ok)|].
  intros s. apply (reads_pure (λ _, _)).
Qed.

Lemma discover_files k pool s s' r : discoverPoolHost E k pool s = (s', r) → po_files s' = po_files s.
Proof using.
  unfold discoverPoolHost. destruct (find_host E k pool (po_files s)) as [[h|]|]; [|by intros [= <- <-]..].
  destruct (host_of_pool pool s) as [[l x]|]; [destruct (wh_Live x)|]; by intros [= <- <-].
Qed.

Lemma reads_live k dir : reads (livePoolHostForConfig E k dir).
Proof using.
  assert (reads (h ← discovered_owner E k dir;
     match h with
     | Some h => mret (Some h)
     | None => match runtime_world E dir with
               | None => st_fail (IEWorld dir)
               | Some w => s ← st_get; st_lift (isolated_owner E k w (po_files (ms_pools s)))
               end
     end)) as Ho.
  { apply reads_bind.
    - apply reads_bind; [apply reads_registered|]. intros [pool|]; [|exact (reads_pure (λ _, Ok None))].
      apply reads_bind.
      + intros s s' r. unfold on_pools. destruct (discoverPoolHost E _ pool (ms_pools s)) as [p x] eqn:Ed.
        intros [= <- <-]. split; [done|]. by eapply discover_files.
      + intros l. apply reads_bind; [exact (reads_pure Ok)|]. intros s. apply (reads_pure (λ _, Ok _)).
    - intros [h|]; [apply (reads_pure (λ _, Ok _))|]. destruct (runtime_world E dir); [|apply (reads_pure (λ _, Err _))].
      apply reads_bind; [exact (reads_pure Ok)|]. intros s. apply (reads_pure (λ _, _)). }
  intros s s' r. unfold livePoolHostForConfig.
  destruct (poolHostForConfigLocked dir (ms_pools s)) as [[l h]|]; [destruct (host_serves _ h)|];
    first [apply Ho|by intros [= <- <-]].
Qed.

Lemma ownership_files alive order fs s :
  livePoolOwnership alive order (with_files fs s) = livePoolOwnership alive order s.
Proof using. done. Qed.

(** ** Lemmas: the row *)

(** The next step of a run that succeeds. *)
Ltac step_ok H :=
  let R := fresh "R" in apply st_bind_run in H as [(? & _ & [=])|(? & ? & R & H)].

(** The registry has the row of a workspace in [pool], or none when that is blank, and no
    live host stands against it. *)
Definition placed (owners : gmap string JvmPool.LiveOwner) (dir pool : string) (d d' : JvmPool.disk) : Prop :=
  let before := JvmPool.registry_map (JvmPool.d_file d) in
  let after := JvmPool.registry_map (JvmPool.d_file d') in
  if bool_decide (pool = "") then after = delete dir before ∧ owners !! dir = None
  else ∃ source, after = <[dir := JvmPool.mkMember dir source pool]> before ∧
         ∀ o, owners !! dir = Some o → JvmPool.lo_Pool o = pool.

Lemma reconcile_row_run a dir cwd desired s s' pool :
  JvmPool.readable (ms_registry s) →
  reconcile_row E a dir cwd desired s = (s', Ok pool) →
  pool = desired ∧ ms_pools s' = ms_pools s ∧
  placed (livePoolOwnership (ia_alive a) (ia_order a) (ms_pools s)) dir pool (ms_registry s) (ms_registry s').
Proof using.
  intros Hr H. unfold reconcile_row in H. step_ok H.
  assert (x0 = s) as ->.
  { revert R. unfold jvmPoolRegistry. destruct (StateRoot _ _); by intros [= <- _]. }
  step_ok H. injection R0 as <- <-. unfold placed. case_bool_decide as Hd.
  - step_ok H. unfold mret, st_ret in H. injection H as <- <-. unfold on_registry in R0.
    destruct (JvmPool.Remove _ _ _ _) as [d r] eqn:Em. injection R0 as <- Hx. destruct r as [mu|]; [|done].
    apply JvmPool.Remove_ok in Em as (H1 & _ & H2); [|done]. rewrite Hd, bool_decide_eq_true_2 by done. done.
  - destruct (initSourceCWD E cwd) as [source|]; [|done]. step_ok H. unfold mret, st_ret in H. injection H as <- <-.
    unfold on_registry in R0. destruct (JvmPool.Reconcile _ _ _ _) as [d r] eqn:Em. injection R0 as <- Hx.
    destruct r as [mu|]; [|done]. apply JvmPool.Reconcile_ok in Em as (H1 & _ & _ & H2); [|done].
    rewrite bool_decide_eq_false_2 by done. split_and!; [done|done|]. exists source. split; [done|].
    intros o Ho. by apply H2.
Qed.

(** ** Lemmas: the steps of an initialisation *)

Lemma configured_run dir s s' r : configuredPool E lstat git dir s = (s', r) → s' = s.
Proof using. by intros [= <- _]. Qed.

Lemma configured_loaded dir s s' pool :
  configuredPool E lstat git dir s = (s', Ok pool) →
  ∃ c w, load (po_files (ms_pools s)) dir = Ok (c, w) ∧ pool = default "" (JVMPool c).
Proof using.
  unfold configuredPool. intros [= _ H]. destruct (load _ dir) as [[c w]|]; [|done].
  exists c, w. split; [done|]. destruct (JVMPool c) as [p|]; [|by injection H].
  destruct (is_blank p); [done|by injection H].
Qed.

(** The check for a live host in the way. *)
Definition in_the_way (dir desired : string) (host : option weaverHost) : result init_error unit :=
  match host with
  | Some h => ensure (negb (wh_Live h) || bool_decide (wh_Pool h = desired))
                (IEStopRequired dir (wh_Pool h) (wh_HostID h))
  | None => Ok tt
  end.

Lemma live_routed k dir s l h :
  poolHostForConfigLocked dir (ms_pools s) = Some (l, h) → host_serves (lk_alive (hl_look k)) h = true →
  livePoolHostForConfig E k dir s = (s, Ok (Some h)).
Proof using. intros Hh Hs. unfold livePoolHostForConfig. by rewrite Hh, Hs. Qed.

Lemma reconcile_run a dir cwd override s s' pool :
  reconcile a dir cwd override s = (s', Ok pool) →
  ∃ c w host s1 s2 c2 w2,
    load (po_files (ms_pools s)) dir = Ok (c, w) ∧
    livePoolHostForConfig E (ia_look a) dir s = (s1, Ok host) ∧
    in_the_way dir (default (default "" (JVMPool c)) override) host = Ok tt ∧
    match override with
    | Some p => set_local_pool (ia_config a) dir p s1 = (s2, Ok tt)
    | None => s2 = s1
    end ∧
    load (po_files (ms_pools s2)) dir = Ok (c2, w2) ∧
    reconcile_row E a dir cwd (default "" (JVMPool c2)) s2 = (s', Ok pool).
Proof using.
  unfold reconcileInitPool. intros H. step_ok H. pose proof (configured_run _ _ _ _ R) as ->.
  apply configured_loaded in R as (c & w & Hc & ->). step_ok H. rename x into host, x0 into s1. step_ok H.
  assert (x0 = s1 ∧ in_the_way dir (default (default "" (JVMPool c)) override) host = Ok tt) as [-> Hway].
  { unfold in_the_way. destruct host as [h|]; injection R0 as <- R0; destruct x; [done|done]. }
  step_ok H. step_ok H. injection R2 as <- <-. step_ok H. injection R2 as <- R2.
  destruct x2 as [c2 w2]. destruct (load (po_files (ms_pools x1)) dir) as [[c3 w3]|] eqn:El; [|done].
  injection R2 as -> ->. exists c, w, host, s1, x1, c2, w2. split_and!; try done.
  destruct override; [by destruct x0|by injection R1 as <- _].
Qed.

(** ** Lemmas: nothing to do *)

(** A row that is there is not written again. *)
Lemma Reconcile_same env m live d d' r :
  JvmPool.readable d → JvmPool.registry_map (JvmPool.d_file d) !! JvmPool.m_ConfigDir m = Some m →
  JvmPool.Reconcile env m live d = (d', r) → d' = d.
Proof using.
  intros Hd Hm H. destruct (JvmPool.validateMember m) as [[]|e] eqn:Ev.
  2: { pose proof (JvmPool.Reconcile_invalid env m live d) as Hi. rewrite H in Hi. apply Hi. congruence. }
  revert H. unfold JvmPool.Reconcile, mbind, st_bind, st_lift, st_get. rewrite Ev. cbn.
  destruct (JvmPool.readable_rows _ Hd) as (doc & Hdoc & Hrows & _ & Hnd). rewrite Hdoc.
  destruct (list_find _ (JvmPool.doc_members doc)) as [[i c]|] eqn:Ef.
  - apply list_find_Some in Ef as (Hi & Hc & _). rewrite <-Hrows in Hi.
    assert (JvmPool.registry_map (JvmPool.d_file d) !! JvmPool.m_ConfigDir c = Some c) as Hcm.
    { destruct d as [f t]. apply (JvmPool.rows_of_lookup f i c); [|done]. destruct Hd as [Ht Hd]. cbn in *. by subst. }
    rewrite Hc, Hm in Hcm. injection Hcm as <-. rewrite bool_decide_eq_true_2 by done.
    destruct (live !! _); [destruct (_ || _)|]; by intros [= <- _].
  - apply list_find_None in Ef. unfold JvmPool.registry_map in Hm. rewrite Hrows in Hm.
    apply JvmPool.by_dir_lookup in Hm as [Hin _]; [|done]. rewrite Forall_forall in Ef. by destruct (Ef m Hin).
Qed.

Lemma Remove_absent env dir live d d' r :
  JvmPool.readable d → JvmPool.registry_map (JvmPool.d_file d) !! dir = None →
  JvmPool.Remove env dir live d = (d', r) → d' = d.
Proof using.
  intros Hd Hm. unfold JvmPool.Remove, mbind, st_bind, st_lift, st_get.
  destruct (JvmPool.map_err _ _); [|by intros [= <- _]].
  destruct (JvmPool.readable_rows _ Hd) as (doc & Hdoc & Hrows & _ & Hnd). rewrite Hdoc.
  destruct (live !! dir); [by intros [= <- _]|].
  destruct (list_find _ (JvmPool.doc_members doc)) as [[i c]|] eqn:Ef; [|by intros [= <- _]].
  apply list_find_Some in Ef as (Hi & Hc & _). rewrite <-Hrows in Hi.
  assert (JvmPool.registry_map (JvmPool.d_file d) !! JvmPool.m_ConfigDir c = Some c) as Hcm.
  { destruct d as [f t]. apply (JvmPool.rows_of_lookup f i c); [|done]. destruct Hd as [Ht Hd]. cbn in *. by subst. }
  by rewrite Hc, Hm in Hcm.
Qed.

(** The row that a configuration and a directory ask for is there. *)
Definition settled (dir cwd pool : string) (d : JvmPool.disk) : Prop :=
  JvmPool.readable d ∧
  if bool_decide (pool = "") then JvmPool.registry_map (JvmPool.d_file d) !! dir = None
  else ∀ source, initSourceCWD E cwd = Some source →
       JvmPool.registry_map (JvmPool.d_file d) !! dir = Some (JvmPool.mkMember dir source pool).

Lemma reconcile_row_settles a dir cwd desired s s' pool :
  JvmPool.readable (ms_registry s) →
  reconcile_row E a dir cwd desired s = (s', Ok pool) → settled dir cwd pool (ms_registry s').
Proof using.
  intros Hr H. unfold reconcile_row in H. step_ok H.
  assert (x0 = s) as ->.
  { revert R. unfold jvmPoolRegistry. destruct (StateRoot _ _); by intros [= <- _]. }
  step_ok H. injection R0 as <- <-. unfold settled. case_bool_decide as Hd.
  - step_ok H. unfold mret, st_ret in H. injection H as <- <-. unfold on_registry in R0.
    destruct (JvmPool.Remove _ _ _ _) as [d r] eqn:Em. injection R0 as <- Hx. destruct r as [mu|]; [|done]. cbn [ms_registry].
    split; [apply (JvmPool.reg_step_readable _ _ Hr); by pose proof (f_equal fst Em) as Hd'; cbn in Hd'; subst d; constructor|].
    apply JvmPool.Remove_ok in Em as (-> & _ & _); [|done]. rewrite bool_decide_eq_true_2 by done.
    apply lookup_delete_eq.
  - destruct (initSourceCWD E cwd) as [source|]; [|done]. step_ok H. unfold mret, st_ret in H. injection H as <- <-.
    unfold on_registry in R0. destruct (JvmPool.Reconcile _ _ _ _) as [d r] eqn:Em. injection R0 as <- Hx.
    destruct r as [mu|]; [|done]. cbn [ms_registry].
    split; [apply (JvmPool.reg_step_readable _ _ Hr); by pose proof (f_equal fst Em) as Hd'; cbn in Hd'; subst d; constructor|].
    apply JvmPool.Reconcile_ok in Em as (-> & _ & _ & _); [|done].
    rewrite bool_decide_eq_false_2 by done. intros src [= <-]. apply lookup_insert_eq.
Qed.

Lemma reconcile_row_again a dir cwd desired s s' r :
  settled dir cwd desired (ms_registry s) →
  reconcile_row E a dir cwd desired s = (s', r) →
  ms_registry s' = ms_registry s ∧ ms_pools s' = ms_pools s ∧ ∀ pool, r = Ok pool → pool = desired.
Proof using.
  clear Hwd Heval git lstat.
  intros [Hr Hs] H. unfold reconcile_row in H.
  assert (∀ s s' r, jvmPoolRegistry E s = (s', r) → s' = s) as Hj.
  { intros. revert H0. unfold jvmPoolRegistry. destruct (StateRoot _ _); by intros [= <- _]. }
  run H; apply Hj in R as ->; [naive_solver|]. run H; [done|]. injection R as <- <-. revert Hs. case_bool_decide as Hd; intros Hs.
  - unfold on_registry in H.
    run H; destruct (JvmPool.Remove _ _ _ _) as [d rr] eqn:Em; injection R as <- Hx;
      (assert (d = ms_registry s) as -> by (exact (Remove_absent _ _ _ _ _ _ Hr Hs Em))); [naive_solver|]. unfold mret, st_ret in H. injection H as <- <-. split_and!; [done|done|congruence].
  - destruct (initSourceCWD E cwd) as [source|]; [|injection H as <- <-; naive_solver]. specialize (Hs source eq_refl).
    unfold on_registry in H.
    run H; destruct (JvmPool.Reconcile _ _ _ _) as [d rr] eqn:Em; injection R as <- Hx;
      (assert (d = ms_registry s) as -> by (exact (Reconcile_same _ (JvmPool.mkMember dir source desired) _ _ _ _ Hr Hs Em))); [naive_solver|].
    unfold mret, st_ret in H. injection H as <- <-. split_and!; [done|done|congruence].
Qed.

(** ** Properties *)

(** C15: An initialisation that succeeds puts configuration, registry and hosts in agreement:
    the workspace loads with the pool that is answered, or with none, and that is the
    override if there was one; its row in the registry is of that pool, or gone, and no
    other row changed; no file but the machine-local configuration changed, and that only
    for an override; and no host that serves the workspace has another pool. *)
Theorem init_places a dir cwd override s s' pool :
  resolved dir → JvmPool.readable (ms_registry s) → (∀ p, override = Some p → valid_text p = true) →
  reconcile a dir cwd override s = (s', Ok pool) →
  (∃ c w, load (po_files (ms_pools s')) dir = Ok (c, w) ∧
     JVMPool c = if bool_decide (pool = "") then None else Some pool) ∧
  (∀ p, override = Some p → pool = p) ∧
  placed (livePoolOwnership (ia_alive a) (ia_order a) (ms_pools s')) dir pool (ms_registry s) (ms_registry s') ∧
  (∀ p, p ≠ local_file dir ∨ override = None →
     po_files (ms_pools s') !! p = po_files (ms_pools s) !! p) ∧
  (∀ l h, poolHostForConfigLocked dir (ms_pools s) = Some (l, h) →
     host_serves (lk_alive (hl_look (ia_look a))) h = true → wh_Pool h = pool).
Proof using Hwd Heval.
  intros Hdir Hread Hvalid (c & w & host & s1 & s2 & c2 & w2 & Hc & Hlive & Hway & Hset & Hc2 & Hrow)%reconcile_run.
  pose proof (reads_live _ _ _ _ _ Hlive) as [Hreg Hfs].
  assert (ms_registry s2 = ms_registry s ∧
    JVMPool c2 = match override with Some p => Some p | None => JVMPool c end ∧
    (∀ p, p ≠ local_file dir ∨ override = None → po_files (ms_pools s2) !! p = po_files (ms_pools s) !! p))
    as (Hreg2 & Hpool & Hfiles).
  { destruct override as [p|].
    - apply set_local_pool_run in Hset as (H1 & H2 & H3 & _); [|done|by apply Hvalid].
      rewrite Hfs in H2, H3. rewrite (H2 _ _ Hc) in Hc2. injection Hc2 as <- <-. split_and!; [congruence|done|].
      intros q [Hq|]; [by apply H3|done].
    - subst s2. rewrite Hfs, Hc in Hc2. injection Hc2 as <- <-. split_and!; [done|done|by rewrite Hfs]. }
  apply reconcile_row_run in Hrow as (-> & Hps & Hplaced); [|by rewrite Hreg2].
  rewrite Hps, Hreg2 in *. split_and!; [| |done|done|].
  - exists c2, w2. split; [done|]. destruct (JVMPool c2) as [q|] eqn:Eq; cbn; [|done].
    rewrite bool_decide_eq_false_2; [done|]. intros ->. by apply (load_pool_named _ _ _ _ "" Hc2) in Eq.
  - intros p ->. by rewrite Hpool.
  - intros l h Hh Hs. rewrite (live_routed _ _ _ _ _ Hh Hs) in Hlive. injection Hlive as <- <-.
    cbn in Hway. apply ensure_ok in Hway. apply andb_true_iff in Hs as [Hs _]. rewrite Hs in Hway.
    cbn in Hway. apply bool_decide_eq_true in Hway as ->. rewrite Hpool. by destruct override.
Qed.


(** A plain initialisation after a successful one changes neither the registry nor a file,
    whatever has become of the hosts, and if it succeeds it names the same pool. *)
Theorem init_settles a b dir cwd override s s1 s2 pool r :
  resolved dir → JvmPool.readable (ms_registry s) → (∀ p, override = Some p → valid_text p = true) →
  reconcile a dir cwd override s = (s1, Ok pool) → reconcile b dir cwd None s1 = (s2, r) →
  untouched s1 s2 ∧ ∀ p, r = Ok p → p = pool.
Proof using Hwd Heval.
  intros Hdir Hread Hvalid (c & w & host & s0 & s3 & c2 & w2 & Hc & Hlive & _ & Hset & Hc2 & Hrow)%reconcile_run H.
  pose proof (reads_live _ _ _ _ _ Hlive) as [Hreg Hfs].
  assert (JvmPool.readable (ms_registry s3)) as Hread3.
  { destruct override; [|by subst s3; rewrite Hreg].
    apply set_local_pool_run in Hset as (-> & _); [by rewrite Hreg|done|by apply Hvalid]. }
  pose proof (reconcile_row_settles _ _ _ _ _ _ _ Hread3 Hrow) as Hsettled.
  apply reconcile_row_run in Hrow as (-> & Hps & _); [|done].
  rewrite <-Hps in Hc2. set (desired := default "" (JVMPool c2)) in *.
  unfold reconcileInitPool in H. run H.
  { pose proof (configured_run _ _ _ _ R) as ->. by split. }
  pose proof (configured_run _ _ _ _ R) as ->. apply configured_loaded in R as (c3 & w3 & Hc3 & ->).
  rewrite Hc2 in Hc3. injection Hc3 as <- <-. cbn [default] in H.
  run H; apply reads_live in R as Hun; [by split|]. rename x0 into s4.
  run H.
  { assert (s2 = s4) as -> by (destruct x; apply (f_equal fst) in R0; by cbn in R0). by split. }
  assert (x1 = s4) as -> by (destruct x; apply (f_equal fst) in R0; by cbn in R0). clear R0.
  run H; [done|]. injection R0 as <- _. run H; [done|]. injection R0 as <- <-.
  destruct Hun as [Hreg4 Hfs4]. rewrite Hfs4, Hc2 in H. run H; cbn in R0; [done|]. injection R0 as <- <-. apply reconcile_row_again in H as (H1 & H2 & H3); [|by rewrite Hreg4].
  split; [split; congruence|exact H3].
Qed.
End reconciling.

(** ** Examples *)

Definition init_env : penv :=
  mkPEnv (Some "/") "/x" (Some "/home") (λ _, None) EvalReal (λ d, d) (λ _, [0%Z; 1%Z; 2%Z]) (λ purpose, "id-" +:+ purpose)
    (λ _, Some "name") (λ s, s) "bad" "1.0" "now" (λ _, "failed").

Definition no_marker (p : string) : marker := MAbsent.
Definition no_git (q : git_query) (cwd : string) : option string := None.

(** A workspace with a shared configuration, before and after its host is live. *)
Definition init_files : files := {["/w/a/config.json" := Holds (Some (DObject [("configFormat", DString "alpha")]))]}.

Definition init_before : membership := mkMembership (mkPools 0 ∅ ∅ ∅ init_files ∅ []) JvmPool.empty_disk.

Definition init_live : membership :=
  mkMembership (with_files init_files sample_pools) JvmPool.empty_disk.

Definition sample_alive (pid : Z) : bool := bool_decide (pid = 7%Z).

Definition init_sample : init_answers :=
  mkInitAnswers (mkHostLook (mkLook sample_alive (λ _, true) []) (Ok None)) sample_alive ["pool"] None JvmPool.ex_env.

Lemma init_env_wd wd : pe_getwd init_env = Some wd → IsAbs wd = true.
Proof. by intros [= <-]. Qed.

Lemma init_env_links p p' : pe_eval_symlinks init_env p = Some p' → IsAbs p' = true.
Proof. done. Qed.

Lemma init_resolved : resolved init_env "/w/a".
Proof. split_and!; [done|by vm_compute..]. Qed.

Lemma init_places_witness :
  let s' := (reconcileInitPool init_env no_marker no_git init_sample "/w/a" "/w/a" (Some "team") init_before).1 in
  JvmPool.registry_map (JvmPool.d_file (ms_registry s'))
  = {["/w/a" := JvmPool.mkMember "/w/a" "/w/a" "team"]} ∧
  ∃ c w, load init_env no_marker no_git (po_files (ms_pools s')) "/w/a" = Ok (c, w) ∧ JVMPool c = Some "team".
Proof.
  intros s'. split; [by vm_compute|].
  destruct (init_places init_env no_marker no_git init_env_wd init_env_links init_sample "/w/a" "/w/a" (Some "team")
    init_before s' "team") as (H & _ & _).
  - exact init_resolved.
  - split; [done|]. by eexists.
  - by intros p [= <-].
  - rewrite (surjective_pairing (reconcileInitPool _ _ _ _ _ _ _ _)). by f_equal.
  - exact H.
Defined.


Lemma init_settles_witness :
  let init := reconcileInitPool init_env no_marker no_git init_sample "/w/a" "/w/a" in
  let s1 := (init (Some "team") init_before).1 in
  untouched s1 (init None s1).1 ∧ (init None s1).2 = Ok "team".
Proof.
  intros init s1. split; [|by vm_compute].
  apply (init_settles init_env no_marker no_git init_env_wd init_env_links init_sample init_sample "/w/a" "/w/a" (Some "team")
    init_before s1 _ "team" (init None s1).2).
  - exact init_resolved.
  - split; [done|]. by eexists.
  - by intros p [= <-].
  - rewrite (surjective_pairing (reconcileInitPool _ _ _ _ _ _ _ _)). by f_equal.
  - apply surjective_pairing.
Defined.
