(* ===== verification/Status.v ===== *)
(** What mill reports of weavers (src/cli/cmd/mill/pool_status.go and the status and list
    functions of lifecycle.go): the status of a workspace by its child, its pool, its
    restart and its published metadata, and the list of all that mill knows. The caches of
    restart records are part of the state. *)

From S2P Require Export Membership Forward.

(** ** State *)

(** A child as a status shows it; [cv_pid] is nil for a process that was not started. *)
Record child_view := mkChild {
  cv_world : world;
  cv_name : string;
  cv_pid : option Z;
  cv_generation : string;
  cv_temporary : bool;
  cv_cleanup : option string;
}.

(** A registered restart: its transition and its result. *)
Record restart_view := mkRestartView { rv_t : weaverTransition; rv_result : option object }.

Notation record_cache := (gmap string (entry (E:=string) (A:=restartRecord))).
Notation pool_record_cache := (gmap string (entry (E:=pool_error) (A:=poolRestartRecord))).

Record mill_state := mkMill {
  ml_members : membership;
  ml_children : gmap string child_view;
  ml_transitions : gmap string restart_view;
  ml_records : record_cache;
  ml_pool_records : pool_record_cache;
}.

Definition ml_pools (m : mill_state) : pools := ms_pools (ml_members m).
Definition with_member_state (s : membership) (m : mill_state) : mill_state :=
  mkMill s (ml_children m) (ml_transitions m) (ml_records m) (ml_pool_records m).
Definition with_records (c : record_cache) (m : mill_state) : mill_state :=
  mkMill (ml_members m) (ml_children m) (ml_transitions m) c (ml_pool_records m).
Definition with_pool_records (c : pool_record_cache) (m : mill_state) : mill_state :=
  mkMill (ml_members m) (ml_children m) (ml_transitions m) (ml_records m) c.

Notation MM := (ST mill_state init_error).

Definition on_members {A} (op : IM A) : MM A := λ m,
  let '(s, r) := op (ml_members m) in (with_member_state s m, r).

Definition look_up {A} (f : mill_state → A) : MM A := λ m, (m, Ok (f m)).

(** An operation that does not fail. *)
Definition always {A} (f : mill_state → mill_state * A) : MM A := λ m, let '(m, x) := f m in (m, Ok x).

(** ** Restart records *)

(** One look at a restart record: what [os.Stat] answers, and what reading the file gives,
    an error by its text. *)
Record record_look := mkRecordLook {
  rl_stat : stat_answer;
  rl_read : result string (option restartRecord);
}.

Definition restartRecordPath (w : world) : string := PathJoin [StateDir w; "restart.json"].

Definition compact_answer (r : result string (option restartRecord)) : result string (option restartRecord) :=
  match r with Ok o => Ok (compactRestartRecord <$> o) | Err e => Err e end.

Definition readRestartRecordSummaryCached (w : world) (l : record_look) (m : mill_state)
    : mill_state * result string (option restartRecord) :=
  let path := restartRecordPath w in
  let '(c, r) := cached_read (λ e, "stat restart record " +:+ path +:+ ": " +:+ e) path
                   (rl_stat l) (compact_answer (rl_read l)) (ml_records m) in
  (with_records c m, r).

(** What is seen of one workspace while its status is made: its processes, and its restart
    record at the two places where a cached reading may look at it. *)
Record glance := mkGlance {
  gl_alive : Z → bool;
  gl_first : record_look;
  gl_second : record_look;
}.

(** ** The status of one workspace *)

Section status.
Context (E : penv) (lstat : string → marker) (git : git_query → string → option string).

Definition with_friendly_name (requested : string) (w : world) : world :=
  mkWorld (ConfigDir w) (StateDir w) (DataDir w) (DBPath w)
    (match friendlyName (pe_config_name E) (ConfigDir w) requested with Ok n => n | Err _ => "" end).

Definition baseStatusWithName (w : world) (state requested : string) : object :=
  baseStatus (with_friendly_name requested w) state.

Definition read_with_record (alive : Z → bool) (w : world) (restart : result string (option restartRecord))
    (fs : files) : option (object * bool) :=
  readStatusWithRestartRecord (pe_eval_symlinks E) alive (pe_quote E) (pe_decode_text E) w (Some restart) fs.

(** A stale status says so. *)
Definition mark_stale (answer : object * bool) : object :=
  if answer.2 then set_state "stale" answer.1 else answer.1.

Definition child_running (g : glance) (c : child_view) : option Z :=
  match cv_pid c with Some pid => if gl_alive g pid then Some pid else None | None => None end.

(** The status of a child that has not published anything. *)
Definition unpublished_child (g : glance) (w : world) (c : child_view) : object :=
  match child_running g c with
  | Some pid => assign [("pid", AInt pid); ("generation_id", AString (cv_generation c))]
                  (baseStatusWithName w "starting" (cv_name c))
  | None => baseStatusWithName w "stopped" (cv_name c)
  end.

(** The record is read without the cache here: [gl_first] is what reading it gives. *)
Definition temporaryChildStatusLocked (g : glance) (c : child_view) (fs : files) : object :=
  match read_with_record (gl_alive g) (cv_world c) (rl_read (gl_first g)) fs with
  | Some answer => decorateTemporaryStatus (mark_stale answer)
  | None =>
      let status := decorateTemporaryStatus (unpublished_child g (cv_world c) c) in
      match cv_cleanup c with
      | Some e => <["cleanup_error" := AString e]> status
      | None => status
      end
  end.

(** [admittedGenerationStatus]: [live] is the status of [readStatus] that is not stale. *)
Definition admitted_status (w : world) (t : weaverTransition) (live : option object) : object :=
  match t_old t, live with
  | Some o, Some live =>
      restartBoundaryStatus w
        (assign [("generation_id", AString (o_generationID o)); ("transition_id", AString (t_transitionID t));
                 ("restart_state", AString "probing")] live)
  | _, _ => restartBoundaryStatus w (baseStatusWithName w "probing" "")
  end.

Definition not_stale (answer : option (object * bool)) : option object :=
  match answer with Some (status, false) => Some status | _ => None end.

Definition member_status_of (alive : Z → bool) (h : weaverHost) (dir : string) (fs : files) : option object :=
  poolStatusForMember (pe_eval_symlinks E) alive (pe_quote E) (pe_decode_text E) h dir fs.

(** [None] for a transition that a status does not show. *)
Definition transition_status (g : glance) (w : world) (v : restart_view) (fs : files) : option object :=
  match t_state (rv_t v) with
  | Probing =>
      Some (admitted_status w (rv_t v) (not_stale (read_with_record (gl_alive g) w (rl_read (gl_first g)) fs)))
  | Restarting =>
      Some (<["transition_id" := AString (t_transitionID (rv_t v))]> (baseStatusWithName w "restarting" ""))
  | FailedState => Some (transitionResultStatus w (rv_t v) (rv_result v))
  | RunningState => None
  end.

(** A record that stands for the workspace while no generation is admitted for good. *)
Definition unsettled (r : restartRecord) : bool :=
  bool_decide (State r = "probing") || bool_decide (State r = "restarting") || bool_decide (State r = "failed").

Definition published_metadata (w : world) (fs : files) : option Metadata :=
  h ← fs !! weaver_json (StateDir w);
  match h with Holds d => d ≫= decodeMetadata | Unreadable => None end.

(** What is published, or the child, or nothing. *)
Definition settled_status (g : glance) (w : world) (m : mill_state) : mill_state * object :=
  let '(m, r) :=
    match published_metadata w (po_files (ml_pools m)) with
    | Some md => match validateMetadata (pe_eval_symlinks E) (gl_alive g) w md with
                 | Ok _ => readRestartRecordSummaryCached w (gl_second g) m
                 | Err _ => (m, Ok None)
                 end
    | None => (m, Ok None)
    end in
  match read_with_record (gl_alive g) w r (po_files (ml_pools m)) with
  | Some answer => (m, mark_stale answer)
  | None =>
      (m, match ml_children m !! ConfigDir w with
          | Some c => unpublished_child g w c
          | None => baseStatus w "none"
          end)
  end.

Definition weaverStatusForWorldLocked (g : glance) (w : world) (m : mill_state) : mill_state * object :=
  let fs := po_files (ml_pools m) in
  let recorded :=
    let '(m, r) := readRestartRecordSummaryCached w (gl_first g) m in
    match r with
    | Err e => (m, set_stale e (baseStatus w "stale"))
    | Ok (Some r) => if unsettled r then (m, compactStatus w r) else settled_status g w m
    | Ok None => settled_status g w m
    end in
  let moving :=
    match ml_transitions m !! ConfigDir w ≫= λ v, transition_status g w v fs with
    | Some status => (m, status)
    | None => recorded
    end in
  let pooled :=
    '(_, h) ← poolHostForConfigLocked (ConfigDir w) (ml_pools m);
    if wh_Live h then member_status_of (gl_alive g) h (ConfigDir w) fs else None in
  match ml_children m !! ConfigDir w ≫= λ c, if cv_temporary c then Some c else None, pooled with
  | Some c, _ => (m, temporaryChildStatusLocked g c fs)
  | None, Some status => (m, status)
  | None, None => moving
  end.

(** With the details of a restart, and no cache. *)
Definition weaverStatusDetailedForWorld (g : glance) (w : world) (m : mill_state) : object :=
  let fs := po_files (ml_pools m) in
  let record := rl_read (gl_first g) in
  let published :=
    match read_with_record (gl_alive g) w record fs with
    | Some (status, true) => set_state "stale" status
    | Some (status, false) =>
        match record with
        | Ok (Some r) => if bool_decide (State r = "running") then mergeRestartRecordStatus status r else status
        | _ => status
        end
    | None => baseStatus w "none"
    end in
  let recorded :=
    match record with
    | Err e => set_stale e (baseStatus w "stale")
    | Ok (Some r) => if unsettled r then Restart.status w r else published
    | Ok None => published
    end in
  match ml_children m !! ConfigDir w ≫= λ c, if cv_temporary c then Some c else None with
  | Some c => temporaryChildStatusLocked g c fs
  | None =>
      match ml_transitions m !! ConfigDir w with
      | Some v => match t_state (rv_t v) with
                  | FailedState => transitionResultStatusDetailed w (rv_t v) (rv_result v)
                  | _ => recorded
                  end
      | None => recorded
      end
  end.

(** ** The status of a pool's member *)

(** What is seen of pools while a status is made: each pool for its discovery, the
    processes, and its restart record: what [os.Stat] answers and the first error of the
    reading. *)
Record pool_glance := mkPoolGlance {
  pg_look : string → look;
  pg_alive : Z → bool;
  pg_stat : string → stat_answer;
  pg_io : string → option string;
  pg_text : pool_error + coordinate_error → string;
}.

Definition routed_host (configDir : string) : MM (option weaverHost) :=
  look_up (λ m, snd <$> poolHostForConfigLocked configDir (ml_pools m)).

(** [s.poolHosts[pool]], or what a discovery finds. *)
Definition known_host (k : pool_glance) (pool : string) : MM (option weaverHost) :=
  host ← look_up (λ m, snd <$> host_of_pool pool (ml_pools m));
  match host with
  | Some h => mret (Some h)
  | None =>
      l ← on_members (on_pools (discoverPoolHost E (pg_look k pool) pool));
      look_up (λ m, l ≫= host_at (ml_pools m))
  end.

(** The status of a workspace of a live host, which may lack it. *)
Definition hosted_status (k : pool_glance) (w : world) (pool : string) (h : weaverHost)
    (snap : JvmPool.PoolSnapshot) (fs : files) : option object :=
  if poolHostHasMember h (ConfigDir w)
  then addPoolPending h snap <$> member_status_of (pg_alive k) h (ConfigDir w) fs
  else Some (pendingStatus w pool h snap).

Definition poolRestartRecordPathForPool (pool : string) : result pool_fault string :=
  root ← state_root E; poolRestartRecordPath E root pool.

(** The answer is [None] for a workspace outside pools; a member may be without a status.
    First by the configuration. *)
Definition configured_status (k : pool_glance) (w : world) : MM (option (option object)) :=
  pool ← on_members (configuredPool E lstat git (ConfigDir w));
  if bool_decide (pool = "") then mret None else
  snap ← on_members (poolSnapshot E lstat git pool);
  if negb (memberForPool snap (ConfigDir w)) then mret (Some None) else
  host ← known_host k pool;
  m ← st_get;
  let stopped :=
    st_lift (JvmPool.map_err IEPool
      (path ← poolRestartRecordPathForPool pool; Ok (Some (Some (poolStatusForRegistered w pool snap path))))) in
  match host with
  | Some h => if wh_Live h then mret (Some (hosted_status k w pool h snap (po_files (ml_pools m)))) else stopped
  | None => stopped
  end.

(** By the row of the registry, if its pool has a live host. *)
Definition recorded_status (k : pool_glance) (w : world) : MM (option (option object)) :=
  pool ← on_members (registeredPoolForConfig E (ConfigDir w));
  match pool with
  | None => configured_status k w
  | Some pool =>
      snap ← on_members (poolRegisteredSnapshot E pool);
      host ← known_host k pool;
      m ← st_get;
      match host with
      | Some h => if wh_Live h then mret (Some (hosted_status k w pool h snap (po_files (ml_pools m))))
                  else configured_status k w
      | None => configured_status k w
      end
  end.

Definition poolStatusForWorldRaw (k : pool_glance) (w : world) : MM (option (option object)) :=
  host ← routed_host (ConfigDir w);
  match host with
  | Some h =>
      if wh_Live h then
        snap ← on_members (poolRegisteredSnapshot E (wh_Pool h));
        m ← st_get;
        mret (Some (addPoolPending h snap <$> member_status_of (pg_alive k) h (ConfigDir w) (po_files (ml_pools m))))
      else recorded_status k w
  | None => recorded_status k w
  end.

(** [mergePooledCompactRestartStatus], which uses the cache, and its detailed variant. *)
Definition mergePooledRestartStatus (k : pool_glance) (details : bool) (status : object) (m : mill_state)
    : mill_state * object :=
  match pooledRestartRecordCoordinates status with
  | Err _ => (m, merge_read details (pg_text k) (λ _ _, Ok None) status)
  | Ok (pool, path) =>
      let d := default NoFile (po_records (ml_pools m) !! path) in
      let '(c, r) :=
        if details then (ml_pool_records m, readPoolRestartRecord (pe_sha256 E) path pool (pg_io k path) d)
        else readPoolRestartRecordSummaryCached (pe_sha256 E) path pool (pg_stat k path) (pg_io k path) d
               (ml_pool_records m) in
      (with_pool_records c m, merge_read details (pg_text k) (λ _ _, r) status)
  end.

Definition poolStatusForWorldWithDetails (k : pool_glance) (details : bool) (w : world)
    : MM (option (option object)) :=
  answer ← poolStatusForWorldRaw k w;
  match answer with
  | Some (Some status) =>
      status ← always (mergePooledRestartStatus k details status); mret (Some (Some status))
  | _ => mret answer
  end.

(** ** The two requests for a status *)

(** [None] is a null result. *)
Definition weaverStatus (g : glance) (k : pool_glance) (details : bool) (w : world) : MM (option object) :=
  m ← st_get;
  match ml_children m !! ConfigDir w ≫= λ c, if cv_temporary c then Some c else None with
  | Some c => mret (Some (temporaryChildStatusLocked g c (po_files (ml_pools m))))
  | None =>
      pooled ← poolStatusForWorldWithDetails k details w;
      match pooled with
      | Some answer => mret answer
      | None =>
          if details then look_up (λ m, Some (weaverStatusDetailedForWorld g w m))
          else status ← always (weaverStatusForWorldLocked g w); mret (Some status)
      end
  end.

(** [source] is what [resolveLaunchSource] answers. *)
Definition weaverReplContext (g : glance) (source : option string) (w : world) : MM object :=
  status ← always (weaverStatusForWorldLocked g w);
  if bool_decide (as_text (status !! "state") = Some "running") then
    match source with
    | Some source => mret (<["source" := AString source]> status)
    | None => st_fail IESource
    end
  else mret status.

(** ** The list *)

(** The pools of the registry, with their members in order. *)
Definition durable_snapshots (doc : JvmPool.Document) : gmap string JvmPool.PoolSnapshot :=
  foldl (λ snaps m,
    let pool := JvmPool.m_JVMPool m in
    let before := from_option JvmPool.ps_Members [] (snaps !! pool) in
    <[pool := JvmPool.mkSnapshot pool (JvmPool.d_Revision doc) (before ++ [m])]> snaps)
    ∅ (JvmPool.doc_members doc).

Definition durablePoolSnapshots : IM (gmap string JvmPool.PoolSnapshot) :=
  jvmPoolRegistry E ;;
  s ← st_get;
  st_lift (JvmPool.map_err IERegistry
    (doc ← JvmPool.readLocked (JvmPool.d_file (ms_registry s)); Ok (durable_snapshots doc))).

(** The rows so far, each with the state directory it is for. *)
Notation rows := (list (string * object)).

Definition compact_row (k : pool_glance) (stateDir : string) (status : object) : MM (string * object) :=
  status ← always (mergePooledRestartStatus k false status); mret (stateDir, status).

Fixpoint member_rows (k : pool_glance) (h : weaverHost) (snap : JvmPool.PoolSnapshot) (ms : list poolMember)
    : MM rows :=
  match ms with
  | [] => mret []
  | pm :: ms =>
      fs ← look_up (λ m, po_files (ml_pools m));
      here ← match member_status_of (pg_alive k) h (pm_ConfigDir pm) fs with
             | Some status =>
                 row ← compact_row k (StateDir (pm_World pm)) (addPoolPending h snap status); mret [row]
             | None => mret []
             end;
      rest ← member_rows k h snap ms;
      mret (here ++ rest)
  end.

(** The row of a registered workspace that the live host of its pool does not have. *)
Definition pending_row_status (w : world) (h : weaverHost) (snap : JvmPool.PoolSnapshot) : object :=
  assign [("jvm_pool", AString (wh_Pool h)); ("registered_members", AStrings (snapshot_dirs snap));
          ("live_members", AStrings (poolConfigDirs (wh_Members h)));
          ("pending_members", AStrings (pending_dirs h snap)); ("restart_required", ABool true);
          ("pool_restart_path", AString (wh_PoolRestartPath h))] (baseStatus w "pending").

Fixpoint pending_rows (k : pool_glance) (h : weaverHost) (snap : JvmPool.PoolSnapshot) (dirs : list string)
    : MM rows :=
  match dirs with
  | [] => mret []
  | dir :: dirs =>
      match runtime_world E dir with
      | None => st_fail (IEWorld dir)
      | Some w =>
          row ← compact_row k (StateDir w) (pending_row_status w h snap);
          rest ← pending_rows k h snap dirs;
          mret (row :: rest)
      end
  end.

(** The host that a pool is listed by: a serving one, or what is discovered. *)
Definition listed_host (k : pool_glance) (pool : string) : MM (option weaverHost) :=
  known ← look_up (λ m, snd <$> host_of_pool pool (ml_pools m));
  host ← match known with
         | Some h =>
             if host_serves (pg_alive k) h then mret (Some h)
             else l ← on_members (on_pools (discoverPoolHost E (pg_look k pool) pool));
                  look_up (λ m, l ≫= host_at (ml_pools m))
         | None =>
             l ← on_members (on_pools (discoverPoolHost E (pg_look k pool) pool));
             look_up (λ m, l ≫= host_at (ml_pools m))
         end;
  mret (h ← host; if wh_Live h && negb (bool_decide (wh_Members h = [])) then Some h else None).

Definition snapshot_for (durable : gmap string JvmPool.PoolSnapshot) (pool : string) : MM JvmPool.PoolSnapshot :=
  match durable !! pool with
  | Some snap => mret snap
  | None => on_members (poolRegisteredSnapshot E pool)
  end.

(** The rows of one pool, with the state directories that count as seen. *)
Definition pool_rows (k : pool_glance) (durable : gmap string JvmPool.PoolSnapshot) (pool : string)
    : MM (rows * list string) :=
  snap ← snapshot_for durable pool;
  host ← listed_host k pool;
  match host with
  | None => mret ([], [])
  | Some h =>
      live ← member_rows k h snap (wh_Members h);
      pending ← pending_rows k h snap (pending_dirs h snap);
      mret (live ++ pending, (StateDir <$> (pm_World <$> wh_Members h)) ++ pending.*1)
  end.

Fixpoint all_pool_rows (k : pool_glance) (durable : gmap string JvmPool.PoolSnapshot) (pools : list string)
    : MM (rows * list string) :=
  match pools with
  | [] => mret ([], [])
  | pool :: pools =>
      '(here, seen) ← pool_rows k durable pool;
      '(rest, seen') ← all_pool_rows k durable pools;
      mret (here ++ rest, seen ++ seen')
  end.

(** The children in the order in which the map is iterated. *)
Fixpoint child_rows (g : string → glance) (order : list string) (m : mill_state) : mill_state * rows :=
  match order with
  | [] => (m, [])
  | dir :: order =>
      match ml_children m !! dir with
      | Some c =>
          let '(m, status) := weaverStatusForWorldLocked (g dir) (cv_world c) m in
          let '(m, rest) := child_rows g order m in
          (m, (StateDir (cv_world c), status) :: rest)
      | None => child_rows g order m
      end
  end.

(** A restart record laid over the status of a published file. *)
Definition discovered_keys : list string :=
  ["generation_id"; "previous_generation_id"; "transition_id"; "old_generation_stopped"; "restart_failure"].

Definition mergeDiscoveredRestartStatus (l : record_look) (w : world) (status : object) (m : mill_state)
    : mill_state * object :=
  if bool_decide (as_text (status !! "state") = Some "stale") then (m, status) else
  let '(m, r) := readRestartRecordSummaryCached w l m in
  (m, match r with
      | Err e => set_stale e (set_state "stale" status)
      | Ok None => status
      | Ok (Some r) =>
          if bool_decide (State r = "running") then mergeRestartRecordCompactStatus status r
          else
            let compact := compactStatus w r in
            foldl (λ status key, match compact !! key with
                                 | Some v => <[key := v]> status
                                 | None => delete key status
                                 end)
              (<["state" := default ANil (compact !! "state")]> status) discovered_keys
      end).

(** The published files that no row is about yet; the first bad one ends the list. *)
Fixpoint file_rows (alive : Z → bool) (g : string → glance) (seen : list string) (paths : list string)
    : ST mill_state file_error rows :=
  match paths with
  | [] => mret []
  | path :: paths =>
      if bool_decide (Dir path ∈ seen) then file_rows alive g seen paths else λ m,
      match readStatusFileWithWorld (pe_eval_symlinks E) alive (pe_quote E) (po_files (ml_pools m) !! path) with
      | Err e => (m, Err e)
      | Ok (status, w) =>
          let '(m, status) := mergeDiscoveredRestartStatus (gl_first (g (Dir path))) w status m in
          (rest ← file_rows alive g seen paths; mret ((Dir path, status) :: rest)) m
      end
  end.

Inductive list_error := LEMembership (e : init_error) | LEFile (e : file_error).

(** The answers of a listing: the pools, the workspaces of children by their directory and
    those of files by their state directory, the order of the children, and the files that
    the pattern [weavers/*/weaver.json] of the state root finds. *)
Record list_answers := mkListAnswers {
  ls_pools : pool_glance;
  ls_children : string → glance;
  ls_files : string → glance;
  ls_order : list string;
  ls_matches : list string;
}.

Definition listed_pools (durable : gmap string JvmPool.PoolSnapshot) (s : pools) : list string :=
  sort_strings (elements (dom durable ∪ dom (po_hosts s))).

(** The rows of pools and children, with the state directories that count as seen. *)
Definition known_rows (a : list_answers) : MM (rows * list string) :=
  durable ← on_members durablePoolSnapshots;
  pools ← look_up (λ m, listed_pools durable (ml_pools m));
  '(hosted, seen) ← all_pool_rows (ls_pools a) durable pools;
  supervised ← always (child_rows (ls_children a) (ls_order a));
  match StateRoot (pe_xdg E) (pe_home E) with
  | Err _ => st_fail IERoot
  | Ok _ => mret (hosted ++ supervised, seen ++ supervised.*1)
  end.

(** All rows, each with its state directory. *)
Definition list_rows (a : list_answers) (m : mill_state) : mill_state * result list_error rows :=
  match known_rows a m with
  | (m, Err e) => (m, Err (LEMembership e))
  | (m, Ok (known, seen)) =>
      match file_rows (pg_alive (ls_pools a)) (ls_files a) seen (ls_matches a) m with
      | (m, Err e) => (m, Err (LEFile e))
      | (m, Ok published) => (m, Ok (known ++ published))
      end
  end.

Definition weaverList (a : list_answers) (m : mill_state) : mill_state * result list_error (list object) :=
  let '(m, r) := list_rows a m in (m, match r with Ok l => Ok l.*2 | Err e => Err e end).
End status.

(** ** Lemmas: reports change nothing *)

Section reports.
Context (E : penv) (lstat : string → marker) (git : git_query → string → option string).

(** Nothing that lasts changes: files, registry, children and transitions. Only the caches
    of records and the hosts that mill knows may. *)
Definition reported (m m' : mill_state) : Prop :=
  untouched (ml_members m) (ml_members m') ∧ ml_children m' = ml_children m ∧
  ml_transitions m' = ml_transitions m ∧ po_records (ml_pools m') = po_records (ml_pools m).

Lemma reported_refl m : reported m m.
Proof using. done. Qed.

Lemma reported_trans m1 m2 m3 : reported m1 m2 → reported m2 m3 → reported m1 m3.
Proof using. intros ([] & ? & ? & ?) ([] & ? & ? & ?). split_and!; [split|..]; congruence. Qed.

Definition reports {X A} (op : mill_state → mill_state * result X A) : Prop := ∀ m m' r, op m = (m', r) → reported m m'.
Definition shows {A} (op : mill_state → mill_state * A) : Prop := ∀ m m' x, op m = (m', x) → reported m m'.

Lemma reports_mret {X A} (x : A) : reports (mret x : ST mill_state X A).
Proof using. by intros m m' r [= <- <-]. Qed.

Lemma reports_fail {A} (e : init_error) : reports (st_fail e : MM A).
Proof using. by intros m m' r [= <- <-]. Qed.

Lemma reports_lift {A} (x : result init_error A) : reports (st_lift x : MM A).
Proof using. by intros m m' r [= <- <-]. Qed.

Lemma reports_look {A} (f : mill_state → A) : reports (look_up f).
Proof using. by intros m m' r [= <- <-]. Qed.

Lemma reports_get : reports (st_get : MM mill_state).
Proof using. by intros m m' r [= <- <-]. Qed.

Lemma reports_always {A} (f : mill_state → mill_state * A) : shows f → reports (always f).
Proof using. intros Hf m m' r. unfold always. destruct (f m) as [m1 x] eqn:Ef. intros [= <- <-]. by eapply Hf. Qed.

Lemma reports_bind {X A B} (op : ST mill_state X A) (f : A → ST mill_state X B) :
  reports op → (∀ x, reports (f x)) → reports (op ≫= f).
Proof using.
  intros Ho Hf m m' r H. apply st_bind_run in H as [(e & R & ->)|(x & m1 & R & H)]; [by eapply Ho|].
  eapply reported_trans; [by eapply Ho|by eapply Hf].
Qed.

Lemma discover_records k pool s s' r : discoverPoolHost E k pool s = (s', r) → po_records s' = po_records s.
Proof using.
  unfold discoverPoolHost. destruct (find_host E k pool (po_files s)) as [[h|]|]; [|by intros [= <- <-]..].
  destruct (host_of_pool pool s) as [[l x]|]; [destruct (wh_Live x)|]; by intros [= <- <-].
Qed.

Lemma reports_discover k pool : reports (on_members (on_pools (discoverPoolHost E k pool))).
Proof using.
  intros m m' r. unfold on_members, on_pools.
  destruct (discoverPoolHost E k pool (ms_pools (ml_members m))) as [p x] eqn:Ed.
  intros [= <- <-]. split_and!; [|done|done|].
  - split; [done|]. cbn. by eapply discover_files.
  - cbn. by eapply discover_records.
Qed.

(** Readings of the members that leave their state as it is. *)
Definition unmoved {A} (op : IM A) : Prop := ∀ s s' r, op s = (s', r) → s' = s.

Lemma unmoved_bind {A B} (op : IM A) (f : A → IM B) : unmoved op → (∀ x, unmoved (f x)) → unmoved (op ≫= f).
Proof using.
  intros Ho Hf s s' r H. apply st_bind_run in H as [(e & R & ->)|(x & s1 & R & H)]; [by eapply Ho|].
  apply Ho in R as ->. by eapply Hf.
Qed.

Lemma unmoved_registry : unmoved (jvmPoolRegistry E).
Proof using. unfold jvmPoolRegistry. intros s s' r. destruct (StateRoot _ _); by intros [= <- _]. Qed.

Lemma unmoved_lift {A} (x : result init_error A) : unmoved (st_lift x : IM A).
Proof using. by intros s s' r [= <- _]. Qed.

Lemma unmoved_get {A} (f : membership → result init_error A) : unmoved (s ← st_get; st_lift (f s)).
Proof using. by intros s s' r [= <- _]. Qed.

Lemma reports_unmoved {A} (op : IM A) : unmoved op → reports (on_members op).
Proof using.
  intros Ho m m' r. unfold on_members. destruct (op (ml_members m)) as [s x] eqn:Es. apply Ho in Es as ->.
  intros [= <- <-]. by destruct m.
Qed.

Lemma shows_summary w l : shows (readRestartRecordSummaryCached w l).
Proof using.
  intros m m' x. unfold readRestartRecordSummaryCached. destruct (cached_read _ _ _ _ _) as [c r].
  by intros [= <- <-].
Qed.

Lemma shows_settled g w : shows (settled_status E g w).
Proof using.
  intros m m' x. unfold settled_status.
  assert (∀ m1 r, (match published_metadata w (po_files (ml_pools m)) with
     | Some md => match validateMetadata (pe_eval_symlinks E) (gl_alive g) w md with
                  | Ok _ => readRestartRecordSummaryCached w (gl_second g) m
                  | Err _ => (m, Ok None) end
     | None => (m, Ok None) end) = (m1, r) → reported m m1) as H.
  { intros m1 r. destruct (published_metadata _ _); [|by intros [= <- <-]].
    destruct (validateMetadata _ _ _ _); [apply shows_summary|by intros [= <- <-]]. }
  destruct (match published_metadata _ _ with Some _ => _ | None => _ end) as [m1 r]. specialize (H m1 r eq_refl).
  destruct (read_with_record E (gl_alive g) w r _); by intros [= <- <-].
Qed.

Lemma shows_status g w : shows (weaverStatusForWorldLocked E g w).
Proof using.
  intros m m' x. unfold weaverStatusForWorldLocked.
  destruct (_ ≫= λ c : child_view, _); [by intros [= <- <-]|].
  destruct ('(_, h) ← _; _); [by intros [= <- <-]|].
  destruct (_ ≫= λ v, transition_status _ _ _ _ _); [by intros [= <- <-]|].
  destruct (readRestartRecordSummaryCached w (gl_first g) m) as [m1 r] eqn:Er. apply shows_summary in Er.
  assert (∀ m2 y, settled_status E g w m1 = (m2, y) → reported m m2) as Hs.
  { intros m2 y H. eapply reported_trans; [exact Er|]. by eapply shows_settled. }
  destruct r as [[r|]|e]; [destruct (unsettled r)|..]; first [by intros [= <- <-]|apply Hs].
Qed.

Lemma shows_merge k details status : shows (mergePooledRestartStatus E k details status).
Proof using.
  intros m m' x. unfold mergePooledRestartStatus.
  destruct (pooledRestartRecordCoordinates status) as [[pool path]|]; [|by intros [= <- <-]].
  destruct details; [by intros [= <- <-]|].
  destruct (readPoolRestartRecordSummaryCached _ _ _ _ _ _ _) as [c r]. by intros [= <- <-].
Qed.

Lemma unmoved_registered dir : unmoved (registeredPoolForConfig E dir).
Proof using. apply unmoved_bind; [apply unmoved_registry|]. intros _. apply unmoved_get. Qed.

Lemma unmoved_snapshot pool : unmoved (poolRegisteredSnapshot E pool).
Proof using. apply unmoved_bind; [apply unmoved_registry|]. intros _. apply unmoved_get. Qed.

Lemma unmoved_validated pool : unmoved (poolSnapshot E lstat git pool).
Proof using. apply unmoved_bind; [apply unmoved_registry|]. intros _. apply unmoved_get. Qed.

Lemma unmoved_durable : unmoved (durablePoolSnapshots E).
Proof using. apply unmoved_bind; [apply unmoved_registry|]. intros _. apply unmoved_get. Qed.

Lemma unmoved_configured dir : unmoved (configuredPool E lstat git dir).
Proof using. by intros s s' r [= <- _]. Qed.
End reports.

Create HintDb reports discriminated.
#[export] Hint Resolve reports_mret reports_fail reports_lift reports_look reports_get reports_discover
  reports_unmoved reports_always shows_status shows_merge unmoved_registered unmoved_snapshot unmoved_validated unmoved_durable
  unmoved_configured : reports.

(** [report] walks a call and leaves the calls it does not know. *)
Ltac report :=
  repeat first
    [ progress intros
    | solve [auto with reports]
    | apply reports_bind
    | match goal with |- reports match ?x with _ => _ end => destruct x end ].

Section reports.
Context (E : penv) (lstat : string → marker) (git : git_query → string → option string).

Lemma reports_known k pool : reports (known_host E k pool).
Proof using. unfold known_host. report. Qed.
#[local] Hint Resolve reports_known : reports.

Lemma reports_pool k w : reports (poolStatusForWorldRaw E lstat git k w).
Proof using. unfold poolStatusForWorldRaw, recorded_status, configured_status, routed_host. report. Qed.
#[local] Hint Resolve reports_pool : reports.

Lemma reports_row k dir status : reports (compact_row E k dir status).
Proof using. unfold compact_row. report. Qed.
#[local] Hint Resolve reports_row : reports.

Lemma reports_members k h snap ms : reports (member_rows E k h snap ms).
Proof using. induction ms; cbn [member_rows]; report. Qed.
#[local] Hint Resolve reports_members : reports.

Lemma reports_pending k h snap dirs : reports (pending_rows E k h snap dirs).
Proof using. induction dirs; cbn [pending_rows]; report. Qed.
#[local] Hint Resolve reports_pending : reports.

Lemma reports_pool_rows k durable pool : reports (pool_rows E k durable pool).
Proof using. unfold pool_rows, snapshot_for, listed_host. report. Qed.
#[local] Hint Resolve reports_pool_rows : reports.

Lemma reports_all_pools k durable ps : reports (all_pool_rows E k durable ps).
Proof using. induction ps; cbn [all_pool_rows]; report. Qed.
#[local] Hint Resolve reports_all_pools : reports.

Lemma shows_children g order : shows (child_rows E g order).
Proof using.
  induction order as [|dir order IH]; intros m m' x; cbn [child_rows]; [by intros [= <- <-]|].
  destruct (ml_children m !! dir) as [c|]; [|apply IH].
  destruct (weaverStatusForWorldLocked _ _ _ _) as [m1 st] eqn:E1. destruct (child_rows _ _ _ m1) as [m2 l] eqn:E2.
  intros [= <- <-]. eapply reported_trans; [by eapply shows_status|by eapply IH].
Qed.
#[local] Hint Resolve shows_children : reports.

Lemma shows_discovered l w status : shows (mergeDiscoveredRestartStatus l w status).
Proof using.
  intros m m' x. unfold mergeDiscoveredRestartStatus. case_bool_decide; [by intros [= <- <-]|].
  destruct (readRestartRecordSummaryCached w l m) as [m1 r] eqn:Er. apply shows_summary in Er. by intros [= <- <-].
Qed.

Lemma reports_files alive g seen paths : reports (file_rows E alive g seen paths).
Proof using.
  induction paths as [|path paths IH]; cbn [file_rows]; [apply reports_mret|].
  case_bool_decide; [exact IH|]. intros m m' r.
  destruct (readStatusFileWithWorld _ _ _ _) as [[status w]|]; [|by intros [= <- <-]].
  destruct (mergeDiscoveredRestartStatus _ _ _ _) as [m1 st] eqn:E1. apply shows_discovered in E1. intros Hrun.
  eapply reported_trans; [exact E1|]. revert Hrun. apply reports_bind; [exact IH|]. intros. apply reports_mret.
Qed.

Lemma reports_known_rows a : reports (known_rows E a).
Proof using. unfold known_rows. report. Qed.

(** ** The requests that only ask

    They change nothing that lasts: no file, no record, no row of the registry, no child
    and no restart. They fill the caches of restart records, and mill may come to know
    hosts that it discovers. *)

Lemma reports_status g k details w : reports (weaverStatus E lstat git g k details w).
Proof using. unfold weaverStatus, poolStatusForWorldWithDetails. report. Qed.

Lemma reports_context g source w : reports (weaverReplContext E g source w).
Proof using. clear. unfold weaverReplContext. report. Qed.

Lemma reports_list a : reports (weaverList E a).
Proof using.
  clear lstat git. intros m m' r. unfold weaverList, list_rows. destruct (known_rows E a m) as [m1 r1] eqn:E1.
  apply reports_known_rows in E1.
  destruct r1 as [[known seen]|e]; [|by intros [= <- _]]. destruct (file_rows _ _ _ _ _ m1) as [m2 r2] eqn:E2.
  apply reports_files in E2. destruct r2; intros [= <- _]; by eapply reported_trans.
Qed.
End reports.
