(* ===== verification/StatusList.v ===== *)
(** What the list of weavers (src/cli/cmd/mill/lifecycle.go, [weaverList]) covers: the
    members of every pool that is served and the registered workspaces it lacks, every
    supervised child, and every published file that none of these is about, once. *)

From S2P Require Export Status PoolCustody.

(** The next step of a listing that succeeds. *)
Ltac list_step H :=
  let R := fresh "R" in apply st_bind_run in H as [(? & _ & [=])|(? & ? & R & H)].

Section covers.
Context (E : penv).

(** ** Lemmas: the pools during a listing *)

Definition keeps {X A} (op : ST mill_state X A) : Prop := ∀ m m' r, op m = (m', r) → ml_pools m' = ml_pools m.

Lemma keeps_mret {X A} (x : A) : keeps (mret x : ST mill_state X A).
Proof using. by intros m m' r [= <- _]. Qed.

Lemma keeps_look {A} (f : mill_state → A) : keeps (look_up f).
Proof using. by intros m m' r [= <- _]. Qed.

Lemma keeps_fail {A} (e : init_error) : keeps (st_fail e : MM A).
Proof using. by intros m m' r [= <- _]. Qed.

Lemma keeps_bind {X A B} (op : ST mill_state X A) (f : A → ST mill_state X B) :
  keeps op → (∀ x, keeps (f x)) → keeps (op ≫= f).
Proof using.
  intros Ho Hf m m' r H. apply st_bind_run in H as [(e & R & ->)|(x & m1 & R & H)]; [by eapply Ho|].
  apply Hf in H. apply Ho in R. congruence.
Qed.

Lemma keeps_unmoved {A} (op : IM A) : unmoved op → keeps (on_members op).
Proof using.
  intros Ho m m' r. unfold on_members. destruct (op (ml_members m)) as [s x] eqn:Es. apply Ho in Es as ->.
  by intros [= <- _].
Qed.

Lemma keeps_row k dir status : keeps (compact_row E k dir status).
Proof using.
  apply keeps_bind; [|intros; apply keeps_mret]. intros m m' r. unfold always, mergePooledRestartStatus.
  destruct (pooledRestartRecordCoordinates status) as [[pool path]|]; [|by intros [= <- _]].
  cbn. destruct (readPoolRestartRecordSummaryCached _ _ _ _ _ _ _) as [c y]. by intros [= <- _].
Qed.

Lemma keeps_members k h snap ms : keeps (member_rows E k h snap ms).
Proof using.
  induction ms as [|pm ms IH]; [apply keeps_mret|]. apply keeps_bind; [apply keeps_look|]. intros fs.
  apply keeps_bind; [|intros here; apply keeps_bind; [exact IH|]; intros; apply keeps_mret].
  destruct (member_status_of _ _ _ _ _); [|apply keeps_mret].
  apply keeps_bind; [apply keeps_row|]. intros. apply keeps_mret.
Qed.

Lemma keeps_pending k h snap dirs : keeps (pending_rows E k h snap dirs).
Proof using.
  induction dirs as [|dir dirs IH]; [apply keeps_mret|]. cbn [pending_rows].
  destruct (runtime_world E dir); [|apply keeps_fail]. apply keeps_bind; [apply keeps_row|]. intros row.
  apply keeps_bind; [exact IH|]. intros. apply keeps_mret.
Qed.

(** A pool's host that serves stays its host while others are discovered. *)
Definition pool_served (alive : Z → bool) (pool : string) (l : nat) (h : weaverHost) (s : pools) : Prop :=
  routed s ∧ host_of_pool pool s = Some (l, h) ∧ host_serves alive h = true.

Lemma discover_other k alive pool pool' l h s s' r :
  pool ≠ pool' → pool_served alive pool l h s → discoverPoolHost E k pool' s = (s', r) →
  pool_served alive pool l h s'.
Proof using.
  intros Hne (Hr & Hh & Hs) H. pose proof (keeping_discover E (λ _, True) k pool' s Hr I) as (Hr' & _ & _).
  rewrite H in Hr'. cbn in Hr'. split_and!; [done| |done].
  unfold discoverPoolHost in H. destruct (find_host E k pool' (po_files s)) as [[x|]|] eqn:Ef; [|by injection H as <- _..].
  apply find_host_found in Ef as (root & hostDir & marker & mf & xs & [_ _ _ _ _ _ Hx _]).
  assert (host_of_pool pool (install_host x s).1 = Some (l, h)) as Hi.
  { unfold host_of_pool in *. destruct (po_hosts s !! pool) as [l0|] eqn:El; [|done]. cbn in Hh.
    assert (wh_Pool x = pool') as Hp by by subst x. cbn. rewrite Hp, lookup_insert_ne, El by done. cbn.
    destruct (host_at s l0) as [h0|] eqn:E0; [|done]. cbn in Hh. injection Hh as <- <-.
    pose proof (rt_heap s Hr _ _ E0). unfold host_at in *. cbn. rewrite lookup_insert_ne, E0 by lia. done. }
  destruct (host_of_pool pool' s) as [[l' h']|]; [destruct (wh_Live h')|]; injection H as <- _; first [exact Hh|exact Hi].
Qed.

Lemma known_found pool m : (look_up (λ m, snd <$> host_of_pool pool (ml_pools m)) : MM _) m
  = (m, Ok (snd <$> host_of_pool pool (ml_pools m))).
Proof using. done. Qed.

Lemma listed_served k pool pool' l h m m' r :
  pool_served (pg_alive k) pool l h (ml_pools m) → listed_host E k pool' m = (m', r) →
  pool_served (pg_alive k) pool l h (ml_pools m').
Proof using.
  intros Hs H. unfold listed_host in H. unfold mbind at 1, st_bind in H. rewrite known_found in H.
  assert (∀ m1 (r1 : result init_error (option weaverHost)),
    pool ≠ pool' → (l ← on_members (on_pools (discoverPoolHost E (pg_look k pool') pool'));
     look_up (λ m, l ≫= host_at (ml_pools m))) m = (m1, r1) → pool_served (pg_alive k) pool l h (ml_pools m1)) as Hd.
  { intros m1 r1 Hne H1. apply st_bind_run in H1 as [(e & R & _)|(x & m2 & R & H1)].
    2: injection H1 as <- _.
    all: revert R; unfold on_members, on_pools;
      destruct (discoverPoolHost E _ pool' _) as [p y] eqn:Ed; intros [= <- _]; cbn; by eapply discover_other. }
  apply st_bind_run in H as [(e & R & _)|(x & m1 & R & H)]; [|injection H as <- _].
  all: destruct (decide (pool = pool')) as [<-|Hne];
    [destruct Hs as (Hr & Hh & Hl); rewrite Hh in R; cbn in R; rewrite Hl in R; by injection R as <- _|].
  all: destruct (snd <$> host_of_pool pool' (ml_pools m)) as [h'|]; [destruct (host_serves _ h'); [by injection R as <- _|]|];
    by eapply Hd.
Qed.

Lemma pool_rows_served k durable pool pool' l h m m' r :
  pool_served (pg_alive k) pool l h (ml_pools m) → pool_rows E k durable pool' m = (m', r) →
  pool_served (pg_alive k) pool l h (ml_pools m').
Proof using.
  intros Hs H. unfold pool_rows in H.
  assert (keeps (snapshot_for E durable pool')) as Hk.
  { unfold snapshot_for. destruct (durable !! pool'); [apply keeps_mret|apply keeps_unmoved, unmoved_snapshot]. }
  apply st_bind_run in H as [(e & R & _)|(snap & m1 & R & H)]; apply Hk in R; [by rewrite R|rewrite <-R in Hs].
  apply st_bind_run in H as [(e & R' & _)|(host & m2 & R' & H)];
    apply (listed_served _ _ _ _ _ _ _ _ Hs) in R'; [done|].
  assert (ml_pools m' = ml_pools m2) as ->; [|done].
  destruct host as [h'|]; [|by injection H as <- _]. revert H. apply keeps_bind; [apply keeps_members|].
  intros live. apply keeps_bind; [apply keeps_pending|]. intros. apply keeps_mret.
Qed.

(** ** Lemmas: the rows *)

Definition state_dirs (ms : list poolMember) : list string := StateDir <$> (pm_World <$> ms).

Lemma member_status_some alive h pm fs :
  pm ∈ wh_Members h → is_Some (member_status_of E alive h (pm_ConfigDir pm) fs).
Proof using.
  intros Hin. unfold member_status_of, poolStatusForMember.
  destruct (filter (λ m, pm_ConfigDir m = pm_ConfigDir pm) (wh_Members h)) as [|x l] eqn:Ef; [|by eexists].
  exfalso. apply (not_elem_of_nil pm). rewrite <-Ef. by apply list_elem_of_filter.
Qed.

Lemma compact_row_run k dir status m m' row :
  compact_row E k dir status m = (m', Ok row) → row.1 = dir.
Proof using. intros H. unfold compact_row in H. list_step H. by injection H as _ <-. Qed.

Lemma member_rows_run k h snap ms m m' l :
  ms ⊆ wh_Members h → member_rows E k h snap ms m = (m', Ok l) → l.*1 = state_dirs ms.
Proof using.
  revert m m' l. induction ms as [|pm ms IH]; intros m m' l Hin H; cbn [member_rows] in H; [by injection H as _ <-|].
  list_step H. list_step H. list_step H. injection H as _ <-. apply IH in R1; [|set_solver].
  destruct (member_status_some (pg_alive k) h pm x) as [status Hst]; [set_solver|]. rewrite Hst in R0.
  list_step R0. injection R0 as _ <-. apply compact_row_run in R2. rewrite fmap_app, R1. cbn. by rewrite R2.
Qed.

Lemma pending_rows_run k h snap dirs m m' l :
  pending_rows E k h snap dirs m = (m', Ok l) →
  ∀ dir, dir ∈ dirs → ∃ w, runtime_world E dir = Some w ∧ StateDir w ∈ l.*1.
Proof using.
  revert m m' l. induction dirs as [|dir dirs IH]; intros m m' l H d Hd; cbn [pending_rows] in H; [by apply elem_of_nil in Hd|].
  destruct (runtime_world E dir) as [w|] eqn:Ew; [|done]. list_step H. list_step H. injection H as _ <-.
  apply compact_row_run in R. apply elem_of_cons in Hd as [->|Hd].
  - exists w. split; [done|]. cbn. rewrite R. by left.
  - destruct (IH _ _ _ R0 d Hd) as (w' & Hw & Hin). exists w'. split; [done|]. cbn. by right.
Qed.

Definition snapshot_used (durable : gmap string JvmPool.PoolSnapshot) (pool : string) (m : mill_state) : result init_error JvmPool.PoolSnapshot :=
  (snapshot_for E durable pool m).2.

(** The rows of a pool cover its served host. *)
Lemma pool_rows_run k durable pool m m' l seen :
  pool_rows E k durable pool m = (m', Ok (l, seen)) →
  seen = l.*1 ∧
  ∀ n h, host_of_pool pool (ml_pools m) = Some (n, h) → host_serves (pg_alive k) h = true → wh_Members h ≠ [] →
    (∀ pm, pm ∈ wh_Members h → StateDir (pm_World pm) ∈ l.*1) ∧
    ∀ snap, durable !! pool = Some snap → ∀ dir, dir ∈ pending_dirs h snap →
      ∃ w, runtime_world E dir = Some w ∧ StateDir w ∈ l.*1.
Proof using.
  unfold pool_rows. intros H. list_step H. rename x into snap, x0 into m1.
  assert (keeps (snapshot_for E durable pool)) as Hk.
  { unfold snapshot_for. destruct (durable !! pool); [apply keeps_mret|apply keeps_unmoved, unmoved_snapshot]. }
  pose proof (Hk _ _ _ R) as Hm1. list_step H. rename x into host, x0 into m2.
  assert (∀ n h, host_of_pool pool (ml_pools m) = Some (n, h) → host_serves (pg_alive k) h = true → wh_Members h ≠ [] →
    host = Some h) as Hhost.
  { intros n h Hh Hs Hne. rewrite <-Hm1 in Hh. unfold listed_host in R0. list_step R0. rewrite known_found, Hh in R1.
    injection R1 as <- <-. cbn in R0. rewrite Hs in R0. list_step R0. injection R1 as <- <-. injection R0 as _ <-. cbn.
    apply andb_true_iff in Hs as [-> _]. by rewrite (bool_decide_eq_false_2 _ Hne). }
  destruct host as [h'|].
  - list_step H. list_step H. injection H as _ <- <-. pose proof R1 as Hl. apply member_rows_run in Hl; [|done].
    split; [by rewrite fmap_app, Hl|]. intros n h Hh Hs Hne. injection (Hhost n h Hh Hs Hne) as ->. split.
    + intros pm Hpm. rewrite fmap_app, Hl. apply elem_of_app. left. unfold state_dirs.
      apply list_elem_of_fmap. exists (pm_World pm). split; [done|]. apply list_elem_of_fmap. by exists pm.
    + intros snap' Hsnap dir Hdir. assert (snap = snap') as ->.
      { unfold snapshot_for in R. rewrite Hsnap in R. by injection R as _ <-. }
      destruct (pending_rows_run _ _ _ _ _ _ _ R2 dir Hdir) as (w & Hw & Hin). exists w. split; [done|].
      rewrite fmap_app. apply elem_of_app. by right.
  - injection H as _ <- <-. split; [done|]. intros n h Hh Hs Hne. by specialize (Hhost n h Hh Hs Hne).
Qed.

(** A served host of pool [pool] has its rows in [l]. *)
Definition host_listed (durable : gmap string JvmPool.PoolSnapshot) (pool : string) (h : weaverHost) (dirs : list string) : Prop :=
  (∀ pm, pm ∈ wh_Members h → StateDir (pm_World pm) ∈ dirs) ∧
  ∀ snap, durable !! pool = Some snap → ∀ dir, dir ∈ pending_dirs h snap →
    ∃ w, runtime_world E dir = Some w ∧ StateDir w ∈ dirs.

Lemma host_listed_more durable pool h dirs dirs' : dirs ⊆ dirs' → host_listed durable pool h dirs → host_listed durable pool h dirs'.
Proof using. intros Hs [H1 H2]. split; [auto|]. intros snap Hsnap dir Hdir. destruct (H2 snap Hsnap dir Hdir) as (w & ? & ?). eauto. Qed.

Lemma all_pool_rows_run k durable ps m m' l seen :
  all_pool_rows E k durable ps m = (m', Ok (l, seen)) →
  seen = l.*1 ∧
  ∀ pool n h, pool ∈ ps → pool_served (pg_alive k) pool n h (ml_pools m) → wh_Members h ≠ [] →
    host_listed durable pool h l.*1.
Proof using.
  revert m m' l seen. induction ps as [|p ps IH]; intros m m' l seen H; cbn [all_pool_rows] in H.
  { injection H as _ <- <-. split; [done|]. intros pool n h Hin. by apply elem_of_nil in Hin. }
  list_step H. destruct x as [here seen1]. list_step H. destruct x as [rest seen2]. injection H as _ <- <-.
  pose proof (pool_rows_run _ _ _ _ _ _ _ R) as [-> Hhere]. destruct (IH _ _ _ _ R0) as [-> Hrest].
  split; [by rewrite fmap_app|]. intros pool n h Hin Hs Hne. rewrite fmap_app. apply elem_of_cons in Hin as [->|Hin].
  - destruct Hs as (_ & Hh & Hs). eapply host_listed_more; [|by apply (Hhere n h)]. set_solver.
  - eapply host_listed_more; [|eapply (Hrest pool n h); [done| |done]]; [set_solver|].
    by eapply pool_rows_served.
Qed.

Lemma child_rows_run g order m m' l :
  child_rows E g order m = (m', l) →
  ∀ dir c, dir ∈ order → ml_children m !! dir = Some c → StateDir (cv_world c) ∈ l.*1.
Proof using.
  revert m m' l. induction order as [|d order IH]; intros m m' l H dir c Hin Hc; [by apply elem_of_nil in Hin|].
  cbn [child_rows] in H. destruct (ml_children m !! d) as [c'|] eqn:Ed.
  - destruct (weaverStatusForWorldLocked E (g d) (cv_world c') m) as [m1 st] eqn:E1.
    destruct (child_rows E g order m1) as [m2 rest] eqn:E2. injection H as _ <-.
    apply shows_status in E1 as (_ & Hch & _). apply elem_of_cons in Hin as [->|Hin]; cbn.
    + rewrite Ed in Hc. injection Hc as ->. by left.
    + right. eapply IH; [exact E2|done|by rewrite Hch].
  - apply elem_of_cons in Hin as [->|Hin]; [congruence|]. by eapply IH.
Qed.

Lemma file_rows_run alive g seen paths m m' l :
  file_rows E alive g seen paths m = (m', Ok l) → l.*1 = filter (λ d, d ∉ seen) (Dir <$> paths).
Proof using.
  revert m m' l. induction paths as [|path paths IH]; intros m m' l H; cbn [file_rows] in H; [by injection H as _ <-|].
  rewrite fmap_cons, filter_cons. case_bool_decide as Hd; [rewrite decide_False by naive_solver; by eapply IH|].
  rewrite decide_True by done. destruct (readStatusFileWithWorld _ _ _ _) as [[status w]|]; [|done].
  destruct (mergeDiscoveredRestartStatus _ _ _ m) as [m1 st]. list_step H. injection H as _ <-. cbn.
  f_equal. by eapply IH.
Qed.

(** The snapshots of the registry hold its rows by pool, in their order. *)
Lemma durable_snapshots_lookup doc pool :
  durable_snapshots doc !! pool =
  match filter (λ r, JvmPool.m_JVMPool r = pool) (JvmPool.doc_members doc) with
  | [] => None
  | l => Some (JvmPool.mkSnapshot pool (JvmPool.d_Revision doc) l)
  end.
Proof using.
  unfold durable_snapshots. induction (JvmPool.doc_members doc) as [|r l IH] using rev_ind; [done|].
  rewrite foldl_app, filter_app. cbn [foldl]. rewrite filter_cons, filter_nil.
  set (snaps := foldl _ ∅ l) in *. destruct (decide (JvmPool.m_JVMPool r = pool)) as [<-|Hne].
  - rewrite lookup_insert_eq, IH. destruct (filter _ l); done.
  - rewrite lookup_insert_ne, IH by done. by rewrite app_nil_r.
Qed.

Lemma durable_run s s' durable doc :
  durablePoolSnapshots E s = (s', Ok durable) →
  JvmPool.readLocked (JvmPool.d_file (ms_registry s)) = Ok doc → durable = durable_snapshots doc.
Proof using.
  intros H Hdoc. unfold durablePoolSnapshots in H. list_step H. apply unmoved_registry in R as ->.
  list_step H. injection R as <- <-. unfold st_lift in H. rewrite Hdoc in H. by injection H.
Qed.

Lemma served_listed durable alive pool n h s :
  pool_served alive pool n h s → pool ∈ listed_pools durable s.
Proof using.
  intros (_ & Hh & _). unfold listed_pools, sort_strings. rewrite elem_of_sort_stable, elem_of_elements.
  apply elem_of_union_r, elem_of_dom. unfold host_of_pool in Hh. destruct (po_hosts s !! pool); [by eexists|done].
Qed.

Lemma known_rows_run a m m' known seen :
  known_rows E a m = (m', Ok (known, seen)) →
  seen = known.*1 ∧
  (∀ dir c, dir ∈ ls_order a → ml_children m !! dir = Some c → StateDir (cv_world c) ∈ known.*1) ∧
  ∀ doc, JvmPool.readLocked (JvmPool.d_file (ms_registry (ml_members m))) = Ok doc →
  ∀ pool n h, pool_served (pg_alive (ls_pools a)) pool n h (ml_pools m) → wh_Members h ≠ [] →
    host_listed (durable_snapshots doc) pool h known.*1.
Proof using.
  unfold known_rows. intros H. list_step H. rename x into durable.
  pose proof (reports_unmoved _ (unmoved_durable E) _ _ _ R) as (_ & Hch & _).
  pose proof (keeps_unmoved _ (unmoved_durable E) _ _ _ R) as Hp.
  list_step H. injection R0 as <- <-. list_step H. destruct x as [hosted seen1].
  pose proof (reports_all_pools E _ _ _ _ _ _ R0) as (_ & Hch' & _).
  apply all_pool_rows_run in R0 as [-> Hhosts]. list_step H. unfold always in R0.
  destruct (child_rows E (ls_children a) (ls_order a) x1) as [m2 l] eqn:Ec. injection R0 as <- <-.
  destruct (StateRoot _ _); [|done]. injection H as _ <- <-. split; [by rewrite fmap_app|]. split.
  - intros dir c Hin Hc. rewrite fmap_app. apply elem_of_app. right.
    eapply child_rows_run; [exact Ec|done|by rewrite Hch', Hch].
  - intros doc Hdoc pool n h Hs Hne. rewrite fmap_app. assert (durable = durable_snapshots doc) as <-.
    { unfold on_members in R. destruct (durablePoolSnapshots E (ml_members m)) as [s r] eqn:Er.
      injection R as _ ->. by eapply durable_run. }
    eapply host_listed_more; [|eapply (Hhosts pool n h); [|by rewrite Hp|done]]; [set_solver|].
    rewrite Hp. by eapply served_listed.
Qed.

(** ** Properties *)

End covers.

(** ** The members a pool's status names *)

(** Reading one of the assigned keys. *)
Ltac status_key := unfold assign; cbn [foldl fst snd];
  repeat first [rewrite lookup_insert_eq|rewrite lookup_insert_ne by done]; reflexivity.

Section placement.
Context (E : penv).

(** The keys that a restart record may change in a status. *)
Definition restart_keys : list string :=
  ["state"; "stale_reason"; "restart_state"; "transition_id"; "old_generation_stopped"; "probe"; "restart_failure";
   "diagnostics"].

Lemma assign_other l (status : object) key : key ∉ l.*1 → assign l status !! key = status !! key.
Proof using.
  unfold assign. revert status. induction l as [|[k v] l IH]; intros status Hk; [done|]. cbn in *.
  apply not_elem_of_cons in Hk as [Hne Hk]. rewrite IH by done. by rewrite lookup_insert_ne.
Qed.

Lemma restart_keys_other key k : key ∉ restart_keys → k ∈ restart_keys → k ≠ key.
Proof using. intros H1 H2 ->. done. Qed.

Lemma merge_record_other r details status key :
  key ∉ restart_keys → mergePoolRestartRecordStatus r details status !! key = status !! key.
Proof using.
  intros Hk. unfold mergePoolRestartRecordStatus.
  assert (∀ k, k ∈ restart_keys → k ≠ key) as Hne by (intros k; by apply restart_keys_other).
  assert (∀ f st, (match f with
     | Some f => assign [("restart_failure", AFailure f);
                   ("diagnostics", AMaps [failure_row (f_Stage f) (failure_data (f_Message f) (f_LogPath f))])] st
     | None => st end : object) !! key = st !! key) as Hf.
  { intros [f|] st; [|done]. apply assign_other. cbn. set_solver. }
  rewrite Hf. clear Hf.
  assert (∀ (p : option restartProbeResult) (st : object), match p with
     | Some p => if details then <["probe" := AProbe p]> st else st
     | None => st end !! key = st !! key) as Hp.
  { intros [p|] st; [|done]. destruct details; [|done]. apply lookup_insert_ne, Hne. set_solver. }
  rewrite Hp. clear Hp. rewrite assign_other by (cbn; set_solver).
  destruct (negb _ && _); [|done]. apply lookup_insert_ne, Hne. set_solver.
Qed.

Lemma merge_read_other details text_of read status key :
  key ∉ restart_keys → merge_read details text_of read status !! key = status !! key.
Proof using.
  intros Hk. unfold merge_read.
  assert (∀ e : pool_error + coordinate_error,
    assign [("state", AString "stale"); ("stale_reason", AString (text_of e))] status !! key = status !! key) as He.
  { intros e. apply assign_other. cbn. set_solver. }
  destruct (pooledRestartRecordCoordinates status) as [[pool path]|e]; [|apply He].
  destruct (read path pool) as [[r|]|e']; [by apply merge_record_other|done|apply He].
Qed.

(** The lists of members agree: the pending ones are the registered ones that are not
    live, or nothing is live and nothing pending; and a restart is asked for exactly when
    something is pending. *)
Definition placement (live : list string) (status : object) : Prop :=
  ∃ reg pend, status !! "registered_members" = Some (AStrings reg) ∧
    status !! "live_members" = Some (AStrings live) ∧ status !! "pending_members" = Some (AStrings pend) ∧
    status !! "restart_required" = Some (ABool (negb (bool_decide (pend = [])))) ∧
    (pend = filter (λ d, d ∉ live) reg ∨ live = [] ∧ pend = []).

(** A status that names its pool and the pool's members. *)
Definition placed_in (pool : string) (live : list string) (status : object) : Prop :=
  as_text (status !! "jvm_pool") = Some pool ∧ placement live status.

Lemma placed_in_merge k details pool live status m m' status' :
  placed_in pool live status → mergePooledRestartStatus E k details status m = (m', status') →
  placed_in pool live status'.
Proof using.
  intros [Hp (reg & pend & H1 & H2 & H3 & H4 & H5)] H.
  assert (∀ key, key ∉ restart_keys → status' !! key = status !! key) as Hk.
  { intros key Hkey. unfold mergePooledRestartStatus in H.
    destruct (pooledRestartRecordCoordinates status) as [[p path]|] eqn:Ec;
      [destruct (if details then _ else _) as [c r] in H|]; injection H as _ <-; by apply merge_read_other. }
  split; [by rewrite Hk by (unfold restart_keys; set_solver)|].
  exists reg, pend. rewrite !Hk by (unfold restart_keys; set_solver). done.
Qed.

Lemma member_placed alive h dir fs snap status :
  member_status_of E alive h dir fs = Some status →
  placed_in (wh_Pool h) (poolConfigDirs (wh_Members h)) (addPoolPending h snap status).
Proof using.
  unfold member_status_of, poolStatusForMember. destruct (head _) as [pm|]; [|done]. cbn [mbind option_bind].
  intros [= <-].
  match goal with |- context [<["jvm_pool" := _]> ?b] => generalize b; intros base end.
  unfold addPoolPending, host_fields_of. split; [by status_key|].
  exists (snapshot_dirs snap), (pending_dirs h snap). split_and!; [status_key..|by left].
Qed.

Lemma pending_placed w pool h snap : placed_in pool (poolConfigDirs (wh_Members h)) (pendingStatus w pool h snap).
Proof using.
  unfold pendingStatus, addPoolPending. split; [by status_key|].
  exists (snapshot_dirs snap), (pending_dirs h snap). split_and!; [status_key..|by left].
Qed.

Lemma registered_placed w pool snap path : placed_in pool [] (poolStatusForRegistered w pool snap path).
Proof using.
  unfold poolStatusForRegistered. split; [by status_key|].
  exists (snapshot_dirs snap), []. split_and!; [status_key..|by right].
Qed.

Lemma hosted_placed k w pool h snap fs status :
  hosted_status E k w pool h snap fs = Some status → ∃ pool live, placed_in pool live status.
Proof using.
  intros H. unfold hosted_status in H. destruct (poolHostHasMember h (ConfigDir w)).
  - destruct (member_status_of _ _ _ _ _) as [st|] eqn:Es; [|done]. injection H as <-.
    eexists _, _. by eapply member_placed.
  - injection H as <-. eexists _, _. apply pending_placed.
Qed.
End placement.

Section pool_status.
Context (E : penv) (lstat : string → marker) (git : git_query → string → option string).

(** A status that is answered places the workspace. *)
Definition answer_placed (r : result init_error (option (option object))) : Prop :=
  ∀ status, r = Ok (Some (Some status)) → ∃ pool live, placed_in pool live status.

Definition places (op : MM (option (option object))) : Prop := ∀ m, answer_placed (op m).2.

Lemma places_bind {A} (op : MM A) (f : A → MM (option (option object))) :
  (∀ x m m', op m = (m', Ok x) → answer_placed (f x m').2) → places (op ≫= f).
Proof using.
  intros H m status. destruct ((op ≫= f) m) as [m' r] eqn:Er. cbn. intros ->.
  apply st_bind_run in Er as [(e & _ & [=])|(x & m1 & R & Er)].
  pose proof (H x m m1 R status) as Hp. rewrite Er in Hp. by apply Hp.
Qed.

Lemma places_registered w pool snap :
  places (st_lift (JvmPool.map_err IEPool
    (path ← poolRestartRecordPathForPool E pool; Ok (Some (Some (poolStatusForRegistered w pool snap path)))))).
Proof using.
  intros m status. cbn. destruct (poolRestartRecordPathForPool E pool); cbn; [|done]. intros [= <-].
  eexists _, _. apply registered_placed.
Qed.

Lemma places_hosted k w pool h snap fs : places (mret (Some (hosted_status E k w pool h snap fs))).
Proof using. intros m status. cbn. intros [= Hs]. by eapply hosted_placed. Qed.

Lemma places_raw k w : places (poolStatusForWorldRaw E lstat git k w).
Proof using.
  assert (places (configured_status E lstat git k w)) as Hc.
  { apply places_bind. intros pool ? m _. case_bool_decide; [by intros ?|].
    revert m. apply places_bind. intros snap ? m _. destruct (negb (memberForPool snap (ConfigDir w))); [by intros ? [=]|].
    revert m. apply places_bind. intros host ? m _. revert m. apply places_bind. intros mm ? m _.
    destruct host as [h|]; [|apply places_registered]. destruct (wh_Live h); [apply places_hosted|apply places_registered]. }
  assert (places (recorded_status E lstat git k w)) as Hr.
  { apply places_bind. intros [pool|] ? m _; [|apply Hc]. revert m. apply places_bind. intros snap ? m _.
    revert m. apply places_bind. intros host ? m _. revert m. apply places_bind. intros mm ? m _.
    destruct host as [h|]; [|apply Hc]. destruct (wh_Live h); [apply places_hosted|apply Hc]. }
  apply places_bind. intros host ? m _. destruct host as [h|]; [|apply Hr]. destruct (wh_Live h); [|apply Hr].
  revert m. apply places_bind. intros snap ? m _. revert m. apply places_bind. intros mm ? m _ status. cbn.
  intros [= Hs]. destruct (member_status_of _ _ _ _ _) as [st|] eqn:Es; [|done]. injection Hs as <-.
  eexists _, _. by eapply member_placed.
Qed.

(** A status that mill answers for a workspace of a pool names the pool and its members
    consistently, whatever the restart record adds: the pending members are the registered
    ones that the live host lacks, and a restart is asked for exactly when there are some.
    While a live host serves the workspace the status names that host's pool and members,
    even if the configuration or the registry was changed since. *)
Theorem pool_status_placed k details w m m' status :
  poolStatusForWorldWithDetails E lstat git k details w m = (m', Ok (Some (Some status))) →
  (∃ pool live, placed_in pool live status) ∧
  ∀ l h, poolHostForConfigLocked (ConfigDir w) (ml_pools m) = Some (l, h) → wh_Live h = true →
    placed_in (wh_Pool h) (poolConfigDirs (wh_Members h)) status.
Proof using.
  intros H. unfold poolStatusForWorldWithDetails in H. list_step H. destruct x as [[st|]|]; [|done..].
  list_step H. injection H as <- <-. unfold always in R0.
  destruct (mergePooledRestartStatus E k details st x0) as [m2 st'] eqn:Em. injection R0 as <- <-. split.
  - pose proof (places_raw k w m st) as Hp. rewrite R in Hp. destruct (Hp eq_refl) as (pool & live & Hpl).
    exists pool, live. by eapply placed_in_merge.
  - intros l h Hh Hl. eapply placed_in_merge; [|exact Em]. unfold poolStatusForWorldRaw in R. cbv zeta in R.
    list_step R. unfold routed_host, look_up in R0. rewrite Hh in R0. injection R0 as <- <-. rewrite Hl in R.
    list_step R. list_step R. injection R1 as <- <-. injection R as _ Hs.
    destruct (member_status_of _ _ _ _ _) as [s0|] eqn:Es; [|done]. injection Hs as <-. by eapply member_placed.
Qed.
End pool_status.

(** ** Examples *)

(** A workspace /w/b with published metadata, next to the host of /w/a and a child of
    /w/c, whose file is not listed again. *)
Definition listed_world (name : string) : world :=
  let dir := "/x/millstrand/weavers/" +:+ name in
  mkWorld ("/w/" +:+ name) dir (dir +:+ "/data") (dir +:+ "/data/millstrand.sqlite") name.

Definition listed_member : poolMember :=
  mkPMember (listed_world "b") "/w/b" "b" "weaver-b" "generation-b" "basis" zero_identity.

Definition listed_files : files :=
  {["/x/millstrand/weavers/b/weaver.json" := Holds (Some (published_by sample_host listed_member))]}.

Definition listed_mill : mill_state :=
  mkMill (mkMembership (with_files listed_files sample_pools) JvmPool.empty_disk)
    {["/w/c" := mkChild (listed_world "c") "c" (Some 8%Z) "generation-c" false None]} ∅ ∅ ∅.

Definition listed_glance (dir : string) : glance :=
  let look := mkRecordLook StatMissing (Ok None) in mkGlance (λ _, true) look look.

Definition listed_answers : list_answers :=
  mkListAnswers (mkPoolGlance (λ _, mkLook (λ _, true) (λ _, true) []) (λ _, true) (λ _, StatMissing) (λ _, None) (λ _, "bad"))
    listed_glance listed_glance ["/w/c"]
    ["/x/millstrand/weavers/b/weaver.json"; "/x/millstrand/weavers/c/weaver.json"].


Lemma pool_status_placed_witness :
  ∃ status, (poolStatusForWorldWithDetails sample_env (λ _, MAbsent) (λ _ _, None) (ls_pools listed_answers) false
               sample_world listed_mill).2 = Ok (Some (Some status)) ∧
    placed_in "pool" ["/w/a"] status.
Proof.
  destruct (poolStatusForWorldWithDetails sample_env (λ _, MAbsent) (λ _ _, None) (ls_pools listed_answers) false
              sample_world listed_mill) as [m' r] eqn:H.
  assert (match r with Ok (Some (Some _)) => true | _ => false end = true) as Hr.
  { change r with (m', r).2. rewrite <-H. by vm_compute. }
  destruct r as [[[status|]|]|]; [|done..]. exists status. split; [done|].
  destruct (pool_status_placed sample_env (λ _, MAbsent) (λ _ _, None) (ls_pools listed_answers) false sample_world
    listed_mill m' status H) as [_ Hp].
  change (placed_in (wh_Pool sample_host) (poolConfigDirs (wh_Members sample_host)) status).
  apply (Hp 0 sample_host); by vm_compute.
Defined.
