(* ===== verification/Output.v ===== *)
(** How the mill command shows a result (src/cli/cmd/mill/output.go): the checks that a
    status must pass, and the lines that are written for a person. The text of a value
    that is no string, of a local time and of a quoted path are given. *)

From S2P Require Export StatusList.

(** ** Output *)

Inductive output_error :=
| NotAnObject
| FailureNotObject
| FailureField
| FailureBlank (key : string)
| DiagnosticsNotObjects
| DiagnosticBad (e : restart_error)
| MissingHealthy
| UnknownState (state : string).

(** [%-10s] *)
Definition label_text (label : string) : string :=
  label +:+ spaces (10 - length (runes label)).

Section output.
Context (color : bool) (sprint : any → string) (local_time quote : string → string) (json : any → string).

Definition paint (code text : string) : string :=
  if color then of_bytes [ascii_of_nat 27] +:+ "[" +:+ code +:+ "m" +:+ text +:+ of_bytes [ascii_of_nat 27] +:+ "[0m"
  else text.

(** A line of its own, at a time. *)
Definition event (at_ message : string) : string := paint "2" at_ +:+ "  " +:+ message.

Definition detail (label value : string) : list string :=
  if bool_decide (value = "") then [] else ["  " +:+ label_text label +:+ " " +:+ value].

Definition statusText (fields : object) (key : string) : string :=
  match fields !! key with
  | None | Some ANil => ""
  | Some (AString s) => s
  | Some v => sprint v
  end.

Definition failure_keys : list string := ["stage"; "message"; "log_path"; "exit_evidence"].

Definition failure_field_ok (kv : string * any) : bool :=
  bool_decide (kv.1 ∈ failure_keys) && match kv.2 with AString _ => true | _ => false end.

(** The failure of a restart that a status shows. *)
Definition shown_failure (fields : object) : result output_error (option object) :=
  match fields !! "restart_failure" with
  | None => Ok None
  | Some (AObject failure) =>
      ensure (forallb failure_field_ok (map_to_list failure)) FailureField ;;
      ensure (negb (is_blank (statusText failure "stage"))) (FailureBlank "stage") ;;
      ensure (negb (is_blank (statusText failure "message"))) (FailureBlank "message") ;;
      Ok (Some failure)
  | Some _ => Err FailureNotObject
  end.

Fixpoint check_diagnostics (rows : list object) : result output_error unit :=
  match rows with
  | [] => Ok tt
  | row :: rows =>
      match validateRestartDiagnostic row with
      | Ok _ => check_diagnostics rows
      | Err e => Err (DiagnosticBad e)
      end
  end.

Definition shown_diagnostics (fields : object) : result output_error (list object) :=
  match fields !! "diagnostics" with
  | None => Ok []
  | Some v =>
      match restartDiagnosticRows v with
      | Some rows => check_diagnostics rows ;; Ok rows
      | None => Err DiagnosticsNotObjects
      end
  end.

Definition shown_state (operation : string) (fields : object) : result output_error string :=
  if bool_decide (operation = "status") then
    match fields !! "healthy" with
    | Some (ABool true) => Ok "running"
    | Some (ABool false) => Ok "unhealthy"
    | _ => Err MissingHealthy
    end
  else Ok (statusText fields "state").

(** The colour and the label of a state. *)
Definition state_style (state : string) : result output_error (string * string) :=
  if bool_decide (state = "running") then Ok ("32", state)
  else if bool_decide (state ∈ ["failed"; "stale"; "unhealthy"]) then Ok ("31", state)
  else if bool_decide (state = "none") then Ok ("33", "not running")
  else if bool_decide (state ∈ ["starting"; "stopped"; "probing"; "restarting"]) then Ok ("33", state)
  else Err (UnknownState state).

Definition named_subject (operation : string) (fields : object) : string :=
  let subject := if bool_decide (operation = "status") then "Mill" else "Weaver" in
  let name := statusText fields "name" in
  if bool_decide (name = "") then subject else subject +:+ " " +:+ name.

(** [elapsed] is the rounded duration, if it is positive. *)
Definition facts (state : string) (fields : object) (elapsed : option string) : list string :=
  (let pid := statusText fields "pid" in
   if negb (bool_decide (pid = "")) && negb (bool_decide (state = "stopped")) then ["PID " +:+ pid] else []) ++
  (let version := statusText fields "version" in if bool_decide (version = "") then [] else ["v" +:+ version]) ++
  (match elapsed with Some d => [d] | None => [] end).

Definition heading (operation state color_code label : string) (fields : object) (elapsed : option string) : string :=
  let restarting := bool_decide (operation = "weaver-restart") in
  let subject := if restarting then "Weaver restart" else named_subject operation fields in
  let label := if restarting && bool_decide (state = "running") then "complete" else label in
  let text := subject +:+ " " +:+ paint color_code label in
  match facts state fields elapsed with
  | [] => text
  | l => text +:+ " (" +:+ String.concat ", " l +:+ ")"
  end.

(** The lines of one failed diagnostic. *)
Definition diagnostic_lines (fields row : object) : list string :=
  if negb (bool_decide (as_text (row !! "status") = Some "failed")) then [] else
  detail "Failed" (statusText row "stage") ++
  (match row !! "data" with
   | Some (AObject data) => detail "Reason" (statusText data "message") ++ detail "Logs" (statusText data "log_path")
   | _ => []
   end) ++
  (if bool_decide (as_text (row !! "stage") = Some "probe") &&
      match fields !! "generation_id" with None | Some ANil => false | Some _ => true end
   then ["  Current weaver is still running."] else []).

Definition workspace_of (fields : object) : string :=
  let workspace := statusText fields "config_dir" in
  if bool_decide (workspace = "") then statusText fields "workspace" else workspace.

Definition failure_lines (failure : option object) : list string :=
  match failure with
  | Some failure =>
      detail "Restart" (paint "31" "last attempt failed; current weaver is still running") ++
      detail "Reason" (statusText failure "message") ++ detail "Logs" (statusText failure "log_path")
  | None => []
  end.

Definition restart_lines (state : string) (fields : object) : list string :=
  let restart := statusText fields "restart_state" in
  if negb (bool_decide (restart = "")) && negb (bool_decide (restart = state))
  then detail "Restart" (paint (if bool_decide (restart = "failed") then "31" else "33") restart) else [].

Definition body_lines (operation state : string) (fields : object) (failure : option object)
    (diagnostics : list object) : list string :=
  let workspace := workspace_of fields in
  let started := statusText fields "started_at" in
  detail "Workspace" workspace ++
  (if bool_decide (started = "") then [] else detail "Since" (local_time started)) ++
  (if bool_decide (operation = "status") then detail "Socket" (statusText fields "socket_path") else []) ++
  detail "Logs" (statusText fields "log_path") ++
  detail "Reason" (statusText fields "stale_reason") ++
  restart_lines state fields ++
  failure_lines failure ++
  (match diagnostics with
   | [] => []
   | _ => (diagnostics ≫= diagnostic_lines fields) ++ ["  Use --json for full restart diagnostics."]
   end) ++
  (if bool_decide (state = "none") || bool_decide (state = "stopped")
   then ["  Start with: mill weaver start --workspace " +:+ quote workspace] else []).

(** [now] is the time of the heading's event. *)
Definition result_lines (operation : string) (value : any) (elapsed : option string) (now : string)
    : result output_error (list string) :=
  match value with
  | AObject fields =>
      failure ← shown_failure fields;
      diagnostics ← shown_diagnostics fields;
      state ← shown_state operation fields;
      '(code, label) ← state_style state;
      let text := heading operation state code label fields elapsed in
      Ok ((match elapsed with Some _ => event now text | None => text end)
          :: body_lines operation state fields failure diagnostics)
  | _ => Err NotAnObject
  end.

Definition writeStatusResult (jsonOutput : bool) (operation : string) (value : any) (elapsed : option string)
    (now : string) : result output_error (list string) :=
  if jsonOutput then Ok [json value] else result_lines operation value elapsed now.
End output.

(** ** What mill sends *)

(** A value after it was sent as JSON; rows of diagnostics hold JSON values only. *)
Definition received_value (v : any) : any :=
  match v with
  | AMaps rows => AArray (AObject <$> rows)
  | AFailure f => AObject (encode_failure f)
  | AProbe p => AObject (encode_probe p)
  | _ => v
  end.

Definition received (fields : object) : object := received_value <$> fields.

(** ** Lemmas: what is displayed *)

Definition known_states : list string :=
  ["running"; "failed"; "stale"; "unhealthy"; "none"; "starting"; "stopped"; "probing"; "restarting"].

Definition states_text (fields : object) (key : string) : Prop :=
  ∃ s, fields !! key = Some (AString s) ∧ is_blank s = false.

(** The failure of a restart as it is sent. *)
Definition failure_shape (f : object) : Prop :=
  (∀ k v, f !! k = Some v → k ∈ failure_keys ∧ ∃ s, v = AString s)
  ∧ states_text f "stage" ∧ states_text f "message".

Section displays.
Context (color : bool) (sprint : any → string) (local_time quote : string → string).

(** The statuses that have a text. *)
Record displayable (operation : string) (fields : object) : Prop := {
  dp_failure : ∀ v, fields !! "restart_failure" = Some v → ∃ f, v = AObject f ∧ failure_shape f;
  dp_diagnostics : ∀ v, fields !! "diagnostics" = Some v →
    ∃ rows, restartDiagnosticRows v = Some rows ∧ Forall (λ row, validateRestartDiagnostic row = Ok tt) rows;
  dp_state : if bool_decide (operation = "status") then ∃ b, fields !! "healthy" = Some (ABool b)
             else statusText sprint fields "state" ∈ known_states;
}.

Lemma statusText_string fields key s : fields !! key = Some (AString s) → statusText sprint fields key = s.
Proof. unfold statusText. by intros ->. Qed.

Lemma failure_fields f :
  forallb failure_field_ok (map_to_list f) = true ↔ ∀ k v, f !! k = Some v → k ∈ failure_keys ∧ ∃ s, v = AString s.
Proof.
  rewrite forallb_forall. split.
  - intros H k v Hk. specialize (H (k, v)). rewrite <-list_elem_of_In, elem_of_map_to_list in H.
    apply H in Hk. unfold failure_field_ok in Hk. bools. split; [done|]. destruct v; naive_solver.
  - intros H [k v] Hin. apply list_elem_of_In, elem_of_map_to_list in Hin.
    destruct (H k v Hin) as (Hk & s & ->). unfold failure_field_ok. by rewrite bool_decide_eq_true_2.
Qed.

Lemma stated_text f key :
  (∀ k v, f !! k = Some v → k ∈ failure_keys ∧ ∃ s, v = AString s) →
  is_blank (statusText sprint f key) = false ↔ states_text f key.
Proof.
  intros Hf. unfold statusText, states_text. destruct (f !! key) as [v|] eqn:Ev.
  - destruct (Hf _ _ Ev) as (_ & s & ->). naive_solver.
  - split; [done|]. by intros (? & [=] & _).
Qed.

Lemma shown_failure_ok fields :
  (∃ o, shown_failure sprint fields = Ok o)
  ↔ ∀ v, fields !! "restart_failure" = Some v → ∃ f, v = AObject f ∧ failure_shape f.
Proof.
  unfold shown_failure. destruct (fields !! "restart_failure") as [v|]; [|naive_solver].
  split.
  - intros [o H] ? [= <-]. destruct v; try done. inv_ok. bools. eexists; split; [done|].
    assert (∀ k v, m !! k = Some v → k ∈ failure_keys ∧ ∃ s, v = AString s) by by apply failure_fields.
    split_and!; [done|by apply stated_text..].
  - intros H. destruct (H v eq_refl) as (f & -> & Hf & Hs & Hm).
    apply (stated_text f _ Hf) in Hs, Hm. apply failure_fields in Hf. rewrite Hf, Hs, Hm. by eexists.
Qed.

Lemma check_diagnostics_ok rows u :
  check_diagnostics rows = Ok u ↔ Forall (λ row, validateRestartDiagnostic row = Ok tt) rows.
Proof.
  destruct u. induction rows as [|row rows IH]; cbn; [by split|].
  rewrite Forall_cons, <-IH. destruct (validateRestartDiagnostic row) as [[]|]; naive_solver.
Qed.

Lemma shown_diagnostics_ok fields :
  (∃ l, shown_diagnostics fields = Ok l)
  ↔ ∀ v, fields !! "diagnostics" = Some v →
      ∃ rows, restartDiagnosticRows v = Some rows ∧ Forall (λ row, validateRestartDiagnostic row = Ok tt) rows.
Proof.
  unfold shown_diagnostics. destruct (fields !! "diagnostics") as [v|]; [|naive_solver].
  setoid_rewrite <-(check_diagnostics_ok _ tt). destruct (restartDiagnosticRows v) as [rows|] eqn:Er.
  - split.
    + intros [l H] ? [= <-]. inv_ok. by eexists.
    + intros H. destruct (H v eq_refl) as (? & E & Hc). rewrite Er in E. injection E as <-. rewrite Hc. by eexists.
  - split; [by intros [l H]|]. intros H. destruct (H v eq_refl) as (? & E & _). by rewrite Er in E.
Qed.

Lemma state_style_ok state : (∃ p, state_style state = Ok p) ↔ state ∈ known_states.
Proof.
  unfold state_style, known_states.
  repeat (case_bool_decide; [split; [intros _; subst; set_solver|by eexists]|]).
  split; [by intros [p [=]]|]. rewrite !elem_of_cons, elem_of_nil in *. tauto.
Qed.

Lemma shown_state_ok operation fields :
  (∃ state p, shown_state sprint operation fields = Ok state ∧ state_style state = Ok p)
  ↔ if bool_decide (operation = "status") then ∃ b, fields !! "healthy" = Some (ABool b)
    else statusText sprint fields "state" ∈ known_states.
Proof.
  unfold shown_state. case_bool_decide as Ho.
  - split.
    + intros (state & p & H & _). destruct (fields !! "healthy") as [[]|]; naive_solver.
    + intros [[] ->]; eexists _, _; (split; [done|]); reflexivity.
  - rewrite <-state_style_ok. naive_solver.
Qed.

Notation result_lines := (result_lines color sprint local_time quote) (only parsing).

Lemma displays operation fields elapsed now :
  (∃ lines, result_lines operation (AObject fields) elapsed now = Ok lines) ↔ displayable operation fields.
Proof.
  unfold result_lines. split.
  - intros [lines H]. apply result_bind_ok in H as (failure & Hf & H).
    apply result_bind_ok in H as (rows & Hd & H). apply result_bind_ok in H as (state & Hs & H).
    apply result_bind_ok in H as (p & Hp & _).
    split; [by eapply shown_failure_ok, ex_intro|by eapply shown_diagnostics_ok, ex_intro|].
    apply shown_state_ok. by eexists _, _.
  - intros [Hf Hd Hs]. apply shown_failure_ok in Hf as [failure ->]. apply shown_diagnostics_ok in Hd as [rows ->].
    apply shown_state_ok in Hs as (state & [code label] & -> & Hp). cbn. rewrite Hp. by eexists.
Qed.

(** The lines of a result are written exactly for the objects with these three parts. *)
Theorem result_displays operation value elapsed now :
  (∃ lines, result_lines operation value elapsed now = Ok lines)
  ↔ ∃ fields, value = AObject fields ∧ displayable operation fields.
Proof.
  split.
  - intros H. destruct value; try by destruct H. eexists. split; [done|]. by eapply displays.
  - intros (fields & -> & H). by apply displays.
Qed.

(** ** Statuses of mill *)

Lemma lookup_received fields key : received fields !! key = received_value <$> fields !! key.
Proof. apply lookup_fmap. Qed.

Definition failure_named (f : restartFailure) : Prop :=
  is_blank (f_Stage f) = false ∧ is_blank (f_Message f) = false.

(** What mill keeps of a status: a known state, and the failure with its row. *)
Record showable (m : object) : Prop := {
  sh_state : ∃ s, m !! "state" = Some (AString s) ∧ s ∈ known_states;
  sh_failure : ∀ v, m !! "restart_failure" = Some v → ∃ f, v = AFailure f ∧ failure_named f;
  sh_rows : ∀ v, m !! "diagnostics" = Some v → ∃ f, v = record_diagnostics f ∧ failure_named f;
}.

Lemma encoded_failure f : failure_named f → failure_shape (encode_failure f).
Proof.
  intros [Hs Hm]. unfold encode_failure. split_and!.
  - intros k v Hk. pose proof (json_object_keys _ k (ex_intro _ v Hk)) as Hin. split; [exact Hin|].
    revert Hk. cbn [fmap list_fmap fst] in Hin. rewrite !elem_of_cons, elem_of_nil in Hin.
    assert (∀ s v, omit_string s = Some v → ∃ t, v = AString t) as Ho.
    { unfold omit_string. intros t ?. case_bool_decide; naive_solver. }
    destruct Hin as [->|[->|[->|[->|[]]]]];
      (erewrite lookup_json_object; [|cbn [fmap list_fmap fst]; names_ok|json_member]); naive_solver.
  - exists (f_Stage f). split; [|done]. eapply lookup_json_object; [cbn [fmap list_fmap fst]; names_ok|json_member].
  - exists (f_Message f). split; [|done]. eapply lookup_json_object; [cbn [fmap list_fmap fst]; names_ok|json_member].
Qed.

Lemma record_row_valid f : failure_named f →
  validateRestartDiagnostic (failure_row (f_Stage f) (failure_data (f_Message f) (f_LogPath f))) = Ok tt.
Proof.
  intros [Hs _]. pose proof (failure_rows_ok (f_Stage f) (failure_data (f_Message f) (f_LogPath f)) Hs) as H.
  unfold validate_rows in H. cbn [restartDiagnosticRows check_from] in H.
  destruct (validateRestartDiagnostic _) as [[]|]; [done|discriminate].
Qed.

Lemma showable_displays operation m :
  operation ≠ "status" → showable m → displayable operation (received m).
Proof.
  intros Hop [(s & Es & Hs) Hf Hd]. split.
  - intros v. rewrite lookup_received. destruct (m !! "restart_failure") as [x|] eqn:Ex; [|done].
    destruct (Hf _ eq_refl) as (f & -> & Hn). intros [= <-]. cbn. eexists; split; [done|]. by apply encoded_failure.
  - intros v. rewrite lookup_received. destruct (m !! "diagnostics") as [x|] eqn:Ex; [|done].
    destruct (Hd _ eq_refl) as (f & -> & Hn). intros [= <-]. cbn. eexists; split; [done|].
    apply Forall_singleton. by apply record_row_valid.
  - rewrite bool_decide_eq_false_2 by done. rewrite (statusText_string _ _ s); [done|].
    by rewrite lookup_received, Es.
Qed.
End displays.

(** ** Lemmas: the statuses of mill are shown *)

Definition watched : list string := ["state"; "restart_failure"; "diagnostics"].

Lemma showable_insert k v m : k ∉ watched → showable m → showable (<[k := v]> m).
Proof.
  unfold watched. rewrite !not_elem_of_cons. intros (? & ? & ? & _) [].
  split; by rewrite lookup_insert_ne.
Qed.

Lemma showable_state s m : s ∈ known_states → showable m → showable (<["state" := AString s]> m).
Proof.
  intros Hs []. split; [by exists s; rewrite lookup_insert_eq|by rewrite lookup_insert_ne..].
Qed.

Lemma showable_failure f m : failure_named f → showable m → showable (<["restart_failure" := AFailure f]> m).
Proof.
  intros Hf []. split; [by rewrite lookup_insert_ne| |by rewrite lookup_insert_ne].
  rewrite lookup_insert_eq. naive_solver.
Qed.

Lemma showable_delete k m : k ≠ "state" → showable m → showable (delete k m).
Proof.
  intros Hk [Hs Hf Hd]. split; [by rewrite lookup_delete_ne|intros v [_ Hv]%lookup_delete_Some; auto..].
Qed.

Lemma showable_object s l :
  s ∈ known_states → NoDup l.*1 → ("state", Some (AString s)) ∈ l → "restart_failure" ∉ l.*1 → "diagnostics" ∉ l.*1 →
  showable (json_object l).
Proof.
  intros Hs Hn Hin Hf Hd. split.
  - exists s. split; [|done]. by apply lookup_json_object.
  - intros v Hv. destruct Hf. by apply json_object_keys, (ex_intro _ v).
  - intros v Hv. destruct Hd. by apply json_object_keys, (ex_intro _ v).
Qed.

Lemma base_showable w s : s ∈ known_states → showable (baseStatus w s).
Proof.
  intros Hs. apply (showable_object s); [done|cbn [fmap list_fmap fst]; names_ok|json_member|..];
    cbn [fmap list_fmap fst]; apply (bool_decide_unpack _); vm_compute; exact I.
Qed.

Lemma metadata_showable md s : s ∈ known_states → showable (statusFromMetadata md s).
Proof.
  intros Hs. apply (showable_object s); [done|cbn [status_members fmap list_fmap fst]; names_ok|json_member|..];
    cbn [status_members fmap list_fmap fst]; apply (bool_decide_unpack _); vm_compute; exact I.
Qed.

Ltac is_known := apply (bool_decide_unpack _); vm_compute; exact I.

(** Insertions at other keys, known states and failures. *)
Create HintDb shown discriminated.
#[local] Hint Constants Opaque : shown.
#[local] Hint Resolve showable_insert showable_state showable_failure showable_delete base_showable metadata_showable : shown.
#[local] Hint Extern 1 (_ ∈ known_states) => is_known : shown.
#[local] Hint Extern 1 (_ ∉ watched) => is_known : shown.
#[local] Hint Extern 1 (_ ≠ _) => discriminate : shown.

Lemma showable_text k v m : k ∉ watched → showable m → showable (set_text k v m).
Proof. unfold set_text. intros. case_bool_decide; auto with shown. Qed.

Lemma showable_stopped r m : showable m → showable (put_stopped r m).
Proof. unfold put_stopped. destruct (_ || _); auto with shown. Qed.
#[local] Hint Resolve showable_text showable_stopped : shown.

Definition record_named (r : restartRecord) : Prop := ∀ f, Failure r = Some f → failure_named f.

Lemma merged_showable m r : record_named r → showable m → showable (mergeRestartRecordCompactStatus m r).
Proof. unfold mergeRestartRecordCompactStatus. intros Hr Hm. destruct (Failure r) eqn:E; auto 10 with shown. Qed.

Lemma compact_showable w r : State r ∈ known_states → record_named r → showable (compactStatus w r).
Proof. unfold compactStatus. intros Hs Hr. destruct (Failure r) eqn:E; auto 10 with shown. Qed.

Lemma unsettled_known r : unsettled r = true → State r ∈ known_states.
Proof. unfold unsettled. rewrite !orb_true_iff, !bool_decide_eq_true. intros [[->| ->]| ->]; is_known. Qed.
#[local] Hint Resolve merged_showable compact_showable unsettled_known : shown.

(** What a reading of a restart record gives: a record whose failure is named. *)
Definition answer_named (r : result string (option restartRecord)) : Prop :=
  ∀ x, r = Ok (Some x) → record_named x.

Lemma answer_inj {A B} (x x' : A) (y y' : B) : Some (x, y) = Some (x', y') → x = x' ∧ y = y'.
Proof. naive_solver. Qed.

Section statuses.
Context (E : penv).

Lemma read_showable alive w r fs status stale :
  answer_named r → read_with_record E alive w r fs = Some (status, stale) → showable status.
Proof using.
  intros Hr. unfold read_with_record, readStatusWithRestartRecord, set_stale, set_state.
  destruct (fs !! weaver_json (StateDir w)) as [[|d]|]; [done| |done].
  destruct (d ≫= decodeMetadata) as [md|]; [|intros [<- _]%answer_inj; auto with shown].
  destruct (validateMetadata _ _ _ _) as [[]|]; [|intros [<- _]%answer_inj; auto 10 with shown].
  destruct r as [[x|]|e]; [case_bool_decide|..]; intros [<- _]%answer_inj; auto 10 with shown.
Qed.

Lemma mark_showable answer : showable answer.1 → showable (mark_stale answer).
Proof using. unfold mark_stale, set_state. intros. destruct answer.2; auto with shown. Qed.

Lemma child_showable g w c : showable (unpublished_child E g w c).
Proof using.
  unfold unpublished_child, baseStatusWithName, assign. cbn [foldl fst snd].
  destruct (child_running g c); auto 10 with shown.
Qed.

Lemma temporary_showable g c fs : answer_named (rl_read (gl_first g)) → showable (temporaryChildStatusLocked E g c fs).
Proof using.
  intros Hr. unfold temporaryChildStatusLocked, decorateTemporaryStatus.
  destruct (read_with_record _ _ _ _ _) as [[status stale]|] eqn:Es.
  - apply showable_insert; [is_known|]. apply mark_showable. by eapply read_showable.
  - destruct (cv_cleanup c); auto using child_showable with shown.
Qed.

Lemma member_showable alive h dir fs status : member_status_of E alive h dir fs = Some status → showable status.
Proof using.
  unfold member_status_of, poolStatusForMember. destruct (head _) as [pm|]; [|done]. cbn [mbind option_bind].
  intros [= <-]. unfold host_fields_of, assign. cbn [foldl fst snd].
  repeat (apply showable_insert; [is_known|]).
  destruct (readRuntimeStatus _ _ _ _ _ _) as [[status []]|] eqn:Es; [auto 10 with shown| |auto 10 with shown].
  unfold readRuntimeStatus, readStatusWithRestartRecord in Es.
  destruct (fs !! _) as [[|d]|]; [done| |done]. destruct (d ≫= decodeMetadata) as [md|]; [|done].
  destruct (validateMetadata _ _ _ _); [|done]. apply answer_inj in Es as [<- _]. auto with shown.
Qed.

(** The result that a failed restart keeps. *)
Definition result_named (v : restart_view) : Prop :=
  t_state (rv_t v) = FailedState → ∀ m, rv_result v = Some m →
  (∃ s, m !! "state" = Some (AString s) ∧ s ∈ known_states)
  ∧ ∀ key x, key ∈ ["failure"; "restart_failure"] → m !! key = Some x → ∃ f, x = AFailure f ∧ failure_named f.

Lemma failed_showable w v : t_state (rv_t v) = FailedState → result_named v →
  showable (transitionResultStatus w (rv_t v) (rv_result v)).
Proof using.
  intros Hf Hn. unfold transitionResultStatus, transitionResultStatusDetailed, restartBoundaryStatus.
  assert (∀ m : object, (∃ s, m !! "state" = Some (AString s) ∧ s ∈ known_states)
    ∧ (∀ key x, key ∈ ["failure"; "restart_failure"] → m !! key = Some x → ∃ f, x = AFailure f ∧ failure_named f) →
    showable (delete "diagnostics" (delete "probe"
      (match m !! "failure" with Some f => delete "failure" (<["restart_failure" := f]> m) | None => m end)))) as Hshow.
  { intros m [Hs Hk]. split.
    - do 2 rewrite lookup_delete_ne by discriminate.
      destruct (m !! "failure"); [rewrite lookup_delete_ne, lookup_insert_ne by discriminate|]; done.
    - intros x. do 2 rewrite lookup_delete_ne by discriminate.
      destruct (m !! "failure") as [f|] eqn:Ef; [rewrite lookup_delete_ne, lookup_insert_eq by discriminate|].
      + intros [= <-]. apply (Hk "failure"); [set_solver|done].
      + apply Hk. set_solver.
    - intros x. by rewrite lookup_delete_eq. }
  apply Hshow. destruct (rv_result v) as [m|] eqn:Em.
  - destruct (Hn Hf m Em) as [(s & Es & Hs) Hk]. split.
    + exists s. by rewrite !lookup_insert_ne.
    + intros key x Hin. rewrite !lookup_insert_ne by (intros <-; set_solver). by apply Hk.
  - rewrite Hf. cbn [state_name]. destruct (base_showable w "failed") as [Hs Hr _]; [is_known|]. split.
    + destruct Hs as (s & Es & ?). exists s. by rewrite !lookup_insert_ne.
    + intros key x Hin. rewrite !lookup_insert_ne by (intros <-; set_solver).
      rewrite !elem_of_cons, elem_of_nil in Hin. destruct Hin as [->|[->|[]]]; [|by apply Hr].
      intros Hx. exfalso. pose proof (json_object_keys _ _ (ex_intro _ x Hx)) as Hin. revert Hin. is_known.
Qed.

(** ** Lemmas: the status of a workspace *)

(** The cache holds records whose failures are named, and a failed restart kept such a
    result. *)
Definition records_named (m : mill_state) : Prop :=
  ∀ path e, ml_records m !! path = Some e → answer_named e.2.

Definition results_named (m : mill_state) : Prop :=
  ∀ dir v, ml_transitions m !! dir = Some v → result_named v.

Lemma compact_named r : answer_named r → answer_named (compact_answer r).
Proof using. clear. intros Hr x. destruct r as [[y|]|]; [|done..]. intros [= <-]. exact (Hr y eq_refl). Qed.

Lemma cached_named w l m m' r :
  records_named m → answer_named (rl_read l) → readRestartRecordSummaryCached w l m = (m', r) →
  records_named m' ∧ answer_named r ∧ ml_transitions m' = ml_transitions m.
Proof using.
  clear. intros Hm Hl%compact_named H. unfold readRestartRecordSummaryCached, cached_read in H.
  assert (∀ p, records_named (with_records (delete p (ml_records m)) m)) as Hdel.
  { intros p path e. cbn [ml_records with_records]. intros [_ He]%lookup_delete_Some. by apply (Hm path). }
  assert (∀ p i, records_named (with_records (<[p := (i, compact_answer (rl_read l))]> (ml_records m)) m)) as Hset.
  { intros p i path e. cbn [ml_records with_records]. intros [[_ <-]|[_ He]]%lookup_insert_Some; [done|by apply (Hm path)]. }
  destruct (rl_stat l) as [|e|info]; [injection H as <- <-; by split_and!; [apply Hdel|..]..|].
  destruct (ml_records m !! _) as [[i c]|] eqn:Ec; [case_bool_decide|]; injection H as <- <-;
    split_and!; try done; [by apply (Hm _ _ Ec)|apply Hset..].
Qed.

Definition glance_named (g : glance) : Prop :=
  answer_named (rl_read (gl_first g)) ∧ answer_named (rl_read (gl_second g)).

Lemma settled_showable g w m m' status :
  records_named m → glance_named g → settled_status E g w m = (m', status) → records_named m' ∧ showable status.
Proof using.
  intros Hm [_ Hg] H. unfold settled_status in H.
  match type of H with (let '(_, _) := ?x in _) = _ => destruct x as [m1 r] eqn:Er end.
  assert (records_named m1 ∧ answer_named r) as [Hm1 Hr].
  { destruct (published_metadata _ _); [destruct (validateMetadata _ _ _ _)|].
    - by apply cached_named in Er as (? & ? & _).
    - by injection Er as <- <-.
    - by injection Er as <- <-. }
  destruct (read_with_record _ _ _ _ _) as [[st stale]|] eqn:Es; injection H as <- <-; (split; [done|]).
  - apply mark_showable. by eapply read_showable.
  - destruct (ml_children m1 !! _); [apply child_showable|auto with shown].
Qed.

Lemma transition_showable g w v fs status :
  glance_named g → result_named v → transition_status E g w v fs = Some status → showable status.
Proof using.
  intros [Hg _] Hv H. unfold transition_status in H. destruct (t_state (rv_t v)) eqn:Et; [..|done|].
  - injection H as <-. unfold admitted_status, restartBoundaryStatus, baseStatusWithName, assign. cbn [foldl fst snd].
    destruct (t_old (rv_t v)); [|auto 10 with shown].
    destruct (not_stale _) as [live|] eqn:El; [|auto 10 with shown].
    assert (showable live); [|auto 10 with shown].
    destruct (read_with_record _ _ _ _ _) as [[st []]|] eqn:Es; [done| |done]. injection El as <-.
    by eapply read_showable.
  - injection H as <-. unfold baseStatusWithName. auto with shown.
  - injection H as <-. by apply failed_showable.
Qed.

Lemma recorded_showable g w m m' status r :
  records_named m → glance_named g → answer_named r →
  (match r with
   | Err e => (m, set_stale e (baseStatus w "stale"))
   | Ok (Some r) => if unsettled r then (m, compactStatus w r) else settled_status E g w m
   | Ok None => settled_status E g w m
   end) = (m', status) →
  records_named m' ∧ showable status.
Proof using.
  intros Hm Hg Hr H. destruct r as [[x|]|e].
  - destruct (unsettled x) eqn:Ex; [|by eapply settled_showable].
    injection H as <- <-. split; [done|]. auto with shown.
  - by eapply settled_showable.
  - injection H as <- <-. unfold set_stale. auto with shown.
Qed.

Lemma status_showable g w m m' status :
  records_named m → results_named m → glance_named g → weaverStatusForWorldLocked E g w m = (m', status) →
  records_named m' ∧ showable status.
Proof using.
  intros Hm Ht Hg H. unfold weaverStatusForWorldLocked in H.
  destruct (ml_children m !! _ ≫= _) as [c|].
  { injection H as <- <-. split; [done|]. apply temporary_showable, Hg. }
  match type of H with (match ?x with Some _ => _ | None => _ end) = _ => destruct x as [st|] eqn:Ep end.
  { injection H as <- <-. split; [done|]. apply bind_Some in Ep as ([l h] & _ & Ep).
    destruct (wh_Live h); [|done]. by eapply member_showable. }
  destruct (ml_transitions m !! _ ≫= _) as [st|] eqn:Et.
  { injection H as <- <-. split; [done|]. apply bind_Some in Et as (v & Hv & Et).
    eapply transition_showable; [exact Hg|by eapply Ht|exact Et]. }
  destruct (readRestartRecordSummaryCached w (gl_first g) m) as [m1 r] eqn:Er.
  apply cached_named in Er as (? & ? & _); [|done|apply Hg]. by eapply recorded_showable.
Qed.

End statuses.

(** ** Pending workspaces *)

Section pending.
Context (E : penv).

Lemma record_keeps_pending r details status :
  status !! "state" = Some (AString "pending") →
  mergePoolRestartRecordStatus r details status !! "state" = Some (AString "pending").
Proof using.
  clear. intros Hs. unfold mergePoolRestartRecordStatus. assert (text "state" status = "pending") as ->.
  { unfold text. by rewrite Hs. }
  cbn [negb andb bool_decide]. rewrite bool_decide_eq_true_2 by done. cbn [negb andb].
  destruct (pr_Failure r) as [f|]; [rewrite assign_other by is_known|];
    (destruct (pr_Probe r); [destruct details; [rewrite lookup_insert_ne by done|]|]);
    by rewrite assign_other by is_known.
Qed.

Lemma merge_keeps_pending k details status m m' status' :
  status !! "state" = Some (AString "pending") → mergePooledRestartStatus E k details status m = (m', status') →
  status' !! "state" = Some (AString "stale") ∨ status' !! "state" = Some (AString "pending").
Proof using.
  intros Hs H. unfold mergePooledRestartStatus, merge_read in H.
  destruct (pooledRestartRecordCoordinates status) as [[pool path]|e].
  - destruct (if details then _ else _) as [c [[r|]|e]] in H; injection H as _ <-;
      [right; by apply record_keeps_pending|by right|left; status_key].
  - injection H as _ <-. left. status_key.
Qed.

(** A workspace that was registered while its pool's host is live is pending, and for
    such a status there are no lines: the state is refused as unknown. *)
Theorem pending_refused color sprint local_time quote k details w pool h snap fs m m' status status' elapsed now :
  poolHostHasMember h (ConfigDir w) = false →
  hosted_status E k w pool h snap fs = Some status →
  mergePooledRestartStatus E k details status m = (m', status') →
  status' !! "state" = Some (AString "stale") ∨
  ¬ ∃ lines, result_lines color sprint local_time quote "weaver-status" (AObject (received status')) elapsed now = Ok lines.
Proof using.
  intros Hh Hs H. unfold hosted_status in Hs. rewrite Hh in Hs. injection Hs as <-.
  apply merge_keeps_pending in H as [H|H]; [by left| |].
  - right. intros [_ _ Hst]%displays. rewrite bool_decide_eq_false_2 in Hst by done. revert Hst.
    rewrite (statusText_string _ _ _ "pending"); [is_known|]. by rewrite lookup_received, H.
  - unfold pendingStatus, addPoolPending, assign. cbn [foldl fst snd].
    rewrite !lookup_insert_ne by done. unfold baseStatus. apply lookup_json_object; [cbn [fmap list_fmap fst]; names_ok|json_member].
Qed.
End pending.

(** ** Examples *)

Definition shown_record_sample : restartRecord :=
  mkRecord "failed" "restart-1" "" "generation-1" "weaver-1" "2026-01-01T00:00:00Z" true None
    (Some (mkFailure "launch" "no such source" "/x/weaver.log" "")) false false.

Definition shown_glance : glance :=
  let look := mkRecordLook (StatInfo (mkInfo 1 10 5)) (Ok (Some shown_record_sample)) in mkGlance (λ _, true) look look.

Definition idle_mill : mill_state := mkMill (mkMembership sample_pools JvmPool.empty_disk) ∅ ∅ ∅ ∅.

Definition sample_lines (fields : object) : result output_error (list string) :=
  result_lines false (λ _, "?") (λ s, s) (λ s, s) "weaver-status" (AObject (received fields)) None "".

Example failed_lines :
  sample_lines (weaverStatusForWorldLocked sample_env shown_glance (listed_world "c") idle_mill).2
  = Ok ["Weaver c failed"; "  Workspace  /w/c"; "  Logs       /x/millstrand/weavers/c/weaver.log";
        "  Restart    last attempt failed; current weaver is still running"; "  Reason     no such source";
        "  Logs       /x/weaver.log"].
Proof. by vm_compute. Qed.


Definition pending_sample : object :=
  (mergePooledRestartStatus sample_env (ls_pools listed_answers) false
     (pendingStatus (listed_world "c") "pool" sample_host (JvmPool.mkSnapshot "pool" "1" [])) idle_mill).2.

Lemma pending_refused_witness : ¬ ∃ lines, sample_lines pending_sample = Ok lines.
Proof.
  assert (as_text (pending_sample !! "state") = Some "pending") as Hp by by vm_compute.
  destruct (pending_refused sample_env false (λ _, "?") (λ s, s) (λ s, s) (ls_pools listed_answers) false
    (listed_world "c") "pool" sample_host (JvmPool.mkSnapshot "pool" "1" []) ∅ idle_mill
    (mergePooledRestartStatus sample_env (ls_pools listed_answers) false
      (pendingStatus (listed_world "c") "pool" sample_host (JvmPool.mkSnapshot "pool" "1" [])) idle_mill).1
    (pendingStatus (listed_world "c") "pool" sample_host (JvmPool.mkSnapshot "pool" "1" [])) pending_sample None "")
    as [H|H]; [by vm_compute|done|apply surjective_pairing| |exact H].
  by rewrite H in Hp.
Defined.
