(* ===== verification/Commands.v ===== *)
(** The subcommands of mill (src/cli/cmd/mill/subcommands.go): the requests they send, the
    loop that shows the progress of a lifecycle operation, and the attachment to a
    weaver's nREPL. A call of mill is an answer given in advance; times are nanoseconds
    since the command started. *)

From stdpp Require Import pretty.
From S2P Require Export Client Output.

(** ** Requests *)

Inductive command_error :=
| NoCwd
| StealthWorkspace
| BadTimeout (value : string)
| TimeoutNotPositive (value : string)
| TimeoutTooShort (value : string)
| CallFailed (e : string)
| ProgressUnread (e : string)
| ProgressBad (e : restart_error)
| BadResult (e : output_error)
| ReplNotObject
| ReplNoState
| ReplNotRunning (state : string)
| ReplNoSource
| ReplNoNrepl
| ReplNoHost
| ReplNoPort.

Record world_request := mkWorldRequest {
  wr_CWD : string; wr_ConfigDir : string; wr_Name : string; wr_JVMPool : option string;
  wr_AutoStart : bool; wr_ReadyTimeoutMs : Z; wr_Stealth : bool; wr_Details : bool;
}.

(** The working directory, [None] if it cannot be had. *)
Definition worldRequest (cwd : option string) (workspace name : string) : result command_error world_request :=
  match cwd with
  | None => Err NoCwd
  | Some cwd =>
      let workspace := if negb (bool_decide (workspace = "")) && negb (IsAbs workspace)
                       then PathJoin [cwd; workspace] else workspace in
      Ok (mkWorldRequest cwd workspace name None false 0 false false)
  end.

(** [parse] is [time.ParseDuration]. *)
Definition parseReadyTimeout (parse : string → option Z) (value : string) : result command_error Z :=
  if bool_decide (value = "") then Ok 0%Z else
  match parse value with
  | None => Err (BadTimeout value)
  | Some d =>
      if (d <=? 0)%Z then Err (TimeoutNotPositive value)
      else if (d <? millisecond)%Z then Err (TimeoutTooShort value)
      else Ok (Z.quot d millisecond)
  end.

Definition with_init (stealth autoStart : bool) (jvmPool : option string) (w : world_request) : world_request :=
  mkWorldRequest (wr_CWD w) (wr_ConfigDir w) (wr_Name w) jvmPool autoStart (wr_ReadyTimeoutMs w) stealth (wr_Details w).

Definition with_wait (ms : Z) (details : bool) (w : world_request) : world_request :=
  mkWorldRequest (wr_CWD w) (wr_ConfigDir w) (wr_Name w) (wr_JVMPool w) (wr_AutoStart w) ms (wr_Stealth w) details.

(** The request of [mill init]. *)
Definition runInit (cwd : option string) (workspace : string) (stealth autoStart : bool) (jvmPool : option string)
    : result command_error world_request :=
  ensure (negb (stealth && negb (bool_decide (workspace = "")))) StealthWorkspace ;;
  w ← worldRequest cwd workspace "";
  Ok (with_init stealth autoStart jvmPool w).

Definition lifecycle_request (parse : string → option Z) (cwd : option string)
    (workspace name readyTimeout : string) (details : bool) : result command_error world_request :=
  w ← worldRequest cwd workspace name;
  ms ← parseReadyTimeout parse readyTimeout;
  Ok (with_wait ms details w).

(** ** The progress of an operation *)

(** What the loop sees: a tick of the ticker, with the answer to the request for the
    state of a restart, or the end of the call. *)
Inductive progress_event :=
| Tick (now : Z) (status : result string any)
| Completed (now : Z) (outcome : result string any).

(** What is printed on the way: the announcement of a state, or that it still runs. *)
Inductive progress_line :=
| Announce (now : Z) (state : string)
| StillWaiting (now : Z).

Definition announced (now : Z) (state : string) : list progress_line :=
  if bool_decide (state = "probing") || bool_decide (state = "restarting") then [Announce now state] else [].

(** The state of a restart at a tick. *)
Definition progress_state (status : result string any) : result command_error string :=
  match status with
  | Err e => Err (ProgressUnread e)
  | Ok v => match restartStatusState v with Ok state => Ok state | Err e => Err (ProgressBad e) end
  end.

Definition report_interval : Z := (10 * second)%Z.

Definition still_waiting (now lastReport : Z) : list progress_line * Z :=
  if (report_interval <=? now - lastReport)%Z then ([StillWaiting now], now) else ([], lastReport).

(** The loop: the lines, and what the call gave in the end; [None] while it runs. *)
Fixpoint progress (operation lastState : string) (lastReport : Z) (events : list progress_event)
    : list progress_line * option (result command_error (Z * any)) :=
  match events with
  | [] => ([], None)
  | Completed _ (Err e) :: _ => ([], Some (Err (CallFailed e)))
  | Completed now (Ok v) :: _ => ([], Some (Ok (now, v)))
  | Tick now status :: events =>
      if bool_decide (operation = "weaver-restart") then
        match progress_state status with
        | Err e => ([], Some (Err e))
        | Ok state =>
            let news := if bool_decide (state = lastState) then [] else announced now state in
            let '(report, lastReport) := still_waiting now lastReport in
            let '(lines, out) := progress operation state lastReport events in
            (news ++ report ++ lines, out)
        end
      else
        let '(report, lastReport) := still_waiting now lastReport in
        let '(lines, out) := progress operation lastState lastReport events in
        (report ++ lines, out)
  end.

(** ** The attachment to a weaver *)

(** The command that is run: its arguments and its directory. *)
Record repl_command := mkRepl { rp_args : list string; rp_dir : string }.

Section repl.
(** The integer that the float64 of a JSON number is, if it is one. *)
Context (float_int : string → option Z).

Definition parseNreplPort (v : option any) : result command_error string :=
  let port := match v with
              | Some (AString s) => Atoi s
              | Some (ANumber n) => float_int n
              | _ => None
              end in
  match port with
  | Some p => ensure (0 <? p)%Z ReplNoPort ;; ensure (p <=? 65535)%Z ReplNoPort ;; Ok (pretty p)
  | None => Err ReplNoPort
  end.

Definition nreplEndpoint (v : option any) : result command_error (string * string) :=
  match v with
  | Some (AObject nrepl) =>
      match as_text (nrepl !! "host") with
      | Some host =>
          ensure (negb (bool_decide (host = ""))) ReplNoHost ;;
          port ← parseNreplPort (nrepl !! "port");
          Ok (host, port)
      | None => Err ReplNoHost
      end
  | _ => Err ReplNoNrepl
  end.

(** A text that must not be empty. *)
Definition required_text (e : command_error) (v : option any) : result command_error string :=
  match as_text v with
  | Some s => ensure (negb (bool_decide (s = ""))) e ;; Ok s
  | None => Err e
  end.

(** The command is run with mill's own input and outputs, and its exit code is the
    command's. *)
Definition runWeaverRepl (cwd : option string) (workspace : string) (stdin : bool) (answer : result string any)
    : result command_error repl_command :=
  worldRequest cwd workspace "" ;;
  match answer with
  | Err e => Err (CallFailed e)
  | Ok (AObject status) =>
      state ← required_text ReplNoState (status !! "state");
      ensure (bool_decide (state = "running")) (ReplNotRunning state) ;;
      source ← required_text ReplNoSource (status !! "source");
      '(host, port) ← nreplEndpoint (status !! "nrepl");
      Ok (mkRepl (["-M"; "-m"; "millstrand.repl"] ++
                  (if stdin then ["--attach-stdin"] else ["--attach"]) ++ [host; port]) source)
  | Ok _ => Err ReplNotObject
  end.
End repl.

(** ** A lifecycle command *)

Section lifecycle.
Context (color : bool) (sprint : any → string) (local_time quote : string → string) (json : any → string).
Context (parse_duration : string → option Z).
(** The time of day of a moment, and a duration, rounded to seconds or to milliseconds. *)
Context (clock seconds milliseconds : Z → string).

Definition opening (operation : string) : string :=
  if bool_decide (operation = "weaver-start") then "Starting weaver…"
  else if bool_decide (operation = "weaver-start-temp") then "Starting temporary weaver…"
  else if bool_decide (operation = "weaver-restart") then "Restarting weaver…"
  else if bool_decide (operation = "weaver-stop") then "Stopping weaver…"
  else "".

Definition progress_text (l : progress_line) : string :=
  match l with
  | Announce now state =>
      event color (clock now)
        (if bool_decide (state = "probing") then "Verifying replacement; current weaver is still serving…"
         else "Replacing weaver; waiting for it to be ready…")
  | StillWaiting now => event color (clock now) ("Still waiting for weaver (" +:+ seconds now +:+ " elapsed)…")
  end.

Definition shown_result (operation : string) (v : any) (elapsed : option string) (now : string)
    : result command_error (list string) :=
  match result_lines color sprint local_time quote operation v elapsed now with
  | Ok lines => Ok lines
  | Err e => Err (BadResult e)
  end.

(** The lines that are written, and the error of the command; [answer] is that of the one
    call without progress, [events] those of the loop. The error is [None] while the loop
    runs. *)
Definition runWeaverLifecycle (jsonOutput : bool) (operation : string) (cwd : option string)
    (workspace name readyTimeout : string) (details : bool) (answer : result string any)
    (events : list progress_event) : list string * option (result command_error unit) :=
  match lifecycle_request parse_duration cwd workspace name readyTimeout details with
  | Err e => ([], Some (Err e))
  | Ok _ =>
      if jsonOutput || bool_decide (operation = "weaver-status") then
        match answer with
        | Err e => ([], Some (Err (CallFailed e)))
        | Ok v =>
            match writeStatusResult color sprint local_time quote json jsonOutput operation v None "" with
            | Ok lines => (lines, Some (Ok tt))
            | Err e => ([], Some (Err (BadResult e)))
            end
        end
      else
        let '(lines, out) := progress operation "" 0 events in
        let before := event color (clock 0) (opening operation) :: (progress_text <$> lines) in
        match out with
        | None => (before, None)
        | Some (Err e) => (before, Some (Err e))
        | Some (Ok (now, v)) =>
            match shown_result operation v (if (0 <? now)%Z then Some (milliseconds now) else None) (clock now) with
            | Ok lines => (before ++ lines, Some (Ok tt))
            | Err e => (before, Some (Err e))
            end
        end
  end.
End lifecycle.

(** ** Lemmas: the loop *)

(** What an event makes of the loop, if it ends it. *)
Definition ending (operation : string) (e : progress_event) : option (result command_error (Z * any)) :=
  match e with
  | Completed now (Ok v) => Some (Ok (now, v))
  | Completed _ (Err e) => Some (Err (CallFailed e))
  | Tick _ status =>
      if bool_decide (operation = "weaver-restart") then
        match progress_state status with Err e => Some (Err e) | Ok _ => None end
      else None
  end.

(** The loop ends with the first event that ends it: the end of the call, or, for a
    restart, a state that cannot be read. *)
Lemma progress_outcome operation lastState lastReport events :
  (progress operation lastState lastReport events).2 = head (omap (ending operation) events).
Proof.
  revert lastState lastReport. induction events as [|[now status|now [v|e]] events IH]; intros lastState lastReport;
    [done| |done..].
  cbn. case_bool_decide.
  - destruct (progress_state status) as [state|e]; [|done].
    destruct (still_waiting now lastReport) as [report last]. specialize (IH state last).
    by destruct (progress operation state last events).
  - destruct (still_waiting now lastReport) as [report last]. specialize (IH lastState last).
    by destruct (progress operation lastState last events).
Qed.

Definition waits (l : list progress_line) : list Z :=
  omap (λ x, match x with StillWaiting now => Some now | _ => None end) l.

Definition announcements (l : list progress_line) : list string :=
  omap (λ x, match x with Announce _ state => Some state | _ => None end) l.

(** Every time is at least the interval after the one before. *)
Fixpoint spaced (last : Z) (times : list Z) : Prop :=
  match times with
  | [] => True
  | t :: times => (last + report_interval <= t)%Z ∧ spaced t times
  end.

(** The states of the readable ticks of a restart, as far as the loop goes. *)
Fixpoint seen_states (events : list progress_event) : list string :=
  match events with
  | Tick _ status :: events =>
      match progress_state status with Ok state => state :: seen_states events | Err _ => [] end
  | _ => []
  end.

(** The states that are news, after the state [last]. *)
Fixpoint changes (last : string) (states : list string) : list string :=
  match states with
  | [] => []
  | state :: states =>
      (if bool_decide (state = last) then [] else
       if bool_decide (state = "probing") || bool_decide (state = "restarting") then [state] else [])
      ++ changes state states
  end.

Lemma waiting_spaced now lastReport report last times :
  still_waiting now lastReport = (report, last) → spaced last times → spaced lastReport (waits report ++ times).
Proof.
  unfold still_waiting. intros H Hs. destruct (Z.leb_spec report_interval (now - lastReport)).
  - injection H as <- <-. cbn. split; [lia|done].
  - injection H as <- <-. done.
Qed.

Lemma waiting_silent now lastReport report last :
  still_waiting now lastReport = (report, last) → announcements report = [].
Proof. unfold still_waiting. intros H. destruct (_ <=? _)%Z; by injection H as <- <-. Qed.

Lemma announced_waits now state : waits (announced now state) = [].
Proof. unfold announced. by destruct (_ || _). Qed.

Lemma waits_app l k : waits (l ++ k) = waits l ++ waits k.
Proof. apply omap_app. Qed.

Lemma announcements_app l k : announcements (l ++ k) = announcements l ++ announcements k.
Proof. apply omap_app. Qed.

Lemma news_silent (b : bool) now state : waits (if b then [] else announced now state) = [].
Proof. destruct b; [done|apply announced_waits]. Qed.

(** The loop says that it still waits only when ten seconds passed since it last did, and
    announces, for a restart only, exactly the changes to a state that has a text. *)
Theorem progress_reports operation lastState lastReport events :
  let lines := (progress operation lastState lastReport events).1 in
  spaced lastReport (waits lines) ∧
  announcements lines = (if bool_decide (operation = "weaver-restart") then changes lastState (seen_states events) else []).
Proof.
  cbv zeta. revert lastState lastReport.
  induction events as [|[now status|now [v|e]] events IH]; intros lastState lastReport;
    [by case_bool_decide| |by case_bool_decide..].
  cbn. case_bool_decide as Hop.
  - destruct (progress_state status) as [state|e]; [|done].
    destruct (still_waiting now lastReport) as [report last] eqn:Ew. specialize (IH state last).
    destruct (progress operation state last events) as [lines out]. destruct IH as [Hs Ha]. cbn [fst snd] in Hs, Ha |- *.
    rewrite !waits_app, !announcements_app, Ha, news_silent, (waiting_silent _ _ _ _ Ew).
    split; [by apply (waiting_spaced _ _ _ _ _ Ew)|]. cbn. f_equal.
    case_bool_decide; [done|]. unfold announced. by destruct (_ || _).
  - destruct (still_waiting now lastReport) as [report last] eqn:Ew. specialize (IH lastState last).
    destruct (progress operation lastState last events) as [lines out]. destruct IH as [Hs Ha]. cbn [fst snd] in Hs, Ha |- *.
    rewrite waits_app, announcements_app, Ha, (waiting_silent _ _ _ _ Ew).
    split; [by apply (waiting_spaced _ _ _ _ _ Ew)|done].
Qed.

(** ** Lemmas: timeouts *)

(** C40: A timeout that is given is at least a millisecond and is rounded down to those, and the
    call's deadline covers it with five seconds more, but for the last five seconds that a
    duration can hold. *)
Theorem timeout_covered parse value ms operation autoStart :
  (∀ s d, parse s = Some d → (- 2 ^ 63 <= d < 2 ^ 63)%Z) →
  parseReadyTimeout parse value = Ok ms →
  (value = "" ∧ ms = 0 ∨
   ∃ d, parse value = Some d ∧ (0 < ms)%Z ∧ (ms * millisecond <= d < (ms + 1) * millisecond)%Z)%Z ∧
  (0 <= ms <= 9223372036854)%Z ∧
  (operation ∈ ready_operations → (ms <= 9223372031854)%Z →
   deadline operation autoStart ms
   = ((if 0 <? ms then ms * millisecond else defaultWeaverReadyTimeout) + 5 * second)%Z).
Proof.
  intros Hp H. unfold parseReadyTimeout in H.
  assert (operation ∈ ready_operations → (ms <= 9223372031854)%Z → deadline operation autoStart ms
    = ((if 0 <? ms then ms * millisecond else defaultWeaverReadyTimeout) + 5 * second)%Z) as Hd.
  { intros Ho Hms. destruct (deadline_covers operation autoStart ms Hms) as [_ Hd]. apply Hd. by left. }
  case_bool_decide as Hv; [injection H as <-; split_and!; auto; lia|].
  destruct (parse value) as [d|] eqn:Ed; [|done]. apply Hp in Ed as Hb.
  destruct (Z.leb_spec d 0); [done|]. destruct (Z.ltb_spec d millisecond); [done|]. injection H as <-.
  unfold millisecond in *. rewrite Z.quot_div_nonneg in * by lia.
  pose proof (Z.div_mod d 1000000 ltac:(lia)) as Hdm. pose proof (Z.mod_pos_bound d 1000000 ltac:(lia)).
  split_and!; [|lia|lia|exact Hd]. right. exists d. split; [done|]. split; lia.
Qed.

(** The longest duration gives a deadline in the past. *)
Example longest_timeout :
  parseReadyTimeout (λ _, Some (2 ^ 63 - 1)%Z) "2562047h47m16.854775807s" = Ok 9223372036854%Z ∧
  (deadline "weaver-start" false 9223372036854 < 0)%Z.
Proof. by vm_compute. Qed.

(** ** Lemmas: the attachment *)

(** What is run attaches to the endpoint of a running weaver, in its source: a host and a
    port between 1 and 65535. *)
Theorem repl_attaches float_int cwd workspace stdin answer command :
  runWeaverRepl float_int cwd workspace stdin answer = Ok command →
  ∃ status host port, answer = Ok (AObject status) ∧
    status !! "state" = Some (AString "running") ∧ status !! "source" = Some (AString (rp_dir command)) ∧
    host ≠ "" ∧ (0 < port <= 65535)%Z ∧
    rp_args command = ["-M"; "-m"; "millstrand.repl"; if stdin then "--attach-stdin" else "--attach"; host; pretty port].
Proof.
  intros H. unfold runWeaverRepl, required_text, nreplEndpoint, parseNreplPort in H.
  apply result_bind_ok in H as (w & _ & H).
  destruct answer as [[]|]; try done. exists m.
  destruct (m !! "state") as [[]|]; try done. destruct (as_text (m !! "source")) as [source|] eqn:Es; [|by inv_ok].
  assert (m !! "source" = Some (AString source)) as -> by (destruct (m !! "source") as [[]|]; naive_solver).
  cbn [as_text] in H. inv_ok. bools. subst. destruct (m !! "nrepl") as [[]|]; try done.
  destruct (as_text (m0 !! "host")) as [host|]; [|done]. inv_ok. bools.
  match goal with H : match ?p with Some _ => _ | None => _ end = Ok _ |- _ => destruct p as [port|]; [|done] end.
  inv_ok. bools. exists host, port. split_and!; try done; try lia. by destruct stdin.
Qed.

(** ** Lemmas: the result of a restart *)

Lemma sent_rows v rows : restartDiagnosticRows v = Some rows → restartDiagnosticRows (received_value v) = Some rows.
Proof.
  destruct v; cbn; try done. intros [= ->]. induction rows as [|row rows IH]; [done|].
  cbn in *. by rewrite IH.
Qed.

Lemma rows_valid rows :
  check_from (λ i row, at_index i (validateRestartDiagnostic row)) 0 rows = Ok tt →
  Forall (λ row, validateRestartDiagnostic row = Ok tt) rows.
Proof.
  rewrite check_from_ok, Forall_lookup. intros H i row Hi. specialize (H i row Hi). unfold at_index in H.
  by destruct (validateRestartDiagnostic row) as [[]|].
Qed.

Lemma validated_displayable sprint operation m withOperation allow :
  operation ≠ "status" → validateRestartProjection (Some m) withOperation allow = Ok tt →
  displayable sprint operation (received m).
Proof.
  intros Hop H. unfold validateRestartProjection in H.
  apply result_bind_ok in H as ([] & _ & H). apply result_bind_ok in H as ([] & Hkeys & H).
  apply result_bind_ok in H as ([] & _ & H). apply ensure_ok in Hkeys.
  destruct (as_text (m !! "state")) as [s|] eqn:Es; [|done]. cbn [mbind option_bind] in H.
  destruct (parse_state s) as [st|] eqn:Ep; [|done].
  apply result_bind_ok in H as ([] & _ & H). apply result_bind_ok in H as ([] & Hrows & _).
  split.
  - intros v. rewrite lookup_received. destruct (m !! "restart_failure") as [x|] eqn:Ex; [|done]. exfalso.
    unfold only_keys in Hkeys. rewrite forallb_forall in Hkeys. specialize (Hkeys ("restart_failure", x)).
    rewrite <-list_elem_of_In, elem_of_map_to_list in Hkeys. specialize (Hkeys Ex). bools.
    revert Hkeys. cbn [fst]. destruct withOperation; is_known.
  - intros v. rewrite lookup_received. destruct (m !! "diagnostics") as [x|] eqn:Ex; [|done].
    intros [= <-]. cbn [validate_rows] in Hrows. destruct (restartDiagnosticRows x) as [[|row rows]|] eqn:Er; [done| |done].
    exists (row :: rows). split; [by apply sent_rows|by apply rows_valid].
  - rewrite bool_decide_eq_false_2 by done. rewrite (statusText_string _ _ _ s).
    + assert (s = state_name st) as ->; [|by destruct st; is_known].
      unfold parse_state in Ep. repeat case_bool_decide; by simplify_eq.
    + rewrite lookup_received. destruct (m !! "state") as [[]|]; naive_solver.
Qed.

(** A restart whose result mill may send succeeds as a command too: the result is shown,
    and its lines follow those of the progress. *)
Theorem restart_shown color sprint local_time quote json parse clock seconds milliseconds
    cwd workspace name readyTimeout details answer events now m :
  validateRestartResult (Some m) = Ok tt →
  (∃ w, lifecycle_request parse cwd workspace name readyTimeout details = Ok w) →
  head (omap (ending "weaver-restart") events) = Some (Ok (now, AObject (received m))) →
  ∃ before after,
    runWeaverLifecycle color sprint local_time quote json parse clock seconds milliseconds false "weaver-restart"
      cwd workspace name readyTimeout details answer events = (before ++ after, Some (Ok tt)) ∧
    after ≠ [].
Proof.
  intros Hm [w Hw] He. unfold runWeaverLifecycle. rewrite Hw. cbn [orb].
  rewrite bool_decide_eq_false_2 by done.
  assert ((progress "weaver-restart" "" 0 events).2 = Some (Ok (now, AObject (received m)))) as Hp.
  { by rewrite progress_outcome. }
  destruct (progress "weaver-restart" "" 0 events) as [lines out]. cbn in Hp. subst out.
  apply (validated_displayable sprint "weaver-restart" m true false) in Hm; [|done]. unfold shown_result.
  destruct (proj2 (displays color sprint local_time quote "weaver-restart" (received m)
    (if (0 <? now)%Z then Some (milliseconds now) else None) (clock now)) Hm) as [l Hl].
  rewrite Hl. eexists _, l. split; [done|]. intros ->. unfold result_lines in Hl.
  apply result_bind_ok in Hl as (? & _ & Hl). apply result_bind_ok in Hl as (? & _ & Hl).
  apply result_bind_ok in Hl as (? & _ & Hl). by apply result_bind_ok in Hl as ([] & _ & Hl).
Qed.

(** ** Examples *)

Definition restart_answer_sample : object :=
  <["transition_id" := AString "restart-1"]> (<["generation_id" := AString "generation-2"]>
    (<["state" := AString "running"]> (<["workspace" := AString "/w/a"]> (<["operation" := AString "restart"]> ∅)))).

Definition tick_state (s : string) : result string any := Ok (AObject (weaverRestartStatus (parse_state s))).

Definition restart_events : list progress_event :=
  [Tick (1 * second) (tick_state "probing"); Tick (2 * second) (tick_state "probing");
   Tick (11 * second) (tick_state "restarting"); Completed (12 * second) (Ok (AObject (received restart_answer_sample)))].

Definition sample_command (events : list progress_event) : list string * option (result command_error unit) :=
  runWeaverLifecycle false (λ _, "?") (λ s, s) (λ s, s) (λ _, "{}") (λ _, None) (λ _, "12:00:00") (λ _, "11s")
    (λ _, "12s") false "weaver-restart" (Some "/w/a") "" "" "" false (Err "no") events.

Example restart_lines_shown :
  sample_command restart_events
  = (["12:00:00  Restarting weaver…"; "12:00:00  Verifying replacement; current weaver is still serving…";
      "12:00:00  Replacing weaver; waiting for it to be ready…"; "12:00:00  Still waiting for weaver (11s elapsed)…";
      "12:00:00  Weaver restart complete (12s)"; "  Workspace  /w/a"], Some (Ok tt)).
Proof. by vm_compute. Qed.

Lemma restart_shown_witness :
  ∃ before after, sample_command restart_events = (before ++ after, Some (Ok tt)) ∧ after ≠ [].
Proof.
  apply (restart_shown false (λ _, "?") (λ s, s) (λ s, s) (λ _, "{}") (λ _, None) (λ _, "12:00:00") (λ _, "11s")
    (λ _, "12s") (Some "/w/a") "" "" "" false (Err "no") restart_events (12 * second) restart_answer_sample).
  - by vm_compute.
  - eexists. reflexivity.
  - reflexivity.
Defined.

Lemma timeout_covered_witness :
  parseReadyTimeout (λ _, Some (90 * second)%Z) "90s" = Ok 90000%Z ∧
  deadline "weaver-start" false 90000 = (95 * second)%Z.
Proof.
  split; [by vm_compute|].
  destruct (timeout_covered (λ _, Some (90 * second)%Z) "90s" 90000 "weaver-start" false) as (_ & _ & H).
  - intros s d [= <-]. unfold second. lia.
  - by vm_compute.
  - rewrite H; [by vm_compute|is_known|lia].
Defined.

Definition repl_status : object :=
  <["nrepl" := AObject (<["port" := ANumber "7888"]> {["host" := AString "127.0.0.1"]})]>
    (<["source" := AString "/src"]> {["state" := AString "running"]}).

Lemma repl_attaches_witness :
  ∃ host port, host ≠ "" ∧ (0 < port <= 65535)%Z ∧
    ["-M"; "-m"; "millstrand.repl"; "--attach"; "127.0.0.1"; "7888"]
    = ["-M"; "-m"; "millstrand.repl"; "--attach"; host; pretty port].
Proof.
  destruct (repl_attaches Atoi (Some "/w/a") "" false (Ok (AObject repl_status))
    (mkRepl ["-M"; "-m"; "millstrand.repl"; "--attach"; "127.0.0.1"; "7888"] "/src"))
    as (status & host & port & _ & _ & _ & Hh & Hp & Ha); [by vm_compute|].
  exists host, port. split_and!; [done|lia|lia|exact Ha].
Defined.
