(* ===== verification/Server.v ===== *)
(** The requests that mill serves (src/cli/cmd/mill/main.go, [handle]): what is checked of
    a request, what each operation does, in order, and the one answer that it gets. The
    operations of other components are those of their files; starts, restarts and stops,
    which have their own state, are an interface. *)

From stdpp Require Import pretty.
From S2P Require Export Commands.
From S2P Require Stealth Autostart.

(** ** Requests *)

(** A field of a struct that holds [init], from the members that name it. *)
Definition bool_from (init : bool) (l : list doc) : option bool :=
  foldl (λ acc d, b ← acc; match d with DBool c => Some c | DNull => Some b | _ => None end) (Some init) l.

Definition text_pointer_from (init : option string) (l : list doc) : option (option string) :=
  foldl (λ acc d, o ← acc; match d with DString s => Some (Some s) | DNull => Some None | _ => None end) (Some init) l.

Record mill_request := mkMillRequest {
  mq_ProtocolVersion : Z; mq_RequestID : string; mq_MillID : string; mq_Operation : string;
  mq_World : world_request; mq_Payload : option jobject;
}.

Definition zero_world : world_request := mkWorldRequest "" "" "" None false 0 false false.

(** The member [source] is not read by any operation. *)
Definition world_from (init : world_request) (d : doc) : option world_request :=
  match d with
  | DNull => Some init
  | DObject l =>
      cwd ← string_from (wr_CWD init) (field_values "cwd" l);
      dir ← string_from (wr_ConfigDir init) (field_values "config_dir" l);
      _ ← string_field (field_values "source" l);
      name ← string_from (wr_Name init) (field_values "name" l);
      pool ← text_pointer_from (wr_JVMPool init) (field_values "jvm_pool" l);
      auto ← bool_from (wr_AutoStart init) (field_values "auto_start" l);
      ms ← int_from (wr_ReadyTimeoutMs init) (field_values "ready_timeout_ms" l);
      stealth ← bool_from (wr_Stealth init) (field_values "stealth" l);
      details ← bool_from (wr_Details init) (field_values "details" l);
      Some (mkWorldRequest cwd dir name pool auto ms stealth details)
  | _ => None
  end.

Definition world_field (l : list doc) : option world_request :=
  foldl (λ acc d, w ← acc; world_from w d) (Some zero_world) l.

Section decode.
Context (float_text : string → option string).

Definition decodeMillRequest (d : doc) : option mill_request :=
  match d with
  | DObject l =>
      version ← int_field (field_values "protocol_version" l);
      id ← string_field (field_values "request_id" l);
      mill ← string_field (field_values "mill_id" l);
      operation ← string_field (field_values "operation" l);
      world ← world_field (field_values "world" l);
      payload ← map_from float_text None (field_values "payload" l);
      Some (mkMillRequest version id mill operation world payload)
  | _ => None
  end.
End decode.

Definition is_space (c : ascii) : bool :=
  bool_decide (c = " "%char) || bool_decide (c = ascii_of_nat 9) || bool_decide (c = ascii_of_nat 13)
  || bool_decide (c = ascii_of_nat 10).

(** What is buffered after the request. *)
Definition drainRequestWhitespace (buffered : list ascii) : bool := forallb is_space buffered.

(** ** Answers *)

Record rerror := mkRError { rr_Type : string; rr_Code : string; rr_Message : string; rr_Details : object }.

Record response := mkResponse { rp_RequestID : string; rp_OK : bool; rp_Result : any; rp_Error : option rerror }.

Definition detailed (typ code message detail : string) : rerror :=
  mkRError typ code message {["detail" := AString detail]}.

Definition errorResponse (requestID typ code message detail : string) : response :=
  mkResponse requestID false ANil (Some (detailed typ code message detail)).

Definition result_response (requestID : string) (r : result rerror any) : response :=
  match r with
  | Ok v => mkResponse requestID true v None
  | Err e => mkResponse requestID false ANil (Some e)
  end.

(** What a connection gets: an answer, or it is handed on to process control, or to the
    relay of an invocation. *)
Inductive served :=
| Answered (r : response)
| ToProcessControl (raw : gmap string doc)
| ToInvoke (req : mill_request).

(** ** State *)

Record serve := mkServe { sv_mill : mill_state; sv_exclude : Stealth.text_file }.

Definition sv_files (s : serve) : files := po_files (ml_pools (sv_mill s)).

Definition with_mill_files (fs : files) (m : mill_state) : mill_state :=
  let ms := ml_members m in
  with_member_state (mkMembership (with_files fs (ms_pools ms)) (ms_registry ms)) m.

Definition set_files (fs : files) (s : serve) : serve := mkServe (with_mill_files fs (sv_mill s)) (sv_exclude s).

Notation SM := (ST serve rerror).

(** What fails in the operations that mill's lifecycle has: an error that is declared for
    the caller, a failed preparation of dependencies, or any other. *)
Inductive service_error :=
| Declared (e : rerror)
| DependencyFailed (diagnostic : any) (text : string)
| Failed (text : string).

(** The lifecycle operations, of a temporary weaver if the flag is set. *)
Class Lifecycle := {
  startWeaver : bool → world_request → mill_state → mill_state * result service_error object;
  restartWeaver : world_request → mill_state → mill_state * result service_error object;
  stopWeaver : world_request → mill_state → mill_state * result string object;
}.

(** The texts of errors. *)
Record texts := mkTexts {
  tx_malformed : string; tx_config : config_error → string; tx_stealth : Stealth.stealth_error → string;
  tx_remediation : Stealth.stealth_target → Stealth.marker_state → string;
  tx_target : Stealth.stealth_target → string; tx_state : Stealth.marker_state → string;
  tx_init : init_error → string; tx_register : Autostart.register_error → string;
  tx_restart : restart_error → string; tx_list : list_error → string; tx_world : world_error → string;
  tx_status : Stealth.stealth_status → string;
}.

(** The answers to one request. *)
Record serve_answers := mkServeAnswers {
  sa_init : init_answers;
  sa_repo_root : result Stealth.stealth_error string;
  sa_auto_start : option write_step;
  sa_register : option write_step;
  sa_glance : glance;
  sa_pools : pool_glance;
  sa_list : list_answers;
  sa_source : option string;
}.

Section server.
Context (E : penv) (lstat : string → marker) (git : git_query → string → option string).
Context (can_mkdir can_stat can_write : string → bool).
Context (tracked : string → option bool) (exclude_path : option string) (exclude_writable : bool).
Context (T : texts) `{Lifecycle}.

Definition domain_error (code message detail : string) : rerror := detailed "domain" code message detail.
Definition protocol_error (code message detail : string) : rerror := detailed "protocol" code message detail.
Definition init_failed (detail : string) : rerror := domain_error "mill/init-failed" "mill init failed" detail.

(** ** Initialising a workspace *)

Definition validateInitRequest (w : world_request) : result string unit :=
  ensure (negb (wr_Stealth w && negb (is_blank (wr_ConfigDir w)))) "stealth init cannot select an explicit workspace" ;;
  match wr_JVMPool w with
  | Some pool => ensure (negb (is_blank pool)) "jvm_pool must be a non-blank string when present"
  | None => Ok tt
  end.

Definition bootstrap_world (cwd configDir : string) : ST files config_error World :=
  BootstrapWorld (pe_getwd E) (pe_xdg E) (pe_home E) (pe_eval_symlinks E) (pe_WorldHash E) lstat git
    can_mkdir can_stat can_write cwd configDir.

Definition refusal_error (path : string) (target : Stealth.stealth_target) (state : Stealth.marker_state) : rerror :=
  let remediation := tx_remediation T target state in
  if is_blank path || is_blank remediation then init_failed (tx_stealth T (Stealth.Refusal path target state)) else
  mkRError "domain" "mill/init-stealth-refused" "mill stealth init refused"
    (assign [("path", AString path); ("target", AString (tx_target T target)); ("state", AString (tx_state T state));
             ("remediation", AString remediation)] ∅).

(** The world that is there after the bootstrap, and the report of a stealth one. *)
Definition bootstrap (a : serve_answers) (w : world_request)
    : SM (World * option (string * Stealth.stealth_status)) := λ s,
  if wr_Stealth w then
    let '(d, r) := Stealth.BootstrapStealthWorld tracked exclude_path (bootstrap_world (wr_CWD w) "") exclude_writable
                     (sa_repo_root a) (Stealth.mkDisk (sv_files s) (sv_exclude s)) in
    let s := mkServe (sv_mill (set_files (Stealth.d_files d) s)) (Stealth.d_exclude d) in
    match r with
    | Ok (world, report) => (s, Ok (world, Some report))
    | Err (Stealth.Refusal path target state) => (s, Err (refusal_error path target state))
    | Err e => (s, Err (init_failed (tx_stealth T e)))
    end
  else
    let '(fs, r) := bootstrap_world (wr_CWD w) (wr_ConfigDir w) (sv_files s) in
    (set_files fs s, match r with Ok world => Ok (world, None) | Err e => Err (init_failed (tx_config T e)) end).

Definition init_error_response (e : init_error) : rerror :=
  match e with
  | IEStopRequired dir pool host =>
      let '(code, details) := poolStopRequiredError dir pool host in
      mkRError "domain" code "stop the live JVM pool before restarting with isolated configuration" details
  | _ => init_failed (tx_init T e)
  end.

Definition reconcile_pool (a : serve_answers) (world : World) (w : world_request) : SM string := λ s,
  let m := sv_mill s in
  let '(ms, r) := reconcileInitPool E lstat git (sa_init a) (w_ConfigDir world) (wr_CWD w) (wr_JVMPool w) (ml_members m) in
  (mkServe (with_member_state ms m) (sv_exclude s),
   match r with Ok pool => Ok pool | Err e => Err (init_error_response e) end).

Definition set_auto_start (a : serve_answers) (world : World) : SM unit := λ s,
  let '(fs, r) := SetAutoStart (sv_files s) (w_ConfigDir world) true (sa_auto_start a) in
  (set_files fs s, match r with Ok _ => Ok tt | Err e => Err (init_failed (tx_config T e)) end).

Definition register (a : serve_answers) (configDir cwd name : string) (failed : string → rerror) : SM unit := λ s,
  let '(fs, r) := Autostart.registerAutoStart (pe_getwd E) (pe_xdg E) (pe_home E) (pe_eval_symlinks E) (pe_WorldHash E)
                    (sv_files s) configDir cwd name (sa_register a) in
  (set_files fs s, match r with Ok _ => Ok tt | Err e => Err (failed (tx_register T e)) end).

(** [on_fail] is what is answered for an error that is not declared. *)
Definition lifecycle (op : mill_state → mill_state * result service_error object) (on_fail : service_error → rerror)
    : SM object := λ s,
  let '(m, r) := op (sv_mill s) in
  (mkServe m (sv_exclude s),
   match r with Ok v => Ok v | Err (Declared e) => Err e | Err e => Err (on_fail e) end).

Definition service_text (e : service_error) : string :=
  match e with Declared e => rr_Message e | DependencyFailed _ t => t | Failed t => t end.

Definition init_start_failed (e : service_error) : rerror :=
  domain_error "mill/init-weaver-start-failed" "mill init weaver start failed" (service_text e).

Definition isRetainedFailedStart (status : object) : bool := bool_decide (text "state" status = "failed").

Definition retainedFailedInitResponse (status : object) : rerror :=
  mkRError "domain" "mill/init-weaver-start-failed" "mill init weaver start failed" {["status" := AObject status]}.

(** The automatic start of an initialised workspace: the setting, its registration, and
    the first start. *)
Definition auto_start (a : serve_answers) (world : World) (w : world_request) : SM object :=
  set_auto_start a world ;;
  register a (w_ConfigDir world) (wr_CWD w) "" init_failed ;;
  started ← lifecycle (startWeaver false w) init_start_failed;
  st_lift (ensure (negb (isRetainedFailedStart started)) (retainedFailedInitResponse started)) ;;
  mret started.

Definition stealth_result (world : World) (report : string * Stealth.stealth_status) : object :=
  assign [("config_dir", AString (w_ConfigDir world)); ("config_file", AString (w_ConfigFile world));
          ("stealth", AObject {["git_exclude" :=
             AObject (assign [("path", AString report.1); ("status", AString (tx_status T report.2))] ∅)]})] ∅.

Definition valid_stealth_result (world : World) (report : string * Stealth.stealth_status) : bool :=
  negb (is_blank (w_ConfigDir world)) && negb (is_blank (w_ConfigFile world))
  && match Stealth.Validate report with Ok _ => true | Err _ => false end.

(** The result of an init that is not stealth. *)
Definition init_result (world : World) (pool : string) (started : option object) : object :=
  let base := assign [("config_dir", AString (w_ConfigDir world)); ("config_file", AString (w_ConfigFile world))] ∅ in
  let base := if bool_decide (pool = "") then base else <["jvm_pool" := AString pool]> base in
  match started with
  | Some status => assign [("auto_start", ABool true); ("weaver", AObject status)] base
  | None => base
  end.

Definition serve_init (a : serve_answers) (w : world_request) : SM any :=
  match validateInitRequest w with
  | Err e => st_fail (domain_error "mill/init-invalid-request" "invalid mill init request" e)
  | Ok _ => mret tt
  end ;;
  '(world, report) ← bootstrap a w;
  pool ← reconcile_pool a world w;
  started ← (if wr_AutoStart w then s ← auto_start a world w; mret (Some s) else mret None);
  match report with
  | Some report =>
      st_lift (ensure (valid_stealth_result world report) (init_failed "invalid stealth init result")) ;;
      mret (AObject (stealth_result world report))
  | None => mret (AObject (init_result world pool started))
  end.
(** ** The other operations *)

(** The world, with the name that its statuses show. *)
Definition status_world (w : World) : world :=
  mkWorld (w_ConfigDir w) (w_StateDir w) (w_DataDir w) (w_DBPath w)
    (match name_of E (w_ConfigDir w) with Ok n => n | Err _ => "" end).

Definition resolve (w : world_request) : serve → result world_error world := λ s,
  selected ← resolveLifecycleWorld (pe_getwd E) (pe_xdg E) (pe_home E) (pe_eval_symlinks E) (pe_WorldHash E) lstat git
               (sv_files s) (wr_CWD w) (wr_ConfigDir w);
  Ok (status_world selected).

(** A world that is resolved, or the operation's own error. *)
Definition resolved_world (w : world_request) (failed : string → rerror) : SM world := λ s,
  (s, match resolve w s with Ok x => Ok x | Err e => Err (failed (tx_world T e)) end).

Definition on_mill {A} (op : MM A) (failed : init_error → rerror) : SM A := λ s,
  let '(m, r) := op (sv_mill s) in
  (mkServe m (sv_exclude s), match r with Ok x => Ok x | Err e => Err (failed e) end).

Definition start_failed (message detail : string) : rerror := domain_error "mill/weaver-start-failed" message detail.

Definition start_error (e : service_error) : rerror :=
  match e with
  | DependencyFailed diagnostic _ =>
      mkRError "domain" "mill/weaver-start-failed" "weaver start failed" {["dependency" := diagnostic]}
  | _ => start_failed "weaver start failed" (service_text e)
  end.

(** A persistent start also registers the workspace, if its configuration asks for it. *)
Definition register_started (a : serve_answers) (w : world_request) : SM unit :=
  world ← resolved_world w (start_failed "weaver start failed");
  s ← st_get;
  match load E lstat git (sv_files s) (ConfigDir world) with
  | Err e => st_fail (start_failed "weaver start config read failed" (tx_config T e))
  | Ok (c, _) =>
      if AutoStart c
      then register a (ConfigDir world) (wr_CWD w) (wr_Name w) (start_failed "weaver start registration failed")
      else mret tt
  end.

Definition serve_start (a : serve_answers) (temporary : bool) (w : world_request) : SM any :=
  status ← lifecycle (startWeaver temporary w) start_error;
  (if temporary then mret tt else register_started a w) ;;
  mret (AObject status).

(** Only a valid projection is sent. *)
Definition serve_restart (w : world_request) : SM any :=
  status ← lifecycle (restartWeaver w)
             (λ e, domain_error "mill/weaver-restart-failed" "weaver restart failed" (service_text e));
  let projection := restartResultProjection status in
  match validateRestartResult (Some projection) with
  | Ok _ => mret (AObject projection)
  | Err e => st_fail (protocol_error "mill/weaver-restart-invalid-result" "weaver restart returned an invalid result"
                        (tx_restart T e))
  end.

Definition serve_restart_status (w : world_request) : SM any :=
  world ← resolved_world w (domain_error "mill/weaver-restart-status-failed" "weaver restart progress failed");
  s ← st_get;
  mret (AObject (weaverRestartStatus (t_state ∘ rv_t <$> ml_transitions (sv_mill s) !! ConfigDir world))).

(** The status is sent as it is, if its projection is valid, or if it has none. *)
Definition serve_status (a : serve_answers) (w : world_request) : SM any :=
  let failed := domain_error "mill/weaver-status-failed" "weaver status failed" in
  world ← resolved_world w failed;
  status ← on_mill (weaverStatus E lstat git (sa_glance a) (sa_pools a) (wr_Details w) world) (failed ∘ tx_init T);
  match status with
  | None => mret ANil
  | Some status =>
      match millStatusProjection status with
      | Some projection =>
          match validateMillStatusProjection (Some projection) (wr_Details w) with
          | Ok _ => mret (AObject status)
          | Err e => st_fail (protocol_error "mill/weaver-status-invalid-result"
                                "weaver status returned an invalid projection" (tx_restart T e))
          end
      | None => mret (AObject status)
      end
  end.

Definition serve_list (a : serve_answers) : SM any := λ s,
  let '(m, r) := weaverList E (sa_list a) (sv_mill s) in
  (mkServe m (sv_exclude s),
   match r with
   | Ok rows => Ok (AMaps rows)
   | Err e => Err (domain_error "mill/weaver-list-failed" "weaver list failed" (tx_list T e))
   end).

Definition serve_repl_context (a : serve_answers) (w : world_request) : SM any :=
  let failed := domain_error "mill/weaver-repl-context-failed" "weaver repl context failed" in
  world ← resolved_world w failed;
  status ← on_mill (weaverReplContext E (sa_glance a) (sa_source a) world) (failed ∘ tx_init T);
  mret (AObject status).

Definition serve_stop (w : world_request) : SM any := λ s,
  let '(m, r) := stopWeaver w (sv_mill s) in
  (mkServe m (sv_exclude s),
   match r with
   | Ok status => Ok (AObject status)
   | Err e => Err (domain_error "mill/weaver-stop-failed" "weaver stop failed" e)
   end).

(** What mill says of itself. *)
Definition mill_status (meta : MillMetadata) : object :=
  assign [("healthy", ABool true); ("version", AString (pe_Version E)); ("build_id", AString (mm_MillBuild meta));
          ("protocol_version", AInt MillProtocolVersion); ("pid", AInt (mm_PID meta));
          ("mill_id", AString (mm_MillID meta)); ("state_root", AString (mm_StateRoot meta));
          ("socket_path", AString (mm_SocketPath meta)); ("started_at", AString (mm_StartedAt meta))] ∅.

(** ** Serving a request *)

Definition operation_of (meta : MillMetadata) (a : serve_answers) (operation : string) (w : world_request) : SM any :=
  if bool_decide (operation = "status") || bool_decide (operation = "ping") then mret (AObject (mill_status meta))
  else if bool_decide (operation = "init") then serve_init a w
  else if bool_decide (operation = "weaver-start") then serve_start a false w
  else if bool_decide (operation = "weaver-start-temp") then serve_start a true w
  else if bool_decide (operation = "weaver-restart") then serve_restart w
  else if bool_decide (operation = "weaver-restart-status") then serve_restart_status w
  else if bool_decide (operation = "weaver-status") then serve_status a w
  else if bool_decide (operation = "weaver-list") then serve_list a
  else if bool_decide (operation = "weaver-repl-context") then serve_repl_context a w
  else if bool_decide (operation = "weaver-stop") then serve_stop w
  else st_fail (protocol_error "mill/unknown-operation" "unknown mill operation" operation).

Definition malformed (requestID detail : string) : response :=
  errorResponse requestID "protocol" "mill/protocol" "malformed mill request" detail.

(** A request of this protocol to this mill. *)
Definition check_request (meta : MillMetadata) (buffered : list ascii) (req : mill_request) : option response :=
  if negb (drainRequestWhitespace buffered) then Some (malformed (mq_RequestID req) "unexpected data after mill request")
  else if negb (bool_decide (mq_ProtocolVersion req = MillProtocolVersion)) then
    Some (errorResponse (mq_RequestID req) "protocol" "mill/protocol" "unsupported mill protocol"
            ("got v" +:+ pretty (mq_ProtocolVersion req) +:+ ", mill supports v" +:+ pretty MillProtocolVersion))
  else if bool_decide (mq_RequestID req = "") || negb (bool_decide (mq_MillID req = mm_MillID meta)) then
    Some (errorResponse (mq_RequestID req) "protocol" "mill/identity" "mill request identity mismatch" "")
  else None.

Definition serve_request (meta : MillMetadata) (a : serve_answers) (req : mill_request) (s : serve) : serve * served :=
  if bool_decide (mq_Operation req = "invoke") then (s, ToInvoke req)
  else
    let '(s, r) := operation_of meta a (mq_Operation req) (mq_World req) s in
    (s, Answered (result_response (mq_RequestID req) r)).

(** [frame] is the first value of the connection, if it is one; its members are sorted
    and the last of those with one key stays before the request is decoded. *)
Definition handle (float_text : string → option string) (meta : MillMetadata) (a : serve_answers) (frame : option doc)
    (buffered : list ascii) (s : serve) : serve * served :=
  match frame ≫= as_frame with
  | None => (s, Answered (malformed "" (tx_malformed T)))
  | Some raw =>
      let operation := default "" (raw !! "operation" ≫= into_string) in
      if HasPrefix operation "process." && bool_decide (raw !! "mill_id" = None) then (s, ToProcessControl raw)
      else
        match decodeMillRequest float_text (marshal_members raw) with
        | None => (s, Answered (malformed "" (tx_malformed T)))
        | Some req =>
            match check_request meta buffered req with
            | Some r => (s, Answered r)
            | None => serve_request meta a req s
            end
        end
  end.
End server.

(** ** Lemmas: answers *)

Section answers.
Context (E : penv) (lstat : string → marker) (git : git_query → string → option string).
Context (can_mkdir can_stat can_write : string → bool).
Context (tracked : string → option bool) (exclude_path : option string) (exclude_writable : bool).
Context (T : texts) `{Lifecycle}.
Context (float_text : string → option string) (meta : MillMetadata) (a : serve_answers).

Notation operation_of := (operation_of E lstat git can_mkdir can_stat can_write tracked exclude_path exclude_writable T meta a)
  (only parsing).
Notation handle := (handle E lstat git can_mkdir can_stat can_write tracked exclude_path exclude_writable T float_text meta a)
  (only parsing).

(** A request that mill works on: of its protocol, to it, with an identity, and followed
    by nothing but space. *)
Record accepted (frame : option doc) (buffered : list ascii) (req : mill_request) : Prop := {
  ac_decoded : ∃ raw, frame ≫= as_frame = Some raw ∧ decodeMillRequest float_text (marshal_members raw) = Some req;
  ac_alone : drainRequestWhitespace buffered = true;
  ac_version : mq_ProtocolVersion req = MillProtocolVersion;
  ac_id : mq_RequestID req ≠ "";
  ac_mill : mq_MillID req = mm_MillID meta;
}.

(** An answer is a result or an error, never both. *)
Definition proper (r : response) : Prop :=
  (rp_OK r = true ∧ rp_Error r = None) ∨ (rp_OK r = false ∧ rp_Result r = ANil ∧ is_Some (rp_Error r)).

Lemma proper_error id typ code message detail : proper (errorResponse id typ code message detail).
Proof using. clear. right. unfold errorResponse. by split_and!. Qed.

Lemma proper_result id r : proper (result_response id r).
Proof using. clear. destruct r; [by left|right]. by split_and!. Qed.

Lemma check_accepts frame buffered req raw :
  frame ≫= as_frame = Some raw → decodeMillRequest float_text (marshal_members raw) = Some req →
  match check_request meta buffered req with
  | Some r => rp_OK r = false ∧ proper r
  | None => accepted frame buffered req
  end.
Proof using.
  clear. intros Hf Hd. unfold check_request.
  destruct (drainRequestWhitespace buffered) eqn:Hb; cbn [negb]; [|split; [done|apply proper_error]].
  case_bool_decide as Hv; cbn [negb]; [|split; [done|apply proper_error]].
  case_bool_decide as Hid; cbn [orb]; [split; [done|apply proper_error]|].
  case_bool_decide as Hm; cbn [negb]; [|split; [done|apply proper_error]].
  split; try done. by exists raw.
Qed.

Lemma handled_cases frame buffered s s' out :
  handle frame buffered s = (s', out) →
  (s' = s ∧ ((∃ r, out = Answered r ∧ rp_OK r = false ∧ proper r) ∨ ∃ raw, out = ToProcessControl raw)) ∨
  (∃ req, accepted frame buffered req ∧
     (s' = s ∧ out = ToInvoke req ∨
      ∃ r, operation_of (mq_Operation req) (mq_World req) s = (s', r) ∧
           out = Answered (result_response (mq_RequestID req) r))).
Proof using.
  intros Hh. unfold Server.handle in Hh.
  destruct (frame ≫= as_frame) as [raw|] eqn:Ef.
  2:{ injection Hh as <- <-. left. split; [done|]. left. eexists. by split_and!; [done..|apply proper_error]. }
  destruct (HasPrefix _ _ && _).
  { injection Hh as <- <-. left. split; [done|]. right. by eexists. }
  destruct (decodeMillRequest float_text (marshal_members raw)) as [req|] eqn:Ed.
  2:{ injection Hh as <- <-. left. split; [done|]. left. eexists. by split_and!; [done..|apply proper_error]. }
  pose proof (check_accepts frame buffered req raw Ef Ed) as Hc.
  destruct (check_request meta buffered req) as [r|].
  { injection Hh as <- <-. left. split; [done|]. left. exists r. by destruct Hc. }
  right. exists req. split; [done|]. unfold serve_request in Hh. case_bool_decide.
  - injection Hh as <- <-. by left.
  - right. destruct (Server.operation_of _ _ _ _ _ _ _ _ _ _ _ _ _ _ s) as [s1 r]. injection Hh as <- <-. by exists r.
Qed.


(** ** Lemmas: questions *)

Definition asks {A} (op : SM A) : Prop :=
  ∀ s s' r, op s = (s', r) → reported (sv_mill s) (sv_mill s') ∧ sv_exclude s' = sv_exclude s.

Lemma asks_same {A} (op : SM A) : (∀ s, (op s).1 = s) → asks op.
Proof using. clear. intros Ho s s' r Hr. specialize (Ho s). rewrite Hr in Ho. cbn in Ho. by subst. Qed.

Lemma asks_bind {A B} (op : SM A) (f : A → SM B) : asks op → (∀ x, asks (f x)) → asks (op ≫= f).
Proof using.
  clear. intros Ho Hf s s' r Hr. apply st_bind_run in Hr as [(e & R & ->)|(x & s1 & R & Hr)]; [by eapply Ho|].
  apply Ho in R as [R1 R2]. apply Hf in Hr as [R3 R4]. split; [by eapply reported_trans|congruence].
Qed.

Lemma asks_mill {A} (op : MM A) failed : reports op → asks (on_mill op failed).
Proof using.
  clear. intros Ho s s' r. unfold on_mill. destruct (op (sv_mill s)) as [m x] eqn:Eo. apply Ho in Eo.
  by intros [= <- <-].
Qed.

Lemma asks_resolved w failed : asks (resolved_world E lstat git T w failed).
Proof using. by apply asks_same. Qed.

Definition questions : list string :=
  ["status"; "ping"; "weaver-restart-status"; "weaver-status"; "weaver-list"; "weaver-repl-context"].

Lemma questions_ask operation w : operation ∈ questions → asks (operation_of operation w).
Proof using.
  intros Hq. unfold questions in Hq. rewrite !elem_of_cons, elem_of_nil in Hq.
  destruct Hq as [->|[->|[->|[->|[->|[->|[]]]]]]]; unfold Server.operation_of; cbn [bool_decide decide orb].
  - by apply asks_same.
  - by apply asks_same.
  - apply asks_bind; [apply asks_resolved|]. intros world. by apply asks_same.
  - apply asks_bind; [apply asks_resolved|]. intros world.
    apply asks_bind; [apply asks_mill, reports_status|]. intros [status|]; [|by apply asks_same].
    destruct (millStatusProjection status) as [p|]; [|by apply asks_same].
    destruct (validateMillStatusProjection _ _); by apply asks_same.
  - change (asks (serve_list E T a)). intros s s' r. unfold serve_list. destruct (weaverList E (sa_list a) (sv_mill s)) as [m x] eqn:El.
    apply reports_list in El. by intros [= <- <-].
  - apply asks_bind; [apply asks_resolved|]. intros world.
    apply asks_bind; [apply asks_mill, reports_context|]. intros status. by apply asks_same.
Qed.

(** The requests that only ask change nothing that lasts: no file, no record, no row of
    the registry, no child, no restart and no exclude file. *)
Theorem questions_change_nothing frame buffered req s s' out :
  accepted frame buffered req → mq_Operation req ∈ questions → handle frame buffered s = (s', out) →
  reported (sv_mill s) (sv_mill s') ∧ sv_exclude s' = sv_exclude s.
Proof using.
  intros Ha Hq [(-> & _)|(req' & Ha' & Hout)]%handled_cases; [done|].
  destruct Hout as [(-> & _)|(r & Hr & _)]; [done|].
  assert (req' = req) as ->; [|by eapply questions_ask].
  destruct Ha as [(raw & Hf & Hd) _ _ _ _], Ha' as [(raw' & Hf' & Hd') _ _ _ _]. congruence.
Qed.
End answers.

(** ** Lemmas: starts and restarts *)

(** Files with a registration, and with a configuration file. *)
Definition registered (path dir cwd name : string) (fs : files) : files :=
  <[path := Holds (Some (Autostart.encodeRegistration (Autostart.mkRegistration dir cwd name true)))]> fs.

Definition configured (dir : string) (raw : gmap string doc) (fs : files) : files :=
  <[PathJoin [dir; ConfigFileName] := Holds (Some (marshal_members raw))]> fs.

Definition mill_files (m : mill_state) : files := po_files (ml_pools m).

Section starts.
Context (E : penv) (lstat : string → marker) (git : git_query → string → option string).
Context (T : texts) `{Lifecycle} (a : serve_answers).

(** Where the registration of a workspace is, and the directory that it names. *)
Definition registers (dir cwd path abs : string) : Prop :=
  Autostart.autostartPath (pe_getwd E) (pe_xdg E) (pe_home E) (pe_eval_symlinks E) (pe_WorldHash E) dir = Ok path ∧
  Abs (pe_getwd E) cwd = Some abs.

Lemma replaced_ok fs path d failing fs' u :
  Config.replace fs path d failing = (fs', Ok u) → fs' = <[path := Holds (Some d)]> fs.
Proof using. clear. unfold Config.replace. destruct failing; [done|]. by intros [= <- _]. Qed.

Lemma set_auto_start_ok world s s' u :
  set_auto_start T a world s = (s', Ok u) →
  ∃ raw, s' = set_files (configured (w_ConfigDir world) raw (sv_files s)) s ∧ raw !! "autoStart" = Some (DBool true).
Proof using.
  clear. unfold set_auto_start, SetAutoStart. intros Hs.
  destruct (sv_files s !! _) as [[|[[]|]]|]; try done.
  destruct (Config.replace _ _ _ _) as [fs r] eqn:Er. destruct r as [[]|]; [|done]. injection Hs as <- _.
  apply replaced_ok in Er as ->. eexists. split; [done|]. by rewrite lookup_insert_eq.
Qed.

Lemma register_cases dir cwd name failed s s' r :
  register E T a dir cwd name failed s = (s', r) →
  match r with
  | Ok _ => ∃ path abs, registers dir cwd path abs ∧ s' = set_files (registered path dir abs name (sv_files s)) s
  | Err _ => s' = set_files (sv_files s) s
  end.
Proof using.
  clear. unfold register, Autostart.registerAutoStart, registers. intros Hs.
  destruct (is_blank cwd); [by injection Hs as <- <-|].
  destruct (Abs (pe_getwd E) cwd) as [abs|] eqn:Ea; [|by injection Hs as <- <-].
  destruct (Autostart.autostartPath _ _ _ _ _ dir) as [path|] eqn:Ep; [|by injection Hs as <- <-].
  unfold Config.replace in Hs. destruct (sa_register a); injection Hs as <- <-; [done|]. by exists path, abs.
Qed.

Lemma set_same_files s : set_files (sv_files s) s = s.
Proof using. clear. by destruct s as [[[[]] ? ? ? ?] ?]. Qed.

Lemma auto_start_ok world w s s' started :
  auto_start E T a world w s = (s', Ok started) →
  ∃ raw path abs m,
    raw !! "autoStart" = Some (DBool true) ∧ registers (w_ConfigDir world) (wr_CWD w) path abs ∧
    startWeaver false w
      (with_mill_files (registered path (w_ConfigDir world) abs "" (configured (w_ConfigDir world) raw (mill_files m))) m)
    = (sv_mill s', Ok started) ∧ isRetainedFailedStart started = false.
Proof using.
  clear lstat git. intros Ha. unfold auto_start in Ha.
  apply st_bind_run in Ha as [(? & _ & [=])|(u1 & s1 & R1 & Ha)].
  apply st_bind_run in Ha as [(? & _ & [=])|(u2 & s2 & R2 & Ha)].
  apply st_bind_run in Ha as [(? & _ & [=])|(st & s3 & R3 & Ha)].
  apply st_bind_run in Ha as [(? & _ & [=])|(u4 & s4 & R4 & Ha)].
  unfold mret, st_ret in Ha. injection Ha as <- <-. injection R4 as <- R4. apply ensure_ok in R4. bools.
  apply set_auto_start_ok in R1 as (raw & -> & Hraw). apply register_cases in R2 as (path & abs & Hp & ->).
  exists raw, path, abs, (sv_mill s). split_and!; [done..| |done].
  unfold lifecycle in R3. match type of R3 with (let '(_, _) := ?x in _) = _ => destruct x as [m r] eqn:Em end.
  destruct r as [v|[]]; [|done..]. injection R3 as <- <-. exact Em.
Qed.

(** A start registers the workspace for automatic start only after it succeeded, never for
    a temporary weaver, and only if the configuration asks for it. *)
Theorem start_registers_asked temporary w s s' r :
  serve_start E lstat git T a temporary w s = (s', r) →
  let '(m, started) := startWeaver temporary w (sv_mill s) in
  sv_mill s' = m ∨
  temporary = false ∧ (∃ status, started = Ok status) ∧
  ∃ dir c x path abs,
    load E lstat git (mill_files m) dir = Ok (c, x) ∧ AutoStart c = true ∧ registers dir (wr_CWD w) path abs ∧
    sv_mill s' = with_mill_files (registered path dir abs (wr_Name w) (mill_files m)) m.
Proof using.
  intros Hs. unfold serve_start, lifecycle in Hs.
  apply st_bind_run in Hs as [(e & R & ->)|(status & s1 & R & Hs)];
    destruct (startWeaver temporary w (sv_mill s)) as [m started].
  { injection R as <- _. by left. }
  destruct started as [status'|[]]; [|done..]. injection R as <- <-.
  assert (∀ r0, (if temporary then mret () else register_started E lstat git T a w)
                  (mkServe m (sv_exclude s)) = (s', r0) →
    sv_mill s' = m ∨ temporary = false ∧ ∃ dir c x path abs,
      load E lstat git (mill_files m) dir = Ok (c, x) ∧ AutoStart c = true ∧ registers dir (wr_CWD w) path abs ∧
      sv_mill s' = with_mill_files (registered path dir abs (wr_Name w) (mill_files m)) m) as Hreg.
  { intros r0 R. destruct temporary; [unfold mret, st_ret in R; injection R as <- _; by left|].
    unfold register_started in R.
    apply st_bind_run in R as [(e & R1 & _)|(world & s2 & R1 & R)]; injection R1 as <- R1; [by left|].
    apply st_bind_run in R as [(e & [=] & _)|(s3 & s4 & R2 & R)]. injection R2 as <- <-.
    destruct (load E lstat git _ (ConfigDir world)) as [[c x]|] eqn:El; [|injection R as <- _; by left].
    destruct (AutoStart c) eqn:Ec; [|unfold mret, st_ret in R; injection R as <- _; by left].
    apply register_cases in R. destruct r0; [|left; by rewrite R, set_same_files].
    destruct R as (path & abs & Hp & ->). right. split; [done|]. by exists (ConfigDir world), c, x, path, abs. }
  apply st_bind_run in Hs as [(e & R & ->)|(u & s2 & R & Hs)];
    [|unfold mret, st_ret in Hs; injection Hs as -> _]; apply Hreg in R as [R|[Ht R]]; (by left) || (right; eauto).
Qed.

(** What mill answers to a restart is a valid projection, and it has lines for the person
    that asked for it. *)
Theorem restart_answer_shown color sprint local_time quote w s s' v elapsed now :
  serve_restart T w s = (s', Ok v) →
  ∃ m lines, v = AObject m ∧ validateRestartResult (Some m) = Ok tt ∧
    result_lines color sprint local_time quote "weaver-restart" (AObject (received m)) elapsed now = Ok lines.
Proof using.
  clear E lstat git a. intros Hs. unfold serve_restart in Hs.
  apply st_bind_run in Hs as [(e & _ & [=])|(status & s1 & _ & Hs)].
  destruct (validateRestartResult _) as [[]|] eqn:Ev; [|done]. unfold mret, st_ret in Hs. injection Hs as _ <-.
  destruct (proj2 (displays color sprint local_time quote "weaver-restart" (received (restartResultProjection status))
    elapsed now)) as [lines Hl].
  { by eapply (validated_displayable _ _ _ true false). }
  by exists (restartResultProjection status), lines.
Qed.
End starts.

Section init.
Context (E : penv) (lstat : string → marker) (git : git_query → string → option string).
Context (can_mkdir can_stat can_write : string → bool).
Context (tracked : string → option bool) (exclude_path : option string) (exclude_writable : bool).
Context (T : texts) `{Lifecycle} (a : serve_answers).

End init.

(** ** Examples *)

(** A lifecycle whose starts and restarts succeed at once. *)
#[local] Instance sample_lifecycle : Lifecycle := {|
  startWeaver _ w m := (m, Ok (<["state" := AString "running"]> ∅));
  restartWeaver w m := (m, Ok (received restart_answer_sample));
  stopWeaver w m := (m, Ok ∅);
|}.

Definition sample_texts : texts :=
  mkTexts "malformed" (λ _, "config") (λ _, "stealth") (λ _ _, "do this") (λ _, "target") (λ _, "state") (λ _, "init")
    (λ _, "register") (λ _, "restart") (λ _, "list") (λ _, "world") (λ _, "created").

Definition sample_answers : serve_answers :=
  mkServeAnswers init_sample (Err (Stealth.GitInspection "none")) None None shown_glance (ls_pools listed_answers)
    listed_answers (Some "/src").

Definition sample_meta : MillMetadata :=
  mkMillMetadata MillProtocolVersion "1.0" 7 "mill-1" "/x/millstrand" "/x/millstrand/mill.sock" "now" "build".

Definition init_mill : serve := mkServe (mkMill init_before ∅ ∅ ∅ ∅) Stealth.TMissing.

Definition sample_frame (operation : string) : doc :=
  DObject [("protocol_version", DNumber "3"); ("request_id", DString "r1"); ("mill_id", DString "mill-1");
           ("operation", DString operation);
           ("world", DObject [("cwd", DString "/w/a"); ("config_dir", DString "/w/a"); ("auto_start", DBool true)])].

Definition sample_handle (frame : doc) (s : serve) : serve * served :=
  handle init_env no_marker no_git (λ _, true) (λ _, true) (λ _, true) (λ _, Some false) None true sample_texts
    (λ _, None) sample_meta sample_answers (Some frame) [] s.

Definition sample_request (operation : string) : mill_request :=
  mkMillRequest 3 "r1" "mill-1" operation (mkWorldRequest "/w/a" "/w/a" "" None true 0 false false) None.

Lemma sample_accepted operation :
  operation ∈ ["ping"; "init"] → accepted (λ _, None) sample_meta (Some (sample_frame operation)) [] (sample_request operation).
Proof.
  rewrite !elem_of_cons, elem_of_nil. intros [->|[->|[]]]; split; try done; eexists; (split; [reflexivity|by vm_compute]).
Qed.

(** A status of mill is answered to its request; an unknown operation is refused. *)
Example ping_answered :
  (sample_handle (sample_frame "ping") init_mill).2
  = Answered (mkResponse "r1" true (AObject (mill_status init_env sample_meta)) None).
Proof. by vm_compute. Qed.

Example unknown_refused :
  (sample_handle (sample_frame "reboot") init_mill).2
  = Answered (errorResponse "r1" "protocol" "mill/unknown-operation" "unknown mill operation" "reboot").
Proof. by vm_compute. Qed.


Lemma questions_change_nothing_witness :
  reported (sv_mill init_mill) (sv_mill (sample_handle (sample_frame "ping") init_mill).1).
Proof.
  refine (proj1 (questions_change_nothing init_env no_marker no_git (λ _, true) (λ _, true) (λ _, true) (λ _, Some false)
    None true sample_texts (λ _, None) sample_meta sample_answers (Some (sample_frame "ping")) [] (sample_request "ping")
    init_mill _ _ _ _ (surjective_pairing _))).
  - apply sample_accepted. set_solver.
  - cbn. unfold questions. set_solver.
Defined.

Definition init_sent : serve * result rerror any :=
  serve_init init_env no_marker no_git (λ _, true) (λ _, true) (λ _, true) (λ _, Some false) None true sample_texts
    sample_answers (mq_World (sample_request "init")) init_mill.


Lemma restart_answer_shown_witness :
  ∃ m lines, (serve_restart sample_texts zero_world init_mill).2 = Ok (AObject m) ∧
    result_lines false (λ _, "?") (λ s, s) (λ s, s) "weaver-restart" (AObject (received m)) None "" = Ok lines.
Proof.
  destruct (serve_restart sample_texts zero_world init_mill) as [s' r] eqn:Hs.
  assert (match r with Ok _ => true | Err _ => false end = true) as Hr.
  { change r with (s', r).2. rewrite <-Hs. by vm_compute. }
  destruct r as [v|]; [|done].
  destruct (restart_answer_shown sample_texts false (λ _, "?") (λ s, s) (λ s, s) zero_world init_mill s' v None "" Hs)
    as (m & lines & -> & _ & Hl).
  exists m, lines. split; [reflexivity|exact Hl].
Defined.

Definition asking_mill : mill_state :=
  with_mill_files {["/w/a/config.json" :=
    Holds (Some (DObject [("configFormat", DString "alpha"); ("autoStart", DBool true)]))]} (sv_mill init_mill).

Definition start_sent : serve * result rerror any :=
  serve_start init_env no_marker no_git sample_texts sample_answers false (mq_World (sample_request "weaver-start"))
    (mkServe asking_mill Stealth.TMissing).

Lemma start_registers_asked_witness :
  ∃ dir path abs, registers init_env dir "/w/a" path abs ∧
    sv_mill start_sent.1 = with_mill_files (registered path dir abs "" (mill_files asking_mill)) asking_mill.
Proof.
  pose proof (start_registers_asked init_env no_marker no_git sample_texts sample_answers false
    (mq_World (sample_request "weaver-start")) (mkServe asking_mill Stealth.TMissing) start_sent.1 start_sent.2
    (surjective_pairing _)) as Hr.
  cbn [startWeaver sample_lifecycle sv_mill] in Hr. destruct Hr as [Hr|(_ & _ & dir & c & x & path & abs & _ & _ & Hp & Hr)].
  - exfalso. apply (f_equal (λ m, size (mill_files m))) in Hr. by vm_compute in Hr.
  - by exists dir, path, abs.
Defined.
