(* ===== verification/Startup.v ===== *)
(** The start of mill (src/cli/cmd/mill/main.go, [start]): what is left of an earlier mill
    is cleared away, and the metadata by which clients find the new one are published.
    Sockets and EDN files are files here without a document. *)

From stdpp Require Import pretty.
From S2P Require Export Client Identity PoolRecord.

(** ** What an earlier mill left *)

Inductive startup_error :=
| StateRootFailed (e : config_error)
| RootNotMade
| AlreadyRunning (pid : Z)
| OldMetadataUnreadable
| NoListener
| MetadataUnwritten.

Section cleanup.
Context (alive : Z → bool) (can_remove : string → bool).

Definition remove_file (path : string) (fs : files) : files := if can_remove path then delete path fs else fs.

(** What is published in a state directory. *)
Definition published_files (stateDir : string) : list string :=
  (λ name, PathJoin [stateDir; name]) <$> ["weaver.json"; "weaver.edn"; "weaver.sock"].

Definition remove_all (paths : list string) (fs : files) : files := foldl (λ fs path, remove_file path fs) fs paths.

(** The process that a published file names, if it lives. *)
Definition living_weaver (path : string) (fs : files) : option Z :=
  match fs !! path with
  | Some (Holds d) =>
      m ← d ≫= decodeMetadata;
      if negb (bool_decide (md_PID m = 0%Z)) && alive (md_PID m) then Some (md_PID m) else None
  | _ => None
  end.

(** Every match loses its weaver and its files. *)
Fixpoint cleanup_weavers (matches : list string) (fs : files) : list act * files :=
  match matches with
  | [] => ([], fs)
  | path :: matches =>
      let signals := from_option terminatePID [] (living_weaver path fs) in
      let '(rest, fs) := cleanup_weavers matches (remove_all (published_files (Dir path)) fs) in
      (signals ++ rest, fs)
  end.

(** [matches] is what [weavers/*/weaver.json] finds below the state root. *)
Definition cleanupPreviousMillState (socketPath metadataPath : string) (matches : list string) (fs : files)
    : list act * files * result startup_error unit :=
  let clean :=
    let '(acts, fs) := cleanup_weavers matches fs in
    (acts, remove_all [socketPath; metadataPath] fs, Ok tt) in
  match fs !! metadataPath with
  | Some (Holds d) =>
      match d ≫= decodeMillMetadata with
      | Some m => if negb (bool_decide (mm_PID m = 0%Z)) && alive (mm_PID m)
                  then ([], fs, Err (AlreadyRunning (mm_PID m))) else clean
      | None => clean
      end
  | Some Unreadable => ([], fs, Err OldMetadataUnreadable)
  | None => clean
  end.
End cleanup.

(** ** Publishing the metadata *)

Definition encodeMillMetadata (m : MillMetadata) : doc :=
  DObject
    ([("protocol_version", DNumber (pretty (mm_ProtocolVersion m)))]
     ++ (if bool_decide (mm_MillVersion m = "") then [] else [("mill_version", marshal_string (mm_MillVersion m))])
     ++ [("pid", DNumber (pretty (mm_PID m))); ("mill_id", marshal_string (mm_MillID m));
         ("state_root", marshal_string (mm_StateRoot m)); ("socket_path", marshal_string (mm_SocketPath m));
         ("started_at", marshal_string (mm_StartedAt m))]
     ++ (if bool_decide (mm_MillBuild m = "") then [] else [("mill_build", marshal_string (mm_MillBuild m))])).

(** The answers of a start: the directory can be made, the socket can be listened on, and
    the metadata can be written; the process, its time and its nanoseconds. *)
Record start_answers := mkStartAnswers {
  st_mkdir : bool; st_listens : bool; st_writes : bool;
  st_pid : Z; st_nanos : Z; st_started : string; st_build : string; st_version : string;
  st_matches : list string;
}.

Definition start_metadata (a : start_answers) (root : string) : MillMetadata :=
  mkMillMetadata MillProtocolVersion (st_version a) (st_pid a)
    ("mill-" +:+ pretty (st_pid a) +:+ "-" +:+ pretty (st_nanos a)) root (PathJoin [root; MillSocketFileName])
    (st_started a) (st_build a).

(** Up to the point where requests are accepted. A start that fails after it listened takes
    the socket and the metadata away again. *)
Definition begin_start (alive : Z → bool) (can_remove : string → bool) (a : start_answers)
    (root : result config_error string) (fs : files) : list act * files * result startup_error MillMetadata :=
  match root with
  | Err e => ([], fs, Err (StateRootFailed e))
  | Ok root =>
      if negb (st_mkdir a) then ([], fs, Err RootNotMade) else
      let socketPath := PathJoin [root; MillSocketFileName] in
      let metadataPath := PathJoin [root; MillMetadataFileName] in
      match cleanupPreviousMillState alive can_remove socketPath metadataPath (st_matches a) fs with
      | (acts, fs, Err e) => (acts, fs, Err e)
      | (acts, fs, Ok _) =>
          if negb (st_listens a) then (acts, fs, Err NoListener) else
          let fs := <[socketPath := Holds None]> fs in
          if st_writes a then
            let m := start_metadata a root in
            (acts, <[metadataPath := Holds (Some (encodeMillMetadata m))]> fs, Ok m)
          else (acts, remove_all can_remove [metadataPath; socketPath] fs, Err MetadataUnwritten)
      end
  end.

(** ** Lemmas: the files *)

Lemma Clean_nonempty p : Clean p ≠ "".
Proof.
  unfold Clean. intros H. apply (f_equal bytes_of) in H. rewrite bytes_of_of in H. revert H. unfold clean_bytes.
  destruct (bytes_of p) as [|c l]; [done|]. cbv zeta. case_bool_decide; [done|]. by case_match.
Qed.

Lemma PathJoin_nonempty root name : name ≠ "" → PathJoin [root; name] ≠ "".
Proof.
  intros Hn. unfold PathJoin. destruct (filter _ _) as [|x l] eqn:Ef; [|apply Clean_nonempty].
  assert (name ∈ filter (λ p, p ≠ "") [root; name]) as Hin by (apply list_elem_of_filter; split; [done|set_solver]).
  rewrite Ef in Hin. by apply elem_of_nil in Hin.
Qed.

Section cleaning.
Context (alive : Z → bool) (can_remove : string → bool).

Lemma remove_all_lookup paths fs p :
  remove_all can_remove paths fs !! p = if bool_decide (p ∈ paths) && can_remove p then None else fs !! p.
Proof.
  revert fs. induction paths as [|path paths IH]; intros fs; cbn [remove_all foldl].
  - by rewrite bool_decide_eq_false_2 by apply not_elem_of_nil.
  - unfold remove_all in IH. rewrite IH. unfold remove_file. destruct (decide (p = path)) as [->|Hp].
    + rewrite (bool_decide_eq_true_2 (path ∈ path :: paths)) by left. cbn [andb].
      destruct (can_remove path) eqn:Ec; [|by rewrite andb_false_r].
      rewrite lookup_delete_eq. by case_match.
    + rewrite (bool_decide_ext (p ∈ path :: paths) (p ∈ paths)) by (rewrite elem_of_cons; naive_solver).
      case_match; [done|]. destruct (can_remove path); [by rewrite lookup_delete_ne|done].
Qed.

(** The paths that a clean-up takes away. *)
Definition cleaned (matches : list string) : list string := matches ≫= (λ path, published_files (Dir path)).

Lemma cleanup_weavers_lookup matches fs p :
  (cleanup_weavers alive can_remove matches fs).2 !! p
  = if bool_decide (p ∈ cleaned matches) && can_remove p then None else fs !! p.
Proof.
  revert fs. induction matches as [|path matches IH]; intros fs; cbn [cleanup_weavers].
  - by rewrite bool_decide_eq_false_2 by apply not_elem_of_nil.
  - specialize (IH (remove_all can_remove (published_files (Dir path)) fs)).
    destruct (cleanup_weavers _ _ matches _) as [rest fs']. cbn [snd] in *. rewrite IH, remove_all_lookup.
    unfold cleaned. cbn [mbind list_bind]. fold (cleaned matches).
    rewrite (bool_decide_ext (p ∈ published_files (Dir path) ++ cleaned matches)
      (p ∈ published_files (Dir path) ∨ p ∈ cleaned matches)) by apply elem_of_app.
    repeat case_bool_decide; destruct (can_remove p); naive_solver.
Qed.

Lemma living_mono path fs fs' pid :
  (∀ p x, fs' !! p = Some x → fs !! p = Some x) → living_weaver alive path fs' = Some pid →
  living_weaver alive path fs = Some pid.
Proof.
  unfold living_weaver. intros Hfs. destruct (fs' !! path) as [x|] eqn:Ex; [|done]. by rewrite (Hfs _ _ Ex).
Qed.

(** Each signal goes to a process that a matched file names and that lives. *)
Lemma cleanup_signals matches fs x :
  x ∈ (cleanup_weavers alive can_remove matches fs).1 →
  ∃ path pid, path ∈ matches ∧ living_weaver alive path fs = Some pid ∧ (0 < pid)%Z ∧ x = TermGroup pid.
Proof.
  revert fs. induction matches as [|path matches IH]; intros fs; cbn [cleanup_weavers]; [by intros ?%elem_of_nil|].
  specialize (IH (remove_all can_remove (published_files (Dir path)) fs)).
  destruct (cleanup_weavers _ _ matches _) as [rest fs']. cbn [fst] in *. intros [Hx|Hx]%elem_of_app.
  - destruct (living_weaver alive path fs) as [pid|] eqn:El; cbn [from_option] in Hx; [|by apply elem_of_nil in Hx].
    unfold terminatePID in Hx. destruct (Z.ltb_spec 0 pid); [|by apply elem_of_nil in Hx].
    apply list_elem_of_singleton in Hx as ->. exists path, pid. split_and!; [by left|done..].
  - destruct (IH Hx) as (p & pid & Hp & Hl & H0 & ->). exists p, pid. split_and!; [by right| |done..].
    revert Hl. apply living_mono. intros q y. rewrite remove_all_lookup. case_match; [done|]. done.
Qed.
End cleaning.

(** ** Properties *)

Section start.
Context (alive : Z → bool) (can_remove : string → bool).

(** A mill was published in these files and lives. *)
Definition mill_lives (metadataPath : string) (fs : files) : Prop :=
  ∃ d m, fs !! metadataPath = Some (Holds (Some d)) ∧ decodeMillMetadata d = Some m ∧ mm_PID m ≠ 0%Z ∧
    alive (mm_PID m) = true.

Lemma cleanup_cases socketPath metadataPath matches fs acts fs' r :
  cleanupPreviousMillState alive can_remove socketPath metadataPath matches fs = (acts, fs', r) →
  (acts = [] ∧ fs' = fs ∧ is_ok r = false) ∨
  (r = Ok tt ∧ ¬ mill_lives metadataPath fs ∧ acts = (cleanup_weavers alive can_remove matches fs).1 ∧
   ∀ p, fs' !! p = if bool_decide (p ∈ [socketPath; metadataPath] ++ cleaned matches) && can_remove p
                   then None else fs !! p).
Proof using.
  intros Hc. unfold cleanupPreviousMillState in Hc.
  assert (∀ x, (let '(acts, fs) := cleanup_weavers alive can_remove matches fs in
      (acts, remove_all can_remove [socketPath; metadataPath] fs, Ok tt)) = x → x = (acts, fs', r) →
    r = Ok tt ∧ acts = (cleanup_weavers alive can_remove matches fs).1 ∧
    ∀ p, fs' !! p = if bool_decide (p ∈ [socketPath; metadataPath] ++ cleaned matches) && can_remove p
                    then None else fs !! p) as Hclean.
  { intros x Hx ->. pose proof (cleanup_weavers_lookup alive can_remove matches fs) as Hl.
    destruct (cleanup_weavers alive can_remove matches fs) as [acts1 fs1]. injection Hx as <- <- <-.
    split_and!; [done..|]. intros p. change (remove_file can_remove metadataPath (remove_file can_remove socketPath fs1))
      with (remove_all can_remove [socketPath; metadataPath] fs1). rewrite remove_all_lookup. cbn [snd] in Hl. rewrite Hl.
    rewrite (bool_decide_ext (p ∈ [socketPath; metadataPath] ++ cleaned matches)
      (p ∈ [socketPath; metadataPath] ∨ p ∈ cleaned matches)) by apply elem_of_app.
    repeat case_bool_decide; destruct (can_remove p); naive_solver. }
  destruct (fs !! metadataPath) as [[|d]|] eqn:Ef.
  - injection Hc as <- <- <-. by left.
  - destruct (d ≫= decodeMillMetadata) as [m|] eqn:Ed.
    + destruct (negb (bool_decide (mm_PID m = 0%Z)) && alive (mm_PID m)) eqn:Ea; [injection Hc as <- <- <-; by left|].
      right. destruct (Hclean _ eq_refl Hc) as (-> & -> & Hp). split_and!; try done.
      intros (d' & m' & Hf & Hd & H0 & Hl). rewrite Ef in Hf. injection Hf as ->. cbn in Ed. rewrite Hd in Ed.
      injection Ed as ->. by rewrite bool_decide_eq_false_2, Hl in Ea by done.
    + right. destruct (Hclean _ eq_refl Hc) as (-> & -> & Hp). split_and!; try done.
      intros (d' & m' & Hf & Hd & _). rewrite Ef in Hf. injection Hf as ->. cbn in Ed. by rewrite Hd in Ed.
  - right. destruct (Hclean _ eq_refl Hc) as (-> & -> & Hp). split_and!; try done.
    intros (d' & m' & Hf & _). by rewrite Ef in Hf.
Qed.

(** C34: A mill starts only where no other one lives. Until it does, nothing is touched; when it
    does, only processes that published files name, and that live, are signalled, and what
    is gone is the files of these weavers and of the earlier mill. *)
Theorem start_alone a root fs acts fs' m :
  begin_start alive can_remove a (Ok root) fs = (acts, fs', Ok m) →
  ¬ mill_lives (PathJoin [root; MillMetadataFileName]) fs ∧
  (∀ x, x ∈ acts → ∃ path pid, path ∈ st_matches a ∧ living_weaver alive path fs = Some pid ∧ (0 < pid)%Z ∧ x = TermGroup pid) ∧
  fs' !! PathJoin [root; MillMetadataFileName] = Some (Holds (Some (encodeMillMetadata m))) ∧
  m = start_metadata a root ∧
  (∀ p, p ≠ PathJoin [root; MillMetadataFileName] → p ≠ PathJoin [root; MillSocketFileName] →
     fs' !! p = if bool_decide (p ∈ cleaned (st_matches a)) && can_remove p then None else fs !! p).
Proof using.
  intros Hs. unfold begin_start in Hs. destruct (st_mkdir a); [|done]. cbn [negb] in Hs.
  destruct (cleanupPreviousMillState _ _ _ _ _ _) as [[acts1 fs1] r] eqn:Ec.
  apply cleanup_cases in Ec as [(_ & _ & Hr)|(-> & Hm & -> & Hp)]; [by destruct r|].
  destruct (st_listens a); [|done]. cbn [negb] in Hs. destruct (st_writes a); [|done]. injection Hs as <- <- <-.
  split_and!; [exact Hm|apply cleanup_signals|by rewrite lookup_insert_eq|done|].
  intros p H1 H2. rewrite !lookup_insert_ne by done. rewrite Hp.
  rewrite (bool_decide_ext (p ∈ _ ++ _) (p ∈ cleaned (st_matches a))); [done|].
  rewrite elem_of_app, !elem_of_cons, elem_of_nil. naive_solver.
Qed.

(** Nothing happens while another mill lives. *)
Lemma start_refused a root fs :
  mill_lives (PathJoin [root; MillMetadataFileName]) fs →
  (begin_start alive can_remove a (Ok root) fs).1 = ([], fs) ∧ is_ok (begin_start alive can_remove a (Ok root) fs).2 = false.
Proof using.
  intros (d & m & Hf & Hd & H0 & Hl). unfold begin_start, cleanupPreviousMillState.
  destruct (st_mkdir a); [|done]. cbn [negb]. rewrite Hf. cbn [mbind option_bind]. rewrite Hd.
  by rewrite bool_decide_eq_false_2, Hl by done.
Qed.

(** The metadata come back as they were written. *)
Definition plain (s : string) : Prop := marshal_string s = DString s.

Lemma metadata_roundtrip m :
  (0 < mm_PID m < 2 ^ 63)%Z → mm_ProtocolVersion m = MillProtocolVersion →
  Forall plain [mm_MillVersion m; mm_MillID m; mm_StateRoot m; mm_SocketPath m; mm_StartedAt m; mm_MillBuild m] →
  decodeMillMetadata (encodeMillMetadata m) = Some m.
Proof using.
  destruct m as [v mv pid id root sock started build]. cbn [mm_PID mm_ProtocolVersion mm_MillVersion mm_MillID
    mm_StateRoot mm_SocketPath mm_StartedAt mm_MillBuild].
  intros Hpid -> H. repeat (apply Forall_cons in H as [? H]). clear H. unfold plain in *.
  unfold encodeMillMetadata. cbn [mm_PID mm_ProtocolVersion mm_MillVersion mm_MillID mm_StateRoot mm_SocketPath
    mm_StartedAt mm_MillBuild].
  repeat match goal with H : marshal_string _ = _ |- _ => rewrite H; clear H end.
  assert (∀ z, (0 < z < 2 ^ 63)%Z → int_field [DNumber (pretty z)] = Some z) as Hint.
  { intros z Hz. unfold int_field, int_from. cbn. by rewrite Atoi_pretty. }
  pose proof (Hint pid Hpid) as Hp. pose proof (Hint MillProtocolVersion ltac:(by vm_compute)) as Hv. clear Hint Hpid.
  revert Hp Hv. generalize (DNumber (pretty pid)) (DNumber (pretty MillProtocolVersion)). intros dp dv Hp Hv.
  unfold decodeMillMetadata.
  repeat case_bool_decide; cbn [app];
    repeat match goal with |- context [field_values ?n ?l] =>
      let r := eval vm_compute in (field_values n l) in change (field_values n l) with r end;
    rewrite Hp, Hv; by subst.
Qed.

(** C35: The mill that a start publishes is the one that clients find, on its own socket. *)
Theorem started_mill_found eval_symlinks a root fs acts fs' m :
  begin_start alive can_remove a (Ok root) fs = (acts, fs', Ok m) →
  alive (st_pid a) = true → (0 < st_pid a < 2 ^ 63)%Z → root ≠ "" → st_started a ≠ "" →
  Forall plain [mm_MillVersion m; mm_MillID m; mm_StateRoot m; mm_SocketPath m; mm_StartedAt m; mm_MillBuild m] →
  readMillMetadata eval_symlinks alive (Ok root) (fs' !! PathJoin [root; MillMetadataFileName]) = Ok m.
Proof using.
  intros Hs Hl Hpid Hr Ht Hp.
  assert (m = start_metadata a root ∧ fs' !! PathJoin [root; MillMetadataFileName] = Some (Holds (Some (encodeMillMetadata m))))
    as [Hm Hf].
  { unfold begin_start in Hs. destruct (st_mkdir a); [|done]. cbn [negb] in Hs.
    destruct (cleanupPreviousMillState _ _ _ _ _ _) as [[acts1 fs1] [r|]]; [|done].
    destruct (st_listens a); [|done]. cbn [negb] in Hs. destruct (st_writes a); [|done].
    injection Hs as _ <- <-. split; [done|by rewrite lookup_insert_eq]. }
  rewrite Hf. unfold readMillMetadata. cbn [mbind option_bind].
  assert (mm_PID m = st_pid a ∧ mm_ProtocolVersion m = MillProtocolVersion ∧ mm_StateRoot m = root ∧
    mm_SocketPath m = PathJoin [root; MillSocketFileName] ∧ mm_StartedAt m = st_started a ∧ mm_MillID m ≠ "") as
    (E1 & E2 & E3 & E4 & E5 & E6) by (rewrite Hm; by split_and!).
  rewrite metadata_roundtrip by (rewrite ?E1; done).
  assert (missingMetadataFields m = []) as ->.
  { unfold missingMetadataFields. rewrite E1, E2, E3, E4, E5.
    rewrite !bool_decide_eq_false_2; [done|done| |done|done|lia|done].
    by apply PathJoin_nonempty. }
  unfold Client.samePath. rewrite E1, E2, E3, E4. rewrite !bool_decide_eq_true_2 by done. cbn [ensure mbind result_bind].
  by rewrite Hl.
Qed.
End start.

(** ** Examples *)

(** What a crash left: the pid of a weaver that belongs to another process by now. *)
Definition left_behind : files :=
  {["/x/millstrand/weavers/a/weaver.json" := Holds (Some (DObject [("pid", DNumber "7")]))]}.

Definition start_sample : start_answers :=
  mkStartAnswers true true true 9 1700000000 "2026-01-01T00:00:00Z" "build" "1.0" ["/x/millstrand/weavers/a/weaver.json"].

Definition seven_or_nine (pid : Z) : bool := bool_decide (pid = 7%Z) || bool_decide (pid = 9%Z).

(** Its process group is signalled: nothing of the file but the number is looked at. *)
Lemma left_pid_signalled :
  (begin_start seven_or_nine (λ _, true) start_sample (Ok "/x/millstrand") left_behind).1.1 = [TermGroup 7].
Proof. by vm_compute. Qed.

Definition start_done : list act * files * result startup_error MillMetadata :=
  begin_start seven_or_nine (λ _, true) start_sample (Ok "/x/millstrand") left_behind.

Definition sample_mill : MillMetadata := start_metadata start_sample "/x/millstrand".

Lemma start_done_mill : start_done = (start_done.1.1, start_done.1.2, Ok sample_mill).
Proof. reflexivity. Qed.

Lemma start_alone_witness :
  start_done.1.2 !! "/x/millstrand/mill.json" = Some (Holds (Some (encodeMillMetadata sample_mill))) ∧
  start_done.1.2 !! "/x/millstrand/weavers/a/weaver.json" = None.
Proof.
  destruct (start_alone seven_or_nine (λ _, true) start_sample "/x/millstrand" left_behind _ _ _ start_done_mill)
    as (_ & _ & H1 & _ & H2).
  split; [exact H1|]. rewrite (H2 "/x/millstrand/weavers/a/weaver.json"); [by vm_compute|done|done].
Defined.

Lemma started_mill_found_witness :
  readMillMetadata (λ _, None) seven_or_nine (Ok "/x/millstrand") (start_done.1.2 !! "/x/millstrand/mill.json") = Ok sample_mill.
Proof.
  apply (started_mill_found seven_or_nine (λ _, true) (λ _, None) start_sample "/x/millstrand" left_behind _ _ _ start_done_mill);
    [by vm_compute|done|done|done|].
  repeat (apply Forall_cons; split; [by vm_compute|]). by apply Forall_nil.
Defined.
