(* ===== verification/Launch.v ===== *)
(** What mill launches a weaver from, and with (src/cli/cmd/mill/lifecycle.go and
    dependency_diagnostic.go): the source checkout, the arguments, and what is said of a
    launch that failed. The file system's answers are given. *)

From S2P Require Export Config Json Restart.

(** ** The source *)

Inductive launch_error :=
| BadSource (label : string) (e : source_error)
| BadRelease (label : string) (e : source_error)
| NotCheckout.

(** The source cannot be had: the error of the one that was installed, and of the working
    directory. *)
Inductive resolve_error :=
| ResolveFailed (e : launch_error)
| NoSource (installed : option launch_error) (cwd : launch_error).

Section source.
Context (home : option string) (stat : string → option stat_info) (read : string → option string).
Context (Version InstalledSource MILLSTRAND_SOURCE : string).
(** The root of the repository of a directory. *)
Context (git_root : string → option string).

Definition validateLaunchSource (label source : string) : result launch_error string :=
  match ValidateSource home stat label source with
  | Err e => Err (BadSource label e)
  | Ok resolved =>
      match ValidateSourceVersion stat read resolved Version with
      | Err e => Err (BadRelease label e)
      | Ok _ => Ok resolved
      end
  end.

(** What the installed source is good for; [None] if none is installed. *)
Definition installed_source : option (result launch_error string) :=
  if bool_decide (InstalledSource = "") then None
  else Some (validateLaunchSource "installed Millstrand source" InstalledSource).

Definition checkout_source (cwd : string) : result launch_error string :=
  match git_root cwd with
  | None => Err NotCheckout
  | Some root => validateLaunchSource "canonical Millstrand checkout cwd" root
  end.

(** The source, with the error of an installed one that is passed over with a warning. *)
Definition resolveLaunchSource (cwd : string) : result resolve_error (string * option launch_error) :=
  if negb (bool_decide (MILLSTRAND_SOURCE = "")) then
    match validateLaunchSource "MILLSTRAND_SOURCE" MILLSTRAND_SOURCE with
    | Ok source => Ok (source, None)
    | Err e => Err (ResolveFailed e)
    end
  else
    match installed_source with
    | Some (Ok source) => Ok (source, None)
    | other =>
        let unusable := match other with Some (Err e) => Some e | _ => None end in
        match checkout_source cwd with
        | Ok source => Ok (source, unusable)
        | Err e => Err (NoSource unusable e)
        end
    end.
End source.

(** ** The arguments *)

Definition dependencyDiagnosticPath (stateDir : string) : string := PathJoin [stateDir; "dependency-diagnostic.json"].

Definition bootstrapDeps (source : string) : string :=
  "{:aliases {:millstrand/bootstrap {:replace-paths [" +:+ quoted (PathJoin [source; "src"]) +:+
  "] :replace-deps {org.clojure/clojure {:mvn/version " +:+ quoted "1.12.0" +:+
  "} org.clojure/data.json {:mvn/version " +:+ quoted "2.5.1" +:+
  "} org.clojure/tools.deps {:mvn/version " +:+ quoted "0.31.1642" +:+ "}}}}}".

Definition weaverArgs (Version : string) (w : world) (name source : string) : list string :=
  ["-Srepro"; "-Sdeps"; bootstrapDeps source; "-M:millstrand/bootstrap"; "-m"; "millstrand.core.weaver.basis";
   "--workspace"; ConfigDir w; "--millstrand-source"; source; "--millstrand-version"; Version;
   "--dependency-diagnostic"; dependencyDiagnosticPath (StateDir w); "--state-dir"; StateDir w;
   "--data-dir"; DataDir w] ++ (if bool_decide (name = "") then [] else ["--name"; name]).

(** ** What is said of a failed launch *)

Record dependencyCoordinate := mkCoordinate { co_Lib : string; co_Value : json }.

Record dependencyDiagnostic := mkDiagnostic {
  dd_Status : string; dd_Stage : string; dd_SourcePath : string; dd_Message : string; dd_Cause : string;
  dd_Coordinate : option dependencyCoordinate;
}.

Inductive diagnostic_error :=
| DiagnosticUnreadable
| DiagnosticMalformed
| DiagnosticStatusBad
| DiagnosticStageBad
| DiagnosticBlank
| DiagnosticCoordinateBad.

Section diagnostic.
Context (float_text : string → option string).

(** Only members of the struct, whatever their case. *)
Definition known_members (names : list string) (l : list (string * doc)) : bool :=
  forallb (λ kv, existsb (λ name, bool_decide (fold_name kv.1 = fold_name name)) names) l.

Definition decodeCoordinate (init : option dependencyCoordinate) (d : doc) : option (option dependencyCoordinate) :=
  match d with
  | DNull => Some None
  | DObject l =>
      let c := default (mkCoordinate "" JNull) init in
      if negb (known_members ["lib"; "value"] l) then None else
      lib ← string_from (co_Lib c) (field_values "lib" l);
      v ← (match field_values "value" l with [] => Some (co_Value c) | ds => any_field float_text ds end);
      Some (Some (mkCoordinate lib v))
  | _ => None
  end.

Definition coordinate_field (l : list doc) : option (option dependencyCoordinate) :=
  foldl (λ acc d, c ← acc; decodeCoordinate c d) (Some None) l.

Definition diagnostic_members : list string := ["status"; "stage"; "source_path"; "message"; "cause"; "coordinate"].

(** What follows the first value of the file is not read. *)
Definition decodeDiagnostic (d : doc) : option dependencyDiagnostic :=
  match d with
  | DNull => Some (mkDiagnostic "" "" "" "" "" None)
  | DObject l =>
      if negb (known_members diagnostic_members l) then None else
      status ← string_field (field_values "status" l);
      stage ← string_field (field_values "stage" l);
      path ← string_field (field_values "source_path" l);
      message ← string_field (field_values "message" l);
      cause ← string_field (field_values "cause" l);
      coordinate ← coordinate_field (field_values "coordinate" l);
      Some (mkDiagnostic status stage path message cause coordinate)
  | _ => None
  end.

Definition is_json_null (v : json) : bool := match v with JNull => true | _ => false end.

Definition validateDependencyDiagnostic (d : dependencyDiagnostic) : result diagnostic_error unit :=
  ensure (bool_decide (dd_Status d = "invalid-dependency-config")) DiagnosticStatusBad ;;
  ensure (bool_decide (dd_Stage d = "deps-read") || bool_decide (dd_Stage d = "deps-resolve")) DiagnosticStageBad ;;
  ensure (negb (is_blank (dd_SourcePath d) || is_blank (dd_Message d) || is_blank (dd_Cause d))) DiagnosticBlank ;;
  match dd_Coordinate d with
  | Some c => ensure (negb (is_blank (co_Lib c) || is_json_null (co_Value c))) DiagnosticCoordinateBad
  | None => Ok tt
  end.

(** A file that can be read is removed, whatever it holds. *)
Definition readDependencyDiagnostic (can_remove : string → bool) (w : world) (fs : files)
    : files * result diagnostic_error (option dependencyDiagnostic) :=
  let path := dependencyDiagnosticPath (StateDir w) in
  match fs !! path with
  | None => (fs, Ok None)
  | Some Unreadable => (fs, Err DiagnosticUnreadable)
  | Some (Holds d) =>
      (if can_remove path then delete path fs else fs,
       match d ≫= decodeDiagnostic with
       | None => Err DiagnosticMalformed
       | Some diagnostic => validateDependencyDiagnostic diagnostic ;; Ok (Some diagnostic)
       end)
  end.
End diagnostic.

(** The last bytes of a log, trimmed; [None] is a log that cannot be read. *)
Definition tailOfFile (content : option (list ascii)) (maxBytes : nat) : string :=
  match content with
  | None => ""
  | Some l => TrimSpace (of_bytes (drop (length l - maxBytes) l))
  end.

(** The error of a start, with what is known of its reason. *)
Inductive startup_report (E : Type) :=
| WithDiagnosticError (e : E) (d : diagnostic_error)
| DependencyLaunch (d : dependencyDiagnostic) (e : E)
| WithLogTail (e : E) (log_path tail : string)
| WithLog (e : E) (log_path : string).

Arguments WithDiagnosticError {E}.
Arguments DependencyLaunch {E}.
Arguments WithLogTail {E}.
Arguments WithLog {E}.

Definition weaverStartupError {E} (float_text : string → option string) (can_remove : string → bool) (w : world)
    (logPath : string) (log : option (list ascii)) (e : E) (fs : files) : files * startup_report E :=
  let '(fs, r) := readDependencyDiagnostic float_text can_remove w fs in
  (fs, match r with
       | Err d => WithDiagnosticError e d
       | Ok (Some d) => DependencyLaunch d e
       | Ok None =>
           let tail := tailOfFile log 4096 in
           if bool_decide (tail = "") then WithLog e logPath else WithLogTail e logPath tail
       end).

(** ** Lemmas: the source *)

Section sources.
Context (home : option string) (stat : string → option stat_info) (read : string → option string).
Context (Version InstalledSource MILLSTRAND_SOURCE : string) (git_root : string → option string).

Notation validate := (validateLaunchSource home stat read Version).
Notation resolve := (resolveLaunchSource home stat read Version InstalledSource MILLSTRAND_SOURCE git_root).

(** A checkout that a weaver can be launched from. *)
Record checkout (dir : string) : Prop := {
  ck_absolute : IsAbs dir = true;
  ck_directory : stat dir = Some StatDir;
  ck_deps : ∃ k, stat (PathJoin [dir; "deps.edn"]) = Some k ∧ k ≠ StatDir;
  ck_version : ∃ version, stat (PathJoin [dir; "VERSION"]) = Some StatRegular ∧
    read (PathJoin [dir; "VERSION"]) = Some (version +:+ of_bytes [newline_byte]) ∧ ValidVersion version = true;
}.

Lemma SourceVersion_ok dir version :
  SourceVersion stat read dir = Ok version →
  stat (PathJoin [dir; "VERSION"]) = Some StatRegular ∧
  read (PathJoin [dir; "VERSION"]) = Some (version +:+ of_bytes [newline_byte]) ∧ ValidVersion version = true.
Proof.
  unfold SourceVersion. destruct (stat _) as [k|] eqn:Ek; [|done]. intros H. inv_ok. bools. subst k.
  destruct (read _) as [content|] eqn:Er; [|done].
  destruct (reverse (bytes_of content)) as [|c l] eqn:El; [done|]. inv_ok. bools. subst c.
  split_and!; [done| |done]. f_equal. apply (f_equal reverse) in El. rewrite reverse_involutive, reverse_cons in El.
  apply (f_equal of_bytes) in El. rewrite of_bytes_of in El. rewrite El.
  rewrite <-(of_bytes_of (_ +:+ _)). by rewrite bytes_of_app, !bytes_of_of.
Qed.

Lemma validated_checkout label source dir : validate label source = Ok dir → checkout dir.
Proof.
  unfold validateLaunchSource. destruct (ValidateSource _ _ _ _) as [d|] eqn:Ev; [|done].
  destruct (ValidateSourceVersion _ _ _ _) as [v|] eqn:Er; [|done]. intros [= <-].
  assert (∃ version, SourceVersion stat read d = Ok version) as [version Hv%SourceVersion_ok].
  { unfold ValidateSourceVersion in Er. destruct (SourceVersion stat read d) as [version|]; [by exists version|done]. }
  unfold ValidateSource in Ev. inv_ok. bools. split; [done|done| |by exists version].
  destruct (stat (PathJoin [d; "deps.edn"])) as [k|]; [|done]. bools. by exists k.
Qed.

Lemma resolved_checkout cwd dir unusable : resolve cwd = Ok (dir, unusable) → checkout dir.
Proof.
  assert (∀ d, checkout_source home stat read Version git_root cwd = Ok d → checkout d) as Hc.
  { unfold checkout_source. intros d. destruct (git_root cwd); [apply validated_checkout|done]. }
  unfold resolveLaunchSource, installed_source. destruct (negb _).
  - destruct (validate "MILLSTRAND_SOURCE" _) as [d|] eqn:E; [|done]. intros [= <- <-]. by eapply validated_checkout.
  - case_bool_decide; [|destruct (validate "installed Millstrand source" _) as [d|] eqn:E;
      [intros [= <- <-]; by eapply validated_checkout|]];
    (destruct (checkout_source _ _ _ _ _ cwd) as [d|] eqn:E'; [intros [= <- <-]; by apply Hc|done]).
Qed.

(** The source of a launch is a checkout: the one that the environment names, or else the
    installed one, or else the one around the working directory, with a warning exactly
    when a source is installed and is of no use. *)
Theorem launch_source cwd dir unusable :
  resolve cwd = Ok (dir, unusable) →
  checkout dir ∧
  (MILLSTRAND_SOURCE ≠ "" ∧ validate "MILLSTRAND_SOURCE" MILLSTRAND_SOURCE = Ok dir ∧ unusable = None ∨
   MILLSTRAND_SOURCE = "" ∧
     match unusable with
     | None => validate "installed Millstrand source" InstalledSource = Ok dir ∧ InstalledSource ≠ "" ∨
               InstalledSource = "" ∧ checkout_source home stat read Version git_root cwd = Ok dir
     | Some e => InstalledSource ≠ "" ∧ validate "installed Millstrand source" InstalledSource = Err e ∧
                 checkout_source home stat read Version git_root cwd = Ok dir
     end).
Proof.
  intros H. split; [by eapply resolved_checkout|].
  unfold resolveLaunchSource, installed_source in H. case_bool_decide as Hs; cbn [negb] in H.
  - case_bool_decide as Hi.
    + destruct (checkout_source _ _ _ _ _ cwd) as [d|] eqn:Ed; [|done]. injection H as <- <-.
      right. split; [done|]. by right.
    + destruct (validate "installed Millstrand source" InstalledSource) as [d|e] eqn:Ei.
      * injection H as <- <-. right. split; [done|]. by left.
      * destruct (checkout_source _ _ _ _ _ cwd) as [d|] eqn:Ed; [|done]. injection H as <- <-.
        by right.
  - destruct (validate "MILLSTRAND_SOURCE" MILLSTRAND_SOURCE) as [d|] eqn:Ee; [|done]. injection H as <- <-.
    by left.
Qed.
End sources.

(** ** Examples *)

Definition sample_stat (p : string) : option stat_info :=
  if bool_decide (p = "/src") || bool_decide (p = "/repo") then Some StatDir
  else if bool_decide (p ∈ ["/src/deps.edn"; "/src/VERSION"; "/repo/deps.edn"]) then Some StatRegular else None.

Definition sample_read (p : string) : option string := Some ("1.2.3" +:+ of_bytes [newline_byte]).

(** The installed source has no version, so that the checkout is used with a warning. *)
Lemma launch_source_witness :
  resolveLaunchSource None sample_stat sample_read "dev" "/repo" "" (λ _, Some "/src") "/src/cli"
  = Ok ("/src", Some (BadRelease "installed Millstrand source" (NoVersionFile "/repo/VERSION"))) ∧
  checkout sample_stat sample_read "/src".
Proof.
  split; [by vm_compute|].
  refine (proj1 (launch_source None sample_stat sample_read "dev" "/repo" "" (λ _, Some "/src") "/src/cli" "/src"
    (Some (BadRelease "installed Millstrand source" (NoVersionFile "/repo/VERSION"))) _)).
  by vm_compute.
Defined.

Definition sample_diagnostic : doc :=
  DObject [("status", DString "invalid-dependency-config"); ("stage", DString "deps-read");
           ("source_path", DString "/w/a/deps.edn"); ("message", DString "bad deps"); ("cause", DString "EOF")].

(** The diagnostic is taken from its file, which is gone after that. *)
Example diagnostic_taken :
  let w := mkWorld "/w/a" "/s/a" "/d/a" "/d/a/db" "a" in
  weaverStartupError (λ _, None) (λ _, true) w "/s/a/weaver.log" None "exited"
    {["/s/a/dependency-diagnostic.json" := Holds (Some sample_diagnostic)]}
  = (∅, DependencyLaunch (mkDiagnostic "invalid-dependency-config" "deps-read" "/w/a/deps.edn" "bad deps" "EOF" None) "exited").
Proof. by vm_compute. Qed.

Example tail_cut : tailOfFile (Some (bytes_of "one two three")) 6 = "three".
Proof. by vm_compute. Qed.
