(* ===== verification/Replacement.v ===== *)
(** The launch of a weaver in place of one that was stopped, and the wait until a launched
    weaver is ready (src/cli/cmd/mill/restart_process.go). What is seen at each look, and
    what each call answers, is given; the wait ends when the looks do. *)

From S2P Require Export Identity Launch PoolHost.

(** ** Waiting for readiness *)

(** One turn of the loop: whether mill shuts down when it starts, what is seen of the
    workspace, the exit of the process, if it is there to be taken, whether the time is
    over, and whether mill shuts down before the next tick. *)
Record ready_look := mkReadyLook {
  rk_shutdown : bool;
  rk_moment : moment;
  rk_exit : option (option string);
  rk_late : bool;
  rk_cancelled : bool;
}.

Inductive ready_error :=
| StartCancelled
| BadReadyMetadata (e : identity_error)
| OtherPid (published expected : Z)
| StaleReady (reason : string)
| ExitedEarly (wait : option string)
| NotReadyInTime.

Section readiness.
Context (eval_symlinks : string → option string) (quote : string → string) (decode_text : string).

(** What the metadata of a workspace are good for; [None] if there are none yet. *)
Definition ready_status (w : world) (pid : Z) (mo : moment) : option (result ready_error object) :=
  match readStatus eval_symlinks quote decode_text w mo with
  | Some (status, false) =>
      Some (match identityFromStatus status with
            | Err e => Err (BadReadyMetadata e)
            | Ok id => if bool_decide (id_PID id = pid) then Ok status else Err (OtherPid (id_PID id) pid)
            end)
  | Some (status, true) => Some (Err (StaleReady (text "stale_reason" status)))
  | None => None
  end.

(** One turn: what ends the wait, if anything does, and the signals. [watched]: a shutdown
    can cancel the wait. *)
Definition ready_turn (w : world) (pid : Z) (watched : bool) (k : ready_look)
    : list act * option (result ready_error object) :=
  if watched && rk_shutdown k then ([], Some (Err StartCancelled)) else
  match ready_status w pid (rk_moment k) with
  | Some r => ([], Some r)
  | None =>
      match rk_exit k with
      | Some e => ([], Some (Err (ExitedEarly e)))
      | None =>
          if negb (mo_probe (rk_moment k) pid) then ([], Some (Err (ExitedEarly None)))
          else if rk_late k then (terminatePID pid, Some (Err NotReadyInTime))
          else if watched && rk_cancelled k then (terminatePID pid, Some (Err StartCancelled))
          else ([], None)
      end
  end.

(** [None] while it waits. *)
Fixpoint waitForReadyStatusContext (w : world) (pid : Z) (watched : bool) (looks : list ready_look)
    : list act * option (result ready_error object) :=
  match looks with
  | [] => ([], None)
  | k :: looks =>
      match ready_turn w pid watched k with
      | (acts, Some r) => (acts, Some r)
      | (acts, None) => waitForReadyStatusContext w pid watched looks
      end
  end.

Definition waitForReadyStatus (w : world) (pid : Z) (looks : list ready_look)
    : list act * option (result ready_error object) :=
  waitForReadyStatusContext w pid false looks.
End readiness.

(** What each tick sees of the process, and what is seen when its exit is there or the time
    is over. *)
Record exit_looks := mkExitLooks { xl_ticks : list bool; xl_last : bool }.

Definition waitRecordedExit (looks : exit_looks) : bool :=
  existsb negb (xl_ticks looks) || negb (xl_last looks).

(** ** Launching a replacement *)

(** A child that mill supervises; it has no process until it was started. *)
Record supervised := mkSupervised {
  sp_world : world;
  sp_name : string;
  sp_pid : option Z;
  sp_identity : weaverIdentity;
  sp_generation : string;
  sp_token : string;
}.

Record replacing := mkReplacing { rg_children : gmap string supervised; rg_files : files; rg_acts : list act }.

Inductive replace_error :=
| ReplaceMkdir
| ReplaceName
| ReplaceLog
| AlreadySupervised
| ReplaceStart (e : string)
| ReplaceNotReady (e : ready_error)
| ReplaceDependency (d : dependencyDiagnostic)
| ReplaceDiagnostic (d : diagnostic_error)
| ReplaceIdentity (e : identity_error)
| ReplacePid (published launched : Z)
| ReplaceStop (e : replace_error) (stop : stop_failure)
with stop_failure :=
| StopUnconfirmed
| StopCleanupFailed (e : cleanup_error).

(** The answers to a launch: the directories and the log can be made, the name, the minted
    token and generation, the start with its pid, the looks of the wait, what the weaver
    made of the files meanwhile, and what is seen of the process after each signal of a
    stop. *)
Record replace_answers := mkReplaceAnswers {
  ra_mkdir : bool;
  ra_name : option string;
  ra_log : bool;
  ra_token : string;
  ra_generation : string;
  ra_start : result string Z;
  ra_looks : list ready_look;
  ra_writes : files → files;
  ra_exit1 : exit_looks;
  ra_exit2 : exit_looks;
}.

Section replacement.
Context (eval_symlinks : string → option string) (quote : string → string) (decode_text : string).
Context (float_text : string → option string) (can_remove : string → bool).

Definition with_children (f : gmap string supervised → gmap string supervised) (s : replacing) : replacing :=
  mkReplacing (f (rg_children s)) (rg_files s) (rg_acts s).
Definition with_rfiles (fs : files) (s : replacing) : replacing := mkReplacing (rg_children s) fs (rg_acts s).
Definition acted (acts : list act) (s : replacing) : replacing :=
  mkReplacing (rg_children s) (rg_files s) (rg_acts s ++ acts).

(** Only the child's own entry is released: no other child takes it while mill holds its
    claim. *)
Definition release_child (c : supervised) (s : replacing) : replacing :=
  with_children (delete (ConfigDir (sp_world c))) s.

(** The signals of [terminateAndConfirm] to a child that mill launched. *)
Definition terminate_child (a : replace_answers) (pid : Z) : list act * bool :=
  if waitRecordedExit (ra_exit1 a) then (terminatePID pid, true)
  else (terminatePID pid ++ [KillPID pid], waitRecordedExit (ra_exit2 a)).

Definition stopFailedReplacement (a : replace_answers) (c : supervised) (pid : Z) (s : replacing)
    : replacing * result stop_failure unit :=
  let '(acts, gone) := terminate_child a pid in
  let s := acted acts s in
  if negb gone then (s, Err StopUnconfirmed) else
  let s := release_child c s in
  match cleanupWorldArtifactsOwned can_remove (sp_world c) (sp_identity c) (rg_files s) with
  | (fs, Ok _) => (with_rfiles fs s, Ok tt)
  | (fs, Err e) => (with_rfiles fs s, Err (StopCleanupFailed e))
  end.

(** A failure after the process was started: it is stopped, and a stop that fails is part
    of the error. *)
Definition fail_stopped (a : replace_answers) (c : supervised) (pid : Z) (e : replace_error) (s : replacing)
    : replacing * result replace_error (object * supervised) :=
  match stopFailedReplacement a c pid s with
  | (s, Err stop) => (s, Err (ReplaceStop e stop))
  | (s, Ok _) => (s, Err e)
  end.

(** The same for a replacement that is not ready, which may have left a diagnostic. *)
Definition fail_not_ready (a : replace_answers) (c : supervised) (pid : Z) (e : ready_error) (s : replacing)
    : replacing * result replace_error (object * supervised) :=
  match stopFailedReplacement a c pid s with
  | (s, Err stop) => (s, Err (ReplaceStop (ReplaceNotReady e) stop))
  | (s, Ok _) =>
      let '(fs, r) := readDependencyDiagnostic float_text can_remove (sp_world c) (rg_files s) in
      (with_rfiles fs s,
       Err (match r with
            | Err d => ReplaceDiagnostic d
            | Ok (Some d) => ReplaceDependency d
            | Ok None => ReplaceNotReady e
            end))
  end.

Definition set_identity (id : weaverIdentity) (c : supervised) : supervised :=
  mkSupervised (sp_world c) (sp_name c) (sp_pid c) id (id_GenerationID id) (sp_token c).

(** Once the process runs; [None] while its readiness is waited for. *)
Definition await_replacement (a : replace_answers) (c : supervised) (pid : Z) (s : replacing)
    : option (replacing * result replace_error (object * supervised)) :=
  match waitForReadyStatus eval_symlinks quote decode_text (sp_world c) pid (ra_looks a) with
  | (_, None) => None
  | (acts, Some (Err e)) =>
      Some (fail_not_ready a c pid e (with_rfiles (ra_writes a (rg_files s)) (acted acts s)))
  | (acts, Some (Ok status)) =>
      let s := with_rfiles (ra_writes a (rg_files s)) (acted acts s) in
      Some (match identityFromStatus status with
            | Err e => fail_stopped a c pid (ReplaceIdentity e) s
            | Ok id =>
                if bool_decide (id_PID id = pid) then
                  let c := set_identity id c in
                  (with_children (insert (ConfigDir (sp_world c)) c) s,
                   Ok (<["generation_id" := AString (sp_generation c)]> status, c))
                else fail_stopped a c pid (ReplacePid (id_PID id) pid) s
            end)
  end.

Definition started_child (a : replace_answers) (w : world) (name : string) (pid : option Z) : supervised :=
  mkSupervised w name pid zero_identity (ra_generation a) (ra_token a).

Definition launchReplacement (a : replace_answers) (w : world) (s : replacing)
    : option (replacing * result replace_error (object * supervised)) :=
  if negb (ra_mkdir a) then Some (s, Err ReplaceMkdir) else
  match ra_name a with
  | None => Some (s, Err ReplaceName)
  | Some name =>
      let diagnostic := dependencyDiagnosticPath (StateDir w) in
      let s := with_rfiles (if can_remove diagnostic then delete diagnostic (rg_files s) else rg_files s) s in
      if negb (ra_log a) then Some (s, Err ReplaceLog) else
      match rg_children s !! ConfigDir w with
      | Some _ => Some (s, Err AlreadySupervised)
      | None =>
          match ra_start a with
          | Err e =>
              let c := started_child a w name None in
              Some (release_child c (with_children (insert (ConfigDir w) c) s), Err (ReplaceStart e))
          | Ok pid =>
              let c := started_child a w name (Some pid) in
              await_replacement a c pid (with_children (insert (ConfigDir w) c) s)
          end
      end
  end.
End replacement.

(** ** Lemmas: readiness *)

Section ready.
Context (eval_symlinks : string → option string) (quote : string → string) (decode_text : string).

Notation wait := (waitForReadyStatusContext eval_symlinks quote decode_text) (only parsing).
Notation turn := (ready_turn eval_symlinks quote decode_text) (only parsing).

(** The signals to the group of one process. *)
Definition only_group (pid : Z) (acts : list act) : Prop := acts = [] ∨ (0 < pid)%Z ∧ acts = [TermGroup pid].

Lemma terminate_group pid : only_group pid (terminatePID pid).
Proof. unfold terminatePID. destruct (Z.ltb_spec 0 pid); [by right|by left]. Qed.

(** A turn that ends with a status signals nothing, and the status is that of good
    metadata which the launched process published. *)
Definition published_ready (w : world) (pid : Z) (mo : moment) (status : object) : Prop :=
  readStatus eval_symlinks quote decode_text w mo = Some (status, false) ∧
  ∃ id, identityFromStatus status = Ok id ∧ id_PID id = pid.

Lemma turn_ends w pid watched k acts r :
  turn w pid watched k = (acts, Some r) →
  only_group pid acts ∧ ∀ status, r = Ok status → acts = [] ∧ published_ready w pid (rk_moment k) status.
Proof.
  unfold ready_turn. intros H. destruct (watched && rk_shutdown k); [injection H as <- <-; split; [by left|done]|].
  destruct (ready_status _ _ _ w pid (rk_moment k)) as [r0|] eqn:Er.
  - injection H as <- <-. split; [by left|]. intros status ->. split; [done|].
    unfold ready_status in Er. destruct (readStatus _ _ _ w _) as [[st []]|] eqn:Es; [done| |done].
    destruct (identityFromStatus st) as [id|] eqn:Ei; [|done]. case_bool_decide; [|done]. injection Er as <-.
    split; [exact Es|by exists id].
  - destruct (rk_exit k); [injection H as <- <-; split; [by left|done]|].
    destruct (mo_probe (rk_moment k) pid); cbn [negb] in H; [|injection H as <- <-; split; [by left|done]].
    destruct (rk_late k); [injection H as <- <-; split; [apply terminate_group|done]|].
    destruct (watched && rk_cancelled k); [injection H as <- <-; split; [apply terminate_group|done]|done].
Qed.

Lemma wait_ends w pid watched looks acts r :
  wait w pid watched looks = (acts, Some r) → ∃ k, k ∈ looks ∧ turn w pid watched k = (acts, Some r).
Proof.
  induction looks as [|k looks IH]; [done|]. cbn. destruct (turn w pid watched k) as [acts1 [r1|]] eqn:Et.
  - intros [= <- <-]. exists k. split; [by left|done].
  - intros (x & Hx & H)%IH. exists x. split; [by right|done].
Qed.

Lemma wait_signals w pid watched looks acts o : wait w pid watched looks = (acts, o) → only_group pid acts.
Proof.
  destruct o as [r|].
  - intros (k & _ & Ht)%wait_ends. by apply turn_ends in Ht as [? _].
  - intros Hw. left. revert Hw. induction looks as [|k looks IH]; [by intros [= <-]|]. cbn.
    destruct (turn w pid watched k) as [acts1 [r1|]]; [done|exact IH].
Qed.

Lemma wait_ready w pid watched looks acts status :
  wait w pid watched looks = (acts, Some (Ok status)) →
  acts = [] ∧ ∃ k, k ∈ looks ∧ published_ready w pid (rk_moment k) status.
Proof.
  intros (k & Hk & Ht)%wait_ends. apply turn_ends in Ht as [_ Ht].
  destruct (Ht status eq_refl) as [? ?]. split; [done|]. by exists k.
Qed.

(** The wait for a launched weaver succeeds only on good metadata that this process
    published; it signals no other process, and this one only when the time is over or
    mill shuts down; and it ends once the time is over, or the process is. *)
Theorem ready_proved w pid watched looks :
  let '(acts, o) := wait w pid watched looks in
  only_group pid acts ∧
  (∀ status, o = Some (Ok status) → acts = [] ∧ ∃ k, k ∈ looks ∧ published_ready w pid (rk_moment k) status) ∧
  ((∃ k, k ∈ looks ∧ (rk_late k = true ∨ mo_probe (rk_moment k) pid = false ∨ is_Some (rk_exit k))) → is_Some o).
Proof.
  destruct (wait w pid watched looks) as [acts o] eqn:Hw. split_and!; [by eapply wait_signals| |].
  { intros status ->. by eapply wait_ready. }
  intros (k & Hk & Hend). destruct o; [done|]. exfalso. revert Hw.
  induction looks as [|k' looks IH]; [by apply not_elem_of_nil in Hk|]. cbn.
  destruct (turn w pid watched k') as [acts1 [r1|]] eqn:Et; [done|].
  apply elem_of_cons in Hk as [->|Hk]; [|by apply IH]. intros _. unfold ready_turn in Et.
  destruct (watched && rk_shutdown k'); [done|]. destruct (ready_status _ _ _ w pid _); [done|].
  destruct (rk_exit k'); [done|]. destruct (mo_probe (rk_moment k') pid); [|done]. cbn [negb] in Et.
  destruct (rk_late k'); [done|]. destruct Hend as [?|[?|[? ?]]]; done.
Qed.
End ready.

(** ** Lemmas: replacements *)

Lemma some_pair {A} (x y : A) : Some x = Some y → x = y.
Proof. by intros [= ->]. Qed.

Section replacements.
Context (eval_symlinks : string → option string) (quote : string → string) (decode_text : string).
Context (float_text : string → option string) (can_remove : string → bool) (a : replace_answers) (w : world).

(** The process that was launched, by its child, is signalled alone. *)
Definition signals_of (pid : Z) (acts : list act) : Prop := ∀ x, x ∈ acts → x = TermGroup pid ∨ x = KillPID pid.

(** The process was seen gone after one of the signals. *)
Definition seen_gone (a : replace_answers) : bool := waitRecordedExit (ra_exit1 a) || waitRecordedExit (ra_exit2 a).

Lemma terminate_signals pid acts gone : terminate_child a pid = (acts, gone) → signals_of pid acts ∧ gone = seen_gone a.
Proof using.
  clear. unfold terminate_child, terminatePID, signals_of, seen_gone. intros H.
  destruct (waitRecordedExit (ra_exit1 a)); destruct (0 <? pid)%Z; injection H as <- <-; (split; [|done]); intros x Hx;
    rewrite ?elem_of_app, ?elem_of_cons, ?elem_of_nil in Hx; intuition.
Qed.

Lemma stop_cases c pid s s' r :
  stopFailedReplacement can_remove a c pid s = (s', r) →
  (∃ acts, rg_acts s' = rg_acts s ++ acts ∧ signals_of pid acts) ∧
  (r = Err StopUnconfirmed ∧ seen_gone a = false ∧ rg_children s' = rg_children s ∨
   seen_gone a = true ∧ r ≠ Err StopUnconfirmed ∧
   rg_children s' = delete (ConfigDir (sp_world c)) (rg_children s)).
Proof using.
  clear. unfold stopFailedReplacement. destruct (terminate_child a pid) as [acts gone] eqn:Et.
  apply terminate_signals in Et as [Hs Hg]. intros H. destruct gone; cbn [negb] in H.
  - cbn [release_child with_children rg_files acted] in H.
    destruct (cleanupWorldArtifactsOwned _ _ _ _) as [fs [u|e]]; injection H as <- <-;
      (split; [by exists acts|by right]).
  - injection H as <- <-. split; [by exists acts|by left].
Qed.

(** The launch came as far as to start a process. *)
Definition launched (s : replacing) (name : string) (pid : Z) : Prop :=
  ra_mkdir a = true ∧ ra_name a = Some name ∧ ra_log a = true ∧ rg_children s !! ConfigDir w = None ∧
  ra_start a = Ok pid.

(** After a failed launch the same weavers are supervised as before and a process that was
    started was seen gone; or it was not, then it stays supervised. *)
Definition accounted (s s' : replacing) (e : replace_error) : Prop :=
  (rg_children s' = rg_children s ∧ ∀ name pid, launched s name pid → seen_gone a = true) ∨
  (∃ name pid e', launched s name pid ∧ e = ReplaceStop e' StopUnconfirmed ∧ seen_gone a = false ∧
     rg_children s' = <[ConfigDir w := started_child a w name (Some pid)]> (rg_children s)).

(** The process of a launch that succeeds is the supervised one, under the identity that it
    published. *)
Definition supervised_as (s s' : replacing) (status : object) (c : supervised) : Prop :=
  rg_children s' = <[ConfigDir w := c]> (rg_children s) ∧
  ∃ name, launched s name (id_PID (sp_identity c)) ∧ sp_pid c = Some (id_PID (sp_identity c)) ∧
    sp_generation c = id_GenerationID (sp_identity c) ∧
    status !! "generation_id" = Some (AString (sp_generation c)).

Definition outcome_accounted (s s' : replacing) (r : result replace_error (object * supervised)) : Prop :=
  (∃ acts, rg_acts s' = rg_acts s ++ acts ∧
     ∀ x, x ∈ acts → ∃ name pid, launched s name pid ∧ (x = TermGroup pid ∨ x = KillPID pid)) ∧
  match r with Ok (status, c) => supervised_as s s' status c | Err e => accounted s s' e end.

(** A launch that ends before a process is started changes nothing. *)
Lemma not_started s s' e :
  rg_children s' = rg_children s → rg_acts s' = rg_acts s → (∀ name pid, ¬ launched s name pid) →
  outcome_accounted s s' (Err e).
Proof using.
  clear. intros Hc Ha Hn. split.
  - exists []. rewrite app_nil_r. split; [exact Ha|]. intros x Hx. by apply not_elem_of_nil in Hx.
  - left. split; [exact Hc|]. intros name pid Hl. by destruct (Hn name pid).
Qed.

(** A launch that fails with its process stopped. *)
Lemma stopped_accounted s name pid acts s1 s2 s3 r e e' :
  launched s name pid → rg_acts s1 = rg_acts s ++ acts → signals_of pid acts →
  rg_children s1 = <[ConfigDir w := started_child a w name (Some pid)]> (rg_children s) →
  stopFailedReplacement can_remove a (started_child a w name (Some pid)) pid s1 = (s2, r) →
  rg_children s3 = rg_children s2 → rg_acts s3 = rg_acts s2 →
  (∀ stop, r = Err stop → e' = ReplaceStop e stop) →
  outcome_accounted s s3 (Err e').
Proof using.
  clear. intros Hl Ha Hs Hc [(acts2 & Ha2 & Hs2) Hcases]%stop_cases Hc3 Ha3 He. split.
  - exists (acts ++ acts2). rewrite Ha3, Ha2, Ha, app_assoc. split; [done|].
    intros x [?|?]%elem_of_app; exists name, pid; (split; [done|auto]).
  - pose proof Hl as (_ & _ & _ & Hn & _). destruct Hcases as [(-> & Hg & Hc2)|(Hg & _ & Hc2)].
    + right. exists name, pid, e. split_and!; [done|by apply He|done|by rewrite Hc3, Hc2].
    + left. split; [|by intros]. rewrite Hc3, Hc2, Hc. by apply delete_insert_id.
Qed.

Lemma fail_stopped_accounted s name pid acts s1 e :
  launched s name pid → rg_acts s1 = rg_acts s ++ acts → signals_of pid acts →
  rg_children s1 = <[ConfigDir w := started_child a w name (Some pid)]> (rg_children s) →
  let '(s', r) := fail_stopped can_remove a (started_child a w name (Some pid)) pid e s1 in outcome_accounted s s' r.
Proof using.
  clear. intros Hl Ha Hs Hc. unfold fail_stopped. destruct (stopFailedReplacement _ _ _ _ s1) as [s2 [u|stop]] eqn:E;
    (eapply (stopped_accounted _ _ _ _ _ s2 s2 _ e); [exact Hl|exact Ha|exact Hs|exact Hc|exact E|done|done|]); by intros ? [= ->].
Qed.

Lemma fail_not_ready_accounted s name pid acts s1 e :
  launched s name pid → rg_acts s1 = rg_acts s ++ acts → signals_of pid acts →
  rg_children s1 = <[ConfigDir w := started_child a w name (Some pid)]> (rg_children s) →
  let '(s', r) := fail_not_ready float_text can_remove a (started_child a w name (Some pid)) pid e s1 in
  outcome_accounted s s' r.
Proof using.
  clear. intros Hl Ha Hs Hc. unfold fail_not_ready. destruct (stopFailedReplacement _ _ _ _ s1) as [s2 [u|stop]] eqn:E.
  - destruct (readDependencyDiagnostic _ _ _ _) as [fs d].
    eapply (stopped_accounted _ _ _ _ _ s2 _ _ (ReplaceNotReady e)); [exact Hl|exact Ha|exact Hs|exact Hc|exact E|done|done|done].
  - eapply (stopped_accounted _ _ _ _ _ s2 s2 _ (ReplaceNotReady e)); [exact Hl|exact Ha|exact Hs|exact Hc|exact E|done|done|].
    by intros ? [= ->].
Qed.

End replacements.

(** ** Examples *)

Definition sample_look : ready_look := mkReadyLook false sample_moment None false false.

(** Nothing is published yet. *)
Definition early_look (late : bool) : ready_look :=
  mkReadyLook false (mkMoment ∅ (Ok None) (λ _, true) "q" None) None late false.

Definition sample_launch (looks : list ready_look) : replace_answers :=
  mkReplaceAnswers true (Some "w") true "t" "g1" (Ok 42%Z) looks (λ _, sample_runtime)
    (mkExitLooks [true] true) (mkExitLooks [true; false] true).

Definition sample_replacing : replacing := mkReplacing ∅ ∅ [].

Definition launch_sample (looks : list ready_look) : option (replacing * result replace_error (object * supervised)) :=
  launchReplacement Some id "" Some (λ _, true) (sample_launch looks) sample_weaver_world sample_replacing.

Example ready_first : waitForReadyStatus Some id "" sample_weaver_world 41 [early_look false; sample_look]
  = ([], Some (Err (OtherPid 42 41))).
Proof. vm_compute. reflexivity. Qed.

Example wait_exit : waitRecordedExit (mkExitLooks [true; true] true) = false.
Proof. reflexivity. Qed.

(** A replacement that never is ready is killed, and what it published all the same stays:
    the identity to clean up for is not known yet. *)
Example late_replacement :
  (λ o, match o with
        | Some (s, Err (ReplaceStop (ReplaceNotReady NotReadyInTime) (StopCleanupFailed OwnershipChanged))) =>
            (bool_decide (rg_children s = ∅), rg_acts s, bool_decide (is_Some (rg_files s !! "/s/w/weaver.json")))
        | _ => (false, [], false)
        end) (launch_sample [early_look true])
  = (true, [TermGroup 42; TermGroup 42; KillPID 42], true).
Proof. vm_compute. reflexivity. Qed.

Definition launched_ok (o : option (replacing * result replace_error (object * supervised))) : bool :=
  match o with Some (_, Ok (_, c)) => bool_decide (sp_pid c = Some 42%Z) && bool_decide (sp_generation c = "g2") | _ => false end.

