(* ===== verification/Teardown.v ===== *)
(** The end of mill (src/cli/cmd/mill/lifecycle.go, [stopAll], with temporary.go): once no
    start is under way, the custodies, the hosts of pools and the supervised weavers are
    shut down in turn, and what they published is taken away. The order in which Go
    iterates over a map is that of the list given for it. *)

From S2P Require Export Config PoolHost.

(** ** The state *)

Record weaverChild := mkWeaverChild {
  ch_world : world;
  ch_temporary : bool;
  ch_pid : option Z;
  ch_identity : weaverIdentity;
}.

(** What is done, in order. *)
Inductive closing_event :=
| CustodyShutdown (stateDir : string)
| Terminated (pid : Z)
| Killed (pid : Z)
| TreeRemoved (dir : string).

Inductive closing_error :=
| CustodyFailed (stateDir : string)
| ArtifactsFailed (configDir : string) (e : cleanup_error)
| TemporaryCustody (stateDir : string)
| NotTemporary (stateDir : string)
| TreeFailed (stateDir : string).

(** [cl_stopping]: starts are refused from here on. *)
Record closing := mkClosing {
  cl_stopping : bool;
  cl_custodies : list string;
  cl_hosts : list (string * weaverHost);
  cl_routes : gmap string nat;
  cl_children : list weaverChild;
  cl_files : files;
  cl_log : list closing_event;
  cl_failures : list closing_error;
}.

(** What is answered: which custodies shut down without an error, which processes live and
    which go in time after the first signal, which files can be removed, and what of a tree
    cannot. *)
Record closing_answers := mkClosingAnswers {
  ca_custody : string → bool;
  ca_alive : Z → bool;
  ca_exited : Z → bool;
  ca_in_time : Z → bool;
  ca_can_remove : string → bool;
  ca_tree_left : string → option (gset string);
}.

Definition record (l : list closing_event) (s : closing) : closing :=
  let '(mkClosing st cu ho ro ch fs lo fa) := s in mkClosing st cu ho ro ch fs (lo ++ l) fa.
Definition fail (e : closing_error) (s : closing) : closing :=
  let '(mkClosing st cu ho ro ch fs lo fa) := s in mkClosing st cu ho ro ch fs lo (fa ++ [e]).
Definition set_files (fs : files) (s : closing) : closing :=
  let '(mkClosing st cu ho ro ch _ lo fa) := s in mkClosing st cu ho ro ch fs lo fa.
Definition drop_host (pool : string) (s : closing) : closing :=
  let '(mkClosing st cu ho ro ch fs lo fa) := s in
  mkClosing st cu (filter (λ h, h.1 ≠ pool) ho) ro ch fs lo fa.
Definition clear_routes (s : closing) : closing :=
  let '(mkClosing st cu ho _ ch fs lo fa) := s in mkClosing st cu ho ∅ ch fs lo fa.
Definition drop_child (c : weaverChild) (s : closing) : closing :=
  let '(mkClosing st cu ho ro ch fs lo fa) := s in
  mkClosing st (filter (λ d, d ≠ StateDir (ch_world c)) cu) ho ro
    (filter (λ x, ConfigDir (ch_world x) ≠ ConfigDir (ch_world c)) ch) fs lo fa.
Definition refuse_starts (s : closing) : closing :=
  let '(mkClosing _ cu ho ro ch fs lo fa) := s in mkClosing true cu ho ro ch fs lo fa.

(** A path of the tree below a directory, the directory included. *)
Definition below (dir path : string) : bool := bool_decide (path = dir) || HasPrefix path (dir +:+ "/").

Section teardown.
Context (xdg_state_home : string) (home : option string) (a : closing_answers).

Definition temporary_dir (stateDir : string) : bool := IsTemporaryRuntimeDir xdg_state_home home stateDir.

(** ** The parts of the shutdown *)

Definition close_custody (stateDir : string) (s : closing) : closing :=
  if temporary_dir stateDir then s
  else
    let s := record [CustodyShutdown stateDir] s in
    if ca_custody a stateDir then s else fail (CustodyFailed stateDir) s.

(** The artifacts of a weaver that has an identity; the error is returned. *)
Definition clean_artifacts (w : world) (id : weaverIdentity) (s : closing) : closing * option closing_error :=
  if bool_decide (id_WeaverID id = "") then (s, None)
  else match cleanupWorldArtifactsOwned (ca_can_remove a) w id (cl_files s) with
       | (fs, Ok _) => (set_files fs s, None)
       | (fs, Err e) => (set_files fs s, Some (ArtifactsFailed (ConfigDir w) e))
       end.

Definition noted (r : closing * option closing_error) : closing :=
  match r with (s, Some e) => fail e s | (s, None) => s end.

Definition close_member (m : poolMember) (s : closing) : closing :=
  noted (clean_artifacts (pm_World m) (pm_Identity m) s).

Definition close_host (ph : string * weaverHost) (s : closing) : closing :=
  let '(pool, h) := ph in
  let s := if wh_cmd h && ca_alive a (wh_PID h) then record [Terminated (wh_PID h)] s else s in
  let s := foldl (λ s m, close_member m s) s (wh_Members h) in
  let s := if ca_can_remove a (wh_ReadyPath h) then set_files (delete (wh_ReadyPath h) (cl_files s)) s else s in
  drop_host pool s.

(** A process is signalled, and killed if it does not go in time; it is gone then. *)
Definition end_process (pid : Z) (s : closing) : closing :=
  record (Terminated pid :: if ca_in_time a pid then [] else [Killed pid]) s.

(** [removeTemporaryRuntimeWorld]. *)
Definition remove_tree (stateDir : string) (s : closing) : closing * option closing_error :=
  if negb (temporary_dir stateDir) then (s, Some (NotTemporary stateDir))
  else
    let s := record [TreeRemoved stateDir] s in
    match ca_tree_left a stateDir with
    | None => (set_files (filter (λ kv, below stateDir kv.1 = false) (cl_files s)) s, None)
    | Some kept =>
        (set_files (filter (λ kv, below stateDir kv.1 = false ∨ kv.1 ∈ kept) (cl_files s)) s,
         Some (TreeFailed stateDir))
    end.

(** [cleanupTemporaryChildLocked]: the first error ends it. *)
Definition cleanupTemporaryChild (c : weaverChild) (s : closing) : closing * option closing_error :=
  let dir := StateDir (ch_world c) in
  let held := bool_decide (dir ∈ cl_custodies s) in
  let s := if held then record [CustodyShutdown dir] s else s in
  if held && negb (ca_custody a dir) then (s, Some (TemporaryCustody dir)) else
  match clean_artifacts (ch_world c) (ch_identity c) s with
  | (s, Some e) => (s, Some e)
  | (s, None) =>
      match remove_tree dir s with
      | (s, Some e) => (s, Some e)
      | (s, None) => (drop_child c s, None)
      end
  end.

(** [stopStartedChild]: a process that was reaped before is left alone. *)
Definition stopStartedChild (c : weaverChild) (s : closing) : closing :=
  match ch_pid c with Some pid => if ca_exited a pid then s else end_process pid s | None => s end.

Definition close_child (c : weaverChild) (s : closing) : closing :=
  if ch_temporary c then noted (cleanupTemporaryChild c (stopStartedChild c s))
  else
    let s := match ch_pid c with Some pid => if ca_alive a pid then end_process pid s else s | None => s end in
    noted (clean_artifacts (ch_world c) (ch_identity c) s).

Definition close_custodies (s : closing) : closing := foldl (λ s d, close_custody d s) s (cl_custodies s).
Definition close_hosts (s : closing) : closing := foldl (λ s ph, close_host ph s) s (cl_hosts s).
Definition close_children (s : closing) : closing := foldl (λ s c, close_child c s) s (cl_children s).

(** The state is that after the starts under way have ended. *)
Definition stopAll (s : closing) : closing * list closing_error :=
  let s := close_children (clear_routes (close_hosts (close_custodies (refuse_starts s)))) in
  (s, cl_failures s).
End teardown.

(** ** Lemmas: what one part may do *)

Section progress.
Context (E : closing_event → Prop) (F : string → Prop).

(** From [s] to [s'] only such events happened, only such files changed, and nothing was
    added to what mill keeps. *)
Record ran (s s' : closing) : Prop := mkRan {
  ran_stopping : cl_stopping s' = cl_stopping s;
  ran_routes : cl_routes s = ∅ → cl_routes s' = ∅;
  ran_log : ∃ l, cl_log s' = cl_log s ++ l ∧ Forall E l;
  ran_failures : ∃ l, cl_failures s' = cl_failures s ++ l;
  ran_files : ∀ p, ¬ F p → cl_files s' !! p = cl_files s !! p;
  ran_custodies : cl_custodies s' ⊆ cl_custodies s;
  ran_hosts : cl_hosts s' ⊆ cl_hosts s;
  ran_children : cl_children s' ⊆ cl_children s;
}.

Lemma ran_refl s : ran s s.
Proof. split; try done; by exists []; rewrite app_nil_r. Qed.

Lemma ran_trans s1 s2 s3 : ran s1 s2 → ran s2 s3 → ran s1 s3.
Proof.
  intros [? Hr1 (l1 & Hl1 & ?) (f1 & Hf1) Hp1 ? ? ?] [? Hr2 (l2 & Hl2 & ?) (f2 & Hf2) Hp2 ? ? ?]. split.
  - congruence.
  - auto.
  - exists (l1 ++ l2). rewrite Hl2, Hl1, app_assoc. split; [done|by apply Forall_app].
  - exists (f1 ++ f2). by rewrite Hf2, Hf1, app_assoc.
  - intros p Hp. by rewrite Hp2, Hp1.
  - set_solver.
  - set_solver.
  - set_solver.
Qed.

Lemma ran_record l s : Forall E l → ran s (record l s).
Proof. intros H. destruct s. split; try done; cbn; [by eexists|by exists []; rewrite app_nil_r]. Qed.

Lemma ran_fail e s : ran s (fail e s).
Proof. destruct s. split; try done; cbn; [by exists []; rewrite app_nil_r|by eexists]. Qed.

Lemma ran_set_files fs s : (∀ p, ¬ F p → fs !! p = cl_files s !! p) → ran s (set_files fs s).
Proof. intros H. destruct s. split; try done; by exists []; rewrite app_nil_r. Qed.

Lemma ran_drop_host pool s : ran s (drop_host pool s).
Proof.
  destruct s. split; try done; cbn; [by exists []; rewrite app_nil_r..|].
  intros x. rewrite list_elem_of_filter. by intros [_ ?].
Qed.

Lemma ran_drop_child c s : ran s (drop_child c s).
Proof.
  destruct s. split; try done; cbn; [by exists []; rewrite app_nil_r..| |];
    intros x; rewrite list_elem_of_filter; by intros [_ ?].
Qed.

Lemma ran_noted s s' o : ran s s' → ran s (noted (s', o)).
Proof. intros H. destruct o; [|done]. eapply ran_trans; [exact H|apply ran_fail]. Qed.

Lemma ran_foldl {A} (f : A → closing → closing) (C : list string) l : ∀ s,
  (∀ x s, x ∈ l → cl_custodies s ⊆ C → ran s (f x s)) → cl_custodies s ⊆ C → ran s (foldl (λ s x, f x s) s l).
Proof.
  induction l as [|x l IH]; intros s Hf HC; [apply ran_refl|]. cbn.
  assert (ran s (f x s)) as H by (apply Hf; [by left|done]). eapply ran_trans; [exact H|].
  apply IH; [|by etrans; [apply H|]]. intros y s' Hy. apply Hf. by right.
Qed.

(** What one part logs is in the log at the end, and the last state of a part is kept in
    mind by the parts after it. *)
Lemma ran_foldl_at {A} (f : A → closing → closing) (C : list string) l x : ∀ s,
  (∀ x s, x ∈ l → cl_custodies s ⊆ C → ran s (f x s)) → cl_custodies s ⊆ C → x ∈ l →
  ∃ s1, cl_custodies s1 ⊆ C ∧ ran s s1 ∧ ran (f x s1) (foldl (λ s x, f x s) s l).
Proof.
  induction l as [|y l IH]; intros s Hf HC Hx; [by apply not_elem_of_nil in Hx|]. cbn.
  assert (ran s (f y s)) as H by (apply Hf; [by left|done]).
  assert (cl_custodies (f y s) ⊆ C) by (by etrans; [apply H|]).
  assert (Hrest : ∀ x s, x ∈ l → cl_custodies s ⊆ C → ran s (f x s)) by (intros z s' Hz; apply Hf; by right).
  apply elem_of_cons in Hx as [->|Hx].
  - exists s. split; [done|]. split; [apply ran_refl|]. by apply (ran_foldl _ C).
  - destruct (IH (f y s) Hrest) as (s1 & ? & H1 & H2); [done..|]. exists s1. split; [done|].
    split; [|done]. by eapply ran_trans.
Qed.
End progress.

Lemma ran_event (E : closing_event → Prop) F s s' e : ran E F s s' → e ∈ cl_log s → e ∈ cl_log s'.
Proof. intros [_ _ (l & -> & _) _ _ _ _ _] He. apply elem_of_app. by left. Qed.

Lemma ran_failure (E : closing_event → Prop) F s s' e : ran E F s s' → e ∈ cl_failures s → e ∈ cl_failures s'.
Proof. intros [_ _ _ (l & ->) _ _ _ _] He. apply elem_of_app. by left. Qed.

(** ** Lemmas: the parts *)

Lemma cleanup_elsewhere can_remove w id fs p :
  p ∉ artifacts (StateDir w) → (cleanupWorldArtifactsOwned can_remove w id fs).1 !! p = fs !! p.
Proof.
  intros Hp. unfold cleanupWorldArtifactsOwned. destruct (fs !! weaver_json (StateDir w)) as [[|d]|]; [done| |done].
  destruct (d ≫= decodeMetadata); [|done]. destruct (_ || _); [done|].
  pose proof (remove_all_spec can_remove (artifacts (StateDir w)) fs None) as H.
  destruct (foldl _ _ _) as [fs' r]. destruct H as [H _]. cbn. rewrite H. by rewrite bool_decide_false.
Qed.

Section parts.
Context (xdg_state_home : string) (home : option string) (a : closing_answers) (s0 : closing).

Notation is_temporary := (temporary_dir xdg_state_home home).

(** A process of mill: the live one of a host, or that of a child, if it was not reaped. *)
Definition child_runs (c : weaverChild) (pid : Z) : Prop :=
  ch_pid c = Some pid ∧ (if ch_temporary c then ca_exited a pid = false else ca_alive a pid = true).

Definition host_runs (h : weaverHost) (pid : Z) : Prop := wh_cmd h = true ∧ ca_alive a pid = true ∧ wh_PID h = pid.

Definition owned_temporary (dir : string) : Prop :=
  is_temporary dir = true ∧ ∃ c, c ∈ cl_children s0 ∧ ch_temporary c = true ∧ StateDir (ch_world c) = dir.

Definition may_happen (e : closing_event) : Prop :=
  match e with
  | CustodyShutdown d => d ∈ cl_custodies s0
  | Terminated pid =>
      (∃ pool h, (pool, h) ∈ cl_hosts s0 ∧ host_runs h pid) ∨ (∃ c, c ∈ cl_children s0 ∧ child_runs c pid)
  | Killed pid => ca_in_time a pid = false ∧ ∃ c, c ∈ cl_children s0 ∧ child_runs c pid
  | TreeRemoved d => owned_temporary d
  end.

Definition identified_artifact (w : world) (id : weaverIdentity) (p : string) : Prop :=
  id_WeaverID id ≠ "" ∧ p ∈ artifacts (StateDir w).

Definition may_change (p : string) : Prop :=
  (∃ pool h, (pool, h) ∈ cl_hosts s0 ∧
     (p = wh_ReadyPath h ∨ ∃ m, m ∈ wh_Members h ∧ identified_artifact (pm_World m) (pm_Identity m) p)) ∨
  (∃ c, c ∈ cl_children s0 ∧ identified_artifact (ch_world c) (ch_identity c) p) ∨
  (∃ d, owned_temporary d ∧ below d p = true).

Notation proper := (ran may_happen may_change).

Lemma custody_proper d s : d ∈ cl_custodies s0 → proper s (close_custody xdg_state_home home a d s).
Proof using.
  clear. intros Hd. unfold close_custody. destruct (is_temporary d); [apply ran_refl|].
  assert (proper s (record [CustodyShutdown d] s)) as H by (by apply ran_record, Forall_singleton).
  destruct (ca_custody a d); [done|]. eapply ran_trans; [exact H|apply ran_fail].
Qed.

Lemma artifacts_proper w id s :
  (∀ p, identified_artifact w id p → may_change p) → proper s (clean_artifacts a w id s).1.
Proof using.
  clear. intros Hp. unfold clean_artifacts. case_bool_decide as Hid; [apply ran_refl|].
  pose proof (λ p, cleanup_elsewhere (ca_can_remove a) w id (cl_files s) p) as Hc.
  destruct (cleanupWorldArtifactsOwned _ w id _) as [fs [u|e]]; cbn [fst] in *;
    (apply ran_set_files; intros p Hn; apply Hc; intros Hin; apply Hn, Hp; by split).
Qed.

Lemma noted_artifacts_proper w id s :
  (∀ p, identified_artifact w id p → may_change p) → proper s (noted (clean_artifacts a w id s)).
Proof using.
  clear. intros Hp. apply (artifacts_proper _ _ s) in Hp. destruct (clean_artifacts a w id s). by apply ran_noted.
Qed.

Lemma ran_delete p s : may_change p → proper s (set_files (delete p (cl_files s)) s).
Proof using.
  clear. intros Hp. apply ran_set_files. intros q Hq. rewrite lookup_delete_ne; [done|]. by intros ->.
Qed.

Lemma host_proper ph s : ph ∈ cl_hosts s0 → proper s (close_host a ph s).
Proof using.
  clear. destruct ph as [pool h]. intros Hh. unfold close_host.
  set (s1 := if wh_cmd h && ca_alive a (wh_PID h) then record [Terminated (wh_PID h)] s else s).
  assert (proper s s1) as H1.
  { unfold s1. destruct (wh_cmd h) eqn:Ec; [|apply ran_refl]. destruct (ca_alive a (wh_PID h)) eqn:Ea; [|apply ran_refl].
    apply ran_record, Forall_singleton. left. by exists pool, h. }
  set (s2 := foldl _ s1 (wh_Members h)). assert (proper s1 s2) as H2.
  { apply (ran_foldl _ _ (close_member a) (cl_custodies s1)); [|done]. intros m s' Hm _.
    apply noted_artifacts_proper. intros p Hp. left. exists pool, h. split; [done|]. right. by exists m. }
  eapply ran_trans; [exact H1|]. eapply ran_trans; [exact H2|].
  eapply ran_trans; [|apply ran_drop_host]. destruct (ca_can_remove a _); [|apply ran_refl].
  apply ran_delete. left. exists pool, h. auto.
Qed.

Lemma process_proper c pid s :
  c ∈ cl_children s0 → child_runs c pid → proper s (end_process a pid s).
Proof using.
  clear. intros Hc Hr. apply ran_record, Forall_cons. split; [cbn; right; by exists c|].
  destruct (ca_in_time a pid) eqn:E; [by apply Forall_nil|]. apply Forall_singleton. split; [done|by exists c].
Qed.

Lemma tree_proper dir s :
  (is_temporary dir = true → owned_temporary dir) → proper s (remove_tree xdg_state_home home a dir s).1.
Proof using.
  clear. intros Hd. unfold remove_tree. destruct (is_temporary dir) eqn:Et; cbn [negb]; [|apply ran_refl].
  specialize (Hd eq_refl). assert (proper s (record [TreeRemoved dir] s)) as H1 by (by apply ran_record, Forall_singleton).
  destruct (ca_tree_left a dir) as [kept|]; cbn [fst]; (eapply ran_trans; [exact H1|]); apply ran_set_files;
    intros p Hp; (destruct (below dir p) eqn:Eb; [destruct Hp; right; right; by exists dir|]);
    apply option_eq; intros f; rewrite map_lookup_filter_Some; naive_solver.
Qed.

Lemma temporary_proper c s :
  c ∈ cl_children s0 → ch_temporary c = true → cl_custodies s ⊆ cl_custodies s0 →
  proper s (cleanupTemporaryChild xdg_state_home home a c s).1.
Proof using.
  clear. intros Hc Ht HC. unfold cleanupTemporaryChild. set (dir := StateDir (ch_world c)).
  set (held := bool_decide (dir ∈ cl_custodies s)).
  set (s1 := if held then record [CustodyShutdown dir] s else s). assert (proper s s1) as H1.
  { unfold s1, held. case_bool_decide as Hd; [|apply ran_refl]. apply ran_record, Forall_singleton. by apply HC. }
  destruct (held && negb _); [exact H1|].
  assert (proper s1 (clean_artifacts a (ch_world c) (ch_identity c) s1).1) as H2
    by (apply artifacts_proper; intros p Hp; right; left; by exists c).
  destruct (clean_artifacts _ _ _ s1) as [s2 [e|]]; cbn [fst] in *; [by eapply ran_trans|].
  assert (proper s2 (remove_tree xdg_state_home home a dir s2).1) as H3
    by (apply tree_proper; intros Ed; split; [exact Ed|by exists c]).
  destruct (remove_tree _ _ _ _ s2) as [s3 [e|]]; cbn [fst] in *; (eapply ran_trans; [exact H1|]);
    (eapply ran_trans; [exact H2|]); [exact H3|]. eapply ran_trans; [exact H3|apply ran_drop_child].
Qed.

Lemma started_proper c s :
  c ∈ cl_children s0 → ch_temporary c = true → proper s (stopStartedChild a c s).
Proof using.
  clear. intros Hc Ht. unfold stopStartedChild. destruct (ch_pid c) as [pid|] eqn:Ep; [|apply ran_refl].
  destruct (ca_exited a pid) eqn:Ee; [apply ran_refl|]. apply (process_proper c); [done|]. by split; [|rewrite Ht].
Qed.

Lemma child_proper c s :
  c ∈ cl_children s0 → cl_custodies s ⊆ cl_custodies s0 → proper s (close_child xdg_state_home home a c s).
Proof using.
  clear. intros Hc HC. unfold close_child. destruct (ch_temporary c) eqn:Ht.
  - assert (proper s (stopStartedChild a c s)) as H1 by by apply started_proper.
    assert (proper (stopStartedChild a c s) (cleanupTemporaryChild xdg_state_home home a c (stopStartedChild a c s)).1) as H2
      by (apply temporary_proper; [done|done|etrans; [apply H1|done]]).
    destruct (cleanupTemporaryChild _ _ _ _ _) as [s2 o]. apply ran_noted. by eapply ran_trans.
  - eapply ran_trans; [|apply noted_artifacts_proper; intros p Hp; right; left; by exists c].
    destruct (ch_pid c) as [pid|] eqn:Ep; [|apply ran_refl]. destruct (ca_alive a pid) eqn:Ea; [|apply ran_refl].
    apply (process_proper c); [done|]. by split; [|rewrite Ht].
Qed.
End parts.

(** ** Lemmas: what is surely done *)

Lemma foldl_keeps {A B} (g : closing → B) (f : closing → A → closing) l s :
  (∀ s x, g (f s x) = g s) → g (foldl f s l) = g s.
Proof. intros H. revert s. induction l as [|x l IH]; intros s; [done|]. cbn. by rewrite IH, H. Qed.

(** What the removal of artifacts leaves alone. *)
Lemma member_keeps a m s :
  cl_log (close_member a m s) = cl_log s ∧ cl_children (close_member a m s) = cl_children s ∧
  cl_hosts (close_member a m s) = cl_hosts s.
Proof.
  unfold close_member, clean_artifacts. case_bool_decide; [done|].
  destruct (cleanupWorldArtifactsOwned _ _ _ _) as [fs [u|e]]; by destruct s.
Qed.

Lemma custody_keeps xdg home a d s :
  cl_custodies (close_custody xdg home a d s) = cl_custodies s ∧
  cl_children (close_custody xdg home a d s) = cl_children s ∧
  cl_hosts (close_custody xdg home a d s) = cl_hosts s.
Proof. unfold close_custody. destruct (temporary_dir _ _ _); [done|]. destruct s, (ca_custody a d); done. Qed.

Lemma host_keeps a ph s :
  cl_children (close_host a ph s) = cl_children s ∧
  cl_hosts (close_host a ph s) = filter (λ h, h.1 ≠ ph.1) (cl_hosts s) ∧
  (∀ pid, host_runs a ph.2 pid → Terminated pid ∈ cl_log (close_host a ph s)).
Proof.
  destruct ph as [pool h]. unfold close_host. cbn [fst snd].
  set (s1 := if wh_cmd h && ca_alive a (wh_PID h) then record [Terminated (wh_PID h)] s else s).
  set (s2 := foldl _ s1 (wh_Members h)).
  assert (cl_children s2 = cl_children s1) as Hc by (apply foldl_keeps; intros; apply member_keeps).
  assert (cl_hosts s2 = cl_hosts s1) as Hh by (apply foldl_keeps; intros; apply member_keeps).
  assert (cl_log s2 = cl_log s1) as Hl by (apply foldl_keeps; intros; apply member_keeps).
  assert (cl_children s1 = cl_children s) as Hc1 by (unfold s1; destruct s; by destruct (_ && _)).
  assert (cl_hosts s1 = cl_hosts s) as Hh1 by (unfold s1; destruct s; by destruct (_ && _)).
  set (s3 := if ca_can_remove a _ then _ else s2).
  assert (cl_children s3 = cl_children s2 ∧ cl_hosts s3 = cl_hosts s2 ∧ cl_log s3 = cl_log s2) as (Hc3 & Hh3 & Hl3)
    by (unfold s3; destruct (ca_can_remove a _); by destruct s2).
  assert (cl_children (drop_host pool s3) = cl_children s3 ∧ cl_log (drop_host pool s3) = cl_log s3 ∧
          cl_hosts (drop_host pool s3) = filter (λ h, h.1 ≠ pool) (cl_hosts s3)) as (Hc4 & Hl4 & Hh4) by (by destruct s3).
  split_and!; [congruence|congruence|]. intros pid (Hcmd & Ha & <-). rewrite Hl4, Hl3, Hl. unfold s1. rewrite Hcmd, Ha.
  destruct s. apply elem_of_app. right. by apply list_elem_of_singleton.
Qed.

Lemma hosts_closed a l s : ∀ ph, ph ∈ cl_hosts (foldl (λ s ph, close_host a ph s) s l) → ph ∈ cl_hosts s ∧ ph ∉ l.
Proof.
  revert s. induction l as [|x l IH]; intros s ph; [intros ?; split; [done|apply not_elem_of_nil]|]. cbn.
  intros [H1 H2]%IH. destruct (host_keeps a x s) as (_ & Hh & _). rewrite Hh in H1.
  apply list_elem_of_filter in H1 as [Hne Hin]. split; [done|]. intros [->|?]%elem_of_cons; [by apply Hne|done].
Qed.

Section done.
Context (xdg_state_home : string) (home : option string) (a : closing_answers) (s0 : closing).

Notation proper := (ran (may_happen xdg_state_home home a s0) (may_change xdg_state_home home s0)).

(** The failure of the cleanup of one temporary weaver. *)
Definition cleanup_failure (c : weaverChild) (e : closing_error) : Prop :=
  match e with
  | TemporaryCustody dir | NotTemporary dir | TreeFailed dir => dir = StateDir (ch_world c)
  | ArtifactsFailed dir _ => dir = ConfigDir (ch_world c)
  | CustodyFailed _ => False
  end.

Lemma end_process_logs pid s :
  Terminated pid ∈ cl_log (end_process a pid s) ∧ (ca_in_time a pid = false → Killed pid ∈ cl_log (end_process a pid s)).
Proof using.
  clear. unfold end_process. destruct s. cbn. split; [|intros ->]; apply elem_of_app; right; set_solver.
Qed.

(** A child is closed: its process was ended, and if it is temporary it is released or the
    failure is noted. *)
Lemma child_done c s pid :
  c ∈ cl_children s0 → cl_custodies s ⊆ cl_custodies s0 → child_runs a c pid →
  Terminated pid ∈ cl_log (close_child xdg_state_home home a c s) ∧
  (ca_in_time a pid = false → Killed pid ∈ cl_log (close_child xdg_state_home home a c s)).
Proof using.
  clear. intros Hc HC [Hp Hr]. unfold close_child. destruct (ch_temporary c) eqn:Ht.
  - assert (proper s (stopStartedChild a c s)) as H1 by by apply started_proper.
    assert (proper (stopStartedChild a c s) (noted (cleanupTemporaryChild xdg_state_home home a c (stopStartedChild a c s)))) as H2.
    { pose proof (temporary_proper xdg_state_home home a s0 c (stopStartedChild a c s) Hc Ht) as H.
      destruct (cleanupTemporaryChild _ _ _ _ _). apply ran_noted, H. etrans; [apply H1|done]. }
    destruct (end_process_logs pid s) as [Hl Hk]. unfold stopStartedChild in *. rewrite Hp, Hr in *.
    split; [|intros ?]; (eapply ran_event; [exact H2|auto]).
  - rewrite Hp, Hr. destruct (end_process_logs pid s) as [Hl Hk].
    pose proof (noted_artifacts_proper xdg_state_home home a s0 (ch_world c) (ch_identity c) (end_process a pid s)) as H.
    assert (proper (end_process a pid s) (noted (clean_artifacts a (ch_world c) (ch_identity c) (end_process a pid s)))) as H2
      by (apply H; intros p Hpp; right; left; by exists c).
    split; [|intros ?]; (eapply ran_event; [exact H2|auto]).
Qed.

Lemma temporary_done c s :
  let '(s', o) := cleanupTemporaryChild xdg_state_home home a c s in
  match o with Some e => cleanup_failure c e | None => c ∉ cl_children s' end.
Proof using.
  clear. unfold cleanupTemporaryChild. destruct (_ && negb _); [done|].
  set (s1 := if bool_decide _ then _ else s). unfold clean_artifacts.
  assert (∀ s, let '(s', o) := match remove_tree xdg_state_home home a (StateDir (ch_world c)) s with
                               | (s, Some e) => (s, Some e) | (s, None) => (drop_child c s, None) end in
    match o with Some e => cleanup_failure c e | None => c ∉ cl_children s' end) as Htree.
  { intros s'. unfold remove_tree. destruct (negb _); [done|]. destruct (ca_tree_left a _); [done|].
    set (s2 := set_files _ _). destruct s2. cbn. rewrite list_elem_of_filter. by intros [? _]. }
  destruct (bool_decide (id_WeaverID (ch_identity c) = "")); [apply Htree|].
  destruct (cleanupWorldArtifactsOwned _ _ _ _) as [fs [u|e]]; [apply Htree|done].
Qed.

Lemma child_released c s :
  ch_temporary c = true →
  (∃ e, e ∈ cl_failures (close_child xdg_state_home home a c s) ∧ cleanup_failure c e) ∨
  c ∉ cl_children (close_child xdg_state_home home a c s).
Proof using.
  clear. intros Ht. unfold close_child. rewrite Ht. pose proof (temporary_done c (stopStartedChild a c s)) as H.
  destruct (cleanupTemporaryChild _ _ _ _ _) as [s' [e|]]; [|by right]. left. exists e. split; [|done].
  cbn. destruct s'. apply elem_of_app. right. by apply list_elem_of_singleton.
Qed.
End done.

Section shutdown.
Context (xdg_state_home : string) (home : option string) (a : closing_answers) (s0 : closing).

Notation proper := (ran (may_happen xdg_state_home home a s0) (may_change xdg_state_home home s0)).
Notation custodies_closed := (close_custodies xdg_state_home home a (refuse_starts s0)).
Notation hosts_closed_state := (close_hosts a custodies_closed).
Notation routes_cleared := (clear_routes hosts_closed_state).
Notation final := (close_children xdg_state_home home a routes_cleared).

Lemma custodies_phase :
  proper (refuse_starts s0) custodies_closed ∧ cl_hosts custodies_closed = cl_hosts s0 ∧
  cl_children custodies_closed = cl_children s0 ∧
  (∀ d, d ∈ cl_custodies s0 → temporary_dir xdg_state_home home d = false →
     CustodyShutdown d ∈ cl_log custodies_closed ∧
     (ca_custody a d = false → CustodyFailed d ∈ cl_failures custodies_closed)).
Proof.
  assert (cl_custodies (refuse_starts s0) = cl_custodies s0 ∧ cl_hosts (refuse_starts s0) = cl_hosts s0 ∧
          cl_children (refuse_starts s0) = cl_children s0) as (Hcu & Hho & Hch) by (by destruct s0).
  unfold close_custodies. split_and!.
  - apply (ran_foldl _ _ (close_custody xdg_state_home home a) (cl_custodies s0)); [|by rewrite Hcu].
    intros d s Hd _. apply custody_proper. by rewrite <-Hcu.
  - rewrite <-Hho. apply foldl_keeps. intros. apply custody_keeps.
  - rewrite <-Hch. apply foldl_keeps. intros. apply custody_keeps.
  - intros d Hd Ht. rewrite <-Hcu in Hd.
    destruct (ran_foldl_at (may_happen xdg_state_home home a s0) (may_change xdg_state_home home s0)
      (close_custody xdg_state_home home a) (cl_custodies s0) (cl_custodies (refuse_starts s0)) d (refuse_starts s0)) as (s1 & _ & _ & H);
      [|by rewrite Hcu|exact Hd|].
    { intros x s Hx _. apply custody_proper. by rewrite <-Hcu. }
    split; [eapply ran_event; [exact H|]|intros Hf; eapply ran_failure; [exact H|]]; unfold close_custody; rewrite Ht.
    + destruct (ca_custody a d), s1; apply elem_of_app; right; by apply list_elem_of_singleton.
    + rewrite Hf. destruct s1. apply elem_of_app. right. by apply list_elem_of_singleton.
Qed.

Lemma hosts_phase :
  proper custodies_closed hosts_closed_state ∧ cl_hosts hosts_closed_state = [] ∧
  cl_children hosts_closed_state = cl_children s0 ∧
  (∀ pool h pid, (pool, h) ∈ cl_hosts s0 → host_runs a h pid → Terminated pid ∈ cl_log hosts_closed_state).
Proof.
  destruct custodies_phase as (_ & Hho & Hch & _). unfold close_hosts.
  assert (∀ ph s, ph ∈ cl_hosts custodies_closed → cl_custodies s ⊆ cl_custodies custodies_closed → proper s (close_host a ph s))
    as Hstep by (intros ph s Hp _; apply host_proper; by rewrite <-Hho).
  split_and!.
  - by apply (ran_foldl _ _ (close_host a) (cl_custodies custodies_closed)).
  - destruct (cl_hosts (foldl _ _ _)) as [|ph l] eqn:E; [done|]. exfalso.
    destruct (hosts_closed a (cl_hosts custodies_closed) custodies_closed ph) as [H1 H2]; [rewrite E; by left|done].
  - rewrite <-Hch. apply foldl_keeps. intros s ph. apply host_keeps.
  - intros pool h pid Hin Hr. rewrite <-Hho in Hin.
    destruct (ran_foldl_at _ _ (close_host a) (cl_custodies custodies_closed) (cl_hosts custodies_closed) (pool, h) custodies_closed Hstep) as (s1 & _ & _ & H); [done|done|].
    eapply ran_event; [exact H|]. by apply host_keeps.
Qed.

Lemma children_phase :
  proper routes_cleared final ∧
  (∀ c pid, c ∈ cl_children s0 → child_runs a c pid →
     Terminated pid ∈ cl_log final ∧ (ca_in_time a pid = false → Killed pid ∈ cl_log final)) ∧
  (∀ c, c ∈ cl_children final → ch_temporary c = true → ∃ e, e ∈ cl_failures final ∧ cleanup_failure c e).
Proof.
  destruct custodies_phase as ([_ _ _ _ _ Hcu1 _ _] & _). destruct hosts_phase as ([_ _ _ _ _ Hcu2 _ _] & _ & Hch & _).
  assert (cl_children routes_cleared = cl_children s0) as Hch' by (rewrite <-Hch; by destruct hosts_closed_state).
  assert (cl_custodies routes_cleared ⊆ cl_custodies s0) as HC.
  { transitivity (cl_custodies hosts_closed_state); [by destruct hosts_closed_state|]. etrans; [exact Hcu2|].
    etrans; [exact Hcu1|]. by destruct s0. }
  assert (∀ c s, c ∈ cl_children routes_cleared → cl_custodies s ⊆ cl_custodies s0 →
            proper s (close_child xdg_state_home home a c s)) as Hstep
    by (intros c s Hc Hs; apply child_proper; [by rewrite <-Hch'|done]).
  assert (proper routes_cleared final) as Hfinal by (by apply (ran_foldl _ _ (close_child xdg_state_home home a) (cl_custodies s0))).
  split; [done|]. split.
  - intros c pid Hc Hr. assert (c ∈ cl_children routes_cleared) as Hc' by (by rewrite Hch').
    destruct (ran_foldl_at _ _ (close_child xdg_state_home home a) (cl_custodies s0) (cl_children routes_cleared) c routes_cleared Hstep) as (s1 & Hs1 & _ & H); [done|done|].
    destruct (child_done xdg_state_home home a s0 c s1 pid) as [Hl Hk]; [done..|].
    split; [|intros ?]; (eapply ran_event; [exact H|auto]).
  - intros c Hc Ht. assert (c ∈ cl_children routes_cleared) as Hc' by (by apply Hfinal).
    destruct (ran_foldl_at _ _ (close_child xdg_state_home home a) (cl_custodies s0) (cl_children routes_cleared) c routes_cleared Hstep) as (s1 & Hs1 & _ & H); [done|done|].
    destruct (child_released xdg_state_home home a c s1 Ht) as [(e & He & Hf)|Hno].
    + exists e. split; [|done]. by eapply ran_failure.
    + destruct Hno. by apply H.
Qed.

Lemma whole_phase : proper (refuse_starts s0) final.
Proof.
  destruct custodies_phase as (H1 & _). destruct hosts_phase as (H2 & _). destruct children_phase as (H3 & _).
  eapply ran_trans; [exact H1|]. eapply ran_trans; [exact H2|]. eapply ran_trans; [|exact H3].
  destruct hosts_closed_state. split; try done; by exists []; rewrite app_nil_r.
Qed.

End shutdown.

(** ** Examples *)

Definition sample_closing (temporary : bool) : closing :=
  mkClosing false ["/state/custody"] [] {["p" := 0]}
    [mkWeaverChild (mkWorld "/r/.millstrand" "/s/w" "/s/w/data" "/s/w/data/db" "") temporary (Some 7%Z) zero_identity] ∅ [] [].

Definition sample_answers : closing_answers :=
  mkClosingAnswers (λ _, false) (λ _, true) (λ _, false) (λ _, false) (λ _, true) (λ _, None).

Example killed_child :
  (λ r, (cl_log r.1, r.2, length (cl_children r.1))) (stopAll "" (Some "/home/u") sample_answers (sample_closing false))
  = ([CustodyShutdown "/state/custody"; Terminated 7; Killed 7], [CustodyFailed "/state/custody"], 1).
Proof. vm_compute. reflexivity. Qed.

(** A directory that is not a temporary one is not removed. *)
Example guarded_tree :
  (λ r, (cl_log r.1, r.2, length (cl_children r.1))) (stopAll "" (Some "/home/u") sample_answers (sample_closing true))
  = ([CustodyShutdown "/state/custody"; Terminated 7; Killed 7],
     [CustodyFailed "/state/custody"; NotTemporary "/s/w"], 1).
Proof. vm_compute. reflexivity. Qed.
