(* ===== verification/MillCommand.v ===== *)
(** Two commands of mill as a whole (src/cli/cmd/mill/changelog.go and usage.go): the change
    log of the release that would be launched, and all that is written when a command
    fails. The command tree belongs to a library: what it knows of the failed command is
    given. *)

From S2P Require Import Launch.
From S2P Require Client.
From S2P Require Errfmt.

(** ** The change log *)

Inductive changelog_error :=
| NoWorkingDirectory
| NoChangelogSource (e : resolve_error)
| BadChangelogRelease (e : source_error)
| OtherRelease (source binary : string)
| ChangelogMissing (path : string)
| ChangelogIrregular (path : string)
| ChangelogUnreadable (path : string)
| ChangelogEmpty (path : string).

Section changelog.
Context (home : option string) (stat : string → option stat_info) (read : string → option string).
Context (Version InstalledSource MILLSTRAND_SOURCE : string) (git_root : string → option string).

Definition changelogFileName : string := "CHANGELOG.md".

(** The content of a file that is regular and not empty. *)
Definition read_changelog (path : string) : result changelog_error string :=
  match stat path with
  | None => Err (ChangelogMissing path)
  | Some k =>
      ensure (bool_decide (k = StatRegular)) (ChangelogIrregular path) ;;
      match read path with
      | None => Err (ChangelogUnreadable path)
      | Some content => ensure (negb (bool_decide (content = ""))) (ChangelogEmpty path) ;; Ok content
      end
  end.

Definition renderChangelog (cwd : option string) : result changelog_error string :=
  match cwd with
  | None => Err NoWorkingDirectory
  | Some cwd =>
      match resolveLaunchSource home stat read Version InstalledSource MILLSTRAND_SOURCE git_root cwd with
      | Err e => Err (NoChangelogSource e)
      | Ok (source, _) =>
          match ValidateSourceVersion stat read source Version with
          | Err e => Err (BadChangelogRelease e)
          | Ok version =>
              ensure (bool_decide (Version = "dev") || bool_decide (version = Version)) (OtherRelease version Version) ;;
              read_changelog (PathJoin [source; changelogFileName])
          end
      end
  end.
End changelog.

(** ** What a failure writes *)

(** The guidance that a failed command earns: the usage block of the command whose
    invocation was malformed, or the path of a command that cannot run. *)
Record failed_command := mkFailedCommand {
  fc_envelope : option string;
  fc_error : Client.call_error;
  fc_usage : option string;
  fc_command : option (list string * bool);
}.

(** [millCommandPath]: the words of the path but the first. *)
Definition millCommandPath (cmd : option (list string * bool)) : list string :=
  match cmd with Some (path, _) => tail path | None => [] end.

Section failure.
Context (lower : string → string) (en : Errfmt.env) (out : Errfmt.writer).

Notation mode := (Errfmt.ModeFor en out).

Definition writeMillCommandError (f : failed_command) : string :=
  match fc_envelope f with
  | Some line => line
  | None => Errfmt.Render lower en (Client.ForRendering (fc_error f) (millCommandPath (fc_command f))) mode
  end.

Definition guidance (f : failed_command) : string :=
  if bool_decide (is_Some (fc_envelope f)) || bool_decide (mode = Errfmt.JSON) then ""
  else match fc_usage f with
       | Some usage => usage
       | None =>
           match fc_command f with
           | Some (path, false) => Errfmt.RenderRemedy en (Join path " " +:+ " --help") mode
           | _ => ""
           end
       end.

Definition writeMillCommandFailure (f : failed_command) : string := writeMillCommandError f +:+ guidance f.
End failure.

(** ** Theorems *)

Section theorems.
Context (home : option string) (stat : string → option stat_info) (read : string → option string).
Context (Version InstalledSource MILLSTRAND_SOURCE : string) (git_root : string → option string).

(** A change log that is shown is the one of a checkout that mill would launch from, is not
    empty, and is of the release of the binary unless that is a development build. *)
Theorem changelog_shown cwd content :
  renderChangelog home stat read Version InstalledSource MILLSTRAND_SOURCE git_root cwd = Ok content →
  content ≠ "" ∧ ∃ dir source, cwd = Some dir ∧ checkout stat read source ∧
    stat (PathJoin [source; "CHANGELOG.md"]) = Some StatRegular ∧
    read (PathJoin [source; "CHANGELOG.md"]) = Some content ∧
    (∃ unusable, resolveLaunchSource home stat read Version InstalledSource MILLSTRAND_SOURCE git_root dir
       = Ok (source, unusable)) ∧
    (Version = "dev" ∨ read (PathJoin [source; "VERSION"]) = Some (Version +:+ of_bytes [newline_byte])).
Proof.
  unfold renderChangelog. destruct cwd as [dir|]; [|done].
  destruct (resolveLaunchSource _ _ _ _ _ _ _ dir) as [[source unusable]|] eqn:Er; [|done].
  destruct (ValidateSourceVersion stat read source Version) as [version|] eqn:Ev; [|done].
  unfold read_changelog. intros H. inv_ok. destruct (stat (PathJoin [source; changelogFileName])) as [k|] eqn:Ek; [|done].
  inv_ok. destruct (read (PathJoin [source; changelogFileName])) as [c|] eqn:Ec; [|done]. inv_ok. bools. subst k.
  split; [done|]. exists dir, source. split_and!; [done|by eapply resolved_checkout|done|done|by exists unusable|].
  destruct (decide (Version = "dev")) as [?|Hn]; [by left|]. right.
  match goal with H : bool_decide (Version = "dev") || _ = true |- _ => rewrite (bool_decide_false _ Hn) in H; apply bool_decide_eq_true_1 in H end.
  subst version. unfold ValidateSourceVersion in Ev.
  destruct (SourceVersion stat read source) as [v|] eqn:Es; [|done]. cbn in Ev. rewrite (bool_decide_false _ Hn) in Ev.
  destruct (ensure (ValidVersion Version) _); [|done]. cbn in Ev. injection Ev as ->.
  by apply SourceVersion_ok in Es as (_ & ? & _).
Qed.
End theorems.

Lemma append_nothing (s : string) : s +:+ "" = s.
Proof. induction s as [|c s IH]; [done|]. exact (f_equal (String c) IH). Qed.

(** In the JSON format a failure that is no bin's is one line, and nothing follows it,
    whatever command failed and why. *)
Theorem failure_one_line lower en out f :
  fc_envelope f = None → Errfmt.ModeFor en out = Errfmt.JSON →
  map_Forall (λ _, decoded) (Errfmt.Details (Client.ForRendering (fc_error f) (millCommandPath (fc_command f)))) →
  ∃ text, writeMillCommandFailure lower en out f = text +:+ Errfmt.newline ∧ single_line text.
Proof.
  intros He Hm Hd. unfold writeMillCommandFailure, guidance, writeMillCommandError. rewrite He, Hm.
  match goal with |- context [if ?b then _ else _] => replace b with true by (vm_compute; reflexivity) end.
  rewrite append_nothing.
  by apply (Errfmt.machine_modes_one_line lower en).
Qed.

Definition sample_failure : failed_command :=
  mkFailedCommand None (Client.Bare "boom") (Some "usage") (Some (["mill"; "weaver"], false)).

Lemma failure_one_line_witness :
  ∃ text, writeMillCommandFailure id (Errfmt.mkEnv "json" "" "") (Errfmt.WFile true) sample_failure
    = text +:+ Errfmt.newline ∧ single_line text.
Proof.
  refine (failure_one_line id (Errfmt.mkEnv "json" "" "") (Errfmt.WFile true) sample_failure eq_refl _ _);
    [vm_compute; reflexivity|]. intros k v H. vm_compute in H. discriminate H.
Defined.

Example failure_plain :
  writeMillCommandFailure id (Errfmt.mkEnv "plain" "" "") (Errfmt.WFile true)
    (mkFailedCommand None (Client.Bare "boom") None (Some (["mill"; "weaver"], false)))
  = "error: boom" +:+ Errfmt.newline +:+ "try: mill weaver --help" +:+ Errfmt.newline.
Proof. vm_compute. reflexivity. Qed.

Definition sample_release (path : string) : option string :=
  if bool_decide (path = "/src/CHANGELOG.md") then Some "# 1.2.3" else sample_read path.

Definition sample_release_stat (path : string) : option stat_info :=
  if bool_decide (path = "/src/CHANGELOG.md") then Some StatRegular else sample_stat path.

Lemma changelog_shown_witness :
  renderChangelog None sample_release_stat sample_release "1.2.3" "/src" "" (λ _, None) (Some "/w") = Ok "# 1.2.3" ∧
  "# 1.2.3" ≠ "".
Proof.
  assert (renderChangelog None sample_release_stat sample_release "1.2.3" "/src" "" (λ _, None) (Some "/w") = Ok "# 1.2.3")
    as H by (vm_compute; reflexivity).
  split; [exact H|]. exact (proj1 (changelog_shown _ _ _ _ _ _ _ _ _ H)).
Defined.
